(* ===== verification/_CoqProject ===== *)
-Q . S2P
Prelude.v
BigMath.v
VmData.v
MathTheorems.v
GoHeap.v
TxTypes.v
TxList.v
TxListSpec.v
TxListRefine.v
TxPriced.v
TxByPrice.v
Encoding.v
Rlp.v
RlpSpec.v
RlpDecode.v
RlpTheorems.v
RlpCodec.v
RlpRaw.v
Trie.v
TrieTree.v
TrieCodec.v
TrieRefine.v
TrieHash.v
TrieMap.v
TrieProof.v
TrieSecure.v
Abi.v
AbiSafety.v
CodecTheorems.v
VmState.v
StateSpec.v
GasTable.v
GasTheorems.v
Ota.v
Privacy.v
Staking.v
StakeOut.v
Contracts.v
StakingCodec.v
StakingSpec.v
Instructions.v
Evm.v
Transition.v
TxPool.v
TxPoolInv.v
TxPoolSteps.v
TxPoolReset.v
EvmInv.v
StakingSafety.v
PrivacySpec.v
PrivacySafety.v
EvmExec.v
EvmGas.v
EvmStep.v
EvmTable.v
EvmSafety.v
TransitionSafety.v
StakingCall.v
StakeOutSpec.v
StakeOutSafety.v
StakeOutRefine.v
StakingHistory.v
EvmFuel.v
CoreState.v
CoreStateSpec.v
StateIterate.v
StateCodec.v
Sample.v
WanSample.v
StateTheorems.v
TrieTheorems.v
DeriveSha.v
TxListTheorems.v
TxPoolTheorems.v
EvmSemantics.v
EvmTheorems.v
PrivacyTheorems.v
StakingTheorems.v
TransitionTheorems.v
