(* ===== verification/Prelude.v ===== *)
(** * A verification of the execution layer of go-wanchain

    go-wanchain is a node of the Wanchain network, in Go.  The development models
    the part of it that decides what a transaction does to the state of the chain,
    and proves what users and validators rely on.  Paths are under src/.

    ** The parts and how they interact

    A transaction is applied by core/state_transition.go.  It buys gas, lets the
    virtual machine (core/vm) execute a message call or create a contract, refunds
    gas and pays the fee.  The machine works on a state database (core/state) with
    journalled changes and snapshots over tries; some addresses are native
    contracts: private coins and stamps, which keep one-time accounts in the
    storage of reserved addresses, and the staking contract, which keeps records of
    validators there.  At the end of an epoch pos/epochLeader pays stakes back.
    Records and accounts are coded by package rlp, arguments of native contracts by
    accounts/abi; maps and lists are stored and summed up by Merkle tries (package
    trie).  Transactions wait in the pool (core/tx_pool.go), from which the miner
    takes them in the order of core/types/transaction.go.

    ** Files and the sources they model

    - Prelude: the state and error monad [ST] with outcomes [Ok], [Fail] (a Go
      error), [Panic] and [OutOfFuel], its weakest preconditions [wp], slices with
      bounds checks, machine integers, tactics and hints.
    - BigMath: math/big as far as it is used, common/math, common/bytes.go,
      common/types.go.  VmData: core/vm/stack.go, memory.go, common.go,
      memory_table.go, stack_table.go, opcodes.go, analysis.go.
    - Encoding: hexadecimal text and points of the curve (common/hexutil,
      crypto/crypto.go, accounts/keystore/key.go).  Abi: accounts/abi, with
      AbiSafety (decoding does not panic).
    - Rlp: package rlp, encoder and stream decoder; RlpSpec and RlpDecode relate
      both to the format; RlpCodec is the interface to records coded by it;
      RlpRaw covers raw.go.
    - Trie: package trie.  TrieTree: the canonical tree of a map, TrieCodec: the
      coding of nodes, TrieRefine: lookup, insertion and deletion refine the tree,
      TrieHash: hashing and commits, TrieMap: the operations of a trie on a map,
      TrieProof: proof.go, TrieSecure: secure_trie.go.  DeriveSha:
      core/types/derive_sha.go.
    - GoHeap: container/heap.  TxTypes, TxByPrice: core/types/transaction.go.
      TxList, TxPriced: core/tx_list.go, with TxListSpec and TxListRefine (lists
      ordered by nonce).  TxPool: core/tx_pool.go, tx_journal.go,
      core/state/managed_state.go and the priority queue it uses, with the
      invariant in TxPoolInv, the calls that add transactions in TxPoolSteps and
      new heads in TxPoolReset.
    - VmState: the StateDB interface, contracts, EVM and interpreter fields.
      StateSpec: the abstract state [astate] and the class [StateDBSpec] of
      promises of a database, against which the machine is verified.
    - GasTable: core/vm/gas.go, gas_table.go.  Instructions:
      core/vm/instructions.go.  Evm: jump_table.go, interpreter.go, evm.go.
    - Ota, Privacy: core/vm/ota_storage.go and the native contracts of
      contracts.go.  Staking: core/vm/pos_staking_contracts.go, pos_storage.go,
      contracts_event.go.  StakeOut: StakeOutRun of pos/epochLeader.  Contracts:
      the table of core/vm/precompiled_contracts_addr.go.
    - Transition: core/state_transition.go, core/gaspool.go,
      pos/incentive/txGasPool.go.
    - CoreState: core/state/state_object.go, journal.go, statedb.go.
      CoreStateSpec makes it an instance of [StateDBSpec]; StateIterate covers the
      iteration over storage, StateCodec the coding of accounts.
    - EvmInv, EvmExec, EvmGas, EvmStep, EvmTable, EvmSafety, EvmFuel: the machine
      keeps its invariants, from single instructions up to calls.
      StakingCodec, StakingSpec, StakingSafety, StakingCall, StakeOutSpec,
      StakeOutSafety, StakeOutRefine, StakingHistory: the same for staking.
      PrivacySpec, PrivacySafety: private money.  TransitionSafety: transactions.
    - Sample, WanSample: concrete machines, which the witnesses evaluate.

    A Go function that changes state is a function in [ST]; integers of a machine
    width are [Z] with the wrap-around written out ([u64], [U256]); an index or a
    slice out of range is [Panic].  The files on transactions and their pool use
    [option], where [None] is a panic.  What is not under the modelled files is a
    parameter: the hash function, the verification of signatures, other native
    contracts, the order of Go's map iteration; the state database is written over
    an interface of tries, and the pool over what it asks of the state.  Each has a class or record
    of the properties that are used, and an instance in Sample or WanSample.

    ** What the theorems show

    - MathTheorems, GasTheorems, EvmSemantics: helpers, gas and instructions
      compute their mathematical meaning.  CodecTheorems, RlpTheorems: encodings
      are inverted by their decoders; rlp is canonical and its decoder total.
    - StateTheorems: the journalled database refines the abstract state, and a
      revert undoes everything since the snapshot.
    - EvmTheorems: execution ends, never panics, creates no money, a failed call
      leaves no trace and a read-only call changes nothing.
    - PrivacyTheorems: private money is conserved and spent once.
    - StakingTheorems: stakes recorded are covered by the balance of the contract,
      nobody changes the stake of another, the payout refines a closed form that
      does not depend on map order, and a stake is returned after its lock time.
    - TrieTheorems: a trie, also with hashed keys, refines a finite map over any
      history; its root binds the map, and Merkle proofs are sound and complete.
      DeriveSha: the root of a list binds its elements.
    - TxListTheorems, TxPoolTheorems: the lists of the pool refine ordered lists;
      the pool never panics, stays consistent over any history, settles on every
      new head, and offers the miner transactions that follow the nonces of the
      state.
    - TransitionTheorems: transactions are safe, account for their gas, and a
      failed one costs the fee only.
    - Theorems of kind "error" exhibit behaviour the code does not mean to have.

    ** Fuel and bounds

    The interpreter recurses through calls and loops; [run] takes fuel, one unit
    per iteration and per nested call.  Every iteration that continues pays at
    least one unit of gas, so gas plus two is enough (EvmTheorems.run_total), and
    more fuel changes nothing (run_fuel_irrelevant).  The decoder of rlp takes the
    length of the input plus one as fuel for its loop over list elements, which
    consumes a byte per element (rlp_canonical).  The recursions of a trie take twice
    the length of the key plus two, since each step down consumes a nibble or loads
    a node (TrieMap.depth_enough).  The loops on heaps take the length of the heap,
    one element each; the loops that level the pending lists take the number of
    pending transactions; the walk down two chains takes their heights
    (TxPoolReset.reorg_ok).  Other loops are structural, over
    lists or over the words of an integer.  Inputs are bounded by 2^62 bytes, less
    than what fits in memory, to exclude wrap-around of lengths; the pool holds less
    than 2^24 transactions, since its priorities are numbers of float32, and no
    nonce is 2^64 - 1.

    ** Not modelled

    Networking, RPC, wallets, tools, block insertion, consensus engines, leader
    selection and the random beacon, trie iterators and synchronisation, the on-disk
    database, the cryptographic primitives, and tracing.  The writing of state
    objects to tries at the end of a block (Finalise, CommitTo) is not modelled
    either. *)

From stdpp Require Export base gmap list fin_maps numbers.
From Stdlib Require Export ZArith Lia.
From Stdlib.Strings Require Export Byte.

#[global] Set Default Goal Selector "!".

Declare Scope go_scope.
Delimit Scope go_scope with go.
Open Scope Z_scope.

(** [lia] extended to division and modulo by constants. *)
Ltac zlia := Z.to_euclidean_division_equations; lia.

(** * Fixed-width unsigned integers *)

(** Go's [uint64] and [int64] conversions: reduction modulo 2^64, and the
    two's complement reading of the low 64 bits. *)
Definition u64 (z : Z) : Z := z mod 2 ^ 64.
Definition s64 (z : Z) : Z := (z + 2 ^ 63) mod 2 ^ 64 - 2 ^ 63.

Lemma u64_range z : 0 <= u64 z < 2 ^ 64.
Proof. unfold u64. apply Z.mod_pos_bound. lia. Qed.

Lemma u64_small z : 0 <= z < 2 ^ 64 -> u64 z = z.
Proof. apply Z.mod_small. Qed.

Lemma s64_small z : - 2 ^ 63 <= z < 2 ^ 63 -> s64 z = z.
Proof. intros. unfold s64. rewrite Z.mod_small; lia. Qed.

(** * Byte arrays of a fixed length

    [common.Address] is [20]byte and [common.Hash] is [32]byte; an array of n
    bytes is represented by its big-endian value, a number below 2^(8n). *)
Record bits (w : N) := Bits {
  bits_val : Z;
  bits_range : Is_true ((0 <=? bits_val) && (bits_val <? 2 ^ Z.of_N w));
}.
Arguments Bits {w} _ _.
Arguments bits_val {w} _.
Arguments bits_range {w} _.

Lemma bits_mod_range (w : N) (z : Z) :
  Is_true ((0 <=? z mod 2 ^ Z.of_N w) && (z mod 2 ^ Z.of_N w <? 2 ^ Z.of_N w)).
Proof.
  apply Is_true_true. assert (0 < 2 ^ Z.of_N w) by (apply Z.pow_pos_nonneg; lia).
  pose proof (Z.mod_pos_bound z (2 ^ Z.of_N w)). lia.
Qed.

Definition bits_of (w : N) (z : Z) : bits w :=
  Bits (z mod 2 ^ Z.of_N w) (bits_mod_range w z).

Lemma bits_val_of (w : N) (z : Z) : bits_val (bits_of w z) = z mod 2 ^ Z.of_N w.
Proof. done. Qed.

Lemma bits_bound {w} (b : bits w) : 0 <= bits_val b < 2 ^ Z.of_N w.
Proof. destruct b as [v Hv]. cbn. apply Is_true_true in Hv. lia. Qed.

Lemma bits_eq {w} (a b : bits w) : bits_val a = bits_val b -> a = b.
Proof.
  destruct a as [v Hv], b as [v' Hv']. cbn. intros ->.
  f_equal. apply proof_irrel.
Qed.

Lemma bits_of_val {w} (b : bits w) : bits_of w (bits_val b) = b.
Proof. apply bits_eq. cbn. apply Z.mod_small, bits_bound. Qed.

#[export] Instance bits_eq_dec {w} : EqDecision (bits w).
Proof.
  intros a b. destruct (Z.eq_dec (bits_val a) (bits_val b)) as [H|H].
  - left. by apply bits_eq.
  - right. by intros ->.
Defined.

#[export] Instance bits_countable {w} : Countable (bits w) :=
  inj_countable bits_val (fun z => Some (bits_of w z))
    (fun b => f_equal Some (bits_of_val b)).

#[export] Instance bits_inhabited {w} : Inhabited (bits w) :=
  populate (bits_of w 0).

(** * Bytes *)

Definition byte_Z (b : byte) : Z := Z.of_N (Byte.to_N b).
Definition Z_byte (z : Z) : byte :=
  default x00 (Byte.of_N (Z.to_N (z mod 256))).

Lemma byte_Z_range b : 0 <= byte_Z b < 256.
Proof.
  unfold byte_Z. pose proof (Byte.to_N_bounded b). lia.
Qed.

Lemma byte_Z_Z_byte z : byte_Z (Z_byte z) = z mod 256.
Proof.
  unfold byte_Z, Z_byte. pose proof (Z.mod_pos_bound z 256 ltac:(lia)).
  destruct (Byte.of_N (Z.to_N (z mod 256))) as [b|] eqn:E; cbn.
  - apply Byte.to_of_N_iff in E. lia.
  - apply Byte.of_N_None_iff in E. lia.
Qed.

Lemma Z_byte_byte_Z b : Z_byte (byte_Z b) = b.
Proof.
  unfold Z_byte. rewrite Z.mod_small by apply byte_Z_range.
  unfold byte_Z. rewrite N2Z.id, Byte.of_to_N. done.
Qed.

Lemma byte_Z_inj a b : byte_Z a = byte_Z b -> a = b.
Proof.
  intros H. rewrite <- (Z_byte_byte_Z a), <- (Z_byte_byte_Z b). by rewrite H.
Qed.

#[export] Instance byte_eq_decision : EqDecision byte := Byte.byte_eq_dec.

#[export] Instance byte_countable : Countable byte :=
  inj_countable byte_Z (fun z => Some (Z_byte z)) (fun b => f_equal Some (Z_byte_byte_Z b)).

(** * Slices

    Go indexes slices with [int]; [len], [slice] and [index] are the length,
    the slice expression [l[a:b]] and the index expression [l[i]].  An
    expression out of range is a run-time panic, [None] here.  (Go bounds
    [l[a:b]] by the capacity of [l]; the model bounds it by the length, so a
    slice expression that the model accepts is accepted by Go.) *)
Definition len {A} (l : list A) : Z := Z.of_nat (length l).

Definition slice {A} (l : list A) (a b : Z) : option (list A) :=
  if (0 <=? a) && (a <=? b) && (b <=? len l)
  then Some (take (Z.to_nat (b - a)) (drop (Z.to_nat a) l))
  else None.

Definition index {A} (l : list A) (i : Z) : option A :=
  if 0 <=? i then l !! Z.to_nat i else None.

(** [splice off v l] is [l] after [copy(l[off:off+len(v)], v)]. *)
Definition splice {A} (off : nat) (v l : list A) : list A :=
  take off l ++ v ++ drop (off + length v) l.

Lemma len_nonneg {A} (l : list A) : 0 <= len l.
Proof. unfold len. lia. Qed.

Lemma len_nil {A} : len (@nil A) = 0.
Proof. done. Qed.

Lemma len_cons {A} (x : A) l : len (x :: l) = len l + 1.
Proof. unfold len. cbn. lia. Qed.

Lemma len_nil_iff {A} (l : list A) : len l = 0 <-> l = [].
Proof. unfold len. destruct l; cbn; split; (done || lia). Qed.

Lemma len_app {A} (l k : list A) : len (l ++ k) = len l + len k.
Proof. unfold len. rewrite length_app. lia. Qed.

Lemma len_replicate {A} n (x : A) : len (replicate n x) = Z.of_nat n.
Proof. unfold len. by rewrite length_replicate. Qed.

Lemma slice_Some {A} (l : list A) a b :
  0 <= a <= b -> b <= len l ->
  slice l a b = Some (take (Z.to_nat (b - a)) (drop (Z.to_nat a) l)).
Proof.
  intros. unfold slice.
  replace ((0 <=? a) && (a <=? b) && (b <=? len l)) with true by lia. done.
Qed.

Lemma slice_len {A} (l k : list A) a b :
  slice l a b = Some k -> len k = b - a /\ 0 <= a <= b /\ b <= len l.
Proof.
  unfold slice. destruct (_ && _) eqn:E; [|done]. intros [= <-].
  unfold len in *. rewrite length_take, length_drop. lia.
Qed.

Lemma slice_app {A} (pre l post : list A) i j :
  i = len pre -> j = len pre + len l -> slice (pre ++ l ++ post) i j = Some l.
Proof.
  intros -> ->. pose proof (len_nonneg pre). pose proof (len_nonneg l). pose proof (len_nonneg post).
  rewrite slice_Some by (rewrite ?len_app; lia). f_equal. unfold len.
  rewrite Nat2Z.id, drop_app_length. replace (Z.to_nat _) with (length l) by lia.
  by rewrite take_app_length.
Qed.

(** A slice as a decomposition of the list. *)
Lemma slice_split {A} (l m : list A) i j :
  slice l i j = Some m -> exists pre post, l = pre ++ m ++ post /\ len pre = i /\ j = i + len m.
Proof.
  intros H. destruct (slice_len _ _ _ _ H) as (Hm & ? & ?).
  rewrite slice_Some in H by lia. injection H as <-.
  exists (take (Z.to_nat i) l), (drop (Z.to_nat (j - i)) (drop (Z.to_nat i) l)).
  rewrite !take_drop. split_and!; [done| |lia]. unfold len in *. rewrite length_take. lia.
Qed.

Lemma slice_sub {A} (l m k : list A) i j a b :
  slice l i j = Some m -> slice m a b = Some k -> slice l (i + a) (i + b) = Some k.
Proof.
  intros (pre & post & -> & <- & ->)%slice_split (pre' & post' & -> & <- & ->)%slice_split.
  rewrite <- !(app_assoc pre'), <- app_assoc, (app_assoc pre). apply slice_app; rewrite len_app; lia.
Qed.

Lemma index_Some {A} (l : list A) i :
  0 <= i < len l -> exists x, index l i = Some x.
Proof.
  intros [? ?]. unfold index. replace (0 <=? i) with true by lia.
  apply lookup_lt_is_Some_2. unfold len in *. lia.
Qed.

Lemma splice_length {A} off (v l : list A) :
  (off + length v <= length l)%nat -> length (splice off v l) = length l.
Proof.
  intros. unfold splice. rewrite !length_app, length_take, length_drop. lia.
Qed.

Lemma splice_nil {A} off (l : list A) : splice off [] l = l.
Proof. unfold splice. cbn. rewrite Nat.add_0_r. apply take_drop. Qed.

Lemma splice_read {A} off (v l : list A) :
  (off + length v <= length l)%nat ->
  take (length v) (drop off (splice off v l)) = v.
Proof.
  intros. unfold splice.
  rewrite drop_app_length' by (rewrite length_take; lia).
  by rewrite take_app_length.
Qed.

Lemma splice_other {A} off (v l : list A) (i : nat) :
  (off + length v <= length l)%nat ->
  (i < off \/ off + length v <= i)%nat ->
  splice off v l !! i = l !! i.
Proof.
  intros Hle Hi. unfold splice. destruct Hi as [Hi|Hi].
  - rewrite lookup_app_l by (rewrite length_take; lia).
    by apply lookup_take_lt.
  - rewrite lookup_app_r by (rewrite length_take; lia).
    rewrite length_take, Nat.min_l by lia.
    rewrite lookup_app_r by lia. rewrite lookup_drop. f_equal. lia.
Qed.

(** * Sums over lists and finite maps *)

Definition sumOf {A} (f : A -> Z) (l : list A) : Z := foldr (fun x n => f x + n) 0 l.
#[global] Arguments sumOf {A} f l : simpl never.

Lemma sumOf_cons {A} (f : A -> Z) x l : sumOf f (x :: l) = f x + sumOf f l.
Proof. done. Qed.

Lemma sumOf_app {A} (f : A -> Z) l k : sumOf f (l ++ k) = sumOf f l + sumOf f k.
Proof. induction l as [|x l IH]; [done|]. rewrite <- app_comm_cons, !sumOf_cons, IH. lia. Qed.

Lemma sumOf_nonneg {A} (f : A -> Z) l : Forall (fun x => 0 <= f x) l -> 0 <= sumOf f l.
Proof. induction 1; [done|]. rewrite sumOf_cons. lia. Qed.

Lemma sumOf_ge {A} (f : A -> Z) m l : Forall (fun x => m <= f x) l -> len l * m <= sumOf f l.
Proof. induction 1; [done|]. rewrite sumOf_cons, len_cons. lia. Qed.

Lemma sumOf_perm {A} (f : A -> Z) l k : l ≡ₚ k -> sumOf f l = sumOf f k.
Proof. induction 1; rewrite ?sumOf_cons; lia. Qed.

Lemma sumOf_ext {A} (f g : A -> Z) l : (forall x, x ∈ l -> f x = g x) -> sumOf f l = sumOf g l.
Proof.
  induction l as [|x l IH]; intros H; [done|]. rewrite !sumOf_cons, (H x), IH; [done| |apply elem_of_cons; by left].
  intros y Hy. apply H. apply elem_of_cons. by right.
Qed.

Section MapSum.
Context {K V : Type} `{Countable K} (f : V -> Z).
Implicit Types m : gmap K V.

Definition map_sum (m : gmap K V) : Z := map_fold (fun _ v n => f v + n) 0 m.

Lemma map_sum_insert m k v : m !! k = None -> map_sum (<[k := v]> m) = f v + map_sum m.
Proof. intros. unfold map_sum. rewrite map_fold_insert_L; [done|lia|done]. Qed.

Lemma map_sum_delete m k v : m !! k = Some v -> map_sum m = f v + map_sum (delete k m).
Proof.
  intros Hk. rewrite <- (map_sum_insert _ k) by apply lookup_delete_eq. by rewrite insert_delete_id.
Qed.

Lemma map_sum_set m k v : map_sum (<[k := v]> m) = map_sum m - from_option f 0 (m !! k) + f v.
Proof.
  rewrite <- insert_delete_eq, map_sum_insert by apply lookup_delete_eq.
  destruct (m !! k) as [w|] eqn:E; cbn [from_option].
  - rewrite (map_sum_delete m k w) by done. lia.
  - rewrite delete_id by done. lia.
Qed.

Lemma map_sum_remove m k : map_sum (delete k m) = map_sum m - from_option f 0 (m !! k).
Proof.
  destruct (m !! k) as [w|] eqn:E; cbn [from_option].
  - rewrite (map_sum_delete m k w) by done. lia.
  - rewrite delete_id by done. lia.
Qed.

Lemma map_sum_nonneg m : map_Forall (fun _ v => 0 <= f v) m -> 0 <= map_sum m.
Proof.
  induction m as [|k v m Hm IH] using map_ind; [done|]. intros [? ?]%map_Forall_insert; [|done].
  rewrite map_sum_insert by done. specialize (IH ltac:(done)). lia.
Qed.

Lemma map_sum_list m : map_sum m = sumOf (fun kv => f kv.2) (map_to_list m).
Proof.
  induction m as [|k v m Hm IH] using map_ind; [by rewrite map_to_list_empty|].
  rewrite map_sum_insert, IH by done. by rewrite (sumOf_perm _ _ _ (map_to_list_insert m k v Hm)).
Qed.
End MapSum.

(** * Stateful, fallible computations

    Go code that threads a mutable state and may return an [error] or panic.
    [OutOfFuel] marks an execution cut off by the recursion bound of the model;
    it is never a behaviour of the code. *)
Inductive outcome (S E A : Type) : Type :=
| Ok (a : A) (s : S)
| Fail (e : E) (s : S)
| Panic
| OutOfFuel.
Arguments Ok {S E A} a s.
Arguments Fail {S E A} e s.
Arguments Panic {S E A}.
Arguments OutOfFuel {S E A}.

Definition ST (S E A : Type) : Type := S -> outcome S E A.

#[export] Instance ST_ret {S E} : MRet (ST S E) := fun _ a s => Ok a s.
#[export] Instance ST_bind {S E} : MBind (ST S E) := fun _ _ f m s =>
  match m s with
  | Ok a s' => f a s'
  | Fail e s' => Fail e s'
  | Panic => Panic
  | OutOfFuel => OutOfFuel
  end.

Section ST.
Context {S E : Type}.

Definition throw {A} (e : E) : ST S E A := fun s => Fail e s.
Definition panic {A} : ST S E A := fun _ => Panic.
Definition gets {A} (f : S -> A) : ST S E A := fun s => Ok (f s) s.
Definition modify (f : S -> S) : ST S E unit := fun s => Ok tt (f s).

(** An expression whose out-of-range case is a run-time panic. *)
Definition must {A} (o : option A) : ST S E A :=
  match o with Some a => mret a | None => panic end.

(** [wp m Q F s]: from [s], [m] ends without panicking, in a result that
    satisfies [Q] or an error that satisfies [F]. *)
Definition wp {A} (m : ST S E A) (Q : A -> S -> Prop) (F : E -> S -> Prop)
    (s : S) : Prop :=
  match m s with
  | Ok a s' => Q a s'
  | Fail e s' => F e s'
  | Panic | OutOfFuel => False
  end.

Context {A B : Type}.
Implicit Types (F : E -> S -> Prop) (s : S).

Lemma wp_ret (a : A) Q F s : Q a s -> wp (mret a) Q F s.
Proof. done. Qed.

Lemma wp_bind (m : ST S E A) (f : A -> ST S E B) Q F s :
  wp m (fun a => wp (f a) Q F) F s -> wp (m ≫= f) Q F s.
Proof. unfold wp, mbind, ST_bind. by destruct (m s). Qed.

Lemma wp_throw (e : E) (Q : A -> S -> Prop) F s :
  F e s -> wp (throw e) Q F s.
Proof. done. Qed.

Lemma wp_gets (f : S -> A) Q F s : Q (f s) s -> wp (gets f) Q F s.
Proof. done. Qed.

Lemma wp_modify f (Q : unit -> S -> Prop) F s :
  Q tt (f s) -> wp (modify f) Q F s.
Proof. done. Qed.

Lemma wp_must (o : option A) a Q F s : o = Some a -> Q a s -> wp (must o) Q F s.
Proof. by intros ->. Qed.

(** The postcondition at a known result, and a result from a postcondition. *)
Lemma wp_result (m : ST S E A) (Q : A -> S -> Prop) F s a s' : m s = Ok a s' -> wp m Q F s -> Q a s'.
Proof. unfold wp. by intros ->. Qed.

Lemma wp_returns (m : ST S E A) a s s' :
  wp m (fun a' s'' => a' = a /\ s'' = s') (fun _ _ => False) s -> m s = Ok a s'.
Proof. unfold wp. destruct (m s); [|done..]. by intros [-> ->]. Qed.

Lemma wp_mono (m : ST S E A) (Q Q' : A -> S -> Prop) F F' s :
  wp m Q F s -> (forall a s', Q a s' -> Q' a s') ->
  (forall e s', F e s' -> F' e s') -> wp m Q' F' s.
Proof. unfold wp. destruct (m s); eauto. Qed.
End ST.

Lemma bind_must {S E A B} (o : option A) a (f : A -> ST S E B) s :
  o = Some a -> (must o ≫= f) s = f a s.
Proof. by intros ->. Qed.

Lemma bind_Ok {S E A B} (m : ST S E A) a s' (f : A -> ST S E B) s :
  m s = Ok a s' -> (m ≫= f) s = f a s'.
Proof. intros H. unfold mbind, ST_bind. by rewrite H. Qed.
