(* ===== verification/BigMath.v ===== *)
(** Arbitrary-precision and machine integer helpers: the part of Go's
    math/big the node uses, common/math/big.go, common/math/integer.go,
    common/bytes.go and the conversions of common/types.go.

    A [*big.Int] is a [Z].  The methods that update their receiver in place
    are functions that return the new value. *)

From S2P Require Import Prelude.

(** * math/big *)
Module Big.

(** [x.Sign()], [x.BitLen()], [x.Uint64()], [x.Int64()]. *)
Definition Sign (x : Z) : Z := Z.sgn x.
Definition BitLen (x : Z) : Z := if x =? 0 then 0 else Z.log2 (Z.abs x) + 1.
Definition Uint64 (x : Z) : Z := u64 (Z.abs x).
Definition Int64 (x : Z) : Z :=
  let v := s64 (Uint64 x) in if x <? 0 then s64 (- v) else v.

(** Number of bits of a [big.Word] on the 64-bit targets of the node. *)
Definition wordBits : Z := 64.
Definition wordBytes : Z := wordBits / 8.

(** [x.Bits()]: the absolute value as little-endian words. *)
Definition nwords (x : Z) : nat := Z.to_nat ((BitLen x + 63) / 64).
Definition Bits (x : Z) : list Z :=
  (fun i => (Z.abs x / 2 ^ (64 * Z.of_nat i)) mod 2 ^ 64) <$> seq 0 (nwords x).

(** Big-endian bytes: [be_bytes n x] are the n low bytes of [x]. *)
Fixpoint be_bytes (n : nat) (x : Z) : list byte :=
  match n with
  | O => []
  | S m => be_bytes m (x / 256) ++ [Z_byte x]
  end.
Definition be_val (l : list byte) : Z :=
  fold_left (fun acc b => acc * 256 + byte_Z b) l 0.

(** [x.SetBytes(l)] and [x.Bytes()]. *)
Definition SetBytes (l : list byte) : Z := be_val l.
Definition Bytes (x : Z) : list byte :=
  be_bytes (Z.to_nat ((BitLen x + 7) / 8)) (Z.abs x).

Lemma BitLen_bound x : 0 <= BitLen x /\ Z.abs x < 2 ^ BitLen x.
Proof.
  unfold BitLen. destruct (Z.eqb_spec x 0) as [->|Hx]; [cbn; lia|].
  pose proof (Z.log2_nonneg (Z.abs x)).
  pose proof (Z.log2_spec (Z.abs x) ltac:(lia)). lia.
Qed.

Lemma BitLen_le x n : 0 <= n -> BitLen x <= n <-> Z.abs x < 2 ^ n.
Proof.
  intros Hn. unfold BitLen. destruct (Z.eqb_spec x 0) as [->|Hx].
  - cbn. split; [|lia]. intros _. apply Z.pow_pos_nonneg; lia.
  - rewrite Z.log2_lt_pow2 by lia. lia.
Qed.

Lemma Uint64_small x : 0 <= x < 2 ^ 64 -> Uint64 x = x.
Proof. intros. unfold Uint64. rewrite Z.abs_eq by lia. by apply u64_small. Qed.

Lemma Uint64_range x : 0 <= Uint64 x < 2 ^ 64.
Proof. apply u64_range. Qed.

Lemma Int64_small x : 0 <= x < 2 ^ 63 -> Int64 x = x.
Proof.
  intros. unfold Int64. rewrite Uint64_small by lia.
  replace (x <? 0) with false by lia. apply s64_small. lia.
Qed.

Lemma length_be_bytes n x : length (be_bytes n x) = n.
Proof.
  revert x. induction n as [|n IH]; intros x; cbn; [done|].
  rewrite length_app, IH. cbn. lia.
Qed.

Lemma len_be_bytes n x : len (be_bytes n x) = Z.of_nat n.
Proof. unfold len. by rewrite length_be_bytes. Qed.

Lemma be_val_snoc l b : be_val (l ++ [b]) = be_val l * 256 + byte_Z b.
Proof. unfold be_val. by rewrite fold_left_app. Qed.

Lemma be_val_bound l : 0 <= be_val l < 256 ^ len l.
Proof.
  induction l as [|b l IH] using rev_ind; [change (0 <= 0 < 1); lia|].
  rewrite be_val_snoc, len_app, Z.pow_add_r by apply len_nonneg.
  pose proof (byte_Z_range b). change (256 ^ len [b]) with 256. lia.
Qed.

Lemma be_val_app l k : be_val (l ++ k) = be_val l * 256 ^ len k + be_val k.
Proof.
  induction k as [|b k IH] using rev_ind.
  - rewrite app_nil_r. change (256 ^ len []) with 1. change (be_val []) with 0. lia.
  - rewrite app_assoc, !be_val_snoc, IH, len_app, Z.pow_add_r by apply len_nonneg.
    change (256 ^ len [b]) with 256. ring.
Qed.

Lemma be_val_zeros n : be_val (replicate n x00) = 0.
Proof.
  induction n as [|n IH]; [done|].
  rewrite replicate_S_end, be_val_snoc, IH. done.
Qed.

Lemma pow256 n : 256 ^ Z.of_nat n = 2 ^ (8 * Z.of_nat n).
Proof. change 256 with (2 ^ 8). rewrite <- Z.pow_mul_r; lia. Qed.

Lemma be_val_be_bytes n x : be_val (be_bytes n x) = x mod 256 ^ Z.of_nat n.
Proof.
  revert x. induction n as [|n IH]; intros x; cbn [be_bytes].
  - change (256 ^ Z.of_nat 0) with 1. by rewrite Z.mod_1_r.
  - rewrite be_val_snoc, IH, byte_Z_Z_byte.
    replace (Z.of_nat (S n)) with (Z.of_nat n + 1) by lia.
    rewrite Z.pow_add_r, Z.pow_1_r, (Z.mul_comm (256 ^ _)) by lia.
    rewrite Z.rem_mul_r by (try lia; apply Z.pow_pos_nonneg; lia). ring.
Qed.

Lemma be_bytes_be_val l : be_bytes (length l) (be_val l) = l.
Proof.
  induction l as [|b l IH] using rev_ind; [done|].
  rewrite length_app, Nat.add_comm. cbn [length Nat.add be_bytes].
  rewrite be_val_snoc. pose proof (byte_Z_range b).
  rewrite Z.div_add_l by lia. rewrite Z.div_small, Z.add_0_r, IH by lia.
  f_equal. f_equal. apply byte_Z_inj.
  rewrite byte_Z_Z_byte. rewrite Z.add_comm, Z.mod_add by lia.
  apply Z.mod_small. lia.
Qed.

Lemma Bytes_length x : Z.of_nat (length (Bytes x)) = (BitLen x + 7) / 8.
Proof.
  unfold Bytes. rewrite length_be_bytes. pose proof (BitLen_bound x).
  apply Z2Nat.id, Z.div_pos; lia.
Qed.

Lemma SetBytes_Bytes x : SetBytes (Bytes x) = Z.abs x.
Proof.
  unfold SetBytes, Bytes. rewrite be_val_be_bytes, pow256.
  pose proof (BitLen_bound x) as [? Hlt]. apply Z.mod_small. split; [lia|].
  eapply Z.lt_le_trans; [exact Hlt|]. apply Z.pow_le_mono_r; zlia.
Qed.

End Big.

(** * common/math *)
Module GoMath.
Import Big.

Definition MaxUint64 : Z := 2 ^ 64 - 1.

Definition tt255 : Z := 2 ^ 255.
Definition tt256 : Z := 2 ^ 256.
Definition tt256m1 : Z := tt256 - 1.

(** BigMax returns the larger of x or y, BigMin the smaller. *)
Definition BigMax (x y : Z) : Z := if x <? y then y else x.
Definition BigMin (x y : Z) : Z := if x >? y then y else x.

(** The loop of FirstBitSet, [n] iterations from bit [i]. *)
Fixpoint FirstBitSet_loop (n : nat) (i : Z) (v : Z) : Z :=
  match n with
  | O => BitLen v
  | S m => if Z.testbit v i then i else FirstBitSet_loop m (i + 1) v
  end.
Definition FirstBitSet (v : Z) : Z := FirstBitSet_loop (Z.to_nat (BitLen v)) 0 v.

(** The inner loop of ReadBits: write up to [n] bytes of the word [d]
    downwards from position [i]; the state is (i, buf). *)
Fixpoint ReadBits_word (n : nat) (d : Z) (i : nat) (buf : list byte)
    : nat * list byte :=
  match n, i with
  | S m, S i' => ReadBits_word m (Z.shiftr d 8) i' (<[i' := Z_byte d]> buf)
  | _, _ => (i, buf)
  end.
Definition ReadBits (bigint : Z) (buf : list byte) : list byte :=
  (fold_left (fun '(i, b) d => ReadBits_word (Z.to_nat wordBytes) d i b)
     (Bits bigint) (length buf, buf)).2.

Definition PaddedBigBytes (bigint : Z) (n : Z) : list byte :=
  if BitLen bigint / 8 >=? n then Bytes bigint
  else ReadBits bigint (replicate (Z.to_nat n) x00).

Definition bigEndianByteAt (bigint : Z) (n : Z) : byte :=
  let words := Bits bigint in
  let i := n / wordBytes in
  match words !! Z.to_nat i with
  | None => x00
  | Some word => Z_byte (Z.shiftr word (8 * (n mod wordBytes)))
  end.

Definition Byte (bigint padlength n : Z) : byte :=
  if n >=? padlength then x00 else bigEndianByteAt bigint (padlength - 1 - n).

Definition U256 (x : Z) : Z := Z.land x tt256m1.
Definition S256 (x : Z) : Z := if x <? tt255 then x else x - tt256.

(** Exp by squaring.  The code updates [base] in place while it runs, so the
    loop state is (result, base). *)
Fixpoint Exp_word (n : nat) (word result base : Z) : Z * Z :=
  match n with
  | O => (result, base)
  | S m =>
      let result := if Z.land word 1 =? 1 then U256 (result * base) else result in
      Exp_word m (Z.shiftr word 1) result (U256 (base * base))
  end.
Definition Exp_loop (base exponent : Z) : Z * Z :=
  fold_left (fun '(result, base) word => Exp_word (Z.to_nat wordBits) word result base)
    (Bits exponent) (1, base).
Definition Exp (base exponent : Z) : Z := (Exp_loop base exponent).1.

(** Overflow-checked uint64 arithmetic. *)
Definition SafeSub (x y : Z) : Z * bool := (u64 (x - y), x <? y).
Definition SafeAdd (x y : Z) : Z * bool := (u64 (x + y), y >? MaxUint64 - x).
Definition SafeMul (x y : Z) : Z * bool :=
  if (x =? 0) || (y =? 0) then (0, false)
  else (u64 (x * y), y >? MaxUint64 / x).

(** ** Correctness *)

Lemma U256_mod x : U256 x = x mod 2 ^ 256.
Proof.
  unfold U256, tt256m1, tt256. rewrite <- Z.land_ones by lia.
  by rewrite Z.ones_equiv.
Qed.

Lemma U256_range x : 0 <= U256 x < 2 ^ 256.
Proof. rewrite U256_mod. apply Z.mod_pos_bound. lia. Qed.

Lemma U256_small x : 0 <= x < 2 ^ 256 -> U256 x = x.
Proof. intros. rewrite U256_mod. by apply Z.mod_small. Qed.

Lemma S256_range x : 0 <= x < 2 ^ 256 -> - 2 ^ 255 <= S256 x < 2 ^ 255.
Proof. intros. unfold S256, tt255, tt256. destruct (Z.ltb_spec x (2 ^ 255)); lia. Qed.

Lemma U256_S256 x : 0 <= x < 2 ^ 256 -> U256 (S256 x) = x.
Proof.
  intros. rewrite U256_mod. unfold S256, tt255, tt256.
  destruct (Z.ltb_spec x (2 ^ 255)); [apply Z.mod_small; lia|].
  rewrite <- (Z.mod_add _ 1), Z.mod_small; lia.
Qed.

Lemma SafeAdd_ok x y : 0 <= x < 2 ^ 64 -> 0 <= y < 2 ^ 64 ->
  SafeAdd x y = (u64 (x + y), negb (x + y <? 2 ^ 64)).
Proof. intros. unfold SafeAdd, MaxUint64. f_equal. lia. Qed.

Lemma SafeMul_ok x y : 0 <= x < 2 ^ 64 -> 0 <= y < 2 ^ 64 ->
  SafeMul x y = (u64 (x * y), negb (x * y <? 2 ^ 64)).
Proof.
  intros Hx Hy. unfold SafeMul, MaxUint64.
  destruct (Z.eqb_spec x 0) as [->|Hx0]; [done|].
  destruct (Z.eqb_spec y 0) as [->|Hy0].
  { cbn [orb]. by rewrite Z.mul_0_r. }
  cbn [orb]. f_equal. apply Bool.eq_iff_eq_true.
  rewrite negb_true_iff, Z.gtb_lt, Z.ltb_ge. split; intros H.
  - assert (~ y * x <= 2 ^ 64 - 1); [|lia]. intros ?.
    assert (y <= (2 ^ 64 - 1) / x); [|lia]. apply Z.div_le_lower_bound; lia.
  - apply Z.div_lt_upper_bound; lia.
Qed.

(** Every word of [Bits x] and the words together. *)
Fixpoint words_val (l : list Z) : Z :=
  match l with [] => 0 | w :: l' => w + 2 ^ 64 * words_val l' end.

Lemma words_val_seq x k n : 0 <= x ->
  words_val ((fun i => (x / 2 ^ (64 * Z.of_nat i)) mod 2 ^ 64) <$> seq k n) =
  (x / 2 ^ (64 * Z.of_nat k)) mod 2 ^ (64 * Z.of_nat n).
Proof.
  intros Hx. revert k. induction n as [|n IH]; intros k.
  { cbn [seq fmap list_fmap words_val]. by rewrite Z.mod_1_r. }
  cbn [seq fmap list_fmap words_val]. fold (@fmap list _ Z Z). rewrite IH.
  replace (64 * Z.of_nat (S k)) with (64 * Z.of_nat k + 64) by lia.
  replace (64 * Z.of_nat (S n)) with (64 + 64 * Z.of_nat n) by lia.
  rewrite !Z.pow_add_r, <- Z.div_div by (try lia; apply Z.pow_nonzero; lia).
  rewrite Z.rem_mul_r by (try lia; apply Z.pow_pos_nonneg; lia). done.
Qed.

Lemma words_val_Bits x : words_val (Bits x) = Z.abs x.
Proof.
  unfold Bits. rewrite words_val_seq by lia. cbn [Z.of_nat].
  rewrite Z.mul_0_r, Z.pow_0_r, Z.div_1_r. unfold nwords.
  pose proof (BitLen_bound x) as [? Hlt].
  rewrite Z2Nat.id by (apply Z.div_pos; lia).
  apply Z.mod_small. split; [lia|]. eapply Z.lt_le_trans; [exact Hlt|].
  apply Z.pow_le_mono_r; [lia|].
  pose proof (Z.div_mod (BitLen x + 63) 64). pose proof (Z.mod_pos_bound (BitLen x + 63) 64).
  lia.
Qed.

Lemma Bits_words x : Forall (fun w => 0 <= w < 2 ^ 64) (Bits x).
Proof.
  unfold Bits. apply Forall_fmap, Forall_forall. intros i _. cbn.
  apply Z.mod_pos_bound. lia.
Qed.

(** One word of the exponent: the invariant of the squaring loop. *)
Lemma Exp_word_spec n word result base :
  0 <= word < 2 ^ Z.of_nat n ->
  let '(r, b) := Exp_word n word result base in
  r mod 2 ^ 256 = (result * base ^ word) mod 2 ^ 256 /\
  b mod 2 ^ 256 = base ^ (2 ^ Z.of_nat n) mod 2 ^ 256.
Proof.
  revert word result base. induction n as [|n IH]; intros word result base Hw.
  { assert (word = 0) as -> by (cbn in Hw; lia).
    cbn [Exp_word Z.of_nat]. by rewrite !Z.pow_0_r, Z.pow_1_r, Z.mul_1_r. }
  cbn [Exp_word].
  replace (Z.of_nat (S n)) with (1 + Z.of_nat n) in * by lia.
  rewrite Z.pow_add_r, Z.pow_1_r in Hw |- * by lia.
  rewrite Z.shiftr_div_pow2, Z.pow_1_r by lia.
  change 1 with (Z.ones 1) at 1. rewrite Z.land_ones, Z.pow_1_r by lia.
  pose proof (Z.div_mod word 2 ltac:(lia)) as Hdm.
  pose proof (Z.mod_pos_bound word 2 ltac:(lia)) as Hm.
  set (q := word / 2) in *. set (bit := word mod 2) in *.
  specialize (IH q (if bit =? 1 then U256 (result * base) else result)
                (U256 (base * base)) ltac:(lia)).
  destruct (Exp_word n _ _ _) as [r b]. destruct IH as [-> ->]. split.
  - rewrite <- Zmult_mod_idemp_r, (U256_mod (base * base)), Z.mod_pow_l, Zmult_mod_idemp_r.
    rewrite Hdm, Z.pow_add_r, Z.pow_mul_r, Z.pow_2_r by lia.
    destruct (Z.eqb_spec bit 1) as [->|Hb].
    + rewrite U256_mod, Zmult_mod_idemp_l. f_equal. ring.
    + replace bit with 0 by lia. f_equal. ring.
  - rewrite U256_mod, Z.mod_pow_l, Z.pow_mul_r, Z.pow_2_r by lia. done.
Qed.

Lemma Exp_word_range n word result base :
  0 <= result < 2 ^ 256 -> 0 <= (Exp_word n word result base).1 < 2 ^ 256.
Proof.
  revert word result base. induction n as [|n IH]; intros word result base Hr; [done|].
  cbn [Exp_word]. apply IH. destruct (_ =? _); [apply U256_range|done].
Qed.

Lemma Exp_words_spec n ws result base :
  Z.of_nat n = 64 ->
  Forall (fun w => 0 <= w < 2 ^ 64) ws -> 0 <= result < 2 ^ 256 ->
  (fold_left (fun '(result, base) word => Exp_word n word result base)
     ws (result, base)).1 = (result * base ^ words_val ws) mod 2 ^ 256.
Proof.
  intros Hn Hws. rewrite <- Hn in Hws. revert result base.
  assert (Hval : forall w ws', words_val (w :: ws') = w + 2 ^ Z.of_nat n * words_val ws')
    by (intros; by rewrite Hn).
  clear Hn. induction Hws as [|w ws Hw Hws IH]; intros result base Hr.
  { cbn. rewrite Z.mul_1_r. symmetry. by apply Z.mod_small. }
  cbn [fold_left]. rewrite Hval.
  pose proof (Exp_word_spec n w result base Hw) as Hspec.
  pose proof (Exp_word_range n w result base Hr) as Hrange.
  destruct (Exp_word n w result base) as [r b]. destruct Hspec as [Hr' Hb'].
  rewrite IH by done.
  rewrite <- Zmult_mod_idemp_l, Hr', Zmult_mod_idemp_l.
  rewrite <- Zmult_mod_idemp_r, <- Z.mod_pow_l, Hb', Z.mod_pow_l, Zmult_mod_idemp_r.
  assert (0 <= words_val ws).
  { clear -Hws Hval. induction Hws; [done|]. rewrite Hval. nia. }
  rewrite Z.pow_add_r, Z.pow_mul_r by lia. by rewrite Z.mul_assoc.
Qed.

Lemma Exp_spec base exponent :
  0 <= exponent -> Exp base exponent = base ^ exponent mod 2 ^ 256.
Proof.
  intros. unfold Exp, Exp_loop. rewrite Exp_words_spec by (done || apply Bits_words || lia).
  rewrite words_val_Bits, Z.abs_eq, Z.mul_1_l by lia. done.
Qed.

(** ReadBits into a zeroed buffer writes the big-endian encoding. *)
Lemma be_bytes_cons n x :
  be_bytes (S n) x = Z_byte (x / 256 ^ Z.of_nat n) :: be_bytes n x.
Proof.
  revert x. induction n as [|n IH]; intros x.
  { cbn. by rewrite Z.div_1_r. }
  cbn [be_bytes] in IH |- *. rewrite (IH (x / 256)). cbn [app].
  replace (Z.of_nat (S n)) with (1 + Z.of_nat n) by lia.
  rewrite Z.pow_add_r, Z.div_div by (try lia; apply Z.pow_pos_nonneg; lia).
  done.
Qed.

Lemma Z_byte_mod x y : x mod 256 = y mod 256 -> Z_byte x = Z_byte y.
Proof. unfold Z_byte. by intros ->. Qed.

Lemma insert_zeros (i : nat) (b : byte) (l : list byte) :
  <[i := b]> (replicate (S i) x00 ++ l) = replicate i x00 ++ b :: l.
Proof.
  rewrite replicate_S_end, <- app_assoc. cbn [app].
  rewrite insert_app_r_alt by (rewrite length_replicate; lia).
  by rewrite length_replicate, Nat.sub_diag.
Qed.

Lemma ReadBits_word_spec m d i f x :
  d mod 2 ^ (8 * Z.of_nat m) = (x / 256 ^ Z.of_nat f) mod 2 ^ (8 * Z.of_nat m) ->
  ReadBits_word m d i (replicate i x00 ++ be_bytes f x) =
  ((i - m)%nat, replicate (i - m) x00 ++ be_bytes (f + min m i) x).
Proof.
  revert d i f. induction m as [|m IH]; intros d i f Hd.
  { cbn. by rewrite Nat.sub_0_r, Nat.add_0_r. }
  destruct i as [|i]; [cbn; by rewrite Nat.add_0_r|].
  cbn [ReadBits_word]. rewrite insert_zeros.
  replace (8 * Z.of_nat (S m)) with (8 + 8 * Z.of_nat m) in Hd by lia.
  rewrite Z.pow_add_r in Hd by lia.
  pose proof (Z.pow_pos_nonneg 2 (8 * Z.of_nat m) ltac:(lia) ltac:(lia)).
  rewrite !Z.rem_mul_r in Hd by lia. change (2 ^ 8) with 256 in Hd.
  pose proof (Z.mod_pos_bound d 256). pose proof (Z.mod_pos_bound (x / 256 ^ Z.of_nat f) 256).
  assert (Z_byte d :: be_bytes f x = be_bytes (S f) x) as ->.
  { rewrite be_bytes_cons. f_equal. apply Z_byte_mod. lia. }
  rewrite IH.
  - cbn [Nat.sub min]. by rewrite Nat.add_succ_comm.
  - rewrite Z.shiftr_div_pow2 by lia. change (2 ^ 8) with 256.
    replace (Z.of_nat (S f)) with (Z.of_nat f + 1) by lia.
    rewrite Z.pow_add_r, Z.pow_1_r, <- Z.div_div by (try lia; apply Z.pow_nonzero; lia).
    lia.
Qed.

Lemma ReadBits_words_spec ws i f x :
  Forall (fun w => 0 <= w < 2 ^ 64) ws ->
  (i <> 0%nat -> words_val ws = x / 256 ^ Z.of_nat f) ->
  fold_left (fun '(i, b) d => ReadBits_word (Z.to_nat wordBytes) d i b)
    ws (i, replicate i x00 ++ be_bytes f x) =
  ((i - 8 * length ws)%nat,
   replicate (i - 8 * length ws) x00 ++ be_bytes (f + min (8 * length ws) i) x).
Proof.
  intros Hws. revert i f. induction Hws as [|w ws Hw Hws IH]; intros i f Hval.
  { cbn. by rewrite Nat.sub_0_r, Nat.add_0_r. }
  cbn [fold_left length]. change (Z.to_nat wordBytes) with 8%nat in *.
  destruct (decide (i = 0%nat)) as [->|Hi].
  { cbn [ReadBits_word]. rewrite IH by done. by rewrite !Nat.min_0_r. }
  specialize (Hval Hi). cbn [words_val] in Hval.
  rewrite ReadBits_word_spec.
  - rewrite IH.
    + f_equal; [lia|]. f_equal; f_equal; lia.
    + intros Hi8. rewrite Nat2Z.inj_add, Nat.min_l by lia.
      rewrite Z.pow_add_r, <- Z.div_div by (try lia; apply Z.pow_nonzero; lia).
      rewrite (pow256 8). replace (8 * Z.of_nat 8) with 64 by lia. rewrite <- Hval.
      rewrite Z.add_comm, Z.mul_comm, Z.div_add_l, (Z.div_small w) by lia. lia.
  - replace (8 * Z.of_nat 8) with 64 by lia. rewrite <- Hval.
    rewrite (Z.mul_comm (2 ^ 64)), Z.mod_add by lia. done.
Qed.

Lemma be_bytes_zero_pad k n x :
  0 <= x < 256 ^ Z.of_nat n -> replicate k x00 ++ be_bytes n x = be_bytes (k + n) x.
Proof.
  intros Hx. induction k as [|k IH]; [done|].
  cbn [replicate app Nat.add]. rewrite IH, be_bytes_cons. f_equal.
  rewrite Z.div_small; [done|]. split; [lia|].
  eapply Z.lt_le_trans; [apply Hx|]. apply Z.pow_le_mono_r; lia.
Qed.

Lemma ReadBits_spec x n : ReadBits x (replicate n x00) = be_bytes n (Z.abs x).
Proof.
  unfold ReadBits. rewrite length_replicate.
  rewrite <- (app_nil_r (replicate n x00)).
  change [] with (be_bytes 0 (Z.abs x)).
  rewrite ReadBits_words_spec; cycle 1.
  { apply Bits_words. }
  { intros _. by rewrite words_val_Bits, Z.pow_0_r, Z.div_1_r. }
  cbn [snd Nat.add]. destruct (Nat.le_gt_cases n (8 * length (Bits x))).
  { rewrite Nat.min_r by lia. by replace (n - _)%nat with 0%nat by lia. }
  rewrite Nat.min_l by lia. rewrite be_bytes_zero_pad; [f_equal; lia|].
  split; [lia|]. rewrite <- words_val_Bits, pow256.
  pose proof (Bits_words x) as Hws. clear -Hws. induction Hws as [|w ws Hw Hws IH].
  { cbn. lia. }
  cbn [words_val length].
  replace (8 * Z.of_nat (8 * S (length ws))) with (64 + 8 * Z.of_nat (8 * length ws)) by lia.
  rewrite Z.pow_add_r by lia. lia.
Qed.

Lemma PaddedBigBytes_pad x n : Z.abs x < 2 ^ (8 * Z.of_nat n) ->
  PaddedBigBytes x (Z.of_nat n) = be_bytes n (Z.abs x).
Proof.
  intros Hx. unfold PaddedBigBytes.
  destruct (BitLen x / 8 >=? Z.of_nat n) eqn:E.
  - unfold Bytes. pose proof (proj2 (BitLen_le x (8 * Z.of_nat n) ltac:(lia)) Hx).
    pose proof (BitLen_bound x). f_equal.
    assert (BitLen x = 8 * Z.of_nat n) as ->.
    { pose proof (Z.mul_div_le (BitLen x) 8). lia. }
    zlia.
  - rewrite Nat2Z.id. apply ReadBits_spec.
Qed.

Lemma PaddedBigBytes_length x n : 0 <= n -> n <= len (PaddedBigBytes x n).
Proof.
  intros Hn. unfold PaddedBigBytes, len. destruct (BitLen x / 8 >=? n) eqn:E.
  - rewrite Bytes_length. pose proof (Z.div_le_mono (BitLen x) (BitLen x + 7) 8). lia.
  - rewrite ReadBits_spec, length_be_bytes. lia.
Qed.

Lemma PaddedBigBytes_val x n : 0 <= x -> 0 <= n -> SetBytes (PaddedBigBytes x n) = x.
Proof.
  intros Hx Hn. unfold PaddedBigBytes. destruct (BitLen x / 8 >=? n) eqn:E.
  - rewrite SetBytes_Bytes. lia.
  - rewrite ReadBits_spec. unfold SetBytes.
    rewrite be_val_be_bytes, pow256, Z.abs_eq by lia. apply Z.mod_small.
    split; [lia|]. rewrite <- (Z.abs_eq x) at 1 by lia. apply BitLen_le; [lia|].
    pose proof (Z.div_mod (BitLen x) 8). pose proof (Z.mod_pos_bound (BitLen x) 8). lia.
Qed.

Lemma lookup_Bits x i : (i < nwords x)%nat ->
  Bits x !! i = Some ((Z.abs x / 2 ^ (64 * Z.of_nat i)) mod 2 ^ 64).
Proof.
  intros. unfold Bits. rewrite list_lookup_fmap, lookup_seq_lt by done. done.
Qed.

Lemma bigEndianByteAt_spec x n : 0 <= n ->
  byte_Z (bigEndianByteAt x n) = (Z.abs x / 2 ^ (8 * n)) mod 256.
Proof.
  intros Hn. unfold bigEndianByteAt. change wordBytes with 8.
  pose proof (Z.div_mod n 8 ltac:(lia)) as Hdm.
  pose proof (Z.mod_pos_bound n 8 ltac:(lia)) as Hm.
  set (q := n / 8) in *. set (r := n mod 8) in *.
  destruct (Nat.lt_ge_cases (Z.to_nat q) (nwords x)) as [Hlt|Hge].
  - rewrite lookup_Bits by done. rewrite byte_Z_Z_byte, Z2Nat.id by lia.
    rewrite Z.shiftr_div_pow2 by lia.
    change 256 with (2 ^ 8). apply Z.bits_inj'. intros k Hk.
    repeat first [rewrite Z.testbit_mod_pow2 by lia | rewrite Z.div_pow2_bits by lia].
    destruct (Z.ltb_spec k 8); [|done].
    replace (k + 8 * r <? 64) with true by lia. cbn. f_equal. lia.
  - rewrite (proj2 (lookup_ge_None _ _)) by (unfold Bits; by rewrite length_fmap, length_seq).
    rewrite Z.div_small; [done|]. split; [lia|].
    apply (BitLen_le x); [lia|]. unfold nwords in Hge.
    pose proof (BitLen_bound x). zlia.
Qed.

Lemma Byte_spec x n : 0 <= n < 32 ->
  byte_Z (Byte x 32 n) = (Z.abs x / 2 ^ (8 * (31 - n))) mod 256.
Proof.
  intros. unfold Byte. replace (n >=? 32) with false by lia.
  by rewrite bigEndianByteAt_spec by lia.
Qed.

Lemma FirstBitSet_loop_spec n i v : 0 <= i ->
  (forall k, 0 <= k < i -> Z.testbit v k = false) ->
  i + Z.of_nat n = BitLen v ->
  let r := FirstBitSet_loop n i v in
  0 <= r <= BitLen v /\ (forall k, 0 <= k < r -> Z.testbit v k = false) /\
  (r < BitLen v -> Z.testbit v r = true).
Proof.
  revert i. induction n as [|n IH]; intros i Hi Hlow Hlen; cbn.
  - pose proof (BitLen_bound v). split; [lia|]. split; [|lia].
    intros k Hk. apply Hlow. lia.
  - destruct (Z.testbit v i) eqn:E; [repeat split; try lia; done|].
    apply IH; [lia| |lia]. intros k Hk.
    destruct (decide (k = i)) as [->|]; [done|]. apply Hlow. lia.
Qed.

End GoMath.

(** * common/bytes.go and common/types.go *)
Module Common.
Import Big.

Definition RightPadBytes (slice : list byte) (l : Z) : list byte :=
  if l <=? len slice then slice
  else slice ++ replicate (Z.to_nat (l - len slice)) x00.
Definition LeftPadBytes (slice : list byte) (l : Z) : list byte :=
  if l <=? len slice then slice
  else replicate (Z.to_nat (l - len slice)) x00 ++ slice.

Abbreviation Address := (bits 160).
Abbreviation Hash := (bits 256).

Definition AddressLength : nat := 20.
Definition HashLength : nat := 32.

(** [SetBytes] of Hash and Address: crop to the last bytes, align right. *)
Definition BytesToHash (b : list byte) : Hash :=
  bits_of 256 (be_val (drop (length b - HashLength) b)).
Definition BytesToAddress (b : list byte) : Address :=
  bits_of 160 (be_val (drop (length b - AddressLength) b)).

Definition BigToHash (b : Z) : Hash := BytesToHash (Bytes b).
Definition BigToAddress (b : Z) : Address := BytesToAddress (Bytes b).

(** [h[:]], [h.Big()], [a[:]], [a.Big()]. *)
Definition Hash_Bytes (h : Hash) : list byte := be_bytes HashLength (bits_val h).
Definition Hash_Big (h : Hash) : Z := SetBytes (Hash_Bytes h).
Definition Address_Bytes (a : Address) : list byte := be_bytes AddressLength (bits_val a).
Definition Address_Big (a : Address) : Z := SetBytes (Address_Bytes a).

Definition emptyHash : Hash := bits_of 256 0.
Definition EmptyHash (h : Hash) : bool := bool_decide (h = emptyHash).

Lemma be_val_drop k l : be_val (drop k l) = be_val l mod 256 ^ (len (drop k l)).
Proof.
  rewrite <- (take_drop k l) at 2. rewrite be_val_app.
  rewrite Z.add_comm, Z.mod_add by (apply Z.pow_nonzero; [lia|apply len_nonneg]).
  symmetry. apply Z.mod_small, be_val_bound.
Qed.

Lemma bits_of_be_crop (n : nat) (w : N) l : Z.of_N w = 8 * Z.of_nat n ->
  bits_of w (be_val (drop (length l - n) l)) = bits_of w (be_val l).
Proof.
  intros Hw. apply bits_eq. cbn. rewrite be_val_drop.
  rewrite Hw, <- pow256. unfold len. rewrite length_drop.
  destruct (Nat.le_gt_cases n (length l)).
  - replace (length l - (length l - n))%nat with n by lia.
    by rewrite Zmod_mod.
  - replace (length l - n)%nat with 0%nat by lia. rewrite Nat.sub_0_r.
    by rewrite (Z.mod_small _ (256 ^ Z.of_nat (length l))) by apply be_val_bound.
Qed.

Lemma BigToHash_val x : BigToHash x = bits_of 256 (Z.abs x).
Proof.
  unfold BigToHash, BytesToHash. rewrite bits_of_be_crop by done.
  fold (SetBytes (Bytes x)). by rewrite SetBytes_Bytes.
Qed.

Lemma BigToAddress_val x : BigToAddress x = bits_of 160 (Z.abs x).
Proof.
  unfold BigToAddress, BytesToAddress. rewrite bits_of_be_crop by done.
  fold (SetBytes (Bytes x)). by rewrite SetBytes_Bytes.
Qed.

Lemma Hash_Big_val h : Hash_Big h = bits_val h.
Proof.
  unfold Hash_Big, SetBytes, Hash_Bytes. rewrite be_val_be_bytes, pow256.
  apply Z.mod_small, (bits_bound h).
Qed.

Lemma Address_Big_val a : Address_Big a = bits_val a.
Proof.
  unfold Address_Big, SetBytes, Address_Bytes. rewrite be_val_be_bytes, pow256.
  apply Z.mod_small, (bits_bound a).
Qed.

Lemma BigToHash_Big h : BigToHash (Hash_Big h) = h.
Proof.
  rewrite BigToHash_val, Hash_Big_val, Z.abs_eq by apply bits_bound.
  apply bits_of_val.
Qed.

Lemma BigToAddress_Big a : BigToAddress (Address_Big a) = a.
Proof.
  rewrite BigToAddress_val, Address_Big_val, Z.abs_eq by apply bits_bound.
  apply bits_of_val.
Qed.

Lemma RightPadBytes_len s l : len (RightPadBytes s l) = Z.max l (len s).
Proof.
  unfold RightPadBytes. destruct (Z.leb_spec l (len s)); [lia|].
  rewrite len_app, len_replicate. lia.
Qed.

Lemma Hash_Bytes_BytesToHash ax : len ax = 32 -> Hash_Bytes (BytesToHash ax) = ax.
Proof.
  intros Hl. unfold Hash_Bytes, BytesToHash. rewrite bits_of_be_crop by done. rewrite bits_val_of.
  pose proof (be_val_bound ax) as Hb. rewrite Hl in Hb. rewrite Z.mod_small by done.
  replace HashLength with (length ax) by (unfold len in Hl; unfold HashLength; lia). apply be_bytes_be_val.
Qed.

Lemma len_Hash_Bytes h : len (Hash_Bytes h) = 32.
Proof. unfold len, Hash_Bytes. by rewrite length_be_bytes. Qed.

Lemma BytesToHash_Hash_Bytes h : BytesToHash (Hash_Bytes h) = h.
Proof.
  apply bits_eq. unfold BytesToHash. rewrite bits_of_be_crop by done. rewrite bits_val_of.
  unfold Hash_Bytes. rewrite be_val_be_bytes. change (256 ^ Z.of_nat HashLength) with (2 ^ Z.of_N 256).
  rewrite Zmod_mod. apply Z.mod_small, bits_bound.
Qed.

Lemma len_Address_Bytes a : len (Address_Bytes a) = 20.
Proof. unfold len, Address_Bytes. by rewrite length_be_bytes. Qed.

Lemma BytesToAddress_Address_Bytes a : BytesToAddress (Address_Bytes a) = a.
Proof.
  apply bits_eq. unfold BytesToAddress. rewrite bits_of_be_crop by done. rewrite bits_val_of.
  unfold Address_Bytes. rewrite be_val_be_bytes. change (256 ^ Z.of_nat AddressLength) with (2 ^ Z.of_N 160).
  rewrite Zmod_mod. apply Z.mod_small, bits_bound.
Qed.

End Common.
