(* ===== verification/VmData.v ===== *)
(** The data structures of the virtual machine: core/vm/stack.go, memory.go,
    common.go, memory_table.go, stack_table.go, opcodes.go and analysis.go,
    with the protocol constants of params/protocol_params.go they use. *)

From S2P Require Import Prelude BigMath.
Import Big GoMath Common.

(** * Errors returned by the virtual machine (core/vm/errors.go,
      instructions.go, jump_table.go and the formatted errors of the code). *)
Inductive vmerror : Type :=
| ErrOutOfGas
| ErrCodeStoreOutOfGas
| ErrDepth
| ErrInsufficientBalance
| ErrContractAddressCollision
| errGasUintOverflow
| errWriteProtection
| errReturnDataOutOfBounds
| errExecutionReverted
| errMaxCodeSizeExceeded
| errStackUnderflow (have want : Z)
| errStackLimit (have : Z)
| errInvalidJump (pos : Z)
| errInvalidOpcode (op : byte)
| ErrInvalidGasPrice
| ErrInvalidPrivacyValue
(** core/vm/contracts.go and ota_storage.go; the last ones are the errors made
    in place with errors.New and those of other packages *)
| errParameters
| errMethodId
| errBuyCoin
| errRefundCoin
| errBuyStamp
| errBalance
| errStampValue
| errCoinValue
| ErrMismatchedValue
| ErrInvalidOTASet
| ErrOTAReused
| ErrInvalidRingSigned
| ErrUnknown
| ErrInvalidOTAAddr
| ErrInvalidOTAAX
| ErrOTAExistAlready
| ErrOTABalanceIsZero
| errOtaNotExist (ota : list byte)
| errOtaZeroBalance (ota : list byte)
| errOtaBalancesDiffer (ota : list byte)
| errInvalidInputParam
| errUnknownError
| errHex (code : Z)
| errAbi
| errPrecompiled (code : Z).

#[export] Instance vmerror_eq_dec : EqDecision vmerror.
Proof. solve_decision. Defined.

(** * params/protocol_params.go *)
Module Params.
Definition CallValueTransferGas := 9000.
Definition CallNewAccountGas := 25000.
Definition QuadCoeffDiv := 512.
Definition SstoreSetGas := 20000.
Definition LogDataGas := 8.
Definition CallStipend := 2300.
Definition Sha3Gas := 30.
Definition Sha3WordGas := 6.
Definition SstoreResetGas := 5000.
Definition SstoreClearGas := 5000.
Definition SstoreRefundGas := 15000.
Definition JumpdestGas := 1.
Definition CreateDataGas := 200.
Definition CallCreateDepth := 1024.
Definition LogGas := 375.
Definition CopyGas := 3.
Definition StackLimit := 1024.
Definition LogTopicGas := 375.
Definition CreateGas := 32000.
Definition SuicideRefundGas := 24000.
Definition MemoryGas := 3.
Definition MaxCodeSize := 24576.

(** params/gas_table.go; [ChainConfig.GasTable] always answers the EIP158
    table. *)
Record GasTable := {
  gt_ExtcodeSize : Z;
  gt_ExtcodeCopy : Z;
  gt_Balance : Z;
  gt_SLoad : Z;
  gt_Calls : Z;
  gt_Suicide : Z;
  gt_ExpByte : Z;
  gt_CreateBySuicide : Z;
}.
Definition GasTableEIP158 : GasTable := {|
  gt_ExtcodeSize := 700;
  gt_ExtcodeCopy := 700;
  gt_Balance := 400;
  gt_SLoad := 200;
  gt_Calls := 700;
  gt_Suicide := 5000;
  gt_ExpByte := 50;
  gt_CreateBySuicide := 25000;
|}.
End Params.

(** * core/vm/opcodes.go *)
Module Op.
Abbreviation STOP := x00. Abbreviation ADD := x01. Abbreviation MUL := x02.
Abbreviation SUB := x03. Abbreviation DIV := x04. Abbreviation SDIV := x05.
Abbreviation MOD := x06. Abbreviation SMOD := x07. Abbreviation ADDMOD := x08.
Abbreviation MULMOD := x09. Abbreviation EXP := x0a.
Abbreviation SIGNEXTEND := x0b.
Abbreviation LT := x10. Abbreviation GT := x11. Abbreviation SLT := x12.
Abbreviation SGT := x13. Abbreviation EQ := x14. Abbreviation ISZERO := x15.
Abbreviation AND := x16. Abbreviation OR := x17. Abbreviation XOR := x18.
Abbreviation NOT := x19. Abbreviation BYTE := x1a.
Abbreviation SHA3 := x20.
Abbreviation ADDRESS := x30. Abbreviation BALANCE := x31.
Abbreviation ORIGIN := x32. Abbreviation CALLER := x33.
Abbreviation CALLVALUE := x34. Abbreviation CALLDATALOAD := x35.
Abbreviation CALLDATASIZE := x36. Abbreviation CALLDATACOPY := x37.
Abbreviation CODESIZE := x38. Abbreviation CODECOPY := x39.
Abbreviation GASPRICE := x3a. Abbreviation EXTCODESIZE := x3b.
Abbreviation EXTCODECOPY := x3c. Abbreviation RETURNDATASIZE := x3d.
Abbreviation RETURNDATACOPY := x3e.
Abbreviation BLOCKHASH := x40. Abbreviation COINBASE := x41.
Abbreviation TIMESTAMP := x42. Abbreviation NUMBER := x43.
Abbreviation DIFFICULTY := x44. Abbreviation GASLIMIT := x45.
Abbreviation POP := x50. Abbreviation MLOAD := x51. Abbreviation MSTORE := x52.
Abbreviation MSTORE8 := x53. Abbreviation SLOAD := x54.
Abbreviation SSTORE := x55. Abbreviation JUMP := x56. Abbreviation JUMPI := x57.
Abbreviation PC := x58. Abbreviation MSIZE := x59. Abbreviation GAS := x5a.
Abbreviation JUMPDEST := x5b.
Abbreviation PUSH1 := x60. Abbreviation PUSH32 := x7f.
Abbreviation DUP1 := x80. Abbreviation DUP16 := x8f.
Abbreviation SWAP1 := x90. Abbreviation SWAP16 := x9f.
Abbreviation LOG0 := xa0. Abbreviation LOG4 := xa4.
Abbreviation CREATE := xf0. Abbreviation CALL := xf1.
Abbreviation CALLCODE := xf2. Abbreviation RETURN := xf3.
Abbreviation DELEGATECALL := xf4. Abbreviation STATICCALL := xfa.
Abbreviation REVERT := xfd. Abbreviation SELFDESTRUCT := xff.

(** PUSH1 to PUSH32 are consecutive codes. *)
Definition IsPush (op : byte) : bool :=
  (byte_Z PUSH1 <=? byte_Z op) && (byte_Z op <=? byte_Z PUSH32).
End Op.

(** * core/vm/stack.go

    The stack is the list of its items, the top first: the item
    [st.data[st.len()-1-n]] of the code is the n-th of the list.  An access
    below the bottom is a run-time panic. *)
Module Stack.
Definition push (d : Z) (st : list Z) : list Z := d :: st.
Definition pop (st : list Z) : option (Z * list Z) :=
  match st with [] => None | d :: st' => Some (d, st') end.
Definition peek (st : list Z) : option Z := head st.
(** Back returns the n'th item in stack. *)
Definition Back (n : nat) (st : list Z) : option Z := st !! n.
(** [dup(pool, n)] pushes a copy of [st.data[st.len()-n]]. *)
Definition dup (n : nat) (st : list Z) : option (list Z) :=
  match n with
  | O => None
  | S i => d ← st !! i; Some (d :: st)
  end.
(** [swap(n)] exchanges [st.data[st.len()-n]] and the top. *)
Definition swap (n : nat) (st : list Z) : option (list Z) :=
  match n with
  | O => None
  | S i => a ← st !! i; b ← st !! 0%nat; Some (<[0%nat := a]> (<[i := b]> st))
  end.
Definition require (n : Z) (st : list Z) : option vmerror :=
  if len st <? n then Some (errStackUnderflow (len st) n) else None.

(** core/vm/stack_table.go; [None] is the nil error. *)
Definition makeStackFunc (pop push : Z) (st : list Z) : option vmerror :=
  match require pop st with
  | Some err => Some err
  | None =>
      if len st + push - pop >? Params.StackLimit then Some (errStackLimit (len st))
      else None
  end.
Definition makeDupStackFunc (n : Z) : list Z -> option vmerror := makeStackFunc n (n + 1).
Definition makeSwapStackFunc (n : Z) : list Z -> option vmerror := makeStackFunc n n.

Lemma makeStackFunc_ok pop push st :
  makeStackFunc pop push st = None <-> pop <= len st /\ len st + push - pop <= 1024.
Proof.
  unfold makeStackFunc, require, Params.StackLimit.
  destruct (Z.ltb_spec (len st) pop); [split; [done|lia]|].
  destruct (len st + push - pop >? 1024) eqn:E; split; try done; lia.
Qed.

Lemma swap_ok n st : (0 < n <= length st)%nat ->
  exists st', swap n st = Some st' /\ length st' = length st /\
    st' !! 0%nat = st !! (n - 1)%nat /\ st' !! (n - 1)%nat = st !! 0%nat /\
    (forall k, k <> 0%nat -> k <> (n - 1)%nat -> st' !! k = st !! k).
Proof.
  intros Hn. destruct n as [|i]; [lia|]. cbn [swap].
  destruct (lookup_lt_is_Some_2 st i) as [a Ha]; [lia|].
  destruct (lookup_lt_is_Some_2 st 0) as [b Hb]; [lia|].
  rewrite Ha, Hb. cbn. eexists. split; [done|].
  rewrite !length_insert, Nat.sub_0_r. split; [done|].
  rewrite list_lookup_insert_eq by (rewrite length_insert; lia).
  split; [by rewrite Ha|]. split.
  - destruct (decide (i = 0%nat)) as [->|].
    + rewrite list_lookup_insert_eq by (rewrite length_insert; lia). congruence.
    + rewrite list_lookup_insert_ne by lia. rewrite list_lookup_insert_eq by lia. done.
  - intros k ? ?. rewrite !list_lookup_insert_ne by lia. done.
Qed.
End Stack.

(** * core/vm/common.go *)
Module VmCommon.
Definition calcMemSize (off l : Z) : Z := if Sign l =? 0 then 0 else off + l.

Definition getData (data : list byte) (start size : Z) : option (list byte) :=
  let length := u64 (len data) in
  let start := if start >? length then length else start in
  let end_ := u64 (start + size) in
  let end_ := if end_ >? length then length else end_ in
  d ← slice data start end_; Some (RightPadBytes d (s64 size)).

Definition getDataBig (data : list byte) (start size : Z) : option (list byte) :=
  let dlen := len data in
  let s := BigMin start dlen in
  let e := BigMin (s + size) dlen in
  d ← slice data (Uint64 s) (Uint64 e); Some (RightPadBytes d (s64 (Uint64 size))).

(** bigUint64 returns the integer casted to a uint64 and whether it overflowed. *)
Definition bigUint64 (v : Z) : Z * bool := (Uint64 v, BitLen v >? 64).

Definition toWordSize (size : Z) : Z :=
  if size >? MaxUint64 - 31 then MaxUint64 / 32 + 1 else u64 (size + 31) / 32.

Definition allZero (b : list byte) : bool :=
  forallb (fun c => byte_Z c =? 0) b.

Lemma toWordSize_spec size : 0 <= size < 2 ^ 64 ->
  toWordSize size = (size + 31) / 32.
Proof.
  intros Hs. unfold toWordSize, MaxUint64.
  destruct (size >? 2 ^ 64 - 1 - 31) eqn:E; [zlia|].
  rewrite u64_small by lia. done.
Qed.

Lemma bigUint64_ok v : 0 <= v ->
  bigUint64 v = (u64 v, negb (v <? 2 ^ 64)).
Proof.
  intros. unfold bigUint64, Uint64. rewrite Z.abs_eq by lia. f_equal.
  pose proof (BitLen_le v 64 ltac:(lia)). lia.
Qed.

Lemma getDataBig_ok data start size : 0 <= start -> 0 <= size -> len data < 2 ^ 63 ->
  exists d, getDataBig data start size = Some d /\
    (size < 2 ^ 63 -> len d = size).
Proof.
  intros Hst Hsz Hd. unfold getDataBig, BigMin. pose proof (len_nonneg data).
  set (s := if start >? len data then len data else start).
  assert (0 <= s <= len data) by (unfold s; destruct (start >? len data) eqn:?; lia).
  set (e := if s + size >? len data then len data else s + size).
  assert (s <= e <= len data /\ e - s <= size)
    by (unfold e; destruct (s + size >? len data) eqn:?; lia).
  rewrite (Uint64_small s), (Uint64_small e) by lia. rewrite slice_Some by lia. cbn.
  eexists. split; [done|]. intros ?. rewrite RightPadBytes_len.
  rewrite Uint64_small, s64_small by lia.
  unfold len. rewrite length_take, length_drop. unfold len in *. lia.
Qed.

(** A slice padded with zeros is the data read at each position, zero beyond
    the end. *)
Lemma padded_slice (code : list byte) (start n : Z) d :
  0 <= start -> 0 <= n ->
  d = take (Z.to_nat n) (drop (Z.to_nat start) code) ->
  RightPadBytes d n = (fun i => default x00 (code !! (Z.to_nat start + i)%nat)) <$> seq 0 (Z.to_nat n).
Proof.
  intros Hs Hn ->. set (d := take _ _).
  assert (RightPadBytes d n = d ++ replicate (Z.to_nat n - length d) x00) as ->.
  { unfold RightPadBytes, len. assert (length d <= Z.to_nat n)%nat by (unfold d; rewrite length_take; lia).
    destruct (Z.leb_spec n (Z.of_nat (length d))).
    - replace (Z.to_nat n - length d)%nat with 0%nat by lia. by rewrite app_nil_r.
    - do 2 f_equal. lia. }
  apply list_eq. intros i. rewrite list_lookup_fmap.
  destruct (decide (i < Z.to_nat n)%nat) as [Hi|Hi].
  - rewrite lookup_seq_lt by done. cbn. destruct (decide (i < length d)%nat) as [Hd|Hd].
    + rewrite lookup_app_l by done. destruct (lookup_lt_is_Some_2 d i Hd) as [b Hb]. rewrite Hb.
      unfold d in Hb. rewrite lookup_take_lt, lookup_drop in Hb by done. by rewrite Hb.
    + rewrite lookup_app_r, lookup_replicate_2 by lia. rewrite lookup_ge_None_2; [done|].
      unfold d in Hd. rewrite length_take, length_drop in Hd. lia.
  - rewrite !lookup_ge_None_2; [done|rewrite length_seq; lia|].
    rewrite length_app, length_replicate. unfold d. rewrite length_take. lia.
Qed.
End VmCommon.

(** * core/vm/memory.go *)
Module Memory.
Record Memory := mkMemory {
  store : list byte;
  lastGasCost : Z;
}.
Definition NewMemory : Memory := mkMemory [] 0.
Definition Len (m : Memory) : Z := len (store m).

(** Set sets offset + size to value; offset and size are uint64. *)
Definition Set_ (m : Memory) (offset size : Z) (value : list byte) : option Memory :=
  if size >? u64 (len (store m)) then None
  else if size >? 0 then
    dst ← slice (store m) offset (u64 (offset + size));
    Some (mkMemory
            (splice (Z.to_nat offset) (take (length dst) value) (store m))
            (lastGasCost m))
  else Some m.

(** Resize resizes the memory to size. *)
Definition Resize (m : Memory) (size : Z) : Memory :=
  if u64 (Len m) <? size
  then mkMemory (store m ++ replicate (Z.to_nat (u64 (size - Len m))) x00) (lastGasCost m)
  else m.

(** Get returns offset + size as a new slice; offset and size are int64. *)
Definition Get (m : Memory) (offset size : Z) : option (list byte) :=
  if size =? 0 then Some []
  else if len (store m) >? offset then
    if size <? 0 then None else slice (store m) offset (s64 (offset + size))
  else Some [].

(** GetPtr returns the offset + size. *)
Definition GetPtr (m : Memory) (offset size : Z) : option (list byte) :=
  if size =? 0 then Some []
  else if len (store m) >? offset then slice (store m) offset (s64 (offset + size))
  else Some [].

(** [memory.store[off] = b], the direct write of MSTORE8. *)
Definition SetByte (m : Memory) (off : Z) (b : byte) : option Memory :=
  _ ← index (store m) off;
  Some (mkMemory (<[Z.to_nat off := b]> (store m)) (lastGasCost m)).

(** A region [off, off+size) with size > 0 that lies inside the memory. *)
Definition fits (m : Memory) (off size : Z) : Prop :=
  0 <= off /\ 0 <= size /\ (0 < size -> off + size <= Len m).

Lemma Set_ok m off size v :
  fits m off size -> Len m < 2 ^ 63 ->
  exists m', Set_ m (Uint64 off) (Uint64 size) v = Some m' /\
    Len m' = Len m /\ lastGasCost m' = lastGasCost m.
Proof.
  intros (Ho & Hs & Hf) Hl. unfold Set_. pose proof (len_nonneg (store m)).
  destruct (decide (size = 0)) as [->|].
  { exists m. replace (Uint64 0 >? _) with false; [done|].
    pose proof (u64_range (len (store m))). change (Uint64 0) with 0. lia. }
  specialize (Hf ltac:(lia)). unfold Len in *.
  rewrite !Uint64_small, !u64_small by lia.
  replace (size >? len (store m)) with false by lia.
  replace (size >? 0) with true by lia. rewrite slice_Some by lia. cbn.
  eexists. split; [done|]. cbn. split; [|done]. unfold len in *.
  rewrite splice_length; [done|]. rewrite !length_take, length_drop. lia.
Qed.

(** What Set stores is what Get reads back. *)
Lemma Set_Get m off size v m' :
  fits m off size -> Len m < 2 ^ 63 -> len v = size ->
  Set_ m (Uint64 off) (Uint64 size) v = Some m' ->
  Get m' (Int64 off) (Int64 size) = Some v.
Proof.
  intros (Ho & Hs & Hf) Hl Hv. unfold Set_, Len in *. pose proof (len_nonneg (store m)).
  destruct (decide (size = 0)) as [->|].
  { intros _. unfold Get. cbn. destruct v; [done|]. rewrite len_cons in Hv.
    pose proof (len_nonneg v). lia. }
  specialize (Hf ltac:(lia)). rewrite !Uint64_small, !u64_small by lia.
  replace (size >? len (store m)) with false by lia.
  replace (size >? 0) with true by lia. rewrite slice_Some by lia. cbn.
  intros [= <-]. unfold Get. cbn [store].
  rewrite !Int64_small, s64_small by lia.
  replace (size =? 0) with false by lia. unfold len in *.
  rewrite take_ge by (rewrite length_take, length_drop; lia).
  replace (_ >? off) with true by (rewrite splice_length; lia).
  replace (size <? 0) with false by lia. rewrite slice_Some.
  - f_equal. replace (Z.to_nat (off + size - off)) with (length v) by lia.
    apply splice_read. lia.
  - lia.
  - unfold len. rewrite splice_length; lia.
Qed.

Lemma Get_ok m off size :
  fits m off size -> Len m < 2 ^ 63 ->
  exists d, Get m (Int64 off) (Int64 size) = Some d /\ len d <= size.
Proof.
  intros (Ho & Hs & Hf) Hl. unfold Get, Len in *.
  destruct (decide (size = 0)) as [->|]; [by exists []|].
  specialize (Hf ltac:(lia)). rewrite !Int64_small, s64_small by lia.
  replace (size =? 0) with false by lia.
  replace (len (store m) >? off) with true by lia.
  replace (size <? 0) with false by lia. rewrite slice_Some by lia.
  eexists. split; [done|]. unfold len. rewrite length_take. lia.
Qed.

Lemma GetPtr_ok m off size :
  fits m off size -> Len m < 2 ^ 63 ->
  exists d, GetPtr m (Int64 off) (Int64 size) = Some d /\ len d <= size.
Proof.
  intros (Ho & Hs & Hf) Hl. unfold GetPtr, Len in *.
  destruct (decide (size = 0)) as [->|]; [by exists []|].
  specialize (Hf ltac:(lia)). rewrite !Int64_small, s64_small by lia.
  replace (size =? 0) with false by lia.
  replace (len (store m) >? off) with true by lia. rewrite slice_Some by lia.
  eexists. split; [done|]. unfold len. rewrite length_take. lia.
Qed.

Lemma Resize_len m size : Len m < 2 ^ 63 -> 0 <= size < 2 ^ 64 ->
  Len (Resize m size) = Z.max (Len m) size.
Proof.
  intros Hl Hs. unfold Resize, Len in *. pose proof (len_nonneg (store m)).
  rewrite u64_small by lia. destruct (Z.ltb_spec (len (store m)) size); [|lia].
  cbn. rewrite u64_small by lia. rewrite len_app, len_replicate. lia.
Qed.
End Memory.

(** * core/vm/memory_table.go

    The memory an operation needs, from its stack operands. *)
Module MemoryTable.
Import Stack VmCommon.

Definition memorySha3 (st : list Z) : option Z :=
  a ← Back 0 st; b ← Back 1 st; Some (calcMemSize a b).
Definition memoryCallDataCopy (st : list Z) : option Z :=
  a ← Back 0 st; b ← Back 2 st; Some (calcMemSize a b).
Definition memoryReturnDataCopy (st : list Z) : option Z :=
  a ← Back 0 st; b ← Back 2 st; Some (calcMemSize a b).
Definition memoryCodeCopy (st : list Z) : option Z :=
  a ← Back 0 st; b ← Back 2 st; Some (calcMemSize a b).
Definition memoryExtCodeCopy (st : list Z) : option Z :=
  a ← Back 1 st; b ← Back 3 st; Some (calcMemSize a b).
Definition memoryMLoad (st : list Z) : option Z :=
  a ← Back 0 st; Some (calcMemSize a 32).
Definition memoryMStore8 (st : list Z) : option Z :=
  a ← Back 0 st; Some (calcMemSize a 1).
Definition memoryMStore (st : list Z) : option Z :=
  a ← Back 0 st; Some (calcMemSize a 32).
Definition memoryCreate (st : list Z) : option Z :=
  a ← Back 1 st; b ← Back 2 st; Some (calcMemSize a b).
Definition memoryCall (st : list Z) : option Z :=
  a ← Back 5 st; b ← Back 6 st; c ← Back 3 st; d ← Back 4 st;
  let x := calcMemSize a b in
  let y := calcMemSize c d in
  Some (BigMax x y).
Definition memoryCallCode (st : list Z) : option Z :=
  a ← Back 5 st; b ← Back 6 st; c ← Back 3 st; d ← Back 4 st;
  let x := calcMemSize a b in
  let y := calcMemSize c d in
  Some (BigMax x y).
Definition memoryDelegateCall (st : list Z) : option Z :=
  a ← Back 4 st; b ← Back 5 st; c ← Back 2 st; d ← Back 3 st;
  let x := calcMemSize a b in
  let y := calcMemSize c d in
  Some (BigMax x y).
Definition memoryStaticCall (st : list Z) : option Z :=
  a ← Back 4 st; b ← Back 5 st; c ← Back 2 st; d ← Back 3 st;
  let x := calcMemSize a b in
  let y := calcMemSize c d in
  Some (BigMax x y).
Definition memoryReturn (st : list Z) : option Z :=
  a ← Back 0 st; b ← Back 1 st; Some (calcMemSize a b).
Definition memoryRevert (st : list Z) : option Z :=
  a ← Back 0 st; b ← Back 1 st; Some (calcMemSize a b).
Definition memoryLog (st : list Z) : option Z :=
  mSize ← Back 1 st; mStart ← Back 0 st; Some (calcMemSize mStart mSize).
End MemoryTable.

(** * core/vm/analysis.go *)
Module Analysis.
Import Op.

(** The cache of jump destinations: code hash to bitmap.  Contracts share it
    with the contracts they call. *)
Abbreviation destinations := (gmap Hash (list byte)).

(** [m[pc/8] |= 1 << (pc%8)] and the test of the same bit. *)
Definition setbit (pc : nat) (m : list byte) : list byte :=
  alter (fun b => Z_byte (Z.lor (byte_Z b) (Z.shiftl 1 (Z.of_nat (pc mod 8)))))
    (pc / 8)%nat m.
Definition bitof (b : byte) (udest : Z) : bool :=
  negb (Z.land (byte_Z b) (Z.shiftl 1 (udest mod 8)) =? 0).

(** The number of bytes that follow the opcode. *)
Definition pushSize (op : byte) : nat :=
  if IsPush op then Z.to_nat (byte_Z op - byte_Z PUSH1 + 1) else 0.

(** The loop of jumpdests; [pc] grows, so as many iterations as code bytes are
    enough. *)
Fixpoint jumpdests_loop (fuel : nat) (pc : nat) (code m : list byte) : list byte :=
  match fuel with
  | O => m
  | S f =>
      match code !! pc with
      | None => m
      | Some op =>
          if bool_decide (op = JUMPDEST) then jumpdests_loop f (pc + 1) code (setbit pc m)
          else if IsPush op then
            jumpdests_loop f (pc + Z.to_nat (byte_Z op - byte_Z PUSH1 + 1) + 1) code m
          else jumpdests_loop f (pc + 1) code m
      end
  end.
Definition jumpdests (code : list byte) : list byte :=
  jumpdests_loop (length code) 0 code (replicate (length code / 8 + 1) x00).

(** has checks whether code has a JUMPDEST at dest; it fills the cache. *)
Definition has (d : destinations) (codehash : Hash) (code : list byte) (dest : Z)
    : option (bool * destinations) :=
  let udest := Uint64 dest in
  if (BitLen dest >=? 63) || (udest >=? u64 (len code)) then Some (false, d)
  else
    let '(m, d) := match d !! codehash with
                   | Some m => (m, d)
                   | None => (jumpdests code, <[codehash := jumpdests code]> d)
                   end in
    b ← index m (udest / 8);
    Some (bitof b udest, d).

(** ** The specification: instruction boundaries *)

Inductive instr_start (code : list byte) : nat -> Prop :=
| start_zero : instr_start code 0
| start_next pc op :
    instr_start code pc -> code !! pc = Some op ->
    instr_start code (pc + pushSize op + 1).

(** [pc] begins an instruction and that instruction is JUMPDEST. *)
Definition jumpdest_at (code : list byte) (pc : nat) : Prop :=
  instr_start code pc /\ code !! pc = Some JUMPDEST.

(** The bit of a bitmap at a position. *)
Definition bm (m : list byte) (i : nat) : bool :=
  match m !! (i / 8)%nat with
  | Some b => Z.testbit (byte_Z b) (Z.of_nat (i mod 8))
  | None => false
  end.

Lemma bm_setbit m i j : (i / 8 < length m)%nat ->
  bm (setbit i m) j = bool_decide (i = j) || bm m j.
Proof.
  intros Hi. unfold bm, setbit.
  pose proof (Nat.div_mod_eq i 8). pose proof (Nat.div_mod_eq j 8).
  pose proof (Nat.mod_upper_bound i 8 ltac:(lia)).
  pose proof (Nat.mod_upper_bound j 8 ltac:(lia)).
  generalize dependent (i mod 8)%nat. intros a Ha Ha'.
  generalize dependent (j mod 8)%nat. intros c Hc Hc'.
  rewrite list_lookup_alter. case_decide as Hd.
  - rewrite <- Hd. destruct (lookup_lt_is_Some_2 m (i / 8)%nat Hi) as [b ->]. cbn.
    rewrite byte_Z_Z_byte. change 256 with (2 ^ 8).
    rewrite Z.testbit_mod_pow2 by lia.
    replace (Z.of_nat c <? 8) with true by lia. cbn [andb].
    rewrite Z.lor_spec, Bool.orb_comm. f_equal.
    rewrite Z.shiftl_1_l, Z.pow2_bits_eqb by lia.
    case_bool_decide; lia.
  - rewrite bool_decide_false by (intros ->; done). done.
Qed.

Lemma length_setbit i m : length (setbit i m) = length m.
Proof. apply length_alter. Qed.

Lemma length_jumpdests_loop fuel pc code m :
  length (jumpdests_loop fuel pc code m) = length m.
Proof.
  revert pc m. induction fuel as [|f IH]; intros pc m; [done|].
  cbn [jumpdests_loop]. destruct (code !! pc); [|done]. case_bool_decide; [by rewrite IH, length_setbit|].
  by destruct (IsPush b).
Qed.

Lemma instr_start_gap code a b op :
  instr_start code a -> instr_start code b -> code !! a = Some op ->
  (a < b)%nat -> (a + pushSize op + 1 <= b)%nat.
Proof.
  revert a op. induction (lt_wf b) as [b _ IH]. intros a op Ha Hb Hop Hlt.
  inversion Hb as [|p op' Hp Hop' Hbp]; [lia|].
  destruct (lt_eq_lt_dec a p) as [[Hap| ->]|Hpa].
  - assert (a + pushSize op + 1 <= p)%nat; [|lia]. apply (IH p); [lia|done..].
  - rewrite Hop in Hop'. injection Hop' as ->. lia.
  - assert (p + pushSize op' + 1 <= a)%nat; [|lia]. apply (IH a); [lia|done..].
Qed.

Lemma pushSize_push op : IsPush op = true ->
  pushSize op = Z.to_nat (byte_Z op - byte_Z PUSH1 + 1).
Proof. unfold pushSize. by intros ->. Qed.

(** From an instruction boundary, the loop sets exactly the destinations at or
    after it. *)
Lemma jumpdests_loop_spec fuel pc code m i :
  (length code <= pc + fuel)%nat -> (length code / 8 < length m)%nat ->
  instr_start code pc ->
  bm (jumpdests_loop fuel pc code m) i = true <->
  bm m i = true \/ ((pc <= i)%nat /\ jumpdest_at code i).
Proof.
  revert pc m. induction fuel as [|f IH]; intros pc m Hf Hm Hs; cbn [jumpdests_loop].
  { split; [by left|]. intros [|[? [_ Hj]]]; [done|]. apply lookup_lt_Some in Hj. lia. }
  destruct (code !! pc) as [op|] eqn:Hop; cycle 1.
  { apply lookup_ge_None in Hop.
    split; [by left|]. intros [|[? [_ Hj]]]; [done|]. apply lookup_lt_Some in Hj. lia. }
  assert (pc < length code)%nat by (by eapply lookup_lt_Some).
  pose proof (start_next code pc op Hs Hop) as Hnext.
  assert (Hgap : jumpdest_at code i -> (pc <= i)%nat ->
                 i = pc \/ (pc + pushSize op + 1 <= i)%nat).
  { intros [Hi _] ?. destruct (decide (i = pc)); [by left|right].
    by apply (instr_start_gap code); [..|lia]. }
  case_bool_decide as Hjd; [|destruct (IsPush op) eqn:Hpush].
  - subst op. change (pushSize JUMPDEST) with 0%nat in *.
    rewrite Nat.add_0_r in Hnext, Hgap.
    assert (pc / 8 <= length code / 8)%nat by (apply Nat.Div0.div_le_mono; lia).
    rewrite IH, bm_setbit by (rewrite ?length_setbit; done || lia).
    rewrite orb_true_iff, bool_decide_eq_true. split.
    + intros [[<-|?]|[? ?]]; [right|by left|right; split; [lia|done]].
      by split; [lia|].
    + intros [?|[Hle Hj]]; [by left; right|].
      destruct (Hgap Hj Hle) as [->|?]; [by left; left|by right].
  - rewrite <- (pushSize_push _ Hpush). rewrite IH by (done || lia).
    split; [intros [|[? ?]]; [by left|right; split; [lia|done]]|].
    intros [|[Hle Hj]]; [by left|]. right.
    destruct (Hgap Hj Hle) as [->|?]; [|done]. destruct Hj as [_ Hj]. congruence.
  - assert (pushSize op = 0%nat) as Hz by (unfold pushSize; by rewrite Hpush).
    rewrite Hz, Nat.add_0_r in *. rewrite IH by (done || lia).
    split; [intros [|[? ?]]; [by left|right; split; [lia|done]]|].
    intros [|[Hle Hj]]; [by left|]. right.
    destruct (Hgap Hj Hle) as [->|?]; [|done]. destruct Hj as [_ Hj]. congruence.
Qed.

Lemma bm_zeros n i : bm (replicate n x00) i = false.
Proof.
  unfold bm. destruct (replicate n x00 !! (i / 8)%nat) as [b|] eqn:E; [|done].
  apply lookup_replicate in E as [-> _]. apply Z.testbit_0_l.
Qed.

Lemma jumpdests_spec code i :
  bm (jumpdests code) i = true <-> jumpdest_at code i.
Proof.
  unfold jumpdests. rewrite jumpdests_loop_spec.
  - rewrite bm_zeros. split; [intros [|[_ ?]]; done|]. intros ?. right. split; [lia|done].
  - lia.
  - rewrite length_replicate. lia.
  - constructor.
Qed.

Lemma length_jumpdests code : length (jumpdests code) = (length code / 8 + 1)%nat.
Proof. unfold jumpdests. by rewrite length_jumpdests_loop, length_replicate. Qed.

Lemma bitof_bm m b (i : nat) :
  m !! (i / 8)%nat = Some b -> bitof b (Z.of_nat i) = bm m i.
Proof.
  intros Hb. unfold bitof, bm. rewrite Hb.
  change 8 with (Z.of_nat 8). rewrite <- Nat2Z.inj_mod.
  set (k := Z.of_nat (i mod 8)). assert (0 <= k) by lia.
  assert (Z.land (byte_Z b) (2 ^ k) = if Z.testbit (byte_Z b) k then 2 ^ k else 0) as Hl.
  { apply Z.bits_inj'. intros n Hn. rewrite Z.land_spec, Z.pow2_bits_eqb by lia.
    destruct (Z.eqb_spec k n) as [<-|Hne].
    - destruct (Z.testbit (byte_Z b) k) eqn:E; [|by rewrite Z.testbit_0_l].
      by rewrite Z.pow2_bits_true by lia.
    - rewrite andb_false_r. destruct (Z.testbit (byte_Z b) k); [|by rewrite Z.testbit_0_l].
      by rewrite Z.pow2_bits_false. }
  rewrite Z.shiftl_1_l, Hl. destruct (Z.testbit (byte_Z b) k); [|done].
  pose proof (Z.pow_pos_nonneg 2 k ltac:(lia) ltac:(lia)). lia.
Qed.

(** A cache is sound for a set of codes when the bitmap stored under the hash
    of such a code is the bitmap of that code. *)
Definition cache_ok (hash : list byte -> Hash) (P : list byte -> Prop)
    (d : destinations) : Prop :=
  forall code m, P code -> d !! hash code = Some m -> m = jumpdests code.

Lemma has_spec hash (P : list byte -> Prop) d code dest :
  (forall c c', P c -> P c' -> hash c = hash c' -> c = c') ->
  cache_ok hash P d -> P code -> len code < 2 ^ 62 -> 0 <= dest ->
  exists b d', has d (hash code) code dest = Some (b, d') /\ cache_ok hash P d' /\
    (b = true <-> jumpdest_at code (Z.to_nat dest)).
Proof.
  intros Hinj Hd Hc Hlen Hdest. unfold has. pose proof (len_nonneg code).
  rewrite u64_small by lia.
  destruct (decide (dest < len code)) as [Hlt|Hge]; cycle 1.
  { exists false, d. replace (_ || _) with true.
    - split; [done|]. split; [done|]. split; [done|].
      intros [_ Hj]. apply lookup_lt_Some in Hj. unfold len in *. lia.
    - symmetry. apply orb_true_iff.
      destruct (BitLen dest >=? 63) eqn:E; [by left|right].
      assert (dest < 2 ^ 63).
      { rewrite <- (Z.abs_eq dest) by lia. apply BitLen_le; lia. }
      rewrite Uint64_small by lia. lia. }
  assert (BitLen dest <= 62) by (apply BitLen_le; lia).
  rewrite Uint64_small by lia.
  replace (_ || _) with false by lia.
  set (r := match d !! hash code with Some m => (m, d) | None => _ end).
  assert (r.1 = jumpdests code /\ cache_ok hash P r.2) as [Hr1 Hr2].
  { unfold r. destruct (d !! hash code) eqn:E; cbn; [split; [by eapply Hd|done]|].
    split; [done|]. intros c m Hc' Hm. rewrite lookup_insert in Hm.
    case_decide as Heq; [|by eapply Hd]. apply Hinj in Heq; [|done..]. congruence. }
  destruct r as [m d']. cbn in *. subst m.
  replace (dest / 8) with (Z.of_nat (Z.to_nat dest / 8)) by
    (rewrite Nat2Z.inj_div, Z2Nat.id by lia; done).
  assert (Z.to_nat dest / 8 < length (jumpdests code))%nat as Hi.
  { rewrite length_jumpdests. unfold len in *.
    pose proof (Nat.Div0.div_le_mono (Z.to_nat dest) (length code) 8 ltac:(lia)). lia. }
  unfold index. replace (0 <=? _) with true by lia. rewrite Nat2Z.id.
  destruct (lookup_lt_is_Some_2 _ _ Hi) as [b Hb]. rewrite Hb. cbn.
  eexists _, _. split; [done|]. split; [done|].
  rewrite <- jumpdests_spec, <- (bitof_bm _ _ _ Hb), Z2Nat.id by lia. done.
Qed.
End Analysis.
