(* ===== verification/MathTheorems.v ===== *)
(** The numeric helpers of common/math, common and core/vm/common.go and the
    code analysis of core/vm/analysis.go compute what they are named for. *)

From S2P Require Import Prelude BigMath VmData.
Import Big GoMath Common VmCommon.

(** Exp is modular exponentiation: the square-and-multiply loop over the
    64-bit words of the exponent, which also overwrites its base, returns the
    power modulo 2^256 for every exponent that is not negative. *)
Theorem exp_is_power base exponent :
  0 <= exponent -> Exp base exponent = base ^ exponent mod 2 ^ 256.
Proof. apply Exp_spec. Qed.

Lemma exp_is_power_witness : Exp 3 300 = 3 ^ 300 mod 2 ^ 256.
Proof. apply (exp_is_power 3 300). lia. Defined.

(** Exp overwrites its base: after computing 3 to the power 2 the big integer
    that was passed as the base no longer holds 3 (it has been squared once per
    exponent bit), while the comment on the function says that it does not
    change base or exponent. *)
Theorem exp_overwrites_base : (Exp_loop 3 2).1 = 9 /\ (Exp_loop 3 2).2 <> 3.
Proof. split; [reflexivity|]. vm_compute. discriminate. Qed.

(** Padded encodings round-trip: PaddedBigBytes is a big-endian encoding that
    SetBytes reads back, and it has exactly the asked length when the number
    fits. *)
Theorem padded_bytes_round_trip x n :
  0 <= x -> 0 <= n ->
  SetBytes (PaddedBigBytes x n) = x /\ n <= len (PaddedBigBytes x n) /\
  (x < 256 ^ n -> len (PaddedBigBytes x n) = n).
Proof.
  intros Hx Hn. split_and!; [by apply PaddedBigBytes_val|by apply PaddedBigBytes_length|].
  intros Hlt. rewrite <- (Z2Nat.id n) by done. rewrite PaddedBigBytes_pad.
  - unfold len. by rewrite length_be_bytes.
  - rewrite Z.abs_eq, <- pow256, Z2Nat.id by lia. done.
Qed.

Lemma padded_bytes_round_trip_witness :
  SetBytes (PaddedBigBytes 258 4) = 258 /\ 4 <= len (PaddedBigBytes 258 4) /\
  (258 < 256 ^ 4 -> len (PaddedBigBytes 258 4) = 4).
Proof. apply (padded_bytes_round_trip 258 4); lia. Defined.

(** Overflow is detected exactly: SafeAdd, SafeSub and SafeMul on uint64 set
    their flag if and only if the mathematical result is out of range, and
    otherwise return it. *)
Theorem safe_arithmetic x y :
  0 <= x < 2 ^ 64 -> 0 <= y < 2 ^ 64 ->
  SafeAdd x y = (u64 (x + y), negb (x + y <? 2 ^ 64)) /\
  SafeSub x y = (u64 (x - y), negb (0 <=? x - y)) /\
  SafeMul x y = (u64 (x * y), negb (x * y <? 2 ^ 64)).
Proof.
  intros Hx Hy. split_and!; [by apply SafeAdd_ok| |by apply SafeMul_ok].
  unfold SafeSub. f_equal. lia.
Qed.

Lemma safe_arithmetic_witness :
  SafeAdd (2 ^ 63) (2 ^ 63) = (u64 (2 ^ 63 + 2 ^ 63), negb (2 ^ 63 + 2 ^ 63 <? 2 ^ 64)) /\
  SafeSub (2 ^ 63) (2 ^ 63) = (u64 (2 ^ 63 - 2 ^ 63), negb (0 <=? 2 ^ 63 - 2 ^ 63)) /\
  SafeMul (2 ^ 63) (2 ^ 63) = (u64 (2 ^ 63 * 2 ^ 63), negb (2 ^ 63 * 2 ^ 63 <? 2 ^ 64)).
Proof. apply (safe_arithmetic (2 ^ 63) (2 ^ 63)); lia. Defined.

(** The jump destination bitmap is exact: bit [i] of the bitmap that
    [jumpdests] computes is set if and only if position [i] is a JUMPDEST opcode
    at an instruction boundary of the code. *)
Theorem jumpdests_exact code i :
  Analysis.bm (Analysis.jumpdests code) i = true <-> Analysis.jumpdest_at code i.
Proof. apply Analysis.jumpdests_spec. Qed.

(** getDataBig is total and zero-extends: for any offset and size the slice
    does not panic, and its i-th byte is the byte of the data at offset + i, or
    zero beyond the end. *)
Theorem get_data_zero_extends data start size :
  0 <= start -> 0 <= size < 2 ^ 63 -> len data < 2 ^ 63 ->
  getDataBig data start size =
    Some ((fun i => default x00 (data !! (Z.to_nat start + i)%nat)) <$> seq 0 (Z.to_nat size)).
Proof.
  intros Hst Hsz Hd. unfold getDataBig, BigMin. pose proof (len_nonneg data).
  set (s := if start >? len data then len data else start).
  assert (0 <= s <= len data) by (unfold s; destruct (start >? len data) eqn:?; lia).
  set (e := if s + size >? len data then len data else s + size).
  assert (s <= e <= len data) by (unfold e; destruct (s + size >? len data) eqn:?; lia).
  rewrite (Uint64_small s), (Uint64_small e), (Uint64_small size), (s64_small size), slice_Some by lia.
  cbn [mbind option_bind]. f_equal. apply padded_slice; [done|lia|].
  unfold e, s, len in *. destruct (start >? Z.of_nat (length data)) eqn:E1.
  - rewrite !drop_ge by lia. by rewrite !take_nil.
  - destruct (start + size >? Z.of_nat (length data)) eqn:E2; [|f_equal; lia].
    rewrite !take_ge; [done|rewrite length_drop; lia..].
Qed.

Lemma get_data_zero_extends_witness :
  getDataBig [x01; x02; x03] 2 4 =
    Some ((fun i => default x00 ([x01; x02; x03] !! (Z.to_nat 2 + i)%nat)) <$> seq 0 (Z.to_nat 4)).
Proof. apply (get_data_zero_extends [x01; x02; x03] 2 4); first [lia|done]. Defined.

(** Addresses and hashes are faithful to their numbers: converting to a big
    integer and back is the identity, and converting a byte slice of any length
    keeps its last 20 or 32 bytes as a number. *)
Theorem hash_address_round_trip (h : Hash) (a : Address) (l : list byte) :
  BigToHash (Hash_Big h) = h /\ BigToAddress (Address_Big a) = a /\
  Hash_Big (BytesToHash l) = be_val l mod 2 ^ 256 /\
  Address_Big (BytesToAddress l) = be_val l mod 2 ^ 160.
Proof.
  split_and!; [apply BigToHash_Big|apply BigToAddress_Big|..].
  - rewrite Hash_Big_val. unfold BytesToHash. rewrite bits_of_be_crop by done. apply bits_val_of.
  - rewrite Address_Big_val. unfold BytesToAddress. rewrite bits_of_be_crop by done. apply bits_val_of.
Qed.
