(* ===== verification/GoHeap.v ===== *)
(** Binary heaps of Go's container/heap on slices, and sorting.

    The heap functions are translated for any comparison [less]; where [less]
    compares keys they keep the heap order, and they only move elements. *)

From S2P Require Import Prelude.
From stdpp Require Import sorting.

Module Heap.
Section Ops.
Context {A : Type} (less : A -> A -> bool).

(** h.Less(i, j) and h.Swap(i, j), for indices of the slice. *)
Definition less_at (h : list A) (i j : nat) : bool :=
  match h !! i, h !! j with Some a, Some b => less a b | _, _ => false end.
Definition swap (h : list A) (i j : nat) : list A :=
  match h !! i, h !! j with Some a, Some b => <[i := b]> (<[j := a]> h) | _, _ => h end.

Definition par (i : nat) : nat := (i - 1) / 2.

Fixpoint up_ (fuel : nat) (h : list A) (j : nat) : list A :=
  match fuel with
  | O => h
  | S fuel =>
      let i := par j in
      if (i =? j)%nat || negb (less_at h j i) then h else up_ fuel (swap h i j) i
  end.
(** The index halves in every step. *)
Definition up (h : list A) (j : nat) : list A := up_ (S j) h j.

(** The smaller child of [i] that is before [n]. *)
Definition least_child (n : nat) (h : list A) (i : nat) : nat :=
  let j1 := (2 * i + 1)%nat in
  if (j1 + 1 <? n)%nat && less_at h (j1 + 1) j1 then (j1 + 1)%nat else j1.

(** The heap and the place where the element ends. *)
Fixpoint down_ (fuel : nat) (n : nat) (h : list A) (i : nat) : list A * nat :=
  match fuel with
  | O => (h, i)
  | S fuel =>
      if (n <=? 2 * i + 1)%nat then (h, i)
      else
        let j := least_child n h i in
        if negb (less_at h j i) then (h, i) else down_ fuel n (swap h i j) j
  end.
Definition down (n : nat) (h : list A) (i : nat) : list A := (down_ n n h i).1.
Definition moved (n : nat) (h : list A) (i : nat) : bool := (i <? (down_ n n h i).2)%nat.

Definition Init (h : list A) : list A := foldr (fun i h => down (length h) h i) h (seq 0 (length h / 2)).
Definition Push (h : list A) (x : A) : list A := up (h ++ [x]) (length h).
(** [None] is the panic on an empty heap. *)
Definition Pop (h : list A) : option (A * list A) :=
  let n := (length h - 1)%nat in
  let h := down n (swap h 0 n) 0 in
  x ← list.last h; Some (x, take n h).
Definition fix_at (n : nat) (h : list A) (i : nat) : list A := if moved n h i then down n h i else up (down n h i) i.
Definition Remove (h : list A) (i : nat) : list A :=
  let n := (length h - 1)%nat in
  let h := if (n =? i)%nat then h else fix_at n (swap h i n) i in
  take n h.
Definition Fix (h : list A) (i : nat) : list A := fix_at (length h) h i.
End Ops.
End Heap.
Import Heap.

(** * Elements are only moved *)

Section Perm.
Context {A : Type} (less : A -> A -> bool).
Implicit Types h : list A.

Lemma insert_perm h i x y : h !! i = Some x -> y :: h ≡ₚ x :: <[i := y]> h.
Proof.
  revert i. induction h as [|z h IH]; intros [|i] Hi; try done; cbn in Hi |- *; [injection Hi as ->; constructor|].
  rewrite (Permutation_swap z y), (Permutation_swap z x). constructor. by apply IH.
Qed.

Lemma swap_perm h i j : swap h i j ≡ₚ h.
Proof.
  unfold swap. destruct (h !! i) as [a|] eqn:Ei, (h !! j) as [b|] eqn:Ej; try done.
  destruct (decide (i = j)) as [->|Hne]; [by rewrite list_insert_insert_eq, list_insert_id by congruence|].
  apply (Permutation_cons_inv (a := a)). rewrite <- (insert_perm (<[j := a]> h) i a b) by (by rewrite list_lookup_insert_ne).
  symmetry. by apply insert_perm.
Qed.
Lemma length_swap h i j : length (swap h i j) = length h.
Proof. by rewrite swap_perm. Qed.

Lemma up_perm fuel h j : up_ less fuel h j ≡ₚ h.
Proof.
  revert h j. induction fuel as [|fuel IH]; intros h j; [done|]. cbn [up_]. destruct (_ || _); [done|]. by rewrite IH, swap_perm.
Qed.
Lemma down_perm fuel n h i : (down_ less fuel n h i).1 ≡ₚ h.
Proof.
  revert h i. induction fuel as [|fuel IH]; intros h i; [done|]. cbn [down_]. destruct (_ <=? _)%nat; [done|].
  destruct (negb _); [done|]. by rewrite IH, swap_perm.
Qed.
Lemma length_down n h i : length (down less n h i) = length h.
Proof. unfold down. by rewrite down_perm. Qed.
Lemma length_up h i : length (up less h i) = length h.
Proof. unfold up. by rewrite up_perm. Qed.

Lemma Init_perm h : Init less h ≡ₚ h.
Proof.
  unfold Init. induction (seq 0 (length h / 2)) as [|i l IH]; [done|]. cbn [foldr]. unfold down. by rewrite down_perm.
Qed.
Lemma Push_perm h x : Push less h x ≡ₚ x :: h.
Proof. unfold Push, up. rewrite up_perm. by rewrite Permutation_app_comm. Qed.

Lemma take_last (h : list A) x : list.last h = Some x -> h = take (length h - 1) h ++ [x].
Proof.
  intros Hl. apply last_Some in Hl as [l ->]. rewrite length_app. cbn [length]. rewrite Nat.add_sub. by rewrite take_app_length.
Qed.
Lemma Pop_perm h x h' : Pop less h = Some (x, h') -> h ≡ₚ x :: h'.
Proof.
  unfold Pop. destruct (list.last _) as [y|] eqn:E; [|done]. cbn [mbind option_bind]. intros [= <- <-].
  apply take_last in E. rewrite length_down, length_swap in E. set (n := (length h - 1)%nat) in *.
  assert (h ≡ₚ down less n (swap h 0 n) 0) as Hp by (unfold down; by rewrite down_perm, swap_perm).
  etrans; [exact Hp|]. rewrite E at 1. by rewrite Permutation_app_comm.
Qed.
Lemma Pop_nonempty h : h <> [] -> exists x h', Pop less h = Some (x, h').
Proof.
  intros Hh. unfold Pop. destruct (list.last _) as [y|] eqn:E; [eauto|]. apply last_None in E.
  assert (length h = 0%nat) by (rewrite <- (length_swap h 0 (length h - 1)), <- (length_down (length h - 1) _ 0), E; done). by destruct h.
Qed.
Lemma fix_perm n h i : fix_at less n h i ≡ₚ h.
Proof. unfold fix_at, up. destruct (moved less n h i); rewrite ?up_perm; apply down_perm. Qed.

(** Elements from the bound on stay where they are. *)
Lemma swap_lookup_ne h i j k : k <> i -> k <> j -> swap h i j !! k = h !! k.
Proof. intros. unfold swap. destruct (h !! i), (h !! j); try done. by rewrite !list_lookup_insert_ne. Qed.
Lemma least_child_range n h i : (2 * i + 1 < n)%nat ->
  (least_child less n h i < n)%nat /\ (least_child less n h i = 2 * i + 1 \/ least_child less n h i = 2 * i + 2)%nat.
Proof. intros. unfold least_child. destruct (Nat.ltb_spec (2 * i + 1 + 1) n); cbn [andb]; [destruct (less_at _ _ _ _)|]; lia. Qed.
Lemma down_beyond fuel n h i k : (i < n)%nat -> (n <= k)%nat -> (down_ less fuel n h i).1 !! k = h !! k.
Proof.
  revert h i. induction fuel as [|fuel IH]; intros h i Hi Hk; [done|]. cbn [down_]. destruct (Nat.leb_spec n (2 * i + 1)); [done|].
  pose proof (least_child_range n h i). destruct (negb _); [done|]. rewrite IH by lia. apply swap_lookup_ne; lia.
Qed.
Lemma up_beyond fuel h i k : (i < k)%nat -> up_ less fuel h i !! k = h !! k.
Proof.
  revert h i. induction fuel as [|fuel IH]; intros h i Hi; [done|]. cbn [up_]. destruct (_ || _); [done|].
  assert (par i <= i)%nat by (unfold par; apply Nat.Div0.div_le_upper_bound; lia).
  rewrite IH by lia. apply swap_lookup_ne; lia.
Qed.
End Perm.

(** * The heap order *)

Section Order.
Context {A : Type} (less : A -> A -> bool) (key : A -> Z) (P : A -> Prop).
Hypothesis less_key : forall a b, P a -> P b -> less a b = (key a <? key b)%Z.
Implicit Types h : list A.
Local Open Scope Z_scope.

Definition kk h (i : nat) : Z := default 0 (key <$> h !! i).

(** Every element at or after place [s] is at most its children before [n]. *)
Definition heap_from (s : nat) h (n : nat) : Prop :=
  forall x, (0 < x < n)%nat -> (s <= par x)%nat -> kk h (par x) <= kk h x.
Definition is_heap h : Prop := heap_from 0 h (length h).

Lemma kk_lookup h i a : h !! i = Some a -> kk h i = key a.
Proof. unfold kk. by intros ->. Qed.
Lemma kk_swap h i j x : (i < length h)%nat -> (j < length h)%nat ->
  kk (swap h i j) x = if (x =? i)%nat then kk h j else if (x =? j)%nat then kk h i else kk h x.
Proof.
  intros Hi Hj. unfold kk, swap. destruct (lookup_lt_is_Some_2 h i Hi) as [a Ea], (lookup_lt_is_Some_2 h j Hj) as [b Eb].
  rewrite Ea, Eb. destruct (Nat.eqb_spec x i) as [->|Hxi]; [by rewrite list_lookup_insert_eq by (by rewrite length_insert)|].
  rewrite list_lookup_insert_ne by done. destruct (Nat.eqb_spec x j) as [->|Hxj]; [by rewrite list_lookup_insert_eq|].
  by rewrite list_lookup_insert_ne.
Qed.
Lemma less_at_kk h i j : Forall P h -> (i < length h)%nat -> (j < length h)%nat -> less_at less h i j = (kk h i <? kk h j).
Proof.
  intros HP Hi Hj. unfold less_at, kk. destruct (lookup_lt_is_Some_2 h i Hi) as [a Ea], (lookup_lt_is_Some_2 h j Hj) as [b Eb].
  rewrite Ea, Eb. apply less_key; by eapply Forall_lookup_1.
Qed.

Lemma par_spec x : (0 < x)%nat -> (2 * par x + 1 = x \/ 2 * par x + 2 = x)%nat.
Proof. intros. unfold par. pose proof (Nat.div_mod_eq (x - 1) 2). pose proof (Nat.mod_upper_bound (x - 1) 2). lia. Qed.
Lemma par_lt x : (0 < x)%nat -> (par x < x)%nat.
Proof. intros. pose proof (par_spec x). lia. Qed.

(** The smaller child. *)
Lemma least_child_le n h i x : Forall P h -> (n <= length h)%nat -> (2 * i + 1 < n)%nat -> (0 < x < n)%nat -> par x = i ->
  kk h (least_child less n h i) <= kk h x.
Proof.
  intros HP Hn Hi Hx Hp. pose proof (par_spec x ltac:(lia)) as Hpx. unfold least_child.
  destruct (Nat.ltb_spec (2 * i + 1 + 1) n); cbn [andb].
  - rewrite less_at_kk by (done || lia). destruct (Z.ltb_spec (kk h (2 * i + 1 + 1)) (kk h (2 * i + 1)));
      (destruct Hpx as [Hpx|Hpx]; [assert (x = 2 * i + 1)%nat as -> by lia|assert (x = 2 * i + 1 + 1)%nat as -> by lia]); lia.
  - assert (x = 2 * i + 1)%nat as -> by lia. lia.
Qed.

(** Only the element at [i] may be too large; what is above it is at most its
    children. *)
Definition sinks (s : nat) h (n i : nat) : Prop :=
  (forall x, (0 < x < n)%nat -> (s <= par x)%nat -> par x <> i -> kk h (par x) <= kk h x) /\
  (forall x, (0 < x < n)%nat -> par x = i -> (0 < i)%nat -> (s <= par i)%nat -> kk h (par i) <= kk h x).

Lemma sinks_swap s h n i : Forall P h -> (n <= length h)%nat -> (2 * i + 1 < n)%nat -> (s <= i)%nat -> sinks s h n i ->
  kk h (least_child less n h i) < kk h i -> sinks s (swap h i (least_child less n h i)) n (least_child less n h i).
Proof.
  intros HP Hn Hi Hs [H1 H2] Hlt. pose proof (least_child_range less n h i Hi) as [Hj Hj'].
  pose proof (fun x => least_child_le n h i x HP Hn Hi) as Hmin. set (j := least_child less n h i) in *.
  assert (par j = i) as Hpj by (pose proof (par_spec j); lia).
  split; intros x Hx.
  - intros Hsx Hne. pose proof (par_lt x ltac:(lia)). rewrite !kk_swap by lia.
    destruct (Nat.eqb_spec (par x) i) as [E|E].
    + destruct (Nat.eqb_spec x i); [lia|]. destruct (Nat.eqb_spec x j) as [->|]; [lia|]. by apply Hmin.
    + destruct (Nat.eqb_spec (par x) j); [lia|]. destruct (Nat.eqb_spec x i) as [->|Hxi].
      * apply H2; [lia|lia|lia|lia].
      * destruct (Nat.eqb_spec x j) as [->|]; [lia|]. by apply H1.
  - intros Hp _ Hsj. pose proof (par_lt x ltac:(lia)). rewrite !kk_swap by lia. rewrite Hpj, Nat.eqb_refl.
    destruct (Nat.eqb_spec x i); [lia|]. destruct (Nat.eqb_spec x j); [lia|]. rewrite <- Hp. apply H1; lia.
Qed.

Lemma swap_P h i j : Forall P h -> Forall P (swap h i j).
Proof. by rewrite swap_perm. Qed.

Lemma down_ok s fuel n : forall h i, Forall P h -> (n <= length h)%nat -> (n <= i + fuel)%nat -> (s <= i)%nat -> sinks s h n i ->
  heap_from s (down_ less fuel n h i).1 n.
Proof.
  induction fuel as [|fuel IH]; intros h i HP Hn Hf Hs Hsink; cbn [down_].
  { intros x Hx Hsx. apply Hsink; [done|done|]. pose proof (par_lt x). lia. }
  destruct (Nat.leb_spec n (2 * i + 1)) as [Hle|Hgt].
  { intros x Hx Hsx. apply Hsink; [done|done|]. pose proof (par_spec x). lia. }
  pose proof (least_child_range less n h i Hgt) as [Hj Hj'].
  rewrite less_at_kk by (done || lia). destruct (Z.ltb_spec (kk h (least_child less n h i)) (kk h i)); cbn [negb].
  - apply IH; [by apply swap_P|by rewrite length_swap|lia|lia|by apply sinks_swap].
  - intros x Hx Hsx. destruct (decide (par x = i)) as [Hp|Hp]; [|by apply Hsink].
    pose proof (least_child_le n h i x HP Hn Hgt Hx Hp). cbn [fst]. rewrite Hp. lia.
Qed.

(** Only the element at [j] may be smaller than its parent. *)
Definition rises h (n j : nat) : Prop :=
  (forall x, (0 < x < n)%nat -> x <> j -> kk h (par x) <= kk h x) /\
  (forall x, (0 < x < n)%nat -> par x = j -> (0 < j)%nat -> kk h (par j) <= kk h x).

Lemma up_ok fuel n : forall h j, Forall P h -> (n <= length h)%nat -> (j < n)%nat -> (j < fuel)%nat -> rises h n j ->
  heap_from 0 (up_ less fuel h j) n.
Proof.
  induction fuel as [|fuel IH]; intros h j HP Hn Hj Hf [H1 H2]; [lia|]. cbn [up_].
  destruct (Nat.eqb_spec (par j) j) as [E|E]; cbn [orb].
  { intros x Hx _. apply H1; [done|]. intros ->. pose proof (par_lt j). lia. }
  assert (0 < j)%nat as Hj0 by (destruct j; [done|lia]). pose proof (par_lt j Hj0).
  rewrite less_at_kk by (done || lia). destruct (Z.ltb_spec (kk h j) (kk h (par j))); cbn [negb].
  - apply IH; [by apply swap_P|by rewrite length_swap|lia|lia|]. split; intros x Hx.
    + intros Hne. pose proof (par_lt x ltac:(lia)). rewrite !kk_swap by lia.
      destruct (Nat.eqb_spec (par x) (par j)) as [Ep|Ep].
      * destruct (Nat.eqb_spec x (par j)); [lia|]. destruct (Nat.eqb_spec x j); [lia|].
        assert (kk h (par j) <= kk h x) by (rewrite <- Ep; by apply H1). lia.
      * destruct (Nat.eqb_spec (par x) j) as [Ej|Ej].
        -- destruct (Nat.eqb_spec x (par j)); [lia|]. destruct (Nat.eqb_spec x j); [lia|]. by apply H2.
        -- destruct (Nat.eqb_spec x (par j)); [done|]. destruct (Nat.eqb_spec x j) as [->|]; [done|]. by apply H1.
    + intros Hp Hi0. pose proof (par_lt x ltac:(lia)). pose proof (par_lt (par j) Hi0).
      assert (kk h (par (par j)) <= kk h (par j)) by (apply H1; lia). rewrite !kk_swap by lia.
      destruct (Nat.eqb_spec (par (par j)) (par j)); [lia|]. destruct (Nat.eqb_spec (par (par j)) j); [lia|].
      destruct (Nat.eqb_spec x (par j)); [lia|]. destruct (Nat.eqb_spec x j) as [->|Hxj]; [lia|].
      assert (kk h (par x) <= kk h x) by (by apply H1). rewrite Hp in *. lia.
  - intros x Hx _. destruct (decide (x = j)) as [->|]; [done|]. by apply H1.
Qed.

(** The first element is the least. *)
Lemma heap_first h n x : heap_from 0 h n -> (x < n)%nat -> kk h 0 <= kk h x.
Proof.
  intros Hh. induction (lt_wf x) as [x _ IH]. intros Hx. destruct x as [|x]; [lia|]. pose proof (par_lt (S x)).
  assert (kk h (par (S x)) <= kk h (S x)) by (apply Hh; lia). specialize (IH (par (S x))). lia.
Qed.
Lemma is_heap_min h a b : is_heap h -> h !! 0%nat = Some a -> b ∈ h -> key a <= key b.
Proof.
  intros Hh Ha [x Hx]%list_elem_of_lookup. rewrite <- (kk_lookup _ _ _ Ha), <- (kk_lookup _ _ _ Hx).
  eapply heap_first; [exact Hh|]. by eapply lookup_lt_Some.
Qed.

Lemma kk_take n h x : (x < n)%nat -> kk (take n h) x = kk h x.
Proof. intros. unfold kk. by rewrite lookup_take_lt. Qed.
Lemma heap_take n h : heap_from 0 h n -> (n <= length h)%nat -> is_heap (take n h).
Proof.
  intros Hh Hn x Hx _. rewrite length_take in Hx. pose proof (par_lt x). rewrite !kk_take by lia. apply Hh; lia.
Qed.

Theorem Init_ok h : Forall P h -> is_heap (Init less h).
Proof.
  intros HP. unfold Init, is_heap. set (m := (length h / 2)%nat).
  assert (forall k, (k <= m)%nat ->
    let r := foldr (fun i h => down less (length h) h i) h (seq (m - k) k) in r ≡ₚ h /\ heap_from (m - k) r (length h)) as H.
  { induction k as [|k IH]; intros Hk.
    - split; [done|]. cbn [foldr seq]. intros x Hx Hm. pose proof (par_spec x). pose proof (Nat.div_mod_eq (length h) 2).
      pose proof (Nat.mod_upper_bound (length h) 2). lia.
    - replace (seq (m - S k) (S k)) with ((m - S k)%nat :: seq (m - k) k) by (cbn [seq]; do 2 f_equal; lia).
      destruct (IH ltac:(lia)) as [Hp Hh]. cbn [foldr]. set (r := foldr _ _ _) in *. unfold down.
      pose proof (Permutation_length Hp) as Hlen. split; [by rewrite down_perm|]. rewrite Hlen. apply down_ok; [by rewrite Hp|lia|lia|lia|]. split.
      + intros x Hx Hs Hne. apply Hh; lia.
      + intros x Hx Hpx Hi Hs. pose proof (par_lt (m - S k)). lia. }
  destruct (H m ltac:(lia)) as [Hp Hh]. rewrite Nat.sub_diag in Hp, Hh. by rewrite (Permutation_length Hp).
Qed.

Theorem Push_ok h x : Forall P (x :: h) -> is_heap h -> is_heap (Push less h x).
Proof.
  intros HP Hh. unfold is_heap. rewrite (Permutation_length (Push_perm less h x)). cbn [length]. unfold Push, up.
  assert (forall y, (y < length h)%nat -> kk (h ++ [x]) y = kk h y) as Hk by (intros y Hy; unfold kk; by rewrite lookup_app_l).
  apply up_ok; [by rewrite Permutation_app_comm|rewrite length_app; cbn; lia|lia|lia|]. split.
  - intros y Hy Hne. pose proof (par_lt y). rewrite !Hk by lia. apply Hh; lia.
  - intros y Hy Hp. pose proof (par_lt y). lia.
Qed.

Lemma swap_last_kk h i x : (i < length h)%nat -> (x < length h - 1)%nat ->
  kk (swap h i (length h - 1)) x = if (x =? i)%nat then kk h (length h - 1) else kk h x.
Proof. intros Hi Hx. rewrite kk_swap by lia. destruct (Nat.eqb_spec x (length h - 1)); [lia|done]. Qed.

Lemma swap_last_lookup h i : (i < length h)%nat -> swap h i (length h - 1) !! (length h - 1)%nat = h !! i.
Proof.
  intros Hi. unfold swap. destruct (lookup_lt_is_Some_2 h i Hi) as [a Ea]. destruct (lookup_lt_is_Some_2 h (length h - 1)) as [b Eb]; [lia|].
  rewrite Ea, Eb. destruct (decide (i = (length h - 1)%nat)) as [E|E].
  - rewrite E at 1. rewrite list_lookup_insert_eq by (rewrite length_insert; lia). congruence.
  - rewrite list_lookup_insert_ne by done. by rewrite list_lookup_insert_eq by lia.
Qed.

(** Pop takes the first element. *)
Theorem Pop_ok h a : Forall P h -> is_heap h -> h !! 0%nat = Some a ->
  exists h', Pop less h = Some (a, h') /\ is_heap h' /\ h ≡ₚ a :: h' /\ Forall (fun b => key a <= key b) h'.
Proof.
  intros HP Hh Ha. pose proof (lookup_lt_Some _ _ _ Ha) as Hl.
  destruct (Pop_nonempty less h) as (x & h' & E); [by destruct h|]. pose proof (Pop_perm less h x h' E) as Hperm.
  assert (x = a /\ is_heap h') as [-> Hh'].
  { unfold Pop in E. set (n := (length h - 1)%nat) in *. destruct (list.last _) as [y|] eqn:El; [|done]. injection E as -> <-. split.
    - rewrite last_lookup, length_down, length_swap in El. replace (Nat.pred (length h)) with n in El by lia.
      destruct (decide (n = 0)%nat) as [E0|E0].
      + unfold down in El. rewrite E0 in El. cbn [down_ fst] in El. unfold swap in El. rewrite Ha in El.
        rewrite list_lookup_insert_eq in El by (rewrite length_insert; lia). congruence.
      + unfold down in El. rewrite down_beyond in El by lia. unfold n in El. rewrite swap_last_lookup in El by lia. congruence.
    - apply heap_take; [|rewrite length_down, length_swap; lia]. unfold down.
      apply down_ok; [by apply swap_P|rewrite length_swap; lia|lia|lia|]. split; [|lia].
      intros y Hy _ Hne. pose proof (par_lt y). unfold n. rewrite !swap_last_kk by lia.
      destruct (Nat.eqb_spec (par y) 0); [done|]. destruct (Nat.eqb_spec y 0); [lia|]. apply Hh; lia. }
  exists h'. split_and!; try done. apply list.Forall_forall. intros b Hb. eapply is_heap_min; [exact Hh|done|]. rewrite Hperm. by right.
Qed.

(** The order is restored around a place. *)
Lemma fix_ok h n i : Forall P h -> (n <= length h)%nat -> (i < n)%nat ->
  (forall x, (0 < x < n)%nat -> x <> i -> par x <> i -> kk h (par x) <= kk h x) ->
  (forall x, (0 < x < n)%nat -> par x = i -> (0 < i)%nat -> kk h (par i) <= kk h x) ->
  heap_from 0 (fix_at less n h i) n.
Proof.
  intros HP Hn Hi H1 H2. unfold fix_at. destruct (decide ((0 < i)%nat /\ kk h i < kk h (par i))) as [[H0 Hlt]|Hge].
  - assert (down_ less n n h i = (h, i)) as E.
    { destruct n as [|n]; [lia|]. cbn [down_]. destruct (Nat.leb_spec (S n) (2 * i + 1)); [done|].
      pose proof (least_child_range less (S n) h i ltac:(lia)) as [Hj Hj']. rewrite less_at_kk by (done || lia).
      assert (par (least_child less (S n) h i) = i) as Hp by (pose proof (par_spec (least_child less (S n) h i)); lia).
      pose proof (H2 (least_child less (S n) h i) ltac:(lia) Hp H0). replace (_ <? _) with false by lia. done. }
    unfold moved, down. rewrite E. cbn [fst snd]. rewrite Nat.ltb_irrefl. unfold up. apply up_ok; [done..|lia|]. split; [|done].
    intros x Hx Hne. destruct (decide (par x = i)) as [Hp|Hp]; [|by apply H1]. pose proof (H2 x Hx Hp H0). rewrite Hp. lia.
  - assert (heap_from 0 (down less n h i) n) as Hd.
    { apply down_ok; [done|done|lia|lia|]. split; [|auto]. intros x Hx _ Hp.
      destruct (decide (x = i)) as [->|Hne]; [|by apply H1]. destruct (Z.le_gt_cases (kk h (par i)) (kk h i)); [done|]. lia. }
    destruct (moved less n h i); [done|]. unfold up. apply up_ok; [unfold down; by rewrite down_perm|by rewrite length_down|done|lia|].
    split; [by intros; apply Hd; lia|]. intros x Hx Hp H0. pose proof (par_lt i H0). etrans; [apply (Hd i); lia|]. pose proof (Hd x Hx) as Hdx. rewrite Hp in Hdx. apply Hdx. lia.
Qed.

Theorem Remove_ok h i a : Forall P h -> is_heap h -> h !! i = Some a -> is_heap (Remove less h i) /\ h ≡ₚ a :: Remove less h i.
Proof.
  intros HP Hh Ha. pose proof (lookup_lt_Some _ _ _ Ha) as Hi. unfold Remove. set (n := (length h - 1)%nat).
  destruct (Nat.eqb_spec n i) as [E|E].
  - split; [apply heap_take; [intros x Hx _; apply Hh; lia|lia]|]. etrans; [|symmetry; apply Permutation_cons_append].
    assert (list.last h = Some a) as Hl by (rewrite last_lookup; replace (Nat.pred (length h)) with i by lia; done).
    rewrite (take_last h a Hl) at 1. done.
  - set (g := fix_at less n (swap h i n) i). assert (g ≡ₚ h) as Hg by (unfold g; by rewrite fix_perm, swap_perm).
    split.
    + apply heap_take; [|rewrite Hg; lia]. unfold g. apply fix_ok; [by apply swap_P|rewrite length_swap; lia|lia|..].
      * intros x Hx Hne Hp. pose proof (par_lt x). unfold n. rewrite !swap_last_kk by lia.
        destruct (Nat.eqb_spec (par x) i); [done|]. destruct (Nat.eqb_spec x i); [done|]. apply Hh; lia.
      * intros x Hx Hp H0. pose proof (par_lt x). pose proof (par_lt i H0). unfold n. rewrite !swap_last_kk by lia.
        destruct (Nat.eqb_spec (par i) i); [lia|]. destruct (Nat.eqb_spec x i); [lia|].
        etrans; [apply (Hh i); lia|]. rewrite <- Hp. apply Hh; lia.
    + assert (list.last g = Some a) as Hl.
      { rewrite last_lookup. replace (Nat.pred (length g)) with n by (rewrite Hg; lia). unfold g, fix_at, down, up.
        assert ((down_ less n n (swap h i n) i).1 !! n = Some a) as Hd.
        { rewrite down_beyond by lia. unfold n. by rewrite swap_last_lookup. }
        destruct (moved _ _ _ _); [done|]. by rewrite up_beyond by lia. }
      rewrite <- Hg at 1. apply take_last in Hl. rewrite Hl at 1. replace (length g - 1)%nat with n by (rewrite Hg; lia).
      by rewrite Permutation_app_comm.
Qed.
End Order.
