(* ===== verification/TxTypes.v ===== *)
(** Transactions: core/types/transaction.go.

    The kinds of transactions, the transaction record, and the order in which a
    miner takes transactions from the pool. *)

From S2P Require Import Prelude BigMath GoHeap.
Import Big Common.

Local Open Scope Z_scope.

Definition NORMAL_TX : Z := 1.
Definition PRIVACY_TX : Z := 6.
Definition POS_TX : Z := 7.
Definition IsNormalTransaction (txType : Z) : bool :=
  (txType =? NORMAL_TX) || (txType =? 0) || (txType =? 2).
Definition IsPosTransaction (txType : Z) : bool := txType =? POS_TX.
Definition IsPrivacyTransaction (txType : Z) : bool := txType =? PRIVACY_TX.

Module Tx.
(** txdata. *)
Record Transaction := mkTx {
  Txtype : Z;
  Nonce : Z;
  GasPrice : Z;
  Gas : Z;
  To : option Address;
  Value : Z;
  Data : list byte;
  sigV : Z;
  sigR : Z;
  sigS : Z;
}.

Definition IsValidTransactionType (txType : Z) : bool :=
  (txType =? NORMAL_TX) || (txType =? PRIVACY_TX) || (txType =? POS_TX).

Definition Cost (tx : Transaction) : Z := GasPrice tx * Gas tx + Value tx.

(** TxDifference: the transactions of [a] with no hash of [b]. *)
Definition TxDifference (hash : Transaction -> Hash) (a b : list Transaction) : list Transaction :=
  let remove : gset Hash := list_to_set (hash <$> b) in
  List.filter (fun tx => bool_decide (hash tx ∉ remove)) a.

(** TxByPrice.Less. *)
Definition less_price (a b : Transaction) : bool :=
  if negb (Txtype b =? POS_TX) && (Txtype a =? POS_TX) then true else GasPrice a >? GasPrice b.
End Tx.
