(* ===== verification/TxList.v ===== *)
(** The ordered transaction lists of the pool: core/tx_list.go.

    A slice access or a heap operation that Go would panic on gives [None].  The
    order in which Go iterates over a map is a parameter [range]. *)

From S2P Require Import Prelude BigMath GoHeap TxTypes.
From stdpp Require Import sorting.
Import Big Common.

Local Open Scope Z_scope.

Import Tx.

(** An order by a number. *)
Definition by_key {A} (key : A -> Z) (a b : A) : Prop := key a <= key b.
#[export] Instance by_key_dec {A} (key : A -> Z) : RelDecision (by_key key).
Proof. intros a b. unfold by_key. apply _. Defined.
(** sort.Sort. *)
Definition sort_by {A} (key : A -> Z) (l : list A) : list A := merge_sort (by_key key) l.

Module TxList.
Abbreviation id64 := (fun n : Z => n).

(** * nonceHeap and txSortedMap *)

Definition less_nonce (a b : Z) : bool := a <? b.

Record txSortedMap := mkSorted {
  items : gmap Z Transaction;
  index : list Z;
  cache : option (list Transaction);
}.

Definition newTxSortedMap : txSortedMap := mkSorted ∅ [] None.

Definition Get (m : txSortedMap) (nonce : Z) : option Transaction := items m !! nonce.

Definition Put (m : txSortedMap) (tx : Transaction) : txSortedMap :=
  let nonce := Nonce tx in
  let index := match items m !! nonce with
               | None => Heap.Push less_nonce (index m) nonce
               | Some _ => index m
               end in
  mkSorted (<[nonce := tx]> (items m)) index None.

(** [l[low:]] and [l[:high]]. *)
Definition slice_from {A} (l : list A) (low : nat) : option (list A) :=
  if (low <=? length l)%nat then Some (drop low l) else None.
Definition slice_to {A} (l : list A) (high : Z) : option (list A) :=
  if (0 <=? high) && (high <=? Z.of_nat (length l)) then Some (take (Z.to_nat high) l) else None.

Fixpoint forward_loop (fuel : nat) (threshold : Z) (its : gmap Z Transaction) (index : list Z) (removed : list Transaction) :
    option (list Transaction * gmap Z Transaction * list Z) :=
  match fuel, index with
  | S fuel, n0 :: _ =>
      if n0 <? threshold then
        '(nonce, index) ← Heap.Pop less_nonce index;
        tx ← its !! nonce;
        forward_loop fuel threshold (delete nonce its) index (removed ++ [tx])
      else Some (removed, its, index)
  | _, _ => Some (removed, its, index)
  end.
Definition Forward (m : txSortedMap) (threshold : Z) : option (list Transaction * txSortedMap) :=
  '(removed, its, index) ← forward_loop (length (index m)) threshold (items m) (index m) [];
  cache ← match cache m with
          | Some c => c ← slice_from c (length removed); Some (Some c)
          | None => Some None
          end;
  Some (removed, mkSorted its index cache).

(** The number of items is the length of the index: one turn of the loop each. *)
Fixpoint cap_loop (fuel : nat) (threshold size : Z) (its : gmap Z Transaction) (index : list Z) (drops : list Transaction) :
    option (list Transaction * gmap Z Transaction) :=
  match fuel with
  | S fuel =>
      if size >? threshold then
        nonce ← (if 0 <=? size - 1 then index !! Z.to_nat (size - 1) else None);
        tx ← its !! nonce;
        cap_loop fuel threshold (size - 1) (delete nonce its) index (drops ++ [tx])
      else Some (drops, its)
  | O => if size >? threshold then None else Some (drops, its)
  end.
Definition Cap (m : txSortedMap) (threshold : Z) : option (list Transaction * txSortedMap) :=
  let n := Z.of_nat (size (items m)) in
  if n <=? threshold then Some ([], m)
  else
    let sorted := sort_by id64 (index m) in
    '(drops, its) ← cap_loop (size (items m)) threshold n (items m) sorted [];
    index ← slice_to sorted threshold;
    cache ← match cache m with
            | Some c => c ← slice_to c (Z.of_nat (length c) - Z.of_nat (length drops)); Some (Some c)
            | None => Some None
            end;
    Some (drops, mkSorted its (Heap.Init less_nonce index) cache).

(** The first place of a nonce in the index. *)
Definition Remove (m : txSortedMap) (nonce : Z) : bool * txSortedMap :=
  match items m !! nonce with
  | None => (false, m)
  | Some _ =>
      let index := match list_find (fun n => n = nonce) (index m) with
                   | Some (i, _) => Heap.Remove less_nonce (index m) i
                   | None => index m
                   end in
      (true, mkSorted (delete nonce (items m)) index None)
  end.

Fixpoint ready_loop (fuel : nat) (next : Z) (its : gmap Z Transaction) (index : list Z) (ready : list Transaction) :
    option (list Transaction * gmap Z Transaction * list Z) :=
  match fuel, index with
  | S fuel, n0 :: _ =>
      if n0 =? next then
        tx ← its !! next;
        '(_, index) ← Heap.Pop less_nonce index;
        ready_loop fuel ((next + 1) mod 2 ^ 64) (delete next its) index (ready ++ [tx])
      else Some (ready, its, index)
  | _, _ => Some (ready, its, index)
  end.
Definition Ready (m : txSortedMap) (start : Z) : option (list Transaction * txSortedMap) :=
  match index m with
  | [] => Some ([], m)
  | n0 :: _ =>
      if n0 >? start then Some ([], m)
      else
        '(ready, its, index) ← ready_loop (length (index m)) n0 (items m) (index m) [];
        Some (ready, mkSorted its index None)
  end.

Definition Len (m : txSortedMap) : Z := Z.of_nat (size (items m)).

Section Range.
(** The order of an iteration over the items, with its nonces. *)
Context (range : gmap Z Transaction -> list (Z * Transaction)).

(** The predicate may panic. *)
Fixpoint filter_loop (f : Transaction -> option bool) (l : list (Z * Transaction)) (its : gmap Z Transaction) (removed : list Transaction) :
    option (list Transaction * gmap Z Transaction) :=
  match l with
  | [] => Some (removed, its)
  | (nonce, tx) :: l =>
      b ← f tx;
      if b : bool then filter_loop f l (delete nonce its) (removed ++ [tx]) else filter_loop f l its removed
  end.
Definition Filter (m : txSortedMap) (f : Transaction -> option bool) : option (list Transaction * txSortedMap) :=
  '(removed, its) ← filter_loop f (range (items m)) (items m) [];
  if (0 <? length removed)%nat then
    Some (removed, mkSorted its (Heap.Init less_nonce ((range its).*1)) None)
  else Some (removed, m).

Definition Flatten (m : txSortedMap) : list Transaction * txSortedMap :=
  match cache m with
  | Some c => (c, m)
  | None =>
      let c := sort_by Nonce ((range (items m)).*2) in
      (c, mkSorted (items m) (index m) (Some c))
  end.

(** * txList *)

Record txList := mkList {
  strict : bool;
  txs : txSortedMap;
  costcap : Z;
  gascap : Z;
}.
Definition newTxList (strict : bool) : txList := mkList strict newTxSortedMap 0 0.
Definition set_txs (l : txList) (m : txSortedMap) : txList := mkList (strict l) m (costcap l) (gascap l).

Definition Overlaps (l : txList) (tx : Transaction) : bool :=
  match Get (txs l) (Nonce tx) with Some _ => true | None => false end.

(** int64 arithmetic wraps around. *)
Definition int64 (z : Z) : Z := (z + 2 ^ 63) mod 2 ^ 64 - 2 ^ 63.

(** The price that a replacement has to exceed. *)
Definition bumped (old : Transaction) (priceBump : Z) : Z := GasPrice old * int64 (100 + int64 priceBump) / 100.

Definition Add (l : txList) (tx : Transaction) (priceBump : Z) : bool * option Transaction * txList :=
  let old := Get (txs l) (Nonce tx) in
  let refused := match old with Some o => bumped o priceBump >=? GasPrice tx | None => false end in
  if refused then (false, None, l)
  else
    (true, old, mkList (strict l) (Put (txs l) tx)
                  (if costcap l <? Cost tx then Cost tx else costcap l)
                  (if gascap l <? Gas tx then Gas tx else gascap l)).

(** The transactions after the first that is removed, in strict mode. *)
Definition lowest (removed : list Transaction) : Z :=
  foldl (fun low tx => if low >? Nonce tx then Nonce tx else low) (2 ^ 64 - 1) removed.
Definition dropAfter (l : txList) (removed : list Transaction) : option (list Transaction * txList) :=
  if strict l && (0 <? length removed)%nat then
    '(invalids, m) ← Filter (txs l) (fun tx => Some (Nonce tx >? lowest removed));
    Some (invalids, set_txs l m)
  else Some ([], l).

Definition tooCostly (costLimit gasLimit : Z) (tx : Transaction) : bool :=
  (IsNormalTransaction (Txtype tx) || IsPosTransaction (Txtype tx)) && ((Cost tx >? costLimit) || (Gas tx >? gasLimit)).
Definition ListFilter (l : txList) (costLimit gasLimit : Z) : option (list Transaction * list Transaction * txList) :=
  if (costcap l <=? costLimit) && (gascap l <=? gasLimit) then Some ([], [], l)
  else
    '(removed, m) ← Filter (txs l) (fun tx => Some (tooCostly costLimit gasLimit tx));
    '(invalids, l) ← dropAfter (mkList (strict l) m costLimit gasLimit) removed;
    Some (removed, invalids, l).

(** InvalidPrivacyTx, InvalidPosRBTx and InvalidPosELTx remove what [f] finds
    invalid and, in strict mode, what comes after it. *)
Definition dropInvalid (l : txList) (f : Transaction -> option bool) : option (list Transaction * txList) :=
  '(removed, m) ← Filter (txs l) f;
  '(invalids, l) ← dropAfter (set_txs l m) removed;
  Some (removed ++ invalids, l).

(** [Sender] recovers the sender from the signature; the checks of the contents
    against the state are those of ValidPrivacyTx and of the native contracts. *)
Definition InvalidPrivacyTx (Sender : Transaction -> option Address) (valid : Address -> Transaction -> bool) (l : txList) :=
  dropInvalid l (fun tx =>
    if negb (IsPrivacyTransaction (Txtype tx)) then Some false
    else match Sender tx with
         | None => Some true
         | Some from => Some (negb (valid from tx))
         end).
(** For the contract at [contract]; a missing recipient is dereferenced. *)
Definition InvalidPosTx (Sender : Transaction -> option Address) (contract : Address) (valid : Address -> Transaction -> bool) (l : txList) :=
  dropInvalid l (fun tx =>
    if negb (IsPosTransaction (Txtype tx)) then Some false
    else
      to ← To tx;
      if negb (bool_decide (to = contract)) then Some false
      else match Sender tx with
           | None => Some true
           | Some from => Some (negb (valid from tx))
           end).

Definition ListForward (l : txList) (threshold : Z) : option (list Transaction * txList) :=
  '(removed, m) ← Forward (txs l) threshold; Some (removed, set_txs l m).
Definition ListCap (l : txList) (threshold : Z) : option (list Transaction * txList) :=
  '(drops, m) ← Cap (txs l) threshold; Some (drops, set_txs l m).
Definition ListRemove (l : txList) (tx : Transaction) : option (bool * list Transaction * txList) :=
  let nonce := Nonce tx in
  let (removed, m) := Remove (txs l) nonce in
  if negb removed then Some (false, [], set_txs l m)
  else if strict l then
    '(invalids, m) ← Filter m (fun tx => Some (Nonce tx >? nonce));
    Some (true, invalids, set_txs l m)
  else Some (true, [], set_txs l m).
Definition ListReady (l : txList) (start : Z) : option (list Transaction * txList) :=
  '(ready, m) ← Ready (txs l) start; Some (ready, set_txs l m).
Definition ListLen (l : txList) : Z := Len (txs l).
Definition Empty (l : txList) : bool := ListLen l =? 0.
Definition ListFlatten (l : txList) : list Transaction * txList :=
  let (c, m) := Flatten (txs l) in (c, set_txs l m).
End Range.
End TxList.
