(* ===== verification/TxListSpec.v ===== *)
(** The sorted map of transactions as a list in the order of the nonces.

    [represents m l]: the map with its heap and cache stands for the list [l],
    which is strictly sorted by nonce.  Every operation of txSortedMap is an
    operation of that list, and none panics. *)

From S2P Require Import Prelude BigMath GoHeap TxTypes TxList.
From stdpp Require Import sorting.
Import Big Common Tx TxList.

Local Open Scope Z_scope.

(** * Lists sorted by a key *)

Section Sorted.
Context {A : Type} (key : A -> Z).

Definition ordered (l : list A) : Prop := StronglySorted (fun a b => key a < key b) l.

Lemma ordered_cons a l : ordered (a :: l) <-> ordered l /\ Forall (fun b => key a < key b) l.
Proof. split; [by apply StronglySorted_inv|intros []; by constructor]. Qed.
Lemma ordered_nil : ordered [].
Proof. constructor. Qed.

Lemma ordered_app l1 l2 : ordered (l1 ++ l2) <-> ordered l1 /\ ordered l2 /\ forall a b, a ∈ l1 -> b ∈ l2 -> key a < key b.
Proof.
  induction l1 as [|x l1 IH]; cbn [app].
  - split; [intros H; split_and!; [constructor|done|by intros ?? ?%elem_of_nil]|by intros (_ & ? & _)].
  - rewrite !ordered_cons, IH, Forall_app, !list.Forall_forall. split.
    + intros [(H1 & H2 & H3) [H4 H5]]. split_and!; try done. intros a b [->|Ha]%elem_of_cons Hb; [by apply H5|by apply H3].
    + intros ([H1 H4] & H2 & H3). split_and!; try done; intros; apply H3; try done; [by right|by left].
Qed.

#[export] Instance lfilter_perm (f : A -> bool) : Proper (Permutation ==> Permutation) (List.filter f).
Proof.
  intros l k H. induction H as [|a l k Hp IH|a b l|l1 l2 l3 H1 IH1 H2 IH2]; cbn [List.filter]; [done| | |by etrans].
  - destruct (f a); by rewrite ?IH.
  - destruct (f a), (f b); try done. apply Permutation_swap.
Qed.
Lemma elem_of_lfilter (f : A -> bool) l a : a ∈ List.filter f l <-> a ∈ l /\ f a = true.
Proof. by rewrite list_elem_of_In, filter_In, <- list_elem_of_In. Qed.

(** There is one order. *)
Lemma ordered_unique l1 l2 : ordered l1 -> ordered l2 -> l1 ≡ₚ l2 -> l1 = l2.
Proof.
  revert l2. induction l1 as [|a l1 IH]; intros l2 H1 H2 Hp; [by apply Permutation_nil in Hp|].
  destruct l2 as [|b l2]; [by symmetry in Hp; apply Permutation_nil in Hp|].
  apply ordered_cons in H1 as [H1 F1], H2 as [H2 F2]. rewrite list.Forall_forall in F1, F2.
  assert (a = b) as ->.
  { assert (a ∈ b :: l2) as [?|Ha]%elem_of_cons by (rewrite <- Hp; by left); [done|].
    assert (b ∈ a :: l1) as [?|Hb]%elem_of_cons by (rewrite Hp; by left); [done|].
    specialize (F1 b Hb). specialize (F2 a Ha). lia. }
  f_equal. apply IH; [done..|]. by apply Permutation_cons_inv in Hp.
Qed.

Lemma ordered_filter f l : ordered l -> ordered (List.filter f l).
Proof.
  intros Hl. induction l as [|a l IH]; [done|]. apply ordered_cons in Hl as [Hl F]. cbn [List.filter]. specialize (IH Hl).
  destruct (f a); [|done]. apply ordered_cons. split; [done|]. rewrite list.Forall_forall in *. intros b Hb. apply F.
  by apply elem_of_lfilter in Hb as [? _].
Qed.
Lemma ordered_NoDup l : ordered l -> NoDup (key <$> l).
Proof.
  induction l as [|a l IH]; [constructor|]. intros [Hl F]%ordered_cons. cbn. apply list.NoDup_cons. split; [|by apply IH].
  intros (b & E & Hb)%list_elem_of_fmap. rewrite list.Forall_forall in F. specialize (F b Hb). lia.
Qed.
Lemma ordered_take n l : ordered l -> ordered (take n l).
Proof. intros Hl. rewrite <- (take_drop n l) in Hl. by apply ordered_app in Hl as [? _]. Qed.

#[local] Instance by_key_total : Total (by_key key).
Proof. intros a b. unfold by_key. lia. Qed.
#[local] Instance by_key_trans : Transitive (by_key key).
Proof. intros a b c. unfold by_key. lia. Qed.

Lemma sort_by_perm l : sort_by key l ≡ₚ l.
Proof. apply merge_sort_Permutation. Qed.
(** sort.Sort orders elements with different keys. *)
Lemma sort_by_ordered l : NoDup (key <$> l) -> ordered (sort_by key l).
Proof.
  intros Hn. assert (StronglySorted (by_key key) (sort_by key l)) as Hs by (apply StronglySorted_merge_sort; apply _).
  assert (NoDup (key <$> sort_by key l)) as Hn' by (by rewrite sort_by_perm). revert Hs Hn'.
  generalize (sort_by key l). clear. intros l Hs Hn. induction Hs as [|a l Hs IH F]; [constructor|].
  cbn in Hn. apply list.NoDup_cons in Hn as [Ha Hn]. apply ordered_cons. split; [by apply IH|].
  rewrite list.Forall_forall in *. intros b Hb. specialize (F b Hb). unfold by_key in F.
  assert (key a <> key b) by (intros E; apply Ha; rewrite E; by apply list_elem_of_fmap_2). lia.
Qed.
Lemma sort_by_unique l s : ordered s -> s ≡ₚ l -> sort_by key l = s.
Proof.
  intros Hs Hp. apply ordered_unique; [|done|by rewrite sort_by_perm].
  apply sort_by_ordered. rewrite <- Hp. by apply ordered_NoDup.
Qed.
End Sorted.

(** * txSortedMap *)

(** The items and the index stand for the list. *)
Record core (its : gmap Z Transaction) (idx : list Z) (l : list Transaction) : Prop := {
  co_ordered : ordered Nonce l;
  co_items : forall n tx, its !! n = Some tx <-> tx ∈ l /\ Nonce tx = n;
  co_heap : is_heap id64 idx;
  co_index : idx ≡ₚ Nonce <$> l;
}.
Record represents (m : txSortedMap) (l : list Transaction) : Prop := {
  rp_core : core (items m) (index m) l;
  rp_cache : forall c, cache m = Some c -> c = l;
  rp_range : Forall (fun tx => 0 <= Nonce tx < 2 ^ 64) l;
}.

Lemma less_nonce_key a b : True -> True -> less_nonce a b = (id64 a <? id64 b).
Proof. done. Qed.
Lemma all_True (h : list Z) : Forall (fun _ => True) h.
Proof. by apply Forall_true. Qed.

Lemma same_nonce l tx tx' : ordered Nonce l -> tx ∈ l -> tx' ∈ l -> Nonce tx = Nonce tx' -> tx = tx'.
Proof.
  intros Hl [i Hi]%list_elem_of_lookup [j Hj]%list_elem_of_lookup E. apply ordered_NoDup in Hl.
  assert (i = j) as -> by (eapply NoDup_lookup; [exact Hl|by rewrite list_lookup_fmap, Hi|rewrite list_lookup_fmap, Hj; cbn; by f_equal]).
  congruence.
Qed.

Lemma core_empty : core ∅ [] [].
Proof. split; [constructor| |by intros x Hx; cbn in Hx; lia|done]. intros n tx. split; [done|]. by intros [?%elem_of_nil _]. Qed.
Lemma core_nil its idx : core its idx [] -> idx = [] /\ its = ∅.
Proof.
  intros [_ Hi _ Hx]. split; [by apply Permutation_nil_r|]. apply map_empty. intros n. apply eq_None_not_Some. intros [tx H].
  apply Hi in H as [?%elem_of_nil _]. done.
Qed.

Lemma core_delete (its : gmap Z Transaction) l tx l' : (forall n tx, its !! n = Some tx <-> tx ∈ l /\ Nonce tx = n) -> ordered Nonce l -> l ≡ₚ tx :: l' ->
  forall n tx0, delete (Nonce tx) its !! n = Some tx0 <-> tx0 ∈ l' /\ Nonce tx0 = n.
Proof.
  intros Hi Ho Hp n tx0. rewrite lookup_delete_Some, (Hi n tx0). pose proof (ordered_NoDup _ _ Ho) as Hn.
  rewrite Hp in Hn. cbn in Hn. apply list.NoDup_cons in Hn as [Hn _]. setoid_rewrite Hp. rewrite elem_of_cons. split.
  - intros [Hne [[->|?] <-]]; [done|]. done.
  - intros [H0 <-]. split; [|by split; [right|]]. intros E. apply Hn. rewrite E. by apply list_elem_of_fmap_2.
Qed.

(** The first transaction is first in the heap. *)
Lemma core_first its idx tx l : core its idx (tx :: l) ->
  (exists rest, idx = Nonce tx :: rest) /\ its !! Nonce tx = Some tx /\
  exists idx', Heap.Pop less_nonce idx = Some (Nonce tx, idx') /\ core (delete (Nonce tx) its) idx' l.
Proof.
  intros [Ho Hi Hh Hx]. pose proof Ho as [Ho' F]%ordered_cons. rewrite list.Forall_forall in F.
  destruct idx as [|n0 rest]; [by apply Permutation_nil_l in Hx|].
  assert (n0 = Nonce tx) as ->.
  { assert (n0 ∈ Nonce <$> tx :: l) as (t & -> & Ht)%list_elem_of_fmap by (rewrite <- Hx; by left).
    assert (Nonce tx ∈ Nonce t :: rest) as Hin by (rewrite Hx; by left).
    pose proof (is_heap_min id64 _ (Nonce t) _ Hh eq_refl Hin). apply elem_of_cons in Ht as [->|Ht]; [done|].
    specialize (F t Ht). cbn in *. lia. }
  split; [eauto|]. split; [apply Hi; by split; [left|]|].
  destruct (Pop_ok less_nonce id64 _ less_nonce_key _ (Nonce tx) (all_True _) Hh eq_refl) as (idx' & E & Hh' & Hp & _).
  exists idx'. split; [done|]. split; [done| |done|].
  - by apply (core_delete its (tx :: l) tx l).
  - rewrite Hp in Hx. cbn in Hx. by apply Permutation_cons_inv in Hx.
Qed.

Lemma core_size its idx l : core its idx l -> size its = length l.
Proof.
  intros [Ho Hi _ _]. rewrite <- (length_fmap Nonce l). rewrite <- size_dom.
  assert (dom its = list_to_set (Nonce <$> l)) as ->; [|apply size_list_to_set, ordered_NoDup, Ho].
  apply set_eq. intros n. rewrite elem_of_dom, elem_of_list_to_set, list_elem_of_fmap. split.
  - intros [tx [H1 <-]%Hi]. eauto.
  - intros (tx & -> & H1). exists tx. by apply Hi.
Qed.

Lemma core_entries its idx l : core its idx l -> map_to_list its ≡ₚ (fun tx => (Nonce tx, tx)) <$> l.
Proof.
  intros [Ho Hi _ _]. apply NoDup_Permutation; [apply NoDup_map_to_list| |].
  - apply (list.NoDup_fmap_1 fst). rewrite <- list_fmap_compose. by apply ordered_NoDup in Ho.
  - intros [n tx]. rewrite elem_of_map_to_list, (Hi n tx), list_elem_of_fmap. split; [intros [? <-]; eauto|].
    by intros (t & [= -> ->] & ?).
Qed.

(** ** Put *)
Definition put_list (tx : Transaction) (l : list Transaction) : list Transaction :=
  sort_by Nonce (tx :: List.filter (fun t => negb (Nonce t =? Nonce tx)) l).

Lemma put_list_perm tx l : put_list tx l ≡ₚ tx :: List.filter (fun t => negb (Nonce t =? Nonce tx)) l.
Proof. apply sort_by_perm. Qed.
Lemma put_list_ordered tx l : ordered Nonce l -> ordered Nonce (put_list tx l).
Proof.
  intros Hl. apply sort_by_ordered. cbn. apply list.NoDup_cons. split; [|by apply ordered_NoDup, ordered_filter].
  intros (t & E & Ht)%list_elem_of_fmap. apply elem_of_lfilter in Ht as [_ Ht]. lia.
Qed.
Lemma elem_of_put_list t tx l : t ∈ put_list tx l <-> t = tx \/ t ∈ l /\ Nonce t <> Nonce tx.
Proof. rewrite put_list_perm, elem_of_cons, elem_of_lfilter, negb_true_iff, Z.eqb_neq. done. Qed.

Lemma filter_other tx l : (forall t, t ∈ l -> Nonce t <> Nonce tx) -> List.filter (fun t => negb (Nonce t =? Nonce tx)) l = l.
Proof.
  intros H. induction l as [|t l IH]; [done|]. cbn [List.filter]. rewrite IH by (intros; apply H; by right).
  assert (Nonce t <> Nonce tx) by (apply H; by left). by replace (Nonce t =? Nonce tx) with false by lia.
Qed.
Lemma filter_one tx old l : ordered Nonce l -> old ∈ l -> Nonce old = Nonce tx ->
  l ≡ₚ old :: List.filter (fun t => negb (Nonce t =? Nonce tx)) l.
Proof.
  intros Ho Hin E. apply elem_of_Permutation in Hin as [k Hk].
  pose proof (ordered_NoDup _ _ Ho) as Hn. rewrite Hk in Hn. cbn in Hn. apply list.NoDup_cons in Hn as [Hn _].
  rewrite Hk. cbn [List.filter]. replace (Nonce old =? Nonce tx) with true by lia. cbn [negb]. rewrite filter_other; [done|].
  intros t Ht Ht'. apply Hn. rewrite E, <- Ht'. by apply list_elem_of_fmap_2.
Qed.

Theorem Put_ok m l tx : represents m l -> 0 <= Nonce tx < 2 ^ 64 -> represents (Put m tx) (put_list tx l).
Proof.
  intros [[Ho Hi Hh Hx] _ Hr] Hn. split; cbn [items index cache]; [|done|].
  - split; [by apply put_list_ordered| | |].
    + intros n t. rewrite elem_of_put_list. cbn [Put items]. rewrite lookup_insert_Some, (Hi n t).
      split; [intros [[<- <-]|[? [? <-]]]; auto|intros [[->|[? ?]] <-]; auto].
    + cbn [Put index]. destruct (items m !! Nonce tx); [done|]. apply (Push_ok less_nonce id64 _ less_nonce_key); [by apply Forall_true|done].
    + cbn [Put index]. rewrite put_list_perm, fmap_cons. destruct (items m !! Nonce tx) as [old|] eqn:E.
      * apply Hi in E as [E1 E2]. rewrite Hx. rewrite (filter_one tx old l Ho E1 E2) at 1. by rewrite fmap_cons, E2.
      * rewrite Push_perm, Hx, filter_other; [done|]. intros t Ht Hn'. assert (items m !! Nonce tx = Some t) by (by apply Hi). congruence.
  - rewrite list.Forall_forall in *. intros t [->|[Ht _]]%elem_of_put_list; [done|by apply Hr].
Qed.

(** ** Forward *)
Definition low (t : Z) (tx : Transaction) : bool := Nonce tx <? t.
Definition not_low (t : Z) (tx : Transaction) : bool := negb (Nonce tx <? t).

Lemma low_none t tx l : ordered Nonce (tx :: l) -> t <= Nonce tx ->
  List.filter (low t) (tx :: l) = [] /\ List.filter (not_low t) (tx :: l) = tx :: l.
Proof.
  intros Ho Ht. assert (Forall (fun t' => t <= Nonce t') (tx :: l)) as F.
  { apply ordered_cons in Ho as [_ F]. constructor; [done|]. eapply Forall_impl; [exact F|]. cbn. lia. }
  clear Ho Ht. generalize dependent (tx :: l). clear. induction l as [|x l IH]; [done|]. intros [Hx F]%Forall_cons_iff.
  destruct (IH F) as [E1 E2]. cbn [List.filter]. unfold low at 1, not_low at 1. replace (Nonce x <? t) with false by lia. cbn [negb].
  by rewrite E1, E2.
Qed.

Lemma forward_ok t l : forall fuel its idx removed, core its idx l -> (length l <= fuel)%nat ->
  exists its' idx', forward_loop fuel t its idx removed = Some (removed ++ List.filter (low t) l, its', idx') /\
    core its' idx' (List.filter (not_low t) l).
Proof.
  induction l as [|tx l IH]; intros fuel its idx removed Hc Hf.
  - destruct (core_nil _ _ Hc) as [-> ->]. exists ∅, []. cbn [List.filter]. rewrite app_nil_r. split; [by destruct fuel|done].
  - destruct fuel as [|fuel]; [cbn in Hf; lia|].
    destruct (core_first _ _ _ _ Hc) as ((rest & ->) & Hg & idx' & E & Hc'). cbn [forward_loop].
    destruct (Z.ltb_spec (Nonce tx) t) as [Hlt|Hge].
    + rewrite E. cbn [mbind option_bind]. rewrite Hg. cbn [mbind option_bind]. destruct (IH fuel _ _ (removed ++ [tx]) Hc') as (its' & idx2 & -> & H2); [cbn in Hf; lia|].
      exists its', idx2. cbn [List.filter]. unfold low at 2, not_low at 1. replace (Nonce tx <? t) with true by lia. cbn [negb].
      by rewrite <- app_assoc.
    + destruct (low_none t tx l (co_ordered _ _ _ Hc) Hge) as [-> ->]. rewrite app_nil_r. eauto.
Qed.

Lemma lfilter_split f (l : list Transaction) : (length (List.filter f l) + length (List.filter (fun t => negb (f t)) l) = length l)%nat.
Proof. induction l as [|x l IH]; [done|]. cbn [List.filter]. destruct (f x); cbn [negb length]; lia. Qed.

Lemma low_first t l : ordered Nonce l -> l = List.filter (low t) l ++ List.filter (not_low t) l.
Proof.
  induction l as [|tx l IH]; [done|]. intros Ho. destruct (Z.lt_ge_cases (Nonce tx) t) as [Hlt|Hge].
  - cbn [List.filter]. unfold low at 1, not_low at 1. replace (Nonce tx <? t) with true by lia. cbn [negb app]. f_equal.
    apply IH. by apply ordered_cons in Ho as [? _].
  - by destruct (low_none t tx l Ho Hge) as [-> ->].
Qed.

Lemma range_lfilter f l : Forall (fun tx => 0 <= Nonce tx < 2 ^ 64) l -> Forall (fun tx => 0 <= Nonce tx < 2 ^ 64) (List.filter f l).
Proof. rewrite !list.Forall_forall. intros H x [Hx _]%elem_of_lfilter. by apply H. Qed.

Theorem Forward_ok m l t : represents m l ->
  exists m', Forward m t = Some (List.filter (low t) l, m') /\ represents m' (List.filter (not_low t) l).
Proof.
  intros [Hc Hca Hr]. unfold Forward.
  destruct (forward_ok t l (length (index m)) (items m) (index m) [] Hc) as (its & idx & E & Hc').
  { rewrite (Permutation_length (co_index _ _ _ Hc)), length_fmap. done. }
  rewrite E. cbn [mbind option_bind app]. destruct (cache m) as [c|] eqn:Ec.
  - rewrite (Hca c eq_refl). unfold slice_from. rewrite (proj2 (Nat.leb_le _ _)) by (pose proof (lfilter_split (low t) l); lia).
    cbn [mbind option_bind]. eexists. split; [done|]. split; [done| |by apply range_lfilter]. intros c' [= <-].
    rewrite (low_first t l (co_ordered _ _ _ Hc)) at 2. by rewrite drop_app_length.
  - cbn [mbind option_bind]. eexists. split; [done|]. split; [done|done|by apply range_lfilter].
Qed.

(** ** Ready *)
(** The run of consecutive nonces at the front. *)
Fixpoint run_from (next : Z) (l : list Transaction) : list Transaction :=
  match l with
  | tx :: l => if Nonce tx =? next then tx :: run_from (next + 1) l else []
  | [] => []
  end.
Definition ready_list (start : Z) (l : list Transaction) : list Transaction :=
  match l with
  | tx :: _ => if Nonce tx >? start then [] else run_from (Nonce tx) l
  | [] => []
  end.

Lemma ready_ok l : forall fuel next its idx ready, core its idx l -> (length l <= fuel)%nat ->
  Forall (fun tx => next <= Nonce tx < 2 ^ 64) l -> 0 <= next ->
  exists its' idx', ready_loop fuel next its idx ready = Some (ready ++ run_from next l, its', idx') /\
    core its' idx' (drop (length (run_from next l)) l).
Proof.
  induction l as [|tx l IH]; intros fuel next its idx ready Hc Hf Hr H0.
  - destruct (core_nil _ _ Hc) as [-> ->]. exists ∅, []. cbn. rewrite app_nil_r. split; [by destruct fuel|done].
  - destruct fuel as [|fuel]; [cbn in Hf; lia|]. pose proof (co_ordered _ _ _ Hc) as [_ Ho]%ordered_cons.
    destruct (core_first _ _ _ _ Hc) as ((rest & ->) & Hg & idx' & E & Hc'). cbn [ready_loop run_from].
    destruct (Z.eqb_spec (Nonce tx) next) as [<-|Hne]; [|rewrite app_nil_r; eauto].
    rewrite Hg. cbn [mbind option_bind]. rewrite E. cbn [mbind option_bind length drop]. apply Forall_cons_iff in Hr as [Ht Hr].
    destruct (decide (l = [])) as [->|Hl].
    { destruct (core_nil _ _ Hc') as [-> _]. exists (delete (Nonce tx) its), []. cbn. split; [by destruct fuel|done]. }
    assert (Nonce tx + 1 < 2 ^ 64) as Hlt.
    { destruct l as [|t l]; [done|]. apply Forall_cons_iff in Ho as [? _], Hr as [? _]. lia. }
    rewrite Z.mod_small by lia.
    destruct (IH fuel (Nonce tx + 1) (delete (Nonce tx) its) idx' (ready ++ [tx]) Hc') as (its' & idx2 & -> & H2); [cbn in Hf; lia| |lia|].
    + rewrite list.Forall_forall in *. intros t Ht'. specialize (Ho t Ht'). specialize (Hr t Ht'). lia.
    + exists its', idx2. by rewrite <- app_assoc.
Qed.

Lemma run_from_prefix n l : exists k, l = run_from n l ++ k.
Proof.
  revert n. induction l as [|tx l IH]; intros n; [by exists []|]. cbn [run_from]. destruct (Nonce tx =? n); [|by exists (tx :: l)].
  destruct (IH (n + 1)) as [k Hk]. exists k. cbn. by f_equal.
Qed.

Lemma range_sub (l k : list Transaction) : k ⊆ l -> Forall (fun tx => 0 <= Nonce tx < 2 ^ 64) l -> Forall (fun tx => 0 <= Nonce tx < 2 ^ 64) k.
Proof. rewrite !list.Forall_forall. intros H F x Hx. by apply F, H. Qed.

Lemma drop_sub {A} n (l : list A) : drop n l ⊆ l.
Proof. intros x Hx. rewrite <- (take_drop n l). apply elem_of_app. by right. Qed.
Lemma take_sub {A} n (l : list A) : take n l ⊆ l.
Proof. intros x Hx. rewrite <- (take_drop n l). apply elem_of_app. by left. Qed.

Theorem Ready_ok m l start : represents m l ->
  exists m', Ready m start = Some (ready_list start l, m') /\ represents m' (drop (length (ready_list start l)) l).
Proof.
  intros Hrep. pose proof Hrep as [Hc Hca Hr]. unfold Ready. destruct l as [|tx l].
  - destruct (core_nil _ _ Hc) as [-> _]. by exists m.
  - destruct (core_first _ _ _ _ Hc) as ((rest & Ei) & _). rewrite Ei. cbn [ready_list].
    destruct (Nonce tx >? start); [by exists m|].
    pose proof (co_ordered _ _ _ Hc) as [_ Ho]%ordered_cons. pose proof Hr as [Ht Hr']%Forall_cons_iff.
    destruct (ready_ok (tx :: l) (length (Nonce tx :: rest)) (Nonce tx) (items m) (Nonce tx :: rest) []) as (its & idx & E & Hc').
    + by rewrite <- Ei.
    + rewrite <- Ei, (Permutation_length (co_index _ _ _ Hc)), length_fmap. done.
    + constructor; [lia|]. rewrite list.Forall_forall in *. intros t Ht'. specialize (Ho t Ht'). specialize (Hr' t Ht'). lia.
    + lia.
    + rewrite E. cbn [mbind option_bind app]. eexists. split; [done|]. split; [done|done|].
      eapply range_sub; [apply drop_sub|exact Hr].
Qed.

(** ** Cap *)
Lemma core_last its idx l tx : core its idx (l ++ [tx]) -> its !! Nonce tx = Some tx /\
  (forall n tx0, delete (Nonce tx) its !! n = Some tx0 <-> tx0 ∈ l /\ Nonce tx0 = n).
Proof.
  intros [Ho Hi _ _]. split; [apply Hi; split; [apply elem_of_app; right; by left|done]|].
  apply (core_delete its (l ++ [tx]) tx l Hi Ho). by rewrite Permutation_app_comm.
Qed.

(** The items are the first [k] of the list. *)
Lemma cap_ok l k threshold : ordered Nonce l -> 0 <= threshold ->
  forall fuel its drops, (k <= length l)%nat -> (k <= fuel)%nat ->
  (forall n tx, its !! n = Some tx <-> tx ∈ take k l /\ Nonce tx = n) ->
  exists its', cap_loop fuel threshold (Z.of_nat k) its (Nonce <$> l) drops =
      Some (drops ++ rev (drop (Z.to_nat threshold) (take k l)), its') /\
    (forall n tx, its' !! n = Some tx <-> tx ∈ take (Z.to_nat threshold) (take k l) /\ Nonce tx = n).
Proof.
  intros Ho Ht. induction k as [|k IH]; intros fuel its drops Hk Hf Hi.
  - exists its. rewrite take_0 in Hi |- *. rewrite drop_nil, take_nil. cbn [rev]. rewrite app_nil_r. split; [|done].
    destruct fuel; cbn [cap_loop]; (destruct (Z.gtb_spec (Z.of_nat 0) threshold); [lia|done]).
  - destruct fuel as [|fuel]; [lia|]. cbn [cap_loop]. destruct (lookup_lt_is_Some_2 l k) as [tx Hx]; [lia|].
    pose proof (take_S_r l k tx Hx) as HS. destruct (Z.gtb_spec (Z.of_nat (S k)) threshold) as [Hgt|Hle].
    + destruct (Z.leb_spec 0 (Z.of_nat (S k) - 1)) as [_|]; [|lia]. replace (Z.to_nat (Z.of_nat (S k) - 1)) with k by lia.
      rewrite list_lookup_fmap, Hx. cbn [fmap option_fmap option_map mbind option_bind].
      assert (its !! Nonce tx = Some tx) as Hg by (apply Hi; rewrite HS; split; [apply elem_of_app; right; by left|done]).
      rewrite Hg. cbn [mbind option_bind]. replace (Z.of_nat (S k) - 1) with (Z.of_nat k) by lia.
      assert (length (take k l) = k) as Hlk by (rewrite length_take; lia).
      destruct (IH fuel (delete (Nonce tx) its) (drops ++ [tx])) as (its' & -> & Hi'); [lia|lia| |].
      * apply (core_delete its (take (S k) l)); [done|by apply ordered_take|]. rewrite HS. by rewrite Permutation_app_comm.
      * exists its'. rewrite HS. rewrite drop_app_le by lia. rewrite rev_app_distr. cbn [rev app]. rewrite <- app_assoc. split; [done|].
        rewrite take_app_le by lia. done.
    + exists its. rewrite drop_ge, take_ge by (rewrite length_take; lia). cbn [rev]. by rewrite app_nil_r.
Qed.

Lemma sort_index m l : represents m l -> sort_by id64 (index m) = Nonce <$> l.
Proof.
  intros [[Ho _ _ Hx] _ _]. apply sort_by_unique; [|by symmetry]. clear Hx.
  induction l as [|tx l IH]; [constructor|]. apply ordered_cons in Ho as [Ho F]. rewrite fmap_cons. apply ordered_cons.
  split; [by apply IH|]. by apply Forall_fmap.
Qed.

Lemma slice_to_ok {A} (l : list A) high : 0 <= high <= Z.of_nat (length l) -> slice_to l high = Some (take (Z.to_nat high) l).
Proof. intros. unfold slice_to. by rewrite !(proj2 (Z.leb_le _ _)) by lia. Qed.

(** Cap keeps the lowest nonces and returns the others, the highest first. *)
Theorem Cap_ok m l threshold : represents m l -> 0 <= threshold ->
  exists m', Cap m threshold = Some (rev (drop (Z.to_nat threshold) l), m') /\ represents m' (take (Z.to_nat threshold) l).
Proof.
  intros Hrep Ht. pose proof Hrep as [Hc Hca Hr]. unfold Cap. rewrite (core_size _ _ _ Hc). pose proof Hc as [Ho Hi Hh Hx].
  destruct (Z.leb_spec (Z.of_nat (length l)) threshold) as [Hle|Hgt].
  - rewrite drop_ge, take_ge by lia. by exists m.
  - rewrite (sort_index m l Hrep). rewrite <- (take_ge l (length l)) in Hi by lia.
    destruct (cap_ok l (length l) threshold Ho Ht (length l) (items m) [] ltac:(lia) ltac:(lia) Hi) as (its & E & Hi').
    rewrite E. cbn [mbind option_bind app]. rewrite (take_ge l (length l)) in Hi' |- * by lia.
    rewrite (slice_to_ok (Nonce <$> l)) by (rewrite length_fmap; lia). cbn [mbind option_bind].
    set (k := Z.to_nat threshold) in *.
    assert (core its (Heap.Init less_nonce (take k (Nonce <$> l))) (take k l)) as Hc'.
    { split; [by apply ordered_take|done|apply (Init_ok less_nonce id64 _ less_nonce_key), all_True|].
      rewrite Init_perm. by rewrite fmap_take. }
    assert (Forall (fun tx => 0 <= Nonce tx < 2 ^ 64) (take k l)) by (eapply range_sub; [apply take_sub|done]).
    destruct (cache m) as [c|] eqn:Ec.
    + rewrite (Hca c eq_refl). rewrite slice_to_ok by (rewrite length_rev, length_drop; lia). cbn [mbind option_bind]. eexists. split; [done|]. split; [done| |done].
      intros c' [= <-]. f_equal. rewrite length_rev, length_drop. lia.
    + cbn [mbind option_bind]. eexists. split; [done|]. by split.
Qed.

(** ** Remove *)
Definition other (n : Z) (tx : Transaction) : bool := negb (Nonce tx =? n).
Theorem Remove_sorted_ok m l n : represents m l ->
  exists m', TxList.Remove m n = (bool_decide (n ∈ Nonce <$> l), m') /\ represents m' (List.filter (other n) l).
Proof.
  intros Hrep. pose proof Hrep as [Hc Hca Hr]. pose proof Hc as [Ho Hi Hh Hx]. unfold TxList.Remove.
  destruct (items m !! n) as [tx|] eqn:E.
  - apply Hi in E as [Hin <-].
    rewrite bool_decide_eq_true_2 by (by apply list_elem_of_fmap_2). eexists. split; [done|].
    destruct (list_find_elem_of (fun n => n = Nonce tx) (index m) (Nonce tx)) as [[i n'] Ef]; [rewrite Hx; by apply list_elem_of_fmap_2|done|].
    rewrite Ef. apply list_find_Some in Ef as (Ef & -> & _).
    destruct (Remove_ok less_nonce id64 _ less_nonce_key (index m) i (Nonce tx) (all_True _) Hh Ef) as [Hh' Hp].
    pose proof (filter_one tx tx l Ho Hin eq_refl) as Hl. split; [|done|by apply range_lfilter].
    split; [by apply ordered_filter|by apply (core_delete _ l)|done|]. cbn [index]. rewrite Hp, Hl in Hx.
    by apply Permutation_cons_inv in Hx.
  - assert (forall t, t ∈ l -> Nonce t <> n) as Hn.
    { intros t Ht <-. assert (items m !! Nonce t = Some t) by (by apply Hi). congruence. }
    rewrite bool_decide_eq_false_2 by (intros (t & -> & Ht)%list_elem_of_fmap; by apply (Hn t)). exists m. split; [done|].
    assert (List.filter (other n) l = l) as ->; [|done]. clear -Hn. induction l as [|t l IH]; [done|]. cbn [List.filter].
    rewrite IH by (intros; apply Hn; by right). unfold other at 1. assert (Nonce t <> n) by (apply Hn; by left).
    by replace (Nonce t =? n) with false by lia.
Qed.

Section Range.
Context (range : gmap Z Transaction -> list (Z * Transaction)).
Hypothesis range_perm : forall m, range m ≡ₚ map_to_list m.

(** ** Filter *)
Lemma filter_ok f g l : forall its removed, (forall n tx, (n, tx) ∈ l -> f tx = Some (g tx)) ->
  exists its', filter_loop f l its removed = Some (removed ++ List.filter g l.*2, its') /\
    (forall n t, its' !! n = Some t <-> its !! n = Some t /\ ~ exists tx, (n, tx) ∈ l /\ g tx = true).
Proof.
  induction l as [|[n tx] l IH]; intros its removed Hf.
  - exists its. cbn. rewrite app_nil_r. split; [done|]. intros n t. split; [|tauto]. intros H. split; [done|]. by intros (? & ?%elem_of_nil & _).
  - cbn [filter_loop]. rewrite (Hf n tx) by (by left). cbn [mbind option_bind]. destruct (g tx) eqn:Eg.
    + destruct (IH (delete n its) (removed ++ [tx])) as (its' & -> & Hi); [intros; eapply Hf; by right|].
      exists its'. cbn [fmap list_fmap snd List.filter]. rewrite Eg, <- app_assoc. split; [done|]. intros k t. rewrite (Hi k t), lookup_delete_Some.
      split.
      * intros [[Hne Hk] Hno]. split; [done|]. intros (tx0 & [[= -> ->]|Hin]%elem_of_cons & Hg); [done|]. apply Hno. eauto.
      * intros [Hk Hno]. split; [split; [|done]|].
        -- intros ->. apply Hno. exists tx. by split; [left|].
        -- intros (tx0 & Hin & Hg). apply Hno. exists tx0. by split; [right|].
    + destruct (IH its removed) as (its' & -> & Hi); [intros; eapply Hf; by right|].
      exists its'. cbn [fmap list_fmap snd List.filter]. rewrite Eg. split; [done|]. intros k t. rewrite (Hi k t).
      split; intros [Hk Hno]; (split; [done|]).
      * intros (tx0 & [[= -> ->]|Hin]%elem_of_cons & Hg); [congruence|]. apply Hno. eauto.
      * intros (tx0 & Hin & Hg). apply Hno. exists tx0. by split; [right|].
Qed.

Lemma range_values its idx l : core its idx l -> (range its).*2 ≡ₚ l /\ (range its).*1 ≡ₚ Nonce <$> l.
Proof.
  intros Hc. rewrite range_perm, (core_entries _ _ _ Hc), <- !list_fmap_compose. split; [|done]. by rewrite list_fmap_id.
Qed.

(** Filter removes what the predicate holds of; the removed come in the order of
    the map. *)
Theorem Filter_ok m l f g : represents m l -> (forall tx, tx ∈ l -> f tx = Some (g tx)) ->
  exists removed m', Filter range m f = Some (removed, m') /\ removed ≡ₚ List.filter g l /\
    represents m' (List.filter (fun tx => negb (g tx)) l).
Proof.
  intros Hrep Hf. pose proof Hrep as [Hc Hca Hr]. unfold Filter.
  destruct (range_values _ _ _ Hc) as [Hv Hn].
  assert (forall n tx, (n, tx) ∈ range (items m) <-> tx ∈ l /\ Nonce tx = n) as Hin.
  { intros n tx. rewrite range_perm, elem_of_map_to_list. apply Hc. }
  destruct (filter_ok f g (range (items m)) (items m) []) as (its & -> & Hi); [intros n tx [? _]%Hin; by apply Hf|].
  cbn [mbind option_bind app]. set (removed := List.filter g _).
  assert (removed ≡ₚ List.filter g l) as Hrem by (unfold removed; by rewrite Hv).
  assert (forall n t, its !! n = Some t <-> t ∈ List.filter (fun tx => negb (g tx)) l /\ Nonce t = n) as Hi'.
  { intros n t. rewrite (Hi n t), elem_of_lfilter, (co_items _ _ _ Hc n t), negb_true_iff. setoid_rewrite Hin. split.
    - intros [[H1 H2] H3]. split_and!; try done. apply not_true_iff_false. intros E. apply H3. eauto.
    - intros [[H1 H2] H3]. split; [done|]. intros (t' & [H4 H5] & H6).
      assert (t' = t) as -> by (eapply same_nonce; [apply Hc|done|done|congruence]). congruence. }
  assert (forall idx, is_heap id64 idx -> idx ≡ₚ Nonce <$> List.filter (fun tx => negb (g tx)) l ->
    core its idx (List.filter (fun tx => negb (g tx)) l)) as Hcore.
  { intros idx H1 H2. split; [apply ordered_filter, Hc|done|done|done]. }
  destruct (Nat.ltb_spec 0 (length removed)) as [Hpos|Hz].
  - eexists _, _. split; [done|]. split; [done|]. split; [|done|by apply range_lfilter]. cbn [items index].
    apply Hcore; [apply (Init_ok less_nonce id64 _ less_nonce_key), all_True|]. rewrite Init_perm.
    destruct (range_values its (Heap.Init less_nonce (Nonce <$> List.filter (fun tx => negb (g tx)) l)) (List.filter (fun tx => negb (g tx)) l))
      as [_ E]; [|done].
    apply Hcore; [apply (Init_ok less_nonce id64 _ less_nonce_key), all_True|by rewrite Init_perm].
  - assert (removed = []) as E0 by (destruct removed; [done|cbn in Hz; lia]). rewrite E0 in Hrem |- *.
    exists [], m. split; [done|]. split; [done|].
    assert (List.filter (fun tx => negb (g tx)) l = l) as ->; [|done].
    apply Permutation_nil_l in Hrem. clear -Hrem. induction l as [|t l IH]; [done|]. cbn [List.filter] in *.
    destruct (g t); [done|]. cbn [negb]. by rewrite IH.
Qed.

Theorem Flatten_ok m l : represents m l -> exists m', Flatten range m = (l, m') /\ represents m' l.
Proof.
  intros Hrep. pose proof Hrep as [Hc Hca Hr]. unfold Flatten. destruct (cache m) as [c|] eqn:E; [rewrite (Hca c eq_refl); eauto|].
  assert (sort_by Nonce (range (items m)).*2 = l) as ->.
  { apply sort_by_unique; [apply Hc|]. symmetry. by eapply range_values. }
  eexists. split; [done|]. split; [done| |done]. by intros c [= <-].
Qed.
End Range.

Theorem newTxSortedMap_ok : represents newTxSortedMap [].
Proof. split; [apply core_empty|done|constructor]. Qed.
Theorem SortedGet_ok m l n tx : represents m l -> Get m n = Some tx <-> tx ∈ l /\ Nonce tx = n.
Proof. intros [Hc _ _]. apply Hc. Qed.
Theorem Len_ok m l : represents m l -> Len m = Z.of_nat (length l).
Proof. intros [Hc _ _]. unfold Len. by rewrite (core_size _ _ _ Hc). Qed.
