(* ===== verification/TxListRefine.v ===== *)
(** The transaction list of an account as a list in the order of the nonces.

    [lists tl l]: the txList [tl] stands for [l], and its caps bound what the
    transactions that pay for their gas cost.  In strict mode what remains after
    a removal is what comes before the first transaction removed. *)

From S2P Require Import Prelude BigMath GoHeap TxTypes TxList TxListSpec.
Import Big Common Tx TxList.

Local Open Scope Z_scope.

(** The transactions that are charged to the account. *)
Definition charged (tx : Transaction) : bool := IsNormalTransaction (Txtype tx) || IsPosTransaction (Txtype tx).

Record lists (tl : txList) (l : list Transaction) : Prop := {
  ls_txs : represents (txs tl) l;
  ls_caps : Forall (fun tx => charged tx = true -> Cost tx <= costcap tl /\ Gas tx <= gascap tl) l;
}.

(** Ready gives a prefix. *)
Lemma ready_prefix start l : ready_list start l ++ drop (length (ready_list start l)) l = l.
Proof.
  destruct l as [|tx l]; [done|]. cbn [ready_list]. destruct (_ >? _); [done|]. destruct (run_from_prefix (Nonce tx) (tx :: l)) as [k Hk].
  remember (run_from (Nonce tx) (tx :: l)) as r eqn:Er. clear Er. rewrite Hk. by rewrite drop_app_length.
Qed.

(** What comes before the first that [g] holds of. *)
Fixpoint before (g : Transaction -> bool) (l : list Transaction) : list Transaction :=
  match l with
  | tx :: l => if g tx then [] else tx :: before g l
  | [] => []
  end.
(** What is left when [g] is removed. *)
Definition left_by (strict : bool) (g : Transaction -> bool) (l : list Transaction) : list Transaction :=
  if strict then before g l else List.filter (fun tx => negb (g tx)) l.

Lemma before_prefix g l : exists k, l = before g l ++ k.
Proof.
  induction l as [|tx l [k Hk]]; [by exists []|]. cbn [before]. destruct (g tx); [by exists (tx :: l)|]. exists k. cbn. by f_equal.
Qed.
Lemma before_none g l : List.filter g l = [] -> before g l = l.
Proof. induction l as [|tx l IH]; [done|]. cbn [List.filter before]. destruct (g tx); [done|]. intros H. by rewrite IH. Qed.
Lemma left_by_sub strict g l : left_by strict g l ⊆ l.
Proof.
  unfold left_by. destruct strict; [|intros x Hx; by apply elem_of_lfilter in Hx as [? _]].
  destruct (before_prefix g l) as [k Hk]. intros x Hx. rewrite Hk. apply elem_of_app. by left.
Qed.
Lemma left_by_ok strict g l tx : tx ∈ left_by strict g l -> g tx = false.
Proof.
  unfold left_by. destruct strict; [|intros [_ ?%negb_true_iff]%elem_of_lfilter; done].
  induction l as [|t l IH]; cbn [before]; [by intros ?%elem_of_nil|]. destruct (g t) eqn:E; [by intros ?%elem_of_nil|].
  intros [->|?]%elem_of_cons; [done|by apply IH].
Qed.

Lemma represents_sub (P : Transaction -> Prop) (l k : list Transaction) : k ⊆ l -> Forall P l -> Forall P k.
Proof. rewrite !list.Forall_forall. intros H F x Hx. by apply F, H. Qed.

(** The lowest nonce of a list. *)
Lemma lowest_le removed : forall d tx, tx ∈ removed ->
  foldl (fun low tx => if low >? Nonce tx then Nonce tx else low) d removed <= Nonce tx.
Proof.
  assert (forall l d, foldl (fun low tx => if low >? Nonce tx then Nonce tx else low) d l <= d) as Hd.
  { induction l as [|t l IH]; intros d; [done|]. cbn [foldl]. etrans; [apply IH|]. destruct (Z.gtb_spec d (Nonce t)); lia. }
  induction removed as [|t l IH]; intros d tx Hin; [by apply elem_of_nil in Hin|]. cbn [foldl]. apply elem_of_cons in Hin as [->|Hin].
  - etrans; [apply Hd|]. destruct (Z.gtb_spec d (Nonce t)); lia.
  - by apply IH.
Qed.
Lemma lowest_ge removed : forall d n, n <= d -> Forall (fun tx => n <= Nonce tx) removed ->
  n <= foldl (fun low tx => if low >? Nonce tx then Nonce tx else low) d removed.
Proof.
  induction removed as [|t l IH]; intros d n Hd F; [done|]. apply Forall_cons_iff in F as [Ht F]. cbn [foldl]. apply IH; [|done].
  by destruct (Z.gtb_spec d (Nonce t)).
Qed.

(** Removing what [g] holds of, and then all above the lowest of it. *)
Lemma before_lowest g l removed : ordered Nonce l -> Forall (fun tx => 0 <= Nonce tx < 2 ^ 64) l -> removed ≡ₚ List.filter g l -> removed <> [] ->
  List.filter (fun tx => negb (Nonce tx >? lowest removed)) (List.filter (fun tx => negb (g tx)) l) = before g l.
Proof.
  intros Ho Hr Hp Hne. assert (Forall (fun tx => Nonce tx <= 2 ^ 64 - 1) removed) as Hmax.
  { rewrite Hp, list.Forall_forall. intros t [Ht _]%elem_of_lfilter. rewrite list.Forall_forall in Hr. specialize (Hr t Ht). lia. }
  revert Ho Hr Hp. induction l as [|tx l IH]; intros Ho Hr Hp; [by apply Permutation_nil_r in Hp|].
  apply ordered_cons in Ho as [Ho F]. apply Forall_cons_iff in Hr as [Htx Hr]. rewrite list.Forall_forall in F.
  cbn [List.filter before] in *. destruct (g tx) eqn:Eg; cbn [negb].
  - assert (lowest removed = Nonce tx) as ->.
    { apply Z.le_antisymm; [apply lowest_le; rewrite Hp; by left|]. apply lowest_ge; [lia|]. rewrite Hp.
      constructor; [done|]. rewrite list.Forall_forall. intros t [Ht _]%elem_of_lfilter. specialize (F t Ht). lia. }
    destruct (List.filter (fun tx0 => negb (Nonce tx0 >? Nonce tx)) _) as [|t k] eqn:E; [done|]. exfalso.
    assert (t ∈ t :: k) as Ht by (by left). rewrite <- E in Ht. apply elem_of_lfilter in Ht as [[Ht _]%elem_of_lfilter Hn].
    specialize (F t Ht). destruct (Z.gtb_spec (Nonce t) (Nonce tx)); [done|lia].
  - cbn [List.filter]. assert (Nonce tx <= lowest removed) as Hle.
    { apply lowest_ge; [lia|]. rewrite Hp, list.Forall_forall. intros t [Ht _]%elem_of_lfilter. specialize (F t Ht). lia. }
    destruct (Z.gtb_spec (Nonce tx) (lowest removed)); [lia|]. cbn [negb]. f_equal. by apply IH.
Qed.

Lemma lfilter_parts {A} (g : A -> bool) l : l ≡ₚ List.filter g l ++ List.filter (fun x => negb (g x)) l.
Proof.
  induction l as [|x l IH]; [done|]. cbn [List.filter]. destruct (g x); cbn [negb app]; [by f_equiv|].
  rewrite <- Permutation_middle. by f_equiv.
Qed.

Lemma lfilter_none {A} (g : A -> bool) l : List.filter g l = [] -> List.filter (fun x => negb (g x)) l = l.
Proof. induction l as [|t l IH]; [done|]. cbn [List.filter]. destruct (g t); [done|]. cbn [negb]. intros H. by rewrite IH. Qed.

Section Range.
Context (range : gmap Z Transaction -> list (Z * Transaction)).
Hypothesis range_perm : forall m, range m ≡ₚ map_to_list m.

Definition in_range (l : list Transaction) : Prop := Forall (fun tx => 0 <= Nonce tx < 2 ^ 64) l.

Lemma lists_sub tl l m k : lists tl l -> represents m k -> k ⊆ l -> lists (set_txs tl m) k.
Proof. intros [_ Hc] Hm Hk. split; [done|]. by eapply represents_sub. Qed.

Lemma dropAfter_ok tl l g removed : lists tl (List.filter (fun tx => negb (g tx)) l) -> ordered Nonce l -> in_range l ->
  removed ≡ₚ List.filter g l ->
  exists invalids tl', dropAfter range tl removed = Some (invalids, tl') /\ lists tl' (left_by (strict tl) g l) /\
    strict tl' = strict tl /\ l ≡ₚ removed ++ invalids ++ left_by (strict tl) g l.
Proof.
  intros Hl Ho Hr Hp. unfold dropAfter, left_by. destruct (strict tl) eqn:Es; cbn [andb].
  - destruct (Nat.ltb_spec 0 (length removed)) as [Hpos|Hz].
    + destruct (Filter_ok range range_perm (txs tl) _ (fun tx => Some (Nonce tx >? lowest removed)) (fun tx => Nonce tx >? lowest removed) (ls_txs _ _ Hl))
        as (invalids & m & E & Hi & Hm); [done|]. rewrite E. cbn [mbind option_bind].
      assert (removed <> []) as Hne by (by intros ->; cbn in Hpos; lia).
      rewrite (before_lowest g l removed Ho Hr Hp Hne) in Hm. eexists _, _. split; [done|]. split_and!; [|done|].
      * eapply lists_sub; [exact Hl|done|]. rewrite <- (before_lowest g l removed Ho Hr Hp Hne). intros x Hx. by apply elem_of_lfilter in Hx as [? _].
      * rewrite (lfilter_parts g l) at 1. rewrite Hp. f_equiv. rewrite Hi, <- (before_lowest g l removed Ho Hr Hp Hne).
        apply lfilter_parts.
    + assert (removed = []) as -> by (destruct removed; [done|cbn in Hz; lia]). apply Permutation_nil_l in Hp. symmetry in Hp.
      eexists _, _. split; [done|]. pose proof (before_none g l Hp) as Hb. rewrite Hb. cbn [app].
      by rewrite (lfilter_none g l Hp) in Hl.
  - eexists _, _. split; [done|]. split_and!; [done|done|]. cbn [app]. rewrite Hp. apply lfilter_parts.
Qed.

(** What the limits exclude. *)
Abbreviation costly := tooCostly.

Lemma costly_none tl l cost gas : lists tl l -> costcap tl <= cost -> gascap tl <= gas -> List.filter (costly cost gas) l = [].
Proof.
  intros [_ Hc] H1 H2. induction l as [|tx l IH]; [done|]. apply Forall_cons_iff in Hc as [Ht Hc]. cbn [List.filter].
  unfold tooCostly at 1. fold (charged tx). destruct (charged tx) eqn:E; cbn [andb]; [|by apply IH].
  specialize (Ht eq_refl). destruct (Z.gtb_spec (Cost tx) cost); [lia|]. destruct (Z.gtb_spec (Gas tx) gas); [lia|]. by apply IH.
Qed.

(** Filter: the caps decide only whether it is worth looking. *)
Theorem ListFilter_ok tl l cost gas : lists tl l ->
  exists removed invalids tl', ListFilter range tl cost gas = Some (removed, invalids, tl') /\
    removed ≡ₚ List.filter (costly cost gas) l /\ lists tl' (left_by (strict tl) (costly cost gas) l) /\ strict tl' = strict tl /\
    l ≡ₚ removed ++ invalids ++ left_by (strict tl) (costly cost gas) l.
Proof.
  intros Hl. pose proof Hl as [Hm Hc]. unfold ListFilter.
  destruct (Z.leb_spec (costcap tl) cost) as [H1|H1], (Z.leb_spec (gascap tl) gas) as [H2|H2]; cbn [andb].
  { pose proof (costly_none tl l cost gas Hl H1 H2) as E. exists [], [], tl. rewrite E.
    assert (left_by (strict tl) (costly cost gas) l = l) as -> by (unfold left_by; destruct (strict tl); [by apply before_none|by apply lfilter_none]).
    by split_and!. }
  all: destruct (Filter_ok range range_perm (txs tl) l (fun tx => Some (costly cost gas tx)) (costly cost gas) Hm) as (removed & m & E & Hp & Hm');
    [done|]; rewrite E; cbn [mbind option_bind];
    (destruct (dropAfter_ok (mkList (strict tl) m cost gas) l (costly cost gas) removed) as (invalids & tl' & E' & Hl' & Hs & Hperm);
      [|apply Hm|apply Hm|done|rewrite E'; cbn [mbind option_bind]; by exists removed, invalids, tl']);
    (split; [done|]); rewrite list.Forall_forall; intros tx [_ Hx]%elem_of_lfilter Hch; unfold tooCostly in Hx; fold (charged tx) in Hx;
    rewrite Hch in Hx; cbn [andb costcap gascap] in *;
    (destruct (Z.gtb_spec (Cost tx) cost); [done|]); (destruct (Z.gtb_spec (Gas tx) gas); [done|]); done.
Qed.

Theorem dropInvalid_ok tl l f g : lists tl l -> (forall tx, tx ∈ l -> f tx = Some (g tx)) ->
  exists removed tl', dropInvalid range tl f = Some (removed, tl') /\ lists tl' (left_by (strict tl) g l) /\ strict tl' = strict tl /\
    l ≡ₚ removed ++ left_by (strict tl) g l.
Proof.
  intros Hl Hf. pose proof Hl as [Hm Hc]. unfold dropInvalid.
  destruct (Filter_ok range range_perm (txs tl) l f g Hm Hf) as (removed & m & E & Hp & Hm'). rewrite E. cbn [mbind option_bind].
  destruct (dropAfter_ok (set_txs tl m) l g removed) as (invalids & tl' & E' & Hl' & Hs & Hperm); [|apply Hm|apply Hm|done|].
  - eapply lists_sub; [exact Hl|done|]. intros x Hx. by apply elem_of_lfilter in Hx as [? _].
  - rewrite E'. cbn [mbind option_bind]. eexists _, tl'. split; [done|]. split_and!; try done. by rewrite <- app_assoc.
Qed.

Theorem ListForward_ok tl l t : lists tl l ->
  exists tl', ListForward tl t = Some (List.filter (low t) l, tl') /\ lists tl' (List.filter (not_low t) l) /\ strict tl' = strict tl.
Proof.
  intros Hl. unfold ListForward. destruct (Forward_ok (txs tl) l t (ls_txs _ _ Hl)) as (m & E & Hm). rewrite E. cbn [mbind option_bind].
  eexists. split; [done|]. split; [|done]. eapply lists_sub; [exact Hl|done|]. intros x Hx. by apply elem_of_lfilter in Hx as [? _].
Qed.
Theorem ListCap_ok tl l t : lists tl l -> 0 <= t ->
  exists tl', ListCap tl t = Some (rev (drop (Z.to_nat t) l), tl') /\ lists tl' (take (Z.to_nat t) l) /\ strict tl' = strict tl.
Proof.
  intros Hl Ht. unfold ListCap. destruct (Cap_ok (txs tl) l t (ls_txs _ _ Hl) Ht) as (m & E & Hm). rewrite E. cbn [mbind option_bind].
  eexists. split; [done|]. split; [|done]. eapply lists_sub; [exact Hl|done|apply take_sub].
Qed.
Theorem ListReady_ok tl l start : lists tl l ->
  exists tl', ListReady tl start = Some (ready_list start l, tl') /\ lists tl' (drop (length (ready_list start l)) l) /\ strict tl' = strict tl.
Proof.
  intros Hl. unfold ListReady. destruct (Ready_ok (txs tl) l start (ls_txs _ _ Hl)) as (m & E & Hm). rewrite E. cbn [mbind option_bind].
  eexists. split; [done|]. split; [|done]. eapply lists_sub; [exact Hl|done|apply drop_sub].
Qed.

(** Remove: in strict mode also what comes after the transaction. *)
Definition left_after (strict : bool) (n : Z) (l : list Transaction) : list Transaction :=
  if strict && bool_decide (n ∈ Nonce <$> l) then List.filter (low n) l else List.filter (other n) l.

Lemma above_other n l : List.filter (fun tx => negb (Nonce tx >? n)) (List.filter (other n) l) = List.filter (low n) l.
Proof.
  induction l as [|tx l IH]; [done|]. cbn [List.filter]. unfold other at 1, low at 1. destruct (Z.eqb_spec (Nonce tx) n) as [E|E]; cbn [negb].
  - replace (Nonce tx <? n) with false by lia. done.
  - cbn [List.filter]. destruct (Z.gtb_spec (Nonce tx) n); cbn [negb].
    + replace (Nonce tx <? n) with false by lia. done.
    + replace (Nonce tx <? n) with true by lia. by f_equal.
Qed.

Theorem ListRemove_ok tl l tx : lists tl l ->
  exists invalids tl', ListRemove range tl tx = Some (bool_decide (Nonce tx ∈ Nonce <$> l), invalids, tl') /\
    lists tl' (left_after (strict tl) (Nonce tx) l) /\ strict tl' = strict tl /\
    List.filter (other (Nonce tx)) l ≡ₚ invalids ++ left_after (strict tl) (Nonce tx) l.
Proof.
  intros Hl. pose proof Hl as [Hm Hc]. unfold ListRemove, left_after. destruct (Remove_sorted_ok (txs tl) l (Nonce tx) Hm) as (m & -> & Hm').
  assert (lists (set_txs tl m) (List.filter (other (Nonce tx)) l)) as Hl'.
  { eapply lists_sub; [exact Hl|done|]. intros x Hx. by apply elem_of_lfilter in Hx as [? _]. }
  case_bool_decide as Hin; cbn [negb]; [|rewrite andb_false_r; by eexists _, _]. rewrite andb_true_r. destruct (strict tl) eqn:Es.
  - destruct (Filter_ok range range_perm m _ (fun t => Some (Nonce t >? Nonce tx)) (fun t => Nonce t >? Nonce tx) Hm') as (inv & m' & E & Hp & Hm2); [done|].
    rewrite E. cbn [mbind option_bind]. rewrite above_other in Hm2. eexists _, _. split; [done|]. split_and!; [|done|].
    + eapply lists_sub; [exact Hl|done|]. intros x Hx. by apply elem_of_lfilter in Hx as [? _].
    + rewrite (lfilter_parts (fun t => Nonce t >? Nonce tx) (List.filter (other (Nonce tx)) l)) at 1. by rewrite Hp, above_other.
  - by eexists _, _.
Qed.

Theorem ListFlatten_ok tl l : lists tl l -> exists tl', ListFlatten range tl = (l, tl') /\ lists tl' l /\ strict tl' = strict tl.
Proof.
  intros Hl. unfold ListFlatten. destruct (Flatten_ok range range_perm (txs tl) l (ls_txs _ _ Hl)) as (m & -> & Hm).
  eexists. split; [done|]. split; [|done]. eapply lists_sub; [exact Hl|done|done].
Qed.
End Range.

(** Add: a transaction replaces one of the same nonce at a higher price only. *)
Definition replaced (tx : Transaction) (l : list Transaction) : option Transaction :=
  snd <$> list_find (fun t => Nonce t = Nonce tx) l.

Lemma replaced_ok m l tx : represents m l -> Get m (Nonce tx) = replaced tx l.
Proof.
  intros Hm. apply option_eq. intros t. rewrite (SortedGet_ok _ _ _ _ Hm). unfold replaced. destruct (list_find _ l) as [[i t']|] eqn:E; cbn.
  - apply list_find_Some in E as (E & Hn & _). apply list_elem_of_lookup_2 in E. split; [|by intros [= <-]].
    intros [Ht Hn']. f_equal. eapply same_nonce; [apply Hm|done|done|congruence].
  - apply list_find_None in E. rewrite list.Forall_forall in E. split; [|done]. intros [Ht Hn]. by destruct (E t Ht).
Qed.

Definition accepts (tx : Transaction) (priceBump : Z) (l : list Transaction) : bool :=
  match replaced tx l with Some old => bumped old priceBump <? GasPrice tx | None => true end.

Theorem Add_ok tl l tx bump : lists tl l -> 0 <= Nonce tx < 2 ^ 64 ->
  exists tl', Add tl tx bump = (if accepts tx bump l then (true, replaced tx l, tl') else (false, None, tl')) /\
    lists tl' (if accepts tx bump l then put_list tx l else l) /\ strict tl' = strict tl.
Proof.
  intros [Hm Hc] Hn. unfold Add, accepts. rewrite (replaced_ok _ _ _ Hm). destruct (replaced tx l) as [old|].
  - rewrite Z.geb_leb, Z.leb_antisym. destruct (bumped old bump <? GasPrice tx); cbn [negb]; [|by eexists].
    eexists. split; [done|]. split; [|done]. split; [by apply Put_ok|]. cbn [costcap gascap].
    rewrite list.Forall_forall in *. intros t [->|[Ht _]]%elem_of_put_list Hch; [|specialize (Hc t Ht Hch)];
      destruct (Z.ltb_spec (costcap tl) (Cost tx)), (Z.ltb_spec (gascap tl) (Gas tx)); lia.
  - eexists. split; [done|]. split; [|done]. split; [by apply Put_ok|]. cbn [costcap gascap].
    rewrite list.Forall_forall in *. intros t [->|[Ht _]]%elem_of_put_list Hch; [|specialize (Hc t Ht Hch)];
      destruct (Z.ltb_spec (costcap tl) (Cost tx)), (Z.ltb_spec (gascap tl) (Gas tx)); lia.
Qed.
Theorem newTxList_ok strict : lists (newTxList strict) [].
Proof. split; [apply newTxSortedMap_ok|constructor]. Qed.
