(* ===== verification/TxPriced.v ===== *)
(** The price heap of the pool: priceHeap and txPricedList of core/tx_list.go.

    The list holds the transactions of the pool once each, and stale ones that
    have left it.  Which transactions are local is a parameter, the accountSet of
    the pool with the senders of its transactions; [all] is the map of the pool
    that the list points to. *)

From S2P Require Import Prelude BigMath GoHeap TxTypes TxListSpec.
Import Big Common Tx.

Local Open Scope Z_scope.

Module Priced.
Definition less_cheap (a b : Transaction) : bool := GasPrice a <? GasPrice b.

Record txPricedList := mkPriced {
  items : list Transaction;
  stales : Z;
}.
Definition newTxPricedList : txPricedList := mkPriced [] 0.

Section Ops.
Context (hash : Transaction -> Hash) (range : gmap Hash Transaction -> list (Hash * Transaction)).
Context (all : gmap Hash Transaction) (local : Transaction -> bool).

Definition live (tx : Transaction) : bool := bool_decide (hash tx ∈ dom all).

Definition Put (l : txPricedList) (tx : Transaction) : txPricedList :=
  mkPriced (Heap.Push less_cheap (items l) tx) (stales l).

Definition Removed (l : txPricedList) : txPricedList :=
  let stales := stales l + 1 in
  if stales <=? Z.of_nat (length (items l)) / 4 then mkPriced (items l) stales
  else mkPriced (Heap.Init less_cheap ((range all).*2)) 0.

Definition push_all (its : list Transaction) (save : list Transaction) : list Transaction :=
  foldl (Heap.Push less_cheap) its save.

(** Every turn of the loops pops an item. *)
Fixpoint cap_loop (fuel : nat) (threshold : Z) (its : list Transaction) (st : Z) (drop save : list Transaction) :
    option (list Transaction * list Transaction * list Transaction * Z) :=
  match fuel, its with
  | S fuel, _ :: _ =>
      '(tx, its) ← Heap.Pop less_cheap its;
      if negb (live tx) then cap_loop fuel threshold its (st - 1) drop save
      else if GasPrice tx >=? threshold then Some (drop, save ++ [tx], its, st)
      else if local tx then cap_loop fuel threshold its st drop (save ++ [tx])
      else cap_loop fuel threshold its st (drop ++ [tx]) save
  | _, _ => Some (drop, save, its, st)
  end.
Definition Cap (l : txPricedList) (threshold : Z) : option (list Transaction * txPricedList) :=
  '(drop, save, its, st) ← cap_loop (length (items l)) threshold (items l) (stales l) [] [];
  Some (drop, mkPriced (push_all its save) st).

Fixpoint underpriced_loop (fuel : nat) (its : list Transaction) (st : Z) : option (list Transaction * Z) :=
  match fuel, its with
  | S fuel, head :: _ =>
      if negb (live head) then '(_, its) ← Heap.Pop less_cheap its; underpriced_loop fuel its (st - 1)
      else Some (its, st)
  | _, _ => Some (its, st)
  end.
Definition Underpriced (l : txPricedList) (tx : Transaction) : option (bool * txPricedList) :=
  if local tx then Some (false, l)
  else
    '(its, st) ← underpriced_loop (length (items l)) (items l) (stales l);
    Some (match its with [] => false | cheapest :: _ => GasPrice cheapest >=? GasPrice tx end, mkPriced its st).

Fixpoint discard_loop (fuel : nat) (count : Z) (its : list Transaction) (st : Z) (drop save : list Transaction) :
    option (list Transaction * list Transaction * list Transaction * Z) :=
  match fuel, its with
  | S fuel, _ :: _ =>
      if count >? 0 then
        '(tx, its) ← Heap.Pop less_cheap its;
        if negb (live tx) then discard_loop fuel count its (st - 1) drop save
        else if local tx then discard_loop fuel count its st drop (save ++ [tx])
        else discard_loop fuel (count - 1) its st (drop ++ [tx]) save
      else Some (drop, save, its, st)
  | _, _ => Some (drop, save, its, st)
  end.
(** A negative count is a negative capacity. *)
Definition Discard (l : txPricedList) (count : Z) : option (list Transaction * txPricedList) :=
  if count <? 0 then None
  else
    '(drop, save, its, st) ← discard_loop (length (items l)) count (items l) (stales l) [] [];
    Some (drop, mkPriced (push_all its save) st).
End Ops.
End Priced.
Import Priced.

(** * What the list promises *)

Section Spec.
Context (hash : Transaction -> Hash) (range : gmap Hash Transaction -> list (Hash * Transaction)).
Hypothesis range_perm : forall m, range m ≡ₚ map_to_list m.
Abbreviation live := (live hash).

(** The pool knows its transactions by hash; each is in the list once, and there
    are at most as many other items as are counted. *)
Record tracks (all : gmap Hash Transaction) (l : txPricedList) : Prop := {
  tk_keys : map_Forall (fun h tx => hash tx = h) all;
  tk_heap : is_heap GasPrice (items l);
  tk_live : List.filter (live all) (items l) ≡ₚ (map_to_list all).*2;
  tk_stales : Z.of_nat (length (List.filter (fun tx => negb (live all tx)) (items l))) <= stales l;
}.

Lemma less_cheap_key a b : True -> True -> less_cheap a b = (GasPrice a <? GasPrice b).
Proof. done. Qed.
Lemma any (h : list Transaction) : Forall (fun _ => True) h.
Proof. by apply Forall_true. Qed.

Lemma elem_of_all (all : gmap Hash Transaction) tx : map_Forall (fun h tx => hash tx = h) all -> tx ∈ (map_to_list all).*2 <-> all !! hash tx = Some tx.
Proof.
  intros Hk. rewrite list_elem_of_fmap. split.
  - intros ([h t] & -> & Ht%elem_of_map_to_list). cbn. by rewrite (Hk _ _ Ht).
  - intros Ht. exists (hash tx, tx). split; [done|]. by apply elem_of_map_to_list.
Qed.
Lemma tracks_item all l tx : tracks all l -> all !! hash tx = Some tx <-> tx ∈ items l /\ live all tx = true.
Proof. intros [Hk _ Hl _]. rewrite <- (elem_of_all all tx Hk), <- Hl. apply elem_of_lfilter. Qed.

Lemma pop_cheap its x k : is_heap GasPrice its -> its = x :: k ->
  exists its', Heap.Pop less_cheap its = Some (x, its') /\ is_heap GasPrice its' /\ its ≡ₚ x :: its' /\
    Forall (fun b => GasPrice x <= GasPrice b) its' /\ (length its' < length its)%nat.
Proof.
  intros Hh E. destruct (Pop_ok less_cheap GasPrice _ less_cheap_key its x (any _) Hh) as (its' & E' & Hh' & Hp & Hm); [by rewrite E|].
  exists its'. split_and!; try done. rewrite (Permutation_length Hp). cbn. lia.
Qed.

Lemma push_all_ok its save : is_heap GasPrice its -> is_heap GasPrice (push_all its save) /\ push_all its save ≡ₚ save ++ its.
Proof.
  revert its. induction save as [|x save IH]; intros its Hh; [done|]. cbn [push_all foldl].
  destruct (IH (Heap.Push less_cheap its x)) as [H1 H2]; [by apply (Push_ok less_cheap GasPrice _ less_cheap_key); [apply any|]|].
  split; [done|]. change (foldl _ _ _) with (push_all (Heap.Push less_cheap its x) save). rewrite H2, Push_perm. cbn. by rewrite Permutation_middle.
Qed.

(** ** Discard *)

Definition remote (all : gmap Hash Transaction) (local : Transaction -> bool) (tx : Transaction) : bool := live all tx && negb (local tx).
Definition kept_local (all : gmap Hash Transaction) (local : Transaction -> bool) (tx : Transaction) : bool := live all tx && local tx.
Definition stale (all : gmap Hash Transaction) (tx : Transaction) : bool := negb (live all tx).

Lemma sorted_out all local x :
  (live all x = true /\ local x = true /\ remote all local x = false /\ kept_local all local x = true /\ stale all x = false) \/
  (live all x = true /\ local x = false /\ remote all local x = true /\ kept_local all local x = false /\ stale all x = false) \/
  (live all x = false /\ remote all local x = false /\ kept_local all local x = false /\ stale all x = true).
Proof. unfold remote, kept_local, stale. destruct (live all x), (local x); cbn; naive_solver. Qed.

Lemma discard_ok all local : forall fuel count its st drop save, is_heap GasPrice its -> (length its <= fuel)%nat -> 0 <= count ->
  exists popped its', discard_loop hash all local fuel count its st drop save =
      Some (drop ++ List.filter (remote all local) popped, save ++ List.filter (kept_local all local) popped, its',
            st - Z.of_nat (length (List.filter (stale all) popped))) /\
    is_heap GasPrice its' /\ its ≡ₚ popped ++ its' /\
    (forall a b, a ∈ popped -> b ∈ its' -> GasPrice a <= GasPrice b) /\
    Z.of_nat (length (List.filter (remote all local) popped)) <= count /\
    (its' = [] \/ Z.of_nat (length (List.filter (remote all local) popped)) = count).
Proof.
  induction fuel as [|fuel IH]; intros count its st drop save Hh Hf Hc.
  { destruct its; [|cbn in Hf; lia]. exists [], []. cbn. rewrite !app_nil_r, Z.sub_0_r. split_and!; try done; [by intros ?? ?%elem_of_nil|by left]. }
  destruct its as [|x k] eqn:E.
  { exists [], []. cbn. rewrite !app_nil_r, Z.sub_0_r. split_and!; try done; [by intros ?? ?%elem_of_nil|by left]. }
  cbn [discard_loop]. rewrite <- E in *. destruct (Z.gtb_spec count 0) as [Hpos|Hz].
  - destruct (pop_cheap its x k Hh E) as (its1 & Ep & Hh1 & Hp1 & Hm1 & Hl1). rewrite Ep. cbn [mbind option_bind].
    rewrite list.Forall_forall in Hm1.
    assert (forall count' st' drop' save', 0 <= count' ->
      exists popped its', discard_loop hash all local fuel count' its1 st' drop' save' =
          Some (drop' ++ List.filter (remote all local) popped, save' ++ List.filter (kept_local all local) popped, its',
                st' - Z.of_nat (length (List.filter (stale all) popped))) /\
        is_heap GasPrice its' /\ its ≡ₚ (x :: popped) ++ its' /\
        (forall a b, a ∈ x :: popped -> b ∈ its' -> GasPrice a <= GasPrice b) /\
        Z.of_nat (length (List.filter (remote all local) popped)) <= count' /\
        (its' = [] \/ Z.of_nat (length (List.filter (remote all local) popped)) = count')) as Hnext.
    { intros count' st' drop' save' Hc'. destruct (IH count' its1 st' drop' save' Hh1 ltac:(lia) Hc') as (popped & its' & E1 & H1 & H2 & H3 & H4 & H5).
      exists popped, its'. split_and!; try done; [rewrite Hp1; cbn; by f_equiv|]. intros a b [->|Ha]%elem_of_cons Hb; [|by apply H3].
      apply Hm1. rewrite H2. apply elem_of_app. by right. }
    destruct (sorted_out all local x) as [(El & Elo & Hr & Hk & Hs)|[(El & Elo & Hr & Hk & Hs)|(El & Hr & Hk & Hs)]];
      rewrite El; cbn [negb]; rewrite ?Elo.
    + destruct (Hnext count st drop (save ++ [x]) Hc) as (popped & its' & E1 & H). exists (x :: popped), its'. rewrite E1.
      cbn [List.filter]. rewrite Hr, Hk, Hs. by rewrite <- app_assoc.
    + destruct (Hnext (count - 1) st (drop ++ [x]) save ltac:(lia)) as (popped & its' & E1 & H1 & H2 & H3 & H4 & H5).
      exists (x :: popped), its'. rewrite E1. cbn [List.filter]. rewrite Hr, Hk, Hs, <- app_assoc. cbn [length].
      split_and!; try done; [lia|]. destruct H5 as [?|?]; [by left|right; lia].
    + destruct (Hnext count (st - 1) drop save Hc) as (popped & its' & E1 & H). exists (x :: popped), its'. rewrite E1.
      cbn [List.filter]. rewrite Hr, Hk, Hs. cbn [length]. split; [|done]. do 2 f_equal. lia.
  - exists [], its. cbn. rewrite !app_nil_r, Z.sub_0_r. split_and!; try done; [by intros ?? ?%elem_of_nil|right; lia].
Qed.

(** ** What leaves the list *)

(** The pool without the transactions of a list. *)
Definition without (drop : list Transaction) (all : gmap Hash Transaction) : gmap Hash Transaction :=
  foldr (fun tx m => base.delete (hash tx) m) all drop.

Lemma without_lookup drop (all : gmap Hash Transaction) h : without drop all !! h = if bool_decide (h ∈ hash <$> drop) then None else all !! h.
Proof.
  induction drop as [|tx drop IH]; [done|]. cbn [without foldr fmap list_fmap]. destruct (decide (hash tx = h)) as [<-|Hne].
  - rewrite lookup_delete_eq. by rewrite bool_decide_true by (apply elem_of_cons; by left).
  - rewrite lookup_delete_ne by done. change (foldr _ _ _) with (without drop all). rewrite IH.
    assert (h ∈ hash tx :: (hash <$> drop) <-> h ∈ hash <$> drop) as Hd by (rewrite elem_of_cons; naive_solver).
    by rewrite (bool_decide_ext _ _ Hd).
Qed.
Lemma without_keys drop (all : gmap Hash Transaction) : map_Forall (fun h tx => hash tx = h) all -> map_Forall (fun h tx => hash tx = h) (without drop all).
Proof. intros Hk h tx. rewrite without_lookup. case_bool_decide; [done|]. apply Hk. Qed.
Lemma without_values drop (all : gmap Hash Transaction) rest : map_Forall (fun h tx => hash tx = h) all ->
  (map_to_list all).*2 ≡ₚ drop ++ rest -> (map_to_list (without drop all)).*2 ≡ₚ rest.
Proof.
  revert rest. induction drop as [|tx drop IH]; intros rest Hk Hp; [done|]. cbn [without foldr].
  assert ((map_to_list (without drop all)).*2 ≡ₚ tx :: rest) as Hp'. { apply IH; [done|]. rewrite Hp. apply Permutation_middle. }
  assert (without drop all !! hash tx = Some tx) as Ht. { apply elem_of_all; [by apply without_keys|]. rewrite Hp'. apply elem_of_cons. by left. }
  change (foldr _ _ _) with (without drop all).
  apply (Permutation_cons_inv (a := tx)). rewrite <- Hp'. rewrite <- (map_to_list_delete _ _ _ Ht). done.
Qed.

Lemma all_nodup (all : gmap Hash Transaction) : map_Forall (fun h tx => hash tx = h) all -> NoDup (hash <$> (map_to_list all).*2).
Proof.
  intros Hk. rewrite <- list_fmap_compose. rewrite (list_fmap_ext _ fst (map_to_list all)); [apply NoDup_fst_map_to_list|].
  intros i [h tx] Hi. cbn. apply Hk, elem_of_map_to_list. by apply list_elem_of_lookup_2 in Hi.
Qed.

Lemma split_live all local popped : List.filter (live all) popped ≡ₚ List.filter (remote all local) popped ++ List.filter (kept_local all local) popped.
Proof.
  induction popped as [|x popped IH]; [done|]. cbn [List.filter].
  destruct (sorted_out all local x) as [(El & Elo & Hr & Hk & Hs)|[(El & Elo & Hr & Hk & Hs)|(El & Hr & Hk & Hs)]]; rewrite El, Hr, Hk; cbn; rewrite IH; [|done..].
  apply Permutation_middle.
Qed.

Lemma lfilter_same {A} (f g : A -> bool) k : (forall x, x ∈ k -> f x = g x) -> List.filter f k = List.filter g k.
Proof. intros H. apply List.filter_ext_in. intros x Hx%list_elem_of_In. by apply H. Qed.
Lemma lfilter_all {A} (f : A -> bool) k : (forall x, x ∈ k -> f x = true) -> List.filter f k = k.
Proof. intros H. rewrite (lfilter_same f (fun _ => true)) by done. clear H. induction k as [|x k IH]; [done|]. cbn. by rewrite IH. Qed.
Lemma lfilter_nil {A} (f : A -> bool) k : (forall x, x ∈ k -> f x = false) -> List.filter f k = [].
Proof. intros H. rewrite (lfilter_same f (fun _ => false)) by done. clear H. by induction k. Qed.

(** The loops pop the cheapest items, keep the local ones of the pool and hand
    out the others: what stays tracks the pool without those. *)
Lemma settle all local l popped rest its : tracks all l -> items l ≡ₚ popped ++ rest ->
  is_heap GasPrice its -> its ≡ₚ List.filter (kept_local all local) popped ++ rest ->
  tracks (without (List.filter (remote all local) popped) all) (mkPriced its (stales l - Z.of_nat (length (List.filter (stale all) popped)))).
Proof.
  intros [Hk Hh Hl Hs] Hp Hi Hpi. set (drop := List.filter (remote all local) popped).
  set (staying := List.filter (kept_local all local) popped ++ List.filter (live all) rest).
  assert ((map_to_list all).*2 ≡ₚ drop ++ staying) as Hsplit.
  { rewrite <- Hl, Hp, List.filter_app, (split_live all local), <- app_assoc. done. }
  assert (forall x, live (without drop all) x = live all x && negb (bool_decide (hash x ∈ hash <$> drop))) as Hlive.
  { intros x. unfold Priced.live. rewrite <- bool_decide_not, <- bool_decide_and. apply bool_decide_ext. rewrite !elem_of_dom, without_lookup.
    case_bool_decide; [|naive_solver]. split; [intros []; done|naive_solver]. }
  assert (forall x, x ∈ staying -> bool_decide (hash x ∈ hash <$> drop) = false) as Hout.
  { intros x Hx. apply bool_decide_false. intros Hd. pose proof (all_nodup all Hk) as Hn. rewrite Hsplit, fmap_app in Hn.
    apply list.NoDup_app in Hn as (_ & Hn & _). apply (Hn _ Hd). by apply list_elem_of_fmap_2. }
  assert (forall x, x ∈ List.filter (kept_local all local) popped -> live (without drop all) x = true) as Hkept.
  { intros x Hx. rewrite Hlive, Hout by (unfold staying; apply elem_of_app; by left). apply elem_of_lfilter in Hx as [_ Hx].
    unfold kept_local in Hx. by apply andb_true_iff in Hx as [-> _]. }
  assert (forall x, x ∈ rest -> live (without drop all) x = live all x) as Hrest.
  { intros x Hx. rewrite Hlive. destruct (live all x) eqn:E; [|done].
    rewrite Hout; [done|]. apply elem_of_app. right. by apply elem_of_lfilter. }
  constructor; cbn [items stales].
  - by apply without_keys.
  - done.
  - rewrite (without_values drop all staying Hk Hsplit), Hpi, List.filter_app. unfold staying. apply reflexive_eq. f_equal.
    + apply lfilter_all. apply Hkept.
    + apply lfilter_same, Hrest.
  - rewrite (Permutation_length (lfilter_perm _ _ _ Hpi)), List.filter_app, length_app.
    rewrite (lfilter_nil (fun tx => negb (live (without drop all) tx))) by (intros x Hx; by rewrite Hkept).
    rewrite (lfilter_same _ (stale all) rest) by (intros x Hx; unfold stale; by rewrite Hrest).
    rewrite (Permutation_length (lfilter_perm _ _ _ Hp)), List.filter_app, length_app in Hs. fold (stale all) in Hs. cbn [length]. unfold stale in *. lia.
Qed.

Lemma lfilter_nodup {A} (f : A -> bool) k : NoDup k -> NoDup (List.filter f k).
Proof. intros H%base.NoDup_ListNoDup. apply base.NoDup_ListNoDup. by apply List.NoDup_filter. Qed.

(** The remote transactions of the pool. *)
Definition remotes (all : gmap Hash Transaction) (local : Transaction -> bool) : list Transaction :=
  List.filter (fun tx => negb (local tx)) (map_to_list all).*2.

Lemma remotes_items all local l : tracks all l -> remotes all local ≡ₚ List.filter (remote all local) (items l).
Proof.
  intros [_ _ Hl _]. unfold remotes. rewrite <- Hl. apply reflexive_eq. clear Hl. induction (items l) as [|x k IH]; [done|]. cbn [List.filter].
  unfold remote at 1. destruct (live all x); cbn [List.filter andb]; [|done]. by rewrite IH.
Qed.
Lemma remotes_nodup (all : gmap Hash Transaction) local : map_Forall (fun h tx => hash tx = h) all -> NoDup (remotes all local).
Proof. intros Hk. apply lfilter_nodup. eapply list.NoDup_fmap_1, all_nodup, Hk. Qed.
Lemma elem_of_remotes (all : gmap Hash Transaction) local tx : map_Forall (fun h tx => hash tx = h) all ->
  tx ∈ remotes all local <-> all !! hash tx = Some tx /\ local tx = false.
Proof. intros Hk. unfold remotes. rewrite elem_of_lfilter, elem_of_all, negb_true_iff by done. done. Qed.

Lemma Discard_ok all local l count : tracks all l -> 0 <= count ->
  exists drop l' left, Discard hash all local l count = Some (drop, l') /\ tracks (without drop all) l' /\
    remotes all local ≡ₚ drop ++ left /\
    Z.of_nat (length drop) = Z.min count (Z.of_nat (length (remotes all local))) /\
    (forall a b, a ∈ drop -> b ∈ left -> GasPrice a <= GasPrice b).
Proof.
  intros Ht Hc. unfold Discard. rewrite (proj2 (Z.ltb_ge _ _)) by lia.
  destruct (discard_ok all local (length (items l)) count (items l) (stales l) [] [] (tk_heap _ _ Ht) ltac:(lia) Hc)
    as (popped & rest & -> & Hh & Hp & Hle & Hn & Hend). cbn [mbind option_bind app].
  destruct (push_all_ok rest (List.filter (kept_local all local) popped) Hh) as [Hh' Hp'].
  eexists _, _, (List.filter (remote all local) rest). split; [done|].
  assert (remotes all local ≡ₚ List.filter (remote all local) popped ++ List.filter (remote all local) rest) as Hr.
  { rewrite (remotes_items all local l Ht), Hp. apply reflexive_eq, List.filter_app. }
  split_and!; [by apply (settle all local l popped rest)|done| |].
  - rewrite (Permutation_length Hr), length_app. destruct Hend as [-> | E]; cbn [List.filter length]; lia.
  - intros a b [Ha _]%elem_of_lfilter [Hb _]%elem_of_lfilter. by apply Hle.
Qed.

(** ** Cap *)

Lemma price_cap_ok all local threshold : forall fuel its st drop save, is_heap GasPrice its -> (length its <= fuel)%nat ->
  exists popped rest its' save', cap_loop hash all local fuel threshold its st drop save =
      Some (drop ++ List.filter (remote all local) popped, save', its', st - Z.of_nat (length (List.filter (stale all) popped))) /\
    is_heap GasPrice its' /\ its ≡ₚ popped ++ rest /\ save' ++ its' ≡ₚ save ++ List.filter (kept_local all local) popped ++ rest /\
    (forall x, x ∈ popped -> live all x = true -> GasPrice x < threshold) /\ (forall x, x ∈ rest -> threshold <= GasPrice x).
Proof.
  induction fuel as [|fuel IH]; intros its st drop save Hh Hf.
  { destruct its; [|cbn in Hf; lia]. exists [], [], [], save. cbn. rewrite !app_nil_r, Z.sub_0_r. split_and!; try done; by intros ? ?%elem_of_nil. }
  destruct its as [|x k] eqn:E.
  { exists [], [], [], save. cbn. rewrite !app_nil_r, Z.sub_0_r. split_and!; try done; by intros ? ?%elem_of_nil. }
  cbn [cap_loop]. rewrite <- E in *. destruct (pop_cheap its x k Hh E) as (its1 & -> & Hh1 & Hp1 & Hm1 & Hl1). cbn [mbind option_bind].
  rewrite list.Forall_forall in Hm1. rewrite Z.geb_leb.
  assert (forall st' drop' save', (live all x = true -> GasPrice x < threshold) ->
    exists popped rest its' save'', cap_loop hash all local fuel threshold its1 st' drop' save' =
        Some (drop' ++ List.filter (remote all local) popped, save'', its', st' - Z.of_nat (length (List.filter (stale all) popped))) /\
      is_heap GasPrice its' /\ its ≡ₚ (x :: popped) ++ rest /\ save'' ++ its' ≡ₚ save' ++ List.filter (kept_local all local) popped ++ rest /\
      (forall y, y ∈ x :: popped -> live all y = true -> GasPrice y < threshold) /\ (forall y, y ∈ rest -> threshold <= GasPrice y)) as Hnext.
  { intros st' drop' save' Hx. destruct (IH its1 st' drop' save' Hh1 ltac:(lia)) as (popped & rest & its' & save'' & E1 & H1 & H2 & H3 & H4 & H5).
    exists popped, rest, its', save''. split_and!; try done; [rewrite Hp1; cbn; by f_equiv|]. intros y [->|Hy]%elem_of_cons; auto. }
  destruct (sorted_out all local x) as [(El & Elo & Hr & Hk & Hs)|[(El & Elo & Hr & Hk & Hs)|(El & Hr & Hk & Hs)]];
    rewrite El; cbn [negb]; [destruct (Z.leb_spec threshold (GasPrice x)) as [Hge|Hlt]..|].
  1,3: exists [], (x :: its1), its1, (save ++ [x]); cbn; rewrite app_nil_r, Z.sub_0_r, <- app_assoc; split_and!; try done;
    [by intros ? ?%elem_of_nil|intros y [->|Hy]%elem_of_cons; [done|specialize (Hm1 _ Hy); lia]].
  - rewrite Elo. destruct (Hnext st drop (save ++ [x]) ltac:(done)) as (popped & rest & its' & save' & -> & H1 & H2 & H3 & H4 & H5).
    exists (x :: popped), rest, its', save'. cbn [List.filter]. rewrite Hr, Hk, Hs. split_and!; try done. by rewrite H3, <- app_assoc.
  - rewrite Elo. destruct (Hnext st (drop ++ [x]) save ltac:(done)) as (popped & rest & its' & save' & -> & H).
    exists (x :: popped), rest, its', save'. cbn [List.filter]. rewrite Hr, Hk, Hs. by rewrite <- app_assoc.
  - destruct (Hnext (st - 1) drop save ltac:(by rewrite El)) as (popped & rest & its' & save' & -> & H).
    exists (x :: popped), rest, its', save'. cbn [List.filter]. rewrite Hr, Hk, Hs. split; [|done]. cbn [length]. do 2 f_equal. lia.
Qed.

Lemma PricedCap_ok all local l threshold : tracks all l ->
  exists drop l', Cap hash all local l threshold = Some (drop, l') /\ tracks (without drop all) l' /\
    drop ≡ₚ List.filter (fun tx => GasPrice tx <? threshold) (remotes all local).
Proof.
  intros Ht. unfold Cap. destruct (price_cap_ok all local threshold (length (items l)) (items l) (stales l) [] [] (tk_heap _ _ Ht) ltac:(lia))
    as (popped & rest & its' & save' & -> & Hh & Hp & Hs & Hlt & Hge). cbn [mbind option_bind app].
  destruct (push_all_ok its' save' Hh) as [Hh' Hp']. eexists _, _. split; [done|].
  split; [apply (settle all local l popped rest); [done..|]; by rewrite Hp', Hs|].
  rewrite (remotes_items all local l Ht), Hp, !List.filter_app.
  rewrite (lfilter_all _ (List.filter (remote all local) popped)), (lfilter_nil _ (List.filter (remote all local) rest)); [by rewrite app_nil_r| |].
  - intros x [Hx _]%elem_of_lfilter. specialize (Hge _ Hx). by apply Z.ltb_ge.
  - intros x [Hx Hr]%elem_of_lfilter. apply Z.ltb_lt, Hlt; [done|]. unfold remote in Hr. by apply andb_true_iff in Hr as [-> _].
Qed.

(** ** Underpriced *)

Lemma underpriced_ok all : forall fuel its st, is_heap GasPrice its -> (length its <= fuel)%nat ->
  exists popped its', underpriced_loop hash all fuel its st = Some (its', st - Z.of_nat (length (List.filter (stale all) popped))) /\
    is_heap GasPrice its' /\ its ≡ₚ popped ++ its' /\ (forall x, x ∈ popped -> live all x = false) /\
    (forall x k, its' = x :: k -> live all x = true).
Proof.
  induction fuel as [|fuel IH]; intros its st Hh Hf.
  { destruct its; [|cbn in Hf; lia]. exists [], []. cbn. rewrite Z.sub_0_r. split_and!; try done. by intros ? ?%elem_of_nil. }
  destruct its as [|x k] eqn:E. { exists [], []. cbn. rewrite Z.sub_0_r. split_and!; try done. by intros ? ?%elem_of_nil. }
  cbn [underpriced_loop]. rewrite <- E in *. destruct (live all x) eqn:El; cbn [negb].
  - exists [], its. cbn. rewrite Z.sub_0_r. split_and!; try done; [by intros ? ?%elem_of_nil|]. rewrite E. by intros ? ? [= <- <-].
  - destruct (pop_cheap its x k Hh E) as (its1 & -> & Hh1 & Hp1 & _ & Hl1). cbn [mbind option_bind].
    destruct (IH its1 (st - 1) Hh1 ltac:(lia)) as (popped & its' & -> & H1 & H2 & H3 & H4). exists (x :: popped), its'.
    cbn [List.filter]. unfold stale at 2. rewrite El. cbn [negb length]. split_and!; try done; [do 2 f_equal; lia|rewrite Hp1; cbn; by f_equiv|].
    intros y [->|Hy]%elem_of_cons; auto.
Qed.

(** Underpriced compares with the cheapest transaction of the pool, local ones
    included; of an empty pool it says no. *)
Lemma Underpriced_ok all local l tx : tracks all l ->
  exists b l', Underpriced hash all local l tx = Some (b, l') /\ tracks all l' /\
    (b = true <-> local tx = false /\ all <> ∅ /\ map_Forall (fun _ t => GasPrice tx <= GasPrice t) all).
Proof.
  intros Ht. unfold Underpriced. destruct (local tx) eqn:Elo; [exists false, l; split_and!; try done; naive_solver|].
  destruct (underpriced_ok all (length (items l)) (items l) (stales l) (tk_heap _ _ Ht) ltac:(lia)) as (popped & its & -> & Hh & Hp & Hst & Hlive).
  cbn [mbind option_bind]. eexists _, _. split; [done|].
  assert (tracks all (mkPriced its (stales l - Z.of_nat (length (List.filter (stale all) popped))))) as Ht'.
  { assert (forall f, List.filter (fun x => live all x && f x) popped = []) as Hnone by (intros f; apply lfilter_nil; intros x Hx; by rewrite Hst).
    pose proof (settle all (fun _ => false) l popped its its Ht Hp Hh) as Hset. unfold remote, kept_local in Hset.
    rewrite !Hnone in Hset. by apply Hset. }
  split; [done|]. destruct its as [|x k] eqn:Ei.
  - split; [done|]. intros (_ & Hne & _). destruct Hne. apply map_to_list_empty_iff. apply (f_equal length) in Ei. destruct Ht' as [_ _ Hl _].
    cbn in Hl. apply Permutation_nil_l in Hl. by destruct (map_to_list all).
  - rewrite Z.geb_leb, Z.leb_le. rewrite <- Ei in *. specialize (Hlive _ _ Ei).
    assert (all !! hash x = Some x) as Hx. { apply (tracks_item _ _ _ Ht'). cbn. rewrite Ei. split; [apply elem_of_cons; by left|done]. }
    split.
    + intros Hle. split_and!; [done|by intros ->|]. intros h t Hlt. rewrite <- (tk_keys _ _ Ht' _ _ Hlt) in Hlt.
      apply (tracks_item _ _ _ Ht') in Hlt as [Hin _]. etrans; [exact Hle|]. apply (is_heap_min GasPrice its); [done|by rewrite Ei|done].
    + intros (_ & _ & Hall). by apply (Hall _ _ Hx).
Qed.

(** ** Put and Removed *)

Lemma new_tracks : tracks ∅ newTxPricedList.
Proof. by constructor. Qed.

(** A transaction that enters the pool enters the list, if no stale item bears
    its hash. *)
Lemma PricedPut_ok all l tx : tracks all l -> hash tx ∉ hash <$> items l -> tracks (<[hash tx := tx]> all) (Put l tx).
Proof.
  clear range_perm range. intros Ht Hf. destruct Ht as [Hk Hh Hl Hs] eqn:E. clear E.
  assert (all !! hash tx = None) as Hnew.
  { destruct (all !! hash tx) as [t|] eqn:Et; [|done]. destruct Hf. pose proof (Hk _ _ Et) as Eh. rewrite <- Eh in Et.
    apply (tracks_item _ _ _ Ht) in Et as [Hin _]. rewrite <- Eh. by apply list_elem_of_fmap_2. }
  assert (live (<[hash tx := tx]> all) tx = true) as Hself by (apply bool_decide_true; set_solver).
  assert (forall x, x ∈ items l -> live (<[hash tx := tx]> all) x = live all x) as Hothers.
  { intros x Hx. apply bool_decide_ext. rewrite dom_insert, elem_of_union, elem_of_singleton. split; [intros [Eh|?]; [|done]|auto].
    destruct Hf. rewrite <- Eh. by apply list_elem_of_fmap_2. }
  constructor; cbn [Put items stales].
  - apply map_Forall_insert_2; done.
  - by apply (Push_ok less_cheap GasPrice _ less_cheap_key); [apply any|].
  - rewrite Push_perm, map_to_list_insert by done. cbn [List.filter fmap list_fmap snd]. rewrite Hself, <- Hl. f_equiv.
    apply reflexive_eq, lfilter_same, Hothers.
  - rewrite (Permutation_length (lfilter_perm _ _ _ (Push_perm less_cheap _ _))). cbn [List.filter]. rewrite Hself. cbn [negb].
    rewrite (lfilter_same _ (fun x => negb (live all x))); [done|]. intros x Hx. by rewrite Hothers.
Qed.

(** Removed takes the list and the pool it has fallen behind by one, and leaves at
    most a quarter of the items stale. *)
Lemma Removed_ok all l : map_Forall (fun h tx => hash tx = h) all -> is_heap GasPrice (items l) ->
  List.filter (live all) (items l) ≡ₚ (map_to_list all).*2 ->
  Z.of_nat (length (List.filter (stale all) (items l))) <= stales l + 1 ->
  tracks all (Removed range all l) /\ 4 * Z.of_nat (length (List.filter (stale all) (items (Removed range all l)))) <= Z.of_nat (length (items (Removed range all l))).
Proof.
  intros Hk Hh Hl Hs. unfold Removed. destruct (Z.leb_spec (stales l + 1) (Z.of_nat (length (items l)) / 4)) as [Hle|Hgt].
  - split; [by constructor|]. cbn [items]. pose proof (Z.mul_div_le (Z.of_nat (length (items l))) 4). lia.
  - assert (Heap.Init less_cheap (range all).*2 ≡ₚ (map_to_list all).*2) as Hp by (rewrite Init_perm; by rewrite range_perm).
    assert (forall x, x ∈ (map_to_list all).*2 -> live all x = true) as Hlive.
    { intros x Hx%elem_of_all; [|done]. apply bool_decide_true, elem_of_dom. by eexists. }
    assert (length (List.filter (stale all) (Heap.Init less_cheap (range all).*2)) = 0%nat) as Hz.
    { rewrite (Permutation_length (lfilter_perm _ _ _ Hp)), lfilter_nil; [done|]. intros x Hx. unfold stale. by rewrite Hlive. }
    split; cbn [items].
    + constructor; cbn [items stales]; [done| | |].
      * apply (Init_ok less_cheap GasPrice _ less_cheap_key), any.
      * rewrite Hp. apply reflexive_eq, lfilter_all, Hlive.
      * unfold stale in Hz. by rewrite Hz.
    + rewrite Hz. lia.
Qed.

(** A transaction taken out of the pool is one such step behind. *)
Lemma tracks_delete all l tx : tracks all l -> all !! hash tx = Some tx ->
  tracks (base.delete (hash tx) all) (Removed range (base.delete (hash tx) all) l).
Proof.
  intros [Hk Hh Hl Hs] Ht. set (all' := base.delete (hash tx) all).
  assert (map_Forall (fun h tx => hash tx = h) all') as Hk' by (by apply map_Forall_delete).
  assert (List.filter (live all') (items l) ≡ₚ (map_to_list all').*2) as Hl'.
  { assert (List.filter (live all') (items l) = List.filter (fun x => negb (bool_decide (hash x = hash tx))) (List.filter (live all) (items l))) as ->.
    { clear Hl Hs Hh. induction (items l) as [|x k IH]; [done|]. cbn [List.filter]. rewrite IH.
      assert (live all' x = live all x && negb (bool_decide (hash x = hash tx))) as ->.
      { unfold Priced.live. rewrite <- bool_decide_not, <- bool_decide_and. apply bool_decide_ext. unfold all'. set_solver. }
      by destruct (live all x) eqn:E; cbn [List.filter andb]. }
    rewrite Hl, <- (map_to_list_delete _ _ _ Ht). cbn [fmap list_fmap snd List.filter]. rewrite bool_decide_true by done. cbn [negb].
    apply reflexive_eq, lfilter_all. intros x Hx%elem_of_all; [|done]. apply negb_true_iff, bool_decide_false. intros E.
    rewrite E in Hx. unfold all' in Hx. by rewrite lookup_delete_eq in Hx. }
  apply Removed_ok; try done. pose proof (lfilter_split (live all') (items l)) as H1. pose proof (lfilter_split (live all) (items l)) as H2.
  rewrite (Permutation_length Hl'), length_fmap in H1. rewrite (Permutation_length Hl), length_fmap in H2.
  rewrite <- (Permutation_length (map_to_list_delete _ _ _ Ht)) in H2. cbn [length] in H2. unfold stale, all' in *. lia.
Qed.

(** And one that the list itself gave out is not in its way. *)
Lemma tracks_removed all l : tracks all l -> tracks all (Removed range all l).
Proof. intros [Hk Hh Hl Hs]. apply Removed_ok; try done. unfold stale. lia. Qed.
End Spec.
