(* ===== verification/TxByPrice.v ===== *)
(** The order in which a miner takes the transactions of the pool:
    TransactionsByPriceAndNonce of core/types/transaction.go.

    The signer recovers the sender of a transaction from its signature; it is a
    parameter, and so is the order in which Go iterates over a map.  [None] is a
    panic: an index out of range. *)

From S2P Require Import Prelude BigMath GoHeap TxTypes TxListSpec TxListRefine.
Import Big Common Tx.

Local Open Scope Z_scope.

Module ByPrice.
Record TransactionsByPriceAndNonce := mkByPrice {
  txs : gmap Address (list Transaction);
  heads : list Transaction;
}.

Section Ops.
Context (Sender : Transaction -> option Address).

(** The error of Sender is ignored; the address is then zero. *)
Definition sender_of (tx : Transaction) : Address := default (bits_of 160 0) (Sender tx).

(** The lists are read from the map as it is when they are reached. *)
Fixpoint heads_loop (l : list (Address * list Transaction)) (txs : gmap Address (list Transaction)) (heads : list Transaction) :
    option (gmap Address (list Transaction) * list Transaction) :=
  match l with
  | [] => Some (txs, heads)
  | (a, _) :: l =>
      accTxs ← txs !! a;
      match accTxs with
      | [] => None
      | tx :: rest => heads_loop l (<[sender_of tx := rest]> txs) (heads ++ [tx])
      end
  end.
Definition NewTransactionsByPriceAndNonce (range : gmap Address (list Transaction) -> list (Address * list Transaction))
    (txs : gmap Address (list Transaction)) : option TransactionsByPriceAndNonce :=
  '(txs, heads) ← heads_loop (range txs) txs [];
  Some (mkByPrice txs (Heap.Init less_price heads)).

Definition Peek (t : TransactionsByPriceAndNonce) : option Transaction := head (heads t).

Definition Pop (t : TransactionsByPriceAndNonce) : option TransactionsByPriceAndNonce :=
  '(_, heads) ← Heap.Pop less_price (heads t); Some (mkByPrice (txs t) heads).

Definition Shift (t : TransactionsByPriceAndNonce) : option TransactionsByPriceAndNonce :=
  match heads t with
  | [] => None
  | tx :: others =>
      let acc := sender_of tx in
      match txs t !! acc with
      | Some (next :: rest) => Some (mkByPrice (<[acc := rest]> (txs t)) (Heap.Fix less_price (next :: others) 0))
      | _ => Pop t
      end
  end.

(** The loop over the set: a transaction that is kept is followed by the next of
    its account, one that is not is the last of its account. *)
Fixpoint drain (keep : Transaction -> bool) (fuel : nat) (t : TransactionsByPriceAndNonce) : option (list Transaction) :=
  match Peek t, fuel with
  | None, _ => Some []
  | Some _, O => None
  | Some tx, S fuel =>
      if keep tx then t ← Shift t; out ← drain keep fuel t; Some (tx :: out)
      else t ← Pop t; drain keep fuel t
  end.
End Ops.
End ByPrice.
Import ByPrice.

(** * What the set promises *)

(** The queues of the accounts, none of them empty. *)
Abbreviation queues := (gmap Address (list Transaction)).

Definition advance (a : Address) (q : queues) : queues :=
  match q !! a with
  | Some (_ :: (_ :: _) as rest) => <[a := rest]> q
  | _ => base.delete a q
  end.
Definition first_of (p : Address * list Transaction) : list Transaction := take 1 p.2.
Definition firsts (q : queues) : list Transaction := map_to_list q ≫= first_of.
Definition total (q : queues) : nat := sum_list (length <$> (map_to_list q).*2).

(** A merge of the queues takes the dearest of their first transactions. *)
Inductive merges (keep : Transaction -> bool) : queues -> list Transaction -> Prop :=
  | merges_done : merges keep ∅ []
  | merges_keep q a tx rest out : q !! a = Some (tx :: rest) -> Forall (fun t => GasPrice t <= GasPrice tx) (firsts q) -> keep tx = true ->
      merges keep (advance a q) out -> merges keep q (tx :: out)
  | merges_skip q a tx rest out : q !! a = Some (tx :: rest) -> Forall (fun t => GasPrice t <= GasPrice tx) (firsts q) -> keep tx = false ->
      merges keep (base.delete a q) out -> merges keep q out.

Section Spec.
Context (Sender : Transaction -> option Address) (pos : bool).
Abbreviation sender_of := (sender_of Sender).

(** Only transactions for the protocol, or none of them. *)
Definition of_kind (tx : Transaction) : Prop := (Txtype tx =? POS_TX) = pos.
Definition dearness (tx : Transaction) : Z := - GasPrice tx.

Lemma less_price_key a b : of_kind a -> of_kind b -> less_price a b = (dearness a <? dearness b).
Proof.
  unfold of_kind, less_price, dearness. intros -> ->. destruct pos; cbn [negb andb]; destruct (Z.gtb_spec (GasPrice a) (GasPrice b)); lia.
Qed.

Definition well_queued (q : queues) : Prop := map_Forall (fun a l => l <> [] /\ Forall (fun tx => sender_of tx = a /\ of_kind tx) l) q.

Record serves (t : TransactionsByPriceAndNonce) (q : queues) : Prop := {
  sv_heads : heads t ≡ₚ firsts q;
  sv_heap : is_heap dearness (heads t);
  sv_rest : forall a tx rest, q !! a = Some (tx :: rest) -> txs t !! a = Some rest;
  sv_queued : well_queued q;
}.

Lemma elem_of_firsts (q : queues) tx : tx ∈ firsts q <-> exists a rest, q !! a = Some (tx :: rest).
Proof.
  unfold firsts. rewrite list_elem_of_bind. split.
  - intros ([a l] & Ht & Hl%elem_of_map_to_list). unfold first_of in Ht. cbn in Ht. destruct l as [|t l]; [by apply elem_of_nil in Ht|].
    cbn in Ht. apply list_elem_of_singleton in Ht as ->. by exists a, l.
  - intros (a & rest & H). exists (a, tx :: rest). split; [|by apply elem_of_map_to_list]. cbn. by apply list_elem_of_singleton.
Qed.
Lemma firsts_delete (q : queues) a tx rest : q !! a = Some (tx :: rest) -> firsts q ≡ₚ tx :: firsts (base.delete a q).
Proof. intros H. unfold firsts. by rewrite <- (map_to_list_delete _ _ _ H). Qed.
Lemma firsts_insert (q : queues) a tx rest : firsts (<[a := tx :: rest]> q) ≡ₚ tx :: firsts (base.delete a q).
Proof. rewrite (firsts_delete _ a tx rest) by apply lookup_insert_eq. by rewrite delete_insert_eq. Qed.

Lemma firsts_kind (q : queues) : well_queued q -> Forall of_kind (firsts q).
Proof.
  intros Hq. rewrite list.Forall_forall. intros tx (a & rest & H)%elem_of_firsts. apply Hq in H as [_ F]. by apply Forall_cons_iff in F as [[_ ?] _].
Qed.

(** The first head is the dearest of the first transactions. *)
Lemma serves_head t q tx others : serves t q -> heads t = tx :: others ->
  exists rest, q !! sender_of tx = Some (tx :: rest) /\ Forall (fun t => GasPrice t <= GasPrice tx) (firsts q) /\ others ≡ₚ firsts (base.delete (sender_of tx) q).
Proof.
  intros [Hh Hheap _ Hq] E. assert (tx ∈ firsts q) as (a & rest & H)%elem_of_firsts by (rewrite <- Hh, E; by left).
  pose proof (Hq _ _ H) as [_ F]. apply Forall_cons_iff in F as [[<- _] _]. exists rest. split_and!; [done| |].
  - rewrite list.Forall_forall. intros t' Ht. rewrite <- Hh in Ht. pose proof (is_heap_min dearness (heads t) tx t' Hheap) as Hm.
    rewrite E in Hm at 1. specialize (Hm eq_refl Ht). unfold dearness in Hm. lia.
  - apply (Permutation_cons_inv (a := tx)). rewrite <- E, Hh. by apply firsts_delete in H.
Qed.

Lemma well_queued_delete q a : well_queued q -> well_queued (base.delete a q).
Proof. apply map_Forall_delete. Qed.

Lemma Pop_serves t q tx others : serves t q -> heads t = tx :: others ->
  exists t', Pop t = Some t' /\ serves t' (base.delete (sender_of tx) q).
Proof.
  intros Hs E. destruct (serves_head t q tx others Hs E) as (rest & H & Hmax & Ho). destruct Hs as [Hh Hheap Hr Hq]. unfold Pop.
  destruct (Pop_ok less_price dearness of_kind less_price_key (heads t) tx) as (h' & -> & Hh' & Hp & _); [by rewrite Hh; apply firsts_kind|done|by rewrite E|].
  cbn [mbind option_bind]. eexists. split; [done|]. constructor; cbn [heads txs]; [|done| |by apply well_queued_delete].
  - apply (Permutation_cons_inv (a := tx)). rewrite <- Hp, Hh. by apply firsts_delete in H.
  - intros a' tx' rest' [_ H']%lookup_delete_Some. by eapply Hr.
Qed.
Lemma Shift_serves t q tx others : serves t q -> heads t = tx :: others ->
  exists t', Shift Sender t = Some t' /\ serves t' (advance (sender_of tx) q).
Proof.
  intros Hs E. destruct (serves_head t q tx others Hs E) as (rest & H & Hmax & Ho). unfold Shift, advance. rewrite E, H, (sv_rest _ _ Hs _ _ _ H).
  destruct rest as [|next rest]; [by apply (Pop_serves t q tx others)|]. destruct Hs as [Hh Hheap Hr Hq].
  pose proof (Hq _ _ H) as [_ F]. apply Forall_cons_iff in F as [_ F].
  assert (well_queued (<[sender_of tx := next :: rest]> q)) as Hq' by (by apply map_Forall_insert_2).
  eexists. split; [done|]. constructor; cbn [heads txs]; [| | |done].
  - unfold Heap.Fix. rewrite fix_perm, firsts_insert. by f_equiv.
  - unfold is_heap, Heap.Fix. rewrite (Permutation_length (fix_perm less_price _ _ _)).
    apply (fix_ok less_price dearness of_kind less_price_key).
    + rewrite Ho, <- firsts_insert. by apply firsts_kind.
    + done.
    + cbn. lia.
    + intros x Hx Hne Hp. rewrite E in Hheap. specialize (Hheap x Hx ltac:(lia)). destruct x as [|x]; [done|].
      destruct (Heap.par (S x)) as [|p] eqn:Ep; [done|]. done.
    + lia.
  - intros a' tx' rest' H'. destruct (decide (a' = sender_of tx)) as [->|Hne].
    + rewrite lookup_insert_eq in *. congruence.
    + rewrite lookup_insert_ne in * by done. by eapply Hr.
Qed.

(** The set starts with the first transaction of every account. *)
Lemma heads_ok : forall l m hs, NoDup l.*1 ->
  (forall a k, (a, k) ∈ l -> m !! a = Some k /\ k <> [] /\ Forall (fun tx => sender_of tx = a) k) ->
  exists m', heads_loop Sender l m hs = Some (m', hs ++ (l ≫= first_of)) /\
    (forall a k, (a, k) ∈ l -> m' !! a = Some (tail k)) /\ (forall a, a ∉ l.*1 -> m' !! a = m !! a).
Proof.
  induction l as [|[a k] l IH]; intros m hs Hn H; cbn [heads_loop].
  { exists m. cbn. rewrite app_nil_r. split_and!; try done. by intros ?? ?%elem_of_nil. }
  apply list.NoDup_cons in Hn as [Ha Hn]. destruct (H a k) as (E & Hk & F); [by left|]. rewrite E. cbn [mbind option_bind].
  destruct k as [|tx rest]; [done|]. apply Forall_cons_iff in F as [-> F].
  assert (forall a' k', (a', k') ∈ l -> a' <> a) as Hother. { intros a' k' Hin ->. apply Ha. by apply (list_elem_of_fmap_2 fst) in Hin. }
  destruct (IH (<[a := rest]> m) (hs ++ [tx]) Hn) as (m' & -> & H1 & H2).
  { intros a' k' Hin. rewrite lookup_insert_ne by (symmetry; by eapply Hother). apply H. by right. }
  exists m'. split_and!; [cbn; by rewrite <- app_assoc| |].
  - intros a' k' [[= -> ->]|Hin]%elem_of_cons; [|by apply H1]. rewrite (H2 a Ha). apply lookup_insert_eq.
  - intros a' Hna. rewrite fmap_cons, not_elem_of_cons in Hna. destruct Hna as [Hne Hna]. rewrite (H2 a' Hna). by apply lookup_insert_ne.
Qed.
Lemma New_serves range (q : queues) : (forall m, range m ≡ₚ map_to_list m) -> well_queued q ->
  exists t, NewTransactionsByPriceAndNonce Sender range q = Some t /\ serves t q.
Proof.
  intros Hrange Hq. unfold NewTransactionsByPriceAndNonce.
  destruct (heads_ok (range q) q []) as (m' & -> & H1 & _).
  - rewrite Hrange. apply NoDup_fst_map_to_list.
  - intros a k Hin. rewrite Hrange in Hin. apply elem_of_map_to_list in Hin. destruct (Hq _ _ Hin) as [Hk F]. split_and!; try done.
    eapply list.Forall_impl; [exact F|]. by intros ? [].
  - cbn [mbind option_bind app]. eexists. split; [done|].
    assert (Heap.Init less_price (range q ≫= first_of) ≡ₚ firsts q) as Hp by (rewrite Init_perm; unfold firsts; by rewrite Hrange).
    constructor; cbn [heads txs]; [done| | |done].
    + apply (Init_ok less_price dearness of_kind less_price_key). rewrite <- (Init_perm less_price), Hp. by apply firsts_kind.
    + intros a tx rest H. apply (H1 a (tx :: rest)). rewrite Hrange. by apply elem_of_map_to_list.
Qed.

(** Every turn of the loop takes a transaction from a queue. *)
Lemma total_delete (q : queues) a l : q !! a = Some l -> total q = (length l + total (base.delete a q))%nat.
Proof. intros H. unfold total. by rewrite <- (map_to_list_delete _ _ _ H). Qed.
Lemma total_advance (q : queues) a tx rest : q !! a = Some (tx :: rest) -> (total (advance a q) < total q)%nat.
Proof.
  intros H. unfold advance. rewrite H, (total_delete q a _ H). cbn [length]. destruct rest as [|next rest]; [cbn; lia|].
  rewrite (total_delete _ a (next :: rest)) by apply lookup_insert_eq. rewrite delete_insert_eq. cbn. lia.
Qed.
Lemma firsts_nil (q : queues) : well_queued q -> firsts q = [] -> q = ∅.
Proof.
  intros Hq H. apply map_empty. intros a. apply eq_None_not_Some. intros [l E]. destruct (Hq _ _ E) as [Hl _]. destruct l as [|tx l]; [done|].
  assert (tx ∈ firsts q) as Hin by (apply elem_of_firsts; by exists a, l). rewrite H in Hin. by apply elem_of_nil in Hin.
Qed.

Lemma drain_ok keep : forall n t q, serves t q -> (total q <= n)%nat -> exists out, drain Sender keep n t = Some out /\ merges keep q out.
Proof.
  induction n as [|n IH]; intros t q Hs Hn; cbn [drain]; unfold Peek; (destruct (heads t) as [|tx others] eqn:E; cbn [head];
    [assert (q = ∅) as -> by (destruct Hs as [Hh _ _ Hq]; apply firsts_nil; [done|]; rewrite E in Hh; by apply Permutation_nil_l in Hh);
     exists []; split; [done|constructor]|]); destruct (serves_head t q tx others Hs E) as (rest & H & Hmax & _).
  { pose proof (total_delete q _ _ H). cbn in *. lia. }
  destruct (keep tx) eqn:Ek.
  - destruct (Shift_serves t q tx others Hs E) as (t' & -> & Hs'). cbn [mbind option_bind].
    destruct (IH t' _ Hs') as (out & -> & Hm); [pose proof (total_advance q _ _ _ H); lia|]. exists (tx :: out). split; [done|]. by eapply merges_keep.
  - destruct (Pop_serves t q tx others Hs E) as (t' & -> & Hs'). cbn [mbind option_bind].
    destruct (IH t' _ Hs') as (out & -> & Hm); [pose proof (total_delete q _ _ H); cbn in *; lia|]. exists out. split; [done|]. by eapply merges_skip.
Qed.

(** A merge keeps the order of every account, up to its first transaction that is
    not kept. *)
Lemma queue_advance (q : queues) a tx rest a' : q !! a = Some (tx :: rest) ->
  default [] (advance a q !! a') = if decide (a' = a) then rest else default [] (q !! a').
Proof.
  intros H. unfold advance. rewrite H. destruct rest as [|next rest], (decide (a' = a)) as [->|Hne];
    rewrite ?lookup_delete_eq, ?lookup_insert_eq, ?lookup_delete_ne, ?lookup_insert_ne by done; done.
Qed.
Lemma well_queued_advance (q : queues) a tx rest : q !! a = Some (tx :: rest) -> well_queued q -> well_queued (advance a q).
Proof.
  intros H Hq. unfold advance. rewrite H. destruct rest as [|next rest]; [by apply well_queued_delete|].
  apply map_Forall_insert_2; [|done]. destruct (Hq _ _ H) as [_ F]. apply Forall_cons_iff in F as [_ F]. done.
Qed.
Lemma merges_order keep q out : merges keep q out -> well_queued q ->
  forall a, List.filter (fun tx => bool_decide (sender_of tx = a)) out = before (fun tx => negb (keep tx)) (default [] (q !! a)).
Proof.
  induction 1 as [|q a0 tx rest out H Hmax Hk Hm IH|q a0 tx rest out H Hmax Hk Hm IH]; intros Hq a; [done|..].
  all: assert (sender_of tx = a0) as Hs by (destruct (Hq _ _ H) as [_ F]; by apply Forall_cons_iff in F as [[? _] _]).
  - specialize (IH (well_queued_advance q a0 tx rest H Hq) a). rewrite (queue_advance q a0 tx rest a H) in IH. cbn [List.filter]. rewrite IH, Hs.
    case_bool_decide as Ea; destruct (decide (a = a0)) as [->|Hne]; try done. rewrite H. cbn. by rewrite Hk.
  - rewrite (IH (well_queued_delete q a0 Hq) a). destruct (decide (a = a0)) as [->|Hne].
    + rewrite lookup_delete_eq, H. cbn. by rewrite Hk.
    + by rewrite lookup_delete_ne.
Qed.
End Spec.
