(* ===== verification/Encoding.v ===== *)
(** Text encodings the privacy contracts parse: encoding/hex, strings.Split and
    big.Int.String of Go's library, common/bytes.go, common/hexutil, and the
    encodings of points of crypto/crypto.go and accounts/keystore/key.go.

    A Go string is the list of its bytes. *)

From S2P Require Import Prelude BigMath.
From Stdlib.Strings Require String.
Export String.StringSyntax.
Delimit Scope string_scope with string.
Import Big GoMath Common.

Abbreviation str s := (String.list_byte_of_string s%string).

(** * encoding/hex *)
Module Hex.
Inductive error := InvalidByteError (b : byte) | ErrLength.

Definition hextable : list byte := str "0123456789abcdef".

Definition fromHexChar (c : byte) : option Z :=
  let c := byte_Z c in
  if (byte_Z "0" <=? c) && (c <=? byte_Z "9") then Some (c - byte_Z "0")
  else if (byte_Z "a" <=? c) && (c <=? byte_Z "f") then Some (c - byte_Z "a" + 10)
  else if (byte_Z "A" <=? c) && (c <=? byte_Z "F") then Some (c - byte_Z "A" + 10)
  else None.

(** The bytes decoded before the first error, and the error. *)
Fixpoint DecodeString (src : list byte) : list byte * option error :=
  match src with
  | [] => ([], None)
  | [a] => match fromHexChar a with
           | None => ([], Some (InvalidByteError a))
           | Some _ => ([], Some ErrLength)
           end
  | a :: b :: rest =>
      match fromHexChar a with
      | None => ([], Some (InvalidByteError a))
      | Some x =>
          match fromHexChar b with
          | None => ([], Some (InvalidByteError b))
          | Some y => let '(l, err) := DecodeString rest in (Z_byte (x * 16 + y) :: l, err)
          end
      end
  end.

Definition nibble (x : Z) : byte := default x00 (index hextable (x mod 16)).
Definition Encode (src : list byte) : list byte :=
  flat_map (fun b => [nibble (byte_Z b / 16); nibble (byte_Z b)]) src.

Lemma fromHexChar_nibble x : fromHexChar (nibble x) = Some (x mod 16).
Proof.
  assert (Forall (fun n => fromHexChar (nibble n) = Some n) (seqZ 0 16)) as Hall.
  { repeat constructor. }
  rewrite Forall_seqZ in Hall. pose proof (Z.mod_pos_bound x 16 ltac:(lia)).
  rewrite <- Hall by lia. unfold nibble. by rewrite Zmod_mod.
Qed.

Lemma DecodeString_Encode l : DecodeString (Encode l) = (l, None).
Proof.
  induction l as [|b l IH]; [done|]. cbn [Encode flat_map app]. fold (Encode l).
  cbn [DecodeString]. rewrite !fromHexChar_nibble, IH. do 2 f_equal. apply byte_Z_inj.
  pose proof (byte_Z_range b). rewrite byte_Z_Z_byte. zlia.
Qed.
End Hex.

(** * common/bytes.go and common/types.go *)

Definition Hex2Bytes (s : list byte) : list byte := (Hex.DecodeString s).1.

Definition FromHex (s : list byte) : list byte :=
  if len s >? 1 then
    let s := if bool_decide (take 2 s = str "0x") || bool_decide (take 2 s = str "0X")
             then drop 2 s else s in
    let s := if len s mod 2 =? 1 then str "0" ++ s else s in
    Hex2Bytes s
  else [].

Definition HexToAddress (s : list byte) : Address := BytesToAddress (FromHex s).

(** * common/hexutil/hexutil.go *)
Module Hexutil.
Inductive decError :=
| ErrEmptyString
| ErrSyntax
| ErrMissingPrefix
| ErrOddLength
| ErrEmptyNumber
| ErrLeadingZero
| ErrBig256Range.

Definition Has0xPrefix (input : list byte) : bool :=
  match input with
  | a :: b :: _ => bool_decide (a = "0"%byte) && (bool_decide (b = "x"%byte) || bool_decide (b = "X"%byte))
  | _ => false
  end.

(** The errors of encoding/hex. *)
Definition mapError (err : Hex.error) : decError :=
  match err with Hex.InvalidByteError _ => ErrSyntax | Hex.ErrLength => ErrOddLength end.

Definition Decode (input : list byte) : list byte * option decError :=
  if len input =? 0 then ([], Some ErrEmptyString)
  else if negb (Has0xPrefix input) then ([], Some ErrMissingPrefix)
  else let '(b, err) := Hex.DecodeString (drop 2 input) in (b, mapError <$> err).

Definition Encode (b : list byte) : list byte := str "0x" ++ Hex.Encode b.

Definition checkNumber (input : list byte) : list byte + decError :=
  if len input =? 0 then inr ErrEmptyString
  else if negb (Has0xPrefix input) then inr ErrMissingPrefix
  else
    let input := drop 2 input in
    if len input =? 0 then inr ErrEmptyNumber
    else if (len input >? 1) && bool_decide (head input = Some "0"%byte) then inr ErrLeadingZero
    else inl input.

(** [None] is badNibble. *)
Definition decodeNibble (c : byte) : option Z :=
  let c := byte_Z c in
  if (byte_Z "0" <=? c) && (c <=? byte_Z "9") then Some (c - byte_Z "0")
  else if (byte_Z "A" <=? c) && (c <=? byte_Z "F") then Some (c - byte_Z "A" + 10)
  else if (byte_Z "a" <=? c) && (c <=? byte_Z "f") then Some (c - byte_Z "a" + 10)
  else None.

Definition bigWordNibbles : nat := 16.

(** The inner loop of DecodeBig: one word from at most sixteen digits. *)
Fixpoint decodeWord (raw : list byte) (word : Z) : option Z :=
  match raw with
  | [] => Some word
  | c :: raw => nib ← decodeNibble c; decodeWord raw (u64 (u64 (word * 16) + nib))
  end.

(** The outer loop: the words from the least significant one. *)
Fixpoint decodeWords (n : nat) (raw : list byte) (end_ : nat) : option (list Z) :=
  match n with
  | O => Some []
  | S n =>
      let start := (end_ - bigWordNibbles)%nat in
      w ← decodeWord (take (end_ - start) (drop start raw)) 0;
      ws ← decodeWords n raw start;
      Some (w :: ws)
  end.

Definition DecodeBig (input : list byte) : Z + decError :=
  match checkNumber input with
  | inr err => inr err
  | inl raw =>
      if len raw >? 64 then inr ErrBig256Range
      else
        match decodeWords (length raw / bigWordNibbles + 1) raw (length raw) with
        | None => inr ErrSyntax
        | Some words => inl (words_val words)
        end
  end.
End Hexutil.

(** * big.Int.String *)

Fixpoint decimal (fuel : nat) (x : Z) : list byte :=
  match fuel with
  | O => []
  | S n => (if x <? 10 then [] else decimal n (x / 10)) ++ [Z_byte (byte_Z "0" + x mod 10)]
  end.
Definition big_String (x : Z) : list byte :=
  (if x <? 0 then str "-" else []) ++ decimal (Z.to_nat (BitLen x) + 1) (Z.abs x).

(** * strings.Split by a separator of one byte *)
Module Strings.
Fixpoint Split (sep : byte) (s : list byte) : list (list byte) :=
  match s with
  | [] => [[]]
  | c :: s =>
      if bool_decide (c = sep) then [] :: Split sep s
      else match Split sep s with
           | [] => [[c]]
           | w :: ws => (c :: w) :: ws
           end
  end.
End Strings.

(** * Points of secp256k1 *)
Module Secp.
Record PublicKey := mkPublicKey { X : Z; Y : Z }.

(** crypto/secp256k1/curve.go *)
Definition P : Z := 0xFFFFFFFFFFFFFFFFFFFFFFFFFFFFFFFFFFFFFFFFFFFFFFFFFFFFFFFEFFFFFC2F.
Definition B : Z := 7.
Definition IsOnCurve (x y : Z) : bool := (x * x * x + B) mod P =? (y * y) mod P.

(** crypto/crypto.go over elliptic.Unmarshal and elliptic.Marshal *)
Definition ToECDSAPub (pub : list byte) : option PublicKey :=
  if negb (len pub =? 65) then None
  else if negb (bool_decide (head pub = Some x04)) then None
  else
    let x := SetBytes (take 32 (drop 1 pub)) in
    let y := SetBytes (drop 33 pub) in
    if (x >=? P) || (y >=? P) then None
    else if negb (IsOnCurve x y) then None
    else Some (mkPublicKey x y).

Definition FromECDSAPub (pub : PublicKey) : list byte :=
  [x04] ++ be_bytes 32 (X pub) ++ be_bytes 32 (Y pub).

(** accounts/keystore/key.go *)
Definition ECDSAPKCompression (p : PublicKey) : list byte :=
  (if Z.odd (Y p) then x03 else x02) :: PaddedBigBytes (X p) 32.
End Secp.
