(* ===== verification/Rlp.v ===== *)
(** Recursive length prefix encoding: rlp/encode.go, decode.go and raw.go.

    The Go types that reflection walks over are the constructors of [Typ] and
    their values those of [value].  Not modelled: types with their own Encoder
    or Decoder, interface values, the struct tags "nil" and "tail", and
    decoding into a value that is not zero. *)

From S2P Require Import Prelude BigMath.
Import Big.

Module RLP.

#[local] Set Warnings "-register-all".
Inductive Typ :=
| UintT (bits : Z)
| BigT
| BoolT
| StringT
| BytesT
| ByteArrayT (n : nat)
| SliceT (elem : Typ)
| ArrayT (n : nat) (elem : Typ)
| StructT (fields : list Typ)
| PtrT (elem : Typ)
| RawT.

(** [VBytes] is a string, a byte slice, a byte array or a raw value; [VList]
    the elements of a slice or array or the exported fields of a struct. *)
Inductive value :=
| VUint (n : Z)
| VBig (n : Z)
| VBool (b : bool)
| VBytes (s : list byte)
| VList (l : list value)
| VNil
| VPtr (v : value).

(** The errors of the package.  [decodeError] is an error of the stream wrapped
    by wrapStreamError; messages and contexts are left out. *)
Inductive rerror :=
| EOF
| ErrUnexpectedEOF
| EOL
| ErrExpectedString
| ErrExpectedList
| ErrCanonInt
| ErrCanonSize
| ErrElemTooLarge
| ErrValueTooLarge
| ErrMoreThanOneValue
| errNotInList
| errNotAtEOL
| errUintOverflow
| errInvalidBool (n : Z)
| errNegativeBig
| errTooFewElements
| errStringTooLong
| errStringTooShort
| decodeError (e : rerror).

#[export] Instance rerror_eq_dec : EqDecision rerror.
Proof. solve_decision. Defined.

(** * encode.go *)

(** intsize computes the minimum number of bytes required to store i: eight
    rounds are enough for a uint64. *)
Fixpoint intsize_loop (fuel : nat) (size i : Z) : Z :=
  match fuel with
  | O => size
  | S fuel => if Z.shiftr i 8 =? 0 then size else intsize_loop fuel (size + 1) (Z.shiftr i 8)
  end.
Definition intsize (i : Z) : Z := intsize_loop 8 1 i.

(** putint: the bytes it writes, whose number it returns. *)
Definition putint (i : Z) : list byte :=
  if i <? 2 ^ 8 then be_bytes 1 i
  else if i <? 2 ^ 16 then be_bytes 2 i
  else if i <? 2 ^ 24 then be_bytes 3 i
  else if i <? 2 ^ 32 then be_bytes 4 i
  else if i <? 2 ^ 40 then be_bytes 5 i
  else if i <? 2 ^ 48 then be_bytes 6 i
  else if i <? 2 ^ 56 then be_bytes 7 i
  else be_bytes 8 i.

Definition headsize (size : Z) : Z := if size <? 56 then 1 else 1 + intsize size.

(** puthead: the header it writes. *)
Definition puthead (smalltag largetag size : Z) : list byte :=
  if size <? 56 then [Z_byte (smalltag + size)]
  else Z_byte (largetag + len (putint size)) :: putint size.

Record listhead := mkHead { offset : Z; hsize : Z }.
Definition head_encode (h : listhead) : list byte := puthead 0xC0 0xF7 (u64 (hsize h)).

(** The auxiliary buffer [sizebuf] is scratch space. *)
Record encbuf := mkBuf { str : list byte; lheads : list listhead; lhsize : Z }.
Definition emptyBuf : encbuf := mkBuf [] [] 0.
Definition buf_size (w : encbuf) : Z := len (str w) + lhsize w.

Abbreviation W := (ST encbuf rerror).

Definition emit (b : list byte) : W unit :=
  modify (fun w => mkBuf (str w ++ b) (lheads w) (lhsize w)).

Definition encodeStringHeader (size : Z) : W unit :=
  if size <? 56 then emit [Z_byte (0x80 + size)]
  else emit (Z_byte (0xB7 + len (putint (u64 size))) :: putint (u64 size)).

Definition encodeString (b : list byte) : W unit :=
  match b with
  | [x] => if byte_Z x <=? 0x7F then emit [x] else encodeStringHeader (len b);; emit b
  | _ => encodeStringHeader (len b);; emit b
  end.

(** list: the new head is known by its index in [lheads]. *)
Definition list_ : W nat := fun w =>
  Ok (length (lheads w)) (mkBuf (str w) (lheads w ++ [mkHead (len (str w)) (lhsize w)]) (lhsize w)).

Definition listEnd (lh : nat) : W unit := fun w =>
  match lheads w !! lh with
  | None => Panic
  | Some h =>
      let size := buf_size w - offset h - hsize h in
      Ok tt (mkBuf (str w) (<[lh := mkHead (offset h) size]> (lheads w))
               (lhsize w + (if size <? 56 then 1 else 1 + intsize (u64 size))))
  end.

Definition writeUint (i : Z) : W unit :=
  if i =? 0 then emit [x80]
  else if i <? 128 then emit [Z_byte i]
  else emit (Z_byte (0x80 + len (putint i)) :: putint i).

Definition writeBool (b : bool) : W unit := emit [if b then x01 else x80].

Definition writeBigInt (i : Z) : W unit :=
  if i <? 0 then throw errNegativeBig
  else if i =? 0 then emit [x80]
  else encodeString (Bytes i).

(** The elements of a slice or an array. *)
Fixpoint writeElems (w : value -> W unit) (l : list value) : W unit :=
  match l with
  | [] => mret tt
  | v :: l => w v;; writeElems w l
  end.

(** The zero value of a type, which a nil pointer stands for. *)
Fixpoint zero (t : Typ) : value :=
  match t with
  | UintT _ => VUint 0
  | BigT => VBig 0
  | BoolT => VBool false
  | StringT | BytesT | RawT => VBytes []
  | ByteArrayT n => VBytes (replicate n x00)
  | SliceT _ => VList []
  | ArrayT n e => VList (replicate n (zero e))
  | StructT ts => VList ((fix zeros ts := match ts with [] => [] | t :: ts => zero t :: zeros ts end) ts)
  | PtrT _ => VNil
  end.

(** The writer of a type (makeWriter).  Go's type system excludes the last
    case. *)
Fixpoint write (t : Typ) (v : value) {struct t} : W unit :=
  match t, v with
  | UintT _, VUint i => writeUint i
  | BigT, VBig i => writeBigInt i
  | BigT, VNil => emit [x80]
  | BoolT, VBool b => writeBool b
  | (StringT | BytesT | ByteArrayT _), VBytes s => encodeString s
  | RawT, VBytes s => emit s
  | (SliceT e | ArrayT _ e), VList l =>
      lh ← list_; writeElems (write e) l;; listEnd lh
  | StructT ts, VList vs =>
      lh ← list_;
      (fix fields (ts : list Typ) (vs : list value) : W unit :=
         match ts, vs with
         | [], [] => mret tt
         | t :: ts, v :: vs => write t v;; fields ts vs
         | _, _ => panic
         end) ts vs;;
      listEnd lh
  | PtrT e, VPtr v => write e v
  | PtrT (ByteArrayT _), VNil => emit [x80]
  | PtrT (StructT _ | ArrayT _ _), VNil => lh ← list_; listEnd lh
  | PtrT e, VNil => write e (zero e)
  | _, _ => panic
  end.

(** toBytes: string data up to each header, the header, and the rest, in a
    buffer of the announced size. *)
Fixpoint pieces (heads : list listhead) (strpos : Z) (s : list byte) : list byte :=
  match heads with
  | [] => drop (Z.to_nat strpos) s
  | h :: heads =>
      take (Z.to_nat (offset h - strpos)) (drop (Z.to_nat strpos) s) ++ head_encode h ++
      pieces heads (offset h) s
  end.
Definition toBytes (w : encbuf) : list byte :=
  let n := Z.to_nat (buf_size w) in
  take n (pieces (lheads w) 0 (str w) ++ replicate n x00).

Definition EncodeToBytes (t : Typ) (v : value) : option (list byte + rerror) :=
  match write t v emptyBuf with
  | Ok _ w => Some (inl (toBytes w))
  | Fail e _ => Some (inr e)
  | Panic | OutOfFuel => None
  end.

(** * decode.go *)

Inductive Kind := Byte | String | List.
#[export] Instance Kind_eq_dec : EqDecision Kind.
Proof. solve_decision. Defined.

Record listpos := mkPos { pos : Z; lsize : Z }.

(** A stream over a byte reader with the bytes [r] left to read.  [kind] is
    [None] for the value -1; the innermost list is the first of [stack]; the
    buffer for integers is scratch space. *)
Record Stream := mkStream {
  r : list byte;
  remaining : Z;
  limited : bool;
  kind : option Kind;
  ssize : Z;
  byteval : byte;
  kinderr : option rerror;
  stack : list listpos;
}.

Abbreviation D := (ST Stream rerror).

(** NewStream(bytes.NewReader(b), len(b)): the limit is set, also when it is
    found from the reader because [b] is empty. *)
Definition NewStream (b : list byte) : Stream :=
  mkStream b (len b) true None 0 x00 None [].

Definition set_kind (k : option Kind) : D unit := modify (fun s =>
  mkStream (r s) (remaining s) (limited s) k (ssize s) (byteval s) (kinderr s) (stack s)).
Definition set_size (n : Z) : D unit := modify (fun s =>
  mkStream (r s) (remaining s) (limited s) (kind s) n (byteval s) (kinderr s) (stack s)).
Definition set_byteval (b : byte) : D unit := modify (fun s =>
  mkStream (r s) (remaining s) (limited s) (kind s) (ssize s) b (kinderr s) (stack s)).
Definition set_kinderr (e : option rerror) : D unit := modify (fun s =>
  mkStream (r s) (remaining s) (limited s) (kind s) (ssize s) (byteval s) e (stack s)).
Definition set_stack (st : list listpos) : D unit := modify (fun s =>
  mkStream (r s) (remaining s) (limited s) (kind s) (ssize s) (byteval s) (kinderr s) st).
Definition set_remaining (n : Z) : D unit := modify (fun s =>
  mkStream (r s) n (limited s) (kind s) (ssize s) (byteval s) (kinderr s) (stack s)).
Definition set_reader (b : list byte) : D unit := modify (fun s =>
  mkStream b (remaining s) (limited s) (kind s) (ssize s) (byteval s) (kinderr s) (stack s)).

(** The error of a call as a value. *)
Definition try_ {A} (m : D A) : D (A + rerror) := fun s =>
  match m s with
  | Ok a s' => Ok (inl a) s'
  | Fail e s' => Ok (inr e) s'
  | Panic => Panic
  | OutOfFuel => OutOfFuel
  end.

Definition willRead (n : Z) : D unit :=
  set_kind None;;
  st ← gets stack;
  (match st with
   | [] => mret tt
   | tos :: st =>
       if n >? u64 (lsize tos - pos tos) then throw ErrElemTooLarge
       else set_stack (mkPos (u64 (pos tos + n)) (lsize tos) :: st)
   end);;
  lim ← gets limited;
  rem ← gets remaining;
  if lim : bool then
    if n >? rem then throw ErrValueTooLarge else set_remaining (u64 (rem - n))
  else mret tt.

(** readFull of a buffer of [n] bytes: the bytes read. *)
Definition readFull (n : Z) : D (list byte) :=
  willRead n;;
  b ← gets r;
  if n <=? len b then set_reader (drop (Z.to_nat n) b);; mret (take (Z.to_nat n) b)
  else set_reader [];; throw ErrUnexpectedEOF.

Definition readByte : D byte :=
  willRead 1;;
  b ← gets r;
  match b with
  | [] => throw ErrUnexpectedEOF
  | x :: b => set_reader b;; mret x
  end.

Definition readUint (size : Z) : D Z :=
  if size =? 0 then set_kind None;; mret 0
  else if size =? 1 then b ← readByte; mret (byte_Z b)
  else
    buf ← readFull size;
    match buf with
    | x00 :: _ => throw ErrCanonSize
    | _ => mret (be_val buf)
    end.

(** A size that follows a tag: values below 56 belong in the tag. *)
Definition readLongSize (k : Kind) (n : Z) : D (Kind * Z * option rerror) :=
  size ← try_ (readUint n);
  match size with
  | inl size => mret (k, size, if size <? 56 then Some ErrCanonSize else None)
  | inr e => mret (k, 0, Some e)
  end.

(** readKind: kind and size, and the error. *)
Definition readKind : D (Kind * Z * option rerror) :=
  b ← try_ readByte;
  match b with
  | inr e =>
      st ← gets stack;
      mret (Byte, 0, Some match st, e with
                          | [], (ErrUnexpectedEOF | ErrValueTooLarge) => EOF
                          | _, _ => e
                          end)
  | inl x =>
      set_byteval x00;;
      let b := byte_Z x in
      if b <? 0x80 then set_byteval x;; mret (Byte, 0, None)
      else if b <? 0xB8 then mret (String, b - 0x80, None)
      else if b <? 0xC0 then readLongSize String (b - 0xB7)
      else if b <? 0xF8 then mret (List, b - 0xC0, None)
      else readLongSize List (b - 0xF7)
  end.

(** Kind returns the kind and size of the next value in the input stream. *)
Definition Kind_ : D (Kind * Z) :=
  k ← gets kind;
  st ← gets stack;
  (match k with
   | Some _ => mret tt
   | None =>
       set_kinderr None;;
       match st with
       | tos :: _ => if pos tos =? lsize tos then throw EOL else mret tt
       | [] => mret tt
       end;;
       '(k, size, err) ← readKind;
       set_kind (Some k);; set_size size;; set_kinderr err;;
       match err with
       | Some _ => mret tt
       | None =>
           st ← gets stack;
           match st with
           | [] =>
               lim ← gets limited; rem ← gets remaining;
               if lim && (size >? rem) then set_kinderr (Some ErrValueTooLarge) else mret tt
           | tos :: _ =>
               if size >? u64 (lsize tos - pos tos) then set_kinderr (Some ErrElemTooLarge)
               else mret tt
           end
       end
   end);;
  err ← gets kinderr;
  match err with
  | Some e => throw e
  | None => k ← gets kind; size ← gets ssize; mret (default Byte k, size)
  end.

Definition Bytes_ : D (list byte) :=
  '(k, size) ← Kind_;
  match k with
  | Byte => set_kind None;; x ← gets byteval; mret [x]
  | String =>
      b ← readFull size;
      match b with
      | x :: _ => if (size =? 1) && (byte_Z x <? 128) then throw ErrCanonSize else mret b
      | [] => mret b
      end
  | List => throw ErrExpectedString
  end.

(** Raw puts a new header in front of the content. *)
Definition Raw : D (list byte) :=
  '(k, size) ← Kind_;
  match k with
  | Byte => set_kind None;; x ← gets byteval; mret [x]
  | String => b ← readFull size; mret (puthead 0x80 0xB7 size ++ b)
  | List => b ← readFull size; mret (puthead 0xC0 0xF7 size ++ b)
  end.

Definition uint_ (maxbits : Z) : D Z :=
  '(k, size) ← Kind_;
  match k with
  | Byte =>
      x ← gets byteval;
      if byte_Z x =? 0 then throw ErrCanonInt else set_kind None;; mret (byte_Z x)
  | String =>
      if size >? maxbits / 8 then throw errUintOverflow
      else
        v ← try_ (readUint size);
        match v with
        | inr ErrCanonSize => throw ErrCanonInt
        | inr e => throw e
        | inl v => if (size >? 0) && (v <? 128) then throw ErrCanonSize else mret v
        end
  | List => throw ErrExpectedString
  end.

Definition Bool_ : D bool :=
  num ← uint_ 8;
  if num =? 0 then mret false
  else if num =? 1 then mret true
  else throw (errInvalidBool num).

Definition List_ : D Z :=
  '(k, size) ← Kind_;
  match k with
  | List =>
      st ← gets stack;
      set_stack (mkPos 0 size :: st);; set_kind None;; set_size 0;; mret size
  | _ => throw ErrExpectedList
  end.

Definition ListEnd : D unit :=
  st ← gets stack;
  match st with
  | [] => throw errNotInList
  | tos :: st =>
      if negb (pos tos =? lsize tos) then throw errNotAtEOL
      else
        set_stack match st with
                  | [] => []
                  | p :: st => mkPos (u64 (pos p + lsize tos)) (lsize p) :: st
                  end;;
        set_kind None;; set_size 0
  end.

(** wrapStreamError *)
Definition wrapStreamError (e : rerror) : rerror :=
  match e with
  | ErrCanonInt | ErrCanonSize | ErrExpectedList | ErrExpectedString | errUintOverflow
  | errNotAtEOL => decodeError e
  | _ => e
  end.
Definition wrapped {A} (m : D A) : D A := fun s =>
  match m s with Fail e s' => Fail (wrapStreamError e) s' | x => x end.

Definition decodeUint (bits : Z) : D value := n ← wrapped (uint_ bits); mret (VUint n).
Definition decodeBool : D value := b ← wrapped Bool_; mret (VBool b).
Definition decodeBytes : D value := b ← wrapped Bytes_; mret (VBytes b).

Definition decodeBigInt : D value :=
  b ← wrapped Bytes_;
  match b with
  | x00 :: _ => throw (wrapStreamError ErrCanonInt)
  | _ => mret (VBig (SetBytes b))
  end.

(** decodeByteArray for an array of [vlen] bytes; the error of Uint in the
    first case is dropped, and Uint answers 0 with it. *)
Definition decodeByteArray (vlen : nat) : D value :=
  '(k, size) ← Kind_;
  match k with
  | Byte =>
      if Z.of_nat vlen =? 0 then throw errStringTooLong
      else if Z.of_nat vlen >? 1 then throw errStringTooShort
      else
        bv ← try_ (uint_ 64);
        mret (VBytes [Z_byte (match bv with inl n => n | inr _ => 0 end)])
  | String =>
      if Z.of_nat vlen <? size then throw errStringTooLong
      else if Z.of_nat vlen >? size then throw errStringTooShort
      else
        b ← readFull (Z.of_nat vlen);
        match b with
        | x :: _ =>
            if (size =? 1) && (byte_Z x <? 128) then throw (wrapStreamError ErrCanonSize)
            else mret (VBytes b)
        | [] => mret (VBytes b)
        end
  | List => throw (wrapStreamError ErrExpectedString)
  end.

(** decodeSliceElems: elements until the end of the list. *)
Fixpoint decodeSliceElems (fuel : nat) (elem : D value) : D (list value) :=
  match fuel with
  | O => fun _ => OutOfFuel
  | S fuel =>
      v ← try_ elem;
      match v with
      | inl v => vs ← decodeSliceElems fuel elem; mret (v :: vs)
      | inr EOL => mret []
      | inr e => throw e
      end
  end.

(** Every element takes a byte of input at least. *)
Definition decodeListSlice (elem : D value) : D value :=
  size ← wrapped List_;
  if size =? 0 then ListEnd;; mret (VList [])
  else
    fuel ← gets (fun s => S (length (r s)));
    vs ← decodeSliceElems fuel elem; ListEnd;; mret (VList vs).

(** The loop of decodeListArray. *)
Fixpoint decodeArrayElems (n : nat) (elem : D value) : D (list value) :=
  match n with
  | O => mret []
  | S n =>
      v ← try_ elem;
      match v with
      | inl v => vs ← decodeArrayElems n elem; mret (v :: vs)
      | inr EOL => throw errTooFewElements
      | inr e => throw e
      end
  end.
Definition decodeListArray (n : nat) (elem : D value) : D value :=
  wrapped List_;; vs ← decodeArrayElems n elem; wrapped ListEnd;; mret (VList vs).

(** A field of a struct. *)
Definition decodeField (dec : D value) : D value := fun s =>
  match dec s with Fail EOL s' => Fail errTooFewElements s' | x => x end.

(** The decoder of a type (makeDecoder). *)
Fixpoint decode (t : Typ) : D value :=
  match t with
  | UintT bits => decodeUint bits
  | BigT => decodeBigInt
  | BoolT => decodeBool
  | StringT | BytesT => decodeBytes
  | ByteArrayT n => decodeByteArray n
  | SliceT e => decodeListSlice (decode e)
  | ArrayT n e => decodeListArray n (decode e)
  | StructT ts =>
      wrapped List_;;
      vs ← (fix fields (ts : list Typ) : D (list value) :=
              match ts with
              | [] => mret []
              | t :: ts => v ← decodeField (decode t); vs ← fields ts; mret (v :: vs)
              end) ts;
      wrapped ListEnd;; mret (VList vs)
  | PtrT e => v ← decode e; mret (VPtr v)
  | RawT => b ← Raw; mret (VBytes b)
  end.

(** DecodeBytes: exactly one value. *)
Definition DecodeBytes (t : Typ) (b : list byte) : outcome Stream rerror value :=
  (v ← decode t; rest ← gets r;
   if len rest >? 0 then throw ErrMoreThanOneValue else mret v) (NewStream b).

(** * raw.go *)

Definition readSize (b : list byte) (slen : Z) : Z + rerror :=
  if slen >? len b then inr ErrUnexpectedEOF
  else
    let s := be_val (take (Z.to_nat slen) b) in
    if (s <? 56) || bool_decide (head b = Some x00) then inr ErrCanonSize else inl s.

(** Kind, size of the tag and size of the content; [None] is the index out of
    range of a tag 0x81 at the end of the input. *)
Definition readKindRaw (buf : list byte) : option (Kind * Z * Z + rerror) :=
  match buf with
  | [] => Some (inr ErrUnexpectedEOF)
  | x :: rest =>
      let b := byte_Z x in
      let long k n := match readSize rest n with
                      | inl size => inl (k, n + 1, size)
                      | inr e => inr e
                      end in
      res ← (if b <? 0x80 then Some (inl (Byte, 0, 1))
             else if b <? 0xB8 then
               if b - 0x80 =? 1 then
                 y ← head rest;
                 Some (if byte_Z y <? 128 then inr ErrCanonSize else inl (String, 1, 1))
               else Some (inl (String, 1, b - 0x80))
             else if b <? 0xC0 then Some (long String (b - 0xB7))
             else if b <? 0xF8 then Some (inl (List, 1, b - 0xC0))
             else Some (long List (b - 0xF7)));
      Some match res with
           | inr e => inr e
           | inl (k, tagsize, contentsize) =>
               if contentsize >? u64 (len buf - tagsize) then inr ErrValueTooLarge
               else inl (k, tagsize, contentsize)
           end
  end.

(** Split: kind and content of the first value, and the bytes after it. *)
Definition Split (b : list byte) : option (Kind * list byte * list byte + rerror) :=
  res ← readKindRaw b;
  match res with
  | inr e => Some (inr e)
  | inl (k, ts, cs) =>
      content ← slice b ts (ts + cs); rest ← slice b (ts + cs) (len b);
      Some (inl (k, content, rest))
  end.

Definition SplitString (b : list byte) : option (list byte * list byte + rerror) :=
  res ← Split b;
  Some match res with
       | inr e => inr e
       | inl (List, _, _) => inr ErrExpectedString
       | inl (_, content, rest) => inl (content, rest)
       end.

Definition SplitList (b : list byte) : option (list byte * list byte + rerror) :=
  res ← Split b;
  Some match res with
       | inr e => inr e
       | inl (List, content, rest) => inl (content, rest)
       | inl _ => inr ErrExpectedList
       end.

(** CountValues: a value takes at least one byte, so the length of the input
    bounds the iterations. *)
Fixpoint countValues (fuel : nat) (b : list byte) (i : Z) : option (Z + rerror) :=
  match fuel with
  | O => None
  | S fuel =>
      if len b =? 0 then Some (inl i)
      else
        res ← readKindRaw b;
        match res with
        | inr e => Some (inr e)
        | inl (_, tagsize, size) =>
            rest ← slice b (tagsize + size) (len b);
            countValues fuel rest (i + 1)
        end
  end.
Definition CountValues (b : list byte) : option (Z + rerror) := countValues (S (length b)) b 0.

(** toWriter: what is written to the output. *)
Definition toWriter (w : encbuf) : list byte := pieces (lheads w) 0 (str w).
End RLP.
