(* ===== verification/RlpSpec.v ===== *)
(** The meaning of recursive length prefix encodings, and the proof that the
    encoder and the decoder of package rlp implement it.

    An [item] is a string or a list of items; [rlp] is the encoding of an item
    as the format defines it.  The encoder, which collects list headers in a
    separate buffer, produces exactly [rlp] of the item of a value; the decoder,
    a state machine over a stream with a stack of open lists, accepts exactly
    these encodings. *)

From S2P Require Import Prelude BigMath Rlp.
Import Big RLP.

(** * Items *)

#[local] Unset Elimination Schemes.
Inductive item :=
| Str (s : list byte)
| Lst (l : list item).
#[local] Set Elimination Schemes.

Lemma item_ind (P : item -> Prop) :
  (forall s, P (Str s)) -> (forall l, Forall P l -> P (Lst l)) -> forall i, P i.
Proof.
  intros Hs Hl. fix IH 1. intros [s|l]; [apply Hs|]. apply Hl.
  induction l as [|i l IHl]; constructor; [apply IH|apply IHl].
Qed.

Lemma Typ_ind' (P : Typ -> Prop) :
  (forall b, P (UintT b)) -> P BigT -> P BoolT -> P StringT -> P BytesT ->
  (forall n, P (ByteArrayT n)) -> (forall e, P e -> P (SliceT e)) ->
  (forall n e, P e -> P (ArrayT n e)) -> (forall ts, Forall P ts -> P (StructT ts)) ->
  (forall e, P e -> P (PtrT e)) -> P RawT -> forall t, P t.
Proof.
  intros Hu Hb Hbo Hstr Hby Hba Hs Ha Hst Hp Hr. fix IH 1. intros [b| | | | |n|e|n e|ts|e|].
  - apply Hu.
  - apply Hb.
  - apply Hbo.
  - apply Hstr.
  - apply Hby.
  - apply Hba.
  - apply Hs, IH.
  - apply Ha, IH.
  - apply Hst. induction ts as [|t ts IHts]; constructor; [apply IH|apply IHts].
  - apply Hp, IH.
  - apply Hr.
Qed.

(** The header of [n] bytes: one byte below 56, else the length of the length
    and the length. *)
Definition header (tag n : Z) : list byte :=
  if n <? 56 then [Z_byte (tag + n)] else Z_byte (tag + 55 + len (Bytes n)) :: Bytes n.

Definition is_single (s : list byte) : bool :=
  match s with [x] => byte_Z x <? 128 | _ => false end.

Fixpoint rlp (i : item) : list byte :=
  match i with
  | Str s => if is_single s then s else header 0x80 (len s) ++ s
  | Lst l =>
      let body := concat (map rlp l) in header 0xC0 (len body) ++ body
  end.
Definition body (l : list item) : list byte := concat (map rlp l).

Lemma rlp_Lst l : rlp (Lst l) = header 0xC0 (len (body l)) ++ body l.
Proof. done. Qed.

(** The item of a value of a type; [None] where the value is not of the type or
    its encoding is not determined by the type (raw values). *)
Fixpoint item_of (t : Typ) (v : value) {struct t} : option item :=
  match t, v with
  | UintT bits, VUint n =>
      if bool_decide (bits ∈ [8; 16; 32; 64]) && (0 <=? n) && (n <? 2 ^ bits)
      then Some (Str (Bytes n)) else None
  | BigT, VBig n => if 0 <=? n then Some (Str (Bytes n)) else None
  | BigT, VNil => Some (Str [])
  | BoolT, VBool b => Some (Str (if b then [x01] else []))
  | (StringT | BytesT), VBytes s => Some (Str s)
  | ByteArrayT n, VBytes s => if bool_decide (length s = n) then Some (Str s) else None
  | SliceT e, VList l => l ← mapM (item_of e) l; Some (Lst l)
  | ArrayT n e, VList l =>
      if bool_decide (length l = n) then l ← mapM (item_of e) l; Some (Lst l) else None
  | StructT ts, VList vs =>
      l ← (fix fields (ts : list Typ) (vs : list value) : option (list item) :=
             match ts, vs with
             | [], [] => Some []
             | t :: ts, v :: vs => i ← item_of t v; l ← fields ts vs; Some (i :: l)
             | _, _ => None
             end) ts vs;
      Some (Lst l)
  | PtrT e, VPtr v => item_of e v
  | PtrT (ByteArrayT _), VNil => Some (Str [])
  | PtrT (StructT _ | ArrayT _ _), VNil => Some (Lst [])
  | PtrT e, VNil => item_of e (zero e)
  | _, _ => None
  end.

Fixpoint items_of (ts : list Typ) (vs : list value) : option (list item) :=
  match ts, vs with
  | [], [] => Some []
  | t :: ts, v :: vs => i ← item_of t v; l ← items_of ts vs; Some (i :: l)
  | _, _ => None
  end.

Lemma item_of_Struct ts vs : item_of (StructT ts) (VList vs) = l ← items_of ts vs; Some (Lst l).
Proof. done. Qed.

(** Values without nil pointers. *)
Fixpoint no_nil (v : value) : bool :=
  match v with
  | VNil => false
  | VPtr v => no_nil v
  | VList l => forallb no_nil l
  | _ => true
  end.

(** Types without byte arrays of length one and raw values. *)
Fixpoint plain (t : Typ) : bool :=
  match t with
  | ByteArrayT n => negb (bool_decide (n = 1%nat))
  | SliceT e | ArrayT _ e | PtrT e => plain e
  | StructT ts => forallb plain ts
  | RawT => false
  | UintT b => bool_decide (b ∈ [8; 16; 32; 64])
  | _ => true
  end.

(** * Minimal big-endian bytes *)

Lemma Bytes_be_val x l : byte_Z x <> 0 -> Bytes (be_val (x :: l)) = x :: l.
Proof.
  intros Hx. change (x :: l) with ([x] ++ l). rewrite be_val_app. cbn [app].
  pose proof (be_val_bound l) as Hl. pose proof (byte_Z_range x) as Hr.
  assert (be_val [x] = byte_Z x) as Hx1 by (cbn; lia). rewrite Hx1.
  set (v := byte_Z x * 256 ^ len l + be_val l).
  assert (v = be_val (x :: l)) as Hv.
  { change (x :: l) with ([x] ++ l). by rewrite be_val_app, Hx1. }
  assert (256 ^ len l <= v < 256 ^ (len l + 1)) as [Hlo Hhi].
  { rewrite Z.pow_add_r by (pose proof (len_nonneg l); lia). nia. }
  assert (length (Bytes v) = S (length l)) as Hlen.
  { apply Nat2Z.inj. rewrite Bytes_length. pose proof (len_nonneg l).
    assert (0 < 256 ^ len l) by (apply Z.pow_pos_nonneg; lia).
    unfold BitLen. destruct (Z.eqb_spec v 0); [lia|].
    rewrite Z.abs_eq by lia.
    assert (8 * len l <= Z.log2 v < 8 * (len l + 1)) as Hlog.
    { change 256 with (2 ^ 8) in Hlo, Hhi. rewrite <- !Z.pow_mul_r in Hlo, Hhi by lia.
      split; [apply Z.log2_le_pow2; lia|apply Z.log2_lt_pow2; lia]. }
    unfold len in *. zlia. }
  rewrite Hv in *. rewrite <- (be_bytes_be_val (Bytes (be_val (x :: l)))), Hlen.
  change (be_val (Bytes ?n)) with (SetBytes (Bytes n)). rewrite SetBytes_Bytes, Z.abs_eq by lia.
  exact (be_bytes_be_val (x :: l)).
Qed.

Lemma Bytes_head n : 0 < n -> exists x l, Bytes n = x :: l /\ byte_Z x <> 0.
Proof.
  intros Hn. pose proof (SetBytes_Bytes n) as Hv. rewrite Z.abs_eq in Hv by lia.
  destruct (Bytes n) as [|x l] eqn:E; [cbn in Hv; lia|]. exists x, l. split; [done|].
  intros Hx. pose proof (Bytes_length n) as Hlen. rewrite E in Hlen. cbn [length] in Hlen.
  unfold SetBytes in Hv. change (x :: l) with ([x] ++ l) in Hv. rewrite be_val_app in Hv.
  pose proof (be_val_bound l) as Hl. assert (be_val [x] = byte_Z x) as Hx1 by (cbn; lia).
  rewrite Hx1, Hx in Hv. cbn [app] in Hv. assert (n < 256 ^ len l) as Hb by lia.
  unfold BitLen in Hlen. destruct (Z.eqb_spec n 0); [lia|]. rewrite Z.abs_eq in Hlen by lia.
  assert (Z.log2 n < 8 * len l).
  { change 256 with (2 ^ 8) in Hb. rewrite <- Z.pow_mul_r in Hb by (pose proof (len_nonneg l); lia).
    apply Z.log2_lt_pow2; lia. }
  unfold len in *. zlia.
Qed.

Lemma Bytes_0 : Bytes 0 = [].
Proof. done. Qed.

Lemma Bytes_len_le n k : 0 <= n < 256 ^ Z.of_nat k -> len (Bytes n) <= Z.of_nat k.
Proof.
  intros Hn. unfold len. rewrite Bytes_length. unfold BitLen.
  destruct (Z.eqb_spec n 0); [zlia|]. rewrite Z.abs_eq by lia.
  assert (Z.log2 n < 8 * Z.of_nat k).
  { destruct Hn as [? Hn]. change 256 with (2 ^ 8) in Hn. rewrite <- Z.pow_mul_r in Hn by lia.
    apply Z.log2_lt_pow2; lia. }
  zlia.
Qed.

Lemma Bytes_len_pos n : 0 < n -> 1 <= len (Bytes n).
Proof. intros Hn. destruct (Bytes_head n Hn) as (x & l & -> & _). rewrite len_cons. pose proof (len_nonneg l). lia. Qed.

(** The bytes putint writes. *)
Lemma Bytes_be_bytes k n :
  256 ^ Z.of_nat k <= n < 256 ^ Z.of_nat (S k) -> be_bytes (S k) n = Bytes n.
Proof.
  intros Hn. assert (0 < 256 ^ Z.of_nat k) by (apply Z.pow_pos_nonneg; lia).
  rewrite GoMath.be_bytes_cons. set (x := Z_byte (n / 256 ^ Z.of_nat k)).
  assert (byte_Z x = n / 256 ^ Z.of_nat k) as Hx.
  { unfold x. rewrite byte_Z_Z_byte. apply Z.mod_small. split; [apply Z.div_pos; lia|].
    apply Z.div_lt_upper_bound; [lia|]. replace (Z.of_nat (S k)) with (Z.of_nat k + 1) in Hn by lia.
    rewrite Z.pow_add_r in Hn by lia. lia. }
  assert (be_val (x :: be_bytes k n) = n) as Hv.
  { change (x :: ?l) with ([x] ++ l). rewrite be_val_app, be_val_be_bytes, len_be_bytes.
    replace (be_val [x]) with (byte_Z x) by (cbn; lia). rewrite Hx.
    pose proof (Z.div_mod n (256 ^ Z.of_nat k)). lia. }
  rewrite <- Hv at 2. rewrite Bytes_be_val; [done|]. rewrite Hx.
  assert (1 <= n / 256 ^ Z.of_nat k); [|lia]. apply Z.div_le_lower_bound; lia.
Qed.

Lemma putint_Bytes n : 0 < n < 2 ^ 64 -> putint n = Bytes n.
Proof.
  intros Hn. unfold putint.
  repeat (case_match; [apply Bytes_be_bytes; cbn [Z.of_nat]; lia|]).
  apply Bytes_be_bytes. cbn [Z.of_nat]. lia.
Qed.

Lemma log2_div256 n : 256 <= n -> Z.log2 (n / 256) = Z.log2 n - 8.
Proof.
  intros Hn. change 256 with (2 ^ 8). rewrite <- Z.shiftr_div_pow2 by lia.
  rewrite Z.log2_shiftr by lia. assert (8 <= Z.log2 n); [|lia].
  apply Z.log2_le_pow2; lia.
Qed.

Lemma Bytes_len_div n : 256 <= n -> len (Bytes n) = 1 + len (Bytes (n / 256)).
Proof.
  intros Hn. pose proof (log2_div256 n Hn). pose proof (Z.log2_nonneg (n / 256)).
  assert (1 <= n / 256) by (apply Z.div_le_lower_bound; lia).
  unfold len. rewrite !Bytes_length. unfold BitLen.
  destruct (Z.eqb_spec n 0); [lia|]. destruct (Z.eqb_spec (n / 256) 0); [lia|].
  rewrite !Z.abs_eq by lia. zlia.
Qed.

Lemma Bytes_len_small n : 0 < n < 256 -> len (Bytes n) = 1.
Proof.
  intros Hn. pose proof (Bytes_len_le n 1). pose proof (Bytes_len_pos n). lia.
Qed.

Lemma intsize_loop_spec fuel size i :
  0 < i < 256 ^ Z.of_nat fuel -> intsize_loop fuel size i = size + len (Bytes i) - 1.
Proof.
  revert size i. induction fuel as [|fuel IH]; intros size i Hi.
  { change (256 ^ Z.of_nat 0) with 1 in Hi. lia. }
  cbn [intsize_loop]. rewrite Z.shiftr_div_pow2 by lia. change (2 ^ 8) with 256.
  replace (Z.of_nat (S fuel)) with (Z.of_nat fuel + 1) in Hi by lia.
  rewrite Z.pow_add_r in Hi by lia.
  destruct (Z.eqb_spec (i / 256) 0) as [H0|H0].
  - apply Z.div_small_iff in H0; [|lia]. rewrite Bytes_len_small by lia. lia.
  - assert (256 <= i).
    { destruct (Z.le_gt_cases 256 i); [done|]. by rewrite Z.div_small in H0 by lia. }
    assert (1 <= i / 256) by (apply Z.div_le_lower_bound; lia).
    rewrite IH, (Bytes_len_div i) by (done || (split; [lia|]; apply Z.div_lt_upper_bound; lia)). lia.
Qed.

Lemma intsize_Bytes i : 0 < i < 2 ^ 64 -> intsize i = len (Bytes i).
Proof.
  intros. unfold intsize. rewrite intsize_loop_spec by (change (256 ^ Z.of_nat 8) with (2 ^ 64); lia). lia.
Qed.

Lemma len_header tag n : 0 <= n < 2 ^ 64 -> len (header tag n) = headsize n.
Proof.
  intros. unfold header, headsize. destruct (Z.ltb_spec n 56); [done|].
  rewrite len_cons, intsize_Bytes by lia. lia.
Qed.

Lemma puthead_header tag n : 0 <= n < 2 ^ 64 -> puthead tag (tag + 55) n = header tag n.
Proof.
  intros. unfold puthead, header. destruct (Z.ltb_spec n 56); [done|].
  by rewrite !putint_Bytes by lia.
Qed.

Lemma header_nonempty tag n : 1 <= len (header tag n).
Proof.
  unfold header. destruct (n <? 56); [done|]. rewrite len_cons. pose proof (len_nonneg (Bytes n)). lia.
Qed.

Lemma rlp_len i : 1 <= len (rlp i).
Proof.
  destruct i as [s|l]; cbn [rlp].
  - destruct (is_single s) eqn:E; [by destruct s as [|x [|y s]]|].
    rewrite len_app. pose proof (header_nonempty 0x80 (len s)). pose proof (len_nonneg s). lia.
  - rewrite len_app. set (b := concat _). pose proof (header_nonempty 0xC0 (len b)).
    pose proof (len_nonneg b). lia.
Qed.

Lemma body_cons i l : body (i :: l) = rlp i ++ body l.
Proof. done. Qed.

Lemma len_body_Lst l : len (body l) < len (rlp (Lst l)).
Proof. rewrite rlp_Lst, len_app. pose proof (header_nonempty 0xC0 (len (body l))). lia. Qed.

(** A header has at most nine bytes. *)
Lemma header_le tag n : 0 <= n < 2 ^ 64 -> len (header tag n) <= 9.
Proof.
  intros. unfold header. destruct (n <? 56); [done|]. rewrite len_cons.
  pose proof (Bytes_len_le n 8). change (256 ^ Z.of_nat 8) with (2 ^ 64) in *. lia.
Qed.

Lemma rlp_Str_le s : len s < 2 ^ 64 -> len (rlp (Str s)) <= len s + 9.
Proof.
  intros. cbn [rlp]. destruct (is_single s); [lia|]. rewrite len_app.
  pose proof (header_le 0x80 (len s)). pose proof (len_nonneg s). lia.
Qed.

Lemma rlp_Lst_le l : len (body l) < 2 ^ 64 -> len (rlp (Lst l)) <= len (body l) + 9.
Proof.
  intros. rewrite rlp_Lst, len_app. pose proof (header_le 0xC0 (len (body l))).
  pose proof (len_nonneg (body l)). lia.
Qed.

(** * The encoder *)

(** [renders base s hs b]: string data [s], which starts at position [base], with
    the heads [hs] stands for the bytes [b]. *)
Record renders (base : Z) (s : list byte) (hs : list listhead) (b : list byte) : Prop := {
  render_heads : Forall (fun h => base <= offset h) hs;
  render_pieces : forall pre post hs', len pre = base -> Forall (fun h => base + len s <= offset h) hs' ->
    pieces (hs ++ hs') base (pre ++ s ++ post) = b ++ pieces hs' (base + len s) (pre ++ s ++ post);
}.

Definition writes (m : W unit) (b : list byte) : Prop :=
  forall w, exists s hs k,
    m w = Ok tt (mkBuf (str w ++ s) (lheads w ++ hs) (lhsize w + k)) /\
    len b = len s + k /\ renders (len (str w)) s hs b.

Lemma renders_plain base s : 0 <= base -> renders base s [] s.
Proof.
  intros Hb. split; [constructor|]. intros pre post hs' Hpre Hf. cbn [app].
  assert (drop (Z.to_nat base) (pre ++ s ++ post) = s ++ post) as Hd.
  { subst. unfold len. by rewrite Nat2Z.id, drop_app_length. }
  assert (drop (Z.to_nat (base + len s)) (pre ++ s ++ post) = post) as Hd'.
  { rewrite app_assoc. subst. unfold len. rewrite drop_app_length'; [done|]. rewrite length_app. lia. }
  destruct hs' as [|h hs']; cbn [pieces]; [by rewrite Hd, Hd'|].
  rewrite Hd, Hd', !app_assoc. do 2 f_equal. apply Forall_cons_1 in Hf as [Hh _].
  pose proof (len_nonneg s). unfold len in *.
  replace (Z.to_nat (offset h - base)) with (length s + Z.to_nat (offset h - (base + Z.of_nat (length s))))%nat by lia.
  by rewrite take_app_add.
Qed.

Lemma renders_app base s1 s2 h1 h2 b1 b2 :
  renders base s1 h1 b1 -> renders (base + len s1) s2 h2 b2 ->
  renders base (s1 ++ s2) (h1 ++ h2) (b1 ++ b2).
Proof.
  intros [F1 R1] [F2 R2]. pose proof (len_nonneg s1). pose proof (len_nonneg s2). split.
  - apply Forall_app. split; [done|]. eapply Forall_impl; [|exact F2]. cbn. lia.
  - intros pre post hs' Hpre Hf. rewrite len_app in *. rewrite <- !app_assoc.
    rewrite R1; [|done|].
    + f_equal. rewrite (app_assoc pre). rewrite R2; [by rewrite Z.add_assoc|rewrite len_app; lia|].
      eapply Forall_impl; [|exact Hf]. cbn. lia.
    + apply Forall_app. split; [done|]. eapply Forall_impl; [|exact Hf]. cbn. lia.
Qed.

Lemma writes_bind m1 m2 b1 b2 : writes m1 b1 -> writes m2 b2 -> writes (m1;; m2) (b1 ++ b2).
Proof.
  intros H1 H2 w. destruct (H1 w) as (s1 & h1 & k1 & E1 & L1 & R1).
  destruct (H2 (mkBuf (str w ++ s1) (lheads w ++ h1) (lhsize w + k1))) as (s2 & h2 & k2 & E2 & L2 & R2).
  cbn [str lheads lhsize] in *.
  exists (s1 ++ s2), (h1 ++ h2), (k1 + k2). split_and!.
  - rewrite (bind_Ok _ _ _ _ _ E1), E2. by rewrite !app_assoc, Z.add_assoc.
  - rewrite !len_app. lia.
  - apply renders_app; [done|]. by rewrite <- len_app.
Qed.

Lemma writes_ret : writes (mret tt) [].
Proof.
  intros w. exists [], [], 0. rewrite !app_nil_r, Z.add_0_r. split_and!; [by destruct w|done|].
  apply renders_plain, len_nonneg.
Qed.

Lemma writes_emit b : writes (emit b) b.
Proof.
  intros w. exists b, [], 0. rewrite app_nil_r, Z.add_0_r. split_and!; [done|lia|].
  apply renders_plain, len_nonneg.
Qed.

(** A list: the head is reserved before the content and filled in after it. *)
Lemma writes_list m b : writes m b -> len b < 2 ^ 64 ->
  writes (lh ← list_; m;; listEnd lh) (header 0xC0 (len b) ++ b).
Proof.
  intros Hm Hlen w. pose proof (len_nonneg b). set (h0 := mkHead (len (str w)) (lhsize w)).
  destruct (Hm (mkBuf (str w) (lheads w ++ [h0]) (lhsize w))) as (s & hs & k & E & L & R).
  cbn [str lheads lhsize] in *.
  exists s, (mkHead (len (str w)) (len b) :: hs), (k + len (header 0xC0 (len b))). split_and!.
  - rewrite (bind_Ok list_ _ _ _ w eq_refl), (bind_Ok m _ _ _ _ E). unfold listEnd. cbn [str lheads lhsize].
    rewrite <- app_assoc. cbn [app]. rewrite (list_lookup_middle (lheads w) hs h0) by done. cbn [offset hsize h0].
    unfold buf_size. cbn [str lhsize]. rewrite len_app.
    replace (len (str w) + len s + (lhsize w + k) - len (str w) - lhsize w) with (len b) by lia.
    rewrite (insert_app_r_alt (lheads w)), Nat.sub_diag by done. cbn [insert list_insert].
    rewrite u64_small, len_header by lia. unfold headsize. do 2 f_equal. lia.
  - rewrite len_app. lia.
  - destruct R as [F R]. split.
    + constructor; [cbn; lia|done].
    + intros pre post hs' Hpre Hf. cbn [app pieces offset]. rewrite Z.sub_diag. cbn [Z.to_nat take app].
      rewrite R, <- app_assoc by done. unfold head_encode. cbn [hsize].
      rewrite u64_small by lia. change 0xF7 with (0xC0 + 55). by rewrite puthead_header by lia.
Qed.

Lemma writes_header n : 0 <= n < 2 ^ 64 -> writes (encodeStringHeader n) (header 0x80 n).
Proof.
  intros Hn. unfold encodeStringHeader, header. destruct (Z.ltb_spec n 56); [apply writes_emit|].
  rewrite u64_small, putint_Bytes by lia. apply writes_emit.
Qed.

Lemma writes_string s : len s < 2 ^ 64 -> writes (encodeString s) (rlp (Str s)).
Proof.
  intros Hs. cbn [rlp]. pose proof (len_nonneg s).
  assert (writes (encodeStringHeader (len s);; emit s) (header 0x80 (len s) ++ s)) as Hlong.
  { apply writes_bind; [by apply writes_header|apply writes_emit]. }
  destruct s as [|x [|y s]]; [done| |done]. cbn [encodeString is_single].
  destruct (Z.leb_spec (byte_Z x) 0x7F), (Z.ltb_spec (byte_Z x) 128); try lia; [apply writes_emit|done].
Qed.

Lemma Bytes_single n : 0 < n < 256 -> Bytes n = [Z_byte n].
Proof.
  intros Hn. rewrite <- (Bytes_be_bytes 0) by (cbn; lia). done.
Qed.

Lemma is_single_Bytes n : 128 <= n -> is_single (Bytes n) = false.
Proof.
  intros Hn. destruct (Z.lt_ge_cases n 256).
  - rewrite Bytes_single by lia. cbn [is_single]. rewrite byte_Z_Z_byte, Z.mod_small by lia. lia.
  - pose proof (Bytes_len_div n). pose proof (Bytes_len_pos (n / 256)).
    assert (1 <= n / 256) by (apply Z.div_le_lower_bound; lia).
    destruct (Bytes n) as [|x [|y l]]; [done| |done]. change (len [x]) with 1 in *. lia.
Qed.

Lemma writes_uint n : 0 <= n < 2 ^ 64 -> writes (writeUint n) (rlp (Str (Bytes n))).
Proof.
  intros Hn. unfold writeUint. destruct (Z.eqb_spec n 0) as [->|]; [apply writes_emit|].
  destruct (Z.ltb_spec n 128).
  - rewrite Bytes_single by lia. cbn [rlp is_single]. rewrite byte_Z_Z_byte, Z.mod_small by lia.
    replace (n <? 128) with true by lia. apply writes_emit.
  - cbn [rlp]. rewrite is_single_Bytes, putint_Bytes by lia.
    pose proof (Bytes_len_le n 8). change (256 ^ Z.of_nat 8) with (2 ^ 64) in *.
    unfold header. replace (len (Bytes n) <? 56) with true by lia. apply writes_emit.
Qed.

Lemma Str_len s : len (rlp (Str s)) < 2 ^ 63 -> len s < 2 ^ 64.
Proof.
  cbn [rlp]. destruct (is_single s); [lia|]. rewrite len_app. pose proof (header_nonempty 0x80 (len s)). lia.
Qed.

(** The nil pointers whose zero value is written. *)
Lemma item_of_nil e :
  item_of (PtrT e) VNil = match e with
                          | ByteArrayT _ => Some (Str [])
                          | StructT _ | ArrayT _ _ => Some (Lst [])
                          | _ => item_of e (zero e)
                          end.
Proof. by destruct e. Qed.

(** Elements that are written, each within the bound on the whole. *)
Lemma writes_elems (f : value -> W unit) (g : value -> option item) l js :
  (forall v i, g v = Some i -> len (rlp i) < 2 ^ 63 -> writes (f v) (rlp i)) ->
  mapM g l = Some js -> len (body js) < 2 ^ 63 -> writes (writeElems f l) (body js).
Proof.
  intros Hf Hl. apply mapM_Some in Hl. induction Hl as [|v i l js Hv _ IH]; [intros; apply writes_ret|].
  rewrite body_cons, len_app. pose proof (len_nonneg (rlp i)). pose proof (len_nonneg (body js)).
  intros Hlen. apply writes_bind; [apply Hf; [done|lia]|apply IH; lia].
Qed.

Definition writeFields : list Typ -> list value -> W unit :=
  fix fields ts vs :=
    match ts, vs with
    | [], [] => mret tt
    | t :: ts, v :: vs => write t v;; fields ts vs
    | _, _ => panic
    end.

Lemma write_Struct ts vs :
  write (StructT ts) (VList vs) = (lh ← list_; writeFields ts vs;; listEnd lh).
Proof. done. Qed.

Lemma writes_fields ts vs js :
  Forall (fun t => forall v i, item_of t v = Some i -> len (rlp i) < 2 ^ 63 -> writes (write t v) (rlp i)) ts ->
  items_of ts vs = Some js -> len (body js) < 2 ^ 63 -> writes (writeFields ts vs) (body js).
Proof.
  intros Hts. revert vs js. induction Hts as [|t ts Ht _ IH]; intros [|v vs] js Hi Hlen; try done.
  { injection Hi as <-. apply writes_ret. }
  cbn [items_of] in Hi. apply bind_Some in Hi as (i & Hi & Hrest).
  apply bind_Some in Hrest as (l & Hl & [= <-]). rewrite body_cons, len_app in *.
  pose proof (len_nonneg (rlp i)). pose proof (len_nonneg (body l)).
  apply writes_bind; [apply Ht; [done|lia]|apply IH; [done|lia]].
Qed.

Lemma writes_Lst m l : writes m (body l) -> len (rlp (Lst l)) < 2 ^ 63 ->
  writes (lh ← list_; m;; listEnd lh) (rlp (Lst l)).
Proof. intros. rewrite rlp_Lst. pose proof (len_body_Lst l). apply writes_list; [done|lia]. Qed.

Lemma writes_Lst_nil : writes (lh ← list_; listEnd lh) (rlp (Lst [])).
Proof.
  intros w. destruct (writes_Lst (mret tt) [] writes_ret ltac:(done) w) as (s & hs & k & E & H).
  exists s, hs, k. by split.
Qed.

Lemma write_spec t v i :
  item_of t v = Some i -> len (rlp i) < 2 ^ 63 -> writes (write t v) (rlp i).
Proof.
  revert v i. induction t as [b| | | | |n|e IH|n e IH|ts IH|e IH|] using Typ_ind'; intros v i Hi Hlen.
  - destruct v; try done. cbn [item_of] in Hi. destruct (_ && _) eqn:E; [|done]. injection Hi as <-.
    apply writes_uint. rewrite !andb_true_iff, bool_decide_eq_true in E. destruct E as [[E1 ?] ?].
    assert (2 ^ b <= 2 ^ 64) by (apply Z.pow_le_mono_r; set_unfold in E1; lia). lia.
  - destruct v as [|m| | | | |]; try done; cbn [item_of] in Hi.
    + destruct (Z.leb_spec 0 m); [|done]. injection Hi as <-. cbn [write]. unfold writeBigInt.
      replace (m <? 0) with false by lia. destruct (Z.eqb_spec m 0) as [->|]; [apply writes_emit|].
      apply writes_string. by apply Str_len.
    + injection Hi as <-. apply writes_emit.
  - destruct v as [| |[]| | | |]; try done; injection Hi as <-; apply writes_emit.
  - destruct v; try done. injection Hi as <-. apply writes_string. by apply Str_len.
  - destruct v; try done. injection Hi as <-. apply writes_string. by apply Str_len.
  - destruct v; try done. cbn [item_of] in Hi. case_bool_decide; [|done]. injection Hi as <-.
    apply writes_string. by apply Str_len.
  - destruct v; try done. cbn [item_of] in Hi. apply bind_Some in Hi as (js & Hi & [= <-]).
    apply writes_Lst; [|done]. pose proof (len_body_Lst js). eapply writes_elems; [exact IH|done|lia].
  - destruct v; try done. cbn [item_of] in Hi. case_bool_decide; [|done].
    apply bind_Some in Hi as (js & Hi & [= <-]).
    apply writes_Lst; [|done]. pose proof (len_body_Lst js). eapply writes_elems; [exact IH|done|lia].
  - destruct v; try done. rewrite item_of_Struct in Hi. apply bind_Some in Hi as (js & Hi & [= <-]).
    rewrite write_Struct. pose proof (len_body_Lst js).
    apply writes_Lst; [|done]. apply writes_fields; [done|done|lia].
  - destruct v; try (by destruct e).
    + rewrite item_of_nil in Hi. destruct e; try (by apply IH); injection Hi as <-;
        [apply writes_emit|apply writes_Lst_nil..].
    + replace (write (PtrT e) (VPtr v)) with (write e v) by (by destruct e).
      apply IH; [by destruct e|done].
  - done.
Qed.

(** The encoder computes the encoding of the item. *)
Lemma EncodeToBytes_rlp t v i :
  item_of t v = Some i -> len (rlp i) < 2 ^ 63 -> EncodeToBytes t v = Some (inl (rlp i)).
Proof.
  intros Hi Hlen. destruct (write_spec t v i Hi Hlen emptyBuf) as (s & hs & k & E & L & [_ R]).
  unfold EncodeToBytes. rewrite E. do 2 f_equal. unfold toBytes, buf_size. cbn [emptyBuf str lheads lhsize app] in *.
  pose proof (len_nonneg (rlp i)) as H0.
  specialize (R [] [] []). rewrite !app_nil_r in R. cbn [app pieces] in R.
  change (len []) with 0 in R. rewrite Z.add_0_l in R. rewrite R by done. rewrite drop_ge by (unfold len; lia). rewrite app_nil_r.
  replace (Z.to_nat (len s + (0 + k))) with (length (rlp i)) by (unfold len in *; lia).
  by rewrite take_app_length.
Qed.
