(* ===== verification/RlpDecode.v ===== *)
(** The decoder of package rlp accepts exactly the encodings of items.

    [reads m v i]: from a stream that starts with the encoding of [i], [m]
    returns [v] and consumes it.  [parses m P]: whatever [m] returns, the bytes
    it has consumed are the encoding of an item related to the value by [P];
    and [m] ends, with a value or an error. *)

From S2P Require Import Prelude BigMath Rlp RlpSpec.
Import Big RLP.

(** * Streams over bytes *)

Definition mk (inp : list byte) (stk : list listpos) (k : option Kind) (sz : Z) (bv : byte)
    (ke : option rerror) : Stream :=
  mkStream inp (len inp) true k sz bv ke stk.

(** Open lists: the innermost one fits in the one around it. *)
Fixpoint stk_ok (stk : list listpos) : Prop :=
  match stk with
  | [] => True
  | t :: stk =>
      0 <= pos t <= lsize t /\ lsize t < 2 ^ 63 /\
      match stk with [] => True | p :: _ => pos p + lsize t <= lsize p end /\ stk_ok stk
  end.

Definition bump (stk : list listpos) (n : Z) : list listpos :=
  match stk with [] => [] | t :: stk => mkPos (pos t + n) (lsize t) :: stk end.

Definition at_end (stk : list listpos) : Prop :=
  match stk with [] => False | t :: _ => pos t = lsize t end.

#[export] Instance at_end_dec stk : Decision (at_end stk).
Proof. unfold at_end. destruct stk; apply _. Defined.

(** [n] bytes can be read: they are there, and in the innermost list. *)
Definition fits (n : Z) (inp : list byte) (stk : list listpos) : Prop :=
  n <= len inp /\ match stk with [] => True | t :: _ => n <= lsize t - pos t end.
#[export] Instance fits_dec n inp stk : Decision (fits n inp stk).
Proof. unfold fits. destruct stk; apply _. Defined.

Lemma bump_bump stk m n : bump (bump stk m) n = bump stk (m + n).
Proof. destruct stk; [done|]. cbn. by rewrite Z.add_assoc. Qed.

Lemma stk_ok_bump stk n inp : stk_ok stk -> 0 <= n -> fits n inp stk -> stk_ok (bump stk n).
Proof. destruct stk as [|t stk]; [done|]. cbn. unfold fits. intros (? & ? & ? & ?) ? [_ ?]. split_and!; try done; lia. Qed.

Lemma fits_app m n a b stk :
  len a = m -> 0 <= m -> fits n b (bump stk m) -> fits m (a ++ b) stk -> fits (m + n) (a ++ b) stk.
Proof. unfold fits. rewrite len_app. destruct stk; cbn; lia. Qed.

Lemma fits_rest m n a b stk : len a = m -> fits (m + n) (a ++ b) stk -> fits n b (bump stk m).
Proof. unfold fits. rewrite len_app. destruct stk; cbn; lia. Qed.

Lemma fits_le m n inp stk : m <= n -> fits n inp stk -> fits m inp stk.
Proof. unfold fits. destruct stk; lia. Qed.

Ltac stream := unfold mbind, ST_bind, mret, ST_ret, gets, modify, throw; cbn.

Lemma readFull_fits n a b stk k sz bv ke :
  stk_ok stk -> len (a ++ b) < 2 ^ 63 -> len a = n -> fits n (a ++ b) stk ->
  readFull n (mk (a ++ b) stk k sz bv ke) = Ok a (mk b (bump stk n) None sz bv ke).
Proof.
  intros Hstk Hlen Ha [Hf1 Hf2]. pose proof (len_nonneg a). rewrite len_app in *. pose proof (len_nonneg b).
  unfold readFull, willRead, set_kind, set_stack, set_remaining, set_reader, mk.
  assert (Z.to_nat n = length a) as Hn by (unfold len in *; lia).
  assert (u64 (len a + len b - n) = len b) as Hr by (rewrite u64_small; lia).
  destruct stk as [|t stk]; stream; rewrite ?len_app.
  - replace (n >? len a + len b) with false by lia. cbn. rewrite ?len_app.
    replace (n <=? len a + len b) with true by lia. cbn.
    by rewrite Hn, Hr, take_app_length, drop_app_length.
  - destruct Hstk as (? & ? & _). cbn in Hf2. rewrite !u64_small by lia.
    replace (n >? lsize t - pos t) with false by lia. cbn. rewrite ?len_app.
    replace (n >? len a + len b) with false by lia. cbn. rewrite ?len_app.
    replace (n <=? len a + len b) with true by lia. cbn.
    rewrite Hn, take_app_length, drop_app_length. do 2 f_equal. lia.
Qed.

Lemma readFull_over n inp stk k sz bv ke :
  stk_ok stk -> 0 <= n -> ~ fits n inp stk ->
  exists e s', readFull n (mk inp stk k sz bv ke) = Fail e s' /\ (e = ErrElemTooLarge \/ e = ErrValueTooLarge).
Proof.
  intros Hstk Hn Hf. unfold readFull, willRead, set_kind, set_stack, set_remaining, set_reader, mk, fits in *.
  destruct stk as [|t stk]; stream.
  - replace (n >? len inp) with true by lia. eauto.
  - destruct Hstk as (? & ? & _). rewrite !u64_small by lia.
    destruct (Z.gtb_spec n (lsize t - pos t)); [by eauto|].
    cbn. replace (n >? len inp) with true by lia. eauto.
Qed.

(** A byte is a string of length one. *)
Lemma readByte_readFull s : readByte s = match readFull 1 s with
                                         | Ok [x] s' => Ok x s'
                                         | Ok _ _ => Panic
                                         | Fail e s' => Fail e s'
                                         | Panic => Panic
                                         | OutOfFuel => OutOfFuel
                                         end.
Proof.
  unfold readByte, readFull, mbind, ST_bind. destruct (willRead 1 s) as [[] s'| | |]; [|done..].
  unfold gets. destruct (r s') as [|x b] eqn:E.
  - destruct s'. cbn in E. by subst.
  - rewrite len_cons. pose proof (len_nonneg b).
    replace (1 <=? len b + 1) with true by lia. done.
Qed.

Lemma readByte_fits x b stk k sz bv ke :
  stk_ok stk -> len (x :: b) < 2 ^ 63 -> fits 1 (x :: b) stk ->
  readByte (mk (x :: b) stk k sz bv ke) = Ok x (mk b (bump stk 1) None sz bv ke).
Proof. intros. rewrite readByte_readFull. by rewrite (readFull_fits 1 [x] b). Qed.

Lemma readByte_over inp stk k sz bv ke :
  stk_ok stk -> ~ fits 1 inp stk ->
  exists e s', readByte (mk inp stk k sz bv ke) = Fail e s' /\ (e = ErrElemTooLarge \/ e = ErrValueTooLarge).
Proof.
  intros Hs Hf. destruct (readFull_over 1 inp stk k sz bv ke Hs ltac:(lia) Hf) as (e & s' & E & He).
  exists e, s'. by rewrite readByte_readFull, E.
Qed.

(** * Headers *)

Lemma readUint_fits n a b stk k sz bv ke :
  stk_ok stk -> len (a ++ b) < 2 ^ 63 -> len a = n -> 0 < n -> fits n (a ++ b) stk ->
  (2 <= n -> head a <> Some x00) ->
  readUint n (mk (a ++ b) stk k sz bv ke) = Ok (be_val a) (mk b (bump stk n) None sz bv ke).
Proof.
  intros Hs Hlen Ha Hn Hf Hz. unfold readUint. replace (n =? 0) with false by lia.
  destruct (Z.eqb_spec n 1) as [->|].
  - destruct a as [|x [|y a]]; [done| |rewrite !len_cons in Ha; pose proof (len_nonneg a); lia].
    cbn [app]. rewrite (bind_Ok _ _ _ _ _ (readByte_fits x b stk k sz bv ke Hs Hlen Hf)). done.
  - rewrite (bind_Ok _ _ _ _ _ (readFull_fits n a b stk k sz bv ke Hs Hlen Ha Hf)).
    destruct a as [|[] a]; try done. by specialize (Hz ltac:(lia)).
Qed.

(** What readUint has read when it returns. *)
Lemma readUint_back n inp stk k sz bv ke :
  stk_ok stk -> len inp < 2 ^ 63 -> 0 < n ->
  wp (readUint n) (fun v s' => exists a b, inp = a ++ b /\ len a = n /\ v = be_val a /\
      (2 <= n -> head a <> Some x00) /\ fits n inp stk /\ s' = mk b (bump stk n) None sz bv ke)
    (fun e _ => e <> EOL) (mk inp stk k sz bv ke).
Proof.
  intros Hs Hlen Hn. destruct (decide (fits n inp stk)) as [Hf|Hf].
  - assert (exists a b, inp = a ++ b /\ len a = n) as (a & b & -> & Ha).
    { exists (take (Z.to_nat n) inp), (drop (Z.to_nat n) inp). rewrite take_drop. split; [done|].
      destruct Hf. unfold len in *. rewrite length_take. lia. }
    destruct (decide (2 <= n /\ head a = Some x00)) as [[H2 Hz]|Hz].
    + unfold wp, readUint. replace (n =? 0) with false by lia. replace (n =? 1) with false by lia.
      rewrite (bind_Ok _ _ _ _ _ (readFull_fits n a b stk k sz bv ke Hs Hlen Ha Hf)).
      destruct a as [|x a]; [done|]. injection Hz as ->. done.
    + unfold wp. rewrite readUint_fits by (done || (intros ? ?; apply Hz; done)).
      exists a, b. split_and!; try done. intros ? ?. by apply Hz.
  - unfold wp, readUint. replace (n =? 0) with false by lia. destruct (Z.eqb_spec n 1) as [->|].
    + destruct (readByte_over inp stk k sz bv ke Hs Hf) as (e & s' & E & He).
      unfold mbind, ST_bind. rewrite E. by destruct He as [->| ->].
    + destruct (readFull_over n inp stk k sz bv ke Hs ltac:(lia) Hf) as (e & s' & E & He).
      unfold mbind, ST_bind. rewrite E. by destruct He as [->| ->].
Qed.

(** [tagged h k n x]: [h] is the header of kind [k] for [n] bytes; the header
    of a single byte is the byte [x]. *)
Definition tagged (h : list byte) (k : Kind) (n : Z) (x : byte) : Prop :=
  match k with
  | Byte => h = [x] /\ byte_Z x < 128 /\ n = 0
  | String => h = header 0x80 n /\ 0 <= n < 2 ^ 64
  | List => h = header 0xC0 n /\ 0 <= n < 2 ^ 64
  end.

Lemma tagged_len h k n x : tagged h k n x -> 1 <= len h.
Proof. destruct k; intros (-> & _); [done|apply header_nonempty..]. Qed.

(** A long header is the tag and the bytes of the length. *)
Lemma long_header tag a :
  56 <= be_val a -> (2 <= len a -> head a <> Some x00) ->
  header tag (be_val a) = Z_byte (tag + 55 + len a) :: a.
Proof.
  intros Hv Hz. unfold header. replace (be_val a <? 56) with false by lia.
  destruct a as [|x a]; [cbn in Hv; lia|]. rewrite Bytes_be_val; [done|]. intros Hx.
  assert (x = x00) as -> by by apply byte_Z_inj. destruct a as [|y a].
  - cbn in Hv. lia.
  - apply Hz; [|done]. rewrite !len_cons. pose proof (len_nonneg a). lia.
Qed.

Lemma Z_byte_tag x t : byte_Z x = t -> Z_byte t = x.
Proof. intros <-. apply Z_byte_byte_Z. Qed.

Lemma be_val_64 a : len a <= 8 -> 0 <= be_val a < 2 ^ 64.
Proof.
  intros Ha. pose proof (be_val_bound a). pose proof (len_nonneg a).
  assert (256 ^ len a <= 256 ^ 8) by (apply Z.pow_le_mono_r; lia). lia.
Qed.

Lemma readLongSize_back x k tag inp stk k0 sz bv ke :
  stk_ok (bump stk 1) -> len (x :: inp) < 2 ^ 63 -> fits 1 (x :: inp) stk ->
  tag = (match k with Byte => 0 | String => 0x80 | List => 0xC0 end) -> k <> Byte ->
  0 < byte_Z x - (tag + 55) <= 8 ->
  wp (readLongSize k (byte_Z x - (tag + 55))) (fun '(k', n, err) s' => k' = k /\
      match err with
      | Some e => e <> EOL
      | None => exists h rest, tagged h k n x00 /\ x :: inp = h ++ rest /\ fits (len h) (x :: inp) stk /\
                  s' = mk rest (bump stk (len h)) None sz bv ke
      end) (fun _ _ => False) (mk inp (bump stk 1) k0 sz bv ke).
Proof.
  intros Hs Hlen Hf Htag Hk Hx. rewrite len_cons in Hlen. unfold readLongSize, wp, mbind, ST_bind, try_.
  pose proof (readUint_back (byte_Z x - (tag + 55)) inp (bump stk 1) k0 sz bv ke Hs ltac:(lia) ltac:(lia)) as H.
  unfold wp in H. destruct (readUint _ _) as [v s'|e s'| |]; [|done..].
  destruct H as (a & b & -> & Ha & -> & Hz & Hfa & ->). cbn. split; [done|].
  destruct (Z.ltb_spec (be_val a) 56); [done|].
  pose proof (be_val_64 a ltac:(lia)). pose proof (long_header tag a ltac:(lia)) as Hh. rewrite Ha in Hh.
  specialize (Hh Hz). rewrite (Z_byte_tag x) in Hh by lia.
  exists (x :: a), b. rewrite len_cons, Ha.
  replace (byte_Z x - (tag + 55) + 1) with (1 + (byte_Z x - (tag + 55))) by lia. split_and!.
  - destruct k; [done|subst tag; split; [by rewrite Hh|done]..].
  - done.
  - apply (fits_app 1 _ [x]); [done|lia|done|done].
  - by rewrite <- bump_bump.
Qed.

Lemma readKind_back inp stk k0 sz bv ke :
  stk_ok stk -> len inp < 2 ^ 63 ->
  wp readKind (fun '(k, n, err) s' =>
      match err with
      | Some e => e <> EOL
      | None => exists h rest x, tagged h k n x /\ inp = h ++ rest /\ fits (len h) inp stk /\
                  s' = mk rest (bump stk (len h)) None sz x ke
      end) (fun _ _ => False) (mk inp stk k0 sz bv ke).
Proof.
  intros Hs Hlen. unfold readKind. apply wp_bind. unfold wp at 1, try_.
  destruct (decide (fits 1 inp stk)) as [Hf|Hf].
  2:{ destruct (readByte_over inp stk k0 sz bv ke Hs Hf) as (e & s' & -> & He).
      apply wp_bind, wp_gets, wp_ret. destruct (stack s'), He as [->| ->]; done. }
  destruct inp as [|x inp]; [destruct Hf as [Hf _]; done|].
  rewrite readByte_fits by done. pose proof (stk_ok_bump stk 1 _ Hs ltac:(lia) Hf) as Hs'.
  pose proof (byte_Z_range x) as Hx.
  apply wp_bind, wp_modify. cbn [mk r remaining limited kind ssize byteval kinderr stack].
  fold (mk inp (bump stk 1) None sz x00 ke).
  assert (forall k tag n y, tag = (match k with Byte => 0 | String => 0x80 | List => 0xC0 end) ->
    k <> Byte -> byte_Z x = tag + n -> 0 <= n < 56 ->
    exists h rest x', tagged h k n x' /\ x :: inp = h ++ rest /\ fits (len h) (x :: inp) stk /\
      mk inp (bump stk 1) None sz y ke = mk rest (bump stk (len h)) None sz x' ke) as Hshort.
  { intros k tag n y Htag Hk Hn Hr. exists [x], inp, y. split_and!; try done.
    assert (header tag n = [x]) as Hh.
    { unfold header. replace (n <? 56) with true by lia. by rewrite (Z_byte_tag x). }
    destruct k; [done|subst tag; split; [done|lia]..]. }
  destruct (Z.ltb_spec (byte_Z x) 0x80).
  { apply wp_bind, wp_modify, wp_ret. exists [x], inp, x. split_and!; done. }
  destruct (Z.ltb_spec (byte_Z x) 0xB8); [apply wp_ret; apply (Hshort String 0x80); [done|done|lia|lia]|].
  destruct (Z.ltb_spec (byte_Z x) 0xC0).
  { eapply wp_mono; [apply (readLongSize_back x String 0x80); try done; lia| |done].
    intros [[k n] [e|]] s'; [by intros [_ ?]|]. intros [-> (h & rest & ?)]. by exists h, rest, x00. }
  destruct (Z.ltb_spec (byte_Z x) 0xF8); [apply wp_ret; apply (Hshort List 0xC0); [done|done|lia|lia]|].
  eapply wp_mono; [apply (readLongSize_back x List 0xC0); try done; lia| |done].
  intros [[k n] [e|]] s'; [by intros [_ ?]|]. intros [-> (h & rest & ?)]. by exists h, rest, x00.
Qed.

Lemma byte_tag t : 0 <= t < 256 -> byte_Z (Z_byte t) = t.
Proof. intros. rewrite byte_Z_Z_byte. by apply Z.mod_small. Qed.

Lemma readLongSize_fits k n b stk k0 sz bv ke :
  stk_ok stk -> len (Bytes n ++ b) < 2 ^ 63 -> 56 <= n < 2 ^ 64 -> fits (len (Bytes n)) (Bytes n ++ b) stk ->
  readLongSize k (len (Bytes n)) (mk (Bytes n ++ b) stk k0 sz bv ke) =
  Ok (k, n, None) (mk b (bump stk (len (Bytes n))) None sz bv ke).
Proof.
  intros Hs Hlen Hn Hf. destruct (Bytes_head n ltac:(lia)) as (x & l & E & Hx).
  unfold readLongSize, mbind, ST_bind, try_. rewrite readUint_fits; try done.
  - change (be_val (Bytes n)) with (SetBytes (Bytes n)). rewrite SetBytes_Bytes, Z.abs_eq by lia. cbn.
    by replace (n <? 56) with false by lia.
  - rewrite E, len_cons. pose proof (len_nonneg l). lia.
  - rewrite E. intros _ [= ->]. done.
Qed.

Lemma readKind_fits h k n x rest stk k0 sz bv ke :
  tagged h k n x -> stk_ok stk -> len (h ++ rest) < 2 ^ 63 -> fits (len h) (h ++ rest) stk ->
  exists x', (k = Byte -> x' = x) /\
    readKind (mk (h ++ rest) stk k0 sz bv ke) = Ok (k, n, None) (mk rest (bump stk (len h)) None sz x' ke).
Proof.
  intros Ht Hs Hlen Hf. assert (exists y l, h = y :: l) as (y & l & ->).
  { pose proof (tagged_len _ _ _ _ Ht). destruct h; [done|eauto]. }
  pose proof (len_nonneg l). rewrite len_cons in Hf. cbn [app] in *.
  assert (fits 1 (y :: l ++ rest) stk) as Hf1 by (eapply fits_le; [|exact Hf]; lia).
  pose proof (stk_ok_bump stk 1 _ Hs ltac:(lia) Hf1) as Hs'.
  assert (fits (len l) (l ++ rest) (bump stk 1)) as Hf2.
  { apply (fits_rest 1 (len l) [y]); [done|]. by rewrite Z.add_comm. }
  rewrite len_cons in Hlen. rewrite (len_cons y l), Z.add_comm, <- bump_bump.
  unfold readKind. erewrite bind_Ok by (unfold try_; rewrite readByte_fits by (done || (rewrite len_cons; lia)); reflexivity).
  cbv beta iota. erewrite bind_Ok by reflexivity. cbn [mk r remaining limited kind ssize byteval kinderr stack].
  fold (mk (l ++ rest) (bump stk 1) None sz x00 ke).
  destruct k; cbn [tagged] in Ht.
  - destruct Ht as ([= -> ->] & Hx & ->). exists x. split; [done|].
    replace (byte_Z x <? 0x80) with true by lia. cbn [app len length Z.of_nat]. by rewrite bump_bump.
  - exists x00. split; [done|]. destruct Ht as [Hh Hn]. unfold header in Hh.
    destruct (Z.ltb_spec n 56); injection Hh as -> ->.
    + rewrite byte_tag by lia. replace (0x80 + n <? 0x80) with false by lia.
      replace (0x80 + n <? 0xB8) with true by lia. replace (0x80 + n - 0x80) with n by lia. by rewrite bump_bump.
    + pose proof (Bytes_len_le n 8 ltac:(change (256 ^ Z.of_nat 8) with (2 ^ 64); lia)).
      pose proof (Bytes_len_pos n ltac:(lia)). rewrite byte_tag by lia.
      replace (0x80 + 55 + _ <? 0x80) with false by lia. replace (0x80 + 55 + _ <? 0xB8) with false by lia.
      replace (0x80 + 55 + _ <? 0xC0) with true by lia.
      replace (0x80 + 55 + len (Bytes n) - 0xB7) with (len (Bytes n)) by lia.
      apply readLongSize_fits; (done || lia).
  - exists x00. split; [done|]. destruct Ht as [Hh Hn]. unfold header in Hh.
    destruct (Z.ltb_spec n 56); injection Hh as -> ->.
    + rewrite byte_tag by lia. replace (0xC0 + n <? 0x80) with false by lia.
      replace (0xC0 + n <? 0xB8) with false by lia. replace (0xC0 + n <? 0xC0) with false by lia.
      replace (0xC0 + n <? 0xF8) with true by lia. replace (0xC0 + n - 0xC0) with n by lia. by rewrite bump_bump.
    + pose proof (Bytes_len_le n 8 ltac:(change (256 ^ Z.of_nat 8) with (2 ^ 64); lia)).
      pose proof (Bytes_len_pos n ltac:(lia)). rewrite byte_tag by lia.
      replace (0xC0 + 55 + _ <? 0x80) with false by lia. replace (0xC0 + 55 + _ <? 0xB8) with false by lia.
      replace (0xC0 + 55 + _ <? 0xC0) with false by lia. replace (0xC0 + 55 + _ <? 0xF8) with false by lia.
      replace (0xC0 + 55 + len (Bytes n) - 0xF7) with (len (Bytes n)) by lia.
      apply readLongSize_fits; (done || lia).
Qed.

Lemma not_at_end n inp stk : 1 <= n -> fits n inp stk -> ~ at_end stk.
Proof. unfold fits, at_end. destruct stk; [by intros ? ? []|lia]. Qed.

(** The part of Kind after the test for the end of the list. *)
Definition readNext : D unit :=
  '(k, size, err) ← readKind;
  set_kind (Some k);; set_size size;; set_kinderr err;;
  match err with
  | Some _ => mret tt
  | None =>
      st ← gets stack;
      match st with
      | [] =>
          lim ← gets limited; rem ← gets remaining;
          if lim && (size >? rem) then set_kinderr (Some ErrValueTooLarge) else mret tt
      | tos :: _ =>
          if size >? u64 (lsize tos - pos tos) then set_kinderr (Some ErrElemTooLarge)
          else mret tt
      end
  end.
Definition answer : D (Kind * Z) :=
  err ← gets kinderr;
  match err with
  | Some e => throw e
  | None => k ← gets kind; size ← gets ssize; mret (default Byte k, size)
  end.

Lemma Kind_at_end inp stk sz bv ke :
  at_end stk -> Kind_ (mk inp stk None sz bv ke) = Fail EOL (mk inp stk None sz bv None).
Proof.
  destruct stk as [|t stk]; [done|]. cbn [at_end]. intros Ht. unfold Kind_, mk. stream.
  by rewrite Ht, Z.eqb_refl.
Qed.

Lemma Kind_next inp stk sz bv ke :
  ~ at_end stk -> Kind_ (mk inp stk None sz bv ke) = (readNext;; answer) (mk inp stk None sz bv None).
Proof.
  intros Ht. unfold Kind_. destruct stk as [|t stk]; unfold mk.
  - reflexivity.
  - cbn [at_end] in Ht. unfold mbind, ST_bind, gets, set_kinderr, modify at 1. cbn [kind stack r remaining limited ssize byteval kinderr].
    destruct (Z.eqb_spec (pos t) (lsize t)); [done|]. reflexivity.
Qed.

(** [n] bytes are within the innermost list, or the input. *)
Definition roomy (n : Z) (inp : list byte) (stk : list listpos) : Prop :=
  match stk with [] => n <= len inp | t :: _ => n <= lsize t - pos t end.

Lemma fits_roomy n inp stk : fits n inp stk -> roomy n inp stk.
Proof. unfold fits, roomy. destruct stk; lia. Qed.

Lemma answer_back k n x rest stk (Q : Kind * Z -> Stream -> Prop) F :
  Q (k, n) (mk rest stk (Some k) n x None) ->
  wp answer Q F (mk rest stk (Some k) n x None).
Proof. done. Qed.

Lemma Kind_back inp stk sz bv ke :
  stk_ok stk -> len inp < 2 ^ 63 ->
  wp Kind_ (fun '(k, n) s' => exists h rest x, tagged h k n x /\ inp = h ++ rest /\
      fits (len h) inp stk /\ roomy (len h + n) inp stk /\ s' = mk rest (bump stk (len h)) (Some k) n x None)
    (fun e s' => e = EOL -> at_end stk /\ s' = mk inp stk None sz bv None) (mk inp stk None sz bv ke).
Proof.
  intros Hs Hlen. destruct (decide (at_end stk)) as [He|He].
  { unfold wp. by rewrite Kind_at_end. }
  match goal with |- wp _ ?Q ?F _ => cut (wp (readNext;; answer) Q F (mk inp stk None sz bv None)) end.
  { unfold wp. by rewrite Kind_next. }
  apply wp_bind. unfold readNext. apply wp_bind.
  eapply wp_mono; [by apply readKind_back| |done]. intros [[k n] err] s' Hk. cbv beta.
  do 3 apply wp_bind, wp_modify. destruct err as [e|]; [by apply wp_ret|].
  destruct Hk as (h & rest & x & Ht & -> & Hf & ->). pose proof (tagged_len _ _ _ _ Ht).
  apply wp_bind, wp_gets. cbn [mk r remaining limited kind ssize byteval kinderr stack].
  destruct stk as [|t stk]; cbn [bump].
  - apply wp_bind, wp_gets, wp_bind, wp_gets. cbn [limited remaining andb].
    destruct (Z.gtb_spec n (len rest)); [by apply wp_modify|]. apply wp_ret, answer_back.
    exists h, rest, x. split_and!; try done. cbn. rewrite len_app. lia.
  - destruct Hs as (? & ? & _). pose proof Hf as [_ Hf']. cbn in Hf'.
    cbn [lsize pos]. rewrite u64_small by lia.
    destruct (Z.gtb_spec n (lsize t - (pos t + len h))); [by apply wp_modify|]. apply wp_ret, answer_back.
    exists h, rest, x. split_and!; try done. cbn. lia.
Qed.

Lemma Kind_fits h k n x rest stk sz bv ke :
  tagged h k n x -> stk_ok stk -> len (h ++ rest) < 2 ^ 63 -> fits (len h + n) (h ++ rest) stk ->
  exists x', (k = Byte -> x' = x) /\
    Kind_ (mk (h ++ rest) stk None sz bv ke) = Ok (k, n) (mk rest (bump stk (len h)) (Some k) n x' None).
Proof.
  intros Ht Hs Hlen Hf. pose proof (tagged_len _ _ _ _ Ht). assert (0 <= n) by (destruct k; cbn in Ht; lia).
  assert (fits (len h) (h ++ rest) stk) as Hf1 by (eapply fits_le; [|exact Hf]; lia).
  destruct (readKind_fits h k n x rest stk None sz bv None Ht Hs Hlen Hf1) as (x' & Hx' & E).
  exists x'. split; [done|]. rewrite Kind_next by (eapply not_at_end; [|exact Hf1]; lia).
  unfold readNext. unfold mbind at 1, ST_bind at 1. unfold mbind at 1, ST_bind at 1. rewrite E.
  unfold mk. destruct stk as [|t stk]; unfold set_kind, set_size, set_kinderr; stream.
  - destruct Hf as [Hf _]. rewrite len_app in Hf. by replace (n >? len rest) with false by lia.
  - destruct Hs as (? & ? & _), Hf as [_ Hf], Hf1 as [_ Hf1]. rewrite u64_small by lia.
    by replace (n >? _) with false by lia.
Qed.

(** * Values *)

Definition parses {A} (m : D A) (P : A -> item -> Prop) : Prop :=
  forall inp stk sz bv ke, stk_ok stk -> len inp < 2 ^ 63 ->
    wp m (fun a s' => exists i rest sz' bv' ke', P a i /\ inp = rlp i ++ rest /\
            fits (len (rlp i)) inp stk /\ s' = mk rest (bump stk (len (rlp i))) None sz' bv' ke')
      (fun e s' => e = EOL -> at_end stk /\ exists sz' bv' ke', s' = mk inp stk None sz' bv' ke')
      (mk inp stk None sz bv ke).

Definition reads {A} (m : D A) (a : A) (i : item) : Prop :=
  forall rest stk sz bv ke, stk_ok stk -> len (rlp i ++ rest) < 2 ^ 63 ->
    fits (len (rlp i)) (rlp i ++ rest) stk ->
    exists sz' bv' ke', m (mk (rlp i ++ rest) stk None sz bv ke) =
      Ok a (mk rest (bump stk (len (rlp i))) None sz' bv' ke').

Lemma readFull_back n inp stk k sz bv ke :
  stk_ok stk -> len inp < 2 ^ 63 -> 0 <= n ->
  wp (readFull n) (fun b s' => exists rest, inp = b ++ rest /\ len b = n /\ fits n inp stk /\
      s' = mk rest (bump stk n) None sz bv ke)
    (fun e _ => e = ErrElemTooLarge \/ e = ErrValueTooLarge) (mk inp stk k sz bv ke).
Proof.
  intros Hs Hlen Hn. unfold wp. destruct (decide (fits n inp stk)) as [Hf|Hf].
  - rewrite <- (take_drop (Z.to_nat n) inp) in Hlen, Hf |- *.
    assert (len (take (Z.to_nat n) inp) = n).
    { destruct Hf as [Hf _]. rewrite take_drop in Hf. unfold len in *. rewrite length_take. lia. }
    rewrite readFull_fits by done. by exists (drop (Z.to_nat n) inp).
  - by destruct (readFull_over n inp stk k sz bv ke Hs Hn Hf) as (e & s' & -> & He).
Qed.

Lemma rlp_single x : byte_Z x < 128 -> rlp (Str [x]) = [x].
Proof. intros. cbn [rlp is_single]. by replace (byte_Z x <? 128) with true by lia. Qed.

Lemma rlp_long b : is_single b = false -> rlp (Str b) = header 0x80 (len b) ++ b.
Proof. intros H. cbn [rlp]. by rewrite H. Qed.

Lemma is_single_len b : is_single b = match b with x :: _ => (len b =? 1) && (byte_Z x <? 128) | [] => false end.
Proof.
  destruct b as [|x [|y b]]; [done..|]. rewrite !len_cons. pose proof (len_nonneg b).
  by replace (len b + 1 + 1 =? 1) with false by lia.
Qed.

(** The header and the content of a string. *)
Lemma content_back n h rest stk k sz bv ke :
  h = header 0x80 n -> stk_ok stk -> len (h ++ rest) < 2 ^ 63 -> 0 <= n < 2 ^ 64 -> fits (len h) (h ++ rest) stk ->
  wp (readFull n) (fun b s' => exists rest', rest = b ++ rest' /\ len b = n /\
      (is_single b = false -> h ++ rest = rlp (Str b) ++ rest' /\ fits (len (rlp (Str b))) (h ++ rest) stk /\
       s' = mk rest' (bump stk (len (rlp (Str b)))) None sz bv ke))
    (fun e _ => e = ErrElemTooLarge \/ e = ErrValueTooLarge) (mk rest (bump stk (len h)) k sz bv ke).
Proof.
  intros Hh Hs Hlen Hn Hf. pose proof (len_nonneg h). rewrite len_app in Hlen.
  eapply wp_mono; [apply readFull_back; [by eapply stk_ok_bump|lia|lia]| |done].
  intros b s' (rest' & -> & Hb & Hf' & ->). exists rest'. split_and!; [done..|]. intros Hsin.
  rewrite rlp_long, Hb, <- Hh, <- app_assoc, len_app, Hb by done. split_and!; [done| |by rewrite bump_bump].
  apply fits_app; done.
Qed.

Lemma Bytes_back : parses Bytes_ (fun b i => i = Str b).
Proof.
  intros inp stk sz bv ke Hs Hlen. unfold Bytes_. apply wp_bind.
  eapply wp_mono; [by apply Kind_back| |intros e s' He ->; destruct (He eq_refl); eauto 10].
  intros [k n] s' (h & rest & x & Ht & -> & Hf & _ & ->). destruct k; cbn [tagged] in Ht.
  - destruct Ht as (-> & Hx & ->). apply wp_bind, wp_modify, wp_bind, wp_gets, wp_ret.
    exists (Str [x]), rest, 0, x, None. by rewrite rlp_single.
  - destruct Ht as [Hh Hn]. apply wp_bind.
    eapply wp_mono; [by apply content_back| |by intros e s' [->| ->]].
    intros b s' (rest' & -> & Hb & Hok). pose proof (is_single_len b) as Hsin. subst n.
    destruct b as [|y b]; [|destruct (_ && _)]; [|by apply wp_throw|];
      destruct (Hok Hsin) as (? & ? & ->); apply wp_ret; eauto 10.
  - by apply wp_throw.
Qed.

Lemma string_fits s rest stk sz bv ke :
  is_single s = false -> stk_ok stk -> len (rlp (Str s) ++ rest) < 2 ^ 63 -> fits (len (rlp (Str s))) (rlp (Str s) ++ rest) stk ->
  exists x, Kind_ (mk (rlp (Str s) ++ rest) stk None sz bv ke) =
    Ok (String, len s) (mk (s ++ rest) (bump stk (len (header 0x80 (len s)))) (Some String) (len s) x None) /\
  forall k sz' bv' ke', readFull (len s) (mk (s ++ rest) (bump stk (len (header 0x80 (len s)))) k sz' bv' ke') =
    Ok s (mk rest (bump stk (len (rlp (Str s)))) None sz' bv' ke').
Proof.
  intros Hsin Hs. rewrite rlp_long by done. set (h := header 0x80 (len s)).
  rewrite <- app_assoc, !len_app. intros Hlen Hf. pose proof (len_nonneg h). pose proof (len_nonneg s).
  pose proof (len_nonneg rest).
  destruct (Kind_fits h String (len s) x00 (s ++ rest) stk sz bv ke) as (x & _ & E);
    [split; [done|lia]|done|rewrite !len_app; lia|done|].
  exists x. split; [done|]. intros. rewrite readFull_fits; [by rewrite bump_bump| | |done|].
  - eapply stk_ok_bump; [done|lia|]. eapply fits_le; [|exact Hf]. lia.
  - rewrite len_app. lia.
  - by apply (fits_rest _ _ h).
Qed.

Lemma single_fits x rest stk sz bv ke :
  byte_Z x < 128 -> stk_ok stk -> len (rlp (Str [x]) ++ rest) < 2 ^ 63 -> fits (len (rlp (Str [x]))) (rlp (Str [x]) ++ rest) stk ->
  Kind_ (mk (rlp (Str [x]) ++ rest) stk None sz bv ke) =
    Ok (Byte, 0) (mk rest (bump stk (len (rlp (Str [x])))) (Some Byte) 0 x None).
Proof.
  intros Hx Hs. rewrite rlp_single by done. intros Hlen Hf.
  destruct (Kind_fits [x] Byte 0 x rest stk sz bv ke) as (x' & Hx' & E); try done.
  by rewrite E, Hx'.
Qed.

Lemma Bytes_reads s : reads Bytes_ s (Str s).
Proof.
  intros rest stk sz bv ke Hs Hlen Hf. unfold Bytes_. destruct (is_single s) eqn:Hsin.
  - destruct s as [|x [|y s]]; try done. cbn [is_single] in Hsin.
    rewrite (bind_Ok _ _ _ _ _ (single_fits x rest stk sz bv ke ltac:(lia) Hs Hlen Hf)). cbv beta iota.
    repeat erewrite bind_Ok by reflexivity. by eexists _, _, _.
  - destruct (string_fits s rest stk sz bv ke Hsin Hs Hlen Hf) as (x & E & Er).
    rewrite (bind_Ok _ _ _ _ _ E). cbv beta iota. rewrite (bind_Ok _ _ _ _ _ (Er _ _ _ _)).
    rewrite is_single_len in Hsin. destruct s as [|y s]; [by eexists _, _, _|].
    rewrite Hsin. by eexists _, _, _.
Qed.

(** The bytes of a number, minimal when it has no leading zero. *)
Lemma Bytes_minimal a : be_val a <> 0 -> (2 <= len a -> head a <> Some x00) -> Bytes (be_val a) = a.
Proof.
  intros Hv Hz. destruct a as [|x a]; [done|]. apply Bytes_be_val. intros Hx.
  assert (x = x00) as -> by by apply byte_Z_inj. destruct a as [|y a]; [done|].
  apply Hz; [|done]. rewrite !len_cons. pose proof (len_nonneg a). lia.
Qed.

Definition widths (bits : Z) : Prop := bits ∈ [8; 16; 32; 64].

Lemma widths_bound bits : widths bits -> 8 <= bits <= 64 /\ bits = 8 * (bits / 8).
Proof. unfold widths. intros H. set_unfold in H. destruct H as [->|[->|[->|[->|[]]]]]; done. Qed.

Lemma uint_back bits : widths bits ->
  parses (uint_ bits) (fun n i => i = Str (Bytes n) /\ 0 <= n < 2 ^ bits).
Proof.
  intros Hb inp stk sz bv ke Hs Hlen. destruct (widths_bound bits Hb) as [Hb1 Hb2].
  assert (2 ^ 8 <= 2 ^ bits) as Hp by (apply Z.pow_le_mono_r; lia). unfold uint_. apply wp_bind.
  eapply wp_mono; [by apply Kind_back| |intros e s' He ->; destruct (He eq_refl); eauto 10].
  intros [k n] s' (h & rest & x & Ht & -> & Hf & _ & ->). destruct k; cbn [tagged] in Ht.
  - destruct Ht as (-> & Hx & ->). pose proof (byte_Z_range x). apply wp_bind, wp_gets. cbn [byteval mk].
    destruct (Z.eqb_spec (byte_Z x) 0); [by apply wp_throw|]. apply wp_bind, wp_modify, wp_ret.
    exists (Str [x]), rest, 0, x, None. rewrite rlp_single by done. split_and!; try done; [|lia..].
    rewrite Bytes_single by lia. by rewrite Z_byte_byte_Z.
  - destruct Ht as [Hh Hn]. destruct (Z.gtb_spec n (bits / 8)); [by apply wp_throw|].
    pose proof (header_nonempty 0x80 n). rewrite <- Hh in *. rewrite len_app in Hlen.
    assert (stk_ok (bump stk (len h))) by (eapply stk_ok_bump; [done|lia|done]).
    destruct (Z.eqb_spec n 0) as [->|].
    + apply wp_bind. unfold wp at 1, try_, readUint. cbn. exists (Str []), rest. subst h. eauto 10 with lia.
    + apply wp_bind. unfold wp at 1, try_.
      pose proof (readUint_back n rest (bump stk (len h)) (Some String) n x None) as Hr.
      unfold wp in Hr. destruct (readUint _ _) as [v s'|e s'| |]; [| |exfalso; apply Hr; [done|lia|lia]..].
      * destruct Hr as (a & b & -> & Ha & -> & Hz & Hfa & ->); [done|lia|lia|].
        replace (n >? 0) with true by lia. cbn [andb]. destruct (Z.ltb_spec (be_val a) 128); [by apply wp_throw|].
        apply wp_ret. subst n. assert (Bytes (be_val a) = a) as Hm by (apply Bytes_minimal; [lia|done]).
        exists (Str a), b, (len a), x, None. rewrite Hm.
        rewrite rlp_long, <- Hh, <- app_assoc, len_app by (rewrite <- Hm; apply is_single_Bytes; lia).
        split_and!; try done; [lia| |apply fits_app; (done || lia)|by rewrite bump_bump].
        pose proof (be_val_bound a) as [_ Hv]. assert (256 ^ len a <= 256 ^ (bits / 8)) by (apply Z.pow_le_mono_r; lia).
        change 256 with (2 ^ 8) in *. rewrite <- !Z.pow_mul_r, <- Hb2 in * by lia. lia.
      * assert (e <> EOL) by (apply Hr; [done|lia|lia]). destruct e; by apply wp_throw.
  - by apply wp_throw.
Qed.

Lemma uint_reads bits n : widths bits -> 0 <= n < 2 ^ bits -> reads (uint_ bits) n (Str (Bytes n)).
Proof.
  intros Hb Hn rest stk sz bv ke Hs Hlen Hf. destruct (widths_bound bits Hb) as [Hb1 Hb2]. unfold uint_.
  assert (len (Bytes n) <= bits / 8) as Hl.
  { pose proof (Bytes_len_le n (Z.to_nat (bits / 8))) as H. rewrite Z2Nat.id in H by lia. apply H.
    change 256 with (2 ^ 8). rewrite <- Z.pow_mul_r, <- Hb2 by lia. done. }
  destruct (Z.lt_ge_cases n 128) as [H128|H128]; [destruct (Z.eqb_spec n 0) as [->|]|].
  - rewrite Bytes_0 in *. destruct (string_fits [] rest stk sz bv ke eq_refl Hs Hlen Hf) as (x & E & Er).
    rewrite (bind_Ok _ _ _ _ _ E). cbv beta iota. change (len []) with 0 in *.
    replace (0 >? bits / 8) with false by lia. cbn. by eexists _, _, _.
  - assert (byte_Z (Z_byte n) = n) as Hz by (apply byte_tag; lia). rewrite Bytes_single in * by lia.
    erewrite bind_Ok by (apply single_fits; [lia|done..]). cbv beta iota. erewrite bind_Ok by reflexivity.
    cbn [byteval mk]. rewrite Hz. replace (n =? 0) with false by lia. by eexists _, _, _.
  - destruct (string_fits (Bytes n) rest stk sz bv ke (is_single_Bytes n H128) Hs Hlen Hf) as (x & E & _).
    rewrite (bind_Ok _ _ _ _ _ E). cbv beta iota. pose proof (Bytes_len_pos n ltac:(lia)).
    replace (len (Bytes n) >? bits / 8) with false by lia. rewrite rlp_long in * by (by apply is_single_Bytes).
    rewrite <- app_assoc in *. set (h := header 0x80 (len (Bytes n))) in *. pose proof (header_nonempty 0x80 (len (Bytes n))).
    rewrite len_app in Hlen. pose proof (len_nonneg (Bytes n ++ rest)). fold h in H0.
    unfold mbind, ST_bind, try_. rewrite readUint_fits; try done; try lia.
    + change (be_val (Bytes n)) with (SetBytes (Bytes n)). rewrite SetBytes_Bytes, Z.abs_eq by lia.
      replace (len (Bytes n) >? 0) with true by lia. replace (n <? 128) with false by lia. cbn [andb].
      rewrite bump_bump, len_app. by eexists _, _, _.
    + eapply stk_ok_bump; [done|lia|]. eapply fits_le; [|exact Hf]. rewrite len_app. lia.
    + apply (fits_rest _ _ h); [done|]. by rewrite <- len_app.
    + destruct (Bytes_head n ltac:(lia)) as (y & l & -> & Hy). intros _ [= ->]. done.
Qed.

Lemma Bool_back : parses Bool_ (fun b i => i = Str (if b then [x01] else [])).
Proof.
  intros inp stk sz bv ke Hs Hlen. unfold Bool_. apply wp_bind.
  eapply wp_mono; [by apply uint_back; [left|..]| |done].
  intros n s' (i & rest & sz' & bv' & ke' & [-> Hn] & Hi & Hf & ->).
  destruct (Z.eqb_spec n 0) as [->|]; [by eapply wp_ret; eexists _, rest, _, _, _|].
  destruct (Z.eqb_spec n 1) as [->|]; [by eapply wp_ret; eexists _, rest, _, _, _|by apply wp_throw].
Qed.

Lemma Bool_reads b : reads Bool_ b (Str (if b then [x01] else [])).
Proof.
  intros rest stk sz bv ke Hs Hlen Hf. unfold Bool_.
  destruct (uint_reads 8 (if b then 1 else 0) ltac:(left) ltac:(destruct b; lia) rest stk sz bv ke Hs) as (? & ? & ? & E);
    [by destruct b..|].
  replace (Str (Bytes (if b then 1 else 0))) with (Str (if b then [x01] else [])) in E by (by destruct b).
  rewrite (bind_Ok _ _ _ _ _ E). destruct b; by eexists _, _, _.
Qed.

(** * Lists *)

Lemma wrapped_back {A} (m : D A) P : parses m P -> parses (wrapped m) P.
Proof.
  intros Hm inp stk sz bv ke Hs Hlen. specialize (Hm inp stk sz bv ke Hs Hlen).
  unfold wp, wrapped in *. destruct (m _) as [a s'|e s'| |]; try done.
  intros He. apply Hm. by destruct e.
Qed.

Lemma wrapped_Ok {A} (m : D A) a s s' : m s = Ok a s' -> wrapped m s = Ok a s'.
Proof. intros E. unfold wrapped. by rewrite E. Qed.

Lemma wrapped_EOL {A} (m : D A) s s' : m s = Fail EOL s' -> wrapped m s = Fail EOL s'.
Proof. intros E. unfold wrapped. by rewrite E. Qed.

Lemma wrapped_reads {A} (m : D A) a i : reads m a i -> reads (wrapped m) a i.
Proof.
  intros Hm rest stk sz bv ke Hs Hlen Hf. destruct (Hm rest stk sz bv ke Hs Hlen Hf) as (x & y & z & E).
  exists x, y, z. by apply wrapped_Ok.
Qed.

Lemma List_back inp stk sz bv ke :
  stk_ok stk -> len inp < 2 ^ 63 ->
  wp (wrapped List_) (fun n s' => exists h rest x, h = header 0xC0 n /\ 0 <= n /\ inp = h ++ rest /\
      fits (len h) inp stk /\ roomy (len h + n) inp stk /\ stk_ok (mkPos 0 n :: bump stk (len h)) /\
      s' = mk rest (mkPos 0 n :: bump stk (len h)) None 0 x None)
    (fun e s' => e = EOL -> at_end stk /\ exists sz' bv' ke', s' = mk inp stk None sz' bv' ke')
    (mk inp stk None sz bv ke).
Proof.
  intros Hs Hlen.
  match goal with |- wp (wrapped _) ?Q ?F _ => enough (wp List_ Q F (mk inp stk None sz bv ke)) as H end.
  { unfold wp, wrapped in *. destruct (List_ _) as [a s'|e s'| |]; try done. intros He. apply H. by destruct e. }
  unfold List_. apply wp_bind.
  eapply wp_mono; [by apply Kind_back| |intros e s' He ->; destruct (He eq_refl); eauto 10].
  intros [k n] s' (h & rest & x & Ht & -> & Hf & Hr & ->). destruct k; try (by apply wp_throw).
  cbn [tagged] in Ht. destruct Ht as [Hh Hn]. pose proof (header_nonempty 0xC0 n). rewrite <- Hh in *.
  apply wp_bind, wp_gets. do 3 apply wp_bind, wp_modify. apply wp_ret. exists h, rest, x.
  assert (stk_ok (mkPos 0 n :: bump stk (len h))); [|by split_and!; try done; lia].
  pose proof (stk_ok_bump stk (len h) _ Hs ltac:(lia) Hf) as Hs'. unfold roomy in Hr. rewrite !len_app in *.
  destruct stk as [|t stk]; cbn [bump stk_ok pos lsize] in *; split_and!; first [done|lia|tauto].
Qed.

Lemma List_fits n rest stk sz bv ke :
  stk_ok stk -> 0 <= n -> len (header 0xC0 n ++ rest) < 2 ^ 63 ->
  fits (len (header 0xC0 n) + n) (header 0xC0 n ++ rest) stk ->
  exists x, wrapped List_ (mk (header 0xC0 n ++ rest) stk None sz bv ke) =
    Ok n (mk rest (mkPos 0 n :: bump stk (len (header 0xC0 n))) None 0 x None) /\
  stk_ok (mkPos 0 n :: bump stk (len (header 0xC0 n))).
Proof.
  intros Hs Hn Hlen Hf. set (h := header 0xC0 n) in *. pose proof (header_nonempty 0xC0 n) as Hh. fold h in Hh.
  pose proof (len_nonneg rest). rewrite len_app in Hlen.
  assert (0 <= n < 2 ^ 64) by (unfold fits in Hf; rewrite len_app in Hf; lia).
  destruct (Kind_fits h List n x00 rest stk sz bv ke) as (x & _ & E); [done|done|rewrite len_app; lia|done|].
  exists x. split.
  - apply wrapped_Ok. unfold List_. rewrite (bind_Ok _ _ _ _ _ E). reflexivity.
  - assert (fits (len h) (h ++ rest) stk) as Hf' by (eapply fits_le; [|exact Hf]; lia).
    pose proof (stk_ok_bump stk (len h) _ Hs ltac:(lia) Hf') as Hs'. unfold fits in Hf. rewrite len_app in Hf.
    destruct stk as [|t stk]; cbn [bump stk_ok pos lsize] in *; split_and!; first [done|lia|tauto].
Qed.

Lemma ListEnd_fits n m rest stk k sz bv ke :
  stk_ok (mkPos 0 n :: bump stk m) ->
  ListEnd (mk rest (mkPos n n :: bump stk m) k sz bv ke) = Ok tt (mk rest (bump stk (m + n)) None 0 bv ke).
Proof.
  intros Hs. unfold ListEnd, mk. stream. rewrite Z.eqb_refl. cbn. rewrite <- bump_bump.
  destruct stk as [|t stk]; [done|]. cbn [bump] in *. cbn [stk_ok pos lsize] in Hs. cbn [pos lsize].
  rewrite u64_small by lia. done.
Qed.

Lemma ListEnd_back p n m rest stk k sz bv ke :
  stk_ok (mkPos 0 n :: bump stk m) ->
  wp ListEnd (fun _ s' => p = n /\ s' = mk rest (bump stk (m + n)) None 0 bv ke) (fun e _ => e <> EOL)
    (mk rest (mkPos p n :: bump stk m) k sz bv ke).
Proof.
  intros Hs. destruct (decide (p = n)) as [->|Hp].
  - unfold wp. by rewrite ListEnd_fits.
  - unfold ListEnd, wp, mk. stream. by replace (p =? n) with false by lia.
Qed.

(** A sequence of elements, related to the items by [R]. *)
Definition parsed_list (R : list value -> list item -> Prop) inp stk (vs : list value) (s' : Stream) : Prop :=
  exists js rest sz' bv' ke', R vs js /\ inp = body js ++ rest /\
    fits (len (body js)) inp stk /\ s' = mk rest (bump stk (len (body js))) None sz' bv' ke'.

Lemma parsed_nil (R : list value -> list item -> Prop) inp stk sz bv ke :
  R [] [] -> stk_ok stk -> parsed_list R inp stk [] (mk inp stk None sz bv ke).
Proof.
  intros HR Hs. exists [], inp, sz, bv, ke. cbn. split_and!; [done|done| |].
  - unfold fits. pose proof (len_nonneg inp). change (len []) with 0. destruct stk; [lia|]. cbn in Hs. lia.
  - destruct stk as [|[]]; [done|]. cbn. by rewrite Z.add_0_r.
Qed.

Lemma parsed_cons (R R' : list value -> list item -> Prop) v i vs rest stk s' :
  (forall js, R vs js -> R' (v :: vs) (i :: js)) ->
  fits (len (rlp i)) (rlp i ++ rest) stk -> parsed_list R rest (bump stk (len (rlp i))) vs s' ->
  parsed_list R' (rlp i ++ rest) stk (v :: vs) s'.
Proof.
  intros HR Hf (js & rest' & sz' & bv' & ke' & Hvs & -> & Hf' & ->).
  exists (i :: js), rest', sz', bv', ke'. rewrite body_cons, <- app_assoc, len_app, bump_bump in *.
  split_and!; [by apply HR|done| |done]. apply fits_app; try done. apply len_nonneg.
Qed.

Lemma sliceElems_back elem P fuel inp stk sz bv ke :
  parses elem P -> stk_ok stk -> len inp < 2 ^ 63 -> (length inp < fuel)%nat ->
  wp (decodeSliceElems fuel elem) (fun vs s' => parsed_list (Forall2 P) inp stk vs s' /\ at_end (stack s'))
    (fun e _ => e <> EOL) (mk inp stk None sz bv ke).
Proof.
  intros Hel. revert inp stk sz bv ke. induction fuel as [|fuel IH]; intros inp stk sz bv ke Hs Hlen Hfuel; [lia|].
  cbn [decodeSliceElems]. apply wp_bind. unfold wp at 1, try_.
  specialize (Hel inp stk sz bv ke Hs Hlen). unfold wp in Hel. destruct (elem _) as [v s'|e s'| |]; try done.
  - destruct Hel as (i & rest & sz' & bv' & ke' & Hv & -> & Hf & ->). pose proof (rlp_len i) as Hi.
    rewrite len_app in Hlen. apply wp_bind. eapply wp_mono; [apply IH| |done].
    + by eapply stk_ok_bump; [|apply len_nonneg|].
    + lia.
    + rewrite length_app in Hfuel. unfold len in Hi. lia.
    + intros vs s' [Hvs He]. apply wp_ret. split; [by eapply parsed_cons; [by constructor| |]|done].
  - destruct (decide (e = EOL)) as [->|He]; [|destruct e; (done || by apply wp_throw)].
    destruct (Hel eq_refl) as (Hend & sz' & bv' & ke' & ->). apply wp_ret. split; [by apply parsed_nil; [constructor|]|done].
Qed.

Lemma arrayElems_back elem P n inp stk sz bv ke :
  parses elem P -> stk_ok stk -> len inp < 2 ^ 63 ->
  wp (decodeArrayElems n elem) (fun vs s' => parsed_list (Forall2 P) inp stk vs s' /\ length vs = n)
    (fun e _ => e <> EOL) (mk inp stk None sz bv ke).
Proof.
  intros Hel. revert inp stk sz bv ke. induction n as [|n IH]; intros inp stk sz bv ke Hs Hlen.
  { apply wp_ret. split; [by apply parsed_nil; [constructor|]|done]. }
  cbn [decodeArrayElems]. apply wp_bind. unfold wp at 1, try_.
  specialize (Hel inp stk sz bv ke Hs Hlen). unfold wp in Hel. destruct (elem _) as [v s'|e s'| |]; try done.
  - destruct Hel as (i & rest & sz' & bv' & ke' & Hv & -> & Hf & ->).
    rewrite len_app in Hlen. pose proof (len_nonneg (rlp i)). apply wp_bind. eapply wp_mono; [apply IH| |done].
    + by eapply stk_ok_bump; [|apply len_nonneg|].
    + lia.
    + intros vs s' [Hvs <-]. apply wp_ret. split; [by eapply parsed_cons; [by constructor| |]|done].
  - by destruct e; apply wp_throw.
Qed.

(** The end of a list whose elements have been read. *)
Lemma end_back n rest stk R vs s' :
  let h := header 0xC0 n in
  stk_ok (mkPos 0 n :: bump stk (len h)) -> fits (len h) (h ++ rest) stk ->
  parsed_list R rest (mkPos 0 n :: bump stk (len h)) vs s' ->
  wp ListEnd (fun _ s' => exists js rest' sz' bv' ke', R vs js /\
      h ++ rest = rlp (Lst js) ++ rest' /\ fits (len (rlp (Lst js))) (h ++ rest) stk /\
      s' = mk rest' (bump stk (len (rlp (Lst js)))) None sz' bv' ke')
    (fun e _ => e <> EOL) s'.
Proof.
  intros h Hs Hf (js & rest' & sz' & bv' & ke' & Hvs & -> & [Hf1 Hf2] & ->). cbn [bump pos lsize] in *.
  eapply wp_mono; [by apply ListEnd_back| |done]. intros _ s' [Hn ->].
  rewrite Z.add_0_l in Hn. exists js, rest', 0, bv', ke'. rewrite rlp_Lst. rewrite Hn. fold h.
  rewrite <- app_assoc, len_app, Hn. split_and!; try done.
  apply fits_app; [done|apply len_nonneg| |done]. split; [lia|].
  destruct stk as [|t stk]; [done|]. cbn [bump stk_ok pos lsize] in *. lia.
Qed.

(** * The decoder *)

Definition accepts (t : Typ) : Prop :=
  parses (decode t) (fun v i => item_of t v = Some i /\ no_nil v = true).

Definition decodeFields : list Typ -> D (list value) :=
  fix fields ts :=
    match ts with
    | [] => mret []
    | t :: ts => v ← decodeField (decode t); vs ← fields ts; mret (v :: vs)
    end.

Lemma decode_Struct ts :
  decode (StructT ts) = (wrapped List_;; vs ← decodeFields ts; wrapped ListEnd;; mret (VList vs)).
Proof. done. Qed.

Lemma fields_back ts inp stk sz bv ke :
  Forall accepts ts -> stk_ok stk -> len inp < 2 ^ 63 ->
  wp (decodeFields ts)
    (fun vs s' => parsed_list (fun vs js => items_of ts vs = Some js /\ forallb no_nil vs = true) inp stk vs s')
    (fun e _ => e <> EOL) (mk inp stk None sz bv ke).
Proof.
  intros Hts. revert inp stk sz bv ke. induction Hts as [|t ts Ht _ IH]; intros inp stk sz bv ke Hs Hlen.
  { by apply wp_ret, parsed_nil. }
  cbn [decodeFields]. apply wp_bind. specialize (Ht inp stk sz bv ke Hs Hlen).
  unfold wp, decodeField in *. destruct (decode t _) as [v s'|e s'| |]; try done; [|by destruct e].
  destruct Ht as (i & rest & sz' & bv' & ke' & [Hv Hnil] & -> & Hf & ->).
  rewrite len_app in Hlen. pose proof (len_nonneg (rlp i)).
  apply (wp_bind (decodeFields ts)). eapply wp_mono; [apply IH; [by eapply stk_ok_bump|lia]| |done].
  intros vs s' Hvs. apply wp_ret. eapply parsed_cons; [|done|done].
  intros js [Hjs Hn]. cbn. by rewrite Hv, Hnil, Hn; cbn; rewrite Hjs.
Qed.

(** Closing a list of the right shape gives the value of the item. *)
Lemma close_back (close : D unit) t n rest stk R vs s' :
  let h := header 0xC0 n in
  (forall Q s, wp ListEnd Q (fun e _ => e <> EOL) s -> wp close Q (fun e _ => e <> EOL) s) ->
  (forall js, R vs js -> item_of t (VList vs) = Some (Lst js) /\ no_nil (VList vs) = true) ->
  stk_ok (mkPos 0 n :: bump stk (len h)) -> fits (len h) (h ++ rest) stk ->
  parsed_list R rest (mkPos 0 n :: bump stk (len h)) vs s' ->
  wp (close;; mret (VList vs))
    (fun v s' => exists i rest' sz' bv' ke', (item_of t v = Some i /\ no_nil v = true) /\
       h ++ rest = rlp i ++ rest' /\ fits (len (rlp i)) (h ++ rest) stk /\
       s' = mk rest' (bump stk (len (rlp i))) None sz' bv' ke')
    (fun e s' => e = EOL -> at_end stk /\ exists sz' bv' ke', s' = mk (h ++ rest) stk None sz' bv' ke') s'.
Proof.
  intros h Hclose HR Hs Hf Hp. apply wp_bind.
  eapply wp_mono; [by apply Hclose, (end_back n rest stk R vs)| |done].
  intros _ s2 (js & rest' & sz' & bv' & ke' & Hvs & E & Hf' & ->). apply wp_ret.
  exists (Lst js), rest', sz', bv', ke'. split; [by apply HR|done].
Qed.

Lemma wrapped_end Q s : wp ListEnd Q (fun e _ => e <> EOL) s -> wp (wrapped ListEnd) Q (fun e _ => e <> EOL) s.
Proof. unfold wp, wrapped. destruct (ListEnd s) as [a s'|e s'| |]; try done. by destruct e. Qed.

Lemma Forall2_item e vs js :
  Forall2 (fun v i => item_of e v = Some i /\ no_nil v = true) vs js ->
  mapM (item_of e) vs = Some js /\ forallb no_nil vs = true.
Proof.
  intros H. split.
  - apply mapM_Some. eapply Forall2_impl; [|exact H]. by intros v i [? _].
  - induction H as [|v i vs js [_ Hv] _ IH]; [done|]. cbn. by rewrite Hv.
Qed.

Lemma byteArray_back n : plain (ByteArrayT n) = true -> accepts (ByteArrayT n).
Proof.
  intros Hn inp stk sz bv ke Hs Hlen. cbn [plain] in Hn. apply negb_true_iff, bool_decide_eq_false in Hn.
  cbn [decode]. unfold decodeByteArray. apply wp_bind.
  eapply wp_mono; [by apply Kind_back| |intros e s' He ->; destruct (He eq_refl); eauto 10].
  intros [k m] s' (h & rest & x & Ht & -> & Hf & _ & ->). destruct k; cbn [tagged] in Ht.
  - destruct (Z.eqb_spec (Z.of_nat n) 0); [by apply wp_throw|].
    replace (Z.of_nat n >? 1) with true by lia. by apply wp_throw.
  - destruct Ht as [Hh Hm]. destruct (Z.ltb_spec (Z.of_nat n) m); [by apply wp_throw|].
    destruct (Z.gtb_spec (Z.of_nat n) m); [by apply wp_throw|]. assert (m = Z.of_nat n) as -> by lia.
    apply wp_bind. eapply wp_mono; [by apply content_back| |by intros e s' [->| ->]].
    intros b s' (rest' & -> & Hb & Hok). pose proof (is_single_len b) as Hsin. rewrite Hb in Hsin.
    destruct b as [|y b]; [|destruct (_ && _)]; [|by apply wp_throw|];
      destruct (Hok Hsin) as (? & ? & ->); apply wp_ret; eexists _, rest', _, _, _;
      (split_and!; [|done..]); cbn [item_of]; rewrite bool_decide_true by (unfold len in Hb; cbn in *; lia); done.
  - by apply wp_throw.
Qed.

Lemma decode_back t : plain t = true -> accepts t.
Proof.
  induction t as [b| | | | |n|e IH|n e IH|ts IH|e IH|] using Typ_ind'; intros Hp inp stk sz bv ke Hs Hlen;
    cbn [plain] in Hp.
  - cbn [decode]. unfold decodeUint. apply wp_bind. apply bool_decide_eq_true in Hp.
    eapply wp_mono; [exact (wrapped_back _ _ (uint_back b Hp) inp stk sz bv ke Hs Hlen)| |done].
    intros n s' (i & rest & sz' & bv' & ke' & [-> Hn] & E & Hf & ->). apply wp_ret.
    eexists _, rest, sz', bv', ke'. split_and!; try done. cbn [item_of]. rewrite bool_decide_true by done.
    replace (0 <=? n) with true by lia. by replace (n <? 2 ^ b) with true by lia.
  - cbn [decode]. unfold decodeBigInt. apply wp_bind.
    eapply wp_mono; [exact (wrapped_back _ _ Bytes_back inp stk sz bv ke Hs Hlen)| |done].
    intros s s' (i & rest & sz' & bv' & ke' & -> & E & Hf & ->).
    assert (head s <> Some x00 -> wp (mret (VBig (SetBytes s)))
      (fun a s' => exists i rest0 sz' bv' ke', (item_of BigT a = Some i /\ no_nil a = true) /\ inp = rlp i ++ rest0 /\
         fits (len (rlp i)) inp stk /\ s' = mk rest0 (bump stk (len (rlp i))) None sz' bv' ke')
      (fun e s' => e = EOL -> at_end stk /\ exists sz' bv' ke', s' = mk inp stk None sz' bv' ke')
      (mk rest (bump stk (len (rlp (Str s)))) None sz' bv' ke')) as Hok.
    { intros Hz. apply wp_ret. exists (Str s), rest, sz', bv', ke'. split_and!; try done. unfold SetBytes. cbn.
      pose proof (be_val_bound s). replace (0 <=? be_val s) with true by lia. do 2 f_equal.
      destruct s as [|x s]; [done|]. apply Bytes_be_val. intros Hx. apply Hz. cbn. f_equal. by apply byte_Z_inj. }
    destruct s as [|[] s]; try (by apply Hok). by apply wp_throw.
  - cbn [decode]. unfold decodeBool. apply wp_bind.
    eapply wp_mono; [exact (wrapped_back _ _ Bool_back inp stk sz bv ke Hs Hlen)| |done].
    intros b s' (i & rest & sz' & bv' & ke' & -> & E & Hf & ->). apply wp_ret. by eexists _, rest, sz', bv', ke'.
  - cbn [decode]. unfold decodeBytes. apply wp_bind.
    eapply wp_mono; [exact (wrapped_back _ _ Bytes_back inp stk sz bv ke Hs Hlen)| |done].
    intros b s' (i & rest & sz' & bv' & ke' & -> & E & Hf & ->). apply wp_ret. by eexists _, rest, sz', bv', ke'.
  - cbn [decode]. unfold decodeBytes. apply wp_bind.
    eapply wp_mono; [exact (wrapped_back _ _ Bytes_back inp stk sz bv ke Hs Hlen)| |done].
    intros b s' (i & rest & sz' & bv' & ke' & -> & E & Hf & ->). apply wp_ret. by eexists _, rest, sz', bv', ke'.
  - by apply byteArray_back.
  - cbn [decode]. unfold decodeListSlice. apply wp_bind. eapply wp_mono; [by apply List_back| |done].
    intros m s' (h & rest & x & -> & Hm & -> & Hf & Hr & Hs' & ->). rewrite len_app in Hlen.
    pose proof (header_nonempty 0xC0 m).
    assert (forall vs, Forall2 (fun v i => item_of e v = Some i /\ no_nil v = true) vs [] -> vs = []) by (by intros vs ?%Forall2_nil_inv_r).
    destruct (Z.eqb_spec m 0) as [->|].
    + eapply (close_back ListEnd (SliceT e) 0 rest stk (fun vs js => vs = [] /\ js = [])); try done.
      * by intros js [_ ->].
      * by apply parsed_nil.
    + apply wp_bind, wp_gets. cbn [r mk]. apply wp_bind.
      eapply wp_mono; [apply sliceElems_back; [by apply IH|done|lia|lia]| |by intros ? ? ? ->].
      intros vs s' [Hvs _]. eapply (close_back ListEnd (SliceT e)); try done.
      intros js [Hj Hn]%Forall2_item. cbn. by rewrite Hj.
  - cbn [decode]. unfold decodeListArray. apply wp_bind. eapply wp_mono; [by apply List_back| |done].
    intros m s' (h & rest & x & -> & Hm & -> & Hf & Hr & Hs' & ->). rewrite len_app in Hlen.
    pose proof (header_nonempty 0xC0 m). apply wp_bind.
    eapply wp_mono; [apply arrayElems_back; [by apply IH|done|lia]| |by intros ? ? ? ->].
    intros vs s' [Hvs Hn]. eapply (close_back (wrapped ListEnd) (ArrayT n e)); try done; [apply wrapped_end|].
    intros js [Hj Hnil]%Forall2_item. cbn. rewrite bool_decide_true by done. by rewrite Hj.
  - rewrite decode_Struct. apply wp_bind. eapply wp_mono; [by apply List_back| |done].
    intros m s' (h & rest & x & -> & Hm & -> & Hf & Hr & Hs' & ->). rewrite len_app in Hlen.
    pose proof (header_nonempty 0xC0 m). apply wp_bind.
    eapply wp_mono; [apply fields_back; [|done|lia]| |by intros ? ? ? ->].
    { rewrite forallb_forall in Hp. rewrite Forall_forall in IH |- *. auto. }
    intros vs s' Hvs. eapply (close_back (wrapped ListEnd) (StructT ts)); try done; [apply wrapped_end|].
    intros js [Hj Hnil]. rewrite item_of_Struct. by rewrite Hj.
  - cbn [decode]. apply wp_bind. eapply wp_mono; [by apply IH| |done].
    intros v s' (i & rest & sz' & bv' & ke' & [Hi Hn] & E & Hf & ->). apply wp_ret.
    exists i, rest, sz', bv', ke'. split_and!; try done. by destruct e.
  - done.
Qed.

(** At the end of a list every decoder reports it, and changes nothing. *)
Definition ends {A} (m : D A) : Prop :=
  forall inp stk sz bv ke, at_end stk -> m (mk inp stk None sz bv ke) = Fail EOL (mk inp stk None sz bv None).

Lemma ends_bind {A B} (m : D A) (f : A -> D B) : ends m -> ends (m ≫= f).
Proof. intros Hm inp stk sz bv ke Hend. unfold mbind, ST_bind. by rewrite Hm. Qed.

Lemma ends_wrapped {A} (m : D A) : ends m -> ends (wrapped m).
Proof. intros Hm inp stk sz bv ke Hend. by apply wrapped_EOL, Hm. Qed.

Lemma ends_Kind : ends Kind_.
Proof. intros inp stk sz bv ke. apply Kind_at_end. Qed.

Create HintDb ends discriminated.
#[local] Hint Resolve @ends_bind @ends_wrapped ends_Kind : ends.

Lemma decode_ends t : ends (decode t).
Proof.
  induction t using Typ_ind'; rewrite ?decode_Struct; cbn [decode];
    unfold decodeUint, decodeBigInt, decodeBool, decodeBytes, decodeByteArray, decodeListSlice,
      decodeListArray, uint_, Bool_, Bytes_, List_, Raw; unfold uint_; auto 10 with ends.
Qed.

(** Elements that are read one after the other. *)
Definition reads_list (m : D (list value)) (vs : list value) (js : list item) (closed : bool) : Prop :=
  forall rest stk sz bv ke, stk_ok stk -> len (body js ++ rest) < 2 ^ 63 ->
    fits (len (body js)) (body js ++ rest) stk -> (closed = true -> at_end (bump stk (len (body js)))) ->
    exists sz' bv' ke', m (mk (body js ++ rest) stk None sz bv ke) =
      Ok vs (mk rest (bump stk (len (body js))) None sz' bv' ke').

Lemma bump_0 stk : bump stk 0 = stk.
Proof. destruct stk as [|[p n] stk]; [done|]. cbn. by rewrite Z.add_0_r. Qed.

Lemma reads_list_cons (elem : D value) (m : D (list value)) (k : value -> D (list value)) v i vs js c :
  reads elem v i -> reads_list m vs js c ->
  (forall s s', elem s = Ok v s' -> k v s = (vs ← m; mret (v :: vs)) s') ->
  reads_list (k v) (v :: vs) (i :: js) c.
Proof.
  intros Hv Hvs Hk rest stk sz bv ke Hs. rewrite body_cons, <- app_assoc. intros Hlen Hf Hc.
  rewrite len_app in Hf, Hc. pose proof (len_nonneg (rlp i)). pose proof (len_nonneg (body js)).
  destruct (Hv (body js ++ rest) stk sz bv ke Hs Hlen) as (sz1 & bv1 & ke1 & E).
  { eapply fits_le; [|exact Hf]. lia. }
  rewrite (Hk _ _ E). rewrite len_app in Hlen.
  destruct (Hvs rest (bump stk (len (rlp i))) sz1 bv1 ke1) as (sz2 & bv2 & ke2 & E2).
  - eapply stk_ok_bump; [done|done|]. eapply fits_le; [|exact Hf]. lia.
  - lia.
  - by apply (fits_rest _ _ (rlp i)).
  - by rewrite bump_bump.
  - rewrite (bind_Ok _ _ _ _ _ E2), bump_bump, len_app. by eexists _, _, _.
Qed.

Lemma sliceElems_reads elem vs js fuel :
  ends elem -> Forall2 (reads elem) vs js -> (length vs < fuel)%nat ->
  reads_list (decodeSliceElems fuel elem) vs js true.
Proof.
  intros Hend H. revert fuel. induction H as [|v i vs js Hv _ IH]; intros [|fuel] Hfuel; cbn [length] in Hfuel; try lia.
  - intros rest stk sz bv ke Hs _ _ Hc. change (body []) with (@nil byte) in *. cbn [app]. change (len []) with 0 in *.
    rewrite bump_0 in *. exists sz, bv, None. cbn [decodeSliceElems]. unfold mbind, ST_bind, try_.
    by rewrite Hend by auto.
  - eapply (reads_list_cons elem (decodeSliceElems fuel elem) (fun _ => decodeSliceElems (S fuel) elem)); [done|apply IH; lia|].
    intros s s' E. cbn [decodeSliceElems]. unfold mbind at 1, ST_bind at 1, try_. by rewrite E.
Qed.

Lemma arrayElems_reads elem vs js :
  Forall2 (reads elem) vs js -> reads_list (decodeArrayElems (length vs) elem) vs js false.
Proof.
  induction 1 as [|v i vs js Hv _ IH].
  - intros rest stk sz bv ke Hs _ _ _. change (body []) with (@nil byte) in *. cbn [app]. change (len []) with 0.
    rewrite bump_0. by exists sz, bv, ke.
  - eapply (reads_list_cons elem (decodeArrayElems (length vs) elem) (fun _ => decodeArrayElems (S (length vs)) elem)); [done|done|].
    intros s s' E. cbn [decodeArrayElems]. unfold mbind at 1, ST_bind at 1, try_. by rewrite E.
Qed.

Lemma fields_reads ts vs js :
  Forall (fun t => forall v i, item_of t v = Some i -> no_nil v = true -> reads (decode t) v i) ts ->
  items_of ts vs = Some js -> forallb no_nil vs = true -> reads_list (decodeFields ts) vs js false.
Proof.
  intros Hts. revert vs js. induction Hts as [|t ts Ht _ IH]; intros [|v vs] js Hj Hn; try done.
  - injection Hj as <-. intros rest stk sz bv ke Hs _ _ _. change (body []) with (@nil byte) in *. cbn [app].
    change (len []) with 0. rewrite bump_0. by exists sz, bv, ke.
  - cbn [items_of] in Hj. apply bind_Some in Hj as (i & Hi & Hj). apply bind_Some in Hj as (l & Hl & [= <-]).
    cbn in Hn. apply andb_true_iff in Hn as [Hv Hn].
    eapply (reads_list_cons (decode t) (decodeFields ts) (fun _ => decodeFields (t :: ts))); [by apply Ht|by apply IH|].
    intros s s' E. cbn [decodeFields]. unfold mbind at 1, ST_bind at 1, decodeField. by rewrite E.
Qed.

(** A list around elements that are read. *)
Lemma list_reads (k : Z -> D value) (m : D (list value)) (close : D unit) vs js c :
  reads_list m vs js c -> (forall s s', ListEnd s = Ok tt s' -> close s = Ok tt s') ->
  (forall s, k (len (body js)) s = (vs ← m; close;; mret (VList vs)) s) ->
  reads (wrapped List_ ≫= k) (VList vs) (Lst js).
Proof.
  intros Hm Hc Hk rest stk sz bv ke Hs. rewrite rlp_Lst, <- app_assoc. intros Hlen Hf.
  pose proof (len_nonneg (body js)) as H0. rewrite len_app in Hf. rewrite len_app.
  set (n := len (body js)) in *. set (h := header 0xC0 n) in *. pose proof (header_nonempty 0xC0 n) as Hh. fold h in Hh.
  destruct (List_fits n (body js ++ rest) stk sz bv ke Hs H0 Hlen Hf) as (x & E & Hs').
  rewrite (bind_Ok _ _ _ _ _ E), Hk. fold h. rewrite len_app in Hlen. fold h in Hs'.
  destruct (Hm rest (mkPos 0 n :: bump stk (len h)) 0 x None) as (sz1 & bv1 & ke1 & E1).
  - done.
  - lia.
  - split; [rewrite len_app; pose proof (len_nonneg rest); lia|cbn; lia].
  - intros _. cbn. lia.
  - rewrite (bind_Ok _ _ _ _ _ E1). cbn [bump pos lsize]. rewrite Z.add_0_l. fold n.
    erewrite bind_Ok by (apply Hc; by apply ListEnd_fits). by eexists _, _, _.
Qed.

Lemma items_bytes js : (length js <= length (body js))%nat.
Proof.
  induction js as [|i js IH]; [done|]. rewrite body_cons, length_app. cbn [length].
  pose proof (rlp_len i) as Hi. unfold len in Hi. lia.
Qed.

Lemma slice_reads elem vs js :
  ends elem -> Forall2 (reads elem) vs js -> reads (decodeListSlice elem) (VList vs) (Lst js).
Proof.
  intros Hend Hvs. destruct js as [|i js].
  { apply Forall2_nil_inv_r in Hvs as ->.
    apply (list_reads _ (mret []) ListEnd [] [] false); [|done|done].
    intros rest stk sz bv ke _ _ _ _. change (body []) with (@nil byte). change (len []) with 0.
    rewrite bump_0. by exists sz, bv, ke. }
  apply (list_reads _ (fuel ← gets (fun s => S (length (r s))); decodeSliceElems fuel elem) ListEnd _ _ true).
  - intros rest stk sz bv ke Hs Hlen Hf Hc. apply sliceElems_reads; try done.
    cbn [r mk]. rewrite length_app. pose proof (items_bytes (i :: js)). apply Forall2_length in Hvs. lia.
  - done.
  - intros s. rewrite body_cons, len_app. pose proof (rlp_len i). pose proof (len_nonneg (body js)).
    by replace (len (rlp i) + len (body js) =? 0) with false by lia.
Qed.

Lemma mapM_reads e vs js :
  (forall v i, item_of e v = Some i -> no_nil v = true -> reads (decode e) v i) ->
  mapM (item_of e) vs = Some js -> forallb no_nil vs = true -> Forall2 (reads (decode e)) vs js.
Proof.
  intros He Hj%mapM_Some. induction Hj as [|v i vs js Hv _ IH]; intros Hn; [constructor|].
  cbn in Hn. apply andb_true_iff in Hn as [Hn Hns]. constructor; auto.
Qed.

Lemma byteArray_reads n s : n <> 1%nat -> length s = n -> reads (decodeByteArray n) (VBytes s) (Str s).
Proof.
  intros Hn Hs rest stk sz bv ke Hstk Hlen Hf. assert (is_single s = false) as Hsin.
  { destruct s as [|x [|y s]]; cbn in Hs; [done|lia|done]. }
  destruct (string_fits s rest stk sz bv ke Hsin Hstk Hlen Hf) as (x & E & Er).
  unfold decodeByteArray. rewrite (bind_Ok _ _ _ _ _ E). cbv beta iota.
  assert (Z.of_nat n = len s) as -> by (unfold len; lia).
  replace (len s <? len s) with false by lia. replace (len s >? len s) with false by lia.
  rewrite (bind_Ok _ _ _ _ _ (Er _ _ _ _)). rewrite is_single_len in Hsin.
  destruct s as [|y s]; [by eexists _, _, _|]. rewrite Hsin. by eexists _, _, _.
Qed.

(** Reading a value and wrapping it. *)
Lemma reads_map {A B} (m : D A) (f : A -> D B) a b i :
  reads m a i -> (forall s, f a s = Ok b s) -> reads (m ≫= f) b i.
Proof.
  intros Hm Hf rest stk sz bv ke Hs Hlen Hfit. destruct (Hm rest stk sz bv ke Hs Hlen Hfit) as (x & y & z & E).
  exists x, y, z. by rewrite (bind_Ok _ _ _ _ _ E).
Qed.

Lemma decode_reads t v i :
  plain t = true -> item_of t v = Some i -> no_nil v = true -> reads (decode t) v i.
Proof.
  revert v i. induction t as [b| | | | |n|e IH|n e IH|ts IH|e IH|] using Typ_ind'; intros v i Hp Hi Hn; cbn [plain] in Hp.
  - destruct v as [n| | | | | |]; try done. cbn [item_of] in Hi. destruct (_ && _) eqn:E; [|done]. injection Hi as <-.
    rewrite !andb_true_iff, bool_decide_eq_true in E.
    eapply reads_map; [apply wrapped_reads, uint_reads; [apply E|lia]|done].
  - destruct v as [|n| | | | |]; try done. cbn [item_of] in Hi. destruct (Z.leb_spec 0 n); [|done]. injection Hi as <-.
    eapply reads_map; [apply wrapped_reads, Bytes_reads|]. intros s.
    assert (SetBytes (Bytes n) = n) as Hb by (rewrite SetBytes_Bytes; lia).
    destruct (Z.eqb_spec n 0) as [->|]; [done|]. destruct (Bytes_head n ltac:(lia)) as (x & l & E & Hx).
    rewrite E in *. destruct x; try (by rewrite Hb). done.
  - destruct v as [| |b| | | |]; try done. injection Hi as <-.
    eapply reads_map; [apply wrapped_reads, Bool_reads|done].
  - destruct v; try done. injection Hi as <-. eapply reads_map; [apply wrapped_reads, Bytes_reads|done].
  - destruct v; try done. injection Hi as <-. eapply reads_map; [apply wrapped_reads, Bytes_reads|done].
  - destruct v; try done. cbn [item_of] in Hi. case_bool_decide as Hl; [|done]. injection Hi as <-.
    apply negb_true_iff, bool_decide_eq_false in Hp. by apply byteArray_reads.
  - destruct v; try done. cbn [item_of] in Hi. apply bind_Some in Hi as (js & Hj & [= <-]).
    apply slice_reads; [apply decode_ends|]. by apply mapM_reads; [intros; apply IH|..].
  - destruct v; try done. cbn [item_of] in Hi. case_bool_decide as Hl; [|done].
    apply bind_Some in Hi as (js & Hj & [= <-]). subst n.
    eapply (list_reads _ (decodeArrayElems (length l) (decode e)) (wrapped ListEnd) _ _ false); [|apply @wrapped_Ok|done].
    apply arrayElems_reads. by apply mapM_reads; [intros; apply IH|..].
  - destruct v; try done. rewrite item_of_Struct in Hi. apply bind_Some in Hi as (js & Hj & [= <-]).
    rewrite decode_Struct.
    eapply (list_reads _ (decodeFields ts) (wrapped ListEnd) _ _ false); [|apply @wrapped_Ok|done].
    apply fields_reads; [|done|done]. rewrite forallb_forall in Hp. rewrite Forall_forall in IH |- *. auto.
  - destruct v; try (by destruct e). eapply reads_map; [|done]. apply IH; [done|by destruct e|done].
  - done.
Qed.

(** * Whole inputs *)

Lemma NewStream_mk b : NewStream b = mk b [] None 0 x00 None.
Proof. done. Qed.

Lemma DecodeBytes_rlp t v i :
  plain t = true -> item_of t v = Some i -> no_nil v = true -> len (rlp i) < 2 ^ 63 ->
  exists s, DecodeBytes t (rlp i) = Ok v s.
Proof.
  intros Hp Hi Hn Hlen.
  destruct (decode_reads t v i Hp Hi Hn [] [] 0 x00 None) as (x & y & z & E); rewrite ?app_nil_r; try done.
  rewrite app_nil_r in E. eexists. unfold DecodeBytes. rewrite NewStream_mk, (bind_Ok _ _ _ _ _ E). reflexivity.
Qed.

Lemma DecodeBytes_back t b :
  plain t = true -> len b < 2 ^ 63 ->
  match DecodeBytes t b with
  | Ok v _ => exists i, item_of t v = Some i /\ no_nil v = true /\ b = rlp i
  | Fail _ _ => True
  | Panic | OutOfFuel => False
  end.
Proof.
  intros Hp Hlen. unfold DecodeBytes. rewrite NewStream_mk.
  match goal with |- match ?m ?s with _ => _ end => enough (wp m
    (fun v _ => exists i, item_of t v = Some i /\ no_nil v = true /\ b = rlp i) (fun _ _ => True) s) as H
  end.
  { exact H. }
  apply wp_bind. eapply wp_mono; [by apply decode_back| |done].
  intros v s' (i & rest & sz & bv & ke & [Hi Hn] & -> & _ & ->). apply wp_bind, wp_gets. cbn [r mk].
  destruct (Z.gtb_spec (len rest) 0); [done|]. apply wp_ret. exists i. split_and!; try done.
  pose proof (len_nonneg rest). assert (rest = []) as -> by (apply len_nil_iff; lia). by rewrite app_nil_r.
Qed.
