(* ===== verification/RlpTheorems.v ===== *)
(** Correctness of the rlp package: encoding and decoding are inverse to each
    other, every value has one encoding, and decoding ends; with the types for
    which the decoder of the source fails. *)

From S2P Require Import Prelude BigMath Rlp RlpSpec RlpDecode.
Import Big RLP.

(** C32. The encoder, which collects the string data and the list headers in two
    buffers and merges them at the end, computes the encoding that the format
    defines for the item of the value. *)
Theorem rlp_encodes t v i :
  item_of t v = Some i -> len (rlp i) < 2 ^ 63 -> EncodeToBytes t v = Some (inl (rlp i)).
Proof. apply EncodeToBytes_rlp. Qed.

(** C12. Every value of a type without one-byte arrays is decoded from its encoding,
    whatever the nesting of structs, slices, arrays and pointers. *)
Theorem rlp_round_trip t v i :
  plain t = true -> item_of t v = Some i -> no_nil v = true -> len (rlp i) < 2 ^ 63 ->
  exists b s, EncodeToBytes t v = Some (inl b) /\ DecodeBytes t b = Ok v s.
Proof.
  intros Hp Hi Hn Hlen. destruct (DecodeBytes_rlp t v i Hp Hi Hn Hlen) as [s E].
  exists (rlp i), s. by rewrite (EncodeToBytes_rlp t v i Hi Hlen).
Qed.


(** A struct of a one-byte array and a number. *)
Definition pairT : Typ := StructT [ByteArrayT 1; UintT 64].

(** After a zero byte the stream still offers it. *)
Lemma zero_byte_stays inp stk :
  decode (ByteArrayT 1) (mk inp stk (Some Byte) 0 x00 None) = Ok (VBytes [x00]) (mk inp stk (Some Byte) 0 x00 None).
Proof. reflexivity. Qed.

Lemma zero_bytes_forever fuel inp stk :
  decodeSliceElems fuel (decode (ByteArrayT 1)) (mk inp stk (Some Byte) 0 x00 None) = OutOfFuel.
Proof.
  induction fuel as [|fuel IH]; [done|]. cbn [decodeSliceElems].
  erewrite bind_Ok by (unfold try_; by rewrite zero_byte_stays).
  unfold mbind, ST_bind. by rewrite IH.
Qed.

(** The decoder of one-byte arrays drops the error that Uint returns for a zero
    byte, and with it does not move on to the next value.  So a struct whose
    first field is the array [0] is not decoded from its encoding, two such
    fields are decoded from one byte, and the loop over a list of such arrays
    does not end, however long it runs. *)
Theorem one_byte_array_stuck :
  EncodeToBytes pairT (VList [VBytes [x00]; VUint 5]) = Some (inl [xc2; x00; x05]) /\
  (exists s, DecodeBytes pairT [xc2; x00; x05] = Fail (decodeError ErrCanonInt) s) /\
  (exists s, DecodeBytes (StructT [ByteArrayT 1; ByteArrayT 1]) [xc1; x00] =
             Ok (VList [VBytes [x00]; VBytes [x00]]) s) /\
  forall fuel, (wrapped List_;; decodeSliceElems fuel (decode (ByteArrayT 1))) (NewStream [xc1; x00]) = OutOfFuel.
Proof.
  split_and!; [vm_compute; reflexivity|eexists; vm_compute; reflexivity..|].
  intros fuel. assert (wrapped List_ (NewStream [xc1; x00]) = Ok 1 (mk [x00] [mkPos 0 1] None 0 x00 None)) as E1
    by (vm_compute; reflexivity).
  rewrite (bind_Ok _ _ _ _ _ E1). destruct fuel as [|fuel]; [done|]. cbn [decodeSliceElems].
  assert (try_ (decode (ByteArrayT 1)) (mk [x00] [mkPos 0 1] None 0 x00 None) =
          Ok (inl (VBytes [x00])) (mk [] [mkPos 1 1] (Some Byte) 0 x00 None)) as E2 by (vm_compute; reflexivity).
  rewrite (bind_Ok _ _ _ _ _ E2). cbv beta iota. unfold mbind, ST_bind. by rewrite zero_bytes_forever.
Qed.

(** Split reads past the end of an input that stops after the tag 0x81. *)
Example split_panics : Split [x81] = None.
Proof. reflexivity. Qed.


(** A record with nested lists, as the contracts store them. *)
Definition sampleT : Typ :=
  StructT [ByteArrayT 20; BytesT; BigT; UintT 64; SliceT (StructT [PtrT BigT; BoolT; ArrayT 2 (UintT 8)])].
Definition sampleV : value :=
  VList [VBytes (replicate 20 x07); VBytes [x80]; VBig (10 ^ 24); VUint 300;
         VList [VList [VPtr (VBig 0); VBool true; VList [VUint 1; VUint 200]];
                VList [VPtr (VBig 5); VBool false; VList [VUint 0; VUint 0]]]].
Lemma rlp_encodes_witness :
  EncodeToBytes sampleT sampleV = Some (inl (rlp (default (Str []) (item_of sampleT sampleV)))).
Proof. apply (rlp_encodes sampleT sampleV); vm_compute; reflexivity. Defined.

Lemma rlp_round_trip_witness :
  exists b s, EncodeToBytes sampleT sampleV = Some (inl b) /\ DecodeBytes sampleT b = Ok sampleV s.
Proof.
  apply (rlp_round_trip sampleT sampleV (default (Str []) (item_of sampleT sampleV))); vm_compute; reflexivity.
Defined.

