(* ===== verification/RlpCodec.v ===== *)
(** Records coded by package rlp: a class with the type, the value and the
    record of a value, and its laws. *)

From S2P Require Import Prelude BigMath Rlp RlpSpec RlpDecode.
Import Big RLP Common.

Class RlpCodec (A : Type) := {
  rlp_type : Typ;
  to_value : A -> value;
  of_value : value -> option A;
}.
Arguments rlp_type A {_}.

Section Codec.
Context {A : Type} `{!RlpCodec A}.

(** rlp.EncodeToBytes and rlp.DecodeBytes at the type of the record. *)
Definition rlpEncode (a : A) : option (list byte + rerror) := EncodeToBytes (rlp_type A) (to_value a).
Definition rlpDecode (b : list byte) : option (A + rerror) :=
  match DecodeBytes (rlp_type A) b with
  | Ok v _ => a ← of_value v; Some (inl a)
  | Fail e _ => Some (inr e)
  | Panic | OutOfFuel => None
  end.
End Codec.

(** The record is determined by its value, and every value of the type is that
    of a record. *)
Class RlpCodecOk (A : Type) `{!RlpCodec A} : Prop := {
  codec_plain : plain (rlp_type A) = true;
  codec_solid a : no_nil (to_value a) = true;
  of_to_value a : of_value (to_value a) = Some a;
  of_value_total v i : item_of (rlp_type A) v = Some i -> no_nil v = true ->
    exists a, of_value v = Some a /\ to_value a = v;
}.

Section Laws.
Context {A : Type} `{!RlpCodec A} `{!RlpCodecOk A}.

(** A record that can be encoded. *)
Definition encodable (a : A) : Prop :=
  exists i, item_of (rlp_type A) (to_value a) = Some i /\ len (rlp i) < 2 ^ 63.

Lemma rlpEncode_ok a : encodable a ->
  exists b, rlpEncode a = Some (inl b) /\ rlpDecode b = Some (inl a) /\ 1 <= len b < 2 ^ 63.
Proof.
  intros (i & Hi & Hlen). exists (rlp i). unfold rlpEncode, rlpDecode.
  destruct (DecodeBytes_rlp (rlp_type A) (to_value a) i codec_plain Hi (codec_solid a) Hlen) as [s ->].
  rewrite of_to_value. pose proof (rlp_len i). split_and!; [|done|done|done]. by apply EncodeToBytes_rlp.
Qed.

Lemma rlpDecode_ok b : len b < 2 ^ 63 ->
  match rlpDecode (A:=A) b with
  | Some (inl a) => encodable a /\ rlpEncode a = Some (inl b)
  | Some (inr _) => True
  | None => False
  end.
Proof.
  intros Hlen. unfold rlpDecode. pose proof (DecodeBytes_back (rlp_type A) b codec_plain Hlen) as H.
  destruct (DecodeBytes _ _) as [v s|e s| |]; try done. destruct H as (i & Hi & Hn & ->).
  destruct (of_value_total v i Hi Hn) as (a & -> & <-). cbn. split; [by exists i|].
  by apply EncodeToBytes_rlp.
Qed.
End Laws.

(** common.Address as a byte array. *)
Definition addressT : Typ := ByteArrayT 20.
Definition address_value (a : Address) : value := VBytes (Address_Bytes a).
Definition address_of (v : value) : option Address :=
  match v with VBytes b => Some (BytesToAddress b) | _ => None end.

Lemma address_of_value a : address_of (address_value a) = Some a.
Proof. unfold address_of, address_value. by rewrite BytesToAddress_Address_Bytes. Qed.

Lemma address_item v i : item_of addressT v = Some i ->
  exists a, v = address_value a /\ i = Str (Address_Bytes a).
Proof.
  intros Hv. destruct v as [| | |b| | |]; try done. cbn [item_of addressT] in Hv.
  case_bool_decide as Hl; [|done]. injection Hv as <-.
  exists (BytesToAddress b). assert (Address_Bytes (BytesToAddress b) = b) as E; [|unfold address_value; rewrite E; done].
  unfold Address_Bytes, BytesToAddress. rewrite bits_of_be_crop by done. rewrite bits_val_of.
  pose proof (be_val_bound b) as Hb. unfold len in Hb. rewrite Hl in Hb. rewrite Z.mod_small by done.
  change AddressLength with 20%nat. rewrite <- Hl. apply be_bytes_be_val.
Qed.
