(* ===== verification/RlpRaw.v ===== *)
(** The functions of rlp/raw.go on encodings of items: Split takes the first item
    apart, and CountValues counts the items of a list. *)

From S2P Require Import Prelude BigMath Rlp RlpSpec.
Import Big RLP.

(** Kind, tag size and content of an item. *)
Definition raw_of (i : item) : Kind * Z * list byte :=
  match i with
  | Str s => if is_single s then (RLP.Byte, 0, s) else (RLP.String, len (header 0x80 (len s)), s)
  | Lst l => (RLP.List, len (header 0xC0 (len (body l))), body l)
  end.

Lemma rlp_raw i : exists tag, rlp i = tag ++ (raw_of i).2 /\ len tag = (raw_of i).1.2.
Proof.
  destruct i as [s|l]; cbn [rlp raw_of].
  - destruct (is_single s); [by exists []|by eexists].
  - by eexists.
Qed.

Lemma be_val_Bytes n : 0 <= n -> be_val (Bytes n) = n.
Proof. intros. change (be_val (Bytes n)) with (SetBytes (Bytes n)). rewrite SetBytes_Bytes. lia. Qed.

Lemma readSize_Bytes n rest : 56 <= n -> readSize (Bytes n ++ rest) (len (Bytes n)) = inl n.
Proof.
  intros Hn. unfold readSize. pose proof (len_nonneg rest). rewrite len_app.
  replace (len (Bytes n) >? _) with false by lia. unfold len. rewrite Nat2Z.id, take_app_length, be_val_Bytes by lia.
  replace (n <? 56) with false by lia. destruct (Bytes_head n) as (x & l & -> & Hx); [lia|].
  cbn [app head]. rewrite bool_decide_eq_false_2; [done|]. intros [= ->]. done.
Qed.

Lemma header_fits (tag c rest : list byte) : len (tag ++ c ++ rest) < 2 ^ 64 ->
  (len c >? u64 (len (tag ++ c ++ rest) - len tag)) = false.
Proof.
  intros H. rewrite !len_app in *. pose proof (len_nonneg tag). pose proof (len_nonneg c). pose proof (len_nonneg rest).
  rewrite u64_small by lia. lia.
Qed.

(** The header of a string or a list. *)
Lemma readKindRaw_header (k : Kind) c rest :
  len (header (if bool_decide (k = RLP.String) then 0x80 else 0xC0) (len c) ++ c ++ rest) < 2 ^ 64 ->
  k <> RLP.Byte -> (k = RLP.String -> is_single c = false) ->
  readKindRaw (header (if bool_decide (k = RLP.String) then 0x80 else 0xC0) (len c) ++ c ++ rest) =
    Some (inl (k, len (header (if bool_decide (k = RLP.String) then 0x80 else 0xC0) (len c)), len c)).
Proof.
  intros Hlen Hk Hs. pose proof (len_nonneg c). pose proof (header_fits _ _ _ Hlen) as Hfit. rewrite !len_app in Hlen.
  pose proof (len_nonneg rest). pose proof (header_nonempty (if bool_decide (k = RLP.String) then 0x80 else 0xC0) (len c)).
  unfold header in *. destruct (Z.ltb_spec (len c) 56) as [Hc|Hc]; cbn [app].
  - cbn [readKindRaw]. rewrite byte_Z_Z_byte, Z.mod_small by (case_bool_decide; lia).
    destruct k; [done|rewrite bool_decide_eq_true_2 in * by done|rewrite bool_decide_eq_false_2 in * by done].
    + replace (0x80 + len c <? 0x80) with false by lia. replace (0x80 + len c <? 0xB8) with true by lia.
      destruct (Z.eqb_spec (0x80 + len c - 0x80) 1) as [Hone|_].
      * destruct c as [|x [|y c]]; [done| |rewrite !len_cons in Hone; pose proof (len_nonneg c); lia].
        cbn [app head mbind option_bind]. cbn [is_single] in Hs. rewrite Hs by done.
        cbn [mbind option_bind]. cbn [app] in Hfit. change (len [_]) with 1 in *. rewrite Hfit. done.
      * cbn [mbind option_bind]. cbn [app] in Hfit. change (len [_]) with 1 in *.
        replace (0x80 + len c - 0x80) with (len c) by lia. by rewrite Hfit.
    + replace (0xC0 + len c <? 0x80) with false by lia. replace (0xC0 + len c <? 0xB8) with false by lia.
      replace (0xC0 + len c <? 0xC0) with false by lia. replace (0xC0 + len c <? 0xF8) with true by lia.
      cbn [mbind option_bind]. cbn [app] in Hfit. change (len [_]) with 1 in *.
      replace (0xC0 + len c - 0xC0) with (len c) by lia. by rewrite Hfit.
  - pose proof (Bytes_len_le (len c) 8) as H8. change (256 ^ Z.of_nat 8) with (2 ^ 64) in H8.
    pose proof (Bytes_len_pos (len c)). cbn [app readKindRaw]. rewrite byte_Z_Z_byte, Z.mod_small by (case_bool_decide; lia).
    cbn [app] in Hfit. rewrite !len_cons in *.
    destruct k; [done|rewrite bool_decide_eq_true_2 in * by done|rewrite bool_decide_eq_false_2 in * by done].
    + replace (_ <? 0x80) with false by lia. replace (_ <? 0xB8) with false by lia. replace (_ <? 0xC0) with true by lia.
      replace (0x80 + 55 + len (Bytes (len c)) - 0xB7) with (len (Bytes (len c))) by lia.
      rewrite readSize_Bytes by lia. cbn [mbind option_bind]. by rewrite Hfit.
    + replace (_ <? 0x80) with false by lia. replace (_ <? 0xB8) with false by lia. replace (_ <? 0xC0) with false by lia.
      replace (_ <? 0xF8) with false by lia. replace (0xC0 + 55 + len (Bytes (len c)) - 0xF7) with (len (Bytes (len c))) by lia.
      rewrite readSize_Bytes by lia. cbn [mbind option_bind]. by rewrite Hfit.
Qed.

Lemma readKindRaw_rlp i rest : len (rlp i ++ rest) < 2 ^ 64 ->
  readKindRaw (rlp i ++ rest) = Some (inl ((raw_of i).1.1, (raw_of i).1.2, len (raw_of i).2)).
Proof.
  destruct i as [s|l]; cbn [rlp raw_of].
  - destruct (is_single s) eqn:E; cbn [fst snd]; intros Hlen.
    + destruct s as [|x [|y s]]; try done. cbn [is_single] in E. cbn [app readKindRaw]. rewrite E.
      cbn [mbind option_bind]. rewrite len_app in Hlen. change (len [x]) with 1 in *. pose proof (len_nonneg rest).
      rewrite Z.sub_0_r, len_cons, u64_small by lia. by replace (1 >? len rest + 1) with false by lia.
    + rewrite <- app_assoc in *. by apply (readKindRaw_header RLP.String s rest).
  - cbn [fst snd]. intros Hlen. change (concat (map rlp l)) with (body l) in *. rewrite <- app_assoc in *.
    by apply (readKindRaw_header RLP.List (body l) rest).
Qed.

Lemma Split_rlp i rest : len (rlp i ++ rest) < 2 ^ 64 ->
  Split (rlp i ++ rest) = Some (inl ((raw_of i).1.1, (raw_of i).2, rest)).
Proof.
  intros Hlen. unfold Split. rewrite readKindRaw_rlp by done. cbn [mbind option_bind].
  destruct (rlp_raw i) as (tag & -> & <-). rewrite <- app_assoc. set (c := (raw_of i).2).
  rewrite (slice_app tag c rest (len tag) (len tag + len c)) by done. cbn [mbind option_bind].
  rewrite app_assoc. rewrite <- (app_nil_r rest) at 1 2. rewrite (slice_app (tag ++ c) rest []); [done|by rewrite len_app|].
  rewrite !len_app, len_nil. lia.
Qed.

Lemma SplitString_rlp s rest : len (rlp (Str s) ++ rest) < 2 ^ 64 -> SplitString (rlp (Str s) ++ rest) = Some (inl (s, rest)).
Proof. intros H. unfold SplitString. rewrite Split_rlp by done. cbn [raw_of]. by destruct (is_single s). Qed.

Lemma SplitList_rlp l rest : len (rlp (Lst l) ++ rest) < 2 ^ 64 -> SplitList (rlp (Lst l) ++ rest) = Some (inl (body l, rest)).
Proof. intros H. unfold SplitList. by rewrite Split_rlp. Qed.

Lemma countValues_body l : forall fuel n, (length (body l) < fuel)%nat -> len (body l) < 2 ^ 64 ->
  countValues fuel (body l) n = Some (inl (n + len l)).
Proof.
  induction l as [|i l IH]; intros [|fuel] n Hf Hlen; try lia.
  - cbn. by rewrite Z.add_0_r.
  - cbn [countValues]. rewrite body_cons in *. pose proof (rlp_len i). pose proof (len_nonneg (body l)).
    rewrite length_app in Hf. rewrite len_app in Hlen. replace (len (rlp i ++ body l) =? 0) with false by (rewrite len_app; lia).
    rewrite readKindRaw_rlp by (rewrite len_app; lia). cbn [mbind option_bind].
    destruct (rlp_raw i) as (tag & E & <-). rewrite E in *. rewrite len_app in *. rewrite length_app in Hf.
    set (c := (raw_of i).2) in *. rewrite <- (app_nil_r (body l)) at 1 2.
    rewrite (slice_app (tag ++ c) (body l) []); [|by rewrite len_app|rewrite !len_app, len_nil; lia].
    cbn [mbind option_bind]. rewrite IH; [|unfold len in *; lia|lia]. rewrite len_cons. do 2 f_equal. lia.
Qed.

Lemma CountValues_body l : len (body l) < 2 ^ 64 -> CountValues (body l) = Some (inl (len l)).
Proof. intros H. unfold CountValues. rewrite countValues_body by (done || lia). done. Qed.
