(* ===== verification/Trie.v ===== *)
(** Merkle Patricia tries: trie/encoding.go, node.go, hasher.go, trie.go,
    secure_trie.go and proof.go, over the in-memory database of
    ethdb/memory_database.go.

    A [node] is a Go interface value: nil or one of four node types.  Nodes are
    never changed in place (insert, delete and the hasher copy them), so a node
    is a value.  The hash function is a parameter. *)

From S2P Require Import Prelude BigMath Rlp.
Import Big Common.

Module MPT.

(** * encoding.go *)

Definition hasTerm (s : list byte) : bool := bool_decide (list.last s = Some x10).

Fixpoint decodeNibbles (nibbles : list byte) : option (list byte) :=
  match nibbles with
  | [] => Some []
  | [_] => None
  | a :: b :: rest =>
      bytes ← decodeNibbles rest;
      Some (Z_byte (Z.lor (Z.shiftl (byte_Z a) 4) (byte_Z b)) :: bytes)
  end.

Definition hexToCompact (hex : list byte) : option (list byte) :=
  let '(terminator, hex) := if hasTerm hex then (1, take (length hex - 1) hex) else (0, hex) in
  let flag := Z.shiftl terminator 5 in
  if Z.land (len hex) 1 =? 1 then
    first ← head hex;
    bytes ← decodeNibbles (tail hex);
    Some (Z_byte (Z.lor (Z.lor flag (Z.shiftl 1 4)) (byte_Z first)) :: bytes)
  else
    bytes ← decodeNibbles hex;
    Some (Z_byte flag :: bytes).

Fixpoint keybytesToHex (str : list byte) : list byte :=
  match str with
  | [] => [x10]
  | b :: str => Z_byte (byte_Z b / 16) :: Z_byte (byte_Z b mod 16) :: keybytesToHex str
  end.

(** The empty input is an index out of range. *)
Definition compactToHex (compact : list byte) : option (list byte) :=
  let base := keybytesToHex compact in
  base ← slice base 0 (len base - 1);
  first ← head base;
  let base := if byte_Z first >=? 2 then base ++ [x10] else base in
  slice base (2 - Z.land (byte_Z first) 1) (len base).

(** [None] is the panic for a key of odd length. *)
Definition hexToKeybytes (hex : list byte) : option (list byte) :=
  let hex := if hasTerm hex then take (length hex - 1) hex else hex in
  if negb (Z.land (len hex) 1 =? 0) then None else decodeNibbles hex.

Fixpoint prefixLen (a b : list byte) : nat :=
  match a, b with
  | x :: a, y :: b => if bool_decide (x = y) then S (prefixLen a b) else 0%nat
  | _, _ => 0%nat
  end.

(** * node.go *)

Record nodeFlag := mkFlag {
  flag_hash : option (list byte);
  gen : Z;
  dirty : bool;
}.

#[local] Unset Elimination Schemes.
Inductive node :=
| nilNode
| fullNode (Children : list node) (flags : nodeFlag)
| shortNode (Key : list byte) (Val : node) (flags : nodeFlag)
| hashNode (h : list byte)
| valueNode (v : list byte).
#[local] Set Elimination Schemes.

Definition is_nil (n : node) : bool := match n with nilNode => true | _ => false end.

(** The cached hash and the dirty flag; nil has no methods. *)
Definition cache (n : node) : option (option (list byte) * bool) :=
  match n with
  | nilNode => None
  | fullNode _ f | shortNode _ _ f => Some (flag_hash f, dirty f)
  | hashNode _ | valueNode _ => Some (None, true)
  end.

Definition canUnload (n : node) (cachegen cachelimit : Z) : bool :=
  match n with
  | fullNode _ f | shortNode _ _ f => negb (dirty f) && ((cachegen - gen f) mod 2 ^ 16 >=? cachelimit)
  | _ => false
  end.

Inductive terror :=
| MissingNodeError (NodeHash : Hash) (Path : list byte)
| errUnexpectedEOF
| errSplit (e : RLP.rerror)
| errElements (c : Z)
| errOversized (size : Z)
| errRefSize (n : Z)
| errHashMismatch (i : Z)
| errProofNode (i : Z) (e : terror)
| errKeyMismatch (i : Z)
| errAdditionalNodes
| errEndOfProof.

Abbreviation T := (ST unit terror).

(** A result of package rlp. *)
Definition split {A} (o : option (A + RLP.rerror)) : T A :=
  match o with
  | None => panic
  | Some (inl a) => mret a
  | Some (inr e) => throw (errSplit e)
  end.

Definition hashLen : Z := 32.

Section Decode.
(** Decoding of an embedded node. *)
Context (decodeNode : option (list byte) -> list byte -> T node).

Definition decodeRef (buf : list byte) : T (node * list byte) :=
  '(kind, val, rest) ← split (RLP.Split buf);
  match kind with
  | RLP.List =>
      let size := len buf - len rest in
      if size >? hashLen then throw (errOversized size)
      else n ← decodeNode None buf; mret (n, rest)
  | RLP.String =>
      if len val =? 0 then mret (nilNode, rest)
      else if len val =? 32 then mret (hashNode val, rest)
      else throw (errRefSize (len val))
  | RLP.Byte => throw (errRefSize (len val))
  end.

Definition decodeShort (cachegen : Z) (hash : option (list byte)) (elems : list byte) : T node :=
  '(kbuf, rest) ← split (RLP.SplitString elems);
  let flag := mkFlag hash cachegen false in
  key ← must (compactToHex kbuf);
  if hasTerm key then
    '(val, _) ← split (RLP.SplitString rest);
    mret (shortNode key (valueNode val) flag)
  else
    '(r, _) ← decodeRef rest;
    mret (shortNode key r flag).

Fixpoint decodeChildren (n : nat) (elems : list byte) : T (list node * list byte) :=
  match n with
  | O => mret ([], elems)
  | S n =>
      '(cld, rest) ← decodeRef elems;
      '(l, rest) ← decodeChildren n rest;
      mret (cld :: l, rest)
  end.

Definition decodeFull (cachegen : Z) (hash : option (list byte)) (elems : list byte) : T node :=
  '(children, elems) ← decodeChildren 16 elems;
  '(val, _) ← split (RLP.SplitString elems);
  mret (fullNode (children ++ [if len val >? 0 then valueNode val else nilNode]) (mkFlag hash cachegen false)).
End Decode.

(** An embedded node is decoded from the content of a list, which is shorter
    than the list. *)
Fixpoint decodeNodeF (fuel : nat) (cachegen : Z) (hash : option (list byte)) (buf : list byte) : T node :=
  match fuel with
  | O => fun _ => OutOfFuel
  | S fuel =>
      if len buf =? 0 then throw errUnexpectedEOF
      else
        '(elems, _) ← split (RLP.SplitList buf);
        c ← must (RLP.CountValues elems);
        let c := match c with inl c => c | inr _ => 0 end in
        if c =? 2 then decodeShort (decodeNodeF fuel cachegen) cachegen hash elems
        else if c =? 17 then decodeFull (decodeNodeF fuel cachegen) cachegen hash elems
        else throw (errElements c)
  end.
Definition decodeNode (hash : option (list byte)) (buf : list byte) (cachegen : Z) : T node :=
  decodeNodeF (S (length buf)) cachegen hash buf.

Definition mustDecodeNode (hash : list byte) (buf : list byte) (cachegen : Z) : T node := fun s =>
  match decodeNode (Some hash) buf cachegen s with
  | Fail _ _ => Panic
  | o => o
  end.

(** The writers that package rlp builds for nodes: a short node is a struct of
    its key and child, a full node writes the array of its children, and a nil
    child is the empty list. *)
Fixpoint writeNode (n : node) : RLP.W unit :=
  match n with
  | nilNode => RLP.emit [xc0]
  | fullNode children _ =>
      lh ← RLP.list_;
      (fix elems l := match l with [] => mret tt | c :: l => writeNode c;; elems l end) children;;
      RLP.listEnd lh
  | shortNode key val _ =>
      lh ← RLP.list_;
      RLP.encodeString key;;
      writeNode val;;
      RLP.listEnd lh
  | hashNode b | valueNode b => RLP.encodeString b
  end.

(** rlp.Encode of a node; an error is a panic in the hasher. *)
Definition encodeNode (n : node) : option (list byte) :=
  match writeNode n RLP.emptyBuf with
  | Ok _ w => Some (RLP.toWriter w)
  | _ => None
  end.

(** * hasher.go *)

(** The database of the trie, a map. *)
Abbreviation store_t := (gmap (list byte) (list byte)).

Section Trie.
Context (Keccak256 : list byte -> Hash).

Section Hasher.
(** [committing]: nodes are written to a database, not only hashed. *)
Context (cachegen cachelimit : Z) (committing : bool).
Abbreviation H := (ST store_t Empty_set).

Definition store (n : node) (force : bool) : H node :=
  match n with
  | nilNode | hashNode _ => mret n
  | _ =>
      enc ← must (encodeNode n);
      if (len enc <? 32) && negb force then mret n
      else
        let h := match cache n with Some (Some h, _) => h | _ => Hash_Bytes (Keccak256 enc) end in
        (if committing then modify (<[h := enc]>) else mret tt);;
        mret (hashNode h)
  end.

(** The first [k] children of a full node; [hash] is the recursive call. *)
Definition hashAll (hash : node -> H (node * node)) : nat -> list node -> H (list node * list node) :=
  fix all k l :=
    match k, l with
    | S k, c :: l =>
        '(collapsed, cached) ← (match c with nilNode => mret (valueNode [], nilNode) | _ => hash c end);
        '(cl, cs) ← all k l;
        mret (collapsed :: cl, cached :: cs)
    | _, _ => mret ([], [])
    end.

Definition hashChildren (hash : node -> H (node * node)) (original : node) : H (node * node) :=
  match original with
  | shortNode key val flags =>
      compact ← must (hexToCompact key);
      '(collapsed, cached) ← (match val with
                              | valueNode _ => mret (val, val)
                              | _ => hash val
                              end);
      let collapsed := match collapsed with nilNode => valueNode [] | _ => collapsed end in
      mret (shortNode compact collapsed flags, shortNode key cached flags)
  | fullNode children flags =>
      '(collapsed, cached) ← hashAll hash 16 children;
      lst ← must (children !! 16%nat);
      let collapsed_last := match lst with nilNode => valueNode [] | _ => lst end in
      mret (fullNode (collapsed ++ [collapsed_last]) flags, fullNode (cached ++ [lst]) flags)
  | _ => mret (original, original)
  end.

(** The node with the hash cached, and not dirty when it has been written. *)
Definition setFlags (hashed cached : node) : node :=
  let h := match hashed with hashNode h => Some h | _ => None end in
  let upd f := mkFlag h (gen f) (if committing then false else dirty f) in
  match cached with
  | shortNode k v f => shortNode k v (upd f)
  | fullNode l f => fullNode l (upd f)
  | _ => cached
  end.

(** What hash returns without walking the children. *)
Definition cachedHash (n : node) : option (node * node) :=
  match cache n with
  | Some (Some h, d) =>
      if negb committing then Some (hashNode h, n)
      else if canUnload n cachegen cachelimit then Some (hashNode h, hashNode h)
      else if negb d then Some (hashNode h, n)
      else None
  | _ => None
  end.

(** hash: the collapsed node or its hash, and the node to keep. *)
Fixpoint hash (force : bool) (n : node) : H (node * node) :=
  match cache n with
  | None => panic
  | Some _ =>
      match cachedHash n with
      | Some r => mret r
      | None =>
          '(collapsed, cached) ← hashChildren (hash false) n;
          hashed ← store collapsed force;
          mret (hashed, setFlags hashed cached)
      end
  end.
End Hasher.

(** * trie.go *)

Definition emptyRoot : Hash := bits_of 256 0x56e81f171bcc55a6ff8345e692c0f86e5b48e01b996cadc001622fb5e363b421.

Record Trie := mkTrie {
  root : node;
  tdb : store_t;
  originalRoot : Hash;
  cachegen : Z;
  cachelimit : Z;
}.

Definition set_root (t : Trie) (n : node) : Trie :=
  mkTrie n (tdb t) (originalRoot t) (cachegen t) (cachelimit t).
Definition SetCacheLimit (l : Z) (t : Trie) : Trie :=
  mkTrie (root t) (tdb t) (originalRoot t) (cachegen t) l.

(** A child of a full node, and the full node with another child. *)
Definition child (l : list node) (i : byte) : option node := l !! Z.to_nat (byte_Z i).
Definition set_child (l : list node) (i : byte) (n : node) : option (list node) :=
  if bool_decide (Z.to_nat (byte_Z i) < length l)%nat then Some (<[Z.to_nat (byte_Z i) := n]> l) else None.

Section Ops.
Context (t : Trie).

Definition newFlag : nodeFlag := mkFlag None (cachegen t) true.

Definition resolveHash (n prefix : list byte) : T node :=
  match tdb t !! n with
  | None => throw (MissingNodeError (BytesToHash n) prefix)
  | Some enc => mustDecodeNode n enc (cachegen t)
  end.

Definition resolve (n : node) (prefix : list byte) : T node :=
  match n with hashNode h => resolveHash h prefix | _ => mret n end.

(** Value, the node with what was loaded, and whether something was loaded. *)
Fixpoint tryGet (fuel : nat) (origNode : node) (key : list byte) (pos : Z) : T (list byte * node * bool) :=
  match fuel with
  | O => fun _ => OutOfFuel
  | S fuel =>
      match origNode with
      | nilNode => mret ([], nilNode, false)
      | valueNode v => mret (v, origNode, false)
      | shortNode k val flags =>
          if len key - pos <? len k then mret ([], origNode, false)
          else
            part ← must (slice key pos (pos + len k));
            if negb (bool_decide (k = part)) then mret ([], origNode, false)
            else
              '(value, newnode, didResolve) ← tryGet fuel val key (pos + len k);
              mret (value,
                    if didResolve : bool then shortNode k newnode (mkFlag (flag_hash flags) (cachegen t) (dirty flags))
                    else origNode,
                    didResolve)
      | fullNode children flags =>
          b ← must (index key pos);
          c ← must (child children b);
          '(value, newnode, didResolve) ← tryGet fuel c key (pos + 1);
          if didResolve : bool then
            children ← must (set_child children b newnode);
            mret (value, fullNode children (mkFlag (flag_hash flags) (cachegen t) (dirty flags)), true)
          else mret (value, origNode, false)
      | hashNode h =>
          prefix ← must (slice key 0 pos);
          c ← resolveHash h prefix;
          '(value, newnode, _) ← tryGet fuel c key pos;
          mret (value, newnode, true)
      end
  end.

(** Whether the node changed, and the node. *)
Fixpoint insert (fuel : nat) (n : node) (prefix key : list byte) (value : node) : T (bool * node) :=
  match fuel with
  | O => fun _ => OutOfFuel
  | S fuel =>
      match key with
      | [] =>
          match n, value with
          | valueNode v, valueNode w => mret (negb (bool_decide (v = w)), value)
          | valueNode _, _ => panic
          | _, _ => mret (true, value)
          end
      | k0 :: krest =>
          match n with
          | shortNode nkey val flags =>
              let matchlen := prefixLen key nkey in
              if bool_decide (matchlen = length nkey) then
                '(d, nn) ← insert fuel val (prefix ++ take matchlen key) (drop matchlen key) value;
                mret (if negb d then (false, n) else (true, shortNode nkey nn newFlag))
              else
                b1 ← must (nkey !! matchlen);
                '(_, c1) ← insert fuel nilNode (prefix ++ take (matchlen + 1) nkey) (drop (matchlen + 1) nkey) val;
                children ← must (set_child (replicate 17 nilNode) b1 c1);
                b2 ← must (key !! matchlen);
                '(_, c2) ← insert fuel nilNode (prefix ++ take (matchlen + 1) key) (drop (matchlen + 1) key) value;
                children ← must (set_child children b2 c2);
                let branch := fullNode children newFlag in
                mret (true, if bool_decide (matchlen = 0%nat) then branch
                            else shortNode (take matchlen key) branch newFlag)
          | fullNode children flags =>
              c ← must (child children k0);
              '(d, nn) ← insert fuel c (prefix ++ [k0]) krest value;
              if negb d then mret (false, n)
              else
                children ← must (set_child children k0 nn);
                mret (true, fullNode children newFlag)
          | nilNode => mret (true, shortNode key value newFlag)
          | hashNode h =>
              rn ← resolveHash h prefix;
              '(d, nn) ← insert fuel rn prefix key value;
              mret (if negb d then (false, rn) else (true, nn))
          | valueNode _ => panic
          end
      end
  end.

(** The loop over the children in delete: -1 without children, the index of the
    only child, or -2. *)
Fixpoint onlyChild (i pos : Z) (l : list node) : Z :=
  match l with
  | [] => pos
  | c :: l =>
      if is_nil c then onlyChild (i + 1) pos l
      else if pos =? -1 then onlyChild (i + 1) i l
      else -2
  end.

(** A full node with one child left becomes a short node. *)
Definition reduce (children : list node) (prefix : list byte) : T node :=
  let pos := onlyChild 0 (-1) children in
  if pos >=? 0 then
    c ← must (index children pos);
    cnode ← (if negb (pos =? 16) then resolve c prefix else mret nilNode);
    match cnode with
    | shortNode k v _ => mret (shortNode (Z_byte pos :: k) v newFlag)
    | _ => mret (shortNode [Z_byte pos] c newFlag)
    end
  else mret (fullNode children newFlag).

Fixpoint delete (fuel : nat) (n : node) (prefix key : list byte) : T (bool * node) :=
  match fuel with
  | O => fun _ => OutOfFuel
  | S fuel =>
      match n with
      | shortNode nkey val flags =>
          let matchlen := prefixLen key nkey in
          if bool_decide (matchlen < length nkey)%nat then mret (false, n)
          else if bool_decide (matchlen = length key) then mret (true, nilNode)
          else
            '(d, c) ← delete fuel val (prefix ++ take (length nkey) key) (drop (length nkey) key);
            mret (if negb d then (false, n)
                  else (true, match c with
                              | shortNode ckey cval _ => shortNode (nkey ++ ckey) cval newFlag
                              | _ => shortNode nkey c newFlag
                              end))
      | fullNode children flags =>
          k0 ← must (head key);
          c ← must (child children k0);
          '(d, nn) ← delete fuel c (prefix ++ [k0]) (tail key);
          if negb d then mret (false, n)
          else
            children ← must (set_child children k0 nn);
            n ← reduce children prefix;
            mret (true, n)
      | valueNode _ => mret (true, nilNode)
      | nilNode => mret (false, nilNode)
      | hashNode h =>
          rn ← resolveHash h prefix;
          '(d, nn) ← delete fuel rn prefix key;
          mret (if negb d then (false, rn) else (true, nn))
      end
  end.

(** Every level of the trie takes a nibble of the key, and may have to be
    loaded first. *)
Definition depth (key : list byte) : nat := (2 * length key + 2)%nat.

Definition TryGet (key : list byte) : T (list byte * Trie) :=
  let key := keybytesToHex key in
  '(value, newroot, didResolve) ← tryGet (depth key) (root t) key 0;
  mret (value, if didResolve : bool then set_root t newroot else t).

Definition TryUpdate (key value : list byte) : T Trie :=
  let k := keybytesToHex key in
  if negb (len value =? 0) then
    '(_, n) ← insert (depth k) (root t) [] k (valueNode value);
    mret (set_root t n)
  else
    '(_, n) ← delete (depth k) (root t) [] k;
    mret (set_root t n).

Definition TryDelete (key : list byte) : T Trie :=
  let k := keybytesToHex key in
  '(_, n) ← delete (depth k) (root t) [] k;
  mret (set_root t n).

(** hashRoot: hash, root to keep, and the database. *)
Definition hashRoot (committing : bool) : option (node * node * store_t) :=
  match root t with
  | nilNode => Some (hashNode (Hash_Bytes emptyRoot), nilNode, tdb t)
  | n =>
      match hash (cachegen t) (cachelimit t) committing true n (tdb t) with
      | Ok (h, cached) d => Some (h, cached, d)
      | _ => None
      end
  end.

(** Hash; [None] is a panic. *)
Definition Hash_ : option (Hash * Trie) :=
  '(h, cached, _) ← hashRoot false;
  match h with
  | hashNode b => Some (BytesToHash b, set_root t cached)
  | _ => None
  end.

(** CommitTo the database of the trie. *)
Definition Commit : option (Hash * Trie) :=
  '(h, cached, d) ← hashRoot true;
  match h with
  | hashNode b =>
      Some (BytesToHash b, mkTrie cached d (originalRoot t) ((cachegen t + 1) mod 2 ^ 16) (cachelimit t))
  | _ => None
  end.
End Ops.

Definition New (root : Hash) (db : store_t) : T Trie :=
  let trie := mkTrie nilNode db root 0 0 in
  if bool_decide (root <> emptyHash) && bool_decide (root <> emptyRoot) then
    rootnode ← resolveHash trie (Hash_Bytes root) [];
    mret (set_root trie rootnode)
  else mret trie.

(** * secure_trie.go *)

(** [owned]: the key cache was made by this trie and not by the one it is a copy
    of. *)
Record SecureTrie := mkSecure {
  strie : Trie;
  secKeyCache : store_t;
  owned : bool;
}.

Definition secureKeyPrefix : list byte :=
  [x73; x65; x63; x75; x72; x65; x2d; x6b; x65; x79; x2d].
Definition secKey (key : list byte) : list byte := secureKeyPrefix ++ key.
Definition hashKey (key : list byte) : list byte := Hash_Bytes (Keccak256 key).

Definition NewSecure (root : Hash) (db : store_t) (cachelimit : Z) : T SecureTrie :=
  trie ← New root db;
  mret (mkSecure (SetCacheLimit cachelimit trie) ∅ false).

Definition getSecKeyCache (t : SecureTrie) : store_t := if owned t then secKeyCache t else ∅.

Definition SecureTryGet (t : SecureTrie) (key : list byte) : T (list byte * SecureTrie) :=
  '(value, trie) ← TryGet (strie t) (hashKey key);
  mret (value, mkSecure trie (secKeyCache t) (owned t)).

Definition SecureTryUpdate (key value : list byte) (t : SecureTrie) : T SecureTrie :=
  let hk := hashKey key in
  trie ← TryUpdate (strie t) hk value;
  mret (mkSecure trie (<[hk := key]> (getSecKeyCache t)) true).

(** The key leaves the cache also when the trie reports an error, which the
    caller stores; the trie is then the one before. *)
Definition SecureTryDelete (key : list byte) (t : SecureTrie) : T SecureTrie :=
  let hk := hashKey key in
  trie ← TryDelete (strie t) hk;
  mret (mkSecure trie (base.delete hk (getSecKeyCache t)) true).

Definition GetKey (t : SecureTrie) (shaKey : list byte) : list byte :=
  match getSecKeyCache t !! shaKey with
  | Some key => key
  | None => default [] (tdb (strie t) !! secKey shaKey)
  end.

Definition SecureHash (t : SecureTrie) : option (Hash * SecureTrie) :=
  '(h, trie) ← Hash_ (strie t);
  Some (h, mkSecure trie (secKeyCache t) (owned t)).

Definition Copy (t : SecureTrie) : SecureTrie := mkSecure (strie t) (secKeyCache t) false.

(** CommitTo the database of the trie: the keys in any order. *)
Definition putKeys (keys db : store_t) : store_t :=
  map_fold (fun hk key d => <[secKey hk := key]> d) db keys.
Definition SecureCommit (t : SecureTrie) : option (Hash * SecureTrie) :=
  let tr := strie t in
  let tr := mkTrie (root tr) (putKeys (getSecKeyCache t) (tdb tr)) (originalRoot tr) (cachegen tr) (cachelimit tr) in
  '(h, trie) ← Commit tr;
  Some (h, mkSecure trie ∅ true).

(** * proof.go *)

(** The nodes on the path of a key, loaded where they have to be; [None] when
    one is missing. *)
Fixpoint path (fuel : nat) (t : Trie) (tn : node) (key : list byte) : T (list node) :=
  match fuel with
  | O => fun _ => OutOfFuel
  | S fuel =>
      match key, tn with
      | [], _ | _, nilNode => mret []
      | _, shortNode k val _ =>
          if (len key <? len k) || negb (bool_decide (k = take (length k) key)) then mret [tn]
          else nodes ← path fuel t val (drop (length k) key); mret (tn :: nodes)
      | k0 :: key, fullNode children _ =>
          c ← must (child children k0);
          nodes ← path fuel t c key; mret (tn :: nodes)
      | _, hashNode h => tn ← resolveHash t h []; path fuel t tn key
      | _, valueNode _ => panic
      end
  end.

(** The encodings of the nodes that are referred to by hash, and of the first.
    The hasher writes to no database: [d] is not used. *)
Fixpoint proofOf (d : store_t) (first : bool) (nodes : list node) : option (list (list byte)) :=
  match nodes with
  | [] => Some []
  | n :: nodes =>
      match hashChildren (hash 0 0 false false) n d with
      | Ok (collapsed, _) d =>
          match store false collapsed false d with
          | Ok hn _ =>
              rest ← proofOf d false nodes;
              if match hn with hashNode _ => true | _ => first end then
                enc ← encodeNode collapsed; Some (enc :: rest)
              else Some rest
          | _ => None
          end
      | _ => None
      end
  end.

(** Prove; the empty proof when a node is missing. *)
Definition Prove (t : Trie) (key : list byte) : option (list (list byte)) :=
  let key := keybytesToHex key in
  match path (depth key) t (root t) key tt with
  | Ok nodes _ => proofOf (tdb t) true nodes
  | Fail _ _ => Some []
  | _ => None
  end.

(** get: the remaining key and what is at its place. *)
Fixpoint get (tn : node) (key : list byte) : option (list byte * node) :=
  match tn with
  | shortNode k val _ =>
      if (len key <? len k) || negb (bool_decide (k = take (length k) key)) then Some ([], nilNode)
      else get val (drop (length k) key)
  | fullNode children _ =>
      match key with
      | [] => None
      | k0 :: key =>
          (fix at_ (i : nat) (l : list node) {struct l} := match i, l with
           | O, c :: _ => get c key
           | S i, _ :: l => at_ i l
           | _, [] => None
           end) (Z.to_nat (byte_Z k0)) children
      end
  | hashNode _ => Some (key, tn)
  | nilNode => Some (key, nilNode)
  | valueNode _ => Some ([], tn)
  end.

Fixpoint verify (i : Z) (wantHash key : list byte) (proof : list (list byte)) : T (list byte) :=
  match proof with
  | [] => throw errEndOfProof
  | buf :: rest =>
      if negb (bool_decide (Hash_Bytes (Keccak256 buf) = wantHash)) then throw (errHashMismatch i)
      else fun s =>
        match decodeNode (Some wantHash) buf 0 s with
        | Fail e s => Fail (errProofNode i e) s
        | Panic => Panic
        | OutOfFuel => OutOfFuel
        | Ok n s =>
            match get n key with
            | None => Panic
            | Some (keyrest, nilNode) =>
                match rest with [] => Ok [] s | _ => Fail (errKeyMismatch i) s end
            | Some (keyrest, hashNode h) => verify (i + 1) h keyrest rest s
            | Some (_, valueNode v) =>
                match rest with [] => Ok v s | _ => Fail errAdditionalNodes s end
            | Some _ => verify (i + 1) wantHash key rest s
            end
        end
  end.
Definition VerifyProof (rootHash : Hash) (key : list byte) (proof : list (list byte)) : T (list byte) :=
  verify 0 (Hash_Bytes rootHash) (keybytesToHex key) proof.
End Trie.
End MPT.
