(* ===== verification/TrieTree.v ===== *)
(** Tries as mathematical trees: nodes without cached hashes and references.

    [tget], [tinsert] and [tdelete] follow the operations of trie/trie.go on
    trees.  A tree in canonical form ([wf]) is determined by the entries it
    holds, and insert and delete keep this form. *)

From S2P Require Import Prelude BigMath Rlp Trie.
Import Big Common MPT.

(** * Keys in hex form *)

Abbreviation idx b := (Z.to_nat (byte_Z b)).
Definition nibble (b : byte) : Prop := byte_Z b < 16.

(** Nibbles that end with the terminator. *)
Fixpoint hexkey (k : list byte) : Prop :=
  match k with
  | [] => False
  | b :: r => (b = x10 /\ r = []) \/ (nibble b /\ hexkey r)
  end.

(** The places of a tree: where a value is, and where a node or nothing is. *)
Inductive place := PNode | PVal.
Definition slot (b : byte) : place := if bool_decide (b = x10) then PVal else PNode.
Definition keys (p : place) (k : list byte) : Prop := match p with PNode => hexkey k | PVal => k = [] end.

Lemma idx_inj a b : idx a = idx b -> a = b.
Proof. intros H. apply byte_Z_inj. pose proof (byte_Z_range a). pose proof (byte_Z_range b). lia. Qed.

Lemma term_val b : byte_Z b = 16 -> b = x10.
Proof. intros H. apply byte_Z_inj. by rewrite H. Qed.

Lemma nibble_ne b : nibble b -> b <> x10.
Proof. intros H ->. unfold nibble in H. cbn in H. lia. Qed.

Lemma slot_nibble b : nibble b -> slot b = PNode.
Proof. intros H%nibble_ne. unfold slot. by case_bool_decide. Qed.

Lemma slot_node b : byte_Z b <= 16 -> slot b = PNode -> nibble b.
Proof.
  unfold slot, nibble. case_bool_decide as E; [done|]. intros H _.
  assert (byte_Z b <> 16) by (intros ?; by apply E, term_val). lia.
Qed.

Lemma hexkey_cons b k : hexkey (b :: k) <-> byte_Z b <= 16 /\ keys (slot b) k.
Proof.
  cbn [hexkey]. unfold slot. case_bool_decide as E; cbn [keys].
  - subst b. change (byte_Z x10) with 16. split; [|intros [_ ->]; by left].
    intros [[_ ->]|[H%nibble_ne _]]; [by split|done].
  - split; [intros [[? _]|[H ?]]; [done|unfold nibble in H; split; [lia|done]]|].
    intros [Hb Hk]. right. split; [|done]. unfold nibble.
    assert (byte_Z b <> 16) by (intros H; by apply E, term_val). lia.
Qed.

Lemma hexkey_nonempty k : hexkey k -> k <> [].
Proof. by intros H ->. Qed.

Lemma hexkey_app c b r : hexkey (c ++ b :: r) <-> Forall nibble c /\ hexkey (b :: r).
Proof.
  induction c as [|a c IH]; [split; [done|by intros [_ ?]]|]. cbn [app]. rewrite Forall_cons_iff. cbn [hexkey] in *. split.
  - intros [[_ H]|[Ha H%IH]]; [by destruct c|]. destruct H. by split.
  - intros [[Ha Hc] H]. right. split; [done|]. apply IH. by split.
Qed.

(** No key is a proper prefix of another one. *)
Lemma hexkey_prefix k r : hexkey k -> hexkey (k ++ r) -> r = [].
Proof.
  induction k as [|b k IH]; [done|]. cbn [app hexkey]. intros [[-> ->]|[Hb Hk]].
  - intros [[_ H]|[H%nibble_ne _]]; [by destruct r|done].
  - intros [[-> _]|[_ H]]; [by apply nibble_ne in Hb|by apply IH].
Qed.

Lemma keybytesToHex_hexkey k : hexkey (keybytesToHex k).
Proof.
  induction k as [|b k IH]; [by left|]. cbn [keybytesToHex hexkey].
  pose proof (byte_Z_range b). assert (0 <= byte_Z b / 16 < 16) by zlia. assert (0 <= byte_Z b mod 16 < 16) by zlia.
  right. split; [unfold nibble; rewrite byte_Z_Z_byte, Z.mod_small; lia|].
  right. split; [unfold nibble; rewrite byte_Z_Z_byte, Z.mod_small; lia|done].
Qed.

Lemma keybytesToHex_inj k1 k2 : keybytesToHex k1 = keybytesToHex k2 -> k1 = k2.
Proof.
  revert k2. induction k1 as [|b1 k1 IH]; intros [|b2 k2]; cbn [keybytesToHex]; try done.
  intros [= H1 H2 H3]. f_equal; [|by apply IH]. apply (f_equal byte_Z) in H1, H2.
  pose proof (byte_Z_range b1). pose proof (byte_Z_range b2).
  assert (0 <= byte_Z b1 / 16 < 16) by zlia. assert (0 <= byte_Z b2 / 16 < 16) by zlia.
  assert (0 <= byte_Z b1 mod 16 < 16) by zlia. assert (0 <= byte_Z b2 mod 16 < 16) by zlia.
  rewrite !byte_Z_Z_byte, !Z.mod_small in H1, H2 by lia. apply byte_Z_inj. zlia.
Qed.

(** * Prefixes *)

Definition strip (s k : list byte) : option (list byte) :=
  if bool_decide (take (length s) k = s) then Some (drop (length s) k) else None.

Lemma strip_Some s k r : strip s k = Some r <-> k = s ++ r.
Proof.
  unfold strip. case_bool_decide as H.
  - rewrite <- (take_drop (length s) k) at 2. rewrite H. split; [by intros [= ->]|]. intros E%app_inv_head. by f_equal.
  - split; [done|]. intros ->. by rewrite take_app_length in H.
Qed.

Lemma strip_None s k : strip s k = None <-> forall r, k <> s ++ r.
Proof.
  split.
  - intros H r E. apply strip_Some in E. congruence.
  - intros H. destruct (strip s k) as [r|] eqn:E; [|done]. apply strip_Some in E. by apply H in E.
Qed.

Lemma strip_app s r : strip s (s ++ r) = Some r.
Proof. by apply strip_Some. Qed.

Lemma strip_nil k : strip [] k = Some k.
Proof. by apply strip_Some. Qed.

Lemma strip_app_l c s k : strip (c ++ s) (c ++ k) = strip s k.
Proof.
  destruct (strip s k) as [r|] eqn:E; [apply strip_Some in E as ->; by rewrite app_assoc, strip_app|].
  apply strip_None. intros r H. rewrite <- app_assoc in H. apply app_inv_head in H.
  by apply (proj1 (strip_None s k) E) in H.
Qed.

Lemma strip_cons b s k : strip (b :: s) (b :: k) = strip s k.
Proof. exact (strip_app_l [b] s k). Qed.

Lemma strip_app_2 c s k : strip (c ++ s) k = match strip c k with Some r => strip s r | None => None end.
Proof.
  destruct (strip c k) as [r|] eqn:E; [apply strip_Some in E as ->; apply strip_app_l|].
  apply strip_None. intros r H. rewrite <- app_assoc in H. by apply (proj1 (strip_None c k) E) in H.
Qed.

Lemma strip_cons_ne a b s k : a <> b -> strip (a :: s) (b :: k) = None.
Proof. intros H. apply strip_None. intros r [= ->]. done. Qed.

(** The common prefix of two keys. *)
Lemma prefixLen_spec a b :
  exists c a' b', a = c ++ a' /\ b = c ++ b' /\ prefixLen a b = length c /\
    match a', b' with x :: _, y :: _ => x <> y | _, _ => True end.
Proof.
  revert b. induction a as [|x a IH]; intros b; [by exists [], [], b|].
  destruct b as [|y b]; [by exists [], (x :: a), []|]. cbn [prefixLen]. case_bool_decide as E.
  - subst y. destruct (IH b) as (c & a' & b' & -> & -> & -> & H). by exists (x :: c), a', b'.
  - by exists [], (x :: a), (y :: b).
Qed.

Lemma bool_decide_if_ext {A} (P Q : Prop) `{!Decision P} `{!Decision Q} (x y : A) :
  (P <-> Q) -> (if bool_decide P then x else y) = (if bool_decide Q then x else y).
Proof. intros H. by rewrite (bool_decide_ext P Q H). Qed.

(** * Trees *)

#[local] Unset Elimination Schemes.
Inductive tree :=
| TNil
| TVal (v : list byte)
| TShort (k : list byte) (t : tree)
| TFull (l : list tree).
#[local] Set Elimination Schemes.

Lemma tree_ind (P : tree -> Prop) :
  P TNil -> (forall v, P (TVal v)) -> (forall k t, P t -> P (TShort k t)) ->
  (forall l, Forall P l -> P (TFull l)) -> forall t, P t.
Proof.
  intros Hn Hv Hs Hf. fix IH 1. intros [|v|k t|l]; [done|apply Hv|apply Hs, IH|]. apply Hf.
  induction l as [|t l IHl]; constructor; [apply IH|apply IHl].
Qed.

Definition isnil (t : tree) : bool := match t with TNil => true | _ => false end.

Fixpoint tget (t : tree) (k : list byte) : option (list byte) :=
  match t with
  | TNil => None
  | TVal v => Some v
  | TShort s t => match strip s k with Some r => tget t r | None => None end
  | TFull l =>
      match k with
      | [] => None
      | b :: k => (fix at_ (i : nat) (l : list tree) {struct l} :=
                     match i, l with
                     | O, t :: _ => tget t k
                     | S i, _ :: l => at_ i l
                     | _, [] => None
                     end) (idx b) l
      end
  end.

Lemma tget_Full l b k : tget (TFull l) (b :: k) = match l !! idx b with Some t => tget t k | None => None end.
Proof.
  cbn [tget]. generalize (idx b). induction l as [|t l IH]; intros [|i]; done || apply IH.
Qed.

Lemma tget_Short s t k : tget (TShort s t) k = match strip s k with Some r => tget t r | None => None end.
Proof. done. Qed.

(** Insertion where there is nothing. *)
Definition tput (k : list byte) (v : tree) : tree := match k with [] => v | _ => TShort k v end.

Definition tbranch (m : nat) (nk : list byte) (t : tree) (k : list byte) (v : tree) : tree :=
  match nk !! m, k !! m with
  | Some b1, Some b2 =>
      let l := <[idx b1 := tput (drop (m + 1) nk) t]> (replicate 17 TNil) in
      let branch := TFull (<[idx b2 := tput (drop (m + 1) k) v]> l) in
      if bool_decide (m = 0%nat) then branch else TShort (take m k) branch
  | _, _ => TNil
  end.

Fixpoint tinsert (t : tree) (k : list byte) (v : tree) : tree :=
  match k with
  | [] => v
  | b :: r =>
      match t with
      | TNil | TVal _ => TShort k v
      | TShort nk t' =>
          let m := prefixLen k nk in
          if bool_decide (m = length nk) then TShort nk (tinsert t' (drop m k) v)
          else tbranch m nk t' k v
      | TFull l => TFull (alter (fun t => tinsert t r v) (idx b) l)
      end
  end.

(** The index of the only child that is not nil. *)
Fixpoint tonly (i pos : Z) (l : list tree) : Z :=
  match l with
  | [] => pos
  | t :: l => if isnil t then tonly (i + 1) pos l else if pos =? -1 then tonly (i + 1) i l else -2
  end.

Definition treduce (l : list tree) : tree :=
  let pos := tonly 0 (-1) l in
  if pos >=? 0 then
    match l !! Z.to_nat pos with
    | Some (TShort k t) => if negb (pos =? 16) then TShort (Z_byte pos :: k) t else TShort [Z_byte pos] (TShort k t)
    | Some t => TShort [Z_byte pos] t
    | None => TNil
    end
  else TFull l.

(** [None]: the key is not in the tree. *)
Fixpoint tdelete (t : tree) (k : list byte) : option tree :=
  match t with
  | TNil => None
  | TVal _ => Some TNil
  | TShort nk t' =>
      let m := prefixLen k nk in
      if bool_decide (m < length nk)%nat then None
      else if bool_decide (m = length k) then Some TNil
      else match tdelete t' (drop (length nk) k) with
           | None => None
           | Some (TShort ck c) => Some (TShort (nk ++ ck) c)
           | Some c => Some (TShort nk c)
           end
  | TFull l =>
      match k with
      | [] => None
      | b :: r =>
          c ← (fix at_ (i : nat) (l : list tree) {struct l} :=
                 match i, l with
                 | O, t :: _ => tdelete t r
                 | S i, _ :: l => at_ i l
                 | _, [] => None
                 end) (idx b) l;
          Some (treduce (<[idx b := c]> l))
      end
  end.

Lemma tdelete_Full l b r :
  tdelete (TFull l) (b :: r) =
    match l !! idx b with
    | Some t => c ← tdelete t r; Some (treduce (<[idx b := c]> l))
    | None => None
    end.
Proof.
  cbn [tdelete]. generalize (fun c => Some (treduce (<[idx b := c]> l))). intros f.
  replace ((fix at_ (i : nat) (l : list tree) {struct l} := _) (idx b) l) with (t ← l !! idx b; tdelete t r); [by destruct (l !! idx b)|].
  generalize (idx b). induction l as [|t l IH]; intros [|i]; done || apply IH.
Qed.

(** * Canonical form *)

#[local] Set Warnings "-register-all".
Inductive wf : tree -> Prop :=
| wf_leaf k v : hexkey k -> v <> [] -> wf (TShort k (TVal v))
| wf_ext k l : k <> [] -> Forall nibble k -> wf (TFull l) -> wf (TShort k (TFull l))
| wf_full l : length l = 17%nat ->
    (forall b t, nibble b -> l !! idx b = Some t -> t = TNil \/ wf t) ->
    (forall t, l !! 16%nat = Some t -> t = TNil \/ exists v, v <> [] /\ t = TVal v) ->
    (exists i j t u, i <> j /\ l !! i = Some t /\ t <> TNil /\ l !! j = Some u /\ u <> TNil) ->
    wf (TFull l).

(** What a place may hold. *)
Definition filled (p : place) (t : tree) : Prop :=
  match p with PNode => wf t | PVal => exists v, v <> [] /\ t = TVal v end.
Definition wfs (p : place) (t : tree) : Prop := t = TNil \/ filled p t.

Lemma filled_ne p t : filled p t -> t <> TNil.
Proof. destruct p; [|by intros (v & _ & ->)]. by intros H ->; inversion H. Qed.

Lemma idx_lt b : byte_Z b <= 16 <-> (idx b < 17)%nat.
Proof. pose proof (byte_Z_range b). lia. Qed.

Lemma byte_at i : (i < 17)%nat -> exists b, idx b = i /\ byte_Z b <= 16.
Proof.
  intros H. exists (Z_byte (Z.of_nat i)). rewrite byte_Z_Z_byte, Z.mod_small by lia. lia.
Qed.

(** The children of a full node. *)
Record children_ok (l : list tree) : Prop := {
  co_length : length l = 17%nat;
  co_slots : forall b t, byte_Z b <= 16 -> l !! idx b = Some t -> wfs (slot b) t;
}.

Lemma wf_full_iff l : wf (TFull l) <->
  children_ok l /\ exists i j t u, i <> j /\ l !! i = Some t /\ t <> TNil /\ l !! j = Some u /\ u <> TNil.
Proof.
  split.
  - inversion 1 as [| |? Hl Hn Hv H2]; subst. split; [split; [done|]|done]. intros b t Hb Ht. unfold wfs, slot.
    case_bool_decide as E; [subst; by apply Hv|]. eapply Hn; [|done].
    unfold nibble. assert (byte_Z b <> 16) by (intros ?; by apply E, term_val). lia.
  - intros [[Hl Hs] H2]. constructor; [done| | |done].
    + intros b t Hb Ht. pose proof (Hs b t) as H. rewrite slot_nibble in H by done. apply H; [unfold nibble in Hb; lia|done].
    + intros t Ht. by apply (Hs x10 t).
Qed.

(** * A tree is determined by its entries *)

Lemma child_key l b t k v :
  l !! idx b = Some t -> tget t k = Some v -> tget (TFull l) (b :: k) = Some v.
Proof. intros Hb Hk. by rewrite tget_Full, Hb. Qed.

(** A place that is filled holds an entry. *)
Lemma filled_some p t : filled p t -> exists k v, keys p k /\ tget t k = Some v.
Proof.
  revert p. induction t as [|v|s t IH|l IH] using tree_ind; intros [|] H;
    try (by destruct H as (w & _ & [=])); try (by inversion H).
  - exists [], v. done.
  - inversion H as [? v Hk Hv|? l Hk Hn Hl|]; subst.
    + exists s, v. split; [done|]. cbn [tget]. by rewrite <- (app_nil_r s) at 2; rewrite strip_app.
    + destruct (IH PNode Hl) as (k & v & Hk' & Hg). exists (s ++ k), v. split; [|cbn [tget]; by rewrite strip_app].
      destruct k as [|b k]; [by apply hexkey_nonempty in Hk'|]. apply hexkey_app. by split.
  - apply wf_full_iff in H as [[Hlen Hs] (i & j & t & u & _ & Hi & Hn & _)].
    destruct (byte_at i) as (b & <- & Hb); [apply lookup_lt_Some in Hi; lia|].
    destruct (Hs b t Hb Hi) as [|Hf]; [done|].
    pose proof (Forall_lookup_1 _ _ _ _ IH Hi) as IHt. destruct (IHt _ Hf) as (k & v & Hk & Hg).
    exists (b :: k), v. split; [by apply hexkey_cons|]. by eapply child_key.
Qed.

(** A full node has entries that start with different nibbles. *)
Lemma full_other l b : wf (TFull l) -> exists b' k v, b' <> b /\ hexkey (b' :: k) /\ tget (TFull l) (b' :: k) = Some v.
Proof.
  intros [[Hlen Hs] (i & j & t & u & Hij & Hi & Ht & Hj & Hu)]%wf_full_iff.
  assert (exists i' t', l !! i' = Some t' /\ t' <> TNil /\ i' <> idx b) as (i' & t' & Hi' & Ht' & Hne).
  { destruct (decide (i = idx b)) as [->|]; [exists j, u|exists i, t]; split_and!; congruence. }
  destruct (byte_at i') as (b' & <- & Hb'); [apply lookup_lt_Some in Hi'; lia|].
  destruct (Hs b' t' Hb' Hi') as [|Hf]; [done|]. destruct (filled_some _ _ Hf) as (k & v & Hk & Hg).
  exists b', k, v. split_and!; [congruence|by apply hexkey_cons|by eapply child_key].
Qed.

Lemma tget_short_only s t k v : tget (TShort s t) k = Some v -> exists r, k = s ++ r /\ tget t r = Some v.
Proof.
  cbn [tget]. destruct (strip s k) as [r|] eqn:E; [|done]. apply strip_Some in E as ->. by exists r.
Qed.

Lemma tget_put s t k : tget (tput s t) k = match strip s k with Some r => tget t r | None => None end.
Proof. destruct s; [by rewrite strip_nil|done]. Qed.

(** A node is a leaf, or a full node below some nibbles. *)
Lemma wf_cases t : wf t ->
  (exists k v, hexkey k /\ v <> [] /\ t = TShort k (TVal v)) \/
  (exists s l, Forall nibble s /\ wf (TFull l) /\ t = tput s (TFull l)).
Proof.
  inversion 1 as [k v Hk Hv|s l Hs Hn Hl|l]; subst.
  - left. by exists k, v.
  - right. exists s, l. by destruct s.
  - right. exists [], l. by split_and!; [constructor| |].
Qed.

Lemma wf_put s l : Forall nibble s -> wf (TFull l) -> wf (tput s (TFull l)).
Proof. intros Hs Hl. destruct s; [done|]. by constructor. Qed.

Lemma put_key s l k v : Forall nibble s -> hexkey k -> tget (TFull l) k = Some v ->
  hexkey (s ++ k) /\ tget (tput s (TFull l)) (s ++ k) = Some v.
Proof.
  intros Hs Hk Hg. rewrite tget_put, strip_app. split; [|done].
  destruct k as [|b k]; [done|]. apply hexkey_app. by split.
Qed.

(** It has an entry that does not start with given nibbles after the prefix,
    nor is a given key. *)
Lemma put_other s l b : Forall nibble s -> wf (TFull l) ->
  exists b' k v, b' <> b /\ hexkey (s ++ b' :: k) /\ tget (tput s (TFull l)) (s ++ b' :: k) = Some v.
Proof.
  intros Hs Hl. destruct (full_other l b Hl) as (b' & k & v & Hne & Hk & Hg).
  exists b', k, v. split; [done|]. by apply put_key.
Qed.

Lemma leaf_get k v : tget (TShort k (TVal v)) k = Some v.
Proof. cbn [tget]. by rewrite <- (app_nil_r k) at 2; rewrite strip_app. Qed.

Definition same_entries (p : place) (t u : tree) : Prop := forall k, keys p k -> tget t k = tget u k.

Lemma leaf_not_put k v s l : Forall nibble s -> wf (TFull l) -> hexkey k ->
  same_entries PNode (TShort k (TVal v)) (tput s (TFull l)) -> False.
Proof.
  intros Hs Hl Hk Heq. pose proof (Heq k Hk) as H. rewrite leaf_get, tget_put in H.
  destruct (strip s k) as [r|] eqn:E; [|done]. apply strip_Some in E as ->.
  assert (exists b k', r = b :: k') as (b & k' & ->).
  { destruct r; [done|by eexists _, _]. }
  destruct (put_other s l b Hs Hl) as (b' & k2 & v' & Hne & Hk2 & Hg). rewrite <- (Heq _ Hk2) in Hg.
  apply tget_short_only in Hg as (r & Hr & _). rewrite <- app_assoc in Hr. apply app_inv_head in Hr. by injection Hr as -> _.
Qed.

(** Of two prefixes neither goes on where the other ends. *)
Lemma put_prefix c x a b l1 l2 : Forall nibble (c ++ b) -> wf (TFull l2) ->
  match b with y :: _ => x <> y | [] => True end ->
  same_entries PNode (tput (c ++ x :: a) (TFull l1)) (tput (c ++ b) (TFull l2)) -> False.
Proof.
  intros Hs Hl Hne Heq. destruct (put_other (c ++ b) l2 x Hs Hl) as (b' & k & v & Hb' & Hk & Hg).
  rewrite <- (Heq _ Hk), tget_put in Hg. destruct (strip _ _) as [r|] eqn:E; [|done]. apply strip_Some in E.
  rewrite <- !app_assoc in E. apply app_inv_head in E. destruct b as [|y b]; injection E as E _; congruence.
Qed.

Lemma put_same s1 s2 l1 l2 : Forall nibble s1 -> Forall nibble s2 -> wf (TFull l1) -> wf (TFull l2) ->
  same_entries PNode (tput s1 (TFull l1)) (tput s2 (TFull l2)) ->
  s1 = s2 /\ same_entries PNode (TFull l1) (TFull l2).
Proof.
  intros H1 H2 Hl1 Hl2 Heq. destruct (prefixLen_spec s1 s2) as (c & a & b & -> & -> & _ & Hab).
  assert (same_entries PNode (tput (c ++ b) (TFull l2)) (tput (c ++ a) (TFull l1))) as Heq' by (intros k Hk; by rewrite Heq).
  destruct a as [|x a]; [destruct b as [|y b]|].
  - split; [done|]. intros [|d k] Hk; [done|]. rewrite app_nil_r in *.
    specialize (Heq (c ++ d :: k)). rewrite !tget_put, strip_app in Heq. apply Heq. apply hexkey_app. by split.
  - exfalso. exact (put_prefix c y b [] l2 l1 H1 Hl1 I Heq').
  - exfalso. refine (put_prefix c x a b l1 l2 H2 Hl2 _ Heq). by destruct b.
Qed.

Lemma nil_unique p u : wfs p u -> same_entries p TNil u -> u = TNil.
Proof.
  intros [|Hf] Heq; [done|]. destruct (filled_some p u Hf) as (k & v & Hk & Hg). by rewrite <- (Heq k Hk) in Hg.
Qed.

Lemma same_sym p t u : same_entries p t u -> same_entries p u t.
Proof. intros H k Hk. by rewrite H. Qed.

Lemma full_unique l1 l2 :
  Forall (fun t => forall p u, wfs p t -> wfs p u -> same_entries p t u -> t = u) l1 ->
  wf (TFull l1) -> wf (TFull l2) -> same_entries PNode (TFull l1) (TFull l2) -> l1 = l2.
Proof.
  intros IH [[L1 S1] _]%wf_full_iff [[L2 S2] _]%wf_full_iff Heq. apply list_eq_same_length with 17%nat; [done..|].
  intros i t u Hi Ht Hu. destruct (byte_at i Hi) as (b & <- & Hb).
  pose proof (Forall_lookup_1 _ _ _ _ IH Ht) as IHt. apply (IHt (slot b) u); [by apply S1|by apply S2|].
  intros k Hk. specialize (Heq (b :: k)). rewrite !tget_Full, Ht, Hu in Heq. apply Heq. by apply hexkey_cons.
Qed.

(** Two trees in canonical form with the same entries are equal. *)
Lemma tree_unique t p u : wfs p t -> wfs p u -> same_entries p t u -> t = u.
Proof.
  revert p u. induction t as [|v|s t IH|l IH] using tree_ind; intros p u Ht Hu Heq;
    [symmetry; by eapply nil_unique|destruct (id Hu) as [->|Hf]; [by apply (nil_unique p), same_sym|]..].
  - destruct Ht as [|Ht]; [done|]. destruct p; [by inversion Ht|]. destruct Hf as (w & _ & ->).
    specialize (Heq [] eq_refl). cbn in Heq. congruence.
  - destruct Ht as [|Ht]; [done|]. destruct p; [|by destruct Ht as (? & _ & ?)].
    destruct (wf_cases _ Ht) as [(k & v & Hk & Hv & E)|(s1 & l1 & Hs1 & Hl1 & E)],
      (wf_cases _ Hf) as [(k' & v' & Hk' & Hv' & ->)|(s2 & l2 & Hs2 & Hl2 & ->)].
    + injection E as -> ->. pose proof (Heq k Hk) as H. rewrite leaf_get in H. symmetry in H.
      destruct (tget_short_only _ _ _ _ H) as (r & -> & [= ->]). by rewrite (hexkey_prefix k' r Hk' Hk), app_nil_r.
    + rewrite E in Heq. by apply leaf_not_put in Heq.
    + rewrite E in Heq. by apply same_sym, leaf_not_put in Heq.
    + rewrite E in Heq. destruct (put_same _ _ _ _ Hs1 Hs2 Hl1 Hl2 Heq) as [-> Heq'].
      destruct s2 as [|b s2]; [done|]. injection E as -> ->. f_equal. apply (IH PNode); [by right..|done].
  - destruct Ht as [|Ht]; [done|]. destruct p; [|by destruct Ht as (? & _ & ?)].
    destruct (wf_cases _ Hf) as [(k' & v' & Hk' & Hv' & ->)|(s2 & l2 & Hs2 & Hl2 & ->)].
    + by apply same_sym, (leaf_not_put _ _ [] l) in Heq.
    + destruct (put_same [] s2 l l2) as [<- Heq']; [constructor|done..|]. cbn [tput]. f_equal. by apply full_unique.
Qed.

(** * Insertion *)

Lemma children_set l b t : children_ok l -> byte_Z b <= 16 -> wfs (slot b) t -> children_ok (<[idx b := t]> l).
Proof.
  intros [Hl Hs] Hb Ht. split; [by rewrite length_insert|]. intros b' t' Hb'.
  destruct (decide (b = b')) as [<-|Hne].
  - rewrite list_lookup_insert_eq by (apply idx_lt in Hb; lia). by intros [= <-].
  - rewrite list_lookup_insert_ne by (intros E; by apply Hne, idx_inj). by apply Hs.
Qed.

Lemma tget_set l b t b' k : (idx b < length l)%nat ->
  tget (TFull (<[idx b := t]> l)) (b' :: k) = if bool_decide (b = b') then tget t k else tget (TFull l) (b' :: k).
Proof.
  intros Hl. rewrite !tget_Full. case_bool_decide as E.
  - subst b'. by rewrite list_lookup_insert_eq.
  - rewrite list_lookup_insert_ne; [done|]. intros H. by apply E, idx_inj.
Qed.

Lemma no_children : children_ok (replicate 17 TNil).
Proof. split; [done|]. intros b t Hb Ht. apply lookup_replicate in Ht as [-> _]. by left. Qed.

(** Two children that are not nil. *)
Lemma wf_two l b1 b2 t1 t2 : children_ok l -> b1 <> b2 ->
  l !! idx b1 = Some t1 -> t1 <> TNil -> l !! idx b2 = Some t2 -> t2 <> TNil -> wf (TFull l).
Proof.
  intros Hl Hb H1 Hn1 H2 Hn2. apply wf_full_iff. split; [done|]. exists (idx b1), (idx b2), t1, t2.
  split_and!; try done. intros E. by apply Hb, idx_inj.
Qed.

Lemma leaf_get_other k v k' : hexkey k -> hexkey k' ->
  tget (TShort k (TVal v)) k' = if bool_decide (k = k') then Some v else None.
Proof.
  intros Hk Hk'. case_bool_decide as E; [subst; apply leaf_get|]. cbn [tget].
  destruct (strip k k') as [r|] eqn:Hr; [|done]. apply strip_Some in Hr as ->.
  apply hexkey_prefix in Hk'; [|done]. subst. by rewrite app_nil_r in E.
Qed.

Lemma put_val_get p k v k' : keys p k -> keys p k' ->
  tget (tput k (TVal v)) k' = if bool_decide (k = k') then Some v else None.
Proof.
  destruct p; cbn [keys]; [|intros -> ->; by rewrite bool_decide_eq_true_2].
  intros Hk Hk'. destruct k; [done|]. by apply leaf_get_other.
Qed.

(** What is left of a node below the byte at which another key branches off. *)
Lemma put_rest c b r t : wf (TShort (c ++ b :: r) t) ->
  Forall nibble c /\ byte_Z b <= 16 /\ filled (slot b) (tput r t).
Proof.
  inversion 1 as [? v Hk Hv|? l Hk Hn Hl|]; subst.
  - apply hexkey_app in Hk as [Hc Hk]. split; [done|]. apply hexkey_cons in Hk as [Hb Hr]. split; [done|].
    destruct (slot b); cbn in *; [|subst; by exists v]. destruct r; [done|]. by constructor.
  - apply Forall_app in Hn as [Hc Hn]. apply Forall_cons_iff in Hn as [Hb Hr].
    split; [done|]. split; [unfold nibble in Hb; lia|]. rewrite slot_nibble by done. by apply wf_put.
Qed.

Lemma tbranch_ok c b1 r1 t b2 r2 v : b1 <> b2 ->
  wf (TShort (c ++ b1 :: r1) t) -> hexkey (c ++ b2 :: r2) -> v <> [] ->
  let u := tbranch (length c) (c ++ b1 :: r1) t (c ++ b2 :: r2) (TVal v) in
  wf u /\ forall k', hexkey k' -> tget u k' =
    if bool_decide (c ++ b2 :: r2 = k') then Some v else tget (TShort (c ++ b1 :: r1) t) k'.
Proof.
  intros Hne Ht Hk Hv. destruct (put_rest _ _ _ _ Ht) as (Hc & Hb1 & Hf1).
  assert (filled (slot b2) (tput r2 (TVal v))) as Hf2 by (eapply (put_rest c), wf_leaf; done).
  assert (byte_Z b2 <= 16) as Hb2 by (apply hexkey_app in Hk as [_ Hk]; by apply hexkey_cons in Hk as [? _]).
  pose proof (proj1 (idx_lt _) Hb1). pose proof (proj1 (idx_lt _) Hb2).
  set (l := <[idx b2 := tput r2 (TVal v)]> (<[idx b1 := tput r1 t]> (replicate 17 TNil))).
  assert (tbranch (length c) (c ++ b1 :: r1) t (c ++ b2 :: r2) (TVal v) = tput c (TFull l)) as ->.
  { unfold tbranch. rewrite !list_lookup_middle by done.
    rewrite !(drop_app_add' _ _ (length c) 1) by done. cbn [drop]. rewrite take_app_length. fold l.
    destruct c; [done|]. by rewrite bool_decide_eq_false_2. }
  assert (children_ok l) as Hl.
  { apply children_set; [|done|by right]. apply children_set; [apply no_children|done|by right]. }
  assert (idx b1 <> idx b2) by (intros E; by apply Hne, idx_inj).
  assert (wf (TFull l)) as Hwf.
  { apply (wf_two l b1 b2 (tput r1 t) (tput r2 (TVal v))); try done; try (by eapply filled_ne).
    - unfold l. rewrite list_lookup_insert_ne, list_lookup_insert_eq by (done || rewrite ?length_replicate; lia). done.
    - unfold l. rewrite list_lookup_insert_eq by (rewrite length_insert, length_replicate; lia). done. }
  split; [by apply wf_put|]. intros k' Hk'. rewrite tget_put, tget_Short, strip_app_2.
  destruct (strip c k') as [r|] eqn:E.
  - apply strip_Some in E as ->. destruct r as [|b r].
    { rewrite bool_decide_eq_false_2; [|intros E; apply app_inv_head in E; done]. cbn [tget]. by rewrite (proj2 (strip_None _ _)). }
    unfold l. rewrite !tget_set by (rewrite ?length_insert, length_replicate; lia).
    apply hexkey_app in Hk' as [_ [_ Hr]%hexkey_cons].
    rewrite (bool_decide_ext (c ++ b2 :: r2 = c ++ b :: r) (b2 :: r2 = b :: r)) by (split; [apply app_inv_head|by intros ->]).
    destruct (decide (b2 = b)) as [<-|Hb].
    + apply hexkey_app in Hk as [_ [_ Hk]%hexkey_cons].
      rewrite bool_decide_eq_true_2, (put_val_get (slot b2)), strip_cons_ne by done. apply bool_decide_if_ext. split; [by intros ->|by intros [= ->]].
    + rewrite (bool_decide_eq_false_2 (b2 = b)), (bool_decide_eq_false_2 (b2 :: r2 = b :: r)) by congruence.
      destruct (decide (b1 = b)) as [<-|Hb'].
      * rewrite bool_decide_eq_true_2, tget_put by done. by rewrite strip_cons.
      * rewrite bool_decide_eq_false_2, strip_cons_ne, tget_Full by done.
        destruct (replicate 17 TNil !! idx b) as [u|] eqn:Eu; [|done]. by apply lookup_replicate in Eu as [-> _].
  - rewrite bool_decide_eq_false_2; [done|]. intros <-. by rewrite strip_app in E.
Qed.

Lemma alter_at {A} (f : A -> A) i (l : list A) x : l !! i = Some x -> alter f i l = <[i := f x]> l.
Proof.
  revert i. induction l as [|y l IH]; intros [|i] H; try done; [by injection H as ->|]. cbn. f_equal. by apply IH.
Qed.

(** A child that is not nil may be set. *)
Lemma wf_set l b u : wf (TFull l) -> byte_Z b <= 16 -> filled (slot b) u -> wf (TFull (<[idx b := u]> l)).
Proof.
  intros Ht Hb Hf. apply wf_full_iff in Ht as [Hl (i & j & t1 & t2 & Hij & H1 & Hn1 & H2 & Hn2)].
  apply wf_full_iff. split; [apply children_set; [done..|by right]|].
  assert (forall n t, l !! n = Some t -> t <> TNil -> exists t', <[idx b := u]> l !! n = Some t' /\ t' <> TNil) as Hset.
  { intros n t Ht Hn. destruct (decide (idx b = n)) as [<-|]; [|rewrite list_lookup_insert_ne by done; by exists t].
    exists u. rewrite list_lookup_insert_eq by (by eapply lookup_lt_Some). split; [done|]. by eapply filled_ne. }
  destruct (Hset i t1 H1 Hn1) as (t1' & ? & ?), (Hset j t2 H2 Hn2) as (t2' & ? & ?).
  by exists i, j, t1', t2'.
Qed.

(** Nibbles alone are not a key. *)
Lemma nibbles_no_key s : Forall nibble s -> ~ hexkey s.
Proof.
  induction 1 as [|b s Hb Hs IH]; [by intros ?|]. intros [[-> _]|[_ ?]]; [by apply nibble_ne in Hb|done].
Qed.

(** The entries after a change at one key. *)
Definition changed (p : place) (t : tree) (k : list byte) (o : option (list byte)) (u : tree) : Prop :=
  forall k', keys p k' -> tget u k' = if bool_decide (k = k') then o else tget t k'.

(** A full node with a child replaced. *)
Lemma full_set l b t u r o : children_ok l -> byte_Z b <= 16 -> l !! idx b = Some t ->
  changed (slot b) t r o u -> changed PNode (TFull l) (b :: r) o (TFull (<[idx b := u]> l)).
Proof.
  intros Hl Hb Ht Hu [|b' k'] Hk'; [done|]. apply hexkey_cons in Hk' as [_ Hk'].
  rewrite tget_set by (rewrite (co_length _ Hl); by apply idx_lt). case_bool_decide as E.
  - subst b'. rewrite Hu, tget_Full, Ht by done. apply bool_decide_if_ext. split; [by intros ->|by intros [= ->]].
  - by rewrite bool_decide_eq_false_2 by congruence.
Qed.

Lemma ext_changed s t u k o : Forall nibble s -> changed PNode t k o u ->
  changed PNode (TShort s t) (s ++ k) o (TShort s u).
Proof.
  intros Hs Hu k' Hk'. cbn [tget]. destruct (strip s k') as [r|] eqn:E.
  - apply strip_Some in E as ->. rewrite Hu.
    + apply bool_decide_if_ext. split; [by intros ->|apply app_inv_head].
    + destruct r as [|b r]; [|by apply hexkey_app in Hk' as [_ ?]]. rewrite app_nil_r in Hk'.
      by apply nibbles_no_key in Hk'.
  - rewrite bool_decide_eq_false_2; [done|]. intros <-. by rewrite strip_app in E.
Qed.


Lemma tinsert_ok t p k v : wfs p t -> keys p k -> v <> [] ->
  filled p (tinsert t k (TVal v)) /\ changed p t k (Some v) (tinsert t k (TVal v)).
Proof.
  intros Ht Hk Hv. revert p k Ht Hk. induction t as [|w|s t IH|l IH] using tree_ind; intros p k Ht Hk;
    (destruct p; [|cbn in Hk; subst k; split; [by exists v|by intros k' ->]]);
    (destruct k as [|b r]; [done|]); cbn [tinsert].
  - split; [by constructor|]. intros k' Hk'. by rewrite leaf_get_other.
  - destruct Ht as [|Ht]; [done|by inversion Ht].
  - destruct Ht as [|Ht]; [done|]. destruct (prefixLen_spec (b :: r) s) as (c & a & d & E & -> & -> & Hne).
    rewrite E in *. rewrite length_app. destruct d as [|y d].
    + rewrite bool_decide_eq_true_2 by (cbn; lia). rewrite drop_app_length, app_nil_r in *.
      inversion Ht as [? w Hc Hw|? l Hc Hn Hl|]; subst.
      * assert (a = []) as -> by (by eapply hexkey_prefix). rewrite app_nil_r in *. split; [by constructor|].
        intros k' Hk'. cbn [tinsert]. rewrite !leaf_get_other by done. by case_bool_decide.
      * destruct a as [|x a]; [rewrite app_nil_r in Hk; by apply nibbles_no_key in Hk|].
        apply hexkey_app in Hk as [_ Hk]. destruct (IH PNode (x :: a)) as [Hf Hi]; [by right|done|].
        split; [by constructor|by apply ext_changed].
    + rewrite bool_decide_eq_false_2 by (cbn; lia). destruct a as [|x a].
      * exfalso. rewrite app_nil_r in Hk. inversion Ht as [? w Hc Hw|? l Hc Hn Hl|]; subst.
        -- by apply hexkey_prefix in Hc.
        -- apply Forall_app in Hn as [Hn _]. by apply nibbles_no_key in Hk.
      * destruct (tbranch_ok c y d t x a v) as [Hf Hi]; done.
  - destruct Ht as [|Ht]; [done|]. pose proof (proj1 (proj1 (wf_full_iff l) Ht)) as Hl.
    apply hexkey_cons in Hk as [Hb Hr]. pose proof (co_length _ Hl). pose proof (proj1 (idx_lt _) Hb).
    destruct (lookup_lt_is_Some_2 l (idx b)) as [t Ht']; [lia|].
    pose proof (Forall_lookup_1 _ _ _ _ IH Ht') as IHt. destruct (IHt (slot b) r) as [Hf Hi]; [by apply Hl|done|].
    rewrite (alter_at _ _ _ _ Ht'). split; [by apply wf_set|by eapply full_set].
Qed.

(** * Deletion *)

Definition only_at (l : list tree) (i : nat) (t : tree) : Prop :=
  l !! i = Some t /\ t <> TNil /\ forall j u, l !! j = Some u -> j <> i -> u = TNil.

Lemma tonly_found l : forall i p, 0 <= p ->
  (tonly i p l = p /\ Forall (eq TNil) l) \/ (tonly i p l = -2 /\ exists j t, l !! j = Some t /\ t <> TNil).
Proof.
  induction l as [|t l IH]; intros i p Hp; [left; by split|]. cbn [tonly]. destruct (isnil t) eqn:E.
  - assert (t = TNil) as -> by (by destruct t). destruct (IH (i + 1) p Hp) as [[? ?]|[? (j & t & ? & ?)]].
    + left. split; [done|by constructor].
    + right. split; [done|]. by exists (S j), t.
  - replace (p =? -1) with false by lia. right. split; [done|]. exists 0%nat, t. split; [done|]. by intros ->.
Qed.

Lemma tonly_spec l : forall i, 0 <= i ->
  (tonly i (-1) l = -1 /\ Forall (eq TNil) l) \/
  (exists n t, tonly i (-1) l = i + Z.of_nat n /\ only_at l n t) \/
  (tonly i (-1) l = -2 /\ exists m n t u, m <> n /\ l !! m = Some t /\ t <> TNil /\ l !! n = Some u /\ u <> TNil).
Proof.
  induction l as [|t l IH]; intros i Hi; [left; by split|]. cbn [tonly]. destruct (isnil t) eqn:E.
  - assert (t = TNil) as -> by (by destruct t).
    destruct (IH (i + 1)) as [[? ?]|[(n & t & ? & ? & ? & Ho)|[? (m & n & t & u & ? & ? & ? & ? & ?)]]]; [lia|..].
    + left. split; [done|by constructor].
    + right. left. exists (S n), t. split; [lia|]. split_and!; [done..|].
      intros [|j] u Hu Hj; [by injection Hu|]. eapply Ho; [done|lia].
    + right. right. split; [done|]. exists (S m), (S n), t, u. split_and!; try done. lia.
  - assert (t <> TNil) by (by intros ->). change (-1 =? -1) with true. cbn [tonly].
    destruct (tonly_found l (i + 1) i Hi) as [[-> Hn]|[-> (j & u & Hj & Hu)]].
    + right. left. exists 0%nat, t. split; [lia|]. split_and!; [done..|]. intros [|j] u Hu Hj; [done|].
      by apply (Forall_lookup_1 _ _ _ _ Hn) in Hu.
    + right. right. split; [done|]. by exists 0%nat, (S j), t, u.
Qed.

Lemma only_get l b t k : only_at l (idx b) t ->
  tget (TFull l) k = match k with b' :: r => if bool_decide (b = b') then tget t r else None | [] => None end.
Proof.
  intros (Hb & _ & Ho). destruct k as [|b' r]; [done|]. rewrite tget_Full. case_bool_decide as E; [by subst; rewrite Hb|].
  destruct (l !! idx b') as [u|] eqn:Hu; [|done]. rewrite (Ho _ _ Hu); [done|]. intros ?. by apply E, idx_inj.
Qed.

(** A full node with children left is brought to canonical form. *)
Lemma treduce_ok l i t : children_ok l -> l !! i = Some t -> t <> TNil ->
  wf (treduce l) /\ forall k, hexkey k -> tget (treduce l) k = tget (TFull l) k.
Proof.
  intros Hl Hi Ht. unfold treduce.
  destruct (tonly_spec l 0) as [[_ Hn]|[(n & u & -> & Ho)|[-> H2]]]; [lia|..].
  - by apply (Forall_lookup_1 _ _ _ _ Hn) in Hi.
  - rewrite Z.add_0_l, Nat2Z.id. rewrite (proj2 (Z.geb_le _ _) (Nat2Z.is_nonneg n)).
    pose proof Ho as (Hu & Hne & _). rewrite Hu. pose proof (lookup_lt_Some _ _ _ Hu). rewrite (co_length _ Hl) in *.
    destruct (byte_at n) as (b & <- & Hb); [done|].
    replace (Z.of_nat (idx b)) with (byte_Z b) by (pose proof (byte_Z_range b); lia). rewrite Z_byte_byte_Z.
    destruct (co_slots _ Hl b u Hb Hu) as [|Hf]; [done|].
    assert (forall s v, wf (TShort (b :: s) v) -> tput s v = u -> wf (TShort (b :: s) v) /\
      forall k, hexkey k -> tget (TShort (b :: s) v) k = tget (TFull l) k) as Hfin.
    { intros s v Hwf Hput. split; [done|]. intros k Hk. rewrite (only_get l b u k Ho), <- Hput.
      destruct k as [|b' r]; [done|]. cbn [tget]. case_bool_decide as E; [subst b'; by rewrite strip_cons, tget_put|].
      by rewrite strip_cons_ne. }
    destruct (slot b) eqn:Es.
    + assert (nibble b) as Hnib by (by apply slot_node). replace (byte_Z b =? 16) with false by (unfold nibble in Hnib; lia).
      cbn [negb]. inversion Hf as [k v Hk Hv|k l2 Hk Hk' Hl2|l2]; subst; apply Hfin; try (by destruct k); try done.
      * constructor; [|done]. apply hexkey_cons. by rewrite Es.
      * by constructor; [|constructor|].
      * by constructor; [|constructor|].
    + destruct Hf as (v & Hv & ->). apply Hfin; [|done]. constructor; [|done]. apply hexkey_cons. by rewrite Es.
  - change (-2 >=? 0) with false. split; [by apply wf_full_iff|done].
Qed.

(** Nibbles in front of a node. *)
Definition tprepend (s : list byte) (u : tree) : tree :=
  match u with TShort ck c => TShort (s ++ ck) c | _ => TShort s u end.

Lemma tprepend_ok s u : s <> [] -> Forall nibble s -> wf u ->
  wf (tprepend s u) /\ forall k, tget (tprepend s u) k = tget (TShort s u) k.
Proof.
  intros Hs Hn Hu. split.
  - inversion Hu as [k v Hk Hv|k l Hk Hk' Hl|l]; subst; cbn [tprepend].
    + constructor; [|done]. destruct k as [|b k]; [done|]. apply hexkey_app. by split.
    + constructor; [by destruct s| |done]. apply Forall_app. by split.
    + by constructor.
  - intros k. destruct u; try done. cbn [tprepend]. rewrite !tget_Short, strip_app_2. by destruct (strip s k).
Qed.

Lemma changed_ext p t k o u u' : (forall k', keys p k' -> tget u' k' = tget u k') -> changed p t k o u -> changed p t k o u'.
Proof. intros H Hc k' Hk'. by rewrite H, Hc. Qed.

Lemma tdelete_ok t p k : wfs p t -> keys p k ->
  match tdelete t k with
  | None => tget t k = None
  | Some u => wfs p u /\ changed p t k None u /\ (forall l, t = TFull l -> u <> TNil)
  end.
Proof.
  revert p k. induction t as [|w|s t IH|l IH] using tree_ind; intros p k Ht Hk.
  - done.
  - destruct Ht as [|Ht]; [done|]. destruct p; [by inversion Ht|]. cbn in Hk. subst k.
    split_and!; [by left| |done]. by intros k' ->.
  - destruct Ht as [|Ht]; [done|]. destruct p; [|by destruct Ht as (? & _ & ?)].
    cbn [tdelete]. destruct (prefixLen_spec k s) as (c & a & d & -> & -> & -> & Hne).
    destruct d as [|y d].
    2:{ rewrite bool_decide_eq_true_2 by (rewrite length_app; cbn; lia). cbn [tget]. rewrite strip_app_2, strip_app.
        destruct a as [|x a]; [by rewrite (proj2 (strip_None _ _))|]. by rewrite strip_cons_ne. }
    rewrite app_nil_r in *. rewrite bool_decide_eq_false_2 by lia. rewrite drop_app_length, length_app.
    inversion Ht as [? w Hc Hw|? l Hc Hn Hl|]; subst.
    + assert (a = []) as -> by (by eapply hexkey_prefix). rewrite bool_decide_eq_true_2 by (cbn; lia).
      rewrite app_nil_r in *. split_and!; [by left| |done]. intros k' Hk'. rewrite leaf_get_other by done. by case_bool_decide.
    + destruct a as [|x a]; [rewrite app_nil_r in Hk; by apply nibbles_no_key in Hk|].
      rewrite bool_decide_eq_false_2 by (cbn; lia). pose proof Hk as [_ Hk2]%hexkey_app.
      specialize (IH PNode (x :: a) ltac:(by right) Hk2). destruct (tdelete (TFull l) (x :: a)) as [u|].
      * destruct IH as (Hw & Hc' & Hnil). specialize (Hnil l eq_refl). destruct Hw as [|Hw]; [done|].
        destruct (tprepend_ok c u Hc Hn Hw) as [Hp Hg].
        replace (match u with TShort ck v => _ | _ => _ end) with (Some (tprepend c u)) by (by destruct u).
        split_and!; [by right| |done]. eapply changed_ext; [intros k' _; apply Hg|by apply ext_changed].
      * cbn [tget]. by rewrite strip_app.
  - destruct Ht as [|Ht]; [done|]. destruct p; [|by destruct Ht as (? & _ & ?)].
    destruct k as [|b r]; [done|].
    pose proof Ht as [Hl (i & j & t1 & t2 & Hij & H1 & Hn1 & H2 & Hn2)]%wf_full_iff.
    apply hexkey_cons in Hk as [Hb Hr]. pose proof (co_length _ Hl). pose proof (proj1 (idx_lt _) Hb).
    destruct (lookup_lt_is_Some_2 l (idx b)) as [t Ht']; [lia|]. rewrite tdelete_Full, tget_Full, Ht'.
    pose proof (Forall_lookup_1 _ _ _ _ IH Ht') as IHt. specialize (IHt (slot b) r (co_slots _ Hl b t Hb Ht') Hr).
    destruct (tdelete t r) as [c|]; [|done]. destruct IHt as (Hc & Hch & _). cbn [mbind option_bind].
    assert (exists n t', <[idx b := c]> l !! n = Some t' /\ t' <> TNil) as (n & t' & Hn & Hne).
    { destruct (decide (idx b = i)) as [<-|]; [exists j, t2|exists i, t1]; by rewrite list_lookup_insert_ne. }
    destruct (treduce_ok (<[idx b := c]> l) n t') as [Hwf Hg]; [by apply children_set|done..|].
    split_and!; [by right| |intros _ _; by apply (filled_ne PNode)].
    eapply changed_ext; [exact Hg|]. by eapply full_set.
Qed.
