(* ===== verification/TrieCodec.v ===== *)
(** Encodings of trie nodes: keys in compact form, the encoding and the hash of a
    tree, and the proof that decodeNode of trie/node.go reads it back. *)

From S2P Require Import Prelude BigMath Rlp RlpSpec RlpRaw Trie TrieTree.
Import Big Common MPT.

(** * Compact keys *)

(** Keys of nodes: nibbles, with the terminator at the end or not. *)
Definition path_key (s : list byte) : Prop := Forall nibble s \/ hexkey s.

Lemma hexkey_split k : hexkey k -> exists s, k = s ++ [x10] /\ Forall nibble s.
Proof.
  induction k as [|b k IH]; [done|]. intros [[-> ->]|[Hb Hk]]; [by exists []|].
  destruct (IH Hk) as (s & -> & Hs). exists (b :: s). split; [done|]. by constructor.
Qed.

Lemma hexkey_snoc s : Forall nibble s -> hexkey (s ++ [x10]).
Proof. intros Hs. apply hexkey_app. split; [done|]. by left. Qed.

Lemma hasTerm_nibbles s : Forall nibble s -> hasTerm s = false.
Proof.
  intros Hs. apply bool_decide_eq_false. intros H. apply last_Some in H as [l ->].
  apply Forall_app in Hs as [_ Hs]. apply Forall_cons_iff in Hs as [Hb _]. by apply nibble_ne in Hb.
Qed.

Lemma hasTerm_snoc s : hasTerm (s ++ [x10]) = true.
Proof. apply bool_decide_eq_true. by rewrite last_snoc. Qed.

(** Two nibbles in a byte. *)
Lemma nibble_pair a b : nibble a -> nibble b ->
  byte_Z (Z_byte (Z.lor (Z.shiftl (byte_Z a) 4) (byte_Z b))) = 16 * byte_Z a + byte_Z b.
Proof.
  unfold nibble. intros Ha Hb. pose proof (byte_Z_range a). pose proof (byte_Z_range b).
  rewrite byte_Z_Z_byte, Z.shiftl_mul_pow2 by lia. change (2 ^ 4) with 16.
  assert (Z.lor (byte_Z a * 16) (byte_Z b) = 16 * byte_Z a + byte_Z b) as ->; [|apply Z.mod_small; lia].
  pose proof (Z.add_lor_land (byte_Z a * 16) (byte_Z b)).
  assert (Z.land (byte_Z a * 16) (byte_Z b) = 0); [|lia]. apply Z.bits_inj'. intros n Hn. rewrite Z.land_spec, Z.bits_0.
  change 16 with (2 ^ 4). destruct (Z.lt_ge_cases n 4).
  - by rewrite Z.mul_pow2_bits_low.
  - rewrite (Z.bits_above_log2 (byte_Z b) n); [apply andb_false_r|lia|].
    destruct (Z.eq_dec (byte_Z b) 0) as [->|]; [cbn; lia|]. apply Z.log2_lt_pow2; [lia|].
    apply Z.lt_le_trans with (2 ^ 4); [lia|]. apply Z.pow_le_mono_r; lia.
Qed.

Lemma decodeNibbles_hex s : Forall nibble s -> Nat.Even (length s) ->
  exists c, decodeNibbles s = Some c /\ keybytesToHex c = s ++ [x10] /\ (2 * length c = length s)%nat.
Proof.
  intros Hs. remember (length s) as n eqn:En. revert s En Hs.
  induction n as [n IH] using lt_wf_ind; intros [|a [|b s]] -> Hs Hev.
  - by exists [].
  - by destruct Hev as [k Hk]; cbn in Hk; lia.
  - apply Forall_cons_iff in Hs as [Ha Hs]. apply Forall_cons_iff in Hs as [Hb Hs].
    destruct (IH (length s)) with (s := s) as (c & Hc & Hk & Hl); [cbn; lia|done|done| |].
    { destruct Hev as [k Hk]. exists (k - 1)%nat. cbn in Hk. lia. }
    cbn [decodeNibbles]. rewrite Hc. cbn [mbind option_bind]. eexists. split; [done|]. cbn [keybytesToHex length].
    split; [|lia]. rewrite nibble_pair, Hk by done. unfold nibble in *.
    pose proof (byte_Z_range a). pose proof (byte_Z_range b).
    assert ((16 * byte_Z a + byte_Z b) / 16 = byte_Z a) as -> by zlia.
    assert ((16 * byte_Z a + byte_Z b) mod 16 = byte_Z b) as -> by zlia.
    by rewrite !Z_byte_byte_Z.
Qed.

(** compactToHex on a first byte of two nibbles and the rest of the key. *)
Lemma compactToHex_cons b c s (t : bool) odd :
  byte_Z b / 16 = (if t then 2 else 0) + odd -> odd = 0 \/ odd = 1 -> keybytesToHex c = s ++ [x10] ->
  compactToHex (b :: c) =
    Some (drop (Z.to_nat (2 - odd)) (Z_byte (byte_Z b / 16) :: Z_byte (byte_Z b mod 16) :: s ++ (if t then [x10] else []))).
Proof.
  intros Hb Hodd Hc. unfold compactToHex. cbn [keybytesToHex]. rewrite Hc.
  set (x := Z_byte (byte_Z b / 16)). set (y := Z_byte (byte_Z b mod 16)).
  rewrite (slice_app [] (x :: y :: s) [x10]) by (unfold len; cbn [length]; rewrite ?length_app; cbn [length]; lia). cbn [mbind option_bind head].
  assert (byte_Z x = (if t then 2 else 0) + odd) as Hx.
  { unfold x. rewrite byte_Z_Z_byte, Hb. apply Z.mod_small. destruct t; lia. }
  rewrite Hx. assert (Z.land ((if t then 2 else 0) + odd) 1 = odd) as -> by (destruct t, Hodd; subst; reflexivity).
  replace (if (if t then 2 else 0) + odd >=? 2 then (x :: y :: s) ++ [x10] else x :: y :: s)
    with (x :: y :: s ++ (if t then [x10] else [])).
  - rewrite slice_Some by (unfold len; cbn [length]; rewrite ?length_app; lia).
    f_equal. apply take_ge. rewrite length_drop. unfold len. lia.
  - destruct t, Hodd; subst; cbn [Z.add Z.geb Z.compare Pos.compare Pos.compare_cont Pos.add Pos.succ app]; by rewrite ?app_nil_r.
Qed.

Lemma hexToCompact_ok s : path_key s ->
  exists c, hexToCompact s = Some c /\ compactToHex c = Some s /\ c <> [] /\ len c <= len s + 1.
Proof.
  intros Hs. assert (exists h (t : bool), s = h ++ (if t then [x10] else []) /\ Forall nibble h /\ hasTerm s = t) as (h & t & -> & Hh & Ht).
  { destruct Hs as [Hs|Hs].
    - exists s, false. rewrite app_nil_r. split_and!; [done..|by apply hasTerm_nibbles].
    - apply hexkey_split in Hs as (h & -> & Hh). exists h, true. split_and!; [done..|apply hasTerm_snoc]. }
  unfold hexToCompact. rewrite Ht.
  replace (if t then _ else _) with ((if t then 1 else 0) : Z, h).
  2:{ destruct t; [|by rewrite app_nil_r]. rewrite length_app. cbn [length]. rewrite Nat.add_sub. by rewrite take_app_length. }
  assert (Z.shiftl (if t then 1 else 0) 5 = if t then 32 else 0) as -> by (by destruct t).
  rewrite (Z.land_ones (len h) 1 ltac:(lia) : Z.land (len h) 1 = len h mod 2).
  destruct (Z.eqb_spec (len h mod 2) 1) as [Ho|He].
  - destruct h as [|f h]; [done|]. cbn [head tail]. apply Forall_cons_iff in Hh as [Hf Hh].
    destruct (decodeNibbles_hex h Hh) as (c & Hc & Hk & Hl).
    { unfold len in Ho. cbn [length] in Ho. exists (Z.to_nat (Z.of_nat (length h) / 2)). zlia. }
    cbn [mbind option_bind]. rewrite Hc. cbn [mbind option_bind].
    set (b := Z_byte _). assert (byte_Z b = (if t then 48 else 16) + byte_Z f) as Hb.
    { unfold b, nibble in *. pose proof (byte_Z_range f). rewrite byte_Z_Z_byte.
      pose proof (nibble_pair (if t then x03 else x01) f) as Hp. unfold nibble in Hp. rewrite byte_Z_Z_byte in Hp.
      replace (Z.lor (if t then 32 else 0) (Z.shiftl 1 4)) with (Z.shiftl (byte_Z (if t then x03 else x01)) 4) by (by destruct t).
      rewrite Hp; [|destruct t; cbn; lia|done]. destruct t; cbn; lia. }
    exists (b :: c). split_and!; [done| |done|unfold len; rewrite length_app; cbn [length]; lia].
    unfold nibble in Hf. pose proof (byte_Z_range f).
    rewrite (compactToHex_cons b c h t 1); [|rewrite Hb; destruct t; zlia|by right|done].
    change (Z.to_nat (2 - 1)) with 1%nat. cbn [drop]. rewrite Hb.
    replace (((if t then 48 else 16) + byte_Z f) mod 16) with (byte_Z f) by (destruct t; zlia). by rewrite Z_byte_byte_Z.
  - destruct (decodeNibbles_hex h Hh) as (c & Hc & Hk & Hl).
    { unfold len in He. exists (Z.to_nat (Z.of_nat (length h) / 2)). zlia. }
    rewrite Hc. cbn [mbind option_bind]. set (b := Z_byte _).
    assert (byte_Z b = if t then 32 else 0) as Hb by (unfold b; rewrite byte_Z_Z_byte; by destruct t).
    exists (b :: c). split_and!; [done| |done|unfold len; rewrite length_app; cbn [length]; lia].
    rewrite (compactToHex_cons b c h t 0); [|rewrite Hb; by destruct t|by left|done]. done.
Qed.

Definition compact (s : list byte) : list byte := default [] (hexToCompact s).

Lemma compact_ok s : path_key s -> hexToCompact s = Some (compact s) /\ compactToHex (compact s) = Some s /\ len (compact s) <= len s + 1.
Proof. intros Hs. unfold compact. destruct (hexToCompact_ok s Hs) as (c & -> & Hc & _ & Hl). done. Qed.

(** * Encodings of trees *)

Section Codec.
Context (Keccak256 : list byte -> Hash).
Abbreviation K b := (Hash_Bytes (Keccak256 b)).

Definition isnode (t : tree) : bool := match t with TShort _ _ | TFull _ => true | _ => false end.

(** How a parent refers to a child with encoding [i]. *)
Definition refer (t : tree) (i : item) : item :=
  if isnode t && negb (len (rlp i) <? 32) then Str (K (rlp i)) else i.

Fixpoint titem (t : tree) : item :=
  match t with
  | TNil => Str []
  | TVal v => Str v
  | TShort s u => Lst [Str (compact s); refer u (titem u)]
  | TFull l => Lst (map (fun u => refer u (titem u)) l)
  end.
Definition tref (t : tree) : item := refer t (titem t).
Definition tenc (t : tree) : list byte := rlp (titem t).
Definition thash (t : tree) : list byte := K (tenc t).
Definition big (t : tree) : Prop := 32 <= len (tenc t).

Lemma titem_Short s u : titem (TShort s u) = Lst [Str (compact s); tref u].
Proof. done. Qed.
Lemma titem_Full l : titem (TFull l) = Lst (map tref l).
Proof. done. Qed.

Lemma tref_big t : isnode t = true -> big t -> tref t = Str (thash t).
Proof. unfold tref, refer, big, thash, tenc. intros -> H. by replace (_ <? 32) with false by lia. Qed.
Lemma tref_small t : ~ big t -> tref t = titem t.
Proof.
  unfold tref, refer, big, tenc. intros H. replace (_ <? 32) with true by lia. by rewrite andb_false_r.
Qed.
Lemma tref_leaf t : isnode t = false -> tref t = titem t.
Proof. unfold tref, refer. by intros ->. Qed.

#[export] Instance big_dec t : Decision (big t) := Z_le_dec _ _.

Lemma tref_len t : isnode t = true -> len (rlp (tref t)) <= 33.
Proof.
  intros Ht. destruct (decide (big t)) as [Hb|Hs].
  - rewrite tref_big by done. unfold thash. cbn [rlp].
    assert (is_single (K (tenc t)) = false) as ->.
    { pose proof (len_Hash_Bytes (Keccak256 (tenc t))) as H. destruct (K (tenc t)) as [|x [|y l]]; done. }
    rewrite !len_app, len_Hash_Bytes. done.
  - rewrite tref_small by done. unfold big, tenc in Hs. lia.
Qed.

(** * Sizes *)

(** Keys and values are short enough for all lengths to be exact. *)
Definition small (p : place) (t : tree) : Prop :=
  forall k v, keys p k -> tget t k = Some v -> len k < 2 ^ 56 /\ len v < 2 ^ 56.

Lemma small_child l b t : small PNode (TFull l) -> byte_Z b <= 16 -> l !! idx b = Some t -> small (slot b) t.
Proof.
  intros Hs Hb Ht k v Hk Hg. destruct (Hs (b :: k) v) as [Hl Hv]; [by apply hexkey_cons|by eapply child_key|].
  rewrite len_cons in Hl. split; [lia|done].
Qed.

Lemma small_below s t p : small PNode (TShort s t) -> (forall k, keys p k -> hexkey (s ++ k)) -> small p t.
Proof.
  intros Hs Hp k v Hk Hg. destruct (Hs (s ++ k) v) as [Hl Hv]; [by apply Hp|cbn [tget]; by rewrite strip_app|].
  rewrite len_app in Hl. pose proof (len_nonneg s). split; [lia|done].
Qed.

Lemma small_key s t p : small PNode (TShort s t) -> (forall k, keys p k -> hexkey (s ++ k)) -> filled p t -> len s < 2 ^ 56.
Proof.
  intros Hs Hp Hf. destruct (filled_some p t Hf) as (k & v & Hk & Hg).
  destruct (Hs (s ++ k) v) as [Hl _]; [by apply Hp|cbn [tget]; by rewrite strip_app|].
  rewrite len_app in Hl. pose proof (len_nonneg k). lia.
Qed.

(** The two kinds of short nodes. *)
Lemma wf_short s t : wf (TShort s t) -> exists p, filled p t /\ path_key s /\ (forall k, keys p k -> hexkey (s ++ k)) /\
  match p with PVal => hexkey s /\ exists v, t = TVal v | PNode => Forall nibble s /\ exists l, t = TFull l end.
Proof.
  inversion 1 as [k v Hk Hv|k l Hk Hn Hl|]; subst.
  - exists PVal. split_and!; [by exists v|by right|intros k ->; by rewrite app_nil_r|done|by exists v].
  - exists PNode. split_and!; [done|by left| |done|by exists l].
    intros [|b k'] Hk'; [done|]. apply hexkey_app. by split.
Qed.

Lemma body_le l m : (forall i, i ∈ l -> len (rlp i) <= m) -> len (body l) <= len l * m.
Proof.
  induction l as [|i l IH]; intros H; [done|]. rewrite body_cons, len_app, len_cons.
  pose proof (H i ltac:(apply elem_of_cons; by left)). assert (len (body l) <= len l * m); [|lia].
  apply IH. intros j Hj. apply H. apply elem_of_cons. by right.
Qed.

Lemma tref_fits p t : wfs p t -> small p t -> len (rlp (tref t)) <= 2 ^ 56 + 40.
Proof.
  intros [->|Hf] Hs; [by apply Z.leb_le|]. destruct p.
  - pose proof (tref_len t). destruct Hf; cbn [isnode] in *; lia.
  - destruct Hf as (v & Hv & ->). rewrite tref_leaf by done. cbn [titem].
    destruct (Hs [] v eq_refl eq_refl) as [_ Hl]. pose proof (rlp_Str_le v ltac:(lia)). lia.
Qed.

(** The encoding of a node is short. *)
Lemma tenc_fits t : wf t -> small PNode t -> len (tenc t) < 2 ^ 62.
Proof.
  intros Ht Hs. unfold tenc. destruct t as [| |s t|l]; try (by inversion Ht).
  - destruct (wf_short s t Ht) as (p & Hf & Hk & Hp & _).
    pose proof (tref_fits p t ltac:(by right) (small_below _ _ _ Hs Hp)).
    pose proof (small_key _ _ _ Hs Hp Hf). destruct (compact_ok s Hk) as (_ & _ & Hc).
    pose proof (rlp_Str_le (compact s) ltac:(lia)). rewrite titem_Short.
    assert (len (body [Str (compact s); tref t]) < 2 ^ 61).
    { rewrite !body_cons, !len_app. change (len (body [])) with 0. lia. }
    pose proof (rlp_Lst_le [Str (compact s); tref t] ltac:(lia)). lia.
  - rewrite titem_Full. pose proof (proj1 (proj1 (wf_full_iff l) Ht)) as Hl.
    assert (len (body (map tref l)) <= len (map tref l) * (2 ^ 56 + 40)).
    { apply body_le. intros i [u [-> Hu]]%list_elem_of_fmap. apply list_elem_of_lookup in Hu as [n Hn].
      pose proof (lookup_lt_Some _ _ _ Hn). rewrite (co_length _ Hl) in *. destruct (byte_at n) as (b & <- & Hb); [done|].
      apply (tref_fits (slot b)); [by apply Hl|by eapply small_child]. }
    assert (len (map tref l) = 17) as Hlen by (unfold len; by rewrite length_map, (co_length _ Hl)). rewrite Hlen in *.
    pose proof (rlp_Lst_le (map tref l) ltac:(lia)). lia.
Qed.

(** * Decoding *)

(** The node that is loaded from the encoding of a tree: nodes that the encoding
    refers to by hash are not loaded. *)
Definition loadref (u : tree) (n : node) : node := if isnode u && bool_decide (big u) then hashNode (thash u) else n.
Fixpoint load (g : Z) (ho : option (list byte)) (t : tree) : node :=
  match t with
  | TNil => nilNode
  | TVal v => valueNode v
  | TShort s u => shortNode s (loadref u (load g None u)) (mkFlag ho g false)
  | TFull l => fullNode (map (fun u => loadref u (load g None u)) l) (mkFlag ho g false)
  end.
Definition loaded (g : Z) (u : tree) : node := loadref u (load g None u).

Lemma bind_split {A B} (a : A) (f : A -> T B) s : (split (Some (inl a)) ≫= f) s = f a s.
Proof. done. Qed.

(** Decoding of the embedded node of a tree. *)
Definition decodes (D : option (list byte) -> list byte -> T node) (g : Z) (t : tree) : Prop :=
  forall ho rest, len (tenc t ++ rest) < 2 ^ 64 -> D ho (tenc t ++ rest) tt = Ok (load g ho t) tt.

Lemma decodeRef_ok D g u rest : wfs PNode u -> (isnode u = true -> ~ big u -> decodes D g u) ->
  len (rlp (tref u) ++ rest) < 2 ^ 64 ->
  decodeRef D (rlp (tref u) ++ rest) tt = Ok (loaded g u, rest) tt.
Proof.
  intros Hu HD Hlen. unfold decodeRef. rewrite Split_rlp by done. unfold loaded, loadref.
  destruct Hu as [->|Hu]; [done|]. assert (isnode u = true) as Hn by (by destruct Hu). rewrite Hn. cbn [andb].
  destruct (decide (big u)) as [Hb|Hb].
  - rewrite bool_decide_eq_true_2, tref_big by done. cbn [raw_of].
    pose proof (len_Hash_Bytes (Keccak256 (tenc u))) as H32. fold (thash u) in H32.
    assert (is_single (thash u) = false) as -> by (by destruct (thash u) as [|x [|y l]]).
    cbn [split fst snd]. unfold mbind, ST_bind, mret, ST_ret. by rewrite H32.
  - rewrite bool_decide_eq_false_2 by done. rewrite tref_small in * by done.
    assert (exists l, titem u = Lst l) as [l El] by (destruct Hu; by eexists).
    rewrite El. cbn [raw_of split fst snd]. rewrite <- El. fold (tenc u). unfold mbind, ST_bind, mret, ST_ret.
    rewrite len_app. replace (len (tenc u) + len rest - len rest >? hashLen) with false
      by (unfold hashLen, big in *; lia). by rewrite (HD Hn Hb None rest Hlen).
Qed.

Lemma decodeChildren_ok D g l rest :
  (forall u, u ∈ l -> wfs PNode u /\ (isnode u = true -> ~ big u -> decodes D g u)) ->
  len (body (map tref l) ++ rest) < 2 ^ 64 ->
  decodeChildren D (length l) (body (map tref l) ++ rest) tt = Ok (map (loaded g) l, rest) tt.
Proof.
  induction l as [|u l IH]; intros Hl Hlen; [done|]. cbn [length decodeChildren map]. cbn [map] in Hlen.
  rewrite body_cons, <- app_assoc in *. destruct (Hl u) as [Hu HD]; [apply elem_of_cons; by left|].
  rewrite (bind_Ok _ _ _ _ _ (decodeRef_ok D g u _ Hu HD Hlen)).
  rewrite len_app in Hlen. pose proof (len_nonneg (rlp (tref u))).
  assert (decodeChildren D (length l) (body (map tref l) ++ rest) tt = Ok (map (loaded g) l, rest) tt) as E.
  { apply IH; [|lia]. intros w Hw. apply Hl. apply elem_of_cons. by right. }
  by rewrite (bind_Ok _ _ _ _ _ E).
Qed.

Lemma decodeShort_ok D g ho s u : wf (TShort s u) -> (isnode u = true -> ~ big u -> decodes D g u) ->
  len (body [Str (compact s); tref u]) < 2 ^ 64 ->
  decodeShort D g ho (body [Str (compact s); tref u]) tt = Ok (load g ho (TShort s u)) tt.
Proof.
  intros Hw HD Hlen. destruct (wf_short s u Hw) as (p & Hf & Hk & Hp & Hcase). destruct (compact_ok s Hk) as (_ & Hc & _).
  rewrite !body_cons in *. unfold decodeShort. rewrite SplitString_rlp by done. rewrite len_app in Hlen.
  pose proof (len_nonneg (rlp (Str (compact s)))). rewrite bind_split, (bind_must _ _ _ _ Hc). destruct p.
  - destruct Hcase as [Hn (l & ->)]. rewrite hasTerm_nibbles by done.
    rewrite (bind_Ok _ _ _ _ _ (decodeRef_ok D g (TFull l) (body []) ltac:(by right) HD ltac:(lia))). done.
  - destruct Hcase as [Hs (v & ->)]. apply hexkey_split in Hs as (h & -> & _). rewrite hasTerm_snoc.
    rewrite tref_leaf by done. cbn [titem]. rewrite SplitString_rlp; [done|].
    rewrite tref_leaf in Hlen by done. cbn [titem] in Hlen. lia.
Qed.

Lemma decodeFull_ok D g ho l : wf (TFull l) ->
  (forall u, u ∈ l -> isnode u = true -> ~ big u -> decodes D g u) ->
  len (body (map tref l)) < 2 ^ 64 ->
  decodeFull D g ho (body (map tref l)) tt = Ok (load g ho (TFull l)) tt.
Proof.
  intros Hw HD Hlen. pose proof (proj1 (proj1 (wf_full_iff l) Hw)) as Hl. pose proof (co_length _ Hl) as H17.
  destruct (lookup_lt_is_Some_2 l 16) as [w Hlast]; [lia|].
  assert (l = take 16 l ++ [w]) as El.
  { rewrite <- (take_S_r l 16 w Hlast), take_ge; [done|lia]. }
  assert (length (take 16 l) = 16%nat) as H16 by (rewrite length_take; lia).
  assert (body (map tref l) = body (map tref (take 16 l)) ++ rlp (tref w)) as Eb.
  { rewrite El at 1. unfold body. rewrite !map_app, concat_app. cbn. by rewrite app_nil_r. }
  rewrite Eb in *. unfold decodeFull.
  assert (decodeChildren D 16 (body (map tref (take 16 l)) ++ rlp (tref w)) tt =
          Ok (map (loaded g) (take 16 l), rlp (tref w)) tt) as E.
  - rewrite <- H16 at 1. apply decodeChildren_ok; [|done].
    intros u Hu. assert (u ∈ l) as Hul by (rewrite El; apply elem_of_app; by left). split; [|by apply HD].
    apply list_elem_of_lookup in Hu as [n Hn]. pose proof (lookup_lt_Some _ _ _ Hn). rewrite lookup_take_lt in Hn by lia.
    destruct (byte_at n) as (b & <- & Hb); [lia|]. pose proof (co_slots _ Hl b u Hb Hn) as Hs.
    rewrite slot_nibble in Hs; [done|]. unfold nibble. pose proof (byte_Z_range b). lia.
  - rewrite (bind_Ok _ _ _ _ _ E). rewrite len_app in Hlen. pose proof (len_nonneg (body (map tref (take 16 l)))).
    assert (exists v, titem w = Str v /\ loaded g w = if len v >? 0 then valueNode v else nilNode) as (v & Ev & Hv).
    { destruct (co_slots _ Hl x10 w ltac:(done) Hlast) as [->|(v & Hv & ->)]; [by exists []|]. exists v. split; [done|].
      destruct v; [done|]. rewrite len_cons. pose proof (len_nonneg v). by replace (len v + 1 >? 0) with true by lia. }
    assert (isnode w = false) as Hn by (by destruct w).
    rewrite tref_leaf, Ev in * by done. rewrite <- (app_nil_r (rlp (Str v))), SplitString_rlp by (rewrite app_nil_r; lia).
    rewrite bind_split. unfold mret, ST_ret. cbn [load]. do 2 f_equal. rewrite <- Hv.
    rewrite El at 2. by rewrite map_app.
Qed.

Lemma tenc_pos t : (0 < length (tenc t))%nat.
Proof. unfold tenc. pose proof (rlp_len (titem t)). unfold len in *. lia. Qed.

Lemma body_elem i l : i ∈ l -> len (rlp i) <= len (body l).
Proof.
  induction l as [|j l IH]; [by intros ?%elem_of_nil|]. rewrite body_cons, len_app.
  pose proof (len_nonneg (rlp j)). pose proof (len_nonneg (body l)).
  intros [->|?%IH]%elem_of_cons; lia.
Qed.

(** An embedded node is shorter than the node. *)
Lemma tenc_child u i l : ~ big u -> titem u = i -> tref u ∈ l -> (length (tenc u) < length (rlp (Lst l)))%nat.
Proof.
  intros Hb <- Hu. apply body_elem in Hu. rewrite tref_small in Hu by done. pose proof (len_body_Lst l).
  unfold tenc, len in *. lia.
Qed.

(** decodeNode reads the encoding of a tree, and ignores what follows. *)
Lemma decodeNodeF_ok t : forall fuel g, wf t -> (length (tenc t) <= fuel)%nat -> decodes (decodeNodeF fuel g) g t.
Proof.
  induction t as [|v|s u IH|l IH] using tree_ind; intros fuel g Hw Hfuel ho rest Hlen; try (by inversion Hw).
  - destruct fuel as [|fuel]; [pose proof (tenc_pos (TShort s u)); lia|]. cbn [decodeNodeF].
    pose proof (tenc_pos (TShort s u)). replace (len (tenc (TShort s u) ++ rest) =? 0) with false
      by (rewrite len_app; pose proof (len_nonneg rest); unfold len in *; lia).
    unfold tenc in *. rewrite titem_Short in *. rewrite SplitList_rlp by done. rewrite len_app in Hlen.
    pose proof (len_body_Lst [Str (compact s); tref u]). pose proof (len_nonneg rest).
    cbn [split]. unfold mbind, ST_bind, mret at 1, ST_ret at 1. rewrite CountValues_body by lia.
    cbn [must]. unfold mret at 1, ST_ret at 1. change (len [Str (compact s); tref u]) with 2. cbn [Z.eqb Pos.eqb].
    apply decodeShort_ok; [done| |lia]. intros Hn Hb. apply IH.
    + destruct (wf_short s u Hw) as (p & Hf & _ & _ & Hcase). destruct p; [done|]. by destruct Hf as (v & _ & ->).
    + pose proof (tenc_child u _ [Str (compact s); tref u] Hb eq_refl ltac:(set_solver)). unfold tenc in *. lia.
  - destruct fuel as [|fuel]; [pose proof (tenc_pos (TFull l)); lia|]. cbn [decodeNodeF].
    pose proof (tenc_pos (TFull l)). replace (len (tenc (TFull l) ++ rest) =? 0) with false
      by (rewrite len_app; pose proof (len_nonneg rest); unfold len in *; lia).
    unfold tenc in *. rewrite titem_Full in *. rewrite SplitList_rlp by done. rewrite len_app in Hlen.
    pose proof (len_body_Lst (map tref l)). pose proof (len_nonneg rest).
    cbn [split]. unfold mbind, ST_bind, mret at 1, ST_ret at 1. rewrite CountValues_body by lia.
    pose proof (proj1 (proj1 (wf_full_iff l) Hw)) as Hl.
    cbn [must]. unfold mret at 1, ST_ret at 1. replace (len (map tref l)) with 17 by (unfold len; by rewrite length_map, (co_length _ Hl)).
    cbn [Z.eqb Pos.eqb]. apply decodeFull_ok; [done| |lia]. intros u Hu Hn Hb.
    pose proof Hu as [n Hlook]%list_elem_of_lookup. pose proof (Forall_lookup_1 _ _ _ _ IH Hlook) as IHu. apply IHu.
    + pose proof (lookup_lt_Some _ _ _ Hlook). rewrite (co_length _ Hl) in *. destruct (byte_at n) as (b & <- & Hb'); [done|].
      destruct (co_slots _ Hl b u Hb' Hlook) as [->|Hf]; [done|]. destruct (slot b); [done|]. by destruct Hf as (v & _ & ->).
    + pose proof (tenc_child u _ (map tref l) Hb eq_refl ltac:(apply list_elem_of_fmap; by exists u)). unfold tenc in *. lia.
Qed.

Lemma mustDecode_ok t h g : wf t -> len (tenc t) < 2 ^ 64 -> mustDecodeNode h (tenc t) g tt = Ok (load g (Some h) t) tt.
Proof.
  intros Hw Hlen. unfold mustDecodeNode, decodeNode. pose proof (decodeNodeF_ok t (S (length (tenc t))) g Hw ltac:(lia) (Some h) []) as H.
  rewrite app_nil_r in H. by rewrite H.
Qed.

(** * Encoding of collapsed nodes *)

(** [coll c t]: the node [c], whose children are replaced by references, is
    written as the encoding of [t]; [cref c t]: [c] is the reference to [t]. *)
#[local] Unset Elimination Schemes.
Inductive coll : node -> tree -> Prop :=
| coll_short s c u f : cref c u -> coll (shortNode (compact s) c f) (TShort s u)
| coll_full cs l f : Forall2 cref cs l -> coll (fullNode cs f) (TFull l)
with cref : node -> tree -> Prop :=
| cref_nil : cref (valueNode []) TNil
| cref_val v : cref (valueNode v) (TVal v)
| cref_hash u : isnode u = true -> big u -> cref (hashNode (thash u)) u
| cref_small c u : ~ big u -> coll c u -> cref c u.
#[local] Set Elimination Schemes.

Fixpoint writeAll (l : list node) : RLP.W unit :=
  match l with [] => mret tt | c :: l => writeNode c;; writeAll l end.
Lemma writeNode_full l f : writeNode (fullNode l f) = (lh ← RLP.list_; writeAll l;; RLP.listEnd lh).
Proof. done. Qed.

Lemma writeNode_short s c f w :
  (lh ← RLP.list_; (RLP.encodeString s;; writeNode c);; RLP.listEnd lh) w = writeNode (shortNode s c f) w.
Proof.
  cbn [writeNode]. unfold mbind, ST_bind. cbn [RLP.list_]. by destruct (RLP.encodeString s _) as [? w'| | |].
Qed.
Lemma writes_ext m m' b : (forall w, m w = m' w) -> writes m b -> writes m' b.
Proof. intros E H w. rewrite <- E. apply H. Qed.

Lemma writeAll_ok cs l : Forall2 (fun c u => writes (writeNode c) (rlp (tref u))) cs l ->
  writes (writeAll cs) (body (map tref l)).
Proof.
  induction 1 as [|c u cs l Hc _ IH]; [apply writes_ret|]. cbn [writeAll map]. rewrite body_cons. by apply writes_bind.
Qed.

Lemma writeNode_coll t : forall c p, wfs p t -> small p t -> (coll c t -> writes (writeNode c) (tenc t)) /\
  (cref c t -> writes (writeNode c) (rlp (tref t))).
Proof.
  assert (forall t, (forall c p, filled p t -> small p t -> coll c t -> writes (writeNode c) (tenc t)) ->
    forall c p, wfs p t -> small p t -> (coll c t -> writes (writeNode c) (tenc t)) /\
      (cref c t -> writes (writeNode c) (rlp (tref t)))) as Hgen.
  { intros u Hu c p Hw Hs. assert (coll c u -> writes (writeNode c) (tenc u)) as Hc.
    { intros H. destruct Hw as [->|Hf]; [by inversion H|]. by eapply Hu. }
    split; [done|]. inversion 1 as [|v| |]; subst.
    - exact (writes_string [] ltac:(done)).
    - destruct Hw as [|Hf]; [done|]. destruct p; [by inversion Hf|]. destruct (Hs [] v eq_refl eq_refl).
      apply writes_string. lia.
    - rewrite tref_big by done. apply writes_string. unfold thash. rewrite len_Hash_Bytes. lia.
    - rewrite tref_small by done. by apply Hc. }
  induction t as [|v|s u IH|l IH] using tree_ind; apply Hgen; intros c p Hf Hs Hc; inversion Hc; subst;
    (destruct p; [|by destruct Hf as (? & _ & ?)]); pose proof (tenc_fits _ Hf Hs) as Hlen; unfold tenc in *.
  - destruct (wf_short s u Hf) as (p & Hfu & Hk & Hp & _). destruct (compact_ok s Hk) as (_ & _ & Hck).
    pose proof (small_key _ _ _ Hs Hp Hfu). rewrite titem_Short in *.
    apply (writes_ext (lh ← RLP.list_; (RLP.encodeString (compact s);; writeNode c0);; RLP.listEnd lh));
      [apply writeNode_short|]. apply writes_Lst; [|lia].
    rewrite !body_cons. change (body []) with (@nil byte). rewrite app_nil_r.
    apply writes_bind; [apply writes_string; lia|]. eapply (IH c0 p); [by right|by eapply small_below|done].
  - rewrite titem_Full in *. rewrite writeNode_full. apply writes_Lst; [|lia]. apply writeAll_ok.
    pose proof (proj1 (proj1 (wf_full_iff l) Hf)) as Hl. apply Forall2_same_length_lookup.
    match goal with H : Forall2 cref _ _ |- _ => rename H into Hcs end. split; [by eapply Forall2_length|].
    intros n c u Hn Hu. pose proof (lookup_lt_Some _ _ _ Hu). rewrite (co_length _ Hl) in *.
    destruct (byte_at n) as (b & <- & Hb); [done|]. pose proof (Forall_lookup_1 _ _ _ _ IH Hu) as IHu.
    eapply (IHu c (slot b)); [by apply Hl|by eapply small_child|]. by eapply Forall2_lookup_lr.
Qed.

Lemma encode_coll c t : wf t -> small PNode t -> coll c t -> encodeNode c = Some (tenc t).
Proof.
  intros Hw Hs Hc. destruct (proj1 (writeNode_coll t c PNode ltac:(by right) Hs) Hc RLP.emptyBuf) as (s & hs & k & E & L & [_ R]).
  unfold encodeNode. rewrite E. f_equal. unfold RLP.toWriter. cbn [RLP.emptyBuf RLP.str RLP.lheads RLP.lhsize app] in *.
  specialize (R [] [] []). rewrite !app_nil_r in R. cbn [app RLP.pieces] in R. change (len []) with 0 in R. rewrite R by done.
  rewrite Z.add_0_l, drop_ge, app_nil_r by (unfold len; lia). done.
Qed.
End Codec.
