(* ===== verification/TrieRefine.v ===== *)
(** The nodes of trie/trie.go represent trees.

    [repr d r n t]: with database [d], the node [n] stands for the tree [t];
    [r] says whether it is the root.  A hash node stands for a tree whose nodes
    are in the database; a cached hash is the hash of the tree; a node that is
    not dirty is in the database.  The operations of the trie compute those of
    TrieTree on the trees. *)

From S2P Require Import Prelude BigMath Rlp RlpSpec RlpRaw Trie TrieTree TrieCodec.
Import Big Common MPT.

Inductive sub : tree -> tree -> Prop :=
| sub_refl t : sub t t
| sub_short u s t : sub u t -> sub u (TShort s t)
| sub_full u t l : t ∈ l -> sub u t -> sub u (TFull l).

Lemma sub_trans u t w : sub w u -> sub u t -> sub w t.
Proof.
  intros Hw Hu. induction Hu as [|u s t Hu IH|u t l Ht Hu IH]; [done|..].
  - constructor. by apply IH.
  - econstructor; [done|]. by apply IH.
Qed.

Lemma Forall2_impl_lookup {A B} (P Q : A -> B -> Prop) l k :
  Forall2 P l k -> (forall i x y, l !! i = Some x -> k !! i = Some y -> P x y -> Q x y) -> Forall2 Q l k.
Proof.
  rewrite !Forall2_same_length_lookup. intros [Hl HP] H. split; [done|]. intros i x y Hx Hy. eapply H; eauto.
Qed.

Section Refine.
Context (Keccak256 : list byte -> Hash).
Abbreviation tenc := (tenc Keccak256).
Abbreviation thash := (thash Keccak256).
Abbreviation big := (big Keccak256).
Abbreviation load := (load Keccak256).
Abbreviation coll := (coll Keccak256).
Abbreviation cref := (cref Keccak256).

(** The nodes of a tree that are referred to by hash are in the database. *)
Definition stored (d : store_t) (t : tree) : Prop :=
  forall u, sub u t -> isnode u = true -> big u -> d !! thash u = Some (tenc u).
(** The root is there in any case. *)
Definition kept (d : store_t) (r : bool) (t : tree) : Prop :=
  stored d t /\ (r = true -> d !! thash t = Some (tenc t)).

Definition flag_ok (d : store_t) (r : bool) (f : nodeFlag) (t : tree) : Prop :=
  (forall h, flag_hash f = Some h -> h = thash t /\ (r = true \/ big t)) /\ (dirty f = false -> kept d r t).

#[local] Unset Elimination Schemes.
Inductive repr (d : store_t) : bool -> node -> tree -> Prop :=
| repr_nil r : repr d r nilNode TNil
| repr_val r v : repr d r (valueNode v) (TVal v)
| repr_short r s n t f : repr d false n t -> flag_ok d r f (TShort s t) -> repr d r (shortNode s n f) (TShort s t)
| repr_full r ns ts f : Forall2 (repr d false) ns ts -> flag_ok d r f (TFull ts) -> repr d r (fullNode ns f) (TFull ts)
| repr_hash r t : isnode t = true -> (r = true \/ big t) -> kept d r t -> repr d r (hashNode (thash t)) t.
#[local] Set Elimination Schemes.

Lemma stored_sub d t u : stored d t -> sub u t -> stored d u.
Proof. intros Hs Hu w Hw. apply Hs. by eapply sub_trans. Qed.

Lemma stored_leaf d t : isnode t = false -> stored d t.
Proof. intros Ht u Hu Hn. destruct t; try done; inversion Hu; by subst. Qed.

Lemma kept_lookup d r t : kept d r t -> isnode t = true -> (r = true \/ big t) -> d !! thash t = Some (tenc t).
Proof. intros [Hs Hr] Hn [|Hb]; [by apply Hr|]. apply Hs; [constructor|done..]. Qed.

Lemma stored_mono d d' t : d ⊆ d' -> stored d t -> stored d' t.
Proof. intros Hd Hs u Hu Hn Hb. eapply lookup_weaken; [by apply Hs|done]. Qed.
Lemma kept_mono d d' r t : d ⊆ d' -> kept d r t -> kept d' r t.
Proof. intros Hd [Hs Hr]. split; [by eapply stored_mono|]. intros H. eapply lookup_weaken; [by apply Hr|done]. Qed.

Lemma flag_mono d d' r f t : d ⊆ d' -> flag_ok d r f t -> flag_ok d' r f t.
Proof. intros Hd [H1 H2]. split; [done|]. intros H. eapply kept_mono; [done|by apply H2]. Qed.

Lemma repr_mono d d' r n t : d ⊆ d' -> repr d r n t -> repr d' r n t.
Proof.
  intros Hd. revert r n. induction t as [|v|s t IH|l IH] using tree_ind; intros r n H; inversion H; subst;
    try (by constructor; [..|by eapply kept_mono]); try by constructor.
  - constructor; [by apply IH|by eapply flag_mono].
  - constructor; [|by eapply flag_mono]. eapply Forall2_impl_lookup; [done|]. intros i n t Hn Ht Hr.
    by apply (Forall_lookup_1 _ _ _ _ IH Ht).
Qed.

(** A new node. *)
Lemma new_flag_ok d r t g : flag_ok d r (mkFlag None g true) t.
Proof. by split. Qed.
Lemma gen_flag_ok d r f g t : flag_ok d r f t -> flag_ok d r (mkFlag (flag_hash f) g (dirty f)) t.
Proof. done. Qed.

Lemma repr_cache d r n t h dr : repr d r n t -> cache n = Some (Some h, dr) -> h = thash t.
Proof. intros Hr E. inversion Hr as [| |? ? ? ? ? ? [Hf _]|? ? ? ? ? [Hf _]|]; subst; try done; cbn in E; injection E as E _; by apply Hf. Qed.

Lemma repr_is_nil d r n t : repr d r n t -> is_nil n = isnil t.
Proof. inversion 1; subst; try done. by destruct t. Qed.

(** A node that is loaded represents the tree. *)
Lemma loaded_repr d g t : (isnode t = true -> ~ big t -> repr d false (load g None t) t) -> stored d t ->
  repr d false (loaded Keccak256 g t) t.
Proof.
  intros Hl Hs. unfold loaded, loadref. destruct (isnode t) eqn:Hn; [|destruct t; try done; constructor].
  cbn [andb]. case_bool_decide as Hb; [|by apply Hl]. constructor; [done|by right|by split].
Qed.

Lemma load_repr d g t : forall ho r, stored d t -> isnode t = true ->
  (forall h, ho = Some h -> h = thash t /\ (r = true \/ big t)) -> (r = true -> d !! thash t = Some (tenc t)) ->
  repr d r (load g ho t) t.
Proof.
  induction t as [|v|s t IH|l IH] using tree_ind; intros ho r Hs Hn Hho Hr; try done; cbn [TrieCodec.load];
    (constructor; [|split; [done|by split]]).
  - assert (stored d t) as Hst by (eapply stored_sub; [exact Hs|by repeat constructor]).
    apply loaded_repr; [|done]. intros Ht Hb. by apply IH.
  - apply Forall2_fmap_l, Forall2_same_length_lookup. split; [done|]. intros i t t' Ht Ht'.
    assert (t = t') as <- by congruence.
    assert (stored d t) as Hst.
    { eapply stored_sub; [exact Hs|]. econstructor; [by eapply list_elem_of_lookup_2|constructor]. }
    apply (loaded_repr d g t); [|done]. intros Hn' Hb. by apply (Forall_lookup_1 _ _ _ _ IH Ht).
Qed.

(** * Operations *)

Section Ops.
Context (tr : Trie).
Abbreviation d := (tdb tr).

Definition is_hash (n : node) : bool := match n with hashNode _ => true | _ => false end.
(** Fuel for a key at a node. *)
Definition need (n : node) (key : list byte) : nat := (2 * length key + if is_hash n then 2 else 1)%nat.

Lemma resolveHash_ok r h t prefix : repr d r (hashNode h) t -> wf t -> small PNode t ->
  exists n, resolveHash tr h prefix tt = Ok n tt /\ repr d r n t /\ is_hash n = false.
Proof.
  intros Hr Hw Hs. inversion Hr as [| | | |? ? Hn Hb Hk]; subst. exists (load (cachegen tr) (Some (thash t)) t).
  unfold resolveHash. rewrite (kept_lookup _ _ _ Hk Hn Hb). 
  pose proof (tenc_fits Keccak256 t Hw Hs). rewrite mustDecode_ok by (done || lia).
  split_and!; [done| |by destruct t]. destruct Hk as [Hst Hrt]. apply load_repr; [done..| |done]. by intros ? [= <-].
Qed.

Lemma repr_full_inv r l f ts : repr d r (fullNode l f) (TFull ts) -> Forall2 (repr d false) l ts /\ flag_ok d r f (TFull ts).
Proof. by inversion 1. Qed.

Lemma child_repr r l f ts b : repr d r (fullNode l f) (TFull ts) -> children_ok ts -> byte_Z b <= 16 ->
  exists c u, child l b = Some c /\ ts !! idx b = Some u /\ repr d false c u /\ wfs (slot b) u.
Proof.
  intros [Hf _]%repr_full_inv Hts Hb.
  pose proof (co_length _ Hts). destruct (lookup_lt_is_Some_2 ts (idx b)) as [u Hu]; [apply idx_lt in Hb; lia|].
  destruct (Forall2_lookup_r _ _ _ _ _ Hf Hu) as (c & Hc & Hcu). exists c, u. split_and!; try done. by apply Hts.
Qed.

Lemma set_child_ok l b n : length l = 17%nat -> byte_Z b <= 16 -> set_child l b n = Some (<[idx b := n]> l).
Proof. intros Hl Hb. unfold set_child. rewrite bool_decide_eq_true_2; [done|]. rewrite Hl. by apply idx_lt. Qed.

Lemma repr_length r l f ts : repr d r (fullNode l f) (TFull ts) -> length l = length ts.
Proof. inversion 1; subst. by eapply Forall2_length. Qed.

Lemma set_child_repr r r' l f f' ts b n u : repr d r (fullNode l f) (TFull ts) -> repr d false n u ->
  flag_ok d r' f' (TFull (<[idx b := u]> ts)) -> repr d r' (fullNode (<[idx b := n]> l) f') (TFull (<[idx b := u]> ts)).
Proof. intros Hr Hn Hf. inversion Hr; subst. constructor; [|done]. by apply Forall2_insert. Qed.

Lemma short_rest s u p k : wf (TShort s u) -> filled p u -> hexkey (s ++ k) -> keys p k.
Proof.
  intros Hw Hf Hk. destruct (wf_short s u Hw) as (p' & Hf' & _ & _ & Hcase). destruct p, p'; cbn [keys].
  - destruct Hcase as [Hn _]. destruct k as [|b k]; [rewrite app_nil_r in Hk; by apply nibbles_no_key in Hk|].
    by apply hexkey_app in Hk as [_ ?].
  - destruct Hcase as [_ (v & ->)]. inversion Hf.
  - destruct Hf as (v & _ & ->). inversion Hf'.
  - destruct Hcase as [Hs _]. by eapply hexkey_prefix.
Qed.

Lemma wf_key_nonempty s u : wf (TShort s u) -> s <> [].
Proof. inversion 1; subst; [|done]. by apply hexkey_nonempty. Qed.

(** Reading: the value, and a node that still represents the tree. *)
Lemma tryGet_ok fuel : forall n t r p pre key, repr d r n t -> wfs p t -> keys p key -> small p t ->
  (need n key <= fuel)%nat ->
  exists n' res, tryGet tr fuel n (pre ++ key) (len pre) tt = Ok (default [] (tget t key), n', res) tt /\ repr d r n' t.
Proof.
  induction fuel as [|fuel IH]; intros n t r p pre key Hr Hw Hk Hs Hfuel; [unfold need in Hfuel; destruct (is_hash n); lia|].
  inversion Hr as [|? v|? s c u f Hc Hf|? ns ts f Hns Hf|? ? Hn Hb Hkept]; subst; cbn [tryGet].
  - by exists nilNode, false.
  - by exists (valueNode v), false.
  - destruct Hw as [|Hw]; [done|]. destruct p; [|by destruct Hw as (? & _ & ?)].
    destruct (wf_short s u Hw) as (p & Hfu & _ & Hp & _). cbn [tget].
    rewrite len_app. destruct (strip s key) as [rest|] eqn:E.
    + apply strip_Some in E as ->. rewrite len_app. pose proof (len_nonneg rest).
      replace (len pre + (len s + len rest) - len pre <? len s) with false by lia.
      rewrite (bind_must _ s) by (by apply slice_app). rewrite bool_decide_eq_true_2 by done. cbn [negb].
      destruct (IH c u false p (pre ++ s) rest Hc) as (n' & res & E & Hn'); [by right|by eapply short_rest|by eapply small_below| |].
      { apply wf_key_nonempty in Hw. unfold need in *. rewrite length_app in Hfuel. destruct s; [done|]. cbn [length] in Hfuel.
        cbn [is_hash] in Hfuel. destruct (is_hash c); lia. }
      rewrite <- app_assoc, len_app in E. rewrite (bind_Ok _ _ _ _ _ E).
      eexists _, res. split; [done|]. destruct res; [|done]. by constructor.
    + eexists _, false. split; [|done].
      destruct (Z.ltb_spec (len pre + len key - len pre) (len s)) as [|Hge]; [done|].
      rewrite (bind_must _ (take (length s) key)).
      * rewrite bool_decide_eq_false_2; [done|]. intros Es. apply (proj1 (strip_None s key) E (drop (length s) key)).
        rewrite Es at 1. by rewrite take_drop.
      * rewrite <- (take_drop (length s) key) at 1. apply slice_app; [done|]. unfold len in *. rewrite length_take. lia.
  - destruct Hw as [|Hw]; [done|]. destruct p; [|by destruct Hw as (? & _ & ?)].
    pose proof (proj1 (proj1 (wf_full_iff ts) Hw)) as Hts. destruct key as [|b key]; [done|].
    pose proof Hk as [Hb Hkey]%hexkey_cons. destruct (child_repr r ns f ts b Hr Hts Hb) as (c & u & Hcn & Hu & Hcu & Hwu).
    rewrite (bind_must _ b). 2:{ unfold index, len. rewrite (proj2 (Z.leb_le _ _)) by lia. rewrite Nat2Z.id. by apply list_lookup_middle. }
    rewrite (bind_must _ c _ _ Hcn).
    destruct (IH c u false (slot b) (pre ++ [b]) key Hcu Hwu Hkey) as (n' & res & E & Hn'); [by eapply small_child| |].
    { unfold need in *. cbn [length is_hash] in Hfuel. destruct (is_hash c); lia. }
    rewrite <- app_assoc, len_app in E. change (len [b]) with 1 in E. cbn [app] in E. rewrite (bind_Ok _ _ _ _ _ E).
    rewrite tget_Full, Hu. destruct res; [|by eexists _, false].
    pose proof (repr_length _ _ _ _ Hr) as Hl. rewrite (co_length _ Hts) in Hl.
    rewrite (bind_must _ _ _ _ (set_child_ok ns b n' Hl Hb)). eexists _, true. split; [done|].
    replace ts with (<[idx b := u]> ts) by (by apply list_insert_id). eapply set_child_repr; [done..|].
    by rewrite list_insert_id.
  - assert (p = PNode /\ wf t) as [-> Hwf].
    { destruct Hw as [->|Hw]; [done|]. destruct p; [done|]. by destruct Hw as (v & _ & ->). }
    rewrite (bind_must _ pre). 2:{ apply (slice_app [] pre key); [done|by rewrite len_nil]. }
    destruct (resolveHash_ok r _ t pre Hr Hwf Hs) as (n & E & Hn' & Hh). rewrite (bind_Ok _ _ _ _ _ E).
    destruct (IH n t r PNode pre key Hn' Hw Hk Hs) as (n' & res & E' & Hrepr); [unfold need in *; rewrite Hh; cbn [is_hash] in *; lia|].
    rewrite (bind_Ok _ _ _ _ _ E'). by eexists _, true.
Qed.

Lemma new_ok r t : flag_ok d r (newFlag tr) t.
Proof. by split. Qed.
#[local] Hint Resolve new_ok : core.

(** Insertion where there is nothing. *)
Lemma insert_nil fuel prefix key n t : repr d false n t -> t <> TNil ->
  exists n', insert tr (S fuel) nilNode prefix key n tt = Ok (true, n') tt /\ repr d false n' (tput key t).
Proof.
  intros Hn Ht. destruct key as [|b key]; cbn [insert].
  - exists n. split; [|done]. by destruct n.
  - eexists. split; [done|]. by constructor.
Qed.

Lemma replicate_repr m : Forall2 (repr d false) (replicate m nilNode) (replicate m TNil).
Proof. induction m; constructor; [constructor|done]. Qed.

Lemma insert_short fuel nk n f prefix key v : key <> [] ->
  insert tr (S fuel) (shortNode nk n f) prefix key v =
    (let matchlen := prefixLen key nk in
     if bool_decide (matchlen = length nk) then
       '(dd, nn) ← insert tr fuel n (prefix ++ take matchlen key) (drop matchlen key) v;
       mret (if negb dd then (false, shortNode nk n f) else (true, shortNode nk nn (newFlag tr)))
     else
       b1 ← must (nk !! matchlen);
       '(_, c1) ← insert tr fuel nilNode (prefix ++ take (matchlen + 1) nk) (drop (matchlen + 1) nk) n;
       children ← must (set_child (replicate 17 nilNode) b1 c1);
       b2 ← must (key !! matchlen);
       '(_, c2) ← insert tr fuel nilNode (prefix ++ take (matchlen + 1) key) (drop (matchlen + 1) key) v;
       children ← must (set_child children b2 c2);
       mret (true, if bool_decide (matchlen = 0%nat) then fullNode children (newFlag tr)
                   else shortNode (take matchlen key) (fullNode children (newFlag tr)) (newFlag tr))).
Proof. by destruct key. Qed.

Lemma prefixLen_ne c a b r1 r2 : a <> b -> prefixLen (c ++ a :: r1) (c ++ b :: r2) = length c.
Proof.
  intros Hne. induction c as [|x c IH]; cbn [app prefixLen length].
  - by rewrite bool_decide_eq_false_2.
  - by rewrite bool_decide_eq_true_2, IH.
Qed.

(** A short node that branches. *)
Lemma branch_ok fuel r c b1 r1 n t b2 r2 v prefix f : b1 <> b2 -> wf (TShort (c ++ b1 :: r1) t) -> hexkey (c ++ b2 :: r2) ->
  repr d false n t ->
  exists n', insert tr (S (S fuel)) (shortNode (c ++ b1 :: r1) n f) prefix (c ++ b2 :: r2) (valueNode v) tt = Ok (true, n') tt /\
    repr d r n' (tbranch (length c) (c ++ b1 :: r1) t (c ++ b2 :: r2) (TVal v)).
Proof.
  intros Hne Hw Hk Hn. destruct (put_rest _ _ _ _ Hw) as (_ & Hb1 & _).
  assert (byte_Z b2 <= 16) as Hb2 by (apply hexkey_app in Hk as [_ Hk]; by apply hexkey_cons in Hk as [? _]).
  assert (t <> TNil) as Ht by (by inversion Hw).
  rewrite insert_short by (by destruct c). cbv zeta. rewrite prefixLen_ne by congruence. unfold tbranch.
  rewrite bool_decide_eq_false_2 by (rewrite length_app; cbn; lia).
  rewrite !list_lookup_middle by done. rewrite !(drop_app_add' _ _ (length c) 1) by done. cbn [drop].
  rewrite (bind_must _ b1) by done.
  destruct (insert_nil fuel (prefix ++ take (length c + 1) (c ++ b1 :: r1)) r1 n t Hn Ht) as (c1 & E1 & Hc1).
  rewrite (bind_Ok _ _ _ _ _ E1), (bind_must _ _ _ _ (set_child_ok (replicate 17 nilNode) b1 c1 eq_refl Hb1)), (bind_must _ b2) by done.
  destruct (insert_nil fuel (prefix ++ take (length c + 1) (c ++ b2 :: r2)) r2 (valueNode v) (TVal v)) as (c2 & E2 & Hc2);
    [constructor|done|].
  rewrite (bind_Ok _ _ _ _ _ E2), (bind_must _ (<[idx b2 := c2]> (<[idx b1 := c1]> (replicate 17 nilNode))))
    by (apply set_child_ok; [by rewrite length_insert|done]).
  eexists. split; [done|]. rewrite take_app_length.
  assert (forall r', repr d r' (fullNode (<[idx b2 := c2]> (<[idx b1 := c1]> (replicate 17 nilNode))) (newFlag tr))
    (TFull (<[idx b2 := tput r2 (TVal v)]> (<[idx b1 := tput r1 t]> (replicate 17 TNil))))) as Hb.
  { intros r'. constructor; [|done]. apply Forall2_insert; [|done]. apply Forall2_insert; [apply replicate_repr|done]. }
  case_bool_decide; [done|]. by constructor.
Qed.

(** Insertion at a short node: below it, and with a branch where the keys part. *)
Lemma tinsert_below c0 u a v : c0 <> [] -> prefixLen (c0 ++ a) c0 = length c0 ->
  tinsert (TShort c0 u) (c0 ++ a) (TVal v) = TShort c0 (tinsert u a (TVal v)).
Proof.
  intros Hne Hm. destruct c0 as [|x c0]; [done|]. cbn [app tinsert]. change (x :: c0 ++ a) with ((x :: c0) ++ a). rewrite Hm.
  by rewrite bool_decide_eq_true_2, drop_app_length.
Qed.
Lemma tinsert_branch c0 y0 y u x a v : prefixLen (c0 ++ x :: a) (c0 ++ y0 :: y) = length c0 ->
  tinsert (TShort (c0 ++ y0 :: y) u) (c0 ++ x :: a) (TVal v) = tbranch (length c0) (c0 ++ y0 :: y) u (c0 ++ x :: a) (TVal v).
Proof.
  intros Hm. destruct (c0 ++ x :: a) as [|k0 kr] eqn:Ek; [by destruct c0|]. cbn [tinsert]. rewrite Hm.
  rewrite bool_decide_eq_false_2; [done|]. rewrite length_app. cbn. lia.
Qed.
Lemma short_no_prefix c0 y0 y u : wf (TShort (c0 ++ y0 :: y) u) -> ~ hexkey c0.
Proof.
  intros Hw Hk. inversion Hw as [? w Hc0 Hw0|? l Hc0 Hn0 Hl0|]; subst.
  - by apply hexkey_prefix in Hc0.
  - apply Forall_app in Hn0 as [Hn0 _]. by apply nibbles_no_key in Hk.
Qed.

Lemma insert_ok v : v <> [] -> forall fuel n t r p prefix key, repr d r n t -> wfs p t -> keys p key -> small p t ->
  (need n key <= fuel)%nat ->
  exists dd n', insert tr fuel n prefix key (valueNode v) tt = Ok (dd, n') tt /\
    repr d r n' (tinsert t key (TVal v)) /\ (dd = false -> tinsert t key (TVal v) = t).
Proof.
  intros Hv fuel. induction fuel as [|fuel IH]; intros n t r p prefix key Hr Hw Hk Hs Hfuel;
    [unfold need in Hfuel; destruct (is_hash n); lia|].
  destruct p; cbn [keys] in Hk.
  2:{ subst key. cbn [insert tinsert]. destruct Hw as [->|(w & _ & ->)]; inversion Hr; subst; try done.
      - eexists _, _. split_and!; [done|constructor|done].
      - eexists _, _. split_and!; [done|constructor|]. intros H%negb_false_iff%bool_decide_eq_true. by subst. }
  inversion Hr as [|? w|? s c u f Hc Hf|? ns ts f Hns Hf|? ? Hn Hb Hkept]; subst.
  - destruct key as [|b key]; [done|]. eexists _, _. split_and!; [done|by constructor; [constructor|]|done].
  - destruct Hw as [|Hw]; [done|]. inversion Hw.
  - destruct Hw as [|Hw]; [done|]. destruct (prefixLen_spec key s) as (c0 & a & y & -> & -> & Hm & Hne).
    destruct y as [|y0 y].
    + rewrite app_nil_r in *. destruct (wf_short c0 u Hw) as (p & Hfu & _ & Hp & _).
      pose proof (wf_key_nonempty _ _ Hw) as Hne0. rewrite insert_short by (by destruct c0). cbv zeta. rewrite Hm.
      rewrite bool_decide_eq_true_2, drop_app_length by done.
      destruct (IH c u false p (prefix ++ take (length c0) (c0 ++ a)) a Hc) as (dd & n' & E & Hn' & Hsame);
        [by right|by eapply short_rest|by eapply small_below| |].
      { unfold need in *. rewrite length_app in Hfuel. destruct c0; [done|]. cbn [length is_hash] in Hfuel. destruct (is_hash c); lia. }
      rewrite (bind_Ok _ _ _ _ _ E).
      rewrite tinsert_below by done.
      destruct dd; eexists _, _; (split_and!; [done| |]); try done; try (by constructor); cbn [negb].
      * by rewrite Hsame.
      * intros _. by rewrite Hsame.
    + destruct a as [|x a].
      { rewrite app_nil_r in Hk. by destruct (short_no_prefix c0 y0 y u Hw). }
      assert (exists fuel', fuel = S fuel') as [fuel' ->].
      { unfold need in Hfuel. rewrite length_app in Hfuel. cbn [length is_hash] in Hfuel. destruct fuel; [lia|by eexists]. }
      destruct (branch_ok fuel' r c0 y0 y c u x a v prefix f) as (n' & E & Hn'); [congruence|done..|].
      rewrite E. eexists _, n'. split_and!; [done| |done]. by rewrite tinsert_branch.
  - destruct Hw as [|Hw]; [done|]. pose proof (proj1 (proj1 (wf_full_iff ts) Hw)) as Hts. destruct key as [|b key]; [done|].
    pose proof Hk as [Hb Hkey]%hexkey_cons. destruct (child_repr r ns f ts b Hr Hts Hb) as (c & u & Hcn & Hu & Hcu & Hwu).
    cbn [insert]. rewrite (bind_must _ c _ _ Hcn).
    destruct (IH c u false (slot b) (prefix ++ [b]) key Hcu Hwu Hkey) as (dd & n' & E & Hn' & Hsame); [by eapply small_child| |].
    { unfold need in *. cbn [length is_hash] in Hfuel. destruct (is_hash c); lia. }
    rewrite (bind_Ok _ _ _ _ _ E). cbn [tinsert]. rewrite (alter_at _ _ _ _ Hu).
    pose proof (repr_length _ _ _ _ Hr) as Hl. rewrite (co_length _ Hts) in Hl. destruct dd; cbn [negb].
    + rewrite (bind_must _ _ _ _ (set_child_ok ns b n' Hl Hb)). eexists _, _. split_and!; [done| |done].
      eapply set_child_repr; [done..|apply new_ok].
    + eexists _, _. rewrite Hsame, list_insert_id by done. done.
  - assert (wf t) as Hwf by (by destruct Hw as [->|]). destruct key as [|b key]; [done|]. cbn [insert].
    destruct (resolveHash_ok r _ t prefix Hr Hwf Hs) as (n & E & Hn' & Hh). rewrite (bind_Ok _ _ _ _ _ E).
    destruct (IH n t r PNode prefix (b :: key) Hn' Hw Hk Hs) as (dd & n' & E' & Hrepr & Hsame);
      [unfold need in *; rewrite Hh; cbn [is_hash] in *; lia|].
    rewrite (bind_Ok _ _ _ _ _ E'). destruct dd; eexists _, _; (split_and!; [done| |]); try done. by rewrite Hsame.
Qed.

Lemma onlyChild_tonly ns ts : Forall2 (repr d false) ns ts -> forall i p, onlyChild i p ns = tonly i p ts.
Proof.
  induction 1 as [|n t ns ts Hn _ IH]; intros i p; [done|]. cbn [onlyChild tonly].
  rewrite (repr_is_nil _ _ _ _ Hn), !IH. done.
Qed.

(** A full node with one child left. *)
Lemma reduce_ok r ns ts prefix : Forall2 (repr d false) ns ts -> children_ok ts -> small PNode (TFull ts) ->
  exists n, reduce tr ns prefix tt = Ok n tt /\ repr d r n (treduce ts) /\ is_hash n = false.
Proof.
  intros Hns Hts Hs. unfold reduce, treduce. rewrite (onlyChild_tonly _ _ Hns).
  destruct (tonly_spec ts 0) as [[-> _]|[(i & u & -> & Ho)|[-> _]]]; [lia|..].
  1,3: eexists; (split_and!; [done| |done]); by constructor.
  destruct Ho as (Hu & Hne & _). rewrite Z.add_0_l, Nat2Z.id, (proj2 (Z.geb_le _ _) (Nat2Z.is_nonneg i)), Hu.
  destruct (Forall2_lookup_r _ _ _ _ _ Hns Hu) as (c & Hc & Hcu).
  pose proof (lookup_lt_Some _ _ _ Hu) as Hlt. rewrite (co_length _ Hts) in Hlt. destruct (byte_at i Hlt) as (b & <- & Hb).
  replace (Z.of_nat (idx b)) with (byte_Z b) by (pose proof (byte_Z_range b); lia).
  rewrite (bind_must _ c). 2:{ unfold index. pose proof (byte_Z_range b). by rewrite (proj2 (Z.leb_le _ _)) by lia. }
  destruct (co_slots _ Hts b u Hb Hu) as [|Hf]; [done|].
  destruct (Z.eqb_spec (byte_Z b) 16) as [H16|H16]; cbn [negb].
  - apply term_val in H16. subst b. destruct Hf as (v & Hv & ->). inversion Hcu; subst; [|done].
    eexists. split_and!; [done| |done]. constructor; [constructor|apply new_ok].
  - assert (slot b = PNode) as Eb by (apply slot_nibble; unfold nibble; lia). pose proof (small_child _ _ _ Hs Hb Hu) as Hsu.
    rewrite Eb in *. assert (exists c', resolve tr c prefix tt = Ok c' tt /\ repr d false c' u /\ is_hash c' = false) as (c' & E & Hc' & Hh).
    { destruct c; try (eexists; split_and!; [done|exact Hcu|done]). by apply resolveHash_ok. }
    rewrite (bind_Ok _ _ _ _ _ E). inversion Hc' as [|? w|? s c2 u2 f Hc2 Hf2|? ns2 ts2 f Hns2 Hf2|]; subst; try done; try (by inversion Hf).
    + eexists. split_and!; [done| |done]. by constructor.
    + eexists. split_and!; [done| |done]. by constructor.
Qed.

Definition deleted (o : option tree) : bool := match o with Some _ => true | None => false end.

Lemma small_changed p t u k : small p t -> changed p t k None u -> small p u.
Proof. intros Hs Hc k' v Hk'. rewrite Hc by done. case_bool_decide; [done|]. by apply Hs. Qed.

Lemma delete_ok fuel : forall n t r p prefix key, repr d r n t -> wfs p t -> keys p key -> small p t ->
  (need n key <= fuel)%nat ->
  exists n', delete tr fuel n prefix key tt = Ok (deleted (tdelete t key), n') tt /\
    repr d r n' (default t (tdelete t key)) /\ (deleted (tdelete t key) = true -> is_hash n' = false).
Proof.
  induction fuel as [|fuel IH]; intros n t r p prefix key Hr Hw Hk Hs Hfuel;
    [unfold need in Hfuel; destruct (is_hash n); lia|].
  inversion Hr as [|? w|? s c u f Hc Hf|? ns ts f Hns Hf|? ? Hn Hb Hkept]; subst.
  - eexists. split_and!; [done|constructor|done].
  - eexists. split_and!; [done|constructor|done].
  - destruct Hw as [|Hw]; [done|]. destruct p; [|by destruct Hw as (? & _ & ?)]. cbn [delete tdelete].
    destruct (prefixLen_spec key s) as (c0 & a & y & -> & -> & Hm & Hne). rewrite Hm.
    case_bool_decide as Hlt; [by eexists|]. case_bool_decide as Hall; [eexists; split_and!; [done|constructor|done]|].
    assert (y = []) as -> by (destruct y; [done|]; rewrite length_app in Hlt; cbn in Hlt; lia).
    rewrite app_nil_r in *. rewrite drop_app_length. destruct (wf_short c0 u Hw) as (p & Hfu & _ & Hp & _).
    pose proof (wf_key_nonempty _ _ Hw) as Hne0.
    destruct (IH c u false p (prefix ++ take (length c0) (c0 ++ a)) a Hc) as (n' & E & Hn' & Hnh);
      [by right|by eapply short_rest|by eapply small_below| |].
    { unfold need in *. rewrite length_app in Hfuel. destruct c0; [done|]. cbn [length is_hash] in Hfuel. destruct (is_hash c); lia. }
    rewrite (bind_Ok _ _ _ _ _ E). destruct (tdelete u a) as [u'|] eqn:Ed; cbn [negb default deleted] in *; [|by eexists].
    pose proof (tdelete_ok u p a ltac:(by right) ltac:(by eapply short_rest)) as Hd. rewrite Ed in Hd.
    destruct Hd as (Hwu & _ & Hnil). specialize (Hnh eq_refl).
    replace (match u' with TShort ck v => _ | _ => _ end) with (Some (tprepend c0 u')) by (by destruct u').
    eexists. split_and!; [done| |by destruct n']. cbn [default]. unfold id in *.
    inversion Hn' as [|? w|? s' c' u2 f' Hc' Hf'|? ns2 ts2 f' Hns2 Hf'|]; subst; try done; by constructor.
  - destruct Hw as [|Hw]; [done|]. destruct p; [|by destruct Hw as (? & _ & ?)].
    pose proof (proj1 (proj1 (wf_full_iff ts) Hw)) as Hts. destruct key as [|b key]; [done|].
    pose proof Hk as [Hb Hkey]%hexkey_cons. destruct (child_repr r ns f ts b Hr Hts Hb) as (c & u & Hcn & Hu & Hcu & Hwu).
    cbn [delete head tail]. rewrite (bind_must _ b _ _ eq_refl), (bind_must _ c _ _ Hcn), tdelete_Full, Hu.
    destruct (IH c u false (slot b) (prefix ++ [b]) key Hcu Hwu Hkey) as (n' & E & Hn' & Hnh); [by eapply small_child| |].
    { unfold need in *. cbn [length is_hash] in Hfuel. destruct (is_hash c); lia. }
    rewrite (bind_Ok _ _ _ _ _ E). destruct (tdelete u key) as [u'|] eqn:Ed; cbn [negb default mbind option_bind deleted] in *; [|by eexists].
    pose proof (tdelete_ok u (slot b) key Hwu Hkey) as Hd. rewrite Ed in Hd. destruct Hd as (Hwu' & Hch & _).
    pose proof (repr_length _ _ _ _ Hr) as Hl. rewrite (co_length _ Hts) in Hl.
    rewrite (bind_must _ _ _ _ (set_child_ok ns b n' Hl Hb)).
    destruct (reduce_ok r (<[idx b := n']> ns) (<[idx b := u']> ts) prefix) as (n2 & E2 & Hn2 & Hh2).
    + by apply Forall2_insert.
    + by apply children_set.
    + eapply small_changed; [exact Hs|]. by eapply full_set.
    + rewrite (bind_Ok _ _ _ _ _ E2). by eexists.
  - assert (p = PNode /\ wf t) as [-> Hwf].
    { destruct Hw as [->|Hw]; [done|]. destruct p; [done|]. by destruct Hw as (v & _ & ->). }
    cbn [delete]. destruct (resolveHash_ok r _ t prefix Hr Hwf Hs) as (n & E & Hn' & Hh). rewrite (bind_Ok _ _ _ _ _ E).
    destruct (IH n t r PNode prefix key Hn' Hw Hk Hs) as (n' & E' & Hrepr & Hnh);
      [unfold need in *; rewrite Hh; cbn [is_hash] in *; lia|].
    rewrite (bind_Ok _ _ _ _ _ E'). destruct (tdelete t key); by eexists.
Qed.
End Ops.
End Refine.
