(* ===== verification/TrieHash.v ===== *)
(** The hasher computes the hash of the tree.

    Whatever part of a trie is cached, unloaded or dirty, hasher.hash returns the
    hash of the tree its root represents, and with a database it writes every
    node that is referred to by hash. *)

From S2P Require Import Prelude BigMath Rlp RlpSpec RlpRaw Trie TrieTree TrieCodec TrieRefine.
Import Big Common MPT.

Section Hash.
Context (Keccak256 : list byte -> Hash).
Abbreviation tenc := (tenc Keccak256).
Abbreviation thash := (thash Keccak256).
Abbreviation big := (big Keccak256).
Abbreviation coll := (coll Keccak256).
Abbreviation cref := (cref Keccak256).
Abbreviation repr := (repr Keccak256).
Abbreviation kept := (kept Keccak256).
Abbreviation stored := (stored Keccak256).
Abbreviation flag_ok := (flag_ok Keccak256).

Context (cg cl : Z) (cm : bool).
(** The encodings that may be in the database when nodes are written: no two have
    the same hash. *)
Context (U : store_t).
Definition consistent (r : bool) (t : tree) : Prop :=
  stored U t /\ (r = true -> isnode t = true -> U !! thash t = Some (tenc t)).

(** What a parent is given: the hash, or the collapsed node itself. *)
Definition hashed_as (force : bool) (h : node) (t : tree) : Prop :=
  if force || bool_decide (big t) then h = hashNode (thash t) else coll h t.

(** From database [d], hashing a node of [t] ends with [h], [n] and [d']. *)
Record hash_post (d : store_t) (force : bool) (t : tree) (h n : node) (d' : store_t) : Prop := {
  hp_grows : d ⊆ d';
  hp_within : cm = true -> d' ⊆ U;
  hp_same : cm = false -> d' = d;
  hp_hash : hashed_as force h t;
  hp_repr : repr d' force n t;
  hp_kept : cm = true -> kept d' force t;
}.

Definition may_commit (r : bool) (d : store_t) (t : tree) : Prop := cm = true -> consistent r t /\ d ⊆ U.

Lemma hashed_cref h t : hashed_as false h t -> isnode t = true -> cref h t.
Proof.
  unfold hashed_as. cbn [orb]. intros H Hn. case_bool_decide; [subst; by constructor|by constructor].
Qed.

(** The cached results. *)
Lemma cachedHash_ok d force n t h n' : repr d force n t -> may_commit force d t -> isnode t = true ->
  cachedHash cg cl cm n = Some (h, n') -> hash_post d force t h n' d.
Proof.
  intros Hr Hmc Hn. unfold cachedHash. destruct (cache n) as [[[h0|] dr]|] eqn:Ec; try done.
  assert (exists f, flag_ok d force f t /\ flag_hash f = Some h0 /\ dirty f = dr /\
    (canUnload n cg cl = true -> dr = false)) as (f & [Hh Hk] & Hf & Hdr & Hun).
  { inversion Hr; subst; try done; cbn in Ec; injection Ec as <- <-; eexists; (split_and!; [done..|]); cbn [canUnload];
      by intros [?%negb_true_iff _]%andb_prop. }
  destruct (Hh h0 Hf) as [-> Hb].
  assert (hashed_as force (hashNode (thash t)) t) as Has.
  { unfold hashed_as. destruct force; [done|]. cbn [orb]. by rewrite bool_decide_eq_true_2 by (by destruct Hb). }
  assert (forall m, repr d force m t -> (cm = true -> kept d force t) -> hash_post d force t (hashNode (thash t)) m d) as Hpost.
  { intros m Hm Hkm. split; try done. intros E. by apply Hmc. }
  destruct cm; cbn [negb].
  - destruct (canUnload n cg cl) eqn:Eu.
    + intros [= <- <-]. assert (kept d force t) by (apply Hk; rewrite Hdr; by apply Hun). apply Hpost; [by constructor|done].
    + destruct dr; [done|]. intros [= <- <-]. by apply Hpost; [|intros _; apply Hk].
  - intros [= <- <-]. by apply Hpost.
Qed.

(** What [store] leaves in the database. *)
Definition writes (force : bool) (t : tree) (d : store_t) : store_t :=
  if cm && (force || bool_decide (big t)) then <[thash t := tenc t]> d else d.

Lemma store_ok force c t d : wf t -> small PNode t -> coll c t -> is_hash c = false ->
  (forall h dr, cache c = Some (Some h, dr) -> h = thash t) ->
  store Keccak256 cm c force d =
    Ok (if force || bool_decide (big t) then hashNode (thash t) else c) (writes force t d).
Proof.
  intros Hw Hs Hc Hh Hf. pose proof (encode_coll Keccak256 c t Hw Hs Hc) as He.
  assert (store Keccak256 cm c force d = (enc ← must (encodeNode c);
      if (len enc <? 32) && negb force then mret c
      else
        let h := match cache c with Some (Some h, _) => h | _ => Hash_Bytes (Keccak256 enc) end in
        (if cm then modify (<[h := enc]>) else mret tt);; mret (hashNode h)) d) as -> by (inversion Hc; done).
  rewrite (bind_must _ _ _ _ He).
  assert ((len (tenc t) <? 32) && negb force = negb (force || bool_decide (big t))) as ->.
  { unfold TrieCodec.big. case_bool_decide; destruct force; cbn; lia. }
  unfold writes. destruct (force || _); cbn [negb]; rewrite ?andb_false_r; [|done].
  assert (match cache c with Some (Some h, _) => h | _ => Hash_Bytes (Keccak256 (tenc t)) end = thash t) as ->.
  { destruct (cache c) as [[[h|] dr]|]; [|done..]. by eapply Hf. }
  by destruct cm.
Qed.

Lemma consistent_written force t : consistent force t -> isnode t = true -> force || bool_decide (big t) = true ->
  U !! thash t = Some (tenc t).
Proof.
  intros [Hs Hr] Hn [->|Hb%bool_decide_eq_true_1]%orb_prop; [by apply Hr|]. by apply Hs; [constructor|..].
Qed.
Lemma writes_grows force t d : may_commit force d t -> isnode t = true -> d ⊆ writes force t d.
Proof.
  intros Hmc Hn. unfold writes. destruct cm eqn:Ecm; [|done]. cbn [andb]. destruct (Hmc Ecm) as [Hc Hd].
  destruct (force || _) eqn:Ef; [|done]. pose proof (consistent_written force t Hc Hn Ef) as HU.
  destruct (d !! thash t) as [e|] eqn:E; [|by apply insert_subseteq].
  rewrite insert_id; [done|]. rewrite E. rewrite (lookup_weaken _ _ _ _ E Hd) in HU. done.
Qed.
Lemma writes_within force t d : may_commit force d t -> isnode t = true -> cm = true -> writes force t d ⊆ U.
Proof.
  intros Hmc Hn Hcm. unfold writes. destruct (Hmc Hcm) as [Hc Hd]. rewrite Hcm. cbn [andb].
  destruct (force || _) eqn:Ef; [|done]. apply insert_subseteq_l; [|done]. by apply (consistent_written force).
Qed.

(** The nodes below the root of a tree are in the database. *)
Definition below (d : store_t) (t : tree) : Prop :=
  match t with
  | TShort _ u => stored d u
  | TFull l => Forall (stored d) l
  | _ => True
  end.
Lemma below_stored d t : below d t -> (isnode t = true -> big t -> d !! thash t = Some (tenc t)) -> stored d t.
Proof.
  intros Hb Ht u Hu Hn Hbig. inversion Hu as [|? s w Hw|? w l Hwl Hw]; subst; [by apply Ht|by apply Hb|].
  cbn [below] in Hb. rewrite list.Forall_forall in Hb. by apply (Hb w Hwl).
Qed.
Lemma below_mono d d' t : d ⊆ d' -> below d t -> below d' t.
Proof.
  intros Hd. destruct t; try done; cbn [below]; [by apply stored_mono|]. apply Forall_impl. intros u. by apply stored_mono.
Qed.

Lemma writes_kept force t d : isnode t = true -> may_commit force d t -> below d t -> cm = true -> kept (writes force t d) force t.
Proof.
  intros Hn Hmc Hb Hcm.
  assert (force = true \/ big t -> writes force t d !! thash t = Some (tenc t)) as Hw.
  { intros H. unfold writes. rewrite Hcm. cbn [andb].
    assert (force || bool_decide (big t) = true) as -> by (destruct H as [->|H]; [done|]; rewrite bool_decide_eq_true_2 by done; by destruct force).
    by rewrite lookup_insert, decide_True. }
  split; [|by intros ->; apply Hw; left]. apply below_stored; [|by intros _ H; apply Hw; right].
  eapply below_mono; [|exact Hb]. by apply writes_grows.
Qed.

Lemma setFlags_repr d d' force h n t : repr d force n t -> d ⊆ d' -> isnode t = true -> hashed_as force h t ->
  (cm = true -> kept d' force t) -> repr d' force (setFlags cm h n) t.
Proof.
  intros Hr Hd Hn Hh Hk.
  assert (forall f, flag_ok d force f t ->
    flag_ok d' force (mkFlag (match h with hashNode h => Some h | _ => None end) (gen f) (if cm then false else dirty f)) t) as Hf.
  { intros f [_ Hf]. unfold hashed_as in Hh. split; cbn [flag_hash dirty].
    - intros b Eb. destruct force; cbn [orb] in Hh; [by subst; injection Eb as <-; split; [|left]|].
      case_bool_decide; [subst; injection Eb as <-; by split; [|right]|]. by inversion Hh; subst.
    - destruct cm eqn:Ecm; [by intros _; apply Hk|]. intros Hdf. eapply kept_mono; [exact Hd|by apply Hf]. }
  inversion Hr; subst; try done; cbn [setFlags].
  - constructor; [by eapply repr_mono|by apply Hf].
  - constructor; [|by apply Hf]. eapply Forall2_impl_lookup; [done|]. intros. by eapply repr_mono.
  - constructor; [done..|by eapply kept_mono].
Qed.

Lemma consistent_sub r t u : sub u t -> consistent r t -> consistent false u.
Proof. intros Hu [Hs _]. split; [by eapply stored_sub|done]. Qed.
Lemma may_commit_sub r d t u : sub u t -> may_commit r d t -> may_commit false d u.
Proof. intros Hu Hmc Hcm. destruct (Hmc Hcm). split; [by eapply consistent_sub|done]. Qed.

Abbreviation hash := (hash Keccak256 cg cl cm).
(** [hash] is right for the node of a tree. *)
Definition hashes (force : bool) (t : tree) : Prop :=
  forall n d, repr d force n t -> may_commit force d t ->
  exists h n' d', hash force n d = Ok (h, n') d' /\ hash_post d force t h n' d'.

(** After the children: collapsed [c] and node to keep [n]. *)
Lemma finish_ok d d1 force t c n : wf t -> small PNode t -> isnode t = true ->
  may_commit force d1 t -> d ⊆ d1 -> (cm = false -> d1 = d) -> (cm = true -> below d1 t) ->
  coll c t -> repr d1 force n t -> is_hash n = false -> cache c = cache n ->
  exists h n' d', (hashed ← store Keccak256 cm c force; mret (hashed, setFlags cm hashed n)) d1 = Ok (h, n') d' /\
    hash_post d force t h n' d'.
Proof.
  intros Hw Hs Hn Hmc Hd Hsame Hb Hc Hr Hnh Hcache.
  assert (is_hash c = false) as Hch by by inversion Hc.
  assert (forall h dr, cache c = Some (Some h, dr) -> h = thash t) as Hf by (intros ??; rewrite Hcache; by apply (repr_cache _ _ _ _ _ _ _ Hr)).
  rewrite (bind_Ok _ _ _ _ _ (store_ok force c t d1 Hw Hs Hc Hch Hf)).
  assert (hashed_as force (if force || bool_decide (big t) then hashNode (thash t) else c) t) as Hh.
  { unfold hashed_as. by destruct (force || _). }
  assert (cm = true -> kept (writes force t d1) force t) as Hk by (intros E; apply writes_kept; auto).
  pose proof (writes_grows force t d1 Hmc Hn) as Hg.
  do 3 eexists. split; [done|]. split; [by etrans| |..|exact Hk]; [by apply writes_within| |done|].
  - intros E. unfold writes. rewrite E. by apply Hsame.
  - by eapply setFlags_repr.
Qed.

(** The first [k] children. *)
Lemma hashAll_ok k ns ts d : (k <= length ts)%nat -> Forall2 (repr d false) ns ts ->
  Forall (fun u => (u = TNil \/ isnode u = true /\ hashes false u) /\ may_commit false d u) (take k ts) ->
  (cm = true -> d ⊆ U) ->
  exists cs ms d', hashAll (hash false) k ns d = Ok (cs, ms) d' /\ d ⊆ d' /\ (cm = true -> d' ⊆ U) /\ (cm = false -> d' = d) /\
    Forall2 cref cs (take k ts) /\ Forall2 (repr d' false) ms (take k ts) /\ (cm = true -> Forall (stored d') (take k ts)).
Proof.
  revert ns ts d. induction k as [|k IH]; intros ns ts d Hk Hr Ho HU; [exists [], [], d; by destruct ns|].
  destruct Hr as [|n t ns ts Hn Hr]; [cbn in Hk; lia|]. cbn [take firstn] in *. apply Forall_cons_iff in Ho as [[Ht Hmc] Ho].
  assert (exists h n' d1, (match n with nilNode => mret (valueNode [], nilNode) | _ => hash false n end) d = Ok (h, n') d1 /\
    d ⊆ d1 /\ (cm = true -> d1 ⊆ U) /\ (cm = false -> d1 = d) /\ cref h t /\ repr d1 false n' t /\ (cm = true -> stored d1 t))
    as (h & n' & d1 & E & Hd1 & HU1 & Hs1 & Hh & Hn' & Hst).
  { destruct Ht as [->|[Hnt Hh]].
    - inversion Hn; subst; [|done]. exists (valueNode []), nilNode, d. split_and!; try done; [constructor|].
      intros _. by apply stored_leaf.
    - destruct (Hh n d Hn Hmc) as (h & n' & d1 & E & [P1 P2 P3 P4 P5 P6]). exists h, n', d1.
      split_and!; try done; [by destruct n; try done; inversion Hn; subst|by apply hashed_cref|]. intros Hcm. by apply P6. }
  destruct (IH ns ts d1) as (cs & ms & d2 & E2 & Hd2 & HU2 & Hs2 & Hcs & Hms & Hst2); [cbn in Hk; lia| | |done|].
  - eapply Forall2_impl_lookup; [exact Hr|]. intros. by eapply repr_mono.
  - revert Ho. apply Forall_impl. intros u [Hu Hmu]. split; [done|]. intros Hcm. split; [by apply Hmu|by apply HU1].
  - cbn [hashAll]. rewrite (bind_Ok _ _ _ _ _ E), (bind_Ok _ _ _ _ _ E2). do 3 eexists. split; [done|].
    split_and!; [by etrans|done| |by constructor|..].
    + intros Hcm. rewrite Hs2, Hs1 by done. done.
    + constructor; [by eapply repr_mono|done].
    + intros Hcm. constructor; [eapply stored_mono; [done|by apply Hst]|by apply Hst2].
Qed.

Lemma hash_eq force n : hash force n =
  match cache n with
  | None => panic
  | Some _ =>
      match cachedHash cg cl cm n with
      | Some r => mret r
      | None =>
          '(collapsed, cached) ← hashChildren (hash false) n;
          hashed ← store Keccak256 cm collapsed force;
          mret (hashed, setFlags cm hashed cached)
      end
  end.
Proof. by destruct n. Qed.

Lemma repr_cached d r n t : repr d r n t -> isnode t = true -> exists x, cache n = Some x.
Proof. inversion 1; subst; try done; cbn; eauto. Qed.

(** The children of a short node. *)
Lemma hashShort_ok d force s m f u : wf (TShort s u) -> repr d force (shortNode s m f) (TShort s u) ->
  may_commit force d (TShort s u) -> (wf u -> hashes false u) ->
  exists c n d1, hashChildren (hash false) (shortNode s m f) d = Ok (c, n) d1 /\ d ⊆ d1 /\ (cm = true -> d1 ⊆ U) /\
    (cm = false -> d1 = d) /\ (cm = true -> below d1 (TShort s u)) /\
    coll c (TShort s u) /\ repr d1 force n (TShort s u) /\ is_hash n = false /\ cache c = cache n.
Proof.
  intros Hw Hr Hmc IH. destruct (wf_short s u Hw) as (p & Hf & Hpk & _ & Hp). destruct (compact_ok s Hpk) as (Ec & _).
  inversion Hr as [| |? ? ? ? ? Hm Hfl| |]; subst. cbn [hashChildren]. rewrite (bind_must _ _ _ _ Ec).
  destruct p; destruct Hp as [_ [x ->]].
  - destruct (IH Hf m d Hm) as (h & n' & d1 & E & [P1 P2 P3 P4 P5 P6]); [eapply may_commit_sub; [|done]; by repeat constructor|].
    assert ((match m with valueNode _ => mret (m, m) | _ => hash false m end) d = Ok (h, n') d1) as E' by (destruct m; try done; by inversion Hm).
    rewrite (bind_Ok _ _ _ _ _ E').
    assert (match h with nilNode => valueNode [] | _ => h end = h) as ->.
    { unfold hashed_as in P4. cbn [orb] in P4. case_bool_decide; [by subst|by inversion P4]. }
    do 3 eexists. split; [done|]. split_and!; try done; [intros Hcm; by apply P6|constructor; by apply hashed_cref|].
    constructor; [done|by eapply flag_mono].
  - inversion Hm; subst; [|done]. do 3 eexists. split; [done|].
    split_and!; try done; [intros E; by apply Hmc|intros _; by apply stored_leaf|by repeat constructor].
Qed.

(** The children of a full node. *)
Lemma hashFull_ok d force ns f ts : wf (TFull ts) -> small PNode (TFull ts) -> repr d force (fullNode ns f) (TFull ts) ->
  may_commit force d (TFull ts) -> Forall (fun u => wf u -> small PNode u -> hashes false u) ts ->
  exists c n d1, hashChildren (hash false) (fullNode ns f) d = Ok (c, n) d1 /\ d ⊆ d1 /\ (cm = true -> d1 ⊆ U) /\
    (cm = false -> d1 = d) /\ (cm = true -> below d1 (TFull ts)) /\
    coll c (TFull ts) /\ repr d1 force n (TFull ts) /\ is_hash n = false /\ cache c = cache n.
Proof.
  intros Hw Hs Hr Hmc IH. pose proof (proj1 (proj1 (wf_full_iff ts) Hw)) as [Hl Hslots].
  inversion Hr as [| | |? ? ? ? Hns Hfl|]; subst.
  destruct (ts !! 16%nat) as [u|] eqn:Eu; [|apply lookup_ge_None in Eu; lia].
  destruct (Forall2_lookup_r _ _ _ _ _ Hns Eu) as (m & Em & Hmu).
  assert (take 16 ts ++ [u] = ts) as Hts by (rewrite <- (take_S_r _ _ _ Eu); apply take_ge; lia).
  destruct (hashAll_ok 16 ns ts d) as (cs & ms & d1 & E & Hd & HU & Hsame & Hcs & Hms & Hst); [lia|done| | |].
  - apply Forall_lookup_2. intros i w Hi. apply lookup_take_Some in Hi as [Hi Hlt].
    split; [|eapply may_commit_sub; [|done]; econstructor; [by eapply list_elem_of_lookup_2|constructor]].
    destruct (byte_at i) as (b & <- & Hb); [lia|]. pose proof (Hslots b w Hb Hi) as Hww.
    pose proof (small_child ts b w Hs Hb Hi) as Hsw. rewrite slot_nibble in Hww, Hsw by (unfold nibble; lia).
    destruct Hww as [->|Hww]; [by left|right]. split; [by inversion Hww|]. by apply (Forall_lookup_1 _ _ _ _ IH Hi).
  - intros Hcm. by apply Hmc.
  - assert (m = match u with TVal v => valueNode v | _ => nilNode end /\ isnode u = false /\ repr d1 false m u) as (Hm & Hnu & Hmu').
    { destruct (Hslots x10 u) as [->|Hu]; [done..|inversion Hmu; subst; [split_and!; [done..|constructor]|done]|].
      unfold slot in Hu. rewrite bool_decide_eq_true_2 in Hu by done. destruct Hu as (v & _ & ->). inversion Hmu; subst; [|done]. split_and!; [done..|constructor]. }
    cbn [hashChildren]. rewrite (bind_Ok _ _ _ _ _ E), (bind_must _ _ _ _ Em). do 3 eexists. split; [done|].
    split_and!; try done.
    + intros Hcm. cbn [below]. rewrite <- Hts. apply Forall_app. split; [by apply Hst|]. constructor; [by apply stored_leaf|done].
    + constructor. rewrite <- Hts. apply Forall2_app; [done|]. constructor; [|done]. subst m. destruct u; try done; constructor.
    + constructor; [|by eapply flag_mono]. rewrite <- Hts. apply Forall2_app; [done|]. by constructor.
Qed.

Theorem hash_ok t : forall force, wf t -> small PNode t -> hashes force t.
Proof.
  induction t as [|v|s u IH|ts IH] using tree_ind; intros force Hw Hs n d Hr Hmc; try by inversion Hw.
  all: pose proof Hr as Hr'; destruct (repr_cached _ _ _ _ Hr) as [x Hx]; [done|]; rewrite hash_eq, Hx.
  all: destruct (cachedHash cg cl cm n) as [[h n']|] eqn:Ec; [by exists h, n', d; split; [|eapply cachedHash_ok]|].
  all: inversion Hr as [| |? ? ? ? ? Hm|? ? ? ? Hm|? ? Hn Hb Hk]; subst.
  all: try (do 3 eexists; split; [done|]; split; [done|by intros E; apply Hmc|done| |done|done];
    unfold hashed_as; destruct force; [done|]; cbn [orb]; rewrite bool_decide_eq_true_2 by (by destruct Hb); done).
  - destruct (hashShort_ok d force s n0 f u Hw Hr' Hmc) as (c & m & d1 & E & Hout).
    { intros Hu. apply IH; [done|]. destruct (wf_short s u Hw) as (p & Hf & _ & Hp & Hpp).
      destruct p; [by eapply small_below|]. destruct Hpp as [_ [v ->]]. inversion Hu. }
    rewrite (bind_Ok _ _ _ _ _ E). destruct Hout as (? & ? & ? & ? & ? & ? & ? & ?). eapply finish_ok; eauto. split; [by apply Hmc|auto].
  - destruct (hashFull_ok d force ns f ts Hw Hs Hr' Hmc) as (c & m & d1 & E & Hout).
    { revert IH. apply Forall_impl. auto. }
    rewrite (bind_Ok _ _ _ _ _ E). destruct Hout as (? & ? & ? & ? & ? & ? & ? & ?). eapply finish_ok; eauto. split; [by apply Hmc|auto].
Qed.
End Hash.
