(* ===== verification/TrieMap.v ===== *)
(** A trie as a finite map.

    [tree_of m] is the tree of the entries of [m] and [rootHash m] its root hash,
    the specification of Trie.Hash; [holds tr m] says that the trie [tr] stores
    [m].  The operations of trie/trie.go keep [holds] with the operation of the
    map. *)

From S2P Require Import Prelude BigMath Rlp RlpSpec RlpRaw Trie TrieTree TrieCodec TrieRefine TrieHash.
Import Big Common MPT.

Abbreviation entries_t := (gmap (list byte) (list byte)).

Definition hexlen_bound : Z := 2 ^ 54.
(** Keys and values that fit the encoding; no value is empty. *)
Definition fits_key (k : list byte) : Prop := len k < hexlen_bound.
Definition fits_val (v : list byte) : Prop := v <> [] /\ len v < 2 ^ 56.
Definition valid (m : entries_t) : Prop := map_Forall (fun k v => fits_key k /\ fits_val v) m.

Definition tree_of (m : entries_t) : tree := map_fold (fun k v t => tinsert t (keybytesToHex k) (TVal v)) TNil m.

(** The tree stores the entries of the map. *)
Definition entries (t : tree) (m : entries_t) : Prop :=
  forall k v, hexkey k -> tget t k = Some v <-> exists kb, k = keybytesToHex kb /\ m !! kb = Some v.

Lemma keybytesToHex_len k : len (keybytesToHex k) = 2 * len k + 1.
Proof. induction k as [|b k IH]; [done|]. cbn [keybytesToHex]. rewrite !len_cons, IH. lia. Qed.

Lemma entries_get t m k : entries t m -> tget t (keybytesToHex k) = m !! k.
Proof.
  intros He. apply option_eq. intros v. rewrite (He _ v (keybytesToHex_hexkey k)). split; [|eauto].
  by intros (kb & ->%keybytesToHex_inj & ?).
Qed.
Lemma entries_small t m : valid m -> entries t m -> small PNode t.
Proof.
  intros Hv He k v Hk. rewrite (He k v Hk). intros (kb & -> & Hm). destruct (Hv _ _ Hm) as [Hkb [_ Hl]].
  rewrite keybytesToHex_len. unfold fits_key, hexlen_bound in Hkb. lia.
Qed.
Lemma entries_same t u m : entries t m -> entries u m -> same_entries PNode t u.
Proof. intros Ht Hu k Hk. apply option_eq. intros v. by rewrite (Ht k v Hk), (Hu k v Hk). Qed.

(** A change of the tree is a change of the map. *)
Lemma entries_changed t u m k o : entries t m -> changed PNode t (keybytesToHex k) o u -> entries u (partial_alter (fun _ => o) k m).
Proof.
  intros He Hc k' v Hk'. rewrite (Hc k' Hk'). case_bool_decide as E; [subst k'|rewrite (He k' v Hk')]; split.
  - intros ->. exists k. by rewrite lookup_partial_alter_eq.
  - intros (kb & <-%keybytesToHex_inj & Hm). by rewrite lookup_partial_alter_eq in Hm.
  - intros (kb & -> & Hm). exists kb. rewrite lookup_partial_alter_ne; [done|congruence].
  - intros (kb & -> & Hm). exists kb. rewrite lookup_partial_alter_ne in Hm; [done|congruence].
Qed.

Lemma tree_of_ok m : valid m -> wfs PNode (tree_of m) /\ entries (tree_of m) m.
Proof.
  unfold tree_of. revert m. apply (map_fold_weak_ind (fun t m => valid m -> wfs PNode t /\ entries t m)).
  - intros _. split; [by left|]. intros k v Hk. split; [done|]. intros (kb & _ & Hm). by rewrite lookup_empty in Hm.
  - intros k v m t Hm IH Hv. apply map_Forall_insert in Hv as [[Hk Hval] Hv]; [|done]. destruct (IH Hv) as [Hw He].
    destruct (tinsert_ok t PNode (keybytesToHex k) v Hw (keybytesToHex_hexkey k)) as [Hf Hc]; [apply Hval|].
    split; [by right|]. by eapply entries_changed in Hc.
Qed.

(** There is one tree for a map. *)
Lemma tree_of_unique m t : valid m -> wfs PNode t -> entries t m -> t = tree_of m.
Proof.
  intros Hv Hw He. destruct (tree_of_ok m Hv) as [Hw' He']. eapply tree_unique; [done..|]. by eapply entries_same.
Qed.

Lemma tree_of_get m k : valid m -> tget (tree_of m) (keybytesToHex k) = m !! k.
Proof. intros Hv. by apply entries_get, tree_of_ok. Qed.

Lemma tree_of_small m : valid m -> small PNode (tree_of m).
Proof. intros Hv. eapply entries_small; [done|]. by apply tree_of_ok. Qed.

Lemma valid_insert m k v : valid m -> fits_key k -> fits_val v -> valid (<[k := v]> m).
Proof. intros. by apply map_Forall_insert_2. Qed.
Lemma valid_delete m k : valid m -> valid (base.delete k m).
Proof. intros Hv. by apply map_Forall_delete. Qed.

Lemma tree_of_insert m k v : valid m -> fits_key k -> fits_val v ->
  tinsert (tree_of m) (keybytesToHex k) (TVal v) = tree_of (<[k := v]> m).
Proof.
  intros Hm Hk Hv. destruct (tree_of_ok m Hm) as [Hw He].
  destruct (tinsert_ok _ PNode (keybytesToHex k) v Hw (keybytesToHex_hexkey k)) as [Hf Hc]; [apply Hv|].
  apply tree_of_unique; [by apply valid_insert|by right|]. by eapply entries_changed in Hc.
Qed.
Lemma tree_of_delete m k : valid m ->
  default (tree_of m) (tdelete (tree_of m) (keybytesToHex k)) = tree_of (base.delete k m).
Proof.
  intros Hm. destruct (tree_of_ok m Hm) as [Hw He].
  pose proof (tdelete_ok _ PNode (keybytesToHex k) Hw (keybytesToHex_hexkey k)) as Hd.
  destruct (tdelete _ _) as [u|]; cbn [default].
  - destruct Hd as (Hwu & Hc & _). apply tree_of_unique; [by apply valid_delete|done|]. by eapply entries_changed in Hc.
  - rewrite tree_of_get in Hd by done. by rewrite delete_id.
Qed.

Lemma tree_of_nil m : valid m -> tree_of m = TNil <-> m = ∅.
Proof.
  intros Hv. split; [|by intros ->]. intros E. apply map_empty. intros k. rewrite <- tree_of_get by done. by rewrite E.
Qed.
Lemma tree_of_wf m : valid m -> m <> ∅ -> wf (tree_of m).
Proof. intros Hv Hm. destruct (tree_of_ok m Hv) as [[E|H] _]; [|done]. by apply tree_of_nil in E. Qed.

(** The nodes of a tree. *)
Fixpoint nodes (t : tree) : list tree :=
  match t with
  | TShort s u => t :: nodes u
  | TFull l => t :: concat (map nodes l)
  | _ => []
  end.

Lemma sub_nodes u t : sub u t -> isnode u = true -> u ∈ nodes t.
Proof.
  intros Hu Hn. induction Hu as [t|u s t Hu IH|u t l Ht Hu IH].
  - destruct t; try done; cbn; by left.
  - cbn [nodes]. right. by apply IH.
  - cbn [nodes]. right. apply list_elem_of_In, in_concat. exists (nodes t). split; [by apply in_map, list_elem_of_In|].
    by apply list_elem_of_In, IH.
Qed.

Section Map.
Context (Keccak256 : list byte -> Hash).
Abbreviation tenc := (tenc Keccak256).
Abbreviation thash := (thash Keccak256).
Abbreviation repr := (repr Keccak256).
Abbreviation kept := (kept Keccak256).
Abbreviation big := (big Keccak256).

(** The Merkle root of a map. *)
Definition rootHash (m : entries_t) : Hash := if bool_decide (m = ∅) then emptyRoot else Keccak256 (tenc (tree_of m)).

(** The trie stores the map. *)
Definition holds (tr : Trie) (m : entries_t) : Prop := valid m /\ repr (tdb tr) true (root tr) (tree_of m).

Lemma depth_enough n key : (need n key <= depth key)%nat.
Proof. unfold need, depth. destruct (is_hash n); lia. Qed.

Theorem TryGet_ok tr m key : holds tr m ->
  exists tr', TryGet tr key tt = Ok (default [] (m !! key), tr') tt /\ holds tr' m /\ tdb tr' = tdb tr.
Proof.
  intros [Hv Hr]. unfold TryGet. destruct (tree_of_ok m Hv) as [Hw _].
  destruct (tryGet_ok Keccak256 tr (depth (keybytesToHex key)) (root tr) _ true PNode [] (keybytesToHex key) Hr Hw
    (keybytesToHex_hexkey key) (tree_of_small m Hv) (depth_enough _ _)) as (n & res & E & Hn).
  rewrite (bind_Ok _ _ _ _ _ E), (tree_of_get m key Hv). eexists. split; [done|]. by destruct res.
Qed.

Theorem TryDelete_ok tr m key : holds tr m ->
  exists tr', TryDelete tr key tt = Ok tr' tt /\ holds tr' (base.delete key m) /\ tdb tr' = tdb tr.
Proof.
  intros [Hv Hr]. unfold TryDelete. destruct (tree_of_ok m Hv) as [Hw _].
  destruct (delete_ok Keccak256 tr (depth (keybytesToHex key)) (root tr) _ true PNode [] (keybytesToHex key) Hr Hw
    (keybytesToHex_hexkey key) (tree_of_small m Hv) (depth_enough _ _)) as (n & E & Hn & _).
  rewrite tree_of_delete in Hn by done. rewrite (bind_Ok _ _ _ _ _ E). eexists. split; [done|]. split; [|done].
  split; [by apply valid_delete|done].
Qed.

(** TryUpdate: an empty value deletes the key. *)
Definition updated (key v : list byte) (m : entries_t) : entries_t :=
  match v with [] => base.delete key m | _ => <[key := v]> m end.

Theorem TryUpdate_ok tr m key v : holds tr m -> fits_key key -> len v < 2 ^ 56 ->
  exists tr', TryUpdate tr key v tt = Ok tr' tt /\ holds tr' (updated key v m) /\ tdb tr' = tdb tr.
Proof.
  intros [Hv Hr] Hk Hl. destruct v as [|b v]; [by apply TryDelete_ok|].
  assert (fits_val (b :: v)) as Hfv by done. unfold TryUpdate, updated. destruct (tree_of_ok m Hv) as [Hw _].
  assert (negb (len (b :: v) =? 0) = true) as -> by (rewrite len_cons; pose proof (len_nonneg v); lia).
  destruct (insert_ok Keccak256 tr (b :: v) ltac:(done) (depth (keybytesToHex key)) (root tr) _ true PNode [] (keybytesToHex key) Hr Hw
    (keybytesToHex_hexkey key) (tree_of_small m Hv) (depth_enough _ _)) as (dd & n & E & Hn & _).
  rewrite tree_of_insert in Hn by done. rewrite (bind_Ok _ _ _ _ _ E). eexists. split; [done|]. split; [|done].
  split; [by apply valid_insert|done].
Qed.

(** [U] holds all that is ever in the database, and the nodes of the tree that
    are written: that it is a function says that no two of them have the same
    hash. *)
Definition consistentb (U : store_t) (t : tree) : bool :=
  forallb (fun u => bool_decide (big u -> U !! thash u = Some (tenc u))) (nodes t) &&
  (negb (isnode t) || bool_decide (U !! thash t = Some (tenc t))).
Lemma consistentb_true U t : consistentb U t = true -> consistent Keccak256 U true t.
Proof.
  intros [Hc Hr]%andb_prop. split.
  - intros u Hu Hn. pose proof (sub_nodes u t Hu Hn). rewrite forallb_forall in Hc.
    by apply (bool_decide_eq_true_1 _), Hc, list_elem_of_In.
  - intros _ Hn. rewrite Hn in Hr. by apply bool_decide_eq_true_1 in Hr.
Qed.

(** hashRoot, with and without a database. *)
Lemma hashRoot_ok U tr m cm : holds tr m -> (cm = true -> consistent Keccak256 U true (tree_of m) /\ tdb tr ⊆ U) ->
  exists n d, hashRoot Keccak256 tr cm = Some (hashNode (Hash_Bytes (rootHash m)), n, d) /\
    tdb tr ⊆ d /\ (cm = false -> d = tdb tr) /\ (cm = true -> d ⊆ U) /\ repr d true n (tree_of m) /\
    (cm = true -> m <> ∅ -> kept d true (tree_of m)).
Proof.
  intros [Hv Hr] Hc. unfold hashRoot, rootHash. case_bool_decide as Em.
  - subst m. change (tree_of ∅) with TNil in Hr |- *. assert (root tr = nilNode) as -> by (by inversion Hr).
    do 2 eexists. split; [done|]. split_and!; try done; [by intros E; apply Hc|constructor].
  - pose proof (tree_of_wf m Hv Em) as Hw. pose proof (tree_of_small m Hv) as Hs.
    assert (isnode (tree_of m) = true) as Hn by by inversion Hw.
    destruct (hash_ok Keccak256 (cachegen tr) (cachelimit tr) cm U _ true Hw Hs _ _ Hr Hc) as (h & n & d & E & [P1 P2 P3 P4 P5 P6]).
    cbn in P4. subst h. exists n, d. destruct (root tr); [inversion Hr as [? E0| | | |]; by rewrite <- E0 in Hn|..];
      rewrite E; split_and!; try done; by intros; apply P6.
Qed.

Theorem Hash_ok tr m : holds tr m ->
  exists tr', Hash_ Keccak256 tr = Some (rootHash m, tr') /\ holds tr' m /\ tdb tr' = tdb tr.
Proof.
  intros Hh. destruct (hashRoot_ok ∅ tr m false Hh) as (n & d & E & _ & Hd & _ & Hr & _); [done|].
  unfold Hash_. rewrite E. cbn [mbind option_bind]. rewrite BytesToHash_Hash_Bytes. eexists. split; [done|].
  rewrite (Hd eq_refl) in Hr. split; [|done]. split; [apply Hh|done].
Qed.

Theorem Commit_ok U tr m : holds tr m -> consistent Keccak256 U true (tree_of m) -> tdb tr ⊆ U ->
  exists tr', Commit Keccak256 tr = Some (rootHash m, tr') /\ holds tr' m /\ tdb tr ⊆ tdb tr' /\ tdb tr' ⊆ U /\
    (m <> ∅ -> kept (tdb tr') true (tree_of m)).
Proof.
  intros Hh Hc HU. destruct (hashRoot_ok U tr m true Hh) as (n & d & E & Hd & _ & HdU & Hr & Hk); [done|].
  unfold Commit. rewrite E. cbn [mbind option_bind]. rewrite BytesToHash_Hash_Bytes. eexists. split; [done|].
  split_and!; [split; [apply Hh|done]|done|by apply HdU|by apply Hk].
Qed.

(** The root of a map that is not empty is none of the two hashes that New takes
    for the empty trie. *)
Definition root_ok (m : entries_t) : Prop := rootHash m <> emptyHash /\ (rootHash m = emptyRoot -> m = ∅).

Theorem New_ok m d : valid m -> root_ok m -> (m <> ∅ -> kept d true (tree_of m)) ->
  exists tr, New (rootHash m) d tt = Ok tr tt /\ holds tr m /\ tdb tr = d.
Proof.
  intros Hv [Hne Hnr] Hk. unfold New. rewrite (bool_decide_eq_true_2 _ Hne). cbn [andb]. case_bool_decide as Er.
  - assert (m <> ∅) as Hm by (intros ->; by apply Er). pose proof (tree_of_wf m Hv Hm) as Hw.
    assert (rootHash m = Keccak256 (tenc (tree_of m))) as -> by (unfold rootHash; by rewrite bool_decide_eq_false_2).
    destruct (resolveHash_ok Keccak256 (mkTrie nilNode d (Keccak256 (tenc (tree_of m))) 0 0) true (thash (tree_of m)) (tree_of m) []) as (n & E & Hr & _);
      [|done|by apply tree_of_small|].
    { constructor; [by inversion Hw|by left|by apply Hk]. }
    rewrite (bind_Ok _ _ _ _ _ E). eexists. split; [done|]. by split.
  - rewrite (Hnr Er). eexists. split; [done|]. split; [|done]. split; [done|constructor].
Qed.

(** * The root hash binds the map *)

(** No node of one tree collides with one of the other. *)
Definition apart (t u : tree) : Prop :=
  Forall (fun a => Forall (fun b => thash a = thash b -> tenc a = tenc b) (nodes u)) (nodes t).

Lemma apart_sub t u t' u' : nodes t' ⊆ nodes t -> nodes u' ⊆ nodes u -> apart t u -> apart t' u'.
Proof.
  unfold apart. rewrite !list.Forall_forall. intros Ht Hu H a Ha. specialize (H a (Ht a Ha)).
  rewrite !list.Forall_forall in *. intros b Hb. apply H. by apply Hu.
Qed.
Lemma apart_self t u : apart t u -> isnode t = true -> isnode u = true -> thash t = thash u -> tenc t = tenc u.
Proof.
  unfold apart. rewrite list.Forall_forall. intros H Ht Hu. specialize (H t (sub_nodes _ _ (sub_refl t) Ht)).
  rewrite list.Forall_forall in H. by apply H, sub_nodes; [constructor|].
Qed.
Lemma nodes_child l i t : l !! i = Some t -> nodes t ⊆ nodes (TFull l).
Proof.
  intros Hi u Hu. cbn [nodes]. right. apply list_elem_of_In, in_concat. exists (nodes t).
  split; [by eapply in_map, list_elem_of_In, list_elem_of_lookup_2|by apply list_elem_of_In].
Qed.

Abbreviation load := (load Keccak256).
Abbreviation loaded := (loaded Keccak256).

(** Equal encodings load the same node. *)
Lemma tenc_load t u : wf t -> wf u -> small PNode t -> small PNode u -> tenc t = tenc u -> load 0 None t = load 0 None u.
Proof.
  intros Ht Hu Hst Hsu E. pose proof (tenc_fits Keccak256 t Ht Hst). pose proof (tenc_fits Keccak256 u Hu Hsu).
  pose proof (decodeNodeF_ok Keccak256 t (length (tenc t)) 0 Ht ltac:(lia) None []) as Dt.
  pose proof (decodeNodeF_ok Keccak256 u (length (tenc t)) 0 Hu ltac:(rewrite E; lia) None []) as Du.
  rewrite !app_nil_r in *. rewrite <- E, Dt in Du by lia. specialize (Du ltac:(rewrite E; lia)). by injection Du.
Qed.

Lemma loaded_kind t : match loaded 0 t with
  | nilNode => t = TNil | valueNode v => t = TVal v
  | hashNode h => isnode t = true /\ big t /\ h = thash t
  | n => isnode t = true /\ ~ big t /\ n = load 0 None t end.
Proof.
  unfold TrieCodec.loaded, loadref. destruct t; cbn [isnode andb]; [done..| |]; case_bool_decide; by cbn [TrieCodec.load].
Qed.

Lemma loaded_inj p t u : (forall u, wf t -> wf u -> small PNode t -> small PNode u -> apart t u -> load 0 None t = load 0 None u -> t = u) ->
  wfs p t -> wfs p u -> small p t -> small p u -> apart t u -> loaded 0 t = loaded 0 u -> t = u.
Proof.
  intros IH Ht Hu Hst Hsu Ha E. pose proof (loaded_kind t) as Kt. pose proof (loaded_kind u) as Ku. rewrite E in Kt.
  assert (forall w, wfs p w -> isnode w = true -> p = PNode /\ wf w) as Hp.
  { intros w [->|Hw] Hn; [done|]. destruct p; [done|]. by destruct Hw as (v & _ & ->). }
  destruct (loaded 0 u); [congruence| | | |congruence]; destruct Kt as (Hnt & Hbt & Et), Ku as (Hnu & Hbu & Eu);
    destruct (Hp t Ht Hnt) as [-> Hwt], (Hp u Hu Hnu) as [_ Hwu]; apply IH; try done; [congruence..|].
  apply tenc_load; try done. apply apart_self; [done..|congruence].
Qed.

Lemma load_inj t : forall u, wf t -> wf u -> small PNode t -> small PNode u -> apart t u -> load 0 None t = load 0 None u -> t = u.
Proof.
  induction t as [|v|s t IH|l IH] using tree_ind; intros u Ht Hu Hst Hsu Ha E; try by inversion Ht.
  - destruct u as [| |s' u|l']; try done. cbn [TrieCodec.load] in E. injection E as <- E. f_equal.
    destruct (wf_short s t Ht) as (p & Hf & _ & Hp & Hpt), (wf_short s u Hu) as (p' & Hf' & _ & Hp' & Hpu).
    assert (p' = p) as -> by (destruct p, p'; try done; destruct Hpt as [? _], Hpu as [? _]; by edestruct nibbles_no_key).
    eapply (loaded_inj p); [done|by right|by right|by eapply small_below..| |done].
    eapply apart_sub; [..|exact Ha]; cbn [nodes]; set_solver.
  - destruct u as [| |s' u|l']; try done. cbn [TrieCodec.load] in E. injection E as E. f_equal.
    apply wf_full_iff in Ht as [[Hl Ht] _], Hu as [[Hl' Hu] _]. apply list_eq_same_length with 17%nat; [done..|].
    intros i x y Hi Hx Hy. destruct (byte_at i Hi) as (b & <- & Hb). apply (loaded_inj (slot b)).
    + by apply (Forall_lookup_1 _ _ _ _ IH Hx).
    + by apply Ht. + by apply Hu. + exact (small_child l b x Hst Hb Hx). + exact (small_child l' b y Hsu Hb Hy).
    + eapply apart_sub; [exact (nodes_child l _ x Hx)|exact (nodes_child l' _ y Hy)|exact Ha].
    + assert (map (loaded 0) l !! idx b = map (loaded 0) l' !! idx b) as Em by (by f_equal).
      rewrite !list_lookup_fmap, Hx, Hy in Em. by injection Em.
Qed.

Lemma thash_inj t u : wf t -> wf u -> small PNode t -> small PNode u -> apart t u -> thash t = thash u -> t = u.
Proof.
  intros Ht Hu Hst Hsu Ha E. apply load_inj; try done. apply tenc_load; try done.
  by apply apart_self; [done|by inversion Ht|by inversion Hu|].
Qed.
End Map.
