(* ===== verification/TrieProof.v ===== *)
(** Merkle proofs: trie/proof.go.

    [tpath t k] are the nodes on the path of the key [k] in the tree [t].  Prove
    gives the encodings of the first and of those that are referred to by hash,
    and VerifyProof accepts them with the value at the key; a proof that it
    accepts, whatever it is, gives the value at the key unless a proof element
    collides with a node of the tree. *)

From S2P Require Import Prelude BigMath Rlp RlpSpec RlpRaw Trie TrieTree TrieCodec TrieRefine TrieHash TrieMap.
Import Big Common MPT.

Fixpoint tpath (t : tree) (k : list byte) : list tree :=
  match t with
  | TShort s u => t :: match strip s k with Some r => tpath u r | None => [] end
  | TFull l =>
      t :: match k with
           | [] => []
           | b :: k => (fix at_ (i : nat) (l : list tree) {struct l} :=
                          match i, l with
                          | O, u :: _ => tpath u k
                          | S i, _ :: l => at_ i l
                          | _, [] => []
                          end) (idx b) l
           end
  | _ => []
  end.

Lemma tpath_Full l b k : tpath (TFull l) (b :: k) = TFull l :: match l !! idx b with Some t => tpath t k | None => [] end.
Proof.
  cbn [tpath]. f_equal. generalize (idx b). induction l as [|t l IH]; intros [|i]; done || apply IH.
Qed.
Lemma tpath_node t k : isnode t = true -> exists l, tpath t k = t :: l.
Proof. destruct t; try done; intros _; cbn [tpath]; eauto. Qed.

Lemma get_full ns f b k : get (fullNode ns f) (b :: k) = match ns !! idx b with Some c => get c k | None => None end.
Proof.
  cbn [get]. generalize (idx b). induction ns as [|c ns IH]; intros [|i]; done || apply IH.
Qed.
(** A short node is followed where its key is a prefix. *)
Lemma short_test s k :
  (len k <? len s) || negb (bool_decide (s = take (length s) k)) = match strip s k with Some _ => false | None => true end.
Proof.
  destruct (strip s k) as [r|] eqn:E.
  - apply strip_Some in E as ->. rewrite take_app_length, bool_decide_eq_true_2, len_app by done.
    pose proof (len_nonneg r). replace (len s + len r <? len s) with false by lia. done.
  - destruct (len k <? len s); [done|]. rewrite bool_decide_eq_false_2; [done|]. intros Es.
    apply (proj1 (strip_None s k) E (drop (length s) k)). rewrite Es at 1. by rewrite take_drop.
Qed.
Lemma get_short s c f k : get (shortNode s c f) k =
  match strip s k with Some r => get c r | None => Some ([], nilNode) end.
Proof.
  cbn [get]. rewrite short_test. destruct (strip s k) as [r|] eqn:E; [|done]. apply strip_Some in E as ->. by rewrite drop_app_length.
Qed.

Section Proof.
Context (Keccak256 : list byte -> Hash).
Abbreviation tenc := (tenc Keccak256).
Abbreviation thash := (thash Keccak256).
Abbreviation big := (big Keccak256).
Abbreviation load := (load Keccak256).
Abbreviation loaded := (loaded Keccak256).
Abbreviation repr := (repr Keccak256).

(** The nodes of a path that have an element of their own. *)
Definition refs (l : list tree) : list tree := filter big l.

(** What [get] finds at the key [k] of the tree [t]; [l] are the nodes that are
    left. *)
Inductive found (t : tree) (k : list byte) (l : list tree) : list byte * node -> Prop :=
| found_none r : tget t k = None -> l = [] -> found t k l (r, nilNode)
| found_val v : tget t k = Some v -> l = [] -> found t k l ([], valueNode v)
| found_ref w r : sub w t -> wf w -> small PNode w -> big w -> hexkey r -> tget t k = tget w r ->
    l = refs (tpath w r) -> found t k l (r, hashNode (thash w)).

Definition get_finds (t : tree) : Prop := forall g ho p k, wfs p t -> keys p k -> small p t ->
  exists x, get (load g ho t) k = Some x /\ found t k (refs (tail (tpath t k))) x.

Lemma loaded_finds t g p k : get_finds t -> wfs p t -> keys p k -> small p t ->
  exists x, get (loaded g t) k = Some x /\ found t k (refs (tpath t k)) x.
Proof.
  intros IH Hw Hk Hs. unfold TrieCodec.loaded, loadref. destruct (isnode t) eqn:Hn; cbn [andb].
  - assert (p = PNode /\ wf t) as [-> Hwt].
    { destruct Hw as [->|Hw]; [done|]. destruct p; [done|]. by destruct Hw as (v & _ & ->). }
    case_bool_decide as Hb; [exists (k, hashNode (thash t)); split; [done|]; by econstructor; [constructor|..]|].
    destruct (IH g None PNode k Hw Hk Hs) as (x & E & Hx). exists x. split; [done|].
    destruct (tpath_node t k Hn) as [l El]. rewrite El in Hx |- *. cbn [tail] in Hx. unfold refs.
    by rewrite filter_cons_False.
  - destruct (IH g None p k Hw Hk Hs) as (x & E & Hx). exists x. split; [done|]. by destruct t.
Qed.

Lemma found_sub t u k r l x : sub u t -> tget t k = tget u r -> found u r l x -> found t k l x.
Proof.
  intros Hu E [r' E1 E2|v E1 E2|w r' Hw ? ? ? ? E1 E2]; [apply found_none; congruence|apply found_val; congruence|].
  apply found_ref; try done; [by eapply sub_trans|congruence].
Qed.

Lemma get_load t : get_finds t.
Proof.
  induction t as [|v|s u IH|l IH] using tree_ind; intros g ho p k Hw Hk Hs.
  - eexists. split; [done|]. by constructor.
  - eexists. split; [done|]. by constructor.
  - destruct Hw as [|Hw]; [done|]. destruct p; [|by destruct Hw as (? & _ & ?)].
    destruct (wf_short s u Hw) as (p & Hfu & _ & Hp & _). cbn [TrieCodec.load tpath tail]. rewrite get_short.
    destruct (strip s k) as [r|] eqn:E; [|eexists; split; [done|]; constructor; [by rewrite tget_Short, E|done]].
    pose proof E as ->%strip_Some.
    destruct (loaded_finds u g p r IH) as (x & Ex & Hx); [by right|by eapply short_rest|by eapply small_below|].
    exists x. split; [done|]. eapply found_sub; [| |done]; [by repeat constructor|by rewrite tget_Short, E].
  - destruct Hw as [|Hw]; [done|]. destruct p; [|by destruct Hw as (? & _ & ?)].
    apply wf_full_iff in Hw as [[Hl Hslots] _]. destruct k as [|b k]; [done|]. pose proof Hk as [Hb Hkey]%hexkey_cons.
    destruct (lookup_lt_is_Some_2 l (idx b)) as [u Hu]; [apply idx_lt in Hb; lia|].
    destruct (loaded_finds u g (slot b) k) as (x & Ex & Hx); [by apply (Forall_lookup_1 _ _ _ _ IH Hu)|by apply Hslots|done|by eapply small_child|].
    exists x. cbn [TrieCodec.load]. rewrite get_full, list_lookup_fmap, Hu, tpath_Full, Hu. split; [done|].
    eapply found_sub; [| |done]; [|by rewrite tget_Full, Hu].
    econstructor; [by eapply list_elem_of_lookup_2|constructor].
Qed.

(** One element of a proof. *)
Lemma verify_cons i t k buf rest : wf t -> small PNode t -> hexkey k -> (Hash_Bytes (Keccak256 buf) = thash t -> buf = tenc t) ->
  (Hash_Bytes (Keccak256 buf) <> thash t /\ verify Keccak256 i (thash t) k (buf :: rest) tt = Fail (errHashMismatch i) tt) \/
  (buf = tenc t /\ exists x, found t k (refs (tail (tpath t k))) x /\
    verify Keccak256 i (thash t) k (buf :: rest) tt =
      match snd x with
      | nilNode => match rest with [] => Ok [] tt | _ => Fail (errKeyMismatch i) tt end
      | hashNode h => verify Keccak256 (i + 1) h (fst x) rest tt
      | valueNode v => match rest with [] => Ok v tt | _ => Fail errAdditionalNodes tt end
      | _ => verify Keccak256 (i + 1) (thash t) k rest tt
      end).
Proof.
  intros Hw Hs Hk Hc. cbn [verify]. case_bool_decide as E; cbn [negb]; [right|by left]. specialize (Hc E). subst buf. split; [done|].
  pose proof (tenc_fits Keccak256 t Hw Hs) as Hf.
  pose proof (decodeNodeF_ok Keccak256 t (S (length (tenc t))) 0 Hw ltac:(lia) (Some (thash t)) []) as D.
  rewrite app_nil_r in D. specialize (D ltac:(lia)). unfold decodeNode. rewrite D.
  destruct (get_load t 0 (Some (thash t)) PNode k) as (x & Ex & Hx); [by right|done|done|]. exists x. split; [done|]. rewrite Ex.
  by destruct x as [r []].
Qed.

(** A proof that is accepted gives the value. *)
Lemma verify_sound proof : forall i t k v, wf t -> small PNode t -> hexkey k ->
  (forall buf u, buf ∈ proof -> sub u t -> isnode u = true -> Hash_Bytes (Keccak256 buf) = thash u -> buf = tenc u) ->
  verify Keccak256 i (thash t) k proof tt = Ok v tt -> v = default [] (tget t k).
Proof.
  induction proof as [|buf proof IH]; intros i t k v Hw Hs Hk Hc E; [done|].
  assert (isnode t = true) as Hn by by inversion Hw.
  destruct (verify_cons i t k buf proof Hw Hs Hk) as [[_ E']|(-> & x & Hx & E')].
  { apply Hc; [by left|constructor|done]. }
  - congruence.
  - rewrite E' in E. destruct Hx as [r Eg _|w Eg _|w r Hsub Hww Hsw Hb Hr Eg _]; cbn [fst snd] in E; rewrite Eg.
    + destruct proof; [|done]. by injection E.
    + destruct proof; [|done]. by injection E.
    + eapply IH; [done..| |exact E]. intros buf u Hin Hu. apply Hc; [by right|by eapply sub_trans].
Qed.

(** The proof of the tree is accepted. *)
Lemma verify_complete n : forall i t k, wf t -> small PNode t -> hexkey k -> (length (refs (tail (tpath t k))) <= n)%nat ->
  verify Keccak256 i (thash t) k (map tenc (t :: refs (tail (tpath t k)))) tt = Ok (default [] (tget t k)) tt.
Proof.
  induction n as [|n IH]; intros i t k Hw Hs Hk Hl; cbn [map];
    (destruct (verify_cons i t k (tenc t) (map tenc (refs (tail (tpath t k)))) Hw Hs Hk) as [[? _]|(_ & x & Hx & ->)]; [done|done|]);
    destruct Hx as [r -> E|w -> E|w r Hsub Hww Hsw Hb Hr -> E]; cbn [fst snd]; rewrite E in *; try done;
    (destruct (tpath_node w r) as [l El]; [by inversion Hww|]); rewrite El in *; unfold refs in Hl |- *;
    rewrite filter_cons_True in Hl |- * by done; cbn [length] in Hl; [lia|].
  specialize (IH (i + 1) w r Hww Hsw Hr). rewrite El in IH. apply IH. cbn [tail]. unfold refs. lia.
Qed.

(** * Prove *)

(** The nodes of the path, loaded, for the trees of the path: [r] says whether the
    first is the root. *)
Inductive on_path (d : store_t) : bool -> list node -> list tree -> Prop :=
| on_nil r : on_path d r [] []
| on_cons r n t ns ts : repr d r n t -> is_hash n = false -> wf t -> small PNode t -> on_path d false ns ts ->
    on_path d r (n :: ns) (t :: ts).

Lemma path_ok tr fuel : forall n t r p key, repr (tdb tr) r n t -> wfs p t -> keys p key -> small p t ->
  (need n key <= fuel)%nat ->
  exists ns, path fuel tr n key tt = Ok ns tt /\ on_path (tdb tr) r ns (tpath t key).
Proof.
  induction fuel as [|fuel IH]; intros n t r p key Hr Hw Hk Hs Hfuel; [unfold need in Hfuel; destruct (is_hash n); lia|].
  inversion Hr as [|? v|? s c u f Hc Hf|? ns ts f Hns Hf|? ? Hn Hb Hkept]; subst.
  - exists []. split; [by destruct key|constructor].
  - assert (key = []) as -> by (destruct Hw as [|Hw]; [done|]; destruct p; [by inversion Hw|done]).
    exists []. split; [done|constructor].
  - destruct Hw as [|Hw]; [done|]. destruct p; [|by destruct Hw as (? & _ & ?)]. destruct key as [|b0 key0]; [done|].
    cbn [path tpath]. rewrite short_test. remember (b0 :: key0) as key eqn:Hkey.
    destruct (strip s key) as [rest|] eqn:E; [|exists [shortNode s c f]; split; [done|by constructor; [..|constructor]]].
    pose proof E as E'%strip_Some. rewrite E' in *. rewrite drop_app_length.
    destruct (wf_short s u Hw) as (p & Hfu & _ & Hp & _).
    destruct (IH c u false p rest Hc) as (ns & En & Hon); [by right|by eapply short_rest|by eapply small_below| |].
    { apply wf_key_nonempty in Hw. unfold need in *. rewrite length_app in Hfuel. destruct s; [done|]. cbn [length] in Hfuel.
      cbn [is_hash] in Hfuel. destruct (is_hash c); lia. }
    rewrite (bind_Ok _ _ _ _ _ En). eexists. split; [done|]. by constructor.
  - destruct Hw as [|Hw]; [done|]. destruct p; [|by destruct Hw as (? & _ & ?)].
    pose proof (proj1 (proj1 (wf_full_iff ts) Hw)) as Hts. destruct key as [|b key]; [done|].
    pose proof Hk as [Hb Hkey]%hexkey_cons. destruct (child_repr _ tr r ns f ts b Hr Hts Hb) as (c & u & Hcn & Hu & Hcu & Hwu).
    cbn [path]. rewrite (bind_must _ c _ _ Hcn), tpath_Full, Hu.
    destruct (IH c u false (slot b) key Hcu Hwu Hkey) as (ns' & En & Hon); [by eapply small_child| |].
    { unfold need in *. cbn [length is_hash] in Hfuel. destruct (is_hash c); lia. }
    rewrite (bind_Ok _ _ _ _ _ En). eexists. split; [done|]. by constructor.
  - assert (p = PNode /\ wf t) as [-> Hwf].
    { destruct Hw as [->|Hw]; [done|]. destruct p; [done|]. by destruct Hw as (v & _ & ->). }
    destruct key as [|b0 key0]; [done|]. cbn [path].
    destruct (resolveHash_ok _ tr r _ t [] Hr Hwf Hs) as (n & E & Hn' & Hh). rewrite (bind_Ok _ _ _ _ _ E).
    apply (IH n t r PNode (b0 :: key0) Hn' Hw Hk Hs). unfold need in *. rewrite Hh. cbn [is_hash] in *. lia.
Qed.

(** The collapsed node of a proof element. *)
Lemma collapse_ok d r n t : repr d r n t -> is_hash n = false -> wf t -> small PNode t ->
  exists c m, hashChildren (hash Keccak256 0 0 false false) n d = Ok (c, m) d /\ encodeNode c = Some (tenc t) /\
    store Keccak256 false c false d = Ok (if bool_decide (big t) then hashNode (thash t) else c) d /\ is_hash c = false.
Proof.
  intros Hr Hh Hw Hs.
  assert (exists c m d1, hashChildren (hash Keccak256 0 0 false false) n d = Ok (c, m) d1 /\ d1 = d /\ coll Keccak256 c t /\
    repr d r m t /\ cache c = cache m) as (c & m & ? & E & -> & Hc & Hm & Ec).
  { assert (may_commit Keccak256 false ∅ r d t) as Hmc by done.
    inversion Hr as [| |? s k u f|? ns ts f|]; subst; try done; try (by inversion Hw).
    - destruct (hashShort_ok Keccak256 0 0 false ∅ d r s k f u Hw Hr Hmc) as (c & m & d1 & E & _ & _ & Hd & _ & Hc & Hm & _ & Ec).
      { intros Hu. apply hash_ok; [done|]. destruct (wf_short s u Hw) as (p & Hf & _ & Hp & Hpp).
        destruct p; [by eapply small_below|]. destruct Hpp as [_ [v ->]]. inversion Hu. }
      specialize (Hd eq_refl). subst d1. by exists c, m, d.
    - destruct (hashFull_ok Keccak256 0 0 false ∅ d r ns f ts Hw Hs Hr Hmc) as (c & m & d1 & E & _ & _ & Hd & _ & Hc & Hm & _ & Ec).
      { apply Forall_true. intros u Hu Hsu. by apply hash_ok. }
      specialize (Hd eq_refl). subst d1. by exists c, m, d. }
  assert (is_hash c = false) as Hch by by inversion Hc.
  exists c, m. split; [done|]. split; [by apply encode_coll|]. split; [|done].
  rewrite (store_ok Keccak256 false false c t d Hw Hs Hc Hch); [done|].
  intros h dr. rewrite Ec. by apply (repr_cache _ _ _ _ _ _ _ Hm).
Qed.

Lemma proofOf_ok d r first ns ts : on_path d r ns ts ->
  proofOf Keccak256 d first ns = Some (map tenc (match ts with t :: ts' => if first then t :: refs ts' else refs ts | [] => [] end)).
Proof.
  intros Hon. revert first. induction Hon as [|r n t ns ts Hr Hh Hw Hs Hon IH]; intros first; [done|].
  destruct (collapse_ok d r n t Hr Hh Hw Hs) as (c & m & E & He & Est & Hc).
  cbn [proofOf]. rewrite E, Est, (IH false). cbn [mbind option_bind].
  assert (match ts with t :: ts' => refs ts | [] => [] end = refs ts) as -> by (by destruct ts).
  unfold refs. rewrite filter_cons. rewrite decide_bool_decide.
  case_bool_decide; cbn [mbind option_bind]; rewrite ?He; [by destruct first|].
  destruct c; try done; destruct first; cbn [mbind option_bind]; by rewrite ?He.
Qed.

Theorem Prove_ok tr m key : holds Keccak256 tr m ->
  Prove Keccak256 tr key = Some (map tenc (match tpath (tree_of m) (keybytesToHex key) with t :: ts => t :: refs ts | [] => [] end)).
Proof.
  intros [Hv Hr]. destruct (tree_of_ok m Hv) as [Hw _].
  destruct (path_ok tr (depth (keybytesToHex key)) (root tr) _ true PNode (keybytesToHex key) Hr Hw (keybytesToHex_hexkey key)
    (tree_of_small m Hv) (depth_enough _ _)) as (ns & E & Hon).
  unfold Prove. rewrite E. rewrite (proofOf_ok _ _ _ _ _ Hon). by destruct (tpath _ _).
Qed.

Lemma rootHash_thash m : m <> ∅ -> Hash_Bytes (rootHash Keccak256 m) = thash (tree_of m).
Proof. intros Hm. unfold rootHash. by rewrite bool_decide_eq_false_2. Qed.

(** A trie proves what it stores. *)
Theorem Prove_verifies tr m key : holds Keccak256 tr m -> m <> ∅ ->
  exists proof, Prove Keccak256 tr key = Some proof /\
    VerifyProof Keccak256 (rootHash Keccak256 m) key proof tt = Ok (default [] (m !! key)) tt.
Proof.
  intros Hh Hm. rewrite (Prove_ok tr m key Hh). eexists. split; [done|]. destruct Hh as [Hv _].
  pose proof (tree_of_wf m Hv Hm) as Hw. destruct (tpath_node (tree_of m) (keybytesToHex key)) as [l El]; [by inversion Hw|].
  unfold VerifyProof. rewrite rootHash_thash, El by done. rewrite <- (tree_of_get m key Hv).
  pose proof (verify_complete _ 0 (tree_of m) (keybytesToHex key) Hw (tree_of_small m Hv) (keybytesToHex_hexkey key) (le_n _)) as V.
  by rewrite El in V.
Qed.

(** What a proof shows is what the map has. *)
Definition no_forgery (proof : list (list byte)) (t : tree) : Prop :=
  Forall (fun buf => Forall (fun u => Hash_Bytes (Keccak256 buf) = thash u -> buf = tenc u) (nodes t)) proof.

Theorem VerifyProof_sound m key proof v : valid m -> m <> ∅ -> no_forgery proof (tree_of m) ->
  VerifyProof Keccak256 (rootHash Keccak256 m) key proof tt = Ok v tt -> v = default [] (m !! key).
Proof.
  intros Hv Hm Hf. unfold VerifyProof. rewrite rootHash_thash, <- (tree_of_get m key Hv) by done.
  apply verify_sound; [by apply tree_of_wf|by apply tree_of_small|apply keybytesToHex_hexkey|].
  intros buf u Hin Hu Hn. unfold no_forgery in Hf. rewrite list.Forall_forall in Hf. specialize (Hf buf Hin).
  rewrite list.Forall_forall in Hf. apply Hf. by apply sub_nodes.
Qed.
(** The root hash binds the entries. *)
Lemma rootHash_inj m1 m2 : valid m1 -> valid m2 -> root_ok Keccak256 m1 -> root_ok Keccak256 m2 -> apart Keccak256 (tree_of m1) (tree_of m2) -> rootHash Keccak256 m1 = rootHash Keccak256 m2 -> m1 = m2.
Proof.
  intros H1 H2 [_ R1] [_ R2] Ha E. destruct (decide (m1 = ∅)) as [->|N1]; [symmetry; apply R2; by rewrite <- E|].
  destruct (decide (m2 = ∅)) as [->|N2]; [by apply R1|].
  assert (tree_of m1 = tree_of m2) as Et.
  { apply (thash_inj Keccak256); try done; [by apply tree_of_wf..|by apply tree_of_small|by apply tree_of_small|]. by rewrite <- !rootHash_thash, E. }
  apply map_eq. intros k. by rewrite <- (tree_of_get m1), <- (tree_of_get m2), Et.
Qed.
End Proof.
