(* ===== verification/TrieSecure.v ===== *)
(** A secure trie as a map of the keys before hashing: trie/secure_trie.go.

    [U] is what the database ever holds.  A key is known when [U] has it under
    its hash, as SecureTrie.CommitTo stores it: two known keys have different
    hashes.  Over known keys a secure trie is a map, and GetKey gives the key of
    a hash back unless the trie is a copy whose keys are not yet committed. *)

From S2P Require Import Prelude BigMath Rlp RlpSpec RlpRaw Trie TrieTree TrieCodec TrieRefine TrieHash TrieMap.
Import Big Common MPT.

Section Secure.
Context (Keccak256 : list byte -> Hash) (U : store_t).
Abbreviation hashKey := (hashKey Keccak256).
Abbreviation holds := (holds Keccak256).
Abbreviation rootHash := (rootHash Keccak256).

Definition known (k : list byte) : Prop := U !! secKey (hashKey k) = Some k.
#[export] Instance known_dec k : Decision (known k).
Proof. unfold known. apply _. Defined.
Lemma known_inj k k' : known k -> known k' -> hashKey k = hashKey k' -> k = k'.
Proof. unfold known. intros H H' E. rewrite E in H. congruence. Qed.

(** The entries under their hashes. *)
Definition hashed (m hm : entries_t) : Prop :=
  forall h v, hm !! h = Some v <-> exists k, h = hashKey k /\ m !! k = Some v.

Definition hash_keys (m : entries_t) : entries_t :=
  list_to_map ((fun kv => (hashKey kv.1, kv.2)) <$> map_to_list m).
Lemma hashed_unique m hm hm' : hashed m hm -> hashed m hm' -> hm = hm'.
Proof. intros H H'. apply map_eq. intros h. apply option_eq. intros v. by rewrite (H h v), (H' h v). Qed.
Lemma hash_keys_ok m : map_Forall (fun k _ => known k) m -> hashed m (hash_keys m).
Proof.
  intros Hm h v. unfold hash_keys. rewrite <- elem_of_list_to_map.
  - rewrite list_elem_of_fmap. split.
    + intros ([k w] & [= -> ->] & Hk%elem_of_map_to_list). eauto.
    + intros (k & -> & Hk). exists (k, v). split; [done|]. by apply elem_of_map_to_list.
  - rewrite <- list_fmap_compose. apply list.NoDup_fmap_2_strong; [|apply NoDup_map_to_list].
    intros [k v1] [k' v2] Hk%elem_of_map_to_list Hk'%elem_of_map_to_list E. cbn in E.
    assert (k = k') as <- by (apply known_inj; [by eapply Hm|by eapply Hm|done]). congruence.
Qed.

Record secure_holds (st : SecureTrie) (m : entries_t) : Prop := {
  sh_known : map_Forall (fun k _ => known k) m;
  sh_trie : exists hm, hashed m hm /\ holds (strie st) hm;
  sh_cache : map_Forall (fun h k => h = hashKey k /\ known k) (secKeyCache st);
  sh_db : tdb (strie st) ⊆ U;
}.

Lemma sh_hash_keys st m : secure_holds st m -> holds (strie st) (hash_keys m).
Proof. intros [Hm (hm & Hhm & Ht) _ _]. by rewrite (hashed_unique m (hash_keys m) hm (hash_keys_ok m Hm) Hhm). Qed.

(** GetKey answers for the keys of the map. *)
Definition answers (st : SecureTrie) (m : entries_t) : Prop :=
  map_Forall (fun k _ => GetKey st (hashKey k) = k) m.

Lemma hashed_lookup (m hm : entries_t) k : map_Forall (fun k _ => known k) m -> hashed m hm -> known k -> hm !! hashKey k = m !! k.
Proof.
  intros Hm Hh Hk. apply option_eq. intros v. rewrite (Hh _ v). split; [|eauto]. intros (k' & E & Hk').
  assert (k = k') as -> by (apply known_inj; [done|by eapply Hm|done]). done.
Qed.
Lemma hashed_alter (m hm : entries_t) k o : map_Forall (fun k _ => known k) m -> hashed m hm -> known k ->
  hashed (partial_alter (fun _ => o) k m) (partial_alter (fun _ => o) (hashKey k) hm).
Proof.
  intros Hm Hh Hk h v. destruct (decide (h = hashKey k)) as [->|Hne].
  - rewrite lookup_partial_alter_eq. split.
    + intros ->. exists k. by rewrite lookup_partial_alter_eq.
    + intros (k' & E & Hk'). destruct (decide (k = k')) as [->|Hne]; [by rewrite lookup_partial_alter_eq in Hk'|].
      rewrite lookup_partial_alter_ne in Hk' by done. exfalso. apply Hne, known_inj; [done|by eapply Hm|done].
  - rewrite lookup_partial_alter_ne, (Hh h v) by done. split; intros (k' & -> & Hk'); exists k'; (split; [done|]);
      [rewrite lookup_partial_alter_ne by congruence|rewrite lookup_partial_alter_ne in Hk' by congruence]; done.
Qed.
Lemma known_alter (m : entries_t) k o : map_Forall (fun k _ => known k) m -> known k -> map_Forall (fun k _ => known k) (partial_alter (fun _ => o) k m).
Proof.
  intros Hm Hk k' v. destruct (decide (k = k')) as [->|Hne]; [done|]. rewrite lookup_partial_alter_ne by done. apply Hm.
Qed.

Lemma fits_hashKey k : fits_key (hashKey k).
Proof. unfold fits_key, MPT.hashKey. by rewrite len_Hash_Bytes. Qed.

Lemma cache_ok st m : secure_holds st m -> map_Forall (fun h k => h = hashKey k /\ known k) (getSecKeyCache st).
Proof. intros Hh. unfold getSecKeyCache. destruct (owned st); [apply Hh|by intros ???%lookup_empty_Some]. Qed.

Theorem SecureTryGet_ok st m k : secure_holds st m -> known k ->
  exists st', SecureTryGet Keccak256 st k tt = Ok (default [] (m !! k), st') tt /\ secure_holds st' m /\
    (forall h, GetKey st' h = GetKey st h).
Proof.
  intros [Hm (hm & Hhm & Ht) Hc Hd] Hk. unfold SecureTryGet.
  destruct (TryGet_ok _ _ _ (hashKey k) Ht) as (tr & E & Htr & Hdb). rewrite (bind_Ok _ _ _ _ _ E).
  rewrite (hashed_lookup m hm k Hm Hhm Hk). eexists. split; [done|]. split.
  - split; [done|by exists hm|done|]. cbn [strie]. by rewrite Hdb.
  - intros h. unfold GetKey, getSecKeyCache. cbn [strie secKeyCache owned]. by rewrite Hdb.
Qed.

(** What a change of one key leaves of the other keys. *)
Lemma GetKey_set (st : SecureTrie) (tr : Trie) (c : store_t) h : tdb tr = tdb (strie st) -> c !! h = getSecKeyCache st !! h ->
  GetKey (mkSecure tr c true) h = GetKey st h.
Proof. intros Hdb E. unfold GetKey at 1, getSecKeyCache at 1. cbn [owned secKeyCache strie]. by rewrite E, Hdb. Qed.

Theorem SecureTryUpdate_ok st m k v : secure_holds st m -> known k -> len v < 2 ^ 56 ->
  exists st', SecureTryUpdate Keccak256 k v st tt = Ok st' tt /\ secure_holds st' (updated k v m) /\
    (answers st m -> answers st' (updated k v m)).
Proof.
  intros Hh Hk Hv. pose proof Hh as [Hm (hm & Hhm & Ht) Hc Hd]. unfold SecureTryUpdate.
  destruct (TryUpdate_ok _ _ _ (hashKey k) v Ht (fits_hashKey k) Hv) as (tr & E & Htr & Hdb). rewrite (bind_Ok _ _ _ _ _ E).
  set (o := match v with [] => None | _ => Some v end).
  assert (updated k v m = partial_alter (fun _ => o) k m) as -> by (by destruct v).
  assert (updated (hashKey k) v hm = partial_alter (fun _ => o) (hashKey k) hm) as E' by (by destruct v). rewrite E' in Htr.
  eexists. split; [done|]. split_and!; [split|].
  - by apply known_alter.
  - exists (partial_alter (fun _ => o) (hashKey k) hm). split; [by apply hashed_alter|done].
  - cbn [secKeyCache]. apply map_Forall_insert_2; [done|]. by eapply cache_ok.
  - cbn [strie]. by rewrite Hdb.
  - intros Ha k' v' Hk'. destruct (decide (k = k')) as [<-|Hne].
    + unfold GetKey, getSecKeyCache. cbn [owned secKeyCache]. by rewrite lookup_insert, decide_True.
    + rewrite lookup_partial_alter_ne in Hk' by done.
      assert (hashKey k <> hashKey k') by (intros ?; apply Hne; apply known_inj; [done|by eapply Hm|done]).
      rewrite (GetKey_set st tr); [by eapply Ha|done|]. by rewrite lookup_insert_ne.
Qed.

Theorem SecureTryDelete_ok st m k : secure_holds st m -> known k ->
  exists st', SecureTryDelete Keccak256 k st tt = Ok st' tt /\ secure_holds st' (base.delete k m) /\
    (answers st m -> answers st' (base.delete k m)).
Proof.
  intros Hh Hk. pose proof Hh as [Hm (hm & Hhm & Ht) Hc Hd]. unfold SecureTryDelete.
  destruct (TryDelete_ok _ _ _ (hashKey k) Ht) as (tr & E & Htr & Hdb). rewrite (bind_Ok _ _ _ _ _ E).
  eexists. split; [done|]. split_and!; [split|].
  - by apply (known_alter m k None).
  - exists (base.delete (hashKey k) hm). split; [by apply (hashed_alter m hm k None)|done].
  - cbn [secKeyCache]. apply map_Forall_delete. by eapply cache_ok.
  - cbn [strie]. by rewrite Hdb.
  - intros Ha k' v' [Hne Hk']%lookup_delete_Some.
    assert (hashKey k <> hashKey k') by (intros ?; apply Hne; apply known_inj; [done|by eapply Hm|done]).
    rewrite (GetKey_set st tr); [by eapply Ha|done|]. by rewrite lookup_delete_ne.
Qed.

Theorem SecureHash_ok st m : secure_holds st m ->
  exists st', SecureHash Keccak256 st = Some (rootHash (hash_keys m), st') /\ secure_holds st' m /\ (forall h, GetKey st' h = GetKey st h).
Proof.
  intros Hh. pose proof (sh_hash_keys st m Hh) as Ht. destruct Hh as [Hm _ Hc Hd]. unfold SecureHash.
  destruct (Hash_ok _ _ _ Ht) as (tr & E & Htr & Hdb). rewrite E.
  cbn [mbind option_bind]. eexists. split; [done|]. split.
  - split; [done|exists (hash_keys m); split; [by apply hash_keys_ok|done]|done|]. cbn [strie]. by rewrite Hdb.
  - intros h. unfold GetKey, getSecKeyCache. cbn [strie secKeyCache owned]. by rewrite Hdb.
Qed.

(** The copy stores the same map; its own key cache is empty, so that it answers
    for the keys that are committed. *)
Theorem Copy_ok st m : secure_holds st m ->
  secure_holds (Copy st) m /\ (getSecKeyCache st = ∅ -> answers st m -> answers (Copy st) m).
Proof.
  intros [Hm Ht Hc Hd]. split; [done|]. intros He Ha k v Hk. rewrite <- (Ha k v Hk) at 2. unfold GetKey. by rewrite He.
Qed.

(** * Commit *)

Lemma secKey_inj h h' : secKey h = secKey h' -> h = h'.
Proof. unfold secKey. apply app_inv_head. Qed.

Lemma putKeys_lookup (c d : store_t) : (forall h k, c !! h = Some k -> putKeys c d !! secKey h = Some k) /\
  (forall x, (forall h k, c !! h = Some k -> x <> secKey h) -> putKeys c d !! x = d !! x).
Proof.
  unfold putKeys. revert c. apply (map_fold_weak_ind (fun r c => (forall h k, c !! h = Some k -> r !! secKey h = Some k) /\
    forall x, (forall h k, c !! h = Some k -> x <> secKey h) -> r !! x = d !! x)); [done|].
  intros h0 k0 c r Hc [H1 H2]. split.
  - intros h k [[<- <-]|[Hne Hk]]%lookup_insert_Some; [by rewrite lookup_insert, decide_True|].
    rewrite lookup_insert_ne; [by apply H1|]. by intros ?%secKey_inj.
  - intros x Hx. rewrite lookup_insert_ne.
    + apply H2. intros h k Hk. apply (Hx h k). rewrite lookup_insert_ne; [done|]. intros ->. congruence.
    + intros <-. apply (Hx h0 k0); [|done]. by rewrite lookup_insert, decide_True.
Qed.

Lemma putKeys_within (c d : store_t) : map_Forall (fun h k => h = hashKey k /\ known k) c -> d ⊆ U -> d ⊆ putKeys c d /\ putKeys c d ⊆ U.
Proof.
  intros Hc Hd. destruct (putKeys_lookup c d) as [H1 H2].
  assert (forall x, (exists h k, c !! h = Some k /\ x = secKey h /\ putKeys c d !! x = Some k /\ U !! x = Some k) \/ putKeys c d !! x = d !! x) as H.
  { intros x. destruct (decide (map_Exists (fun h _ => x = secKey h) c)) as [(h & k & Hk & ->)|Hn].
    - left. exists h, k. split_and!; [done|done|by apply H1|]. destruct (Hc h k Hk) as [-> ?]. done.
    - right. apply H2. intros h k Hk ->. apply Hn. by exists h, k. }
  split; apply map_subseteq_spec; intros x e Hx; destruct (H x) as [(h & k & _ & _ & E & EU)|E].
  - pose proof (lookup_weaken _ _ _ _ Hx Hd). congruence.
  - congruence.
  - congruence.
  - rewrite E in Hx. by eapply lookup_weaken.
Qed.

Theorem SecureCommit_ok st m : secure_holds st m -> consistent Keccak256 U true (tree_of (hash_keys m)) ->
  exists st', SecureCommit Keccak256 st = Some (rootHash (hash_keys m), st') /\ secure_holds st' m /\
    getSecKeyCache st' = ∅ /\ (answers st m -> answers st' m) /\
    (hash_keys m <> ∅ -> kept Keccak256 (tdb (strie st')) true (tree_of (hash_keys m))).
Proof.
  intros Hh Hcons. pose proof (sh_hash_keys st m Hh) as Ht. pose proof Hh as [Hm _ Hc Hd]. unfold SecureCommit.
  destruct (putKeys_within (getSecKeyCache st) (tdb (strie st)) (cache_ok st m Hh) Hd) as [Hgrow Hin].
  set (tr0 := mkTrie _ _ _ _ _).
  assert (holds tr0 (hash_keys m)) as Ht0 by (destruct Ht as [Hv Hr]; split; [done|]; by eapply repr_mono).
  destruct (Commit_ok _ U tr0 (hash_keys m) Ht0 Hcons Hin) as (tr & E & Htr & Hsub & HU & Hk). rewrite E. cbn [mbind option_bind].
  eexists. split; [done|]. split_and!; [split; [done|exists (hash_keys m); split; [by apply hash_keys_ok|done]|done|done]|done| |done].
  intros Ha k v Hkv. pose proof (Ha k v Hkv) as Hg. pose proof (Hm k v Hkv) as Hkk. unfold GetKey, getSecKeyCache in *.
  cbn [owned secKeyCache strie]. rewrite lookup_empty.
  destruct ((if owned st then secKeyCache st else ∅) !! hashKey k) as [k'|] eqn:Ek.
  - subst k'. pose proof (proj1 (putKeys_lookup (getSecKeyCache st) (tdb (strie st))) _ _ Ek) as Hp.
    by rewrite (lookup_weaken _ _ _ _ Hp Hsub).
  - destruct (tdb (strie st) !! secKey (hashKey k)) as [k'|] eqn:Ed; cbn [default] in Hg.
    + pose proof (lookup_weaken _ _ _ _ (lookup_weaken _ _ _ _ Ed Hgrow) Hsub) as Hd'. by rewrite Hd'.
    + subst k. destruct (tdb tr !! secKey (hashKey [])) eqn:Et; [|done].
      pose proof (lookup_weaken _ _ _ _ Et HU) as Hu. unfold known in Hkk. cbn. congruence.
Qed.

Theorem NewSecure_ok m d limit : map_Forall (fun k _ => known k) m -> valid (hash_keys m) -> root_ok Keccak256 (hash_keys m) -> d ⊆ U ->
  (hash_keys m <> ∅ -> kept Keccak256 d true (tree_of (hash_keys m))) ->
  exists st, NewSecure (rootHash (hash_keys m)) d limit tt = Ok st tt /\ secure_holds st m /\ tdb (strie st) = d /\
    getSecKeyCache st = ∅.
Proof.
  intros Hm Hv Hro Hd Hk. unfold NewSecure. destruct (New_ok _ _ d Hv Hro Hk) as (tr & E & Htr & Hdb).
  rewrite (bind_Ok _ _ _ _ _ E). eexists. split; [done|]. split_and!; [|done..].
  split; [done|exists (hash_keys m); split; [by apply hash_keys_ok|done]|done|]. cbn. by rewrite Hdb.
Qed.

Lemma answers_db st st' m : getSecKeyCache st = ∅ -> getSecKeyCache st' = ∅ -> tdb (strie st') = tdb (strie st) ->
  answers st m -> answers st' m.
Proof. intros E E' Ed Ha k v Hk. rewrite <- (Ha k v Hk) at 2. unfold GetKey. by rewrite E, E', Ed. Qed.
End Secure.
