(* ===== verification/Abi.v ===== *)
(** The contract ABI: accounts/abi/type.go, unpack.go, pack.go, argument.go and
    the method calls of abi.go.

    Go values that reflection builds and reads are the constructors of [value];
    an error of the package is [errAbi].  The reflection that copies decoded
    values to the fields of a struct by name is not modelled: a decoded tuple is
    the list of its values. *)

From S2P Require Import Prelude BigMath VmData.
Import Big GoMath Common.

Module Abi.

(** Type, with its element and size where it has one. *)
Inductive Ty :=
| IntTy (size : Z)
| UintTy (size : Z)
| BoolTy
| StringTy
| SliceTy (elem : Ty)
| ArrayTy (size : Z) (elem : Ty)
| AddressTy
| FixedBytesTy (size : Z)
| BytesTy
| HashTy
| FunctionTy.

#[local] Set Warnings "-register-all".
Inductive value :=
| VInt (n : Z)
| VBool (b : bool)
| VString (s : list byte)
| VBytes (s : list byte)
| VAddress (a : Address)
| VHash (h : Hash)
| VFixed (s : list byte)
| VList (l : list value).

Abbreviation R := (ST unit vmerror).

(** reflectIntKindAndType: 8, 16, 32 and 64 bits have a machine type. *)
Definition machine (size : Z) : bool := bool_decide (size ∈ [8; 16; 32; 64]).

(** * Decoding *)

Definition maxInt256 : Z := 2 ^ 255 - 1.
Definition maxUint256 : Z := 2 ^ 256 - 1.

(** The low bytes of a word as a number of a machine type, or the word. *)
Definition readInteger (signed : bool) (size : Z) (b : list byte) : R value :=
  if machine size then
    low ← must (slice b (len b - size / 8) (len b));
    let n := be_val low in
    mret (VInt (if signed && (2 ^ (size - 1) <=? n) then n - 2 ^ size else n))
  else
    let ret := SetBytes b in
    mret (VInt (if negb signed then ret
                else if ret >? maxInt256 then - (maxUint256 + - ret + 1) else ret)).

Definition readBool (word : list byte) : R value :=
  head31 ← must (slice word 0 31);
  if negb (forallb (fun b => bool_decide (b = x00)) head31) then throw errAbi
  else
    b ← must (index word 31);
    if bool_decide (b = x00) then mret (VBool false)
    else if bool_decide (b = x01) then mret (VBool true)
    else throw errAbi.

Definition readFunctionType (word : list byte) : R value :=
  tail ← must (slice word 24 32);
  if negb (be_val tail =? 0) then throw errAbi
  else f ← must (slice word 0 24); mret (VFixed f).

Definition readFixedBytes (size : Z) (word : list byte) : R value :=
  b ← must (slice word 0 size); mret (VFixed b).

Definition requiresLengthPrefix (t : Ty) : bool :=
  match t with StringTy | BytesTy | SliceTy _ => true | _ => false end.

Fixpoint getFullElemSize (elem : Ty) : Z :=
  match elem with ArrayTy size e => size * getFullElemSize e | _ => 32 end.

(** Start and length of the data an offset word points to. *)
Definition lengthPrefixPointsTo (index : Z) (output : list byte) : R (Z * Z) :=
  w ← must (slice output index (index + 32));
  let bigOffsetEnd := SetBytes w + 32 in
  let outputLength := len output in
  if bigOffsetEnd >? outputLength then throw errAbi
  else if BitLen bigOffsetEnd >? 63 then throw errAbi
  else
    let offsetEnd := Uint64 bigOffsetEnd in
    lw ← must (slice output (offsetEnd - 32) offsetEnd);
    let lengthBig := SetBytes lw in
    let totalSize := bigOffsetEnd + lengthBig in
    if BitLen totalSize >? 63 then throw errAbi
    else if totalSize >? outputLength then throw errAbi
    else mret (Uint64 bigOffsetEnd, Uint64 lengthBig).

(** The cases of toGoType for the types that take one word. *)
Definition readWord (t : Ty) (w : list byte) : R value :=
  match t with
  | IntTy size => readInteger true size w
  | UintTy size => readInteger false size w
  | BoolTy => readBool w
  | AddressTy => mret (VAddress (BytesToAddress w))
  | HashTy => mret (VHash (BytesToHash w))
  | FixedBytesTy size => readFixedBytes size w
  | FunctionTy => readFunctionType w
  | _ => throw errAbi
  end.

(** The loop of forEachUnpack: [n] elements from position [i] on. *)
Fixpoint readElems (get : Z -> R value) (elemSize : Z) (n : nat) (i : Z) : R (list value) :=
  match n with
  | O => mret []
  | S n => v ← get i; vs ← readElems get elemSize n (i + elemSize); mret (v :: vs)
  end.

(** [get] reads the element at a position: toGoType of the element type. *)
Definition forEachUnpack (elem : Ty) (get : Z -> R value) (output : list byte) (start size : Z)
    : R value :=
  if size <? 0 then throw errAbi
  else if start + 32 * size >? len output then throw errAbi
  else l ← readElems get (getFullElemSize elem) (Z.to_nat size) start; mret (VList l).

Fixpoint toGoType (index : Z) (t : Ty) (output : list byte) {struct t} : R value :=
  if index + 32 >? len output then throw errAbi
  else
    match t with
    | SliceTy elem =>
        '(begin, end_) ← lengthPrefixPointsTo index output;
        forEachUnpack elem (fun i => toGoType i elem output) output begin end_
    | ArrayTy size elem =>
        forEachUnpack elem (fun i => toGoType i elem output) output index size
    | StringTy =>
        '(begin, end_) ← lengthPrefixPointsTo index output;
        s ← must (slice output begin (begin + end_)); mret (VString s)
    | BytesTy =>
        '(begin, end_) ← lengthPrefixPointsTo index output;
        s ← must (slice output begin (begin + end_)); mret (VBytes s)
    | _ =>
        w ← must (slice output index (index + 32));
        readWord t w
    end.

(** getArraySize: the number of words of a static array. *)
Fixpoint nestedSize (elem : Ty) : Z :=
  match elem with ArrayTy size e => size * nestedSize e | _ => 1 end.
Definition virtualWords (t : Ty) : Z :=
  match t with ArrayTy size e => size * nestedSize e - 1 | _ => 0 end.

(** Arguments.UnpackValues from argument number [index], after [virtualArgs]
    additional words of arrays. *)
Fixpoint unpackFrom (index virtualArgs : Z) (args : list Ty) (data : list byte) : R (list value) :=
  match args with
  | [] => mret []
  | t :: args =>
      v ← toGoType ((index + virtualArgs) * 32) t data;
      vs ← unpackFrom (index + 1) (virtualArgs + virtualWords t) args data;
      mret (v :: vs)
  end.
Definition UnpackValues (args : list Ty) (data : list byte) : R (list value) := unpackFrom 0 0 args data.

(** ABI.Unpack of a method with outputs [args], and ABI.UnpackTmp, which accepts
    any length. *)
Definition Unpack (args : list Ty) (output : list byte) : R (list value) :=
  if len output =? 0 then throw errAbi
  else if negb (len output mod 32 =? 0) then throw errAbi
  else UnpackValues args output.
Definition UnpackTmp (args : list Ty) (output : list byte) : R (list value) :=
  if len output =? 0 then throw errAbi else UnpackValues args output.

(** ABI.UnpackInput of a method with inputs [args]. *)
Definition UnpackInput (args : list Ty) (output : list byte) : R (list value) :=
  if len output =? 0 then throw errAbi
  else if negb (len output mod 32 =? 0) then throw errAbi
  else UnpackValues args output.

(** * Encoding *)

(** packNum: numbers.go's U256. *)
Definition packNum (n : Z) : list byte := PaddedBigBytes (U256 n) 32.

Definition packBytesSlice (bytes : list byte) (l : Z) : list byte :=
  packNum l ++ RightPadBytes bytes ((l + 31) / 32 * 32).

Definition isArray (t : Ty) : bool := match t with ArrayTy _ _ => true | _ => false end.

Fixpoint isDynamicType (t : Ty) : bool :=
  match t with
  | StringTy | BytesTy | SliceTy _ => true
  | ArrayTy _ e => isDynamicType e
  | _ => false
  end.

Definition getDynamicTypeOffset (t : Ty) : Z :=
  match t with
  | ArrayTy size e => if negb (isDynamicType e) then 32 * size else 32
  | _ => 32
  end.

(** Values of the wrong type are refused by typeCheck. *)
Definition packElement (t : Ty) (v : value) : option (list byte) :=
  match t, v with
  | (IntTy _ | UintTy _), VInt n => Some (packNum n)
  | StringTy, VString s => Some (packBytesSlice s (len s))
  | AddressTy, VAddress a => Some (LeftPadBytes (Address_Bytes a) 32)
  | BoolTy, VBool b => Some (PaddedBigBytes (if b then 1 else 0) 32)
  | BytesTy, VBytes s => Some (packBytesSlice s (len s))
  | FixedBytesTy size, VFixed s => if len s =? size then Some (RightPadBytes s 32) else None
  | FunctionTy, VFixed s => if len s =? 24 then Some (RightPadBytes s 32) else None
  | _, _ => None
  end.

(** The elements of a slice or array: heads and tails. *)
Fixpoint packElems (pack : value -> option (list byte)) (offsetReq : bool) (offset : Z)
    (l : list value) : option (list byte * list byte) :=
  match l with
  | [] => Some ([], [])
  | v :: l =>
      val ← pack v;
      if negb offsetReq then
        '(ret, tail) ← packElems pack offsetReq offset l; Some (val ++ ret, tail)
      else
        '(ret, tail) ← packElems pack offsetReq (offset + len val) l;
        Some (packNum offset ++ ret, val ++ tail)
  end.

Fixpoint pack (t : Ty) (v : value) {struct t} : option (list byte) :=
  match t with
  | SliceTy elem =>
      match v with
      | VList l =>
          let offset := if isDynamicType elem then getDynamicTypeOffset elem * len l else 0 in
          '(ret, tail) ← packElems (pack elem) (isDynamicType elem) offset l;
          Some (packNum (len l) ++ ret ++ tail)
      | _ => None
      end
  | ArrayTy size elem =>
      match v with
      | VList l =>
          if negb (len l =? size) then None
          else
            let offset := if isDynamicType elem then getDynamicTypeOffset elem * len l else 0 in
            '(ret, tail) ← packElems (pack elem) (isDynamicType elem) offset l;
            Some (ret ++ tail)
      | _ => None
      end
  | _ => packElement t v
  end.

(** The loop of Arguments.Pack: heads and variable input from an offset on. *)
Fixpoint packArgs (inputOffset : Z) (args : list Ty) (vs : list value)
    : option (list byte * list byte) :=
  match args, vs with
  | [], [] => Some ([], [])
  | t :: args, v :: vs =>
      packed ← pack t v;
      if isDynamicType t then
        '(ret, var) ← packArgs (inputOffset + len packed) args vs;
        Some (packNum inputOffset ++ ret, packed ++ var)
      else
        '(ret, var) ← packArgs inputOffset args vs;
        Some (packed ++ ret, var)
  | _, _ => None
  end.
Definition headSize (args : list Ty) : Z := foldr (fun t n => getDynamicTypeOffset t + n) 0 args.
Definition Pack (args : list Ty) (vs : list value) : option (list byte) :=
  '(ret, var) ← packArgs (headSize args) args vs; Some (ret ++ var).
End Abi.
