(* ===== verification/AbiSafety.v ===== *)
(** Decoding the arguments of the native contracts does not panic, and yields
    values of the types. *)

From S2P Require Import Prelude BigMath VmData Abi.
Import Big Common Abi.

Lemma prefix_total index output (Q : Z * Z -> unit -> Prop) :
  0 <= index -> index + 32 <= len output ->
  (forall b e, 0 <= b -> 0 <= e -> b + e <= len output -> Q (b, e) tt) ->
  wp (lengthPrefixPointsTo index output) Q (fun _ _ => True) tt.
Proof.
  intros Hi Hl HQ. unfold lengthPrefixPointsTo.
  apply wp_bind. eapply wp_must; [apply slice_Some; lia|]. set (w := take _ _).
  pose proof (be_val_bound w) as [Hw _]. fold (SetBytes w) in Hw.
  destruct (Z.gtb_spec (SetBytes w + 32) (len output)); [by apply wp_throw|].
  destruct (Z.gtb_spec (BitLen (SetBytes w + 32)) 63) as [|Hb]; [by apply wp_throw|].
  apply BitLen_le in Hb; [|lia]. rewrite Uint64_small by lia.
  apply wp_bind. eapply wp_must; [apply slice_Some; lia|]. set (l := take _ _).
  pose proof (be_val_bound l) as [Hlw _]. fold (SetBytes l) in Hlw.
  destruct (Z.gtb_spec (BitLen (SetBytes w + 32 + SetBytes l)) 63) as [|Hb']; [by apply wp_throw|].
  apply BitLen_le in Hb'; [|lia].
  destruct (Z.gtb_spec (SetBytes w + 32 + SetBytes l) (len output)); [by apply wp_throw|].
  apply wp_ret. rewrite Uint64_small by lia. apply HQ; lia.
Qed.

Lemma string_total index output :
  0 <= index ->
  wp (toGoType index StringTy output) (fun v _ => exists s, v = VString s) (fun _ _ => True) tt.
Proof.
  intros Hi. cbn [toGoType]. destruct (Z.gtb_spec (index + 32) (len output)); [by apply wp_throw|].
  apply wp_bind, prefix_total; [done|lia|]. intros b e Hb He Hle.
  apply wp_bind. eapply wp_must; [apply slice_Some; lia|]. apply wp_ret. eauto.
Qed.

Lemma bytes_total index output :
  0 <= index ->
  wp (toGoType index BytesTy output) (fun v _ => exists s, v = VBytes s /\ len s <= len output)
    (fun _ _ => True) tt.
Proof.
  intros Hi. cbn [toGoType]. destruct (Z.gtb_spec (index + 32) (len output)); [by apply wp_throw|].
  apply wp_bind, prefix_total; [done|lia|]. intros b e Hb He Hle.
  apply wp_bind. eapply wp_must; [apply slice_Some; lia|]. apply wp_ret. eexists. split; [done|].
  unfold len. rewrite length_take, length_drop. lia.
Qed.

Lemma uint256_total index output :
  0 <= index ->
  wp (toGoType index (UintTy 256) output) (fun v _ => exists n, v = VInt n /\ 0 <= n) (fun _ _ => True) tt.
Proof.
  intros Hi. cbn [toGoType]. destruct (Z.gtb_spec (index + 32) (len output)); [by apply wp_throw|].
  apply wp_bind. eapply wp_must; [apply slice_Some; lia|]. apply wp_ret. eexists. split; [done|].
  apply be_val_bound.
Qed.

Lemma word_total t index output (P : value -> Prop) :
  0 <= index -> (forall i out, toGoType i t out = if i + 32 >? len out then throw errAbi
                                         else w ← must (slice out i (i + 32)); readWord t w) ->
  (forall w, len w = 32 -> wp (readWord t w) (fun v _ => P v) (fun _ _ => True) tt) ->
  wp (toGoType index t output) (fun v _ => P v) (fun _ _ => True) tt.
Proof.
  intros Hi Ht HP. rewrite Ht. destruct (Z.gtb_spec (index + 32) (len output)); [by apply wp_throw|].
  apply wp_bind. eapply wp_must; [apply slice_Some; lia|]. apply HP. unfold len in *. rewrite length_take, length_drop. lia.
Qed.

Lemma address_total index output :
  0 <= index ->
  wp (toGoType index AddressTy output) (fun v _ => exists a, v = VAddress a) (fun _ _ => True) tt.
Proof. intros Hi. apply word_total; [done|done|]. intros w _. apply wp_ret. eauto. Qed.

Lemma bool_total index output :
  0 <= index -> wp (toGoType index BoolTy output) (fun v _ => exists b, v = VBool b) (fun _ _ => True) tt.
Proof.
  intros Hi. apply word_total; [done|done|]. intros w Hw. cbn [readWord]. unfold readBool.
  apply wp_bind. eapply wp_must; [apply slice_Some; lia|]. case_match; [by apply wp_throw|].
  destruct (index_Some w 31) as [b Hb]; [lia|]. apply wp_bind. eapply wp_must; [exact Hb|].
  repeat case_bool_decide; [apply wp_ret; eauto|apply wp_ret; eauto|by apply wp_throw].
Qed.

(** ** Argument lists *)

(** The values of the types the contracts use, with the bytes within a bound. *)
Definition shape (bound : Z) (t : Ty) (v : value) : Prop :=
  match t, v with
  | StringTy, VString _ => True
  | BytesTy, VBytes s => len s <= bound
  | UintTy n, VInt x => n = 256 /\ 0 <= x
  | AddressTy, VAddress _ => True
  | BoolTy, VBool _ => True
  | _, _ => False
  end.
Definition simple (t : Ty) : bool :=
  match t with StringTy | BytesTy | AddressTy | BoolTy => true | UintTy n => n =? 256 | _ => false end.

Lemma simple_total t index output :
  simple t = true -> 0 <= index ->
  wp (toGoType index t output) (fun v _ => shape (len output) t v) (fun _ _ => True) tt.
Proof.
  intros Ht Hi. destruct t; try done.
  - cbn in Ht. apply Z.eqb_eq in Ht as ->.
    eapply wp_mono; [by apply uint256_total| |done]. by intros v [] (n & -> & Hn).
  - eapply wp_mono; [by apply bool_total| |done]. by intros v [] [b ->].
  - eapply wp_mono; [by apply string_total| |done]. by intros v [] [s ->].
  - eapply wp_mono; [by apply address_total| |done]. by intros v [] [a ->].
  - eapply wp_mono; [by apply bytes_total| |done]. by intros v [] (s & -> & Hs).
Qed.

Lemma unpackFrom_total args index output :
  forallb simple args = true -> 0 <= index ->
  wp (unpackFrom index 0 args output) (fun vs _ => Forall2 (shape (len output)) args vs) (fun _ _ => True) tt.
Proof.
  revert index. induction args as [|t args IH]; intros index Ha Hi; [by apply wp_ret|].
  cbn [forallb] in Ha. apply andb_true_iff in Ha as [Ht Ha]. cbn [unpackFrom]. apply wp_bind.
  eapply wp_mono; [apply simple_total; [done|lia]| |done]. intros v [] Hv.
  assert (virtualWords t = 0) as -> by by destruct t. change (0 + 0) with 0. apply wp_bind.
  eapply wp_mono; [apply IH; [done|lia]| |done]. intros vs [] Hvs. apply wp_ret. by constructor.
Qed.

Lemma values_total args output :
  forallb simple args = true ->
  wp (UnpackValues args output) (fun vs _ => Forall2 (shape (len output)) args vs) (fun _ _ => True) tt.
Proof. intros Ha. by apply unpackFrom_total. Qed.

Lemma input_total args output :
  forallb simple args = true ->
  wp (UnpackInput args output) (fun vs _ => Forall2 (shape (len output)) args vs) (fun _ _ => True) tt.
Proof. intros Ha. unfold UnpackInput. repeat (case_match; [by apply wp_throw|]). by apply values_total. Qed.

(** Take a list of values of given types apart. *)
Ltac open_shapes :=
  repeat match goal with
  | H : Forall2 (shape _) (_ :: _) ?l |- _ =>
      let v := fresh "v" in let Hv := fresh "Hv" in
      apply Forall2_cons_inv_l in H; destruct H as (v & ? & Hv & H & ->); destruct v; try done;
      cbn [shape] in Hv; lazymatch type of Hv with _ /\ _ => destruct Hv as [_ Hv] | _ => idtac end
  | H : Forall2 (shape _) [] ?l |- _ => apply Forall2_nil_inv_l in H; subst
  end.

Lemma args_total payload :
  wp (UnpackValues [StringTy; UintTy 256] payload)
    (fun l _ => exists s n, l = [VString s; VInt n] /\ 0 <= n) (fun _ _ => True) tt.
Proof. eapply wp_mono; [by apply values_total| |done]. intros l [] H. open_shapes. eauto. Qed.

Lemma Unpack_total payload :
  wp (Unpack [StringTy; UintTy 256] payload)
    (fun l _ => exists s n, l = [VString s; VInt n] /\ 0 <= n) (fun _ _ => True) tt.
Proof. unfold Unpack. repeat (case_match; [by apply wp_throw|]). apply args_total. Qed.

Lemma combine_total payload :
  wp (Unpack [StringTy; BytesTy] payload)
    (fun l _ => exists s p, l = [VString s; VBytes p] /\ len p <= len payload) (fun _ _ => True) tt.
Proof.
  unfold Unpack. repeat (case_match; [by apply wp_throw|]).
  eapply wp_mono; [by apply values_total| |done]. intros l [] Hl. open_shapes. eauto.
Qed.

Lemma UnpackTmp_total payload :
  wp (UnpackTmp [StringTy; UintTy 256] payload)
    (fun l _ => exists s n, l = [VString s; VInt n] /\ 0 <= n) (fun _ _ => True) tt.
Proof. unfold UnpackTmp. case_match; [by apply wp_throw|]. apply args_total. Qed.
