(* ===== verification/CodecTheorems.v ===== *)
(** Correctness of the encodings: hexadecimal text (common/hexutil), public keys
    (crypto/crypto.go) and the contract ABI (accounts/abi). *)

From S2P Require Import Prelude BigMath VmData Encoding Abi.
Import Big GoMath Common.

Module AbiSpec.
Import Abi.

(** Values a type can hold.  Slices and arrays hold elements of static types. *)
Fixpoint typed (t : Ty) (v : value) {struct t} : Prop :=
  match t, v with
  | IntTy size, VInt n =>
      if machine size then - 2 ^ (size - 1) <= n < 2 ^ (size - 1) else - 2 ^ 255 <= n < 2 ^ 255
  | UintTy size, VInt n => if machine size then 0 <= n < 2 ^ size else 0 <= n < 2 ^ 256
  | BoolTy, VBool _ => True
  | StringTy, VString s | BytesTy, VBytes s => True
  | AddressTy, VAddress _ => True
  | FixedBytesTy size, VFixed s => len s = size /\ size <= 32
  | FunctionTy, VFixed s => len s = 24
  | SliceTy e, VList l => isDynamicType e = false /\ Forall (typed e) l
  | ArrayTy size e, VList l => 0 < size /\ len l = size /\ isDynamicType e = false /\ Forall (typed e) l
  | _, _ => False
  end.

Lemma packNum_len n : len (packNum n) = 32.
Proof.
  unfold packNum. pose proof (U256_range n). change 32 with (Z.of_nat 32).
  rewrite PaddedBigBytes_pad by (rewrite Z.abs_eq; lia). unfold len. by rewrite length_be_bytes.
Qed.

Lemma packNum_val n : SetBytes (packNum n) = n mod 2 ^ 256.
Proof. unfold packNum. rewrite PaddedBigBytes_val by (pose proof (U256_range n); lia). apply U256_mod. Qed.

Lemma machine_size size : machine size = true -> size = 8 \/ size = 16 \/ size = 32 \/ size = 64.
Proof. unfold machine. rewrite bool_decide_eq_true, !elem_of_cons, elem_of_nil. naive_solver. Qed.

(** The low bytes of a packed number. *)
Lemma low_bytes n k :
  0 <= k <= 32 ->
  exists low, slice (packNum n) (32 - k) 32 = Some low /\ be_val low = n mod 2 ^ (8 * k).
Proof.
  intros Hk. pose proof (packNum_len n) as Hl. eexists. split; [apply slice_Some; lia|].
  rewrite take_ge by (rewrite length_drop; unfold len in Hl; lia).
  rewrite be_val_drop. pose proof (packNum_val n) as Hv. unfold SetBytes in Hv. rewrite Hv.
  assert (len (drop (Z.to_nat (32 - k)) (packNum n)) = k) as ->.
  { unfold len in *. rewrite length_drop. lia. }
  change 256 with (2 ^ 8). rewrite <- !Z.pow_mul_r by lia.
  apply Z.mod_mod_divide. exists (2 ^ (8 * (32 - k))). rewrite <- Z.pow_add_r by lia. f_equal. lia.
Qed.

(** Two's complement. *)
Lemma twos_complement n s :
  0 < s -> - 2 ^ (s - 1) <= n < 2 ^ (s - 1) ->
  (if 2 ^ (s - 1) <=? n mod 2 ^ s then n mod 2 ^ s - 2 ^ s else n mod 2 ^ s) = n.
Proof.
  intros Hs Hn. assert (2 ^ s = 2 * 2 ^ (s - 1)) as Hp.
  { rewrite <- Z.pow_succ_r by lia. f_equal. lia. }
  destruct (Z.le_gt_cases 0 n).
  - rewrite Z.mod_small by lia. by destruct (Z.leb_spec (2 ^ (s - 1)) n); [lia|].
  - rewrite <- (Z.mod_add _ 1), Z.mod_small by lia.
    destruct (Z.leb_spec (2 ^ (s - 1)) (n + 1 * 2 ^ s)); lia.
Qed.

Lemma readInteger_ok signed size n u :
  typed (if signed : bool then IntTy size else UintTy size) (VInt n) ->
  readInteger signed size (packNum n) u = Ok (VInt n) u.
Proof.
  intros Ht. unfold readInteger. rewrite packNum_len. destruct (machine size) eqn:Hm.
  - apply machine_size in Hm as Hsz.
    destruct (low_bytes n (size / 8)) as (low & Hs & Hv); [zlia|].
    rewrite (bind_must _ _ _ _ Hs), Hv. unfold mret, ST_ret. do 2 f_equal. replace (8 * (size / 8)) with size by zlia.
    destruct signed; cbn [typed andb] in *; rewrite Hm in Ht.
    + apply twos_complement; lia.
    + apply Z.mod_small. lia.
  - unfold mret, ST_ret. do 2 f_equal. rewrite packNum_val. unfold maxInt256, maxUint256.
    destruct signed; cbn [typed negb] in *; rewrite Hm in Ht; [|by apply Z.mod_small].
    pose proof (twos_complement n 256 ltac:(lia) Ht) as Htc. change (256 - 1) with 255 in Htc.
    destruct (Z.leb_spec (2 ^ 255) (n mod 2 ^ 256)); destruct (Z.gtb_spec (n mod 2 ^ 256) (2 ^ 255 - 1)); lia.
Qed.

Lemma readBool_ok (b : bool) u :
  readBool (PaddedBigBytes (if b then 1 else 0) 32) u = Ok (VBool b) u.
Proof. destruct b; by vm_compute. Qed.

Lemma LeftPad_address a :
  LeftPadBytes (Address_Bytes a) 32 = replicate 12 x00 ++ be_bytes 20 (bits_val a).
Proof. unfold LeftPadBytes, Address_Bytes. by rewrite len_be_bytes. Qed.

Lemma slice_RightPad s n : len s <= n -> slice (RightPadBytes s n) 0 (len s) = Some s.
Proof.
  intros Hs. unfold RightPadBytes. destruct (Z.leb_spec n (len s)).
  - rewrite <- (app_nil_r s) at 1. by apply (slice_app []).
  - by apply (slice_app []).
Qed.

(** Static values that are not arrays take one word. *)
Lemma word_ok t v :
  typed t v -> isDynamicType t = false -> isArray t = false ->
  exists p, pack t v = Some p /\ len p = 32 /\ readWord t p tt = Ok v tt.
Proof.
  intros Ht Hd Ha. destruct t as [size|size| | | | | |size| | |], v; try done; cbn [pack packElement readWord];
    cbn [typed] in Ht.
  - eexists. split_and!; [done|apply packNum_len|by apply (readInteger_ok true)].
  - eexists. split_and!; [done|apply packNum_len|by apply (readInteger_ok false)].
  - eexists. split_and!; [done|by destruct b; vm_compute|apply readBool_ok].
  - eexists. split_and!; [done|..].
    + by rewrite LeftPad_address, len_app, len_replicate, len_be_bytes.
    + unfold mret, ST_ret. do 2 f_equal. rewrite LeftPad_address. unfold BytesToAddress.
      rewrite bits_of_be_crop, be_val_app, be_val_zeros, be_val_be_bytes, Z.mod_small by
        (done || apply (bits_bound a)). apply bits_of_val.
  - destruct Ht as [<- Hs]. rewrite Z.eqb_refl. eexists. split_and!; [done|..].
    + rewrite RightPadBytes_len. lia.
    + unfold readFixedBytes. rewrite (bind_must _ s); [done|]. by apply slice_RightPad.
  - rewrite (proj2 (Z.eqb_eq _ _) Ht). eexists. split_and!; [done|..].
    + rewrite RightPadBytes_len. lia.
    + unfold readFunctionType, RightPadBytes. rewrite Ht.
      change (32 <=? 24) with false. change (Z.to_nat (32 - 24)) with 8%nat. cbn match.
      rewrite (bind_must _ (replicate 8 x00)).
      2: { rewrite <- (app_nil_r (replicate 8 x00)) at 1. apply slice_app; [lia|]. by rewrite Ht, len_replicate. }
      rewrite be_val_zeros. cbn [negb Z.eqb]. rewrite (bind_must _ s); [done|].
      apply (slice_app []); [done|rewrite len_nil; lia].
Qed.

(** A static value can be read where its encoding stands. *)
Definition reads (t : Ty) (v : value) (p : list byte) : Prop :=
  forall output index, slice output index (index + len p) = Some p -> toGoType index t output tt = Ok v tt.

Lemma word_reads t v p :
  isDynamicType t = false -> isArray t = false -> len p = 32 -> readWord t p tt = Ok v tt -> reads t v p.
Proof.
  intros Hd Ha Hl Hr output index Hs. rewrite Hl in Hs. pose proof (slice_len _ _ _ _ Hs) as (_ & _ & ?).
  assert (toGoType index t output tt =
    (w ← must (slice output index (index + 32)); readWord t w) tt) as ->.
  { destruct t; try done; cbn [toGoType]; by replace (_ >? _) with false by lia. }
  by rewrite (bind_must _ _ _ _ Hs).
Qed.

(** The elements of a static type, one after the other. *)
Lemma elems_ok e l :
  0 < getFullElemSize e ->
  Forall (fun v => exists p, pack e v = Some p /\ len p = getFullElemSize e /\ reads e v p) l ->
  exists p, packElems (pack e) false 0 l = Some (p, []) /\ len p = len l * getFullElemSize e /\
    forall output i, slice output i (i + len p) = Some p ->
      readElems (fun i => toGoType i e output) (getFullElemSize e) (length l) i tt = Ok l tt.
Proof.
  intros He. induction 1 as [|v l (p & Hp & Hl & Hr) _ (q & Hq & Hlq & Hrq)]; [by exists []|].
  exists (p ++ q). cbn [packElems negb]. rewrite Hp. cbn [mbind option_bind]. rewrite Hq. split_and!.
  - done.
  - rewrite len_app, len_cons. lia.
  - intros output i Hs. cbn [length readElems]. pose proof (len_nonneg q).
    rewrite (bind_Ok _ v tt).
    2: { apply Hr. rewrite <- (Z.add_0_r i) at 1. eapply slice_sub; [done|]. apply (slice_app [] p q); [done|].
         rewrite len_nil. lia. }
    rewrite (bind_Ok _ l tt); [done|]. replace (i + getFullElemSize e) with (i + len p) by lia. apply Hrq.
    rewrite <- Z.add_assoc. eapply slice_sub; [done|].
    rewrite <- (app_nil_r q) at 1. by apply slice_app.
Qed.

Lemma fullSize_pos t v : typed t v -> isDynamicType t = false -> 32 <= getFullElemSize t.
Proof.
  revert v. induction t as [| | | | |size e IH| | | | |]; intros v Ht Hd; cbn [getFullElemSize]; try lia.
  destruct v as [| | | | | | |l]; try done. destruct Ht as (Hs & Hl & _ & Hf).
  destruct l as [|v l]; [rewrite len_nil in Hl; lia|]. apply Forall_cons_iff in Hf as [Hv _].
  specialize (IH v Hv Hd). nia.
Qed.

(** Static values, arrays included. *)
Lemma static_ok t v :
  typed t v -> isDynamicType t = false ->
  exists p, pack t v = Some p /\ len p = getFullElemSize t /\ reads t v p.
Proof.
  revert v. induction t as [| | | | |size e IH| | | | |]; intros v Ht Hd;
    try (destruct (word_ok _ v Ht Hd eq_refl) as (p & ? & ? & ?); exists p;
         split_and!; [done|done|by apply word_reads]).
  destruct v as [| | | | | | |l]; try done. destruct Ht as (Hs & Hl & He & Hf).
  assert (32 <= getFullElemSize e) as Hsz.
  { destruct l as [|v l]; [rewrite len_nil in Hl; lia|]. apply Forall_cons_iff in Hf as [Hv _].
    by eapply fullSize_pos. }
  destruct (elems_ok e l) as (p & Hp & Hlp & Hr); [lia| |].
  { eapply Forall_impl; [|exact Hf]. intros v Hv. by apply IH. }
  exists p. cbn [pack]. rewrite Hl, Z.eqb_refl, He. cbn [negb]. rewrite Hp. split_and!.
  - cbn. by rewrite app_nil_r.
  - cbn [getFullElemSize]. lia.
  - intros output index Hsl. pose proof (slice_len _ _ _ _ Hsl) as (_ & ? & ?).
    cbn [toGoType]. assert (32 * size <= len p) by nia.
    replace (index + 32 >? len output) with false by lia. unfold forEachUnpack.
    replace (size <? 0) with false by lia. replace (_ >? _) with false by lia.
    replace (Z.to_nat size) with (length l) by (unfold len in Hl; lia).
    by rewrite (bind_Ok _ l tt) by by apply Hr.
Qed.

Lemma prefix_ok output index off n :
  slice output index (index + 32) = Some (packNum off) -> slice output off (off + 32) = Some (packNum n) ->
  0 <= n -> off + 32 + n <= len output -> len output < 2 ^ 62 ->
  lengthPrefixPointsTo index output tt = Ok (off + 32, n) tt.
Proof.
  intros Hi Ho Hn Hlen Hmax. pose proof (slice_len _ _ _ _ Ho) as (_ & Hoff & _).
  unfold lengthPrefixPointsTo. rewrite (bind_must _ _ _ _ Hi), packNum_val.
  assert (forall z, 0 <= z < 2 ^ 62 -> (BitLen z >? 63) = false) as Hbits.
  { intros z Hz. pose proof (proj2 (BitLen_le z 63 ltac:(lia)) ltac:(lia)). lia. }
  rewrite (Z.mod_small off) by lia. replace (_ >? len output) with false by lia.
  rewrite Hbits, Uint64_small by lia. rewrite (bind_must _ (packNum n)).
  2: { by replace (off + 32 - 32) with off by lia. }
  rewrite packNum_val, (Z.mod_small n) by lia. rewrite Hbits by lia.
  replace (_ >? len output) with false by lia. by rewrite Uint64_small by lia.
Qed.

Definition reads_at (t : Ty) (v : value) (p : list byte) : Prop :=
  forall output index off, slice output index (index + 32) = Some (packNum off) ->
    slice output off (off + len p) = Some p -> len output < 2 ^ 62 ->
    toGoType index t output tt = Ok v tt.

Lemma bytes_at output index off s :
  slice output index (index + 32) = Some (packNum off) ->
  let p := packBytesSlice s (len s) in
  slice output off (off + len p) = Some p -> len output < 2 ^ 62 ->
  (index + 32 >? len output) = false /\
  lengthPrefixPointsTo index output tt = Ok (off + 32, len s) tt /\
  slice output (off + 32) (off + 32 + len s) = Some s.
Proof.
  intros Hi p Hp Hmax. pose proof (len_nonneg s).
  assert (len s <= (len s + 31) / 32 * 32) as Hpad by zlia.
  assert (len p = 32 + (len s + 31) / 32 * 32) as Hl.
  { unfold p, packBytesSlice. rewrite len_app, packNum_len, RightPadBytes_len. lia. }
  pose proof (slice_len _ _ _ _ Hi). pose proof (slice_len _ _ _ _ Hp). split_and!; [lia|..].
  - apply prefix_ok; try lia; [done|]. rewrite <- (Z.add_0_r off) at 1. eapply slice_sub; [done|].
    unfold p, packBytesSlice. apply (slice_app []); [done|]. by rewrite len_nil, packNum_len.
  - rewrite <- Z.add_assoc. eapply slice_sub; [done|]. unfold p, packBytesSlice.
    pose proof (slice_RightPad s _ Hpad) as Hs.
    change 32 with (32 + 0) at 3. eapply (slice_sub _ _ _ 32); [|exact Hs].
    rewrite <- (app_nil_r (RightPadBytes _ _)) at 1. apply slice_app; by rewrite packNum_len.
Qed.

Lemma dynamic_ok t v :
  typed t v -> isDynamicType t = true -> isArray t = false ->
  exists p, pack t v = Some p /\ reads_at t v p.
Proof.
  intros Ht Hd Ha. destruct t as [| | | |e| | | | | |], v as [| |s|s| | | |l]; try done; cbn [pack packElement].
  - eexists. split; [done|]. intros output index off Hi Hp Hmax.
    destruct (bytes_at _ _ _ _ Hi Hp Hmax) as (Hc & Hpre & Hs). cbn [toGoType]. rewrite Hc.
    rewrite (bind_Ok _ _ _ _ _ Hpre). cbn match. by rewrite (bind_must _ _ _ _ Hs).
  - destruct Ht as [He Hf]. rewrite He.
    assert (exists p, packElems (pack e) false 0 l = Some (p, []) /\ 32 * len l <= len p /\
      forall output i, slice output i (i + len p) = Some p ->
        readElems (fun i => toGoType i e output) (getFullElemSize e) (length l) i tt = Ok l tt)
      as (p & Hp & Hlp & Hr).
    { destruct l as [|v l]; [by exists []|]. apply Forall_cons_iff in Hf as Hv.
      pose proof (fullSize_pos e v (proj1 Hv) He). pose proof (len_nonneg (v :: l)).
      destruct (elems_ok e (v :: l)) as (p & ? & ? & ?); [lia| |exists p; split_and!; [done|nia|done]].
      eapply Forall_impl; [|exact Hf]. intros. by apply static_ok. }
    rewrite Hp. eexists. split; [done|]. rewrite app_nil_r. intros output index off Hi Hsl Hmax.
    rewrite len_app, packNum_len in Hsl. pose proof (slice_len _ _ _ _ Hi). pose proof (slice_len _ _ _ _ Hsl).
    pose proof (len_nonneg l). cbn [toGoType]. replace (_ >? _) with false by lia.
    rewrite (bind_Ok _ (off + 32, len l) tt).
    2: { apply prefix_ok; try lia; [done|]. rewrite <- (Z.add_0_r off) at 1. eapply slice_sub; [done|].
         apply (slice_app []); [done|]. by rewrite len_nil, packNum_len. }
    cbn match. unfold forEachUnpack. replace (len l <? 0) with false by lia.
    replace (_ >? _) with false by lia. unfold len at 1. rewrite Nat2Z.id.
    rewrite (bind_Ok _ l tt); [done|]. apply Hr. rewrite <- Z.add_assoc. eapply slice_sub; [done|].
    rewrite <- (app_nil_r p) at 1. apply slice_app; by rewrite packNum_len.
  - eexists. split; [done|]. intros output index off Hi Hp Hmax.
    destruct (bytes_at _ _ _ _ Hi Hp Hmax) as (Hc & Hpre & Hs). cbn [toGoType]. rewrite Hc.
    rewrite (bind_Ok _ _ _ _ _ Hpre). cbn match. by rewrite (bind_must _ _ _ _ Hs).
Qed.

(** Arrays of arrays are excluded as arguments (see [abi_nested_array_offset]). *)
Definition flat (t : Ty) : Prop :=
  match t with ArrayTy _ e => isArray e = false | _ => True end.

Lemma typed_dynamic_array t v : typed t v -> isDynamicType t = true -> isArray t = false.
Proof.
  destruct t as [| | | | |size e| | | | |]; intros Ht Hd; try done.
  destruct v; cbn [typed isDynamicType] in *; try done. naive_solver congruence.
Qed.

Lemma flat_size t : flat t -> isDynamicType t = false ->
  getFullElemSize t = getDynamicTypeOffset t /\ getFullElemSize t = 32 * (1 + virtualWords t).
Proof.
  destruct t as [| | | | |size e| | | | |]; cbn [flat isDynamicType]; intros Hf Hd; try done.
  cbn [getFullElemSize getDynamicTypeOffset virtualWords]. rewrite Hd.
  destruct e; try done; cbn [getFullElemSize nestedSize negb]; lia.
Qed.

Lemma dynamic_head t : isArray t = false -> getDynamicTypeOffset t = 32 /\ virtualWords t = 0.
Proof. by destruct t. Qed.

Lemma slice_prefix (l p q : list byte) i :
  slice l i (i + len (p ++ q)) = Some (p ++ q) ->
  slice l i (i + len p) = Some p /\ slice l (i + len p) (i + len p + len q) = Some q.
Proof.
  intros H. split.
  - rewrite <- (Z.add_0_r i) at 1. eapply slice_sub; [done|]. by apply (slice_app [] p q).
  - rewrite <- Z.add_assoc. eapply slice_sub; [done|]. rewrite <- (app_nil_r q) at 1. by apply slice_app.
Qed.

Lemma args_ok args vs :
  Forall2 typed args vs -> Forall flat args -> forall off,
  exists ret var, packArgs off args vs = Some (ret, var) /\ len ret = headSize args /\
    forall data i w, slice data ((i + w) * 32) ((i + w) * 32 + len ret) = Some ret ->
      slice data off (off + len var) = Some var -> len data < 2 ^ 62 ->
      unpackFrom i w args data tt = Ok vs tt.
Proof.
  intros Hty. induction Hty as [|t v args vs Ht Hty IH]; intros Hfl off; [by exists [], []|].
  apply Forall_cons_iff in Hfl as [Hf Hfl]. cbn [packArgs headSize foldr].
  destruct (isDynamicType t) eqn:Hd.
  - pose proof (typed_dynamic_array t v Ht Hd) as Ha. destruct (dynamic_head t Ha) as [Hh Hw].
    destruct (dynamic_ok t v Ht Hd Ha) as (p & Hp & Hr). rewrite Hp. cbn [mbind option_bind].
    destruct (IH Hfl (off + len p)) as (ret & var & Hpa & Hl & Hun). rewrite Hpa.
    exists (packNum off ++ ret), (p ++ var). split_and!; [done|rewrite len_app, packNum_len; unfold headSize in Hl; lia|].
    intros data i w [Hi Hret]%slice_prefix [Hv Hvar]%slice_prefix Hmax. rewrite packNum_len in *.
    cbn [unpackFrom]. rewrite (bind_Ok _ v tt) by by eapply Hr. rewrite Hw, Z.add_0_r.
    rewrite (bind_Ok _ vs tt); [done|]. apply Hun; try done.
    by replace ((i + 1 + w) * 32) with ((i + w) * 32 + 32) by lia.
  - destruct (static_ok t v Ht Hd) as (p & Hp & Hlp & Hr). rewrite Hp. cbn [mbind option_bind].
    destruct (flat_size t Hf Hd) as [Hh Hw].
    destruct (IH Hfl off) as (ret & var & Hpa & Hl & Hun). rewrite Hpa.
    exists (p ++ ret), var. split_and!; [done|rewrite len_app; unfold headSize in Hl; lia|].
    intros data i w [Hi Hret]%slice_prefix Hvar Hmax.
    cbn [unpackFrom]. rewrite (bind_Ok _ v tt) by by eapply Hr.
    rewrite (bind_Ok _ vs tt); [done|]. apply Hun; try done.
    by replace ((i + 1 + (w + virtualWords t)) * 32) with ((i + w) * 32 + len p) by lia.
Qed.
End AbiSpec.

Import Abi AbiSpec.

(** C35. What Arguments.Pack of accounts/abi encodes, Arguments.UnpackValues
    decodes to the same values: for any list of arguments of integer, bool,
    address, fixed bytes, function, string and bytes types, slices of static
    types and arrays of static types that are not arrays. *)
Theorem abi_round_trip args vs :
  Forall2 typed args vs -> Forall flat args ->
  exists data, Pack args vs = Some data /\
    (len data < 2 ^ 62 -> UnpackValues args data tt = Ok vs tt).
Proof.
  intros Hty Hfl. destruct (args_ok args vs Hty Hfl (headSize args)) as (ret & var & Hp & Hl & Hun).
  unfold Pack. rewrite Hp. eexists. split; [done|]. intros Hmax. apply Hun; [|rewrite <- Hl|done].
  - by apply (slice_app []).
  - rewrite <- (app_nil_r var) at 1. by apply slice_app.
Qed.

(** Pack and UnpackValues do not agree on a slice of strings: Pack writes the
    offsets of the elements relative to the start of the elements, toGoType
    reads them from the start of the data, and the strings read are others than
    those written. *)
Theorem abi_nested_dynamic_differs :
  let args := [SliceTy StringTy] in
  let vs := [VList [VString (str "hello"); VString (str "w")]] in
  exists data vs', Pack args vs = Some data /\ UnpackValues args data tt = Ok vs' tt /\
    vs' <> vs /\ vs' = [VList [VString (packNum 128 ++ packNum 5); VString (str "hello")]].
Proof. eexists _, _. split_and!; [vm_compute; reflexivity|vm_compute; reflexivity|done|by vm_compute]. Qed.

(** An array of arrays before a dynamic argument is encoded with a wrong
    offset: getDynamicTypeOffset counts the outer length only, so the string
    that follows is not found by the decoder. *)
Theorem abi_nested_array_offset :
  let args := [ArrayTy 2 (ArrayTy 3 (UintTy 256)); StringTy] in
  let vs := [VList [VList [VInt 1; VInt 2; VInt 3]; VList [VInt 4; VInt 5; VInt 6]]; VString (str "hello")] in
  exists data, Pack args vs = Some data /\ UnpackValues args data tt <> Ok vs tt.
Proof. eexists. split; [vm_compute; reflexivity|]. by vm_compute. Qed.

(** * Hexadecimal text *)

(** hexutil.Decode inverts hexutil.Encode on every byte slice. *)
Theorem hex_round_trip b : Hexutil.Decode (Hexutil.Encode b) = (b, None).
Proof.
  unfold Hexutil.Decode, Hexutil.Encode. pose proof (len_nonneg (Hex.Encode b)).
  rewrite len_app. change (len (str "0x")) with 2. replace (_ =? 0) with false by lia.
  change (Hexutil.Has0xPrefix _) with true. change (drop 2 _) with (Hex.Encode b).
  by rewrite Hex.DecodeString_Encode.
Qed.

(** The value of a sequence of hexadecimal digits. *)
Fixpoint hex_value (raw : list byte) (acc : Z) : option Z :=
  match raw with
  | [] => Some acc
  | c :: raw => nib ← Hexutil.decodeNibble c; hex_value raw (acc * 16 + nib)
  end.

Lemma decodeNibble_range c n : Hexutil.decodeNibble c = Some n -> 0 <= n < 16.
Proof.
  unfold Hexutil.decodeNibble. change (byte_Z "0") with 48. change (byte_Z "9") with 57.
  change (byte_Z "A") with 65. change (byte_Z "F") with 70. change (byte_Z "a") with 97.
  change (byte_Z "f") with 102. repeat case_match; intros; simplify_eq; lia.
Qed.

Lemma decodeWord_value raw w :
  0 <= w -> w * 16 ^ len raw + 16 ^ len raw <= 2 ^ 64 ->
  Hexutil.decodeWord raw w = hex_value raw w.
Proof.
  revert w. induction raw as [|c raw IH]; intros w Hw Hle; [done|]. cbn [Hexutil.decodeWord hex_value].
  destruct (Hexutil.decodeNibble c) as [n|] eqn:Hn; [|done]. cbn [mbind option_bind].
  apply decodeNibble_range in Hn. rewrite len_cons, Z.pow_add_r in Hle by (pose proof (len_nonneg raw); lia).
  assert (1 <= 16 ^ len raw) by (pose proof (Z.pow_pos_nonneg 16 (len raw)); pose proof (len_nonneg raw); lia).
  rewrite (u64_small (w * 16)), u64_small by nia. apply IH; nia.
Qed.

Lemma hex_value_app l k acc :
  hex_value (l ++ k) acc = (v ← hex_value l acc; hex_value k v).
Proof.
  revert acc. induction l as [|c l IH]; intros acc; [done|]. cbn [app hex_value].
  destruct (Hexutil.decodeNibble c); [|done]. apply IH.
Qed.

Lemma hex_value_acc l acc :
  hex_value l acc = (fun v => acc * 16 ^ len l + v) <$> hex_value l 0.
Proof.
  revert acc. induction l as [|c l IH]; intros acc.
  { cbn. f_equal. change (16 ^ len []) with 1. lia. }
  cbn [hex_value]. destruct (Hexutil.decodeNibble c) as [n|]; [|done]. cbn [mbind option_bind].
  rewrite (IH (acc * 16 + n)), (IH (0 * 16 + n)), len_cons, Z.pow_add_r by (pose proof (len_nonneg l); lia).
  destruct (hex_value l 0) as [v|]; [|done]. cbn. f_equal. ring.
Qed.

(** The words hold the digits from the least significant end; an unreadable
    digit is found by either reading. *)
Lemma decodeWords_value n raw e :
  (e <= length raw)%nat -> (e <= 16 * n)%nat ->
  words_val <$> Hexutil.decodeWords n raw e = hex_value (take e raw) 0.
Proof.
  revert e. induction n as [|n IH]; intros e He Hn.
  { replace e with 0%nat by lia. done. }
  cbn [Hexutil.decodeWords]. unfold Hexutil.bigWordNibbles. set (s := (e - 16)%nat).
  set (w := take (e - s) (drop s raw)).
  assert (len w = Z.of_nat (e - s)) as Hw.
  { unfold w, len. rewrite length_take, length_drop. lia. }
  rewrite decodeWord_value; [|lia|].
  2: { assert (16 ^ len w <= 16 ^ 16); [apply Z.pow_le_mono_r; lia|lia]. }
  assert (take e raw = take s raw ++ w) as ->.
  { unfold w. rewrite <- (take_drop s (take e raw)), take_take, Nat.min_l by lia. f_equal.
    by rewrite skipn_firstn_comm. }
  pose proof (IH s ltac:(lia) ltac:(lia)) as Hs. rewrite hex_value_app, <- Hs.
  destruct (Hexutil.decodeWords n raw s) as [ws|]; cbn [fmap option_fmap option_map mbind option_bind].
  - rewrite (hex_value_acc w (words_val ws)). destruct (hex_value w 0) as [v|] eqn:Hv; [|done].
    cbn [fmap option_fmap option_map mbind option_bind words_val]. f_equal.
    destruct (decide (s = 0%nat)) as [H0|H0].
    + rewrite H0 in Hs. injection Hs as ->. lia.
    + rewrite Hw. replace (e - s)%nat with 16%nat by lia. lia.
  - by destruct (hex_value w 0).
Qed.

(** hexutil.DecodeBig, which fills 64-bit words from the last digit, gives
    the value of the hexadecimal number: it accepts exactly the strings with a
    0x prefix, one to 64 digits and no leading zero, and reads them to base 16. *)
Theorem decode_big_value input v :
  Hexutil.DecodeBig input = inl v <->
  exists raw, Hexutil.checkNumber input = inl raw /\ len raw <= 64 /\ hex_value raw 0 = Some v.
Proof.
  unfold Hexutil.DecodeBig. destruct (Hexutil.checkNumber input) as [raw|err]; [|naive_solver].
  pose proof (decodeWords_value (length raw / Hexutil.bigWordNibbles + 1) raw (length raw)) as Hw.
  rewrite firstn_all in Hw. unfold Hexutil.bigWordNibbles in *.
  specialize (Hw ltac:(lia)).
  specialize (Hw ltac:(pose proof (Nat.div_mod_eq (length raw) 16); pose proof (Nat.mod_upper_bound (length raw) 16); lia)).
  destruct (Z.gtb_spec (len raw) 64).
  { split; [done|]. intros (? & [= <-] & ? & _). lia. }
  destruct (Hexutil.decodeWords _ raw (length raw)) as [ws|]; cbn [fmap option_fmap option_map] in Hw.
  - split; [intros [= <-]; by exists raw|]. intros (r & [= <-] & _ & Hv). congruence.
  - split; [done|]. intros (r & [= <-] & _ & Hv). congruence.
Qed.

(** Public keys survive the uncompressed encoding: ToECDSAPub of crypto.go
    reads back a point of the curve that FromECDSAPub wrote. *)
Theorem point_round_trip p :
  0 <= Secp.X p < Secp.P -> 0 <= Secp.Y p < Secp.P -> Secp.IsOnCurve (Secp.X p) (Secp.Y p) = true ->
  Secp.ToECDSAPub (Secp.FromECDSAPub p) = Some p.
Proof.
  intros Hx Hy Hc. unfold Secp.ToECDSAPub, Secp.FromECDSAPub.
  assert (Secp.P < 2 ^ 256) by done.
  rewrite !len_app, !len_be_bytes. change (len [x04]) with 1. cbn [Z.of_nat Z.eqb negb].
  change (negb _) with false at 1. cbn [app head]. rewrite bool_decide_true by done. cbn [negb].
  assert (forall z, 0 <= z < Secp.P -> SetBytes (be_bytes 32 z) = z) as Hz.
  { intros z Hz. unfold SetBytes. rewrite be_val_be_bytes. apply Z.mod_small. lia. }
  cbn [drop]. rewrite !drop_0.
  rewrite take_app_length', drop_app_length' by by rewrite length_be_bytes.
  rewrite !Hz by done. replace ((_ >=? _) || _) with false by lia. rewrite Hc. by destruct p.
Qed.

(** * Instances *)

Definition sampleArgs : list Ty := [StringTy; UintTy 256; SliceTy AddressTy; ArrayTy 2 (IntTy 8); BytesTy].
Definition sampleValues : list value :=
  [VString (str "0x02"); VInt 10; VList [VAddress (bits_of 160 7)]; VList [VInt (-1); VInt 127]; VBytes [x01]].

Lemma abi_round_trip_witness :
  exists data, Pack sampleArgs sampleValues = Some data /\
    (len data < 2 ^ 62 -> UnpackValues sampleArgs data tt = Ok sampleValues tt).
Proof.
  apply (abi_round_trip sampleArgs sampleValues).
  - repeat (constructor; cbn [typed]); (done || lia || idtac).
  - repeat constructor.
Defined.

(** The base point of secp256k1. *)
Definition basePoint : Secp.PublicKey := Secp.mkPublicKey
  0x79BE667EF9DCBBAC55A06295CE870B07029BFCDB2DCE28D959F2815B16F81798
  0x483ADA7726A3C4655DA4FBFC0E1108A8FD17B448A68554199C47D08FFB10D4B8.

Lemma point_round_trip_witness :
  Secp.ToECDSAPub (Secp.FromECDSAPub basePoint) = Some basePoint.
Proof. apply (point_round_trip basePoint); done. Defined.
