(* ===== verification/VmState.v ===== *)
(** The state of the virtual machine: the StateDB interface of
    core/vm/interface.go, the contracts of core/vm/contract.go, the EVM and
    interpreter fields of core/vm/evm.go and interpreter.go, and the balance
    transfer of core/evm.go. *)

From S2P Require Import Prelude BigMath VmData.
Import Big GoMath Common.

(** core/types/log.go *)
Record Log := mkLog {
  log_Address : Address;
  log_Topics : list Hash;
  log_Data : list byte;
  log_BlockNumber : Z;
  log_TxHash : Hash;
  log_TxIndex : Z;
  log_BlockHash : Hash;
  log_Index : Z;
}.

(** * core/vm/interface.go

    StateDB is an EVM database for full state querying.  The operations that
    change the database return the new database; [RevertToSnapshot] answers
    [None] where the code panics; [MulRefund] is not a method but what a caller
    does that multiplies the big integer behind [GetRefund] in place; the iterators ForEachStorage and
    ForEachStorageByteArray are not part of the model. *)
Class StateDB (db : Type) := {
  CreateAccount : Address -> db -> db;
  SubBalance : Address -> Z -> db -> db;
  AddBalance : Address -> Z -> db -> db;
  GetBalance : db -> Address -> Z;
  GetNonce : db -> Address -> Z;
  SetNonce : Address -> Z -> db -> db;
  GetCodeHash : db -> Address -> Hash;
  GetCode : db -> Address -> list byte;
  SetCode : Address -> list byte -> db -> db;
  GetCodeSize : db -> Address -> Z;
  AddRefund : Z -> db -> db;
  GetRefund : db -> Z;
  MulRefund : Z -> db -> db;
  GetState : db -> Address -> Hash -> Hash;
  SetState : Address -> Hash -> Hash -> db -> db;
  GetStateByteArray : db -> Address -> Hash -> list byte;
  SetStateByteArray : Address -> Hash -> list byte -> db -> db;
  Suicide : Address -> db -> bool * db;
  HasSuicided : db -> Address -> bool;
  Exist : db -> Address -> bool;
  Empty : db -> Address -> bool;
  RevertToSnapshot : Z -> db -> option db;
  Snapshot : db -> Z * db;
  AddLog : Log -> db -> db;
  AddPreimage : Hash -> list byte -> db -> db;
}.

(** core/evm.go: the balance test and the transfer [NewEVMContext] installs in
    the EVM context. *)
Definition CanTransfer `{StateDB db} (d : db) (addr : Address) (amount : Z) : bool :=
  GetBalance d addr >=? amount.
Definition Transfer `{StateDB db} (d : db) (sender recipient : Address) (amount : Z) : db :=
  AddBalance recipient amount (SubBalance sender amount d).

(** * core/vm/contract.go

    [caller] is used only while the contract is built, so it is an argument of
    [NewContract] and [AsDelegate] and not a field; [jumpdests] is a map that
    all contracts of a call tree share, a field of the EVM state below. *)
Record Contract := mkContract {
  CallerAddress : Address;
  self : Address;
  Code : list byte;
  CodeHash : Hash;
  CodeAddr : option Address;
  Input : list byte;
  Gas : Z;
  value : Z;
  DelegateCall_ : bool;
}.

Inductive ContractRef :=
| AccountRef (a : Address)
| ContractOf (c : Contract).
Definition RefAddress (r : ContractRef) : Address :=
  match r with AccountRef a => a | ContractOf c => self c end.

Definition NewContract (caller : ContractRef) (object : Address) (value gas : Z)
    : Contract :=
  mkContract (RefAddress caller) object [] emptyHash None [] gas value false.

(** The type assertion on the caller panics when it is not a contract. *)
Definition AsDelegate (caller : ContractRef) (c : Contract) : option Contract :=
  match caller with
  | AccountRef _ => None
  | ContractOf parent =>
      Some (mkContract (CallerAddress parent) (self c) (Code c) (CodeHash c) (CodeAddr c)
              (Input c) (Gas c) (value parent) true)
  end.

Definition GetByte (c : Contract) (n : Z) : byte :=
  if n <? u64 (len (Code c)) then default x00 (index (Code c) n) else x00.
Definition GetOp (c : Contract) (n : Z) : byte := GetByte c n.

Definition SetGas (c : Contract) (gas : Z) : Contract :=
  mkContract (CallerAddress c) (self c) (Code c) (CodeHash c) (CodeAddr c) (Input c)
    gas (value c) (DelegateCall_ c).
Definition SetInput (c : Contract) (input : list byte) : Contract :=
  mkContract (CallerAddress c) (self c) (Code c) (CodeHash c) (CodeAddr c) input
    (Gas c) (value c) (DelegateCall_ c).

(** UseGas attempts the use gas and subtracts it and returns true on success. *)
Definition UseGas (c : Contract) (gas : Z) : bool * Contract :=
  if Gas c <? gas then (false, c) else (true, SetGas c (u64 (Gas c - gas))).

Definition SetCallCode (c : Contract) (addr : Address) (hash : Hash) (code : list byte)
    : Contract :=
  mkContract (CallerAddress c) (self c) code hash (Some addr) (Input c)
    (Gas c) (value c) (DelegateCall_ c).

(** * core/vm/evm.go and interpreter.go: environment and mutable state *)

(** The fields of Context other than the two transfer functions. *)
Record Context := mkContext {
  GetHash : Z -> Hash;
  Origin : Address;
  GasPrice : Z;
  Coinbase : Address;
  GasLimit : Z;
  BlockNumber : Z;
  Time : Z;
  Difficulty : Z;
}.

(** The fields of Config that change execution (the tracer does not). *)
Record Config := mkConfig {
  NoRecursion : bool;
  DisableGasMetering : bool;
  EnablePreimageRecording : bool;
}.

(** core/vm/precompiled_contracts_addr.go: native contracts.  A native contract
    reads the context and changes the database only; [None] is a panic. *)
Record PrecompiledContract (db : Type) := mkPrecompiled {
  RequiredGas : list byte -> Z;
  PrecompiledRun :
    list byte -> Contract -> Context -> db -> option (list byte * option vmerror * db);
}.
Arguments RequiredGas {db} _ _.
Arguments PrecompiledRun {db} _ _ _ _ _.

(** What the virtual machine is given: context, configuration, the abort flag
    (which [Cancel] may set at any time: [abort n] is its value when it is read
    for the n-th time), the hash functions of package crypto and the table of
    native contracts. *)
Record Env (db : Type) := mkEnv {
  ctx : Context;
  cfg : Config;
  abort : nat -> bool;
  Keccak256Hash : list byte -> Hash;
  CreateAddress : Address -> Z -> Address;
  precompiles : Address -> option (PrecompiledContract db);
}.
Arguments ctx {db} _.
Arguments cfg {db} _.
Arguments abort {db} _ _.
Arguments Keccak256Hash {db} _ _.
Arguments CreateAddress {db} _ _ _.
Arguments precompiles {db} _ _.

(** The fields that change while the machine runs: the database, the call
    depth, the interpreter's readOnly flag and return data, the map of analysed
    jump destinations shared by the contracts, and how often the abort flag has
    been read. *)
Record EVM (db : Type) := mkEVM {
  statedb : db;
  depth : Z;
  readOnly : bool;
  returnData : list byte;
  jumpdests : Analysis.destinations;
  abort_reads : nat;
}.
Arguments mkEVM {db} _ _ _ _ _ _.
Arguments statedb {db} _.
Arguments depth {db} _.
Arguments readOnly {db} _.
Arguments returnData {db} _.
Arguments jumpdests {db} _.
Arguments abort_reads {db} _.

Section Setters.
Context {db : Type}.
Definition set_db (e : EVM db) (d : db) : EVM db :=
  mkEVM d (depth e) (readOnly e) (returnData e) (jumpdests e) (abort_reads e).
Definition set_depth (e : EVM db) (n : Z) : EVM db :=
  mkEVM (statedb e) n (readOnly e) (returnData e) (jumpdests e) (abort_reads e).
Definition set_readOnly (e : EVM db) (b : bool) : EVM db :=
  mkEVM (statedb e) (depth e) b (returnData e) (jumpdests e) (abort_reads e).
Definition set_returnData (e : EVM db) (r : list byte) : EVM db :=
  mkEVM (statedb e) (depth e) (readOnly e) r (jumpdests e) (abort_reads e).
Definition set_jumpdests (e : EVM db) (j : Analysis.destinations) : EVM db :=
  mkEVM (statedb e) (depth e) (readOnly e) (returnData e) j (abort_reads e).
Definition read_abort (e : EVM db) : EVM db :=
  mkEVM (statedb e) (depth e) (readOnly e) (returnData e) (jumpdests e) (S (abort_reads e)).
End Setters.

(** * A running frame

    The local variables of [Interpreter.Run] and the objects the execution
    functions receive. *)
Record frame (db : Type) := mkFrame {
  pc : Z;
  stack : list Z;
  memory : Memory.Memory;
  contract : Contract;
  evm : EVM db;
}.
Arguments mkFrame {db} _ _ _ _ _.
Arguments pc {db} _.
Arguments stack {db} _.
Arguments memory {db} _.
Arguments contract {db} _.
Arguments evm {db} _.

(** Execution functions change the frame and return a value or an error. *)
Abbreviation M db := (ST (frame db) vmerror).

(** Calls into the EVM change the EVM only; an error is one of the returned
    values. *)
Abbreviation ME db := (ST (EVM db) Empty_set).

Section Frame.
Context {db : Type}.

Definition set_pc (n : Z) : M db unit := modify (fun s =>
  mkFrame n (stack s) (memory s) (contract s) (evm s)).
Definition set_stack (st : list Z) : M db unit := modify (fun s =>
  mkFrame (pc s) st (memory s) (contract s) (evm s)).
Definition set_memory (m : Memory.Memory) : M db unit := modify (fun s =>
  mkFrame (pc s) (stack s) m (contract s) (evm s)).
Definition set_contract (c : Contract) : M db unit := modify (fun s =>
  mkFrame (pc s) (stack s) (memory s) c (evm s)).
Definition set_evm (e : EVM db) : M db unit := modify (fun s =>
  mkFrame (pc s) (stack s) (memory s) (contract s) e).
Definition update_db (f : db -> db) : M db unit := modify (fun s =>
  mkFrame (pc s) (stack s) (memory s) (contract s)
    (set_db (evm s) (f (statedb (evm s))))).

Definition get_db : M db db := gets (fun s => statedb (evm s)).
Definition address : M db Address := gets (fun s => self (contract s)).

Definition pop : M db Z :=
  st ← gets stack;
  '(x, st') ← must (Stack.pop st);
  set_stack st';;
  mret x.
Definition push (x : Z) : M db unit :=
  st ← gets stack; set_stack (Stack.push x st).
Definition back (n : nat) : M db Z :=
  st ← gets stack; must (Stack.Back n st).

(** Run an EVM call from a frame. *)
Definition call_evm {A} (m : ME db A) : M db A := fun s =>
  match m (evm s) with
  | Ok a e => Ok a (mkFrame (pc s) (stack s) (memory s) (contract s) e)
  | Fail x _ => match x with end
  | Panic => Panic
  | OutOfFuel => OutOfFuel
  end.
End Frame.

(** The five entry points of the EVM as the execution functions see them:
    returned data, gas left over and error (and the new address for Create). *)
Record Calls (db : Type) := mkCalls {
  Call : ContractRef -> Address -> list byte -> Z -> Z -> ME db (list byte * Z * option vmerror);
  CallCode : ContractRef -> Address -> list byte -> Z -> Z -> ME db (list byte * Z * option vmerror);
  DelegateCall : ContractRef -> Address -> list byte -> Z -> ME db (list byte * Z * option vmerror);
  StaticCall : ContractRef -> Address -> list byte -> Z -> ME db (list byte * Z * option vmerror);
  Create : ContractRef -> list byte -> Z -> Z ->
           ME db (list byte * Address * Z * option vmerror);
}.
Arguments Call {db} _ _ _ _ _ _.
Arguments CallCode {db} _ _ _ _ _ _.
Arguments DelegateCall {db} _ _ _ _ _.
Arguments StaticCall {db} _ _ _ _ _.
Arguments Create {db} _ _ _ _ _.

(** ForEachStorageByteArray of core/state/statedb.go with a callback that does
    not stop: the entries in the order in which they are visited. *)
Class StateIter (db : Type) := {
  ForEachStorageByteArray : db -> Address -> list (Hash * list byte);
}.
