(* ===== verification/StateSpec.v ===== *)
(** The abstract account state and what a state database promises.

    [astate] is the meaning of a database as the virtual machine sees it: the
    accounts that exist, the refund counter, the logs and the preimages.
    [update] lists the changes of the StateDB interface (core/vm/interface.go)
    with their effect on the abstract state, and the class [StateDBSpec] states
    that a database implements them and that a snapshot stays valid until it is
    reverted.  The virtual machine is verified against this class; the
    journalled database of core/state implements it. *)

From S2P Require Import Prelude BigMath VmData VmState.
Import Big Common.

(** * Abstract accounts *)

(** Storage maps hold the non-zero entries only, byte-array storage the
    non-empty ones. *)
Record account := mkAccount {
  a_nonce : Z;
  a_balance : Z;
  a_code : list byte;
  a_storage : gmap Hash Hash;
  a_bytes : gmap Hash (list byte);
  a_suicided : bool;
}.

Definition new_account : account := mkAccount 0 0 [] ∅ ∅ false.

Record astate := mkState {
  accounts : gmap Address account;
  refund : Z;
  logs : gmap Hash (list Log);
  logSize : Z;
  preimages : gmap Hash (list byte);
  txinfo : Hash * Hash * Z;
}.

Definition acct (s : astate) (a : Address) : account := default new_account (accounts s !! a).

Definition set_accounts (s : astate) (m : gmap Address account) : astate :=
  mkState m (refund s) (logs s) (logSize s) (preimages s) (txinfo s).

Definition with_refund (r : Z) (s : astate) : astate :=
  mkState (accounts s) r (logs s) (logSize s) (preimages s) (txinfo s).

(** Change an account, creating it when it does not exist. *)
Definition on_account (a : Address) (f : account -> account) (s : astate) : astate :=
  set_accounts s (<[a := f (acct s a)]> (accounts s)).

Definition with_balance (f : Z -> Z) (c : account) : account :=
  mkAccount (a_nonce c) (f (a_balance c)) (a_code c) (a_storage c) (a_bytes c) (a_suicided c).
Definition with_nonce (n : Z) (c : account) : account :=
  mkAccount n (a_balance c) (a_code c) (a_storage c) (a_bytes c) (a_suicided c).
Definition with_code (code : list byte) (c : account) : account :=
  mkAccount (a_nonce c) (a_balance c) code (a_storage c) (a_bytes c) (a_suicided c).
Definition with_storage (k v : Hash) (c : account) : account :=
  mkAccount (a_nonce c) (a_balance c) (a_code c)
    (if EmptyHash v then delete k (a_storage c) else <[k := v]> (a_storage c))
    (a_bytes c) (a_suicided c).
Definition with_bytes (k : Hash) (v : list byte) (c : account) : account :=
  mkAccount (a_nonce c) (a_balance c) (a_code c) (a_storage c)
    (if len v =? 0 then delete k (a_bytes c) else <[k := v]> (a_bytes c)) (a_suicided c).
Definition destroyed (c : account) : account :=
  mkAccount (a_nonce c) 0 (a_code c) (a_storage c) (a_bytes c) true.

(** * Updates *)
Inductive update :=
| UCreateAccount (a : Address)
| USubBalance (a : Address) (v : Z)
| UAddBalance (a : Address) (v : Z)
| USetNonce (a : Address) (n : Z)
| USetCode (a : Address) (code : list byte)
| UAddRefund (g : Z)
| USetState (a : Address) (k v : Hash)
| USetStateByteArray (a : Address) (k : Hash) (v : list byte)
| USuicide (a : Address)
| UAddLog (l : Log)
| UAddPreimage (h : Hash) (b : list byte).

Definition add_log (l : Log) (s : astate) : astate :=
  let '(thash, bhash, ti) := txinfo s in
  let l := mkLog (log_Address l) (log_Topics l) (log_Data l) (log_BlockNumber l)
             thash ti bhash (logSize s) in
  mkState (accounts s) (refund s)
    (<[thash := default [] (logs s !! thash) ++ [l]]> (logs s)) (u64 (logSize s + 1))
    (preimages s) (txinfo s).

(** The effect on the abstract state.  Negative amounts are ignored. *)
Definition abs_update (u : update) (s : astate) : astate :=
  match u with
  | UCreateAccount a =>
      on_account a (fun c => with_balance (fun _ => a_balance c) new_account) s
  | USubBalance a v => on_account a (with_balance (fun b => b - Z.max 0 v)) s
  | UAddBalance a v => on_account a (with_balance (fun b => b + Z.max 0 v)) s
  | USetNonce a n => on_account a (with_nonce n) s
  | USetCode a code => on_account a (with_code code) s
  | UAddRefund g =>
      mkState (accounts s) (refund s + g) (logs s) (logSize s) (preimages s) (txinfo s)
  | USetState a k v => on_account a (with_storage k v) s
  | USetStateByteArray a k v => on_account a (with_bytes k v) s
  | USuicide a =>
      match accounts s !! a with
      | None => s
      | Some c => set_accounts s (<[a := destroyed c]> (accounts s))
      end
  | UAddLog l => add_log l s
  | UAddPreimage h b =>
      match preimages s !! h with
      | Some _ => s
      | None => mkState (accounts s) (refund s) (logs s) (logSize s)
                  (<[h := b]> (preimages s)) (txinfo s)
      end
  end.

Definition apply_update `{StateDB db} (u : update) (d : db) : db :=
  match u with
  | UCreateAccount a => CreateAccount a d
  | USubBalance a v => SubBalance a v d
  | UAddBalance a v => AddBalance a v d
  | USetNonce a n => SetNonce a n d
  | USetCode a code => SetCode a code d
  | UAddRefund g => AddRefund g d
  | USetState a k v => SetState a k v d
  | USetStateByteArray a k v => SetStateByteArray a k v d
  | USuicide a => (Suicide a d).2
  | UAddLog l => AddLog l d
  | UAddPreimage h b => AddPreimage h b d
  end.

(** * The contract of a state database

    [covers d id s]: [id] is a snapshot of [d] that is still valid, and
    reverting to it gives the abstract state [s]. *)
Class StateDBSpec (db : Type) `{StateDB db} (hash : list byte -> Hash) := {
  db_ok : db -> Prop;
  abs : db -> astate;
  covers : db -> Z -> astate -> Prop;

  GetBalance_spec d a : db_ok d -> GetBalance d a = a_balance (acct (abs d) a);
  GetNonce_spec d a : db_ok d -> GetNonce d a = a_nonce (acct (abs d) a);
  GetCode_spec d a : db_ok d -> GetCode d a = a_code (acct (abs d) a);
  GetCodeSize_spec d a : db_ok d -> GetCodeSize d a = len (a_code (acct (abs d) a));
  GetCodeHash_spec d a : db_ok d ->
    GetCodeHash d a = match accounts (abs d) !! a with
                      | Some c => hash (a_code c)
                      | None => emptyHash
                      end;
  GetState_spec d a k : db_ok d ->
    GetState d a k = default emptyHash (a_storage (acct (abs d) a) !! k);
  GetStateByteArray_spec d a k : db_ok d ->
    GetStateByteArray d a k = default [] (a_bytes (acct (abs d) a) !! k);
  GetRefund_spec d : db_ok d -> GetRefund d = refund (abs d);
  HasSuicided_spec d a : db_ok d -> HasSuicided d a = a_suicided (acct (abs d) a);
  Exist_spec d a : db_ok d -> Exist d a = bool_decide (is_Some (accounts (abs d) !! a));

  MulRefund_spec d x : db_ok d ->
    db_ok (MulRefund x d) /\ abs (MulRefund x d) = with_refund (refund (abs d) * x) (abs d);

  update_ok d u : db_ok d -> db_ok (apply_update u d);
  update_abs d u : db_ok d -> abs (apply_update u d) = abs_update u (abs d);
  update_covers d u id s : db_ok d -> covers d id s -> covers (apply_update u d) id s;

  Snapshot_spec d id d' : db_ok d -> Snapshot d = (id, d') ->
    db_ok d' /\ abs d' = abs d /\ covers d' id (abs d) /\
    (forall i s, covers d i s -> covers d' i s /\ i < id);
  RevertToSnapshot_spec d id s : db_ok d -> covers d id s ->
    exists d', RevertToSnapshot id d = Some d' /\ db_ok d' /\ abs d' = s /\
      (forall i s', covers d i s' -> i < id -> covers d' i s');
}.

(** * Sums of balances *)

Abbreviation balances := (map_sum a_balance).
Definition supply (s : astate) : Z := balances (accounts s).

(** Account balances and the refund counter are not negative, nonces and code
    lengths are in the range of their Go types. *)
Definition account_ok (c : account) : Prop :=
  0 <= a_balance c /\ 0 <= a_nonce c < 2 ^ 64 /\ len (a_code c) < 2 ^ 62.
Record state_ok (s : astate) : Prop := {
  accounts_ok : map_Forall (fun _ c => account_ok c) (accounts s);
  refund_nonneg : 0 <= refund s;
}.

Lemma balances_insert (m : gmap Address account) a c :
  balances (<[a := c]> m) =
  balances m - a_balance (default new_account (m !! a)) + a_balance c.
Proof. rewrite map_sum_set. by destruct (m !! a). Qed.

Lemma balances_bound (m : gmap Address account) :
  map_Forall (fun _ c => 0 <= a_balance c) m ->
  0 <= balances m /\ forall a c, m !! a = Some c -> a_balance c <= balances m.
Proof.
  induction m as [|a c m Hm IH] using map_ind; intros Hf; [done|].
  apply map_Forall_insert in Hf as [Hc Hf]; [|done]. destruct (IH Hf) as [IH1 IH2].
  rewrite map_sum_insert by done. split; [lia|].
  intros b c' [[? ?]|[? Hb]]%lookup_insert_Some; [subst; lia|].
  specialize (IH2 _ _ Hb). lia.
Qed.

Lemma supply_on_account a f s :
  supply (on_account a f s) = supply s - a_balance (acct s a) + a_balance (f (acct s a)).
Proof. unfold supply, on_account. cbn. by rewrite balances_insert. Qed.

Lemma new_account_ok : account_ok new_account.
Proof. unfold account_ok, len. cbn. lia. Qed.

Lemma acct_ok s a : state_ok s -> account_ok (acct s a).
Proof.
  intros Hs. unfold acct. destruct (accounts s !! a) as [c|] eqn:E; [by apply (accounts_ok _ Hs a)|].
  apply new_account_ok.
Qed.

Lemma acct_balance s a : state_ok s -> 0 <= a_balance (acct s a) <= supply s.
Proof.
  intros Hs. destruct (balances_bound (accounts s)) as [H1 H2].
  { intros b c Hb. by apply (accounts_ok _ Hs b c Hb). }
  unfold acct, supply. destruct (accounts s !! a) as [c|] eqn:E; cbn; [|lia].
  pose proof (H2 _ _ E). destruct (accounts_ok _ Hs a c E) as [? _]. lia.
Qed.

Lemma supply_nonneg s : state_ok s -> 0 <= supply s.
Proof. intros Hs. pose proof (acct_balance s inhabitant Hs). lia. Qed.

Lemma acct_on_account_eq a f s : acct (on_account a f s) a = f (acct s a).
Proof. unfold acct at 1, on_account. cbn. by rewrite lookup_insert_eq. Qed.

Lemma acct_on_account_ne a b f s : a <> b -> acct (on_account a f s) b = acct s b.
Proof. intros. unfold acct at 1, on_account. cbn. by rewrite lookup_insert_ne. Qed.

Lemma state_ok_on_account a f s :
  state_ok s -> account_ok (f (acct s a)) -> state_ok (on_account a f s).
Proof. intros [] Hf. split; [|done]. by apply map_Forall_insert_2. Qed.

(** What an update asks of its arguments to keep the state well formed. *)
Definition update_pre (u : update) (s : astate) : Prop :=
  match u with
  | USubBalance a v => v <= a_balance (acct s a)
  | USetNonce _ n => 0 <= n < 2 ^ 64
  | USetCode _ code => len code < 2 ^ 62
  | UAddRefund g => 0 <= g
  | _ => True
  end.

Lemma update_state_ok u s : state_ok s -> update_pre u s -> state_ok (abs_update u s).
Proof.
  intros Hs Hp. destruct u as [a|a v|a v|a n|a code|g|a k v|a k v|a|l|h b]; cbn in *;
    try (apply state_ok_on_account; [done|]; pose proof (acct_ok s a Hs) as Ha;
         revert Ha Hp; unfold account_ok, len; cbn; lia).
  - destruct Hs. split; cbn; [done|lia].
  - destruct (accounts s !! a) as [c|] eqn:E; [|done]. destruct Hs as [Ha ?]. split; [|done].
    apply map_Forall_insert_2; [|done]. specialize (Ha a c E). revert Ha.
    unfold account_ok; cbn; lia.
  - unfold add_log. destruct Hs. by destruct (txinfo s) as [[? ?] ?].
  - destruct Hs. by destruct (preimages s !! h).
Qed.

(** The change of the sum of balances by an update. *)
Definition minted (u : update) (s : astate) : Z :=
  match u with
  | USubBalance _ v => - Z.max 0 v
  | UAddBalance _ v => Z.max 0 v
  | USuicide a => - a_balance (acct s a)
  | _ => 0
  end.

Lemma update_supply u s : supply (abs_update u s) = supply s + minted u s.
Proof.
  destruct u as [a|a v|a v|a n|a code|g|a k v|a k v|a|l|h b]; cbn;
    try (rewrite supply_on_account; cbn; lia).
  - unfold supply. cbn. lia.
  - unfold acct. destruct (accounts s !! a) as [c|] eqn:E; cbn; [|lia].
    unfold supply. cbn. rewrite balances_insert, E. cbn. lia.
  - unfold add_log. destruct (txinfo s) as [[? ?] ?]. unfold supply. cbn. lia.
  - destruct (preimages s !! h); unfold supply; cbn; lia.
Qed.

(** * What a read-only execution must not change

    Everything but the preimages; an account that does not exist and a new
    account are not distinguished. *)
Definition static_eq (s s' : astate) : Prop :=
  (forall a, acct s' a = acct s a) /\ refund s' = refund s /\ logs s' = logs s /\
  logSize s' = logSize s /\ txinfo s' = txinfo s.

#[export] Instance static_eq_equivalence : Equivalence static_eq.
Proof.
  split.
  - by intros s.
  - intros s s' (? & ? & ? & ? & ?). by repeat split.
  - intros s1 s2 s3 (Ha & ? & ? & ? & ?) (Hb & ? & ? & ? & ?).
    repeat split; congruence.
Qed.

Lemma static_on_account a f s : f (acct s a) = acct s a -> static_eq s (on_account a f s).
Proof.
  intros Hf. repeat split. intros b. destruct (decide (a = b)) as [<-|].
  - by rewrite acct_on_account_eq.
  - by rewrite acct_on_account_ne.
Qed.

Lemma with_balance_id c v : v = 0 -> with_balance (fun b => b + Z.max 0 v) c = c.
Proof. intros ->. destruct c. unfold with_balance. cbn. f_equal. lia. Qed.

(** * Byte arrays of accounts *)

Definition bytes_of (s : astate) (a : Address) : gmap Hash (list byte) := a_bytes (acct s a).

Lemma bytes_of_set s a k v b :
  len v <> 0 ->
  bytes_of (abs_update (USetStateByteArray a k v) s) b =
  if decide (a = b) then <[k := v]> (bytes_of s b) else bytes_of s b.
Proof.
  intros Hv. unfold bytes_of. cbn [abs_update]. destruct (decide (a = b)) as [->|].
  - rewrite acct_on_account_eq. unfold with_bytes. cbn [a_bytes]. by destruct (Z.eqb_spec (len v) 0).
  - by rewrite acct_on_account_ne.
Qed.

Lemma bytes_of_clear s a k b :
  bytes_of (abs_update (USetStateByteArray a k []) s) b =
  if decide (a = b) then delete k (bytes_of s b) else bytes_of s b.
Proof.
  unfold bytes_of. cbn [abs_update]. destruct (decide (a = b)) as [->|].
  - by rewrite acct_on_account_eq.
  - by rewrite acct_on_account_ne.
Qed.

(** The updates that keep the byte arrays. *)
Definition keeps_bytes (u : update) : Prop :=
  match u with UCreateAccount _ | USetStateByteArray _ _ _ => False | _ => True end.

Lemma bytes_of_on_account s a f b :
  (forall c, a_bytes (f c) = a_bytes c) -> bytes_of (on_account a f s) b = bytes_of s b.
Proof.
  intros Hf. unfold bytes_of. destruct (decide (a = b)) as [->|].
  - by rewrite acct_on_account_eq.
  - by rewrite acct_on_account_ne.
Qed.

Lemma bytes_of_keep u s a : keeps_bytes u -> bytes_of (abs_update u s) a = bytes_of s a.
Proof.
  intros Hu. destruct u; cbn [abs_update]; try done; try (by apply bytes_of_on_account).
  - destruct (accounts s !! a0) as [c|] eqn:E; [|done].
    trans (bytes_of (on_account a0 destroyed s) a); [|by apply bytes_of_on_account].
    unfold on_account, acct. by rewrite E.
  - unfold add_log. by destruct (txinfo s) as [[? ?] ?].
  - by destruct (preimages s !! h).
Qed.

(** * What a failing contract leaves: a well-formed database with its snapshots *)
Section Moves.
Context {db : Type} `{!StateDB db} {hash : list byte -> Hash} `{!StateDBSpec db hash}.
Implicit Types d : db.

Record moves d d' : Prop := {
  moves_ok : db_ok d';
  moves_covers : forall i s, covers d i s -> covers d' i s;
}.

Lemma moves_refl d : db_ok d -> moves d d.
Proof. by split. Qed.

Lemma moves_update d d' u : moves d d' -> moves d (apply_update u d').
Proof. intros []. split; [by apply update_ok|]. intros. by apply update_covers; auto. Qed.

Lemma moves_trans d1 d2 d3 : moves d1 d2 -> moves d2 d3 -> moves d1 d3.
Proof. intros [] []. split; auto. Qed.
End Moves.

(** * Iteration over byte arrays *)

(** The iteration visits every entry once; entries that have been cleared may be
    visited with an empty value. *)
Class StateIterSpec (db : Type) `{!StateDB db} `{!StateIter db} (hash : list byte -> Hash) `{!StateDBSpec db hash} :=
  ForEach_spec d a : db_ok d ->
    filter (fun e => len e.2 <> 0) (ForEachStorageByteArray d a) ≡ₚ map_to_list (bytes_of (abs d) a).
