(* ===== verification/GasTable.v ===== *)
(** Gas costs: core/vm/gas.go and core/vm/gas_table.go.

    A gas function receives the requested memory size and the running frame;
    it returns the cost or an error and may change the frame: the memory's
    [lastGasCost], the gas operand of a call on the stack, the refund counter
    of the database. *)

From S2P Require Import Prelude BigMath VmData VmState.
Import Big GoMath Common VmCommon Params.

Definition GasQuickStep := 2.
Definition GasFastestStep := 3.
Definition GasFastStep := 5.
Definition GasMidStep := 8.
Definition GasSlowStep := 10.
Definition GasExtStep := 20.

(** callGas returns the actual gas cost of the call.  [availableGas - base] is
    uint64 arithmetic and wraps when base is larger. *)
Definition callGas (gasTable : GasTable) (availableGas base callCost : Z)
    : Z + vmerror :=
  let gas :=
    let availableGas := u64 (availableGas - base) in
    u64 (availableGas - availableGas / 64) in
  if (gt_CreateBySuicide gasTable >? 0) &&
     ((BitLen callCost >? 64) || (gas <? Uint64 callCost)) then inl gas
  else if BitLen callCost >? 64 then inr errGasUintOverflow
  else inl (Uint64 callCost).

(** memoryGasCost calculates the quadratic gas for memory expansion and
    records the total in [lastGasCost]. *)
Definition memoryGasCost (mem : Memory.Memory) (newMemSize : Z)
    : (Z * Memory.Memory) + vmerror :=
  if newMemSize =? 0 then inl (0, mem)
  else if newMemSize >? 0xffffffffe0 then inr errGasUintOverflow
  else
    let newMemSizeWords := toWordSize newMemSize in
    let newMemSize := u64 (newMemSizeWords * 32) in
    if newMemSize >? u64 (Memory.Len mem) then
      let square := u64 (newMemSizeWords * newMemSizeWords) in
      let linCoef := u64 (newMemSizeWords * MemoryGas) in
      let quadCoef := square / QuadCoeffDiv in
      let newTotalFee := u64 (linCoef + quadCoef) in
      let fee := u64 (newTotalFee - Memory.lastGasCost mem) in
      inl (fee, Memory.mkMemory (Memory.store mem) newTotalFee)
    else inl (0, mem).

Section GasTable.
Context {db : Type} `{StateDB db}.

Definition gasFunc : Type := GasTable -> Z -> M db Z.

Definition memGas (memorySize : Z) : M db Z :=
  m ← gets memory;
  match memoryGasCost m memorySize with
  | inl (fee, m') => set_memory m';; mret fee
  | inr err => throw err
  end.

(** [if gas, overflow = math.SafeAdd(a, b); overflow { return 0, err }] *)
Definition checked (r : Z * bool) : M db Z :=
  let '(v, overflow) := r in
  if overflow then throw errGasUintOverflow else mret v.

Definition constGasFunc (gas : Z) : gasFunc := fun _ _ => mret gas.

Definition gasCallDataCopy : gasFunc := fun gt memorySize =>
  gas ← memGas memorySize;
  gas ← checked (SafeAdd gas GasFastestStep);
  b2 ← back 2;
  words ← checked (bigUint64 b2);
  words ← checked (SafeMul (toWordSize words) CopyGas);
  checked (SafeAdd gas words).

Definition gasReturnDataCopy : gasFunc := fun gt memorySize =>
  gas ← memGas memorySize;
  gas ← checked (SafeAdd gas GasFastestStep);
  b2 ← back 2;
  words ← checked (bigUint64 b2);
  words ← checked (SafeMul (toWordSize words) CopyGas);
  checked (SafeAdd gas words).

Definition gasSStore : gasFunc := fun gt memorySize =>
  y ← back 1; x ← back 0;
  d ← get_db; a ← address;
  let val := GetState d a (BigToHash x) in
  if EmptyHash val && negb (EmptyHash (BigToHash y)) then mret SstoreSetGas
  else if negb (EmptyHash val) && EmptyHash (BigToHash y) then
    update_db (AddRefund SstoreRefundGas);;
    mret SstoreClearGas
  else mret SstoreResetGas.

Definition makeGasLog (n : Z) : gasFunc := fun gt memorySize =>
  b1 ← back 1;
  requestedSize ← checked (bigUint64 b1);
  gas ← memGas memorySize;
  gas ← checked (SafeAdd gas LogGas);
  gas ← checked (SafeAdd gas (u64 (n * LogTopicGas)));
  memorySizeGas ← checked (SafeMul requestedSize LogDataGas);
  checked (SafeAdd gas memorySizeGas).

Definition gasSha3 : gasFunc := fun gt memorySize =>
  gas ← memGas memorySize;
  gas ← checked (SafeAdd gas Sha3Gas);
  b1 ← back 1;
  wordGas ← checked (bigUint64 b1);
  wordGas ← checked (SafeMul (toWordSize wordGas) Sha3WordGas);
  checked (SafeAdd gas wordGas).

Definition gasCodeCopy : gasFunc := fun gt memorySize =>
  gas ← memGas memorySize;
  gas ← checked (SafeAdd gas GasFastestStep);
  b2 ← back 2;
  wordGas ← checked (bigUint64 b2);
  wordGas ← checked (SafeMul (toWordSize wordGas) CopyGas);
  checked (SafeAdd gas wordGas).

Definition gasExtCodeCopy : gasFunc := fun gt memorySize =>
  gas ← memGas memorySize;
  gas ← checked (SafeAdd gas (gt_ExtcodeCopy gt));
  b3 ← back 3;
  wordGas ← checked (bigUint64 b3);
  wordGas ← checked (SafeMul (toWordSize wordGas) CopyGas);
  checked (SafeAdd gas wordGas).

Definition gasMLoad : gasFunc := fun gt memorySize =>
  gas ← memGas memorySize;
  checked (SafeAdd gas GasFastestStep).

Definition gasMStore8 : gasFunc := fun gt memorySize =>
  gas ← memGas memorySize;
  checked (SafeAdd gas GasFastestStep).

Definition gasMStore : gasFunc := fun gt memorySize =>
  gas ← memGas memorySize;
  checked (SafeAdd gas GasFastestStep).

Definition gasCreate : gasFunc := fun gt memorySize =>
  gas ← memGas memorySize;
  checked (SafeAdd gas CreateGas).

Definition gasBalance : gasFunc := fun gt _ => mret (gt_Balance gt).
Definition gasExtCodeSize : gasFunc := fun gt _ => mret (gt_ExtcodeSize gt).
Definition gasSLoad : gasFunc := fun gt _ => mret (gt_SLoad gt).

Definition gasExp : gasFunc := fun gt _ =>
  e ← back 1;
  let expByteLen := (BitLen e + 7) / 8 in
  let gas := u64 (expByteLen * gt_ExpByte gt) in
  checked (SafeAdd gas GasSlowStep).

(** [stack.data[stack.len()-1] = cg] after callGas, and the final sum: the
    common end of the four call gas functions. *)
Definition chargeCall (gt : GasTable) (gas : Z) : M db Z :=
  c ← gets contract;
  b0 ← back 0;
  match callGas gt (Gas c) gas b0 with
  | inr err => throw err
  | inl cg =>
      st ← gets stack;
      set_stack (<[0%nat := cg]> st);;
      checked (SafeAdd gas cg)
  end.

Definition gasCall : gasFunc := fun gt memorySize =>
  b2 ← back 2; b1 ← back 1;
  d ← get_db;
  let gas := gt_Calls gt in
  let transfersValue := negb (Sign b2 =? 0) in
  let address := BigToAddress b1 in
  let gas := if transfersValue && Empty d address then u64 (gas + CallNewAccountGas) else gas in
  let gas := if transfersValue then u64 (gas + CallValueTransferGas) else gas in
  memoryGas ← memGas memorySize;
  gas ← checked (SafeAdd gas memoryGas);
  chargeCall gt gas.

Definition gasCallCode : gasFunc := fun gt memorySize =>
  b2 ← back 2;
  let gas := gt_Calls gt in
  let gas := if negb (Sign b2 =? 0) then u64 (gas + CallValueTransferGas) else gas in
  memoryGas ← memGas memorySize;
  gas ← checked (SafeAdd gas memoryGas);
  chargeCall gt gas.

Definition gasReturn : gasFunc := fun gt memorySize => memGas memorySize.
Definition gasRevert : gasFunc := fun gt memorySize => memGas memorySize.

Definition gasSuicide : gasFunc := fun gt memorySize =>
  b0 ← back 0;
  d ← get_db; a ← address;
  let gas := gt_Suicide gt in
  let beneficiary := BigToAddress b0 in
  let gas := if Empty d beneficiary && negb (Sign (GetBalance d a) =? 0)
             then u64 (gas + gt_CreateBySuicide gt) else gas in
  (if negb (HasSuicided d a) then update_db (AddRefund SuicideRefundGas) else mret tt);;
  mret gas.

Definition gasDelegateCall : gasFunc := fun gt memorySize =>
  gas ← memGas memorySize;
  gas ← checked (SafeAdd gas (gt_Calls gt));
  chargeCall gt gas.

Definition gasStaticCall : gasFunc := fun gt memorySize =>
  gas ← memGas memorySize;
  gas ← checked (SafeAdd gas (gt_Calls gt));
  chargeCall gt gas.

Definition gasPush : gasFunc := fun _ _ => mret GasFastestStep.
Definition gasSwap : gasFunc := fun _ _ => mret GasFastestStep.
Definition gasDup : gasFunc := fun _ _ => mret GasFastestStep.
End GasTable.
