(* ===== verification/GasTheorems.v ===== *)
(** What the gas functions charge: the quadratic price of memory with the range
    in which it is exact, and the 63/64 rule for the gas of a callee. *)

From S2P Require Import Prelude BigMath VmData VmState GasTable.
Import Big GoMath Common VmCommon Params.

(** The price of a memory of [w] words. *)
Definition memory_price (w : Z) : Z := 3 * w + w * w / 512.

(** Memory is a whole number of words and [lastGasCost] is its price. *)
Definition priced (m : Memory.Memory) : Prop :=
  exists w, 0 <= w < 2 ^ 32 /\ Memory.Len m = 32 * w /\ Memory.lastGasCost m = memory_price w.

Lemma memory_price_mono v w : 0 <= v <= w -> memory_price v <= memory_price w.
Proof.
  intros. unfold memory_price. pose proof (Z.div_le_mono (v * v) (w * w) 512). nia.
Qed.

Lemma memory_price_bound w : 0 <= w < 2 ^ 32 -> 0 <= memory_price w < 2 ^ 56.
Proof.
  intros. unfold memory_price. pose proof (Z.div_le_upper_bound (w * w) 512 (2 ^ 55)).
  pose proof (Z.div_pos (w * w) 512). nia.
Qed.

Lemma memoryGasCost_words m size w :
  0 < size < 2 ^ 37 - 32 -> 0 <= w < 2 ^ 32 -> Memory.Len m = 32 * w ->
  Memory.lastGasCost m = memory_price w ->
  let sw := (size + 31) / 32 in
  memoryGasCost m size =
  if w <? sw then inl (memory_price sw - memory_price w, Memory.mkMemory (Memory.store m) (memory_price sw))
  else inl (0, m).
Proof.
  intros Hs Hw Hlen Hlast sw. assert (0 < sw < 2 ^ 32) as Hsw by (unfold sw; zlia).
  pose proof (memory_price_bound w Hw). pose proof (memory_price_bound sw ltac:(lia)).
  unfold memoryGasCost. replace (size =? 0) with false by lia. replace (size >? _) with false by lia.
  rewrite toWordSize_spec by lia. fold sw. rewrite Hlen, Hlast, (u64_small (sw * 32)), (u64_small (32 * w)) by lia.
  replace (sw * 32 >? 32 * w) with (w <? sw) by lia. destruct (Z.ltb_spec w sw) as [Hlt|]; [|done].
  assert (u64 (u64 (sw * MemoryGas) + u64 (sw * sw) / QuadCoeffDiv) = memory_price sw) as ->.
  { unfold MemoryGas, QuadCoeffDiv. rewrite (u64_small (sw * 3)), (u64_small (sw * sw)) by nia.
    rewrite u64_small; unfold memory_price in *; lia. }
  pose proof (memory_price_mono w sw ltac:(lia)). rewrite u64_small by lia. done.
Qed.

(** Memory is paid by its quadratic price: expanding a memory of [w] words to
    a size of up to 2^32 - 1 words costs exactly the difference of the two
    prices, an access inside the memory is free, and [lastGasCost] is the price
    of the memory after it is resized. *)
Theorem memory_gas_exact m size :
  priced m -> 0 <= size < 2 ^ 37 - 32 ->
  let words := Z.max (Memory.Len m / 32) ((size + 31) / 32) in
  exists m', memoryGasCost m size = inl (memory_price words - Memory.lastGasCost m, m') /\
    priced (Memory.Resize m' (32 * ((size + 31) / 32))) /\
    Memory.Len (Memory.Resize m' (32 * ((size + 31) / 32))) = 32 * words.
Proof.
  intros (w & Hw & Hlen & Hlast) Hs. set (sw := (size + 31) / 32).
  assert (0 <= sw < 2 ^ 32) by (unfold sw; zlia).
  replace (Memory.Len m / 32) with w by (rewrite Hlen; zlia). cbn zeta. rewrite Hlast.
  assert (forall m', Memory.Len m' = 32 * w ->
    Memory.lastGasCost m' = memory_price (Z.max w sw) ->
    priced (Memory.Resize m' (32 * sw)) /\ Memory.Len (Memory.Resize m' (32 * sw)) = 32 * Z.max w sw) as Hres.
  { intros m' Hm' Hl'. assert (Memory.Len (Memory.Resize m' (32 * sw)) = 32 * Z.max w sw)
      by (rewrite Memory.Resize_len; lia).
    split; [|done]. exists (Z.max w sw). split; [lia|]. split; [done|].
    unfold Memory.Resize. by destruct (_ <? _). }
  destruct (decide (w < sw)) as [Hlt|Hge].
  - exists (Memory.mkMemory (Memory.store m) (memory_price sw)). rewrite Z.max_r in * by lia.
    split; [|by apply Hres]. rewrite (memoryGasCost_words m size w); try done; [|unfold sw in *; zlia].
    fold sw. by replace (w <? sw) with true by lia.
  - exists m. rewrite Z.max_l in * by lia. split; [|by apply Hres]. rewrite Z.sub_diag.
    destruct (decide (size = 0)) as [->|]; [done|].
    rewrite (memoryGasCost_words m size w); try done; [|lia]. fold sw. by replace (w <? sw) with false by lia.
Qed.

Lemma memory_gas_exact_witness :
  exists m', memoryGasCost Memory.NewMemory 100 = inl (memory_price 4, m') /\
    priced (Memory.Resize m' 128) /\ Memory.Len (Memory.Resize m' 128) = 128.
Proof. apply (memory_gas_exact Memory.NewMemory 100); [by exists 0|lia]. Defined.

(** The bound on the memory size does not prevent overflow of the price: a
    size of 2^37 bytes (2^32 words) passes the check, but the square of the
    number of words wraps around to zero in 64 bits, and the fee is the linear
    part only, less than a millionth of the price; the comment above the check
    calls 0xffffffffe0 the highest size that does not overflow. *)
Theorem memory_gas_overflow :
  memoryGasCost Memory.NewMemory (2 ^ 37) =
    inl (12884901888, Memory.mkMemory [] 12884901888) /\
  12884901888 * 1000000 < memory_price (2 ^ 32).
Proof. by split. Qed.

(** A callee gets at most 63/64 of what is left: when the caller can pay the
    base cost of the call, the gas handed over is the requested gas, capped by
    the remaining gas minus a 64th of it. *)
Theorem call_gas_64th available base requested :
  0 <= base <= available -> available < 2 ^ 64 -> 0 <= requested ->
  let rest := available - base in
  callGas GasTableEIP158 available base requested = inl (Z.min requested (rest - rest / 64)) /\
  rest / 64 <= rest - Z.min requested (rest - rest / 64).
Proof.
  intros Hb Ha Hr rest. unfold callGas. rewrite (u64_small (available - base)) by lia. fold rest.
  rewrite u64_small by (unfold rest; zlia). cbn [gt_CreateBySuicide GasTableEIP158].
  pose proof (BitLen_le requested 64 ltac:(lia)). rewrite Z.abs_eq in * by lia.
  split; [|zlia]. change (25000 >? 0) with true. cbn [andb].
  destruct (Z.le_gt_cases (BitLen requested) 64) as [Hl|Hl].
  - replace (BitLen requested >? 64) with false by lia. rewrite Uint64_small by lia. cbn [orb].
    destruct (Z.ltb_spec (rest - rest / 64) requested); f_equal; lia.
  - replace (BitLen requested >? 64) with true by lia. cbn [orb]. f_equal. unfold rest in *. zlia.
Qed.

Lemma call_gas_64th_witness :
  callGas GasTableEIP158 7100 700 (2 ^ 80) = inl 6300 /\ 100 <= 6400 - 6300.
Proof. apply (call_gas_64th 7100 700 (2 ^ 80)); lia. Defined.
