(* ===== verification/Ota.v ===== *)
(** One-time accounts: core/vm/ota_storage.go over the StateDB interface, and
    the native addresses of core/vm/precompiled_contracts_addr.go.

    A function that returns an error is a computation that fails; the tests for
    a nil database or balance have no counterpart, and a value missing in the
    byte-array storage, which Go reads as nil, is the empty list. *)

From S2P Require Import Prelude BigMath Encoding VmData VmState.
Import Big Common.

(** * core/vm/precompiled_contracts_addr.go *)
Module Addr.
Definition small (n : Z) : Address := BytesToAddress (Bytes n).
Definition dataCopyPrecompileAddr := small 4.
Definition bigModExpPrecompileAddr := small 5.
Definition wanCoinPrecompileAddr : Address := BytesToAddress [Z_byte 100].
Definition wanStampPrecompileAddr : Address := BytesToAddress [Z_byte 200].
Definition WanCscPrecompileAddr := small 218.
Definition otaBalanceStorageAddr := small 300.
Definition otaImageStorageAddr := small 301.
Definition slotLeaderPrecompileAddr := small 600.
Definition IncentivePrecompileAddr := small 606.
Definition randomBeaconPrecompileAddr := small 610.
Definition PosControlPrecompileAddr := small 612.

Definition IsPosPrecompiledAddr (addr : option Address) : bool :=
  match addr with
  | None => false
  | Some a => bool_decide (a = slotLeaderPrecompileAddr) || bool_decide (a = IncentivePrecompileAddr)
              || bool_decide (a = randomBeaconPrecompileAddr)
  end.
End Addr.

Definition WAddressLength : Z := 66.

(** * core/vm/ota_storage.go *)
Module Ota.
Import Addr.

Definition OTABalance2ContractAddr (balance : Z) : Address := HexToAddress (big_String balance).

Section Ota.
Context {db : Type} `{!StateDB db} (Keccak256Hash : list byte -> Hash).
Abbreviation M := (ST db vmerror).

Definition read_bytes (a : Address) (k : Hash) : M (list byte) := gets (fun d => GetStateByteArray d a k).
Definition write_bytes (a : Address) (k : Hash) (v : list byte) : M unit := modify (SetStateByteArray a k v).

Definition GetAXFromWanAddr (otaWanAddr : list byte) : M (list byte) :=
  if negb (len otaWanAddr =? WAddressLength) then throw ErrInvalidOTAAddr
  else must (slice otaWanAddr 1 (1 + Z.of_nat HashLength)).

(** No error is returned: a wrong length gives false. *)
Definition IsAXPointToWanAddr (AX otaWanAddr : list byte) : bool :=
  (len otaWanAddr =? WAddressLength) &&
  bool_decide (slice otaWanAddr 1 (1 + Z.of_nat HashLength) = Some AX).

Definition GetOtaBalanceFromAX (otaAX : list byte) : M Z :=
  if negb (len otaAX =? Z.of_nat HashLength) then throw ErrInvalidOTAAX
  else
    balance ← read_bytes otaBalanceStorageAddr (BytesToHash otaAX);
    if len balance =? 0 then mret 0 else mret (SetBytes balance).

Definition SetOtaBalanceToAX (otaAX : list byte) (balance : Z) : M unit :=
  if negb (len otaAX =? Z.of_nat HashLength) then throw ErrInvalidOTAAX
  else write_bytes otaBalanceStorageAddr (BytesToHash otaAX) (Bytes balance).

(** Existence, and the balance of an account that exists. *)
Definition CheckOTAAXExist (otaAX : list byte) : M (bool * option Z) :=
  if negb (len otaAX =? Z.of_nat HashLength) then throw ErrInvalidOTAAX
  else
    balance ← GetOtaBalanceFromAX otaAX;
    if balance =? 0 then mret (false, None) else mret (true, Some balance).

Definition CheckOTALongAddrExist (otaLongAddr : list byte) : M (bool * option Z) :=
  if negb (len otaLongAddr =? 33) then throw ErrInvalidOTAAX
  else
    otaAX ← must (slice otaLongAddr 1 (1 + Z.of_nat HashLength));
    balance ← GetOtaBalanceFromAX otaAX;
    if balance =? 0 then mret (false, None)
    else
      otaStored ← read_bytes (OTABalance2ContractAddr balance) (BytesToHash otaAX);
      if len otaStored =? 0 then mret (false, None)
      else
        stored33 ← must (slice otaStored 0 33);
        if negb (bool_decide (otaLongAddr = stored33)) then mret (false, None)
        else mret (true, Some balance).

(** The loop of BatCheckOTAExist; [balance] is the balance of the accounts seen
    so far. *)
Fixpoint batCheck (otaLongAddrs : list (list byte)) (balance : option Z) : M (option Z) :=
  match otaLongAddrs with
  | [] => mret balance
  | ota :: rest =>
      if negb (len ota =? 33) then throw ErrInvalidOTAAX
      else
        '(found, balanceTmp) ← CheckOTALongAddrExist ota;
        if negb found then throw (errOtaNotExist ota)
        else
          b ← must balanceTmp;
          if b =? 0 then throw (errOtaZeroBalance ota)
          else
            match balance with
            | None => batCheck rest (Some b)
            | Some b0 => if negb (b0 =? b) then throw (errOtaBalancesDiffer ota)
                         else batCheck rest balance
            end
  end.

Definition BatCheckOTAExist (otaLongAddrs : list (list byte)) : M (option Z) :=
  if len otaLongAddrs =? 0 then throw ErrUnknown else batCheck otaLongAddrs None.

Definition setOTA (balance : Z) (otaWanAddr : list byte) : M unit :=
  if negb (len otaWanAddr =? WAddressLength) then throw ErrInvalidOTAAddr
  else
    otaAX ← GetAXFromWanAddr otaWanAddr;
    write_bytes (OTABalance2ContractAddr balance) (BytesToHash otaAX) otaWanAddr;;
    SetOtaBalanceToAX otaAX balance.

Definition AddOTAIfNotExist (balance : Z) (otaWanAddr : list byte) : M bool :=
  if negb (len otaWanAddr =? WAddressLength) then throw ErrInvalidOTAAddr
  else
    otaAX ← GetAXFromWanAddr otaWanAddr;
    '(found, _) ← CheckOTAAXExist (Hash_Bytes (BytesToHash otaAX));
    if found : bool then throw ErrOTAExistAlready
    else setOTA balance otaWanAddr;; mret true.

Definition GetOTAInfoFromAX (otaAX : list byte) : M (option (list byte) * Z) :=
  if len otaAX <? Z.of_nat HashLength then throw ErrInvalidOTAAX
  else
    let otaAddrKey := BytesToHash otaAX in
    balance ← GetOtaBalanceFromAX (Hash_Bytes otaAddrKey);
    if balance =? 0 then throw ErrOTABalanceIsZero
    else
      otaValue ← read_bytes (OTABalance2ContractAddr balance) otaAddrKey;
      mret (if negb (len otaValue =? 0) then Some otaValue else None, balance).

Definition CheckOTAImageExist (otaImage : list byte) : M (bool * list byte) :=
  if len otaImage =? 0 then throw errInvalidInputParam
  else
    otaImageValue ← read_bytes otaImageStorageAddr (Keccak256Hash otaImage);
    if negb (len otaImageValue =? 0) then mret (true, otaImageValue) else mret (false, []).

Definition AddOTAImage (otaImage value : list byte) : M unit :=
  if (len otaImage =? 0) || (len value =? 0) then throw errInvalidInputParam
  else write_bytes otaImageStorageAddr (Keccak256Hash otaImage) value.
End Ota.
End Ota.
