(* ===== verification/Privacy.v ===== *)
(** The native contracts of private transactions: the wancoin and stamp contracts
    of core/vm/contracts.go (wanCoinSC, wanchainStampSC), the parsing and
    checking of ring signatures, and the identity contract.

    The verification of a ring signature (crypto.VerifyRingSign, elliptic-curve
    arithmetic) is a parameter. *)

From S2P Require Import Prelude BigMath Encoding Abi VmData VmState Ota.
Import Big GoMath Common Params Addr Ota Secp.

Module Privacy.

Definition RequiredGasPerMixPub : Z := 4000.
Definition IdentityPerWordGas : Z := 3.
Definition IdentityBaseGas : Z := 15.

(** The values of the maps StampValueSet and WanCoinValueSet, whose keys are the
    values in base 16. *)
Definition StampValueSet : list Z :=
  [1000000000000000; 2000000000000000; 5000000000000000; 3000000000000000; 6000000000000000;
   9000000000000000; 30000000000000000; 60000000000000000; 90000000000000000;
   200000000000000000; 300000000000000000; 500000000000000000].
Definition WanCoinValueSet : list Z :=
  [10000000000000000000; 20000000000000000000; 50000000000000000000; 100000000000000000000;
   200000000000000000000; 500000000000000000000; 1000000000000000000000;
   5000000000000000000000; 50000000000000000000000].

(** DecodeRingSignOut: public keys, key image, w and q, separated by '+', each a
    list separated by '&'.  Every error is ErrInvalidRingSigned. *)
Definition parsePub (s : list byte) : option PublicKey := ToECDSAPub (FromHex s).
Definition parseBig (s : list byte) : option Z :=
  match Hexutil.DecodeBig s with inl n => Some n | inr _ => None end.

Definition DecodeRingSignOut (s : list byte)
    : option (list PublicKey * PublicKey * list Z * list Z) :=
  match Strings.Split "+" s with
  | ps :: k :: ws :: qs :: _ =>
      publickeys ← mapM parsePub (Strings.Split "&" ps);
      keyimage ← parsePub k;
      w ← mapM parseBig (Strings.Split "&" ws);
      q ← mapM parseBig (Strings.Split "&" qs);
      if negb (len publickeys =? len w) || negb (len publickeys =? len q) then None
      else Some (publickeys, keyimage, w, q)
  | _ => None
  end.

Record RingSignInfo := mkRingSignInfo {
  PublicKeys : list PublicKey;
  KeyImage : PublicKey;
  W_Random : list Z;
  Q_Random : list Z;
  OTABalance : Z;
}.

Section Contracts.
Context {db : Type} `{!StateDB db} (Keccak256Hash : list byte -> Hash).
Context (VerifyRingSign : list byte -> list PublicKey -> PublicKey -> list Z -> list Z -> bool).
Abbreviation M := (ST db vmerror).

(** Method.Id of accounts/abi/method.go *)
Definition Id (sig : list byte) : list byte := take 4 (Hash_Bytes (Keccak256Hash sig)).
Definition buyIdArr : list byte := Id (str "buyCoinNote(string,uint256)").
Definition refundIdArr : list byte := Id (str "refundCoin(string,uint256)").
Definition stBuyId : list byte := Id (str "buyStamp(string,uint256)").

(** The arguments (string, uint256) of the methods, or the error [err]. *)
Definition unpackArgs (unpack : list Abi.Ty -> list byte -> Abi.R (list Abi.value)) (payload : list byte)
    (err : vmerror) : M (list byte * Z) := fun d =>
  match unpack [Abi.StringTy; Abi.UintTy 256] payload tt with
  | Ok [Abi.VString s; Abi.VInt v] _ => Ok (s, v) d
  | Ok _ _ => Panic
  | Fail _ _ => Fail err d
  | Panic => Panic
  | OutOfFuel => OutOfFuel
  end.

(** Replace any error of a computation. *)
Definition orFail {A} (m : M A) (err : vmerror) : M A := fun d =>
  match m d with Fail _ d' => Fail err d' | r => r end.

(** hexutil.Decode, whose errors are numbered. *)
Definition hexDecode (s : list byte) : M (list byte) :=
  match Hexutil.Decode s with
  | (b, None) => mret b
  | (_, Some Hexutil.ErrEmptyString) => throw (errHex 0)
  | (_, Some Hexutil.ErrMissingPrefix) => throw (errHex 1)
  | (_, Some Hexutil.ErrOddLength) => throw (errHex 2)
  | (_, Some _) => throw (errHex 3)
  end.

Definition FetchRingSignInfo (hashInput ringSignedStr : list byte) : M RingSignInfo :=
  match DecodeRingSignOut ringSignedStr with
  | None => throw ErrInvalidRingSigned
  | Some (pks, image, w, q) =>
      balanceGet ← BatCheckOTAExist (ECDSAPKCompression <$> pks);
      balance ← must balanceGet;
      if negb (VerifyRingSign hashInput pks image w q) then throw ErrInvalidRingSigned
      else mret (mkRingSignInfo pks image w q balance)
  end.

(** ** wanchainStampSC *)

(** An invalid address leaves [ax] nil; the error of GetAXFromWanAddr is
    overwritten by that of the next call. *)
Definition ValidBuyStampReq (payload : list byte) (value : Z) : M (list byte) :=
  if len payload =? 0 then throw errUnknownError
  else
    '(OtaAddr, Value) ← unpackArgs Abi.UnpackTmp payload errBuyStamp;
    if negb (Value =? value) then throw ErrMismatchedValue
    else if negb (bool_decide (Value ∈ StampValueSet)) then throw errStampValue
    else
      wanAddr ← hexDecode OtaAddr;
      ax ← (fun d => match GetAXFromWanAddr wanAddr d with Fail _ d' => Ok [] d' | r => r end);
      '(found, _) ← CheckOTAAXExist ax;
      if found : bool then throw ErrOTAReused else mret wanAddr.

(** The end of buyStamp and buyCoin: the caller pays the value. *)
Definition pay (c : Contract) : M (list byte) :=
  balance ← gets (fun d => GetBalance d (CallerAddress c));
  if balance >=? value c then modify (SubBalance (CallerAddress c) (value c));; mret [x01]
  else throw errBalance.

Definition buyStamp (input : list byte) (c : Contract) : M (list byte) :=
  wanAddr ← ValidBuyStampReq input (value c);
  add ← orFail (AddOTAIfNotExist (value c) wanAddr) errBuyStamp;
  if negb add then throw errBuyStamp else pay c.

Definition stampRequiredGas (input : list byte) : Z := SstoreSetGas * 2.

Definition stampRun (input : list byte) (c : Contract) : M (list byte) :=
  if len input <? 4 then throw errParameters
  else if bool_decide (take 4 input = stBuyId) then buyStamp (drop 4 input) c
  else throw errMethodId.

(** ** wanCoinSC *)

Definition coinRequiredGas (input : list byte) : Z :=
  if len input <? 4 then 0
  else if bool_decide (take 4 input = refundIdArr) then
    match Abi.Unpack [Abi.StringTy; Abi.UintTy 256] (drop 4 input) tt with
    | Ok [Abi.VString s; _] _ =>
        match DecodeRingSignOut s with
        | None => RequiredGasPerMixPub
        | Some (publickeys, _, _, _) =>
            u64 (u64 (RequiredGasPerMixPub * u64 (len publickeys)) + SstoreSetGas)
        end
    | _ => RequiredGasPerMixPub
    end
  else SstoreSetGas * 2.

Definition ValidBuyCoinReq (payload : list byte) (txValue : Z) : M (list byte) :=
  if len payload =? 0 then throw errUnknownError
  else
    '(OtaAddr, Value) ← unpackArgs Abi.Unpack payload errBuyCoin;
    if negb (Value =? txValue) then throw ErrMismatchedValue
    else if negb (bool_decide (Value ∈ WanCoinValueSet)) then throw errCoinValue
    else
      wanAddr ← hexDecode OtaAddr;
      ax ← GetAXFromWanAddr wanAddr;
      '(found, _) ← CheckOTAAXExist ax;
      if found : bool then throw ErrOTAReused else mret wanAddr.

Definition buyCoin (input : list byte) (c : Contract) : M (list byte) :=
  otaAddr ← ValidBuyCoinReq input (value c);
  add ← orFail (AddOTAIfNotExist (value c) otaAddr) errBuyCoin;
  if negb add then throw errBuyCoin else pay c.

Definition ValidRefundReq (payload from : list byte) : M (list byte * Z) :=
  if (len payload =? 0) || (len from =? 0) then throw errUnknownError
  else
    '(RingSignedData, Value) ← unpackArgs Abi.Unpack payload errRefundCoin;
    info ← FetchRingSignInfo from RingSignedData;
    if negb (OTABalance info =? Value) then throw ErrMismatchedValue
    else
      let kix := FromECDSAPub (KeyImage info) in
      '(found, _) ← CheckOTAImageExist Keccak256Hash kix;
      if found : bool then throw ErrOTAReused else mret (kix, Value).

Definition refund (all : list byte) (c : Contract) : M (list byte) :=
  '(kix, v) ← ValidRefundReq all (Address_Bytes (CallerAddress c));
  AddOTAImage Keccak256Hash kix (Bytes v);;
  modify (AddBalance (CallerAddress c) v);;
  mret [x01].

Definition coinRun (input : list byte) (c : Contract) : M (list byte) :=
  if len input <? 4 then throw errParameters
  else if bool_decide (take 4 input = buyIdArr) then buyCoin (drop 4 input) c
  else if bool_decide (take 4 input = refundIdArr) then refund (drop 4 input) c
  else throw errMethodId.

(** ** dataCopy *)

Definition dataCopyRequiredGas (input : list byte) : Z :=
  u64 (u64 (u64 (len input + 31) / 32 * IdentityPerWordGas) + IdentityBaseGas).
Definition dataCopyRun (input : list byte) (c : Contract) : M (list byte) := mret input.

(** A native contract from its Run method; no data is returned with an error. *)
Definition native (gas : list byte -> Z) (run : list byte -> Contract -> M (list byte))
    : PrecompiledContract db :=
  mkPrecompiled db gas (fun input c _ d =>
    match run input c d with
    | Ok ret d' => Some (ret, None, d')
    | Fail err d' => Some ([], Some err, d')
    | Panic | OutOfFuel => None
    end).
End Contracts.
End Privacy.
