(* ===== verification/Staking.v ===== *)
(** The staking contract: core/vm/pos_staking_contracts.go with pos_storage.go
    and contracts_event.go, the epochs of pos/util/util.go and the parameters of
    pos/posconfig/config.go.

    Amounts are big.Int, epochs and fee rates uint64 with Go's wrap-around.  A
    missing byte array, nil in Go, is the empty list. *)

From S2P Require Import Prelude BigMath Encoding Abi VmData VmState Ota Privacy Rlp RlpSpec RlpDecode RlpCodec.
Import Big Common Addr Secp.

(** * pos/posconfig/config.go *)
Module PosConfig.
Definition SlotTime : Z := 5.
Definition K : Z := 1440.
Definition SlotCount : Z := K * 12.
Definition ApolloEpochID : Z := 18104.
Definition AugustEpochID : Z := 18116.

(** Variables that the node sets when it starts: the first epoch of the chain
    (0 before proof of stake), and the epochs of two upgrades. *)
Record Config := mkConfig {
  FirstEpochId : Z;
  MercuryEpochId : Z;
  VenusEpochId : Z;
}.
End PosConfig.

(** pos/util/util.go: CalEpochSlotID *)
Definition CalEpochSlotID (time : Z) : Z * Z :=
  let epochTimespan := PosConfig.SlotTime * PosConfig.SlotCount in
  (time / epochTimespan, (time / PosConfig.SlotTime) mod PosConfig.SlotCount).
Definition CalEpochID (time : Z) : Z := (CalEpochSlotID time).1.

(** * core/vm/precompiled_contracts_addr.go *)
Definition StakersInfoAddr : Address := small 400.
Definition StakingCommonAddr : Address := small 401.
Definition StakersFeeAddr : Address := small 402.
Abbreviation WanCscPrecompileAddr := Addr.WanCscPrecompileAddr.

Module Staking.

(** ** Constants *)
Definition ether : Z := 10 ^ 18.
Definition PSMinEpochNum : Z := 7.
Definition PSMaxEpochNum : Z := 90.
Definition PSMinFeeRate : Z := 0.
Definition PSMaxFeeRate : Z := 10000.
Definition PSFeeRateStep : Z := 100.
Definition PSNodeleFeeRate : Z := 10000.
Definition MaxTimeDelegate : Z := 10.
Definition UpdateDelay : Z := 3.
Definition QuitDelay : Z := 3.
Definition JoinDelay : Z := 2.
Definition maxPartners : Z := 5.
Definition minStakeholderStake : Z := 10000 * ether.
Definition MinValidatorStake : Z := 50000 * ether.
Definition minDelegatorStake : Z := 100 * ether.
Definition maxTotalStake : Z := 10500000 * ether.
Definition minPartnerIn : Z := 10000 * ether.
Definition StakersInfoStakeOutKeyHash : Hash := BytesToHash (Bytes 700).

(** ** Parameters of the methods and stored records *)
Record StakeInParam := mkStakeIn {
  in_SecPk : list byte;
  in_Bn256Pk : list byte;
  in_LockEpochs : Z;
  in_FeeRate : Z;
  in_pub : option PublicKey;
}.
Definition set_pub (p : StakeInParam) (pub : PublicKey) : StakeInParam :=
  mkStakeIn (in_SecPk p) (in_Bn256Pk p) (in_LockEpochs p) (in_FeeRate p) (Some pub).

Record ClientInfo := mkClient {
  ci_Address : Address;
  ci_Amount : Z;
  ci_StakeAmount : Z;
  ci_QuitEpoch : Z;
}.

Record PartnerInfo := mkPartner {
  pi_Address : Address;
  pi_Amount : Z;
  pi_StakeAmount : Z;
  pi_Renewal : bool;
  pi_LockEpochs : Z;
  pi_StakingEpoch : Z;
}.

Record StakerInfo := mkStaker {
  si_Address : Address;
  si_PubSec256 : list byte;
  si_PubBn256 : list byte;
  si_Amount : Z;
  si_StakeAmount : Z;
  si_LockEpochs : Z;
  si_NextLockEpochs : Z;
  si_From : Address;
  si_StakingEpoch : Z;
  si_FeeRate : Z;
  si_Clients : list ClientInfo;
  si_Partners : list PartnerInfo;
}.

Record UpdateFeeRate := mkFeeRate {
  fr_ValidatorAddr : Address;
  fr_MaxFeeRate : Z;
  fr_FeeRate : Z;
  fr_ChangedEpoch : Z;
}.

(** The reflection of package rlp on these structs. *)
#[export] Instance client_codec : RlpCodec ClientInfo := {
  rlp_type := RLP.StructT [addressT; RLP.BigT; RLP.BigT; RLP.UintT 64];
  to_value c := RLP.VList [address_value (ci_Address c); RLP.VBig (ci_Amount c); RLP.VBig (ci_StakeAmount c);
                           RLP.VUint (ci_QuitEpoch c)];
  of_value v :=
    match v with
    | RLP.VList [a; RLP.VBig am; RLP.VBig st; RLP.VUint q] => a ← address_of a; Some (mkClient a am st q)
    | _ => None
    end;
}.

#[export] Instance partner_codec : RlpCodec PartnerInfo := {
  rlp_type := RLP.StructT [addressT; RLP.BigT; RLP.BigT; RLP.BoolT; RLP.UintT 64; RLP.UintT 64];
  to_value p := RLP.VList [address_value (pi_Address p); RLP.VBig (pi_Amount p); RLP.VBig (pi_StakeAmount p);
                           RLP.VBool (pi_Renewal p); RLP.VUint (pi_LockEpochs p); RLP.VUint (pi_StakingEpoch p)];
  of_value v :=
    match v with
    | RLP.VList [a; RLP.VBig am; RLP.VBig st; RLP.VBool re; RLP.VUint l; RLP.VUint s] =>
        a ← address_of a; Some (mkPartner a am st re l s)
    | _ => None
    end;
}.

#[export] Instance staker_codec : RlpCodec StakerInfo := {
  rlp_type := RLP.StructT [addressT; RLP.BytesT; RLP.BytesT; RLP.BigT; RLP.BigT; RLP.UintT 64; RLP.UintT 64;
                           addressT; RLP.UintT 64; RLP.UintT 64; RLP.SliceT (rlp_type ClientInfo);
                           RLP.SliceT (rlp_type PartnerInfo)];
  to_value s :=
    RLP.VList [address_value (si_Address s); RLP.VBytes (si_PubSec256 s); RLP.VBytes (si_PubBn256 s);
               RLP.VBig (si_Amount s); RLP.VBig (si_StakeAmount s); RLP.VUint (si_LockEpochs s);
               RLP.VUint (si_NextLockEpochs s); address_value (si_From s); RLP.VUint (si_StakingEpoch s);
               RLP.VUint (si_FeeRate s); RLP.VList (to_value <$> si_Clients s);
               RLP.VList (to_value <$> si_Partners s)];
  of_value v :=
    match v with
    | RLP.VList [a; RLP.VBytes sec; RLP.VBytes bn; RLP.VBig am; RLP.VBig st; RLP.VUint l; RLP.VUint nl; f;
                 RLP.VUint se; RLP.VUint fee; RLP.VList cs; RLP.VList ps] =>
        a ← address_of a; f ← address_of f; cs ← mapM of_value cs; ps ← mapM of_value ps;
        Some (mkStaker a sec bn am st l nl f se fee cs ps)
    | _ => None
    end;
}.

#[export] Instance fee_codec : RlpCodec UpdateFeeRate := {
  rlp_type := RLP.StructT [addressT; RLP.UintT 64; RLP.UintT 64; RLP.UintT 64];
  to_value f := RLP.VList [address_value (fr_ValidatorAddr f); RLP.VUint (fr_MaxFeeRate f);
                           RLP.VUint (fr_FeeRate f); RLP.VUint (fr_ChangedEpoch f)];
  of_value v :=
    match v with
    | RLP.VList [a; RLP.VUint m; RLP.VUint f; RLP.VUint c] => a ← address_of a; Some (mkFeeRate a m f c)
    | _ => None
    end;
}.

(** Updates of a record. *)
Definition set_amounts (s : StakerInfo) (amount stake : Z) : StakerInfo :=
  mkStaker (si_Address s) (si_PubSec256 s) (si_PubBn256 s) amount stake (si_LockEpochs s) (si_NextLockEpochs s)
    (si_From s) (si_StakingEpoch s) (si_FeeRate s) (si_Clients s) (si_Partners s).
Definition set_epochs (s : StakerInfo) (lock next staking : Z) : StakerInfo :=
  mkStaker (si_Address s) (si_PubSec256 s) (si_PubBn256 s) (si_Amount s) (si_StakeAmount s) lock next
    (si_From s) staking (si_FeeRate s) (si_Clients s) (si_Partners s).
Definition set_fee (s : StakerInfo) (fee : Z) : StakerInfo :=
  mkStaker (si_Address s) (si_PubSec256 s) (si_PubBn256 s) (si_Amount s) (si_StakeAmount s) (si_LockEpochs s)
    (si_NextLockEpochs s) (si_From s) (si_StakingEpoch s) fee (si_Clients s) (si_Partners s).
Definition set_members (s : StakerInfo) (cs : list ClientInfo) (ps : list PartnerInfo) : StakerInfo :=
  mkStaker (si_Address s) (si_PubSec256 s) (si_PubBn256 s) (si_Amount s) (si_StakeAmount s) (si_LockEpochs s)
    (si_NextLockEpochs s) (si_From s) (si_StakingEpoch s) (si_FeeRate s) cs ps.

(** ** Weights and keys *)
Definition CalLocktimeWeight (lockEpoch : Z) : Z :=
  if lockEpoch =? 0 then 960 + PSMinEpochNum * 6 else u64 (960 + u64 (lockEpoch * 6)).

Definition GetStakeInKeyHash (address : Address) : Hash := BytesToHash (Address_Bytes address).

(** crypto/bn256/cloudflare: whether G1.Unmarshal accepts the bytes.  Field
    elements are residues here and in Montgomery form in the code. *)
Definition bn256_P : Z := 21888242871839275222246405745257275088696311157297823662689037894645226208583.
Definition G1_Unmarshal (m : list byte) : bool :=
  if len m <? 64 then false
  else
    let x := be_val (take 32 m) in
    let y := be_val (take 32 (drop 32 m)) in
    if (x >=? bn256_P) || (y >=? bn256_P) then false
    else if (x =? 0) && (y =? 0) then true
    else (y * y) mod bn256_P =? (x * x * x + 3) mod bn256_P.

(** The errors made in place with errors.New, by message, and those of rlp. *)
Definition errParameterWrong : vmerror := errPrecompiled 1. (* parameter is wrong *)
Definition errTooShort : vmerror := errPrecompiled 2. (* parameter is too short *)
Definition errNoStaking : vmerror := errPrecompiled 3. (* noStaking specified *)
Definition errRegisterDisabled : vmerror := errPrecompiled 4. (* stakeRegister haven't enabled. *)
Definition errRegisterVerify : vmerror := errPrecompiled 5. (* stakeRegister verify failed *)
Definition errStakeInVerify : vmerror := errPrecompiled 6. (* stakein verify failed *)
Definition errAppendVerify : vmerror := errPrecompiled 7. (* stakeAppend verify failed, with the cause *)
Definition errUpdateVerify : vmerror := errPrecompiled 8. (* stakeUpdate verify failed, with the cause *)
Definition errPartnerVerify : vmerror := errPrecompiled 9. (* partnerIn verify failed, with the cause *)
Definition errDelegateInVerify : vmerror := errPrecompiled 10. (* delegateIn verify failed *)
Definition errDelegateOutVerify : vmerror := errPrecompiled 11. (* delegateOut verify failed *)
Definition errFeeDisabled : vmerror := errPrecompiled 12. (* stakeUpdateFeeRateId haven't enabled. *)
Definition errFeeVerify : vmerror := errPrecompiled 13. (* update fee rate verify failed *)
Definition errNoItem : vmerror := errPrecompiled 14. (* item doesn't exist *)
Definition errParseStaker : vmerror := errPrecompiled 15. (* parse staker info error *)
Definition errUpdateFrom : vmerror := errPrecompiled 16. (* Cannot update from another account *)
Definition errLastEpochs : vmerror := errPrecompiled 17. (* cannot change at the last 3 epoch. *)
Definition errMinPartner : vmerror := errPrecompiled 18. (* min wan amount should >= 10000 *)
Definition errWrongLock : vmerror := errPrecompiled 19. (* Wrong lock Epochs *)
Definition errPartnerTooMuch : vmerror := errPrecompiled 20. (* partner in failed, too much stake *)
Definition errTooManyPartners : vmerror := errPrecompiled 21. (* Too many partners *)
Definition errAppendFrom : vmerror := errPrecompiled 22. (* Cannot append from another account *)
Definition errAppendTooMuch : vmerror := errPrecompiled 23. (* StakeAppend in failed, too much stake *)
Definition errNeedMore : vmerror := errPrecompiled 24. (* need more Wan to be a stake holder *)
Definition errMaxStake : vmerror := errPrecompiled 25. (* max stake is 10,500,000 *)
Definition errSecExists : vmerror := errPrecompiled 26. (* public Sec address has exist *)
Definition errNoDelegation : vmerror := errPrecompiled 27. (* Validator don't accept delegation. *)
Definition errNotEnough : vmerror := errPrecompiled 28. (* Validator don't have enough amount. *)
Definition errQuiting : vmerror := errPrecompiled 29. (* dalegater is quiting. *)
Definition errDelegateTotal : vmerror := errPrecompiled 30. (* delegate over total stake limitation *)
Definition errDelegateLimit : vmerror := errPrecompiled 31. (* over delegate limitation *)
Definition errLowAmount : vmerror := errPrecompiled 32. (* low amount *)
Definition errDelegatorExited : vmerror := errPrecompiled 33. (* delegator has existed *)
Definition errFeeFixed : vmerror := errPrecompiled 34. (* feeRate equal 10000, can't change *)
Definition errFeeSame : vmerror := errPrecompiled 35. (* feeRate already same *)
Definition errFeeFrom : vmerror := errPrecompiled 36. (* cannot update fee from another account *)
Definition errFeeTwice : vmerror := errPrecompiled 37. (* one epoch can only change one time *)
Definition errFeeMax : vmerror := errPrecompiled 38. (* fee rate can't bigger than old *)
Definition errFeeStep : vmerror := errPrecompiled 39. (* 0 <= newFeeRate <= oldFeerate + 100 *)
Definition errMaxFeeRate : vmerror := errPrecompiled 40. (* max fee rate should between 0 to 100 *)
Definition errFeeOverMax : vmerror := errPrecompiled 41. (* fee rate should le maxFeeRate *)
Definition errFeeNotMax : vmerror := errPrecompiled 42. (* feeRate should be same with maxFeeRate, if maxFeeRate eq 100 *)
Definition errSecPkInvalid : vmerror := errPrecompiled 43. (* secPk is invalid *)
Definition errBn256Point : vmerror := errPrecompiled 44. (* wrong point for bn256Pk *)
Definition errLockTime : vmerror := errPrecompiled 45. (* invalid lock time *)
Definition errFeeRate : vmerror := errPrecompiled 46. (* fee rate should between 0 to 100 *)
Definition errFeeRange : vmerror := errPrecompiled 47. (* fee rate should between 0 to 10000 *)
Definition errKeyHash : vmerror := errPrecompiled 48. (* public key hash is not right *)
Definition errRlp : vmerror := errPrecompiled 49. (* any error of package rlp *)

Section Staking.
Context {db : Type} `{!StateDB db} (Keccak256Hash : list byte -> Hash) (cfg : PosConfig.Config).
Abbreviation M := (ST db vmerror).

(** crypto.PubkeyToAddress *)
Definition PubkeyToAddress (p : PublicKey) : Address :=
  BytesToAddress (drop 12 (Hash_Bytes (Keccak256Hash (drop 1 (FromECDSAPub p))))).

(** ** pos_storage.go *)
Definition StoreInfo (listAddr : Address) (pubHash : Hash) (info : list byte) : M unit :=
  if bool_decide (pubHash = emptyHash) then throw errKeyHash
  else modify (SetStateByteArray listAddr pubHash info).
Definition UpdateInfo (listAddr : Address) (pubHash : Hash) (info : list byte) : M unit :=
  StoreInfo listAddr pubHash info.
Definition GetInfo (listAddr : Address) (pubHash : Hash) : M (list byte) :=
  if bool_decide (pubHash = emptyHash) then throw errKeyHash
  else gets (fun d => GetStateByteArray d listAddr pubHash).
(** GetInfo where the caller drops the error and looks at the bytes. *)
Definition GetInfoBytes (listAddr : Address) (pubHash : Hash) : M (list byte) := fun d =>
  match GetInfo listAddr pubHash d with Fail _ d' => Ok [] d' | x => x end.

(** ** contracts_event.go *)
Definition precompiledScAddLog (contractAddress : Address) (x : Context) (evenID : Hash)
    (argsValue : list Hash) (data : list byte) : M unit :=
  modify (AddLog (mkLog contractAddress (evenID :: argsValue) data (Uint64 (BlockNumber x)) emptyHash 0 emptyHash 0)).

(** ** Reading and writing records *)
Definition saveStakeInfo (s : StakerInfo) : M unit :=
  infoBytes ← must (rlpEncode s);
  match infoBytes with
  | inr _ => throw errRlp
  | inl b => StoreInfo StakersInfoAddr (GetStakeInKeyHash (si_Address s)) b
  end.

Definition getStakeInfo (addr : Address) : M StakerInfo :=
  b ← GetInfoBytes StakersInfoAddr (GetStakeInKeyHash addr);
  if len b =? 0 then throw errNoItem
  else
    s ← must (rlpDecode b);
    match s with inr _ => throw errParseStaker | inl s => mret s end.

Definition getStakeFeeRate (address : Address) : M (option UpdateFeeRate) :=
  b ← GetInfo StakersFeeAddr (GetStakeInKeyHash address);
  if len b =? 0 then mret None
  else
    f ← must (rlpDecode b);
    match f with inr _ => throw errRlp | inl f => mret (Some f) end.

Definition saveStakeFeeRate (feeRate : UpdateFeeRate) (address : Address) : M unit :=
  feeBytes ← must (rlpEncode feeRate);
  match feeBytes with
  | inr _ => throw errRlp
  | inl b => StoreInfo StakersFeeAddr (GetStakeInKeyHash address) b
  end.

(** ** Parsing *)

(** The parameters of a method; the values have the shape of the types. *)
Definition unpackInput (args : list Abi.Ty) (payload : list byte) : M (list Abi.value) := fun d =>
  match Abi.UnpackInput args payload tt with
  | Ok vs _ => Ok vs d
  | Fail e _ => Fail e d
  | Panic => Panic
  | OutOfFuel => OutOfFuel
  end.

Definition doStakeInParseAndValid (info : StakeInParam) : M StakeInParam :=
  match ToECDSAPub (in_SecPk info) with
  | None => throw errSecPkInvalid
  | Some pub =>
      if negb (G1_Unmarshal (in_Bn256Pk info)) then throw errBn256Point
      else if (in_LockEpochs info <? PSMinEpochNum) || (in_LockEpochs info >? PSMaxEpochNum) then throw errLockTime
      else if (in_FeeRate info >? PSMaxFeeRate) || (in_FeeRate info <? PSMinFeeRate) then throw errFeeRate
      else mret (set_pub info pub)
  end.

(** The parameters of stakeIn, and the maximal fee rate in stakeRegister. *)
Definition stakeInParseAndValid (payload : list byte) : M StakeInParam :=
  vs ← unpackInput [Abi.BytesTy; Abi.BytesTy; Abi.UintTy 256; Abi.UintTy 256] payload;
  match vs with
  | [Abi.VBytes sec; Abi.VBytes bn; Abi.VInt lock; Abi.VInt fee] =>
      doStakeInParseAndValid (mkStakeIn sec bn lock fee None)
  | _ => panic
  end.

Definition stakeRegisterParseAndValid (payload : list byte) : M (StakeInParam * Z) :=
  vs ← unpackInput [Abi.BytesTy; Abi.BytesTy; Abi.UintTy 256; Abi.UintTy 256; Abi.UintTy 256] payload;
  match vs with
  | [Abi.VBytes sec; Abi.VBytes bn; Abi.VInt lock; Abi.VInt fee; Abi.VInt maxFee] =>
      if (maxFee >? PSMaxFeeRate) || (maxFee <? PSMinFeeRate) then throw errMaxFeeRate
      else if fee >? maxFee then throw errFeeOverMax
      else if (maxFee =? PSMaxFeeRate) && negb (fee =? maxFee) then throw errFeeNotMax
      else info ← doStakeInParseAndValid (mkStakeIn sec bn lock fee None); mret (info, maxFee)
  | _ => panic
  end.

Definition partnerInParseAndValid (payload : list byte) : M (Address * bool) :=
  vs ← unpackInput [Abi.AddressTy; Abi.BoolTy] payload;
  match vs with [Abi.VAddress addr; Abi.VBool renewal] => mret (addr, renewal) | _ => panic end.

Definition stakeUpdateParseAndValid (payload : list byte) : M (Address * Z) :=
  vs ← unpackInput [Abi.AddressTy; Abi.UintTy 256] payload;
  match vs with
  | [Abi.VAddress addr; Abi.VInt lock] =>
      if negb (Uint64 lock =? 0) && ((lock <? PSMinEpochNum) || (lock >? PSMaxEpochNum)) then throw errLockTime
      else mret (addr, lock)
  | _ => panic
  end.

Definition addressParse (payload : list byte) : M Address :=
  vs ← unpackInput [Abi.AddressTy] payload;
  match vs with [Abi.VAddress addr] => mret addr | _ => panic end.
Definition stakeAppendParseAndValid (payload : list byte) : M Address := addressParse payload.
Definition delegateInParseAndValid (payload : list byte) : M Address := addressParse payload.
Definition delegateOutParseAndValid (payload : list byte) : M Address := addressParse payload.

Definition updateFeeRateParseAndValid (payload : list byte) : M (Address * Z) :=
  vs ← unpackInput [Abi.AddressTy; Abi.UintTy 256] payload;
  match vs with
  | [Abi.VAddress addr; Abi.VInt fee] =>
      if (fee >? PSMaxFeeRate) || (fee <? PSMinFeeRate) then throw errFeeRange else mret (addr, fee)
  | _ => panic
  end.

(** ** Events *)

Abbreviation eventId sig := (Keccak256Hash (str sig)).
Abbreviation callerHash c := (BytesToHash (Address_Bytes (CallerAddress c))).
Abbreviation addrHash a := (BytesToHash (Address_Bytes a)).
Definition word (n : Z) : list byte := Hash_Bytes (BigToHash n).
Definition isApollo (x : Context) : bool := PosConfig.ApolloEpochID <=? CalEpochID (Uint64 (Time x)).

Definition stakeRegisterLog (c : Contract) (x : Context) (info : StakerInfo) (maxFeeRate : Z) : M unit :=
  precompiledScAddLog (self c) x (eventId "stakeRegister(address,address,uint256,uint256,uint256,uint256)")
    [callerHash c; addrHash (si_Address info); BigToHash (value c)]
    (word (si_FeeRate info) ++ word (si_LockEpochs info) ++ word maxFeeRate).

Definition stakeInLog (c : Contract) (x : Context) (info : StakerInfo) : M unit :=
  if negb (isApollo x) then
    precompiledScAddLog (self c) x (eventId "stakeIn(bytes,bytes,uint256,uint256)")
      [callerHash c; BigToHash (value c); BigToHash (si_FeeRate info); BigToHash (si_LockEpochs info);
       addrHash (si_Address info)] []
  else
    precompiledScAddLog (self c) x (eventId "stakeIn(address,address,uint256,uint256,uint256)")
      [callerHash c; addrHash (si_Address info); BigToHash (value c)]
      (word (si_FeeRate info) ++ word (si_LockEpochs info)).

Definition stakeAppendLog (c : Contract) (x : Context) (validator : Address) : M unit :=
  if negb (isApollo x) then
    precompiledScAddLog (self c) x (eventId "stakeAppend(address)")
      [callerHash c; BigToHash (value c); addrHash validator] []
  else
    precompiledScAddLog (self c) x (eventId "stakeAppend(address,address,uint256)")
      [callerHash c; addrHash validator; BigToHash (value c)] [].

Definition stakeUpdateLog (c : Contract) (x : Context) (info : StakerInfo) : M unit :=
  if negb (isApollo x) then
    precompiledScAddLog (self c) x (eventId "stakeUpdate(address,uint256)")
      [callerHash c; BigToHash (si_NextLockEpochs info); addrHash (si_Address info)] []
  else
    precompiledScAddLog (self c) x (eventId "stakeUpdate(address,address,uint256)")
      [callerHash c; addrHash (si_Address info); BigToHash (si_NextLockEpochs info)] [].

Definition delegateInLog (c : Contract) (x : Context) (validator : Address) : M unit :=
  if negb (isApollo x) then
    precompiledScAddLog (self c) x (eventId "delegateIn(address)")
      [callerHash c; BigToHash (value c); addrHash validator] []
  else
    precompiledScAddLog (self c) x (eventId "delegateIn(address,address,uint256)")
      [callerHash c; addrHash validator; BigToHash (value c)] [].

Definition delegateOutLog (c : Contract) (x : Context) (validator : Address) : M unit :=
  if negb (isApollo x) then
    precompiledScAddLog (self c) x (eventId "delegateOut(address)") [callerHash c; addrHash validator] []
  else
    precompiledScAddLog (self c) x (eventId "delegateOut(address,address)") [callerHash c; addrHash validator] [].

Definition stakeUpdateFeeRateLog (c : Contract) (x : Context) (feeInfo : UpdateFeeRate) : M unit :=
  if isApollo x then
    precompiledScAddLog (self c) x (eventId "stakeUpdateFeeRate(address,address,uint256)")
      [callerHash c; addrHash (fr_ValidatorAddr feeInfo); BigToHash (fr_FeeRate feeInfo)] []
  else mret tt.

Definition partnerInLog (c : Contract) (x : Context) (addr : Address) (renew : bool) : M unit :=
  if isApollo x then
    precompiledScAddLog (self c) x (eventId "partnerIn(address,address,uint256,bool)")
      [callerHash c; addrHash addr; BigToHash (value c)] (word (if renew then 1 else 0))
  else mret tt.

(** ** Operations *)

Definition clientsTotal (s : StakerInfo) : Z := sumOf ci_Amount (si_Clients s).
Definition partnersTotal (s : StakerInfo) : Z := sumOf pi_Amount (si_Partners s).

(** The epochs a new stake will be locked: those left of the validator's. *)
Definition realLock (s : StakerInfo) (eidNow : Z) : Z :=
  if si_StakingEpoch s =? 0 then s64 (si_LockEpochs s)
  else s64 (u64 (si_LockEpochs s - u64 (u64 (eidNow + JoinDelay) - si_StakingEpoch s))).

Definition StakeUpdate (payload : list byte) (c : Contract) (x : Context) : M (list byte) :=
  '(addr, lock) ← stakeUpdateParseAndValid payload;
  s ← getStakeInfo addr;
  if negb (bool_decide (CallerAddress c = si_From s)) then throw errUpdateFrom
  else
    let eidNow := CalEpochID (Uint64 (Time x)) in
    if eidNow >? u64 (u64 (si_StakingEpoch s + si_LockEpochs s) - UpdateDelay) then throw errLastEpochs
    else
      let s := set_epochs s (si_LockEpochs s) (Uint64 lock) (si_StakingEpoch s) in
      saveStakeInfo s;; stakeUpdateLog c x s;; mret [].

(** The partners after the caller's stake is added to the entries it has. *)
Definition addToPartner (c : Contract) (weight : Z) (renewal : bool) (p : PartnerInfo) : PartnerInfo :=
  if bool_decide (pi_Address p = CallerAddress c) then
    mkPartner (pi_Address p) (pi_Amount p + value c) (pi_StakeAmount p + value c * s64 weight) renewal
      (pi_LockEpochs p) (pi_StakingEpoch p)
  else p.

Definition PartnerIn (payload : list byte) (c : Contract) (x : Context) : M (list byte) :=
  '(addr, renewal) ← partnerInParseAndValid payload;
  s ← getStakeInfo addr;
  let eidNow := CalEpochID (Uint64 (Time x)) in
  if (eidNow >=? PosConfig.ApolloEpochID) && (eidNow <? PosConfig.AugustEpochID) && (value c <? minPartnerIn)
  then throw errMinPartner
  else
    let realLockEpoch := realLock s eidNow in
    if (realLockEpoch <? 0) || (realLockEpoch >? PSMaxEpochNum) then throw errWrongLock
    else
      let weight := CalLocktimeWeight (u64 realLockEpoch) in
      let total := si_Amount s + clientsTotal s + value c + partnersTotal s in
      let found := existsb (fun p => bool_decide (pi_Address p = CallerAddress c)) (si_Partners s) in
      let partners := addToPartner c weight renewal <$> si_Partners s in
      if total >? maxTotalStake then throw errPartnerTooMuch
      else
        partners ← (if found then mret partners
                    else if len (si_Partners s) >=? maxPartners then throw errTooManyPartners
                    else if (eidNow >=? PosConfig.ApolloEpochID) && (value c <? minPartnerIn) then throw errMinPartner
                    else mret (partners ++
                      [mkPartner (CallerAddress c) (value c) (value c * s64 weight) renewal (u64 realLockEpoch)
                         (if PosConfig.FirstEpochId cfg =? 0 then 0 else u64 (eidNow + JoinDelay))]));
        saveStakeInfo (set_members s (si_Clients s) partners);;
        partnerInLog c x addr renewal;; mret [].

Definition StakeAppend (payload : list byte) (c : Contract) (x : Context) : M (list byte) :=
  addr ← stakeAppendParseAndValid payload;
  s ← getStakeInfo addr;
  if negb (bool_decide (CallerAddress c = si_From s)) then throw errAppendFrom
  else
    let amount := si_Amount s + value c in
    let eidNow := CalEpochID (Uint64 (Time x)) in
    let realLockEpoch := realLock s eidNow in
    if (realLockEpoch <? 0) || (realLockEpoch >? PSMaxEpochNum) then throw errWrongLock
    else if amount + clientsTotal s + partnersTotal s >? maxTotalStake then throw errAppendTooMuch
    else
      let weight := CalLocktimeWeight (u64 realLockEpoch) in
      let stake := if eidNow <? PosConfig.VenusEpochId cfg then amount * s64 weight
                   else si_StakeAmount s + value c * s64 weight in
      saveStakeInfo (set_amounts s amount stake);;
      stakeAppendLog c x (si_Address s);; mret [].

Definition doStakeIn (c : Contract) (x : Context) (info : StakeInParam) : M StakerInfo :=
  if value c <? minStakeholderStake then throw errNeedMore
  else if value c >? maxTotalStake then throw errMaxStake
  else
    pub ← must (in_pub info);
    let secAddr := PubkeyToAddress pub in
    oldInfo ← GetInfoBytes StakersInfoAddr (GetStakeInKeyHash secAddr);
    if negb (len oldInfo =? 0) then throw errSecExists
    else
      let eidNow := CalEpochID (Uint64 (Time x)) in
      let lock := Uint64 (in_LockEpochs info) in
      let weight := CalLocktimeWeight lock in
      let s := mkStaker secAddr (in_SecPk info) (in_Bn256Pk info) (value c) (value c * s64 weight) lock lock
                 (CallerAddress c) (if PosConfig.FirstEpochId cfg =? 0 then 0 else u64 (eidNow + JoinDelay))
                 (Uint64 (in_FeeRate info)) [] [] in
      saveStakeInfo s;; mret s.

Definition StakeRegister (payload : list byte) (c : Contract) (x : Context) : M (list byte) :=
  '(info, maxFee) ← stakeRegisterParseAndValid payload;
  s ← doStakeIn c x info;
  let maxFeeRate := Uint64 maxFee in
  saveStakeFeeRate (mkFeeRate (si_Address s) maxFeeRate (si_FeeRate s) 0) (si_Address s);;
  stakeRegisterLog c x s maxFeeRate;; mret [].

Definition StakeIn (payload : list byte) (c : Contract) (x : Context) : M (list byte) :=
  info ← stakeInParseAndValid payload;
  s ← doStakeIn c x info;
  stakeInLog c x s;; mret [].

(** The clients after the caller's delegation is added to the entries it has. *)
Definition addToClient (c : Contract) (weight : Z) (i : ClientInfo) : ClientInfo :=
  if bool_decide (ci_Address i = CallerAddress c) then
    mkClient (ci_Address i) (ci_Amount i + value c) (ci_StakeAmount i + value c * s64 weight) (ci_QuitEpoch i)
  else i.

Definition DelegateIn (payload : list byte) (c : Contract) (x : Context) : M (list byte) :=
  addr ← delegateInParseAndValid payload;
  s ← getStakeInfo addr;
  if si_FeeRate s =? PSNodeleFeeRate then throw errNoDelegation
  else
    let total := si_Amount s + partnersTotal s in
    if total <? MinValidatorStake then throw errNotEnough
    else
      let mine i := bool_decide (ci_Address i = CallerAddress c) in
      let totalDelegated := value c + clientsTotal s in
      let weight := CalLocktimeWeight PSMinEpochNum in
      if existsb (fun i => mine i && negb (ci_QuitEpoch i =? 0)) (si_Clients s) then throw errQuiting
      else if totalDelegated + total >? maxTotalStake then throw errDelegateTotal
      else if totalDelegated >? total * MaxTimeDelegate then throw errDelegateLimit
      else
        let clients := addToClient c weight <$> si_Clients s in
        clients ← (if existsb mine (si_Clients s) then mret clients
                   else if value c <? minDelegatorStake then throw errLowAmount
                   else mret (clients ++ [mkClient (CallerAddress c) (value c) (value c * s64 weight) 0]));
        saveStakeInfo (set_members s clients (si_Partners s));;
        delegateInLog c x (si_Address s);; mret [].

(** The loop of DelegateOut: the first entry of the caller quits. *)
Fixpoint quitFirst (caller : Address) (quit : Z) (l : list ClientInfo) : M (list ClientInfo) :=
  match l with
  | [] => throw errNoItem
  | i :: l =>
      if bool_decide (ci_Address i = caller) then
        if negb (ci_QuitEpoch i =? 0) then throw errDelegatorExited
        else mret (mkClient (ci_Address i) (ci_Amount i) (ci_StakeAmount i) quit :: l)
      else l' ← quitFirst caller quit l; mret (i :: l')
  end.

Definition DelegateOut (payload : list byte) (c : Contract) (x : Context) : M (list byte) :=
  addr ← delegateOutParseAndValid payload;
  s ← getStakeInfo addr;
  clients ← quitFirst (CallerAddress c) (u64 (CalEpochID (Uint64 (Time x)) + QuitDelay)) (si_Clients s);
  saveStakeInfo (set_members s clients (si_Partners s));;
  delegateOutLog c x (si_Address s);; mret [].

Definition StakeUpdateFeeRate (payload : list byte) (c : Contract) (x : Context) : M (list byte) :=
  '(addr, fee) ← updateFeeRateParseAndValid payload;
  s ← getStakeInfo addr;
  let feeRate := Uint64 fee in
  if (si_FeeRate s =? PSMaxFeeRate) || (feeRate =? PSMaxFeeRate) then throw errFeeFixed
  else if si_FeeRate s =? feeRate then throw errFeeSame
  else if negb (bool_decide (CallerAddress c = si_From s)) then throw errFeeFrom
  else
    let eid := CalEpochID (Uint64 (Time x)) in
    old ← getStakeFeeRate (si_Address s);
    oldFee ← match old with
             | None => mret (mkFeeRate (si_Address s) (si_FeeRate s) (si_FeeRate s) eid)
             | Some f => if fr_ChangedEpoch f =? eid then throw errFeeTwice else mret f
             end;
    if feeRate >? fr_MaxFeeRate oldFee then throw errFeeMax
    else if feeRate >? u64 (si_FeeRate s + PSFeeRateStep) then throw errFeeStep
    else
      let newFee := mkFeeRate (fr_ValidatorAddr oldFee) (fr_MaxFeeRate oldFee) feeRate eid in
      saveStakeInfo (set_fee s feeRate);;
      saveStakeFeeRate newFee (si_Address s);;
      stakeUpdateFeeRateLog c x newFee;; mret [].

(** ** Dispatch *)

Abbreviation methodId sig := (take 4 (Hash_Bytes (Keccak256Hash (str sig)))).
Definition stakeRegisterId : list byte := methodId "stakeRegister(bytes,bytes,uint256,uint256,uint256)".
Definition stakeInId : list byte := methodId "stakeIn(bytes,bytes,uint256,uint256)".
Definition stakeUpdateId : list byte := methodId "stakeUpdate(address,uint256)".
Definition stakeAppendId : list byte := methodId "stakeAppend(address)".
Definition partnerInId : list byte := methodId "partnerIn(address,bool)".
Definition delegateInId : list byte := methodId "delegateIn(address)".
Definition delegateOutId : list byte := methodId "delegateOut(address)".
Definition stakeUpdateFeeRateId : list byte := methodId "stakeUpdateFeeRate(address,uint256)".

Definition Run (input : list byte) (c : Contract) (x : Context) : M (list byte) :=
  if len input <? 4 then throw errParameterWrong
  else
    let id := take 4 input in
    let payload := drop 4 input in
    if bool_decide (id = stakeRegisterId) then StakeRegister payload c x
    else if bool_decide (id = stakeInId) then StakeIn payload c x
    else if bool_decide (id = stakeUpdateId) then StakeUpdate payload c x
    else if bool_decide (id = stakeAppendId) then StakeAppend payload c x
    else if bool_decide (id = partnerInId) then PartnerIn payload c x
    else if bool_decide (id = delegateInId) then DelegateIn payload c x
    else if bool_decide (id = delegateOutId) then DelegateOut payload c x
    else if bool_decide (id = stakeUpdateFeeRateId) then StakeUpdateFeeRate payload c x
    else throw errMethodId.

(** Replace any error of a check. *)
Definition verify {A} (m : M A) (err : vmerror) : M unit := fun d =>
  match m d with Ok _ d' => Ok tt d' | Fail _ d' => Fail err d' | Panic => Panic | OutOfFuel => OutOfFuel end.

(** ValidTx, which the transaction pool calls: [now] is the clock and
    [noStaking] a command-line flag. *)
Definition ValidTx (noStaking : bool) (now : Z) (input : list byte) : M unit :=
  if len input <? 4 then throw errTooShort
  else if noStaking then throw errNoStaking
  else
    let id := take 4 input in
    let payload := drop 4 input in
    let early := CalEpochID (u64 now) <? PosConfig.ApolloEpochID in
    if bool_decide (id = stakeRegisterId) then
      if early then throw errRegisterDisabled else verify (stakeRegisterParseAndValid payload) errRegisterVerify
    else if bool_decide (id = stakeInId) then verify (stakeInParseAndValid payload) errStakeInVerify
    else if bool_decide (id = stakeAppendId) then verify (stakeAppendParseAndValid payload) errAppendVerify
    else if bool_decide (id = stakeUpdateId) then verify (stakeUpdateParseAndValid payload) errUpdateVerify
    else if bool_decide (id = partnerInId) then verify (partnerInParseAndValid payload) errPartnerVerify
    else if bool_decide (id = delegateInId) then verify (delegateInParseAndValid payload) errDelegateInVerify
    else if bool_decide (id = delegateOutId) then verify (delegateOutParseAndValid payload) errDelegateOutVerify
    else if bool_decide (id = stakeUpdateFeeRateId) then
      if early then throw errFeeDisabled else verify (updateFeeRateParseAndValid payload) errFeeVerify
    else throw errParameters.

(** PosStaking as a native contract. *)
Definition PosStaking : PrecompiledContract db :=
  mkPrecompiled db (fun _ => 0) (fun input c x d =>
    match Run input c x d with
    | Ok ret d' => Some (ret, None, d')
    | Fail err d' => Some ([], Some err, d')
    | Panic | OutOfFuel => None
    end).
End Staking.
End Staking.
