(* ===== verification/StakeOut.v ===== *)
(** The return of stakes at the end of an epoch: StakeOutRun of
    pos/epochLeader/epoch_leader_selection.go with GetStakersSnap,
    StakeoutSetEpoch and StakeoutIsFinished of core/vm/pos_staking_contracts.go.

    The refunds are also written to a database of the node, which nothing else
    reads: here they are part of the result. *)

From S2P Require Import Prelude BigMath VmData VmState Rlp RlpSpec RlpDecode RlpCodec Ota Staking.
Import Big Common Staking.

Module StakeOut.

Record RefundInfo := mkRefund {
  rf_Addr : Address;
  rf_Amount : Z;
}.
#[export] Instance RefundInfo_eq_dec : EqDecision RefundInfo.
Proof. solve_decision. Defined.

Section StakeOut.
Context {db : Type} `{!StateDB db} `{!StateIter db} (cfg : PosConfig.Config).
Abbreviation M := (ST db vmerror).

(** Entries that do not decode are skipped. *)
Fixpoint decodeAll (entries : list (Hash * list byte)) : M (list StakerInfo) :=
  match entries with
  | [] => mret []
  | (_, value) :: entries =>
      s ← must (rlpDecode value);
      stakeHolders ← decodeAll entries;
      mret (match s with inl s => s :: stakeHolders | inr _ => stakeHolders end)
  end.
Definition GetStakersSnap : M (list StakerInfo) :=
  entries ← gets (fun d => ForEachStorageByteArray d StakersInfoAddr);
  decodeAll entries.

(** A call whose error is not looked at. *)
Definition ignore (m : M unit) : M unit := fun d =>
  match m d with Fail _ d' => Ok tt d' | x => x end.

Definition StakeoutSetEpoch (epochID : Z) : M unit :=
  ignore (StoreInfo StakingCommonAddr StakersInfoStakeOutKeyHash (Bytes (s64 epochID))).

Definition StakeoutIsFinished (epochID : Z) : M bool := fun d =>
  match GetInfo StakingCommonAddr StakersInfoStakeOutKeyHash d with
  | Ok epochByte d' => Ok (Uint64 (SetBytes epochByte) >=? epochID) d'
  | Fail _ d' => Ok false d'
  | Panic => Panic
  | OutOfFuel => OutOfFuel
  end.

Definition coreTransfer (sender recipient : Address) (amount : Z) : M unit :=
  modify (fun d => if CanTransfer d sender amount then Transfer d sender recipient amount else d).

Definition recordStakeOut (infos : list RefundInfo) (addr : Address) (amount : Z) : list RefundInfo :=
  infos ++ [mkRefund addr amount].

(** A loop over clients or partners: those that are [due] are paid, the others
    kept; whether there was one to pay. *)
Fixpoint settle {A} (due : A -> bool) (addr : A -> Address) (amount : A -> Z) (infos : list RefundInfo) (l : list A)
    : M (list A * list RefundInfo * bool) :=
  match l with
  | [] => mret ([], infos, false)
  | x :: l =>
      if due x then
        coreTransfer WanCscPrecompileAddr (addr x) (amount x);;
        '(kept, infos, _) ← settle due addr amount (recordStakeOut infos (addr x) (amount x)) l;
        mret (kept, infos, true)
      else
        '(kept, infos, changed) ← settle due addr amount infos l;
        mret (x :: kept, infos, changed)
  end.

(** A validator registered before proof of stake starts with it. *)
Definition activate (s : StakerInfo) : StakerInfo :=
  let first := u64 (PosConfig.FirstEpochId cfg + 2) in
  set_members (set_epochs s (si_LockEpochs s) (si_NextLockEpochs s) first) (si_Clients s)
    ((fun p => mkPartner (pi_Address p) (pi_Amount p) (pi_StakeAmount p) (pi_Renewal p) (pi_LockEpochs p) first)
       <$> si_Partners s).

Definition clientDue (epochID : Z) (c : ClientInfo) : bool :=
  (epochID >=? ci_QuitEpoch c) && negb (ci_QuitEpoch c =? 0).
Definition partnerDue (epochID : Z) (p : PartnerInfo) : bool :=
  epochID >=? u64 (pi_StakingEpoch p + pi_LockEpochs p).
Definition expired (epochID : Z) (s : StakerInfo) : bool :=
  epochID >=? u64 (si_StakingEpoch s + si_LockEpochs s).

(** The renewal of validator and partners near the end of the lock time. *)
Definition renewPartner (epochID next : Z) (p : PartnerInfo) : PartnerInfo :=
  if pi_Renewal p then
    mkPartner (pi_Address p) (pi_Amount p) (pi_Amount p * s64 (CalLocktimeWeight next)) (pi_Renewal p) next
      (u64 (epochID + JoinDelay))
  else p.
Definition renew (epochID : Z) (s : StakerInfo) : StakerInfo * bool :=
  if u64 (epochID + QuitDelay) >=? u64 (si_StakingEpoch s + si_LockEpochs s) then
    let next := si_NextLockEpochs s in
    let '(s, changed) :=
      if negb (next =? 0) then
        (set_epochs (set_amounts s (si_Amount s) (si_Amount s * s64 (CalLocktimeWeight next))) next next
           (u64 (epochID + JoinDelay)), true)
      else (s, false) in
    (set_members s (si_Clients s) (renewPartner epochID next <$> si_Partners s),
     changed || existsb pi_Renewal (si_Partners s))
  else (s, false).

(** Removing the records of a validator. *)
Definition removeStaker (s : StakerInfo) : M unit :=
  let key := GetStakeInKeyHash (si_Address s) in
  ignore (UpdateInfo StakersInfoAddr key []);;
  newFeeBytes ← GetInfoBytes StakersFeeAddr key;
  if negb (len newFeeBytes =? 0) then ignore (UpdateInfo StakersFeeAddr key []) else mret tt.

(** One iteration of StakeOutRun; [None] when the record cannot be encoded. *)
Definition stakeOutOne (epochID : Z) (infos : list RefundInfo) (s : StakerInfo) : M (option (list RefundInfo)) :=
  if si_LockEpochs s =? 0 then mret (Some infos)
  else
    let '(s, changed) := if si_StakingEpoch s =? 0 then (activate s, true) else (s, false) in
    '(newClients, infos, clientChanged) ← settle (clientDue epochID) ci_Address ci_Amount infos (si_Clients s);
    '(newPartners, infos, partnerchanged) ← settle (partnerDue epochID) pi_Address pi_Amount infos (si_Partners s);
    let s := set_members s newClients newPartners in
    if expired epochID s then
      '(_, infos, _) ← settle (fun _ => true) ci_Address ci_Amount infos (si_Clients s);
      '(_, infos, _) ← settle (fun _ => true) pi_Address pi_Amount infos (si_Partners s);
      coreTransfer WanCscPrecompileAddr (si_From s) (si_Amount s);;
      removeStaker s;;
      mret (Some (recordStakeOut infos (si_From s) (si_Amount s)))
    else
      let '(s, renewed) := renew epochID s in
      if changed || renewed || partnerchanged || clientChanged then
        stakerBytes ← must (rlpEncode s);
        match stakerBytes with
        | inr _ => mret None
        | inl b =>
            ignore (UpdateInfo StakersInfoAddr (GetStakeInKeyHash (si_Address s)) b);;
            mret (Some infos)
        end
      else mret (Some infos).

(** The loop over the validators, with its body [one]. *)
Fixpoint stakeOutAll (one : list RefundInfo -> StakerInfo -> M (option (list RefundInfo))) (infos : list RefundInfo)
    (stakers : list StakerInfo) : M (option (list RefundInfo)) :=
  match stakers with
  | [] => mret (Some infos)
  | s :: stakers =>
      r ← one infos s;
      match r with
      | None => mret None
      | Some infos => stakeOutAll one infos stakers
      end
  end.

(** The result, and the refunds that are saved. *)
Definition StakeOutRun (epochID : Z) : M (bool * option (list RefundInfo)) :=
  finished ← StakeoutIsFinished epochID;
  if finished : bool then mret (true, None)
  else
    StakeoutSetEpoch epochID;;
    stakers ← GetStakersSnap;
    r ← stakeOutAll (stakeOutOne epochID) [] stakers;
    mret (match r with Some infos => (true, Some infos) | None => (false, None) end).
End StakeOut.
End StakeOut.
