(* ===== verification/Contracts.v ===== *)
(** The table of native contracts of core/vm/precompiled_contracts_addr.go. *)

From S2P Require Import Prelude BigMath Encoding Abi VmData VmState Ota Privacy Rlp RlpSpec RlpDecode RlpCodec Staking.
Import Big Common Addr Secp Privacy Staking.

Section Table.
Context {db : Type} `{!StateDB db} (Keccak256Hash : list byte -> Hash).
Context (VerifyRingSign : list byte -> list PublicKey -> PublicKey -> list Z -> list Z -> bool).
Context (cfg : PosConfig.Config).

(** PrecompiledContractsByzantium, with the contracts not modelled here in
    [others]. *)
Definition PrecompiledContractsByzantium (others : Address -> option (PrecompiledContract db))
    (a : Address) : option (PrecompiledContract db) :=
  if bool_decide (a = dataCopyPrecompileAddr) then Some (native dataCopyRequiredGas dataCopyRun)
  else if bool_decide (a = wanCoinPrecompileAddr)
  then Some (native (coinRequiredGas Keccak256Hash) (coinRun Keccak256Hash VerifyRingSign))
  else if bool_decide (a = wanStampPrecompileAddr) then Some (native stampRequiredGas (stampRun Keccak256Hash))
  else if bool_decide (a = WanCscPrecompileAddr) then Some (PosStaking Keccak256Hash cfg)
  else others a.
End Table.
