(* ===== verification/StakingCodec.v ===== *)
(** The records of the staking contract survive their coding by package rlp, and
    the size of their encodings is bounded. *)

From S2P Require Import Prelude BigMath Rlp RlpSpec RlpDecode RlpCodec Staking.
Import Big RLP Common Staking.

(** * Lists of records *)
Section Lists.
Context {A : Type} `{!RlpCodec A} `{!RlpCodecOk A}.

Lemma mapM_of_to (l : list A) : mapM of_value (to_value <$> l) = Some l.
Proof. induction l as [|a l IH]; [done|]. cbn. rewrite of_to_value. cbn. by rewrite IH. Qed.

Lemma solid_list (l : list A) : forallb no_nil (to_value <$> l) = true.
Proof. induction l as [|a l IH]; [done|]. cbn. by rewrite codec_solid. Qed.

Lemma mapM_total vs js :
  mapM (item_of (rlp_type A)) vs = Some js -> forallb no_nil vs = true ->
  exists l, mapM of_value vs = Some l /\ to_value <$> l = vs.
Proof.
  revert js. induction vs as [|v vs IH]; intros js Hm Hn; [by exists []|].
  cbn in Hm, Hn. apply andb_true_iff in Hn as [Hv Hn].
  destruct (item_of _ v) as [i|] eqn:Ei; [|done]. cbn in Hm.
  destruct (mapM _ vs) as [js'|] eqn:Ej; [|done].
  destruct (of_value_total v i Ei Hv) as (a & Ha & <-). destruct (IH js' eq_refl Hn) as (l & Hl & <-).
  exists (a :: l). cbn. rewrite Ha. cbn. by rewrite Hl.
Qed.
End Lists.

(** * Values of a type *)

Lemma struct_value ts v i : item_of (StructT ts) v = Some i -> exists vs l, v = VList vs /\ items_of ts vs = Some l.
Proof.
  intros H. destruct v as [| | | |vs| |]; try done. rewrite item_of_Struct in H.
  destruct (items_of ts vs) as [l|] eqn:E; [|done]. eauto.
Qed.

Lemma items_cons t ts vs l :
  items_of (t :: ts) vs = Some l ->
  exists v vs' i l', vs = v :: vs' /\ item_of t v = Some i /\ items_of ts vs' = Some l'.
Proof.
  intros H. destruct vs as [|v vs']; [done|]. cbn [items_of] in H.
  destruct (item_of t v) as [i|] eqn:Ei; [|done]. cbn in H.
  destruct (items_of ts vs') as [l'|] eqn:El; [|done]. by exists v, vs', i, l'.
Qed.

Lemma items_nil vs l : items_of [] vs = Some l -> vs = [].
Proof. by destruct vs. Qed.

Lemma uint_value b v i : item_of (UintT b) v = Some i -> exists n, v = VUint n.
Proof. destruct v; try done. eauto. Qed.
Lemma big_value v i : item_of BigT v = Some i -> no_nil v = true -> exists n, v = VBig n.
Proof. destruct v; try done. eauto. Qed.
Lemma bool_value v i : item_of BoolT v = Some i -> exists b, v = VBool b.
Proof. destruct v; try done. eauto. Qed.
Lemma bytes_value v i : item_of BytesT v = Some i -> exists b, v = VBytes b.
Proof. destruct v; try done. eauto. Qed.
Lemma slice_value e v i : item_of (SliceT e) v = Some i -> exists vs l, v = VList vs /\ mapM (item_of e) vs = Some l.
Proof. destruct v as [| | | |vs| |]; try done. cbn. destruct (mapM _ vs) as [l|] eqn:E; [|done]. eauto. Qed.

(** Take a value of a struct type apart, with the values of its fields. *)
Ltac open_fields :=
  repeat match goal with
  | H : items_of (_ :: _) _ = Some _ |- _ =>
      apply items_cons in H; destruct H as (? & ? & ? & ? & -> & ? & H)
  | H : items_of [] _ = Some _ |- _ => apply items_nil in H; subst
  end;
  cbn [no_nil forallb] in *; rewrite ?andb_true_iff in *; destruct_and?;
  repeat match goal with
  | H : item_of addressT _ = Some _ |- _ => apply address_item in H; destruct H as (? & -> & ->)
  | H : item_of (UintT _) _ = Some _ |- _ => apply uint_value in H; destruct H as [? ->]
  | H : item_of BigT _ = Some _ |- _ => apply big_value in H; [|done]; destruct H as [? ->]
  | H : item_of BoolT _ = Some _ |- _ => apply bool_value in H; destruct H as [? ->]
  | H : item_of BytesT _ = Some _ |- _ => apply bytes_value in H; destruct H as [? ->]
  end.

#[export] Instance client_codec_ok : RlpCodecOk ClientInfo.
Proof.
  split.
  - done.
  - done.
  - intros []. cbn [of_value to_value client_codec]. by rewrite address_of_value.
  - intros v i (vs & l & -> & Hi)%struct_value Hn. open_fields. eexists. split.
    + cbn [of_value client_codec]. rewrite address_of_value. reflexivity.
    + reflexivity.
Qed.

#[export] Instance partner_codec_ok : RlpCodecOk PartnerInfo.
Proof.
  split.
  - done.
  - done.
  - intros []. cbn [of_value to_value partner_codec]. by rewrite address_of_value.
  - intros v i (vs & l & -> & Hi)%struct_value Hn. open_fields. eexists. split.
    + cbn [of_value partner_codec]. rewrite address_of_value. reflexivity.
    + reflexivity.
Qed.

#[export] Instance fee_codec_ok : RlpCodecOk UpdateFeeRate.
Proof.
  split.
  - done.
  - done.
  - intros []. cbn [of_value to_value fee_codec]. by rewrite address_of_value.
  - intros v i (vs & l & -> & Hi)%struct_value Hn. open_fields. eexists. split.
    + cbn [of_value fee_codec]. rewrite address_of_value. reflexivity.
    + reflexivity.
Qed.

#[export] Instance staker_codec_ok : RlpCodecOk StakerInfo.
Proof.
  split.
  - done.
  - intros a. cbn [to_value staker_codec no_nil forallb address_value]. by rewrite !solid_list.
  - intros []. cbn [of_value to_value staker_codec]. rewrite !address_of_value. cbn [mbind option_bind].
    by rewrite !mapM_of_to.
  - intros v i (vs & l & -> & Hi)%struct_value Hn. open_fields.
    repeat match goal with
    | H : item_of (SliceT _) _ = Some _ |- _ => apply slice_value in H; destruct H as (? & ? & -> & H)
    end.
    repeat match goal with
    | H : mapM (item_of (rlp_type _)) _ = Some _ |- _ =>
        apply mapM_total in H; [|done]; destruct H as (? & ? & <-)
    end.
    eexists. split.
    + cbn [of_value staker_codec]. rewrite !address_of_value. cbn [mbind option_bind]. rewrite !mapM_of_to. reflexivity.
    + reflexivity.
Qed.

(** * Sizes *)

Definition amount_fits (n : Z) : Prop := 0 <= n < 2 ^ 256.
Definition uint_fits (n : Z) : Prop := 0 <= n < 2 ^ 64.

Definition client_fits (c : ClientInfo) : Prop :=
  amount_fits (ci_Amount c) /\ amount_fits (ci_StakeAmount c) /\ uint_fits (ci_QuitEpoch c).
Definition partner_fits (p : PartnerInfo) : Prop :=
  amount_fits (pi_Amount p) /\ amount_fits (pi_StakeAmount p) /\ uint_fits (pi_LockEpochs p) /\
  uint_fits (pi_StakingEpoch p).
Definition fee_fits (f : UpdateFeeRate) : Prop :=
  uint_fits (fr_MaxFeeRate f) /\ uint_fits (fr_FeeRate f) /\ uint_fits (fr_ChangedEpoch f).

Record staker_fits (s : StakerInfo) : Prop := {
  fits_sec : len (si_PubSec256 s) < 2 ^ 32;
  fits_bn : len (si_PubBn256 s) < 2 ^ 62;
  fits_amount : amount_fits (si_Amount s);
  fits_stake : amount_fits (si_StakeAmount s);
  fits_lock : uint_fits (si_LockEpochs s);
  fits_next : uint_fits (si_NextLockEpochs s);
  fits_staking : uint_fits (si_StakingEpoch s);
  fits_fee : uint_fits (si_FeeRate s);
  fits_clients : Forall client_fits (si_Clients s);
  fits_partners : Forall partner_fits (si_Partners s);
  fits_clients_len : len (si_Clients s) <= 2 ^ 20;
  fits_partners_len : len (si_Partners s) <= 2 ^ 20;
}.

Lemma item_uint n : uint_fits n -> item_of (UintT 64) (VUint n) = Some (Str (Bytes n)) /\ len (rlp (Str (Bytes n))) <= 17.
Proof.
  intros Hn. unfold uint_fits in Hn. split.
  - cbn -[Z.pow]. replace (0 <=? n) with true by lia. by replace (n <? 2 ^ 64) with true by lia.
  - pose proof (Bytes_len_le n 8 ltac:(lia)). pose proof (rlp_Str_le (Bytes n)). lia.
Qed.

Lemma item_big n : amount_fits n -> item_of BigT (VBig n) = Some (Str (Bytes n)) /\ len (rlp (Str (Bytes n))) <= 41.
Proof.
  intros Hn. unfold amount_fits in Hn. split.
  - cbn -[Z.pow]. by replace (0 <=? n) with true by lia.
  - pose proof (Bytes_len_le n 32 ltac:(lia)). pose proof (rlp_Str_le (Bytes n)). lia.
Qed.

Lemma item_address a :
  item_of addressT (address_value a) = Some (Str (Address_Bytes a)) /\ len (rlp (Str (Address_Bytes a))) <= 29.
Proof.
  pose proof (len_Address_Bytes a) as Hl. split.
  - unfold addressT, address_value. cbn [item_of]. rewrite bool_decide_true; [done|]. unfold len in Hl. lia.
  - pose proof (rlp_Str_le (Address_Bytes a)). lia.
Qed.

Lemma item_bool b : item_of BoolT (VBool b) = Some (Str (if b then [x01] else [])) /\
  len (rlp (Str (if b then [x01] else []))) <= 10.
Proof. by destruct b. Qed.

Lemma item_bytes b : len b < 2 ^ 62 -> item_of BytesT (VBytes b) = Some (Str b) /\ len (rlp (Str b)) <= len b + 9.
Proof. intros. split; [done|]. apply rlp_Str_le. lia. Qed.

(** An item of a struct from the items of its fields, with the sum of the
    lengths. *)
Lemma items_bound_nil : exists l, items_of [] [] = Some l /\ len (body l) <= 0.
Proof. by exists []. Qed.

Lemma items_bound_cons t ts v vs i m n :
  item_of t v = Some i /\ len (rlp i) <= m -> (exists l, items_of ts vs = Some l /\ len (body l) <= n) ->
  exists l, items_of (t :: ts) (v :: vs) = Some l /\ len (body l) <= m + n.
Proof.
  intros [Hi Hm] (l & Hl & Hn). exists (i :: l). cbn [items_of]. rewrite Hi. cbn [mbind option_bind].
  rewrite Hl, body_cons, len_app. split; [done|lia].
Qed.

Lemma struct_bound ts vs n :
  (exists l, items_of ts vs = Some l /\ len (body l) <= n) -> n < 2 ^ 63 ->
  exists i, item_of (StructT ts) (VList vs) = Some i /\ len (rlp i) <= n + 9.
Proof.
  intros (l & Hl & Hn) ?. exists (Lst l). rewrite item_of_Struct, Hl. split; [done|].
  pose proof (rlp_Lst_le l). lia.
Qed.

Lemma slice_bound {A} `{!RlpCodec A} (P : A -> Prop) n (l : list A) :
  0 <= n -> len l * n < 2 ^ 60 ->
  (forall a, P a -> exists i, item_of (rlp_type A) (to_value a) = Some i /\ len (rlp i) <= n) -> Forall P l ->
  exists i, item_of (SliceT (rlp_type A)) (VList (to_value <$> l)) = Some i /\ len (rlp i) <= len l * n + 9.
Proof.
  intros Hn Hb Ha Hl.
  assert (exists js, mapM (item_of (rlp_type A)) (to_value <$> l) = Some js /\ len (body js) <= len l * n) as (js & Hjs & Hlen).
  { clear Hb. induction Hl as [|a l Hp Hl IH]; [by exists []|]. destruct (Ha a Hp) as (i & Hi & ?).
    destruct IH as (js & Hjs & ?). exists (i :: js). split; [cbn; rewrite Hi; cbn; by rewrite Hjs|].
    rewrite body_cons, len_app, len_cons. lia. }
  exists (Lst js). cbn [item_of]. rewrite Hjs. split; [done|]. pose proof (rlp_Lst_le js). lia.
Qed.

Ltac bound_fields :=
  repeat (eapply items_bound_cons; [first [by apply item_address | by apply item_big | by apply item_uint | apply item_bool
                                          | by apply item_bytes]|]); try apply items_bound_nil.

Lemma client_item c : client_fits c ->
  exists i, item_of (rlp_type ClientInfo) (to_value c) = Some i /\ len (rlp i) <= 137.
Proof. intros (? & ? & ?). apply (struct_bound _ _ 128); [|done]. change 128 with (29 + (41 + (41 + (17 + 0)))). bound_fields. Qed.

Lemma partner_item p : partner_fits p ->
  exists i, item_of (rlp_type PartnerInfo) (to_value p) = Some i /\ len (rlp i) <= 164.
Proof.
  intros (? & ? & ? & ?). apply (struct_bound _ _ 155); [|done].
  change 155 with (29 + (41 + (41 + (10 + (17 + (17 + 0)))))). bound_fields.
Qed.

Lemma fee_encodable f : fee_fits f -> encodable f.
Proof.
  intros (? & ? & ?). destruct (struct_bound [addressT; UintT 64; UintT 64; UintT 64]
    [address_value (fr_ValidatorAddr f); VUint (fr_MaxFeeRate f); VUint (fr_FeeRate f); VUint (fr_ChangedEpoch f)]
    (29 + (17 + (17 + (17 + 0))))) as (i & Hi & ?); [bound_fields|done|]. exists i. split; [done|lia].
Qed.

Lemma staker_encodable s : staker_fits s -> encodable s.
Proof.
  intros []. pose proof (len_nonneg (si_Clients s)). pose proof (len_nonneg (si_Partners s)).
  destruct (slice_bound client_fits 137 (si_Clients s)) as (ic & Hic & ?); [lia|lia|apply client_item|done|].
  destruct (slice_bound partner_fits 164 (si_Partners s)) as (jp & Hip & ?); [lia|lia|apply partner_item|done|].
  assert (exists n, n < 2 ^ 63 - 9 /\ exists l, items_of [addressT; BytesT; BytesT; BigT; BigT; UintT 64; UintT 64; addressT; UintT 64;
     UintT 64; SliceT (rlp_type ClientInfo); SliceT (rlp_type PartnerInfo)]
    [address_value (si_Address s); VBytes (si_PubSec256 s); VBytes (si_PubBn256 s); VBig (si_Amount s);
     VBig (si_StakeAmount s); VUint (si_LockEpochs s); VUint (si_NextLockEpochs s); address_value (si_From s);
     VUint (si_StakingEpoch s); VUint (si_FeeRate s); VList (to_value <$> si_Clients s); VList (to_value <$> si_Partners s)]
    = Some l /\ len (body l) <= n) as (n & Hn & Hl).
  { eexists. split; [|eapply items_bound_cons; [by apply item_address|]; eapply items_bound_cons; [apply item_bytes; lia|];
      bound_fields; eapply items_bound_cons; [by split|]; eapply items_bound_cons; [by split|]; apply items_bound_nil]. lia. }
  destruct (struct_bound _ _ n Hl) as (i & Hi & ?); [lia|]. exists i. split; [exact Hi|lia].
Qed.
