(* ===== verification/StakingSpec.v ===== *)
(** The invariant of the staking records and the money they stand for.

    Every byte array under StakersInfoAddr is the encoding of a well-formed
    validator record, stored under the key of its address; every one under
    StakersFeeAddr the encoding of the fee record of a validator that exists and
    has the same fee rate.  [recorded] is the sum of all stakes recorded. *)

From S2P Require Import Prelude BigMath Encoding VmData VmState StateSpec Rlp RlpSpec RlpDecode RlpCodec Ota Staking StakingCodec.
Import Big Common Staking.

(** * Well-formed records *)

Definition stake_total (s : StakerInfo) : Z := si_Amount s + clientsTotal s + partnersTotal s.

Definition lock_ok (n : Z) : Prop := n = 0 \/ PSMinEpochNum <= n <= PSMaxEpochNum.

(** A stake is weighted by 966 (one epoch) up to 1500 (90 epochs). *)
Definition weighted (amount stake : Z) : Prop := 966 * amount <= stake <= 1500 * amount.

Definition client_ok (c : ClientInfo) : Prop :=
  minDelegatorStake <= ci_Amount c /\ ci_StakeAmount c = 1002 * ci_Amount c /\ uint_fits (ci_QuitEpoch c).
Definition partner_ok (p : PartnerInfo) : Prop :=
  0 <= pi_Amount p /\ weighted (pi_Amount p) (pi_StakeAmount p) /\
  0 <= pi_LockEpochs p <= PSMaxEpochNum /\ uint_fits (pi_StakingEpoch p).

Record staker_ok (s : StakerInfo) : Prop := {
  so_sec : len (si_PubSec256 s) = 65;
  so_bn : len (si_PubBn256 s) < 2 ^ 62;
  so_amount : 0 <= si_Amount s;
  so_stake : weighted (si_Amount s) (si_StakeAmount s);
  so_lock : lock_ok (si_LockEpochs s);
  so_next : lock_ok (si_NextLockEpochs s);
  so_staking : uint_fits (si_StakingEpoch s);
  so_fee : 0 <= si_FeeRate s <= PSMaxFeeRate;
  so_clients : Forall client_ok (si_Clients s);
  so_clients_distinct : NoDup (ci_Address <$> si_Clients s);
  so_partners : Forall partner_ok (si_Partners s);
  so_partners_distinct : NoDup (pi_Address <$> si_Partners s);
  so_partners_few : len (si_Partners s) <= maxPartners;
  so_total : stake_total s <= maxTotalStake;
}.

Definition fee_ok (f : UpdateFeeRate) : Prop :=
  0 <= fr_FeeRate f <= fr_MaxFeeRate f /\ fr_MaxFeeRate f <= PSMaxFeeRate /\ uint_fits (fr_ChangedEpoch f).

Lemma lock_uint n : lock_ok n -> uint_fits n.
Proof. unfold lock_ok, uint_fits, PSMinEpochNum, PSMaxEpochNum. lia. Qed.

Lemma clients_nonneg s : staker_ok s -> 0 <= clientsTotal s.
Proof.
  intros Hs. apply sumOf_nonneg. eapply Forall_impl; [|exact (so_clients s Hs)].
  intros c (? & _). unfold minDelegatorStake, ether in *. lia.
Qed.

Lemma partners_nonneg s : staker_ok s -> 0 <= partnersTotal s.
Proof.
  intros Hs. apply sumOf_nonneg. eapply Forall_impl; [|exact (so_partners s Hs)]. by intros p (? & _).
Qed.

Lemma stake_nonneg s : staker_ok s -> 0 <= stake_total s.
Proof. intros Hs. pose proof (clients_nonneg s Hs). pose proof (partners_nonneg s Hs). destruct Hs. unfold stake_total. lia. Qed.

(** The parts of a sum of non-negative numbers. *)
Lemma sumOf_part {A} (f : A -> Z) l x : Forall (fun x => 0 <= f x) l -> x ∈ l -> f x <= sumOf f l.
Proof.
  induction 1 as [|y l Hy Hl IH]; intros Hin; [by apply not_elem_of_nil in Hin|].
  pose proof (sumOf_nonneg f l Hl). rewrite sumOf_cons.
  apply elem_of_cons in Hin as [->|Hin]; [lia|]. specialize (IH Hin). lia.
Qed.

Lemma amount_fits_le n : 0 <= n <= 1500 * maxTotalStake -> amount_fits n.
Proof. unfold amount_fits, maxTotalStake, ether. lia. Qed.

Lemma staker_ok_fits s : staker_ok s -> staker_fits s.
Proof.
  intros Hs. pose proof (clients_nonneg s Hs) as Hc0. pose proof (partners_nonneg s Hs) as Hp0. destruct Hs.
  assert (Forall (fun c => 0 <= ci_Amount c) (si_Clients s)) as Hc.
  { eapply Forall_impl; [|exact so_clients0]. intros c (? & _). unfold minDelegatorStake, ether in *. lia. }
  assert (Forall (fun p => 0 <= pi_Amount p) (si_Partners s)) as Hp.
  { eapply Forall_impl; [|exact so_partners0]. by intros p (? & _). }
  unfold stake_total in *. unfold weighted in *. split; try by apply lock_uint.
  - lia.
  - done.
  - apply amount_fits_le. lia.
  - apply amount_fits_le. lia.
  - done.
  - unfold uint_fits, PSMaxFeeRate in *. lia.
  - apply Forall_forall. intros c Hin%list_elem_of_In. pose proof (sumOf_part _ _ _ Hc Hin) as Hle.
    fold (clientsTotal s) in Hle. rewrite Forall_forall in so_clients0, Hc. apply list_elem_of_In in Hin.
    destruct (so_clients0 c Hin) as (? & ? & ?). specialize (Hc c Hin).
    split_and!; [apply amount_fits_le; lia|apply amount_fits_le; lia|done].
  - apply Forall_forall. intros p Hin%list_elem_of_In. pose proof (sumOf_part _ _ _ Hp Hin) as Hle.
    fold (partnersTotal s) in Hle. rewrite Forall_forall in so_partners0, Hp. apply list_elem_of_In in Hin.
    destruct (so_partners0 p Hin) as (? & Hw & ? & ?). specialize (Hp p Hin). unfold weighted in Hw.
    split; [apply amount_fits_le; lia|split; [apply amount_fits_le; lia|split; [|done]]].
    unfold uint_fits, PSMaxEpochNum in *. lia.
  - pose proof (sumOf_ge ci_Amount minDelegatorStake (si_Clients s)) as Hge.
    fold (clientsTotal s) in Hge. unfold minDelegatorStake, maxTotalStake, ether in *.
    assert (len (si_Clients s) * (100 * 10 ^ 18) <= clientsTotal s); [|lia].
    apply Hge. eapply Forall_impl; [|exact so_clients0]. by intros c (? & _).
  - unfold maxPartners in *. lia.
Qed.

Lemma fee_ok_fits f : fee_ok f -> fee_fits f.
Proof. unfold fee_ok, fee_fits, uint_fits, PSMaxFeeRate. lia. Qed.

(** * Encodings *)

Definition codes {A} `{!RlpCodec A} (a : A) (b : list byte) : Prop := rlpEncode a = Some (inl b).

Lemma codes_decode {A} `{!RlpCodec A} `{!RlpCodecOk A} (a : A) b :
  encodable a -> codes a b -> rlpDecode b = Some (inl a) /\ len b <> 0.
Proof.
  intros Ha Hb. destruct (rlpEncode_ok a Ha) as (b' & Hb' & ? & ?). unfold codes in Hb.
  rewrite Hb' in Hb. injection Hb as ->. split; [done|lia].
Qed.

Lemma staker_codes s : staker_ok s -> exists b, codes s b.
Proof.
  intros Hs. destruct (rlpEncode_ok s) as (b & ? & _); [by apply staker_encodable, staker_ok_fits|]. by exists b.
Qed.
Lemma staker_decode s b : staker_ok s -> codes s b -> rlpDecode b = Some (inl s) /\ len b <> 0.
Proof. intros Hs. by apply codes_decode, staker_encodable, staker_ok_fits. Qed.

Lemma fee_codes f : fee_ok f -> exists b, codes f b.
Proof.
  intros Hf. destruct (rlpEncode_ok f) as (b & ? & _); [by apply fee_encodable, fee_ok_fits|]. by exists b.
Qed.
Lemma fee_decode f b : fee_ok f -> codes f b -> rlpDecode b = Some (inl f) /\ len b <> 0.
Proof. intros Hf. by apply codes_decode, fee_encodable, fee_ok_fits. Qed.

(** * Keys *)

Lemma key_val a : bits_val (GetStakeInKeyHash a) = bits_val a.
Proof.
  unfold GetStakeInKeyHash, BytesToHash. pose proof (bits_bound a) as Hb. change (2 ^ Z.of_N 160) with (256 ^ 20) in Hb.
  rewrite bits_of_be_crop by done. rewrite bits_val_of. unfold Address_Bytes. rewrite be_val_be_bytes.
  change (Z.of_nat AddressLength) with 20. rewrite (Z.mod_small (bits_val a)) by done.
  apply Z.mod_small. change (2 ^ Z.of_N 256) with (256 ^ 32). lia.
Qed.

Lemma key_inj a b : GetStakeInKeyHash a = GetStakeInKeyHash b -> a = b.
Proof. intros H. apply bits_eq. rewrite <- !key_val. by rewrite H. Qed.

(** * The invariant *)

Definition stakers (s : astate) : gmap Hash (list byte) := bytes_of s StakersInfoAddr.
Definition fees (s : astate) : gmap Hash (list byte) := bytes_of s StakersFeeAddr.

(** The stake a byte array records, and all stakes. *)
Definition stake_in (b : list byte) : Z :=
  match rlpDecode (A:=StakerInfo) b with Some (inl s) => stake_total s | _ => 0 end.
Definition recorded (s : astate) : Z := map_sum stake_in (stakers s).

(** [staker_at s k b st]: the record [st] with the encoding [b] has key [k]. *)
Definition staker_at (s : astate) (k : Hash) (b : list byte) (st : StakerInfo) : Prop :=
  stakers s !! k = Some b /\ codes st b /\ k = GetStakeInKeyHash (si_Address st) /\ k <> emptyHash /\ staker_ok st.

Record staking_inv (s : astate) : Prop := {
  inv_stakers : forall k b, stakers s !! k = Some b -> exists st, staker_at s k b st;
  inv_fees : forall k b, fees s !! k = Some b ->
    exists f st b', codes f b /\ fee_ok f /\ k = GetStakeInKeyHash (fr_ValidatorAddr f) /\
      staker_at s k b' st /\ fr_FeeRate f = si_FeeRate st;
}.

Lemma staking_inv_same s s' : stakers s' = stakers s -> fees s' = fees s -> staking_inv s ->
  staking_inv s' /\ recorded s' = recorded s.
Proof.
  intros Hs Hf [Hi Hj]. unfold recorded. rewrite Hs. split; [|done].
  assert (forall k b st, staker_at s k b st -> staker_at s' k b st) as Hat.
  { intros k b st. unfold staker_at. by rewrite Hs. }
  split.
  - rewrite Hs. intros k b Hk. destruct (Hi k b Hk) as [st ?]. eauto.
  - rewrite Hf. intros k b Hk. destruct (Hj k b Hk) as (f & st & b' & ? & ? & ? & ? & ?). exists f, st, b'. split_and!; auto.
Qed.

Lemma stake_in_staker s b : staker_ok s -> codes s b -> stake_in b = stake_total s.
Proof. intros Hs Hb. unfold stake_in. by destruct (staker_decode s b Hs Hb) as [-> _]. Qed.

Lemma staker_at_stake s k b st : staker_at s k b st -> from_option stake_in 0 (stakers s !! k) = stake_total st.
Proof. intros (-> & Hb & _ & _ & Hs). cbn. by apply stake_in_staker. Qed.

Lemma staker_at_fun s k b b' st st' : staker_at s k b st -> staker_at s k b' st' -> b = b' /\ st = st'.
Proof.
  intros (Hk & Hb & _ & _ & Hs) (Hk' & Hb' & _ & _ & Hs'). rewrite Hk in Hk'. injection Hk' as <-. split; [done|].
  destruct (staker_decode st b Hs Hb) as [E _]. destruct (staker_decode st' b Hs' Hb') as [E' _]. congruence.
Qed.

Lemma recorded_nonneg s : staking_inv s -> 0 <= recorded s.
Proof.
  intros Hi. apply map_sum_nonneg. intros k b Hk. destruct (inv_stakers s Hi k b Hk) as (st & _ & Hb & _ & _ & Hs).
  rewrite (stake_in_staker st b Hs Hb). by apply stake_nonneg.
Qed.

(** The addresses are different. *)
Lemma staking_addrs : StakersInfoAddr <> StakersFeeAddr /\ StakersInfoAddr <> StakingCommonAddr /\
  StakersFeeAddr <> StakingCommonAddr.
Proof. by split_and!; apply (bool_decide_unpack _); vm_compute. Qed.

(** * Changes of the records *)

Definition put_staker (st : StakerInfo) (b : list byte) : update :=
  USetStateByteArray StakersInfoAddr (GetStakeInKeyHash (si_Address st)) b.
Definition put_fee (a : Address) (b : list byte) : update :=
  USetStateByteArray StakersFeeAddr (GetStakeInKeyHash a) b.

Lemma stakers_put st b s : len b <> 0 ->
  stakers (abs_update (put_staker st b) s) = <[GetStakeInKeyHash (si_Address st) := b]> (stakers s) /\
  fees (abs_update (put_staker st b) s) = fees s.
Proof.
  destruct staking_addrs as (? & ? & ?). intros Hb. unfold stakers, fees, put_staker.
  rewrite !bytes_of_set by done. by rewrite decide_True, decide_False.
Qed.

Lemma fees_put a b s : len b <> 0 ->
  stakers (abs_update (put_fee a b) s) = stakers s /\
  fees (abs_update (put_fee a b) s) = <[GetStakeInKeyHash a := b]> (fees s).
Proof.
  destruct staking_addrs as (? & ? & ?). intros Hb. unfold stakers, fees, put_fee.
  rewrite !bytes_of_set by done. by rewrite decide_False, decide_True by congruence.
Qed.

(** Storing a record that keeps the fee rate of the one it replaces. *)
Lemma put_staker_ok s st b :
  staking_inv s -> staker_ok st -> GetStakeInKeyHash (si_Address st) <> emptyHash -> codes st b ->
  (forall b0 st0, staker_at s (GetStakeInKeyHash (si_Address st)) b0 st0 -> si_FeeRate st0 = si_FeeRate st) ->
  let s' := abs_update (put_staker st b) s in
  staking_inv s' /\ staker_at s' (GetStakeInKeyHash (si_Address st)) b st /\
  recorded s' = recorded s - from_option stake_in 0 (stakers s !! GetStakeInKeyHash (si_Address st)) + stake_total st.
Proof.
  intros [Hi Hj] Hst Hk Hb Hfee s'. destruct (staker_decode st b Hst Hb) as [_ Hlen].
  destruct (stakers_put st b s Hlen) as [Hs Hf]. fold s' in Hs, Hf. set (k := GetStakeInKeyHash (si_Address st)) in *.
  assert (staker_at s' k b st) as Hat.
  { unfold staker_at. rewrite Hs, lookup_insert_eq. split_and!; done. }
  split_and!; [split|done|].
  - rewrite Hs. intros k' b' [[<- <-]|[Hne Hk']]%lookup_insert_Some; [by exists st|].
    destruct (Hi k' b' Hk') as (st' & _ & ? & ? & ? & ?). exists st'. unfold staker_at.
    rewrite Hs, lookup_insert_ne by done. split_and!; done.
  - rewrite Hf. intros k' fb Hk'. destruct (Hj k' fb Hk') as (f & st' & b' & ? & ? & ? & Hat' & Hrate).
    destruct (decide (k' = k)) as [->|Hne].
    + exists f, st, b. split_and!; try done. rewrite Hrate. by apply (Hfee b').
    + exists f, st', b'. split_and!; try done. destruct Hat' as (Hk2 & ?). unfold staker_at.
      by rewrite Hs, lookup_insert_ne by done.
  - unfold recorded. rewrite Hs, map_sum_set, (stake_in_staker st b) by done. done.
Qed.

(** Storing a record and its fee record. *)
Lemma put_both_ok s st b f fb :
  staking_inv s -> staker_ok st -> GetStakeInKeyHash (si_Address st) <> emptyHash -> codes st b ->
  codes f fb -> fee_ok f -> fr_ValidatorAddr f = si_Address st -> fr_FeeRate f = si_FeeRate st ->
  let s' := abs_update (put_fee (si_Address st) fb) (abs_update (put_staker st b) s) in
  staking_inv s' /\
  recorded s' = recorded s - from_option stake_in 0 (stakers s !! GetStakeInKeyHash (si_Address st)) + stake_total st.
Proof.
  intros [Hi Hj] Hst Hk Hb Hfb Hfok Hfa Hfr s'. destruct (staker_decode st b Hst Hb) as [_ Hlen].
  destruct (fee_decode f fb Hfok Hfb) as [_ Hflen].
  destruct (stakers_put st b s Hlen) as [Hs Hf].
  destruct (fees_put (si_Address st) fb (abs_update (put_staker st b) s) Hflen) as [Hs' Hf'].
  fold s' in Hs', Hf'. rewrite Hs in Hs'. rewrite Hf in Hf'. set (k := GetStakeInKeyHash (si_Address st)) in *.
  assert (staker_at s' k b st) as Hat.
  { unfold staker_at. rewrite Hs', lookup_insert_eq. split_and!; done. }
  assert (forall k' b' st', k' <> k -> staker_at s k' b' st' -> staker_at s' k' b' st') as Hother.
  { intros k' b' st' Hne (? & ?). unfold staker_at. by rewrite Hs', lookup_insert_ne. }
  split; [split|].
  - rewrite Hs'. intros k' b' [[<- <-]|[Hne Hk']]%lookup_insert_Some; [by exists st|].
    destruct (Hi k' b' Hk') as (st' & ?). exists st'. auto.
  - rewrite Hf'. intros k' b' [[<- <-]|[Hne Hk']]%lookup_insert_Some.
    + exists f, st, b. split_and!; try done. by rewrite Hfa.
    + destruct (Hj k' b' Hk') as (f' & st' & b'' & ? & ? & ? & ? & ?). exists f', st', b''. split_and!; auto.
  - unfold recorded. rewrite Hs', map_sum_set, (stake_in_staker st b) by done. done.
Qed.

(** Removing a record together with its fee record. *)
Lemma clear_both_ok s st b :
  let k := GetStakeInKeyHash (si_Address st) in
  let s1 := abs_update (put_staker st []) s in
  let s' := match fees s !! k with Some _ => abs_update (put_fee (si_Address st) []) s1 | None => s1 end in
  staking_inv s -> staker_at s k b st ->
  staking_inv s' /\ stakers s' = delete k (stakers s) /\ recorded s' = recorded s - stake_total st.
Proof.
  intros k s1 s' [Hi Hj] Hat. destruct staking_addrs as (? & ? & ?).
  assert (stakers s1 = delete k (stakers s) /\ fees s1 = fees s) as [Hs1 Hf1].
  { unfold stakers, fees, s1, put_staker. rewrite !bytes_of_clear. by rewrite decide_True, decide_False. }
  assert (stakers s' = delete k (stakers s) /\ fees s' = delete k (fees s)) as [Hs' Hf'].
  { unfold s'. destruct (fees s !! k) as [fb|] eqn:Ef.
    - rewrite <- Hs1, <- Hf1. unfold stakers, fees, put_fee. rewrite !bytes_of_clear.
      by rewrite decide_False, decide_True by congruence.
    - by rewrite (delete_id (fees s)) by done. }
  assert (forall k' b' st', k' <> k -> staker_at s k' b' st' -> staker_at s' k' b' st') as Hother.
  { intros k' b' st' Hne (? & ?). unfold staker_at. by rewrite Hs', lookup_delete_ne. }
  split_and!; [split|done|].
  - rewrite Hs'. intros k' b' [Hne Hk']%lookup_delete_Some. destruct (Hi k' b' Hk') as (st' & ?). exists st'. auto.
  - rewrite Hf'. intros k' b' [Hne Hk']%lookup_delete_Some.
    destruct (Hj k' b' Hk') as (f' & st' & b'' & ? & ? & ? & ? & ?). exists f', st', b''. split_and!; auto.
  - unfold recorded. by rewrite Hs', map_sum_remove, (staker_at_stake s k b st).
Qed.
