(* ===== verification/Instructions.v ===== *)
(** The execution functions of the instructions: core/vm/instructions.go.

    The code keeps the integers it no longer needs in a pool and reuses them;
    every value taken from the pool is assigned before it is read, so the pool
    does not appear in the model. *)

From S2P Require Import Prelude BigMath VmData VmState.
Import Big GoMath Common VmCommon.

Section Instructions.
Context {db : Type} `{StateDB db}.
Context (env : Env db) (calls : Calls db).

Definition executionFunc : Type := M db (list byte).

Definition opAdd : executionFunc :=
  x ← pop; y ← pop; push (U256 (x + y));; mret [].

Definition opSub : executionFunc :=
  x ← pop; y ← pop; push (U256 (x - y));; mret [].

Definition opMul : executionFunc :=
  x ← pop; y ← pop; push (U256 (x * y));; mret [].

(** big.Int's Div and Mod are Euclidean; the operands are not negative. *)
Definition opDiv : executionFunc :=
  x ← pop; y ← pop;
  (if negb (Sign y =? 0) then push (U256 (x / y)) else push 0);;
  mret [].

Definition opSdiv : executionFunc :=
  x ← pop; y ← pop;
  let x := S256 x in
  let y := S256 y in
  if Sign y =? 0 then push 0;; mret []
  else
    let n := if Sign (x * y) <? 0 then -1 else 1 in
    let res := Z.abs x / Z.abs y in
    push (U256 (res * n));; mret [].

Definition opMod : executionFunc :=
  x ← pop; y ← pop;
  (if Sign y =? 0 then push 0 else push (U256 (x mod y)));;
  mret [].

Definition opSmod : executionFunc :=
  x ← pop; y ← pop;
  let x := S256 x in
  let y := S256 y in
  (if Sign y =? 0 then push 0
   else
     let n := if Sign x <? 0 then -1 else 1 in
     let res := Z.abs x mod Z.abs y in
     push (U256 (res * n)));;
  mret [].

Definition opExp : executionFunc :=
  base ← pop; exponent ← pop; push (Exp base exponent);; mret [].

Definition opSignExtend : executionFunc :=
  back ← pop;
  (if back <? 31 then
     let bit := u64 (Uint64 back * 8 + 7) in
     num ← pop;
     let mask := Z.shiftl 1 bit - 1 in
     let num := if Z.testbit num bit then Z.lor num (Z.lnot mask) else Z.land num mask in
     push (U256 num)
   else mret tt);;
  mret [].

Definition opNot : executionFunc :=
  x ← pop; push (U256 (Z.lnot x));; mret [].

Definition opLt : executionFunc :=
  x ← pop; y ← pop; (if x <? y then push 1 else push 0);; mret [].

Definition opGt : executionFunc :=
  x ← pop; y ← pop; (if x >? y then push 1 else push 0);; mret [].

(** The second operand goes through S256 twice. *)
Definition opSlt : executionFunc :=
  x ← pop; y ← pop;
  let x := S256 x in
  let y := S256 y in
  (if x <? S256 y then push 1 else push 0);; mret [].

Definition opSgt : executionFunc :=
  x ← pop; y ← pop;
  let x := S256 x in
  let y := S256 y in
  (if x >? y then push 1 else push 0);; mret [].

Definition opEq : executionFunc :=
  x ← pop; y ← pop; (if x =? y then push 1 else push 0);; mret [].

Definition opIszero : executionFunc :=
  x ← pop; (if Sign x >? 0 then push 0 else push 1);; mret [].

Definition opAnd : executionFunc :=
  x ← pop; y ← pop; push (Z.land x y);; mret [].

Definition opOr : executionFunc :=
  x ← pop; y ← pop; push (Z.lor x y);; mret [].

Definition opXor : executionFunc :=
  x ← pop; y ← pop; push (Z.lxor x y);; mret [].

(** [val] is changed in place at the top of the stack. *)
Definition opByte : executionFunc :=
  th ← pop; val ← pop;
  (if th <? 32 then push (byte_Z (Byte val 32 (Int64 th))) else push 0);;
  mret [].

Definition opAddmod : executionFunc :=
  x ← pop; y ← pop; z ← pop;
  (if z >? 0 then push (U256 ((x + y) mod z)) else push 0);; mret [].

Definition opMulmod : executionFunc :=
  x ← pop; y ← pop; z ← pop;
  (if z >? 0 then push (U256 ((x * y) mod z)) else push 0);; mret [].

Definition opSha3 : executionFunc :=
  offset ← pop; size ← pop;
  m ← gets memory;
  data ← must (Memory.Get m (Int64 offset) (Int64 size));
  let hash := Keccak256Hash env data in
  (if EnablePreimageRecording (cfg env) then update_db (AddPreimage hash data)
   else mret tt);;
  push (SetBytes (Hash_Bytes hash));; mret [].

Definition opAddress : executionFunc :=
  a ← address; push (Address_Big a);; mret [].

Definition opBalance : executionFunc :=
  x ← pop; d ← get_db; push (GetBalance d (BigToAddress x));; mret [].

Definition opOrigin : executionFunc := push (Address_Big (Origin (ctx env)));; mret [].

Definition opCaller : executionFunc :=
  c ← gets contract; push (Address_Big (CallerAddress c));; mret [].

Definition opCallValue : executionFunc :=
  c ← gets contract; push (value c);; mret [].

Definition opCallDataLoad : executionFunc :=
  x ← pop; c ← gets contract;
  data ← must (getDataBig (Input c) x 32);
  push (SetBytes data);; mret [].

Definition opCallDataSize : executionFunc :=
  c ← gets contract; push (len (Input c));; mret [].

(** [memory.Set] followed by the new memory becoming current. *)
Definition memory_set (offset size : Z) (value : list byte) : M db unit :=
  m ← gets memory;
  m' ← must (Memory.Set_ m offset size value);
  set_memory m'.

Definition opCallDataCopy : executionFunc :=
  memOffset ← pop; dataOffset ← pop; length ← pop;
  c ← gets contract;
  data ← must (getDataBig (Input c) dataOffset length);
  memory_set (Uint64 memOffset) (Uint64 length) data;; mret [].

Definition opReturnDataSize : executionFunc :=
  e ← gets evm; push (len (returnData e));; mret [].

Definition opReturnDataCopy : executionFunc :=
  memOffset ← pop; dataOffset ← pop; length ← pop;
  e ← gets evm;
  let end_ := dataOffset + length in
  if (BitLen end_ >? 64) || (u64 (len (returnData e)) <? Uint64 end_)
  then throw errReturnDataOutOfBounds
  else
    data ← must (slice (returnData e) (Uint64 dataOffset) (Uint64 end_));
    memory_set (Uint64 memOffset) (Uint64 length) data;; mret [].

Definition opExtCodeSize : executionFunc :=
  a ← pop; d ← get_db; push (GetCodeSize d (BigToAddress a));; mret [].

Definition opCodeSize : executionFunc :=
  c ← gets contract; push (len (Code c));; mret [].

Definition opCodeCopy : executionFunc :=
  memOffset ← pop; codeOffset ← pop; length ← pop;
  c ← gets contract;
  codeCopy ← must (getDataBig (Code c) codeOffset length);
  memory_set (Uint64 memOffset) (Uint64 length) codeCopy;; mret [].

Definition opExtCodeCopy : executionFunc :=
  a ← pop; memOffset ← pop; codeOffset ← pop; length ← pop;
  d ← get_db;
  codeCopy ← must (getDataBig (GetCode d (BigToAddress a)) codeOffset length);
  memory_set (Uint64 memOffset) (Uint64 length) codeCopy;; mret [].

Definition opGasprice : executionFunc := push (GasPrice (ctx env));; mret [].

Definition opBlockhash : executionFunc :=
  num ← pop;
  let n := BlockNumber (ctx env) - 257 in
  (if (num >? n) && (num <? BlockNumber (ctx env))
   then push (Hash_Big (GetHash (ctx env) (Uint64 num)))
   else push 0);;
  mret [].

Definition opCoinbase : executionFunc := push (Address_Big (Coinbase (ctx env)));; mret [].
Definition opTimestamp : executionFunc := push (U256 (Time (ctx env)));; mret [].
Definition opNumber : executionFunc := push (U256 (BlockNumber (ctx env)));; mret [].
Definition opDifficulty : executionFunc := push (U256 (Difficulty (ctx env)));; mret [].
Definition opGasLimit : executionFunc := push (U256 (GasLimit (ctx env)));; mret [].

Definition opPop : executionFunc := _ ← pop; mret [].

Definition opMload : executionFunc :=
  offset ← pop;
  m ← gets memory;
  data ← must (Memory.Get m (Int64 offset) 32);
  push (SetBytes data);; mret [].

Definition opMstore : executionFunc :=
  mStart ← pop; val ← pop;
  memory_set (Uint64 mStart) 32 (PaddedBigBytes val 32);; mret [].

Definition opMstore8 : executionFunc :=
  off ← pop; val ← pop;
  m ← gets memory;
  m' ← must (Memory.SetByte m (Int64 off) (Z_byte (Z.land (Int64 val) 0xff)));
  set_memory m';; mret [].

Definition opSload : executionFunc :=
  x ← pop; d ← get_db; a ← address;
  push (Hash_Big (GetState d a (BigToHash x)));; mret [].

Definition opSstore : executionFunc :=
  x ← pop; val ← pop; a ← address;
  update_db (SetState a (BigToHash x) (BigToHash val));; mret [].

(** [contract.jumpdests.has(contract.CodeHash, contract.Code, pos)] *)
Definition validJump (pos : Z) : M db bool :=
  c ← gets contract; e ← gets evm;
  '(ok, d) ← must (Analysis.has (jumpdests e) (CodeHash c) (Code c) pos);
  set_evm (set_jumpdests e d);;
  mret ok.

Definition opJump : executionFunc :=
  pos ← pop;
  ok ← validJump pos;
  if negb ok then throw (errInvalidJump pos)
  else set_pc (Uint64 pos);; mret [].

Definition opJumpi : executionFunc :=
  pos ← pop; cond ← pop;
  if negb (Sign cond =? 0) then
    ok ← validJump pos;
    if negb ok then throw (errInvalidJump pos)
    else set_pc (Uint64 pos);; mret []
  else
    n ← gets pc; set_pc (u64 (n + 1));; mret [].

Definition opJumpdest : executionFunc := mret [].
Definition opPc : executionFunc := n ← gets pc; push n;; mret [].
Definition opMsize : executionFunc := m ← gets memory; push (Memory.Len m);; mret [].
Definition opGas : executionFunc := c ← gets contract; push (Gas c);; mret [].

Definition opCreate : executionFunc :=
  value ← pop; offset ← pop; size ← pop;
  m ← gets memory;
  input ← must (Memory.Get m (Int64 offset) (Int64 size));
  c ← gets contract;
  let gas := u64 (Gas c - Gas c / 64) in
  let c := (UseGas c gas).2 in
  set_contract c;;
  '(res, addr, returnGas, suberr) ← call_evm (Create calls (ContractOf c) input gas value);
  (match suberr with
   | Some _ => push 0
   | None => push (Address_Big addr)
   end);;
  c ← gets contract;
  set_contract (SetGas c (u64 (Gas c + returnGas)));;
  mret (if bool_decide (suberr = Some errExecutionReverted) then res else []).

(** The common end of the four call instructions: push the success flag, copy
    the returned data into memory unless the call failed, take the gas back. *)
Definition finishCall (retOffset retSize : Z)
    (r : list byte * Z * option vmerror) : executionFunc :=
  let '(ret, returnGas, err) := r in
  (match err with Some _ => push 0 | None => push 1 end);;
  (if bool_decide (err = None) || bool_decide (err = Some errExecutionReverted)
   then memory_set (Uint64 retOffset) (Uint64 retSize) ret
   else mret tt);;
  c ← gets contract;
  set_contract (SetGas c (u64 (Gas c + returnGas)));;
  mret ret.

Definition opCall : executionFunc :=
  gas ← pop;
  let gas := Uint64 gas in
  addr ← pop; value ← pop;
  let value := U256 value in
  inOffset ← pop; inSize ← pop; retOffset ← pop; retSize ← pop;
  let address := BigToAddress addr in
  m ← gets memory;
  args ← must (Memory.Get m (Int64 inOffset) (Int64 inSize));
  let gas := if negb (Sign value =? 0) then u64 (gas + Params.CallStipend) else gas in
  c ← gets contract;
  r ← call_evm (Call calls (ContractOf c) address args gas value);
  finishCall retOffset retSize r.

Definition opCallCode : executionFunc :=
  gas ← pop;
  let gas := Uint64 gas in
  addr ← pop; value ← pop;
  let value := U256 value in
  inOffset ← pop; inSize ← pop; retOffset ← pop; retSize ← pop;
  let address := BigToAddress addr in
  m ← gets memory;
  args ← must (Memory.Get m (Int64 inOffset) (Int64 inSize));
  let gas := if negb (Sign value =? 0) then u64 (gas + Params.CallStipend) else gas in
  c ← gets contract;
  r ← call_evm (CallCode calls (ContractOf c) address args gas value);
  finishCall retOffset retSize r.

Definition opDelegateCall : executionFunc :=
  gas ← pop;
  let gas := Uint64 gas in
  to ← pop; inOffset ← pop; inSize ← pop; outOffset ← pop; outSize ← pop;
  let toAddr := BigToAddress to in
  m ← gets memory;
  args ← must (Memory.Get m (Int64 inOffset) (Int64 inSize));
  c ← gets contract;
  r ← call_evm (DelegateCall calls (ContractOf c) toAddr args gas);
  finishCall outOffset outSize r.

Definition opStaticCall : executionFunc :=
  gas ← pop;
  let gas := Uint64 gas in
  addr ← pop; inOffset ← pop; inSize ← pop; retOffset ← pop; retSize ← pop;
  let address := BigToAddress addr in
  m ← gets memory;
  args ← must (Memory.Get m (Int64 inOffset) (Int64 inSize));
  c ← gets contract;
  r ← call_evm (StaticCall calls (ContractOf c) address args gas);
  finishCall retOffset retSize r.

Definition opReturn : executionFunc :=
  offset ← pop; size ← pop;
  m ← gets memory;
  must (Memory.GetPtr m (Int64 offset) (Int64 size)).

Definition opRevert : executionFunc :=
  offset ← pop; size ← pop;
  m ← gets memory;
  must (Memory.GetPtr m (Int64 offset) (Int64 size)).

Definition opStop : executionFunc := mret [].

Definition opSuicide : executionFunc :=
  d ← get_db; a ← address;
  let balance := GetBalance d a in
  x ← pop;
  update_db (AddBalance (BigToAddress x) balance);;
  update_db (fun d => (Suicide a d).2);;
  mret [].

(** make log instruction function; [topics[i]] are the next stack items. *)
Fixpoint popTopics (size : nat) : M db (list Hash) :=
  match size with
  | O => mret []
  | S n => x ← pop; rest ← popTopics n; mret (BigToHash x :: rest)
  end.
Definition makeLog (size : nat) : executionFunc :=
  mStart ← pop; mSize ← pop;
  topics ← popTopics size;
  m ← gets memory;
  d ← must (Memory.Get m (Int64 mStart) (Int64 mSize));
  a ← address;
  update_db (AddLog (mkLog a topics d (Uint64 (BlockNumber (ctx env)))
                       emptyHash 0 emptyHash 0));;
  mret [].

(** make push instruction function; the conversion of the next position to int is signed. *)
Definition makePush (size pushByteSize : Z) : executionFunc :=
  c ← gets contract; n ← gets pc;
  let codeLen := len (Code c) in
  let startMin := if s64 (u64 (n + 1)) <? codeLen then s64 (u64 (n + 1)) else codeLen in
  let endMin := if startMin + pushByteSize <? codeLen then startMin + pushByteSize
                else codeLen in
  d ← must (slice (Code c) startMin endMin);
  push (SetBytes (RightPadBytes d pushByteSize));;
  set_pc (u64 (n + size));; mret [].

Definition makeDup (size : nat) : executionFunc :=
  st ← gets stack; st' ← must (Stack.dup size st); set_stack st';; mret [].

(** switch n + 1 otherwise n would be swapped with n *)
Definition makeSwap (size : nat) : executionFunc :=
  st ← gets stack; st' ← must (Stack.swap (size + 1) st); set_stack st';; mret [].
End Instructions.
