(* ===== verification/Evm.v ===== *)
(** The instruction table (core/vm/jump_table.go), the interpreter loop
    (core/vm/interpreter.go) and the entry points of the machine
    (core/vm/evm.go, RunPrecompiledContract of core/vm/contracts.go).

    [Interpreter.Run] and the entry points call each other; the recursion is
    bounded by a fuel argument, one unit per loop iteration and per nested
    [run].  Theorem [run_total] (EvmTheorems) gives the fuel that is enough. *)

From S2P Require Import Prelude BigMath VmData VmState GasTable Ota Instructions.
Import Big GoMath Common VmCommon Params Op MemoryTable Stack Addr.

Section Evm.
Context {db : Type} `{StateDB db}.
Context (env : Env db).

(** * core/vm/jump_table.go *)

(** An entry of the table; an invalid entry is [None] in the tables. *)
Record operation := mkOperation {
  execute : executionFunc (db:=db);
  gasCost : gasFunc (db:=db);
  validateStack : list Z -> option vmerror;
  memorySize : option (list Z -> option Z);
  halts : bool;
  jumps : bool;
  writes : bool;
  reverts : bool;
  returns : bool;
}.

Section Table.
Context (calls : Calls db).

(** The entries of the table by groups, in the order of the source; most only
    give the execution, the gas and the stack function. *)
Definition plain (e : executionFunc) (g : gasFunc) (v : list Z -> option vmerror)
    : option operation :=
  Some (mkOperation e g v None false false false false false).
Definition memop (e : executionFunc) (g : gasFunc) (v : list Z -> option vmerror)
    (m : list Z -> option Z) : option operation :=
  Some (mkOperation e g v (Some m) false false false false false).

(** STOP to BYTE *)
Definition frontierArithmetic (op : byte) : option operation :=
  match op with
  | STOP => Some (mkOperation opStop (constGasFunc 0) (makeStackFunc 0 0) None true false false false false)
  | ADD => plain opAdd (constGasFunc GasFastestStep) (makeStackFunc 2 1)
  | MUL => plain opMul (constGasFunc GasFastStep) (makeStackFunc 2 1)
  | SUB => plain opSub (constGasFunc GasFastestStep) (makeStackFunc 2 1)
  | DIV => plain opDiv (constGasFunc GasFastStep) (makeStackFunc 2 1)
  | SDIV => plain opSdiv (constGasFunc GasFastStep) (makeStackFunc 2 1)
  | MOD => plain opMod (constGasFunc GasFastStep) (makeStackFunc 2 1)
  | SMOD => plain opSmod (constGasFunc GasFastStep) (makeStackFunc 2 1)
  | ADDMOD => plain opAddmod (constGasFunc GasMidStep) (makeStackFunc 3 1)
  | MULMOD => plain opMulmod (constGasFunc GasMidStep) (makeStackFunc 3 1)
  | EXP => plain opExp gasExp (makeStackFunc 2 1)
  | SIGNEXTEND => plain opSignExtend (constGasFunc GasFastStep) (makeStackFunc 2 1)
  | LT => plain opLt (constGasFunc GasFastestStep) (makeStackFunc 2 1)
  | GT => plain opGt (constGasFunc GasFastestStep) (makeStackFunc 2 1)
  | SLT => plain opSlt (constGasFunc GasFastestStep) (makeStackFunc 2 1)
  | SGT => plain opSgt (constGasFunc GasFastestStep) (makeStackFunc 2 1)
  | EQ => plain opEq (constGasFunc GasFastestStep) (makeStackFunc 2 1)
  | ISZERO => plain opIszero (constGasFunc GasFastestStep) (makeStackFunc 1 1)
  | AND => plain opAnd (constGasFunc GasFastestStep) (makeStackFunc 2 1)
  | XOR => plain opXor (constGasFunc GasFastestStep) (makeStackFunc 2 1)
  | OR => plain opOr (constGasFunc GasFastestStep) (makeStackFunc 2 1)
  | NOT => plain opNot (constGasFunc GasFastestStep) (makeStackFunc 1 1)
  | BYTE => plain opByte (constGasFunc GasFastestStep) (makeStackFunc 2 1)
  | _ => None
  end.

(** SHA3 to GASLIMIT *)
Definition frontierEnvironment (op : byte) : option operation :=
  match op with
  | SHA3 => memop (opSha3 env) gasSha3 (makeStackFunc 2 1) memorySha3
  | ADDRESS => plain opAddress (constGasFunc GasQuickStep) (makeStackFunc 0 1)
  | BALANCE => plain opBalance gasBalance (makeStackFunc 1 1)
  | ORIGIN => plain (opOrigin env) (constGasFunc GasQuickStep) (makeStackFunc 0 1)
  | CALLER => plain opCaller (constGasFunc GasQuickStep) (makeStackFunc 0 1)
  | CALLVALUE => plain opCallValue (constGasFunc GasQuickStep) (makeStackFunc 0 1)
  | CALLDATALOAD => plain opCallDataLoad (constGasFunc GasFastestStep) (makeStackFunc 1 1)
  | CALLDATASIZE => plain opCallDataSize (constGasFunc GasQuickStep) (makeStackFunc 0 1)
  | CALLDATACOPY => memop opCallDataCopy gasCallDataCopy (makeStackFunc 3 0) memoryCallDataCopy
  | CODESIZE => plain opCodeSize (constGasFunc GasQuickStep) (makeStackFunc 0 1)
  | CODECOPY => memop opCodeCopy gasCodeCopy (makeStackFunc 3 0) memoryCodeCopy
  | GASPRICE => plain (opGasprice env) (constGasFunc GasQuickStep) (makeStackFunc 0 1)
  | EXTCODESIZE => plain opExtCodeSize gasExtCodeSize (makeStackFunc 1 1)
  | EXTCODECOPY => memop opExtCodeCopy gasExtCodeCopy (makeStackFunc 4 0) memoryExtCodeCopy
  | BLOCKHASH => plain (opBlockhash env) (constGasFunc GasExtStep) (makeStackFunc 1 1)
  | COINBASE => plain (opCoinbase env) (constGasFunc GasQuickStep) (makeStackFunc 0 1)
  | TIMESTAMP => plain (opTimestamp env) (constGasFunc GasQuickStep) (makeStackFunc 0 1)
  | NUMBER => plain (opNumber env) (constGasFunc GasQuickStep) (makeStackFunc 0 1)
  | DIFFICULTY => plain (opDifficulty env) (constGasFunc GasQuickStep) (makeStackFunc 0 1)
  | GASLIMIT => plain (opGasLimit env) (constGasFunc GasQuickStep) (makeStackFunc 0 1)
  | _ => None
  end.

(** POP to JUMPDEST *)
Definition frontierFlow (op : byte) : option operation :=
  match op with
  | POP => plain opPop (constGasFunc GasQuickStep) (makeStackFunc 1 0)
  | MLOAD => memop opMload gasMLoad (makeStackFunc 1 1) memoryMLoad
  | MSTORE => memop opMstore gasMStore (makeStackFunc 2 0) memoryMStore
  | MSTORE8 => memop opMstore8 gasMStore8 (makeStackFunc 2 0) memoryMStore8
  | SLOAD => plain opSload gasSLoad (makeStackFunc 1 1)
  | SSTORE => Some (mkOperation opSstore gasSStore (makeStackFunc 2 0) None
                      false false true false false)
  | JUMP => Some (mkOperation opJump (constGasFunc GasMidStep) (makeStackFunc 1 0) None
                    false true false false false)
  | JUMPI => Some (mkOperation opJumpi (constGasFunc GasSlowStep) (makeStackFunc 2 0) None
                     false true false false false)
  | PC => plain opPc (constGasFunc GasQuickStep) (makeStackFunc 0 1)
  | MSIZE => plain opMsize (constGasFunc GasQuickStep) (makeStackFunc 0 1)
  | GAS => plain opGas (constGasFunc GasQuickStep) (makeStackFunc 0 1)
  | JUMPDEST => plain opJumpdest (constGasFunc JumpdestGas) (makeStackFunc 0 0)
  | _ => None
  end.

(** PUSH1: makePush(1, 1) to PUSH32: makePush(32, 32) *)
Definition frontierPush (op : byte) : option operation :=
  if IsPush op then
    let k := byte_Z op - byte_Z PUSH1 + 1 in
    plain (makePush k k) gasPush (makeStackFunc 0 1)
  else None.

(** DUP1: makeDup(1), makeDupStackFunc(1) to DUP16 *)
Definition frontierDup (op : byte) : option operation :=
  if (byte_Z DUP1 <=? byte_Z op) && (byte_Z op <=? byte_Z DUP16) then
    let k := byte_Z op - byte_Z DUP1 + 1 in
    plain (makeDup (Z.to_nat k)) gasDup (makeDupStackFunc k)
  else None.

(** SWAP1: makeSwap(1), makeSwapStackFunc(2) to SWAP16 *)
Definition frontierSwap (op : byte) : option operation :=
  if (byte_Z SWAP1 <=? byte_Z op) && (byte_Z op <=? byte_Z SWAP16) then
    let k := byte_Z op - byte_Z SWAP1 + 1 in
    plain (makeSwap (Z.to_nat k)) gasSwap (makeSwapStackFunc (k + 1))
  else None.

(** LOG0: makeLog(0), makeGasLog(0), makeStackFunc(2, 0) to LOG4 *)
Definition frontierLog (op : byte) : option operation :=
  if (byte_Z LOG0 <=? byte_Z op) && (byte_Z op <=? byte_Z LOG4) then
    let k := byte_Z op - byte_Z LOG0 in
    Some (mkOperation (makeLog env (Z.to_nat k)) (makeGasLog k) (makeStackFunc (k + 2) 0)
            (Some memoryLog) false false true false false)
  else None.

(** CREATE to SELFDESTRUCT *)
Definition frontierSystem (op : byte) : option operation :=
  match op with
  | CREATE => Some (mkOperation (opCreate calls) gasCreate (makeStackFunc 3 1)
                      (Some memoryCreate) false false true false true)
  | CALL => Some (mkOperation (opCall calls) gasCall (makeStackFunc 7 1)
                    (Some memoryCall) false false false false true)
  | CALLCODE => Some (mkOperation (opCallCode calls) gasCallCode (makeStackFunc 7 1)
                        (Some memoryCall) false false false false true)
  | RETURN => Some (mkOperation opReturn gasReturn (makeStackFunc 2 0)
                      (Some memoryReturn) true false false false false)
  | SELFDESTRUCT => Some (mkOperation opSuicide gasSuicide (makeStackFunc 1 0) None
                            true false true false false)
  | _ => None
  end.

(** The first group that has an entry. *)
Fixpoint first_entry (groups : list (byte -> option operation)) (op : byte) : option operation :=
  match groups with
  | [] => None
  | g :: rest => match g op with Some o => Some o | None => first_entry rest op end
  end.

Definition NewFrontierInstructionSet (op : byte) : option operation :=
  first_entry [frontierArithmetic; frontierEnvironment; frontierFlow; frontierPush; frontierDup;
               frontierSwap; frontierLog; frontierSystem] op.

Definition NewHomesteadInstructionSet (op : byte) : option operation :=
  match op with
  | DELEGATECALL => Some (mkOperation (opDelegateCall calls) gasDelegateCall
                            (makeStackFunc 6 1) (Some memoryDelegateCall)
                            false false false false true)
  | _ => NewFrontierInstructionSet op
  end.

Definition NewByzantiumInstructionSet (op : byte) : option operation :=
  match op with
  | STATICCALL => Some (mkOperation (opStaticCall calls) gasStaticCall
                          (makeStackFunc 6 1) (Some memoryStaticCall)
                          false false false false true)
  | RETURNDATASIZE => Some (mkOperation opReturnDataSize (constGasFunc GasQuickStep)
                              (makeStackFunc 0 1) None false false false false false)
  | RETURNDATACOPY => Some (mkOperation opReturnDataCopy gasReturnDataCopy
                              (makeStackFunc 3 0) (Some memoryReturnDataCopy)
                              false false false false false)
  | REVERT => Some (mkOperation opRevert gasRevert (makeStackFunc 2 0)
                      (Some memoryRevert) false false false true true)
  | _ => NewHomesteadInstructionSet op
  end.
End Table.

(** * core/vm/interpreter.go *)

Definition enforceRestrictions (op : byte) (o : operation) : M db unit :=
  e ← gets evm;
  if readOnly e then
    if writes o then throw errWriteProtection
    else if bool_decide (op = CALL) then
      b2 ← back 2;
      if BitLen b2 >? 0 then throw errWriteProtection else mret tt
    else mret tt
  else mret tt.

(** The memory size an operation asks for, rounded to words. *)
Definition requestedMemory (o : operation) : M db Z :=
  match memorySize o with
  | None => mret 0
  | Some f =>
      st ← gets stack;
      sz ← must (f st);
      memSize ← checked (bigUint64 sz);
      checked (SafeMul (toWordSize memSize) 32)
  end.

(** An error of the gas function, or a cost the contract cannot pay, is
    ErrOutOfGas. *)
Definition chargeGas (o : operation) (memorySize : Z) : M db unit := fun s =>
  match gasCost o GasTableEIP158 memorySize s with
  | Ok cost s' =>
      let '(ok, c) := UseGas (contract s') cost in
      if ok then set_contract c s' else Fail ErrOutOfGas s'
  | Fail _ s' => Fail ErrOutOfGas s'
  | Panic => Panic
  | OutOfFuel => OutOfFuel
  end.

(** Execute, then remember the returned data of the operations that return. *)
Definition executeOp (o : operation) : M db (list byte) := fun s =>
  match execute o s with
  | Ok res s' =>
      if returns o then (set_evm (set_returnData (evm s') res);; mret res) s'
      else Ok res s'
  | Fail err s' =>
      if returns o then (set_evm (set_returnData (evm s') []);; throw err) s'
      else Fail err s'
  | Panic => Panic
  | OutOfFuel => OutOfFuel
  end.

(** The work of a valid and permitted operation: memory size, gas, memory
    expansion, execution. *)
Definition perform (o : operation) : M db (list byte) :=
  memSize ← requestedMemory o;
  (if DisableGasMetering (cfg env) then mret tt else chargeGas o memSize);;
  (if memSize >? 0 then m ← gets memory; set_memory (Memory.Resize m memSize)
   else mret tt);;
  executeOp o.

(** One iteration of the main loop: [None] to go on, or the returned data and
    error. *)
Definition step (calls : Calls db) : M db (option (list byte * option vmerror)) :=
  c ← gets contract; n ← gets pc;
  let op := GetOp c n in
  match NewByzantiumInstructionSet calls op with
  | None => throw (errInvalidOpcode op)
  | Some o =>
      st ← gets stack;
      match validateStack o st with
      | Some err => throw err
      | None =>
          enforceRestrictions op o;;
          res ← perform o;
          if reverts o then mret (Some (res, Some errExecutionReverted))
          else if halts o then mret (Some (res, None))
          else if jumps o then mret None
          else n ← gets pc; set_pc (u64 (n + 1));; mret None
      end
  end.

(** [Interpreter.Run] around a loop: set up the frame, run, restore the call
    depth.  The result is the returned data, the error and the gas left. *)
Definition InterpreterRun (loop : M db (list byte * option vmerror))
    (c : Contract) (input : list byte) : ME db (list byte * option vmerror * Z) := fun e =>
  let e := set_returnData (set_depth e (depth e + 1)) [] in
  let leave e' := set_depth e' (depth e' - 1) in
  if len (Code c) =? 0 then Ok ([], None, Gas c) (leave e)
  else
    match loop (mkFrame 0 [] Memory.NewMemory (SetInput c input) e) with
    | Ok (ret, err) s => Ok (ret, err, Gas (contract s)) (leave (evm s))
    | Fail err s => Ok ([], Some err, Gas (contract s)) (leave (evm s))
    | Panic => Panic
    | OutOfFuel => OutOfFuel
    end.

(** core/vm/contracts.go *)
Definition RunPrecompiledContract (p : PrecompiledContract db) (input : list byte)
    (c : Contract) : ME db (list byte * option vmerror * Z) := fun e =>
  let '(ok, c') := UseGas c (RequiredGas p input) in
  if ok then
    match PrecompiledRun p input c' (ctx env) (statedb e) with
    | Some (ret, err, d) => Ok (ret, err, Gas c') (set_db e d)
    | None => Panic
    end
  else Ok ([], Some ErrOutOfGas, Gas c) e.

(** * core/vm/evm.go: the entry points over [run] *)
Section Entry.
Context (run : Contract -> list byte -> ME db (list byte * option vmerror * Z)).

Definition put (e : EVM db) : ME db unit := modify (fun _ => e).

(** A contract whose caller is not a contract starts a new map of jump
    destinations. *)
Definition enter (caller : ContractRef) (e : EVM db) : EVM db :=
  match caller with
  | AccountRef _ => set_jumpdests e ∅
  | ContractOf _ => e
  end.

(** The end of the four calls: on error revert to the snapshot and, unless
    the execution reverted by itself, consume the gas left. *)
Definition finishRun (snapshot : Z) (ret : list byte) (err : option vmerror) (gas : Z)
    : ME db (list byte * Z * option vmerror) :=
  match err with
  | None => mret (ret, gas, None)
  | Some x =>
      e ← gets id;
      d ← must (RevertToSnapshot snapshot (statedb e));
      put (set_db e d);;
      mret (ret, if bool_decide (x = errExecutionReverted) then gas else 0, Some x)
  end.

Definition evmCall (caller : ContractRef) (addr : Address) (input : list byte)
    (gas value : Z) : ME db (list byte * Z * option vmerror) :=
  e ← gets id;
  if NoRecursion (cfg env) && (depth e >? 0) then mret ([], gas, None)
  else if depth e >? CallCreateDepth then mret ([], gas, Some ErrDepth)
  else if negb (CanTransfer (statedb e) (RefAddress caller) value)
  then mret ([], gas, Some ErrInsufficientBalance)
  else
    let '(snapshot, d) := Snapshot (statedb e) in
    if negb (Exist d addr) && (match precompiles env addr with None => true | _ => false end)
       && (Sign value =? 0)
    then put (set_db e d);; mret ([], gas, None)
    else
      let d := if Exist d addr then d else CreateAccount addr d in
      let d := if negb (bool_decide (addr = wanCoinPrecompileAddr))
                  && negb (bool_decide (addr = wanStampPrecompileAddr))
               then Transfer d (RefAddress caller) addr value else d in
      let c := SetCallCode (NewContract caller addr value gas) addr
                 (GetCodeHash d addr) (GetCode d addr) in
      put (enter caller (set_db e d));;
      '(ret, err, gas) ← run c input;
      finishRun snapshot ret err gas.

Definition evmCallCode (caller : ContractRef) (addr : Address) (input : list byte)
    (gas value : Z) : ME db (list byte * Z * option vmerror) :=
  e ← gets id;
  if NoRecursion (cfg env) && (depth e >? 0) then mret ([], gas, None)
  else if depth e >? CallCreateDepth then mret ([], gas, Some ErrDepth)
  else if negb (CanTransfer (statedb e) (RefAddress caller) value)
  then mret ([], gas, Some ErrInsufficientBalance)
  else
    let '(snapshot, d) := Snapshot (statedb e) in
    let c := SetCallCode (NewContract caller (RefAddress caller) value gas) addr
               (GetCodeHash d addr) (GetCode d addr) in
    put (enter caller (set_db e d));;
    '(ret, err, gas) ← run c input;
    finishRun snapshot ret err gas.

Definition evmDelegateCall (caller : ContractRef) (addr : Address) (input : list byte)
    (gas : Z) : ME db (list byte * Z * option vmerror) :=
  e ← gets id;
  if NoRecursion (cfg env) && (depth e >? 0) then mret ([], gas, None)
  else if depth e >? CallCreateDepth then mret ([], gas, Some ErrDepth)
  else
    let '(snapshot, d) := Snapshot (statedb e) in
    c ← must (AsDelegate caller (NewContract caller (RefAddress caller) 0 gas));
    let c := SetCallCode c addr (GetCodeHash d addr) (GetCode d addr) in
    put (enter caller (set_db e d));;
    '(ret, err, gas) ← run c input;
    finishRun snapshot ret err gas.

Definition evmStaticCall (caller : ContractRef) (addr : Address) (input : list byte)
    (gas : Z) : ME db (list byte * Z * option vmerror) :=
  e ← gets id;
  if NoRecursion (cfg env) && (depth e >? 0) then mret ([], gas, None)
  else if depth e >? CallCreateDepth then mret ([], gas, Some ErrDepth)
  else
    let wasReadOnly := readOnly e in
    let e := set_readOnly e true in
    let '(snapshot, d) := Snapshot (statedb e) in
    let c := SetCallCode (NewContract caller addr 0 gas) addr
               (GetCodeHash d addr) (GetCode d addr) in
    put (enter caller (set_db e d));;
    '(ret, err, gas) ← run c input;
    r ← finishRun snapshot ret err gas;
    (if wasReadOnly then mret tt else modify (fun e => set_readOnly e false));;
    mret r.

(** The end of Create: pay for the code and store it, or revert. *)
Definition finishCreate (snapshot : Z) (contractAddr : Address) (ret : list byte)
    (err : option vmerror) (gas : Z) : ME db (list byte * Address * Z * option vmerror) :=
  let maxCodeSizeExceeded := len ret >? MaxCodeSize in
  let '(store, gas, err) :=
    if bool_decide (err = None) && negb maxCodeSizeExceeded then
      let createDataGas := u64 (u64 (len ret) * CreateDataGas) in
      if gas <? createDataGas then (false, gas, Some ErrCodeStoreOutOfGas)
      else (true, u64 (gas - createDataGas), None)
    else (false, gas, err) in
  (if store : bool then modify (fun e => set_db e (SetCode contractAddr ret (statedb e)))
   else mret tt);;
  gas ← (if maxCodeSizeExceeded || negb (bool_decide (err = None)) then
           e ← gets id;
           d ← must (RevertToSnapshot snapshot (statedb e));
           put (set_db e d);;
           mret (if bool_decide (err = Some errExecutionReverted) then gas else 0)
         else mret gas);
  let err := if maxCodeSizeExceeded && bool_decide (err = None)
             then Some errMaxCodeSizeExceeded else err in
  mret (ret, contractAddr, gas, err).

Definition evmCreate (caller : ContractRef) (code : list byte) (gas value : Z)
    : ME db (list byte * Address * Z * option vmerror) :=
  e ← gets id;
  if depth e >? CallCreateDepth then mret ([], inhabitant, gas, Some ErrDepth)
  else if negb (CanTransfer (statedb e) (RefAddress caller) value)
  then mret ([], inhabitant, gas, Some ErrInsufficientBalance)
  else
    let nonce := GetNonce (statedb e) (RefAddress caller) in
    let d := SetNonce (RefAddress caller) (u64 (nonce + 1)) (statedb e) in
    let contractAddr := CreateAddress env (RefAddress caller) nonce in
    if negb (Empty d contractAddr)
    then put (set_db e d);; mret ([], inhabitant, 0, Some ErrContractAddressCollision)
    else
      let '(snapshot, d) := Snapshot d in
      let d := CreateAccount contractAddr d in
      let d := SetNonce contractAddr 1 d in
      let d := Transfer d (RefAddress caller) contractAddr value in
      let c := SetCallCode (NewContract caller contractAddr value gas) contractAddr
                 (Keccak256Hash env code) code in
      put (enter caller (set_db e d));;
      if NoRecursion (cfg env) && (depth e >? 0) then mret ([], contractAddr, gas, None)
      else
        '(ret, err, gas) ← run c [];
        finishCreate snapshot contractAddr ret err gas.

Definition calls_of : Calls db :=
  mkCalls db evmCall evmCallCode evmDelegateCall evmStaticCall evmCreate.
End Entry.

(** [run] of evm.go and the loop of [Interpreter.Run], under fuel. *)
Fixpoint run (fuel : nat) (c : Contract) (input : list byte)
    : ME db (list byte * option vmerror * Z) :=
  match fuel with
  | O => fun _ => OutOfFuel
  | S n =>
      match (a ← CodeAddr c; precompiles env a) with
      | Some p => RunPrecompiledContract p input c
      | None => InterpreterRun (loop n) c input
      end
  end
with loop (fuel : nat) : M db (list byte * option vmerror) :=
  match fuel with
  | O => fun _ => OutOfFuel
  | S n =>
      e ← gets evm;
      set_evm (read_abort e);;
      if abort env (abort_reads e) then mret ([], None)
      else
        r ← step (calls_of (run n));
        match r with
        | Some out => mret out
        | None => loop n
        end
  end.

Lemma run_S n c input :
  run (S n) c input =
  match (a ← CodeAddr c; precompiles env a) with
  | Some p => RunPrecompiledContract p input c
  | None => InterpreterRun (loop n) c input
  end.
Proof. done. Qed.

Lemma loop_S n :
  loop (S n) =
  e ← gets evm;
  set_evm (read_abort e);;
  if abort env (abort_reads e) then mret ([], None)
  else
    r ← step (calls_of (run n));
    match r with
    | Some out => mret out
    | None => loop n
    end.
Proof. done. Qed.
End Evm.
