(* ===== verification/Transition.v ===== *)
(** Applying a transaction: core/state_transition.go, core/gaspool.go and the fee
    collection of pos/incentive/txGasPool.go.

    [StateTransition] keeps the fields that change; the message, from which
    [gasPrice] and [value] are taken, is an argument.  The database is the one of
    the EVM. *)

From S2P Require Import Prelude BigMath Encoding Abi VmData VmState Ota Privacy Instructions Evm TxTypes.
Import Big GoMath Common Params Addr Ota Privacy Secp.

(** * pos/util and pos/incentive/txGasPool.go *)
Module Incentive.
Definition Uint64ToBytes (input : Z) : list byte := if input =? 0 then [x00] else Bytes input.

Definition GetEpochSlotIDFromDifficulty (difficulty : Z) : Z * Z :=
  (Z.shiftr (Uint64 difficulty) 32, Z.land (Z.shiftr (Uint64 difficulty) 8) 0x00ffffff).

Section Incentive.
Context {db : Type} `{!StateDB db} (Keccak256Hash : list byte -> Hash).

Definition getGasHashKey (epochID : Z) : Hash :=
  Keccak256Hash (Uint64ToBytes epochID ++ str "gas_collection").
Definition getEpochGas (stateDb : db) (epochID : Z) : Z :=
  SetBytes (GetStateByteArray stateDb IncentivePrecompileAddr (getGasHashKey epochID)).
Definition AddEpochGas (gasValue epochID : Z) (stateDb : db) : db :=
  SetStateByteArray IncentivePrecompileAddr (getGasHashKey epochID)
    (Bytes (getEpochGas stateDb epochID + gasValue)) stateDb.
End Incentive.
End Incentive.

Module Transition.
Import Incentive.

Definition TxGas : Z := 21000.
Definition TxGasContractCreation : Z := 53000.
Definition TxDataZeroGas : Z := 4.
Definition TxDataNonZeroGas : Z := 68.

(** The errors of package core, and those of package vm. *)
Inductive txerror :=
| vmErr (err : vmerror)
| errInsufficientBalanceForGas
| ErrGasLimitReached
| ErrGasLimit
| ErrNonceTooHigh
| ErrNonceTooLow
| errStampSpended.

(** * core/gaspool.go *)
Definition AddGas (gp amount : Z) : Z := gp + amount.
Definition SubGas (gp amount : Z) : Z + txerror :=
  if gp <? amount then inr ErrGasLimitReached else inl (gp - amount).

(** * core/state_transition.go *)

Record Message := mkMessage {
  From : Address;
  To : option Address;
  msg_GasPrice : Z;
  msg_Gas : Z;
  msg_Value : Z;
  msg_Nonce : Z;
  CheckNonce : bool;
  msg_Data : list byte;
  TxType : Z;
}.

(** Division by zero panics; the quotient of big.Int rounds to make the
    remainder non-negative. *)
Definition big_Div (x y : Z) : option Z :=
  if y =? 0 then None else Some (Z.sgn y * (x / Z.abs y)).

Definition nonZero (data : list byte) : Z := len (filter (fun b => b <> x00) data).

Definition IntrinsicGas (data : list byte) (to : option Address) (homestead : bool) : Z :=
  let contractCreation := match to with None => true | Some _ => false end in
  let igas := if contractCreation && homestead then TxGasContractCreation else TxGas in
  let igas :=
    if len data >? 0 then
      let nz := nonZero data in
      igas + nz * TxDataNonZeroGas + (len data - nz) * TxDataZeroGas
    else igas in
  if IsPosPrecompiledAddr to then igas / 10 else igas.

(** ** Privacy transactions *)

Record PrivacyTxInfo := mkPrivacyTxInfo {
  tx_PublicKeys : list PublicKey;
  tx_KeyImage : PublicKey;
  tx_W_Random : list Z;
  tx_Q_Random : list Z;
  CallData : list byte;
  StampBalance : Z;
  StampTotalGas : Z;
  GasLeftSubRingSign : Z;
}.

Section Privacy.
Context {db : Type} `{!StateDB db} (Keccak256Hash : list byte -> Hash).
Context (VerifyRingSign : list byte -> list PublicKey -> PublicKey -> list Z -> list Z -> bool).

(** The arguments of the method combine(string,bytes). *)
Definition unpackCombine (payload : list byte) : ST db vmerror (list byte * list byte) := fun d =>
  match Abi.Unpack [Abi.StringTy; Abi.BytesTy] payload tt with
  | Ok [Abi.VString s; Abi.VBytes p] _ => Ok (s, p) d
  | Ok _ _ => Panic
  | Fail err _ => Fail err d
  | Panic => Panic
  | OutOfFuel => OutOfFuel
  end.

Definition FetchPrivacyTxInfo (hashInput input : list byte) (gasPrice : Z) : ST db vmerror PrivacyTxInfo :=
  if len input <? 4 then throw ErrInvalidRingSigned
  else
    '(RingSignedData, CxtCallParams) ← unpackCombine (drop 4 input);
    ringSignInfo ← FetchRingSignInfo VerifyRingSign hashInput RingSignedData;
    stampGasBigInt ← must (big_Div (OTABalance ringSignInfo) gasPrice);
    if BitLen stampGasBigInt >? 64 then throw ErrOutOfGas
    else
      let StampTotalGas := Uint64 stampGasBigInt in
      let mixLen := len (PublicKeys ringSignInfo) in
      let ringSigDiffRequiredGas := u64 (RequiredGasPerMixPub * u64 mixLen) in
      let preSubGas := u64 (ringSigDiffRequiredGas + SstoreSetGas) in
      if StampTotalGas <? preSubGas then throw ErrOutOfGas
      else
        let GasLeftSubRingSign := u64 (StampTotalGas - preSubGas) in
        mret (mkPrivacyTxInfo (PublicKeys ringSignInfo) (KeyImage ringSignInfo)
                (W_Random ringSignInfo) (Q_Random ringSignInfo) CxtCallParams
                (OTABalance ringSignInfo) StampTotalGas GasLeftSubRingSign).

(** Lift the errors of package vm. *)
Definition vmError {S A} (m : ST S vmerror A) : ST S txerror A := fun d =>
  match m d with
  | Ok a d' => Ok a d'
  | Fail err d' => Fail (vmErr err) d'
  | Panic => Panic
  | OutOfFuel => OutOfFuel
  end.

Definition ValidPrivacyTx (hashInput input : list byte) (gasPrice intrGas txValue gasLimit : Z)
    : ST db txerror unit :=
  if BitLen intrGas >? 64 then throw (vmErr ErrOutOfGas)
  else if negb (Sign txValue =? 0) then throw (vmErr ErrInvalidPrivacyValue)
  else if gasPrice <=? 0 then throw (vmErr ErrInvalidGasPrice)
  else
    info ← vmError (FetchPrivacyTxInfo hashInput input gasPrice);
    if StampTotalGas info >? Uint64 gasLimit then throw ErrGasLimit
    else
      let kix := FromECDSAPub (tx_KeyImage info) in
      '(found, _) ← vmError (CheckOTAImageExist Keccak256Hash kix);
      if found : bool then throw errStampSpended
      else if GasLeftSubRingSign info <? Uint64 intrGas then throw (vmErr ErrOutOfGas)
      else mret tt.

Definition dropError (m : ST db vmerror unit) : ST db vmerror unit := fun d =>
  match m d with Fail _ d' => Ok tt d' | r => r end.

(** An image that exists gives no error: [return nil, 0, 0, err] with a nil
    [err].  The error of AddOTAImage is dropped. *)
Definition PreProcessPrivacyTx (hashInput input : list byte) (gasPrice txValue : Z)
    : ST db vmerror (list byte * Z * Z) :=
  if negb (Sign txValue =? 0) then throw ErrInvalidPrivacyValue
  else
    info ← FetchPrivacyTxInfo hashInput input gasPrice;
    let kix := FromECDSAPub (tx_KeyImage info) in
    '(found, _) ← CheckOTAImageExist Keccak256Hash kix;
    if found : bool then mret ([], 0, 0)
    else
      _ ← dropError (AddOTAImage Keccak256Hash kix (Bytes (StampBalance info)));
      mret (CallData info, StampTotalGas info, GasLeftSubRingSign info).
End Privacy.

(** ** The transition *)

Record StateTransition (db : Type) := mkTransition {
  gp : Z;
  gas : Z;
  initialGas : Z;
  data : list byte;
  st_evm : EVM db;
}.
Arguments mkTransition {db} _ _ _ _ _.
Arguments gp {db} _.
Arguments gas {db} _.
Arguments initialGas {db} _.
Arguments data {db} _.
Arguments st_evm {db} _.

Section Transition.
Context {db : Type} `{!StateDB db} (env : Env db).
Context (VerifyRingSign : list byte -> list PublicKey -> PublicKey -> list Z -> list Z -> bool).
(** params.IsPosActive *)
Context (IsPosActive : bool).
Context (run : Contract -> list byte -> ME db (list byte * option vmerror * Z)).
Context (msg : Message).
Abbreviation T := (ST (StateTransition db) txerror).

Definition gasPrice : Z := msg_GasPrice msg.
Definition state (st : StateTransition db) : db := statedb (st_evm st).

Definition set_gp (n : Z) : T unit := modify (fun st =>
  mkTransition n (gas st) (initialGas st) (data st) (st_evm st)).
Definition set_gas (n : Z) : T unit := modify (fun st =>
  mkTransition (gp st) n (initialGas st) (data st) (st_evm st)).
Definition set_initialGas (n : Z) : T unit := modify (fun st =>
  mkTransition (gp st) (gas st) n (data st) (st_evm st)).
Definition set_data (b : list byte) : T unit := modify (fun st =>
  mkTransition (gp st) (gas st) (initialGas st) b (st_evm st)).
Definition set_state (d : db) (st : StateTransition db) : StateTransition db :=
  mkTransition (gp st) (gas st) (initialGas st) (data st) (set_db (st_evm st) d).
Definition on_state (f : db -> db) : T unit := modify (fun st => set_state (f (state st)) st).

(** Computations on the database and on the EVM. *)
Definition in_db {A} (m : ST db vmerror A) : T A := fun st =>
  match m (state st) with
  | Ok a d => Ok a (set_state d st)
  | Fail err d => Fail (vmErr err) (set_state d st)
  | Panic => Panic
  | OutOfFuel => OutOfFuel
  end.
Definition in_evm {A} (m : ME db A) : T A := fun st =>
  match m (st_evm st) with
  | Ok a e => Ok a (mkTransition (gp st) (gas st) (initialGas st) (data st) e)
  | Fail err _ => match err with end
  | Panic => Panic
  | OutOfFuel => OutOfFuel
  end.

Definition from : T ContractRef :=
  on_state (fun d => if Exist d (From msg) then d else CreateAccount (From msg) d);;
  mret (AccountRef (From msg)).

(** A creation has the zero address. *)
Definition to : T ContractRef :=
  match To msg with
  | None => mret (AccountRef (bits_of 160 0))
  | Some a =>
      on_state (fun d => if Exist d a then d else CreateAccount a d);;
      mret (AccountRef a)
  end.

Definition useGas (amount : Z) : T unit :=
  g ← gets gas;
  if g <? amount then throw (vmErr ErrOutOfGas) else set_gas (u64 (g - amount)).

Definition subPool (amount : Z) : T unit :=
  p ← gets gp;
  match SubGas p amount with inl p' => set_gp p' | inr err => throw err end.

Definition buyGas : T unit :=
  let mgas := msg_Gas msg in
  if BitLen mgas >? 64 then throw (vmErr ErrOutOfGas)
  else
    let mgval := mgas * gasPrice in
    sender ← from;
    balance ← gets (fun st => GetBalance (state st) (RefAddress sender));
    if balance <? mgval then throw errInsufficientBalanceForGas
    else
      subPool mgas;;
      g ← gets gas;
      set_gas (u64 (g + Uint64 mgas));;
      set_initialGas mgas;;
      on_state (SubBalance (RefAddress sender) mgval).

Definition preCheck : T unit :=
  sender ← from;
  nonce ← gets (fun st => GetNonce (state st) (RefAddress sender));
  if CheckNonce msg && (nonce <? msg_Nonce msg) then throw ErrNonceTooHigh
  else if CheckNonce msg && (nonce >? msg_Nonce msg) then throw ErrNonceTooLow
  else buyGas.

Definition gasUsed (st : StateTransition db) : Z := initialGas st - gas st.

(** BigMin returns one of its arguments, so when the counter is the smaller one
    [refund.Mul(refund, gasPrice)] changes the counter of the state. *)
Definition refundGas : T unit :=
  sender ← from;
  remaining ← gets (fun st => gas st * gasPrice);
  on_state (AddBalance (RefAddress sender) remaining);;
  uhalf ← gets (fun st => gasUsed st / 2);
  counter ← gets (fun st => GetRefund (state st));
  let refund := BigMin uhalf counter in
  g ← gets gas;
  set_gas (u64 (g + Uint64 refund));;
  (if uhalf >? counter then on_state (MulRefund gasPrice) else mret tt);;
  on_state (AddBalance (RefAddress sender) (refund * gasPrice));;
  g ← gets gas;
  p ← gets gp;
  set_gp (AddGas p g).

(** The part of TransitionDb for privacy transactions; the gas of the stamp. *)
Definition preProcess (sender : ContractRef) : T Z :=
  input ← gets data;
  '(pureCallData, totalUseableGas, evmUseableGas) ←
    in_db (PreProcessPrivacyTx (Keccak256Hash env) VerifyRingSign (Address_Bytes (RefAddress sender))
             input gasPrice (msg_Value msg));
  set_gas evmUseableGas;;
  set_initialGas evmUseableGas;;
  set_data pureCallData;;
  subPool totalUseableGas;;
  mret totalUseableGas.

(** Execution: the result, and the error of the machine. *)
Definition execute (sender : ContractRef) : T (list byte * option vmerror) :=
  input ← gets data;
  match To msg with
  | None =>
      g ← gets gas;
      '(ret, _, g, vmerr) ← in_evm (evmCreate env run sender input g (msg_Value msg));
      set_gas g;;
      mret (ret, vmerr)
  | Some _ =>
      on_state (fun d => SetNonce (RefAddress sender) (u64 (GetNonce d (RefAddress sender) + 1)) d);;
      recipient ← to;
      g ← gets gas;
      '(ret, g, vmerr) ← in_evm (evmCall env run sender (RefAddress recipient) input g (msg_Value msg));
      set_gas g;;
      mret (ret, vmerr)
  end.

(** The fee of a transaction goes to the miner or to the epoch's collection. *)
Definition payFee (fee : Z) : T unit :=
  if negb IsPosActive then on_state (AddBalance (Coinbase (ctx env)) fee)
  else
    let epochID := fst (GetEpochSlotIDFromDifficulty (Difficulty (ctx env))) in
    on_state (AddEpochGas (Keccak256Hash env) fee epochID).

(** ret, requiredGas, usedGas, failed.  A type of transaction that is none of
    the three leaves the gas amounts nil. *)
Definition TransitionDb : T (list byte * Z * Z * bool) :=
  let ordinary := IsNormalTransaction (TxType msg) || IsPosTransaction (TxType msg) in
  (if ordinary then preCheck else mret tt);;
  sender ← from;
  input ← gets data;
  let intrinsicGas := IntrinsicGas input (To msg) true in
  if BitLen intrinsicGas >? 64 then throw (vmErr ErrOutOfGas)
  else
    stampTotalGas ← (if IsPrivacyTransaction (TxType msg) then preProcess sender else mret 0);
    useGas (Uint64 intrinsicGas);;
    '(ret, vmerr) ← execute sender;
    if bool_decide (vmerr = Some ErrInsufficientBalance) then throw (vmErr ErrInsufficientBalance)
    else
      '(requiredGas, usedGas) ←
        (if ordinary then
           required ← gets gasUsed;
           refundGas;;
           used ← gets gasUsed;
           mret (Some required, Some used)
         else if IsPrivacyTransaction (TxType msg) then mret (Some stampTotalGas, Some stampTotalGas)
         else mret (None, None));
      used ← must usedGas;
      required ← must requiredGas;
      payFee (used * gasPrice);;
      mret (ret, required, used, match vmerr with Some _ => true | None => false end).
End Transition.

(** NewStateTransition and ApplyMessage: the result, the gas used and whether the
    execution failed. *)
Definition NewStateTransition {db} (e : EVM db) (msg : Message) (gp : Z) : StateTransition db :=
  mkTransition gp 0 0 (msg_Data msg) e.

Definition ApplyMessage {db} `{!StateDB db} (env : Env db) VerifyRingSign IsPosActive run msg
    (e : EVM db) (gp : Z) : outcome (StateTransition db) txerror (list byte * Z * bool) :=
  match TransitionDb env VerifyRingSign IsPosActive run msg (NewStateTransition e msg gp) with
  | Ok (ret, _, usedGas, failed) st => Ok (ret, usedGas, failed) st
  | Fail err st => Fail err st
  | Panic => Panic
  | OutOfFuel => OutOfFuel
  end.
End Transition.
