(* ===== verification/TxPool.v ===== *)
(** The transaction pool: core/tx_pool.go, its journal core/tx_journal.go, the
    nonces of core/state/managed_state.go, and the priority queue of
    vendor/gopkg.in/karalabe/cookiejar.v2/collections/prque.

    The pool reads the state of the chain through the class [PoolState].  The
    hash, the size and the sender of a transaction are parameters, and so are the
    orders in which Go iterates over maps; [now] is the clock.  [None] is a panic:
    a nil pointer, an index out of range.  The locks, the metrics and the log are
    left out; the transactions sent to the feed are recorded. *)

From S2P Require Import Prelude BigMath VmData GoHeap TxTypes TxList TxPriced TxByPrice Ota Transition.
Import Big Common Addr Tx.

Local Open Scope Z_scope.

(** What the pool asks of the state of the chain. *)
Class PoolState (S E : Type) := {
  GetNonce : S -> Address -> Z;
  GetBalance : S -> Address -> Z;
  (** ValidPrivacyTx: sender, data, gas price, intrinsic gas, value, gas limit. *)
  ValidPrivacyTx : S -> Address -> list byte -> Z -> Z -> Z -> Z -> option E;
  (** ValidTx of the native contract at an address, if there is one. *)
  ContractValidTx : S -> Address -> Transaction -> option E;
  ValidPosRBTx : S -> Address -> list byte -> option E;
  ValidPosELTx : S -> Address -> list byte -> option E;
}.

(** * core/state/managed_state.go *)
Module Managed.
Record account := mkAccount {
  nstart : Z;
  nonces : list bool;
}.
(** The nonces of the state objects that differ from the backing state, and the
    managed accounts. *)
Record ManagedState (S : Type) := mkManaged {
  backing : S;
  objects : gmap Address Z;
  accounts : gmap Address account;
}.
Arguments mkManaged {S}.
Arguments backing {S}.
Arguments objects {S}.
Arguments accounts {S}.

Section Ops.
Context {S E : Type} `{!PoolState S E}.

Definition object_nonce (ms : ManagedState S) (addr : Address) : Z :=
  default (GetNonce (backing ms) addr) (objects ms !! addr).

Definition ManageState (statedb : S) : ManagedState S := mkManaged statedb ∅ ∅.
Definition SetState (ms : ManagedState S) (statedb : S) : ManagedState S := mkManaged statedb ∅ (accounts ms).

Definition newAccount (nonce : Z) : account := mkAccount nonce [].
Definition next (a : account) : Z := (Z.of_nat (length (nonces a)) + nstart a) mod 2 ^ 64.
Definition hasAccount (ms : ManagedState S) (addr : Address) : bool := bool_decide (addr ∈ dom (accounts ms)).
(** The account that is stored; callers that change it store it again. *)
Definition getAccount (ms : ManagedState S) (addr : Address) : account :=
  match accounts ms !! addr with
  | None => newAccount (object_nonce ms addr)
  | Some a => if next a <? object_nonce ms addr then newAccount (object_nonce ms addr) else a
  end.
Definition set_account (ms : ManagedState S) (addr : Address) (a : account) : ManagedState S :=
  mkManaged (backing ms) (objects ms) (<[addr := a]> (accounts ms)).

Definition RemoveNonce (ms : ManagedState S) (addr : Address) (n : Z) : ManagedState S :=
  if hasAccount ms addr then
    let a := getAccount ms addr in
    let k := (n - nstart a) mod 2 ^ 64 in
    if k <=? Z.of_nat (length (nonces a)) then set_account ms addr (mkAccount (nstart a) (take (Z.to_nat k) (nonces a)))
    else set_account ms addr a
  else ms.

(** The first nonce that is free, or a new one. *)
Definition NewNonce (ms : ManagedState S) (addr : Address) : Z * ManagedState S :=
  let a := getAccount ms addr in
  match list_find (fun used => used = false) (nonces a) with
  | Some (i, _) => ((nstart a + Z.of_nat i) mod 2 ^ 64, set_account ms addr a)
  | None => ((Z.of_nat (length (nonces a)) + nstart a) mod 2 ^ 64, set_account ms addr (mkAccount (nstart a) (nonces a ++ [true])))
  end.

(** An account that is refreshed by the call is refreshed by the next one too. *)
Definition ManagedGetNonce (ms : ManagedState S) (addr : Address) : Z :=
  if hasAccount ms addr then next (getAccount ms addr) else object_nonce ms addr.
Definition SetNonce (ms : ManagedState S) (addr : Address) (nonce : Z) : ManagedState S :=
  mkManaged (backing ms) (<[addr := nonce]> (objects ms)) (<[addr := newAccount nonce]> (accounts ms)).
End Ops.
End Managed.
Import Managed.

(** * prque *)
Module Prque.
(** A value and its priority. *)
Abbreviation item := (Address * Z)%type.
Definition less_prque (a b : item) : bool := a.2 >? b.2.
Definition Push (q : list item) (data : Address) (priority : Z) : list item := Heap.Push less_prque q (data, priority).
Definition Pop (q : list item) : option (Address * list item) := '(i, q) ← Heap.Pop less_prque q; Some (i.1, q).

(** float32 of a length: 24 bits of precision, rounded to nearest, ties to even. *)
Definition float32 (n : Z) : Z :=
  if n <? 2 ^ 24 then n
  else
    let ulp := 2 ^ (Z.log2 n - 23) in
    let q := n / ulp in
    let r := n mod ulp in
    (if (2 * r <? ulp) || ((2 * r =? ulp) && Z.even q) then q else q + 1) * ulp.
End Prque.

(** * core/tx_journal.go *)
Module Journal.
(** What the file holds, and whether it is open for writing.  The file system
    does not fail. *)
Record txJournal := mkJournal {
  file : list Transaction;
  writer : bool;
}.
Definition insert (j : txJournal) (tx : Transaction) : txJournal :=
  if writer j then mkJournal (file j ++ [tx]) true else j.
Definition rotate (range : gmap Address (list Transaction) -> list (Address * list Transaction)) (all : gmap Address (list Transaction)) : txJournal :=
  mkJournal (range all ≫= snd) true.
End Journal.

(** * core/tx_pool.go *)
Module Pool.
Import TxList.

Record TxPoolConfig := mkConfig {
  NoLocals : bool;
  Rejournal : Z;
  PriceLimit : Z;
  PriceBump : Z;
  AccountSlots : Z;
  GlobalSlots : Z;
  AccountQueue : Z;
  GlobalQueue : Z;
  Lifetime : Z;
}.
(** Durations are in nanoseconds. *)
Definition Second : Z := 10 ^ 9.
Definition DefaultTxPoolConfig : TxPoolConfig :=
  mkConfig false (3600 * Second) 1 10 (16 * 128) 10240 (64 * 128) 10240 (3 * 3600 * Second).
Definition sanitize (c : TxPoolConfig) : TxPoolConfig :=
  mkConfig (NoLocals c)
    (if Rejournal c <? Second then Second else Rejournal c)
    (if PriceLimit c <? 1 then PriceLimit DefaultTxPoolConfig else PriceLimit c)
    (if PriceBump c <? 1 then PriceBump DefaultTxPoolConfig else PriceBump c)
    (AccountSlots c) (GlobalSlots c) (AccountQueue c) (GlobalQueue c) (Lifetime c).

Inductive poolerror (E : Type) :=
| ErrInvalidSender
| ErrNonceTooLow
| ErrUnderpriced
| ErrReplaceUnderpriced
| ErrInsufficientFunds
| ErrIntrinsicGas
| ErrGasLimit
| ErrNegativeValue
| ErrOversizedData
| ErrInvalidTxType
| errKnown (hash : Hash)
| errState (err : E).
#[global] Arguments ErrInvalidSender {E}.
#[global] Arguments ErrNonceTooLow {E}.
#[global] Arguments ErrUnderpriced {E}.
#[global] Arguments ErrReplaceUnderpriced {E}.
#[global] Arguments ErrInsufficientFunds {E}.
#[global] Arguments ErrIntrinsicGas {E}.
#[global] Arguments ErrGasLimit {E}.
#[global] Arguments ErrNegativeValue {E}.
#[global] Arguments ErrOversizedData {E}.
#[global] Arguments ErrInvalidTxType {E}.
#[global] Arguments errKnown {E}.
#[global] Arguments errState {E}.

Record TxPool (S : Type) := mkPool {
  gasPrice : Z;
  currentState : S;
  pendingState : ManagedState S;
  currentMaxGas : Z;
  locals : gset Address;
  journal : option Journal.txJournal;
  pending : gmap Address txList;
  queue : gmap Address txList;
  beats : gmap Address Z;
  all : gmap Hash Transaction;
  priced : Priced.txPricedList;
  homestead : bool;
  feed : list Transaction;
}.
#[global] Arguments mkPool {S}.
#[global] Arguments gasPrice {S}.
#[global] Arguments currentState {S}.
#[global] Arguments pendingState {S}.
#[global] Arguments currentMaxGas {S}.
#[global] Arguments locals {S}.
#[global] Arguments journal {S}.
#[global] Arguments pending {S}.
#[global] Arguments queue {S}.
#[global] Arguments beats {S}.
#[global] Arguments all {S}.
#[global] Arguments priced {S}.
#[global] Arguments homestead {S}.
#[global] Arguments feed {S}.

(** Assignments to a field. *)
Section Fields.
Context {S : Type}.
Definition set_gasPrice (x : Z) (p : TxPool S) : TxPool S :=
  mkPool x (currentState p) (pendingState p) (currentMaxGas p) (locals p) (journal p) (pending p) (queue p) (beats p) (all p) (priced p) (homestead p) (feed p).
Definition set_state (s : S) (ms : ManagedState S) (g : Z) (p : TxPool S) : TxPool S :=
  mkPool (gasPrice p) s ms g (locals p) (journal p) (pending p) (queue p) (beats p) (all p) (priced p) (homestead p) (feed p).
Definition set_pendingState (x : ManagedState S) (p : TxPool S) : TxPool S :=
  set_state (currentState p) x (currentMaxGas p) p.
Definition set_locals (x : gset Address) (p : TxPool S) : TxPool S :=
  mkPool (gasPrice p) (currentState p) (pendingState p) (currentMaxGas p) x (journal p) (pending p) (queue p) (beats p) (all p) (priced p) (homestead p) (feed p).
Definition set_journal (x : option Journal.txJournal) (p : TxPool S) : TxPool S :=
  mkPool (gasPrice p) (currentState p) (pendingState p) (currentMaxGas p) (locals p) x (pending p) (queue p) (beats p) (all p) (priced p) (homestead p) (feed p).
Definition set_pending (x : gmap Address txList) (p : TxPool S) : TxPool S :=
  mkPool (gasPrice p) (currentState p) (pendingState p) (currentMaxGas p) (locals p) (journal p) x (queue p) (beats p) (all p) (priced p) (homestead p) (feed p).
Definition set_queue (x : gmap Address txList) (p : TxPool S) : TxPool S :=
  mkPool (gasPrice p) (currentState p) (pendingState p) (currentMaxGas p) (locals p) (journal p) (pending p) x (beats p) (all p) (priced p) (homestead p) (feed p).
Definition set_beats (x : gmap Address Z) (p : TxPool S) : TxPool S :=
  mkPool (gasPrice p) (currentState p) (pendingState p) (currentMaxGas p) (locals p) (journal p) (pending p) (queue p) x (all p) (priced p) (homestead p) (feed p).
Definition set_all (x : gmap Hash Transaction) (y : Priced.txPricedList) (p : TxPool S) : TxPool S :=
  mkPool (gasPrice p) (currentState p) (pendingState p) (currentMaxGas p) (locals p) (journal p) (pending p) (queue p) (beats p) x y (homestead p) (feed p).
Definition set_priced (x : Priced.txPricedList) (p : TxPool S) : TxPool S :=
  set_all (all p) x p.
Definition set_homestead (x : bool) (p : TxPool S) : TxPool S :=
  mkPool (gasPrice p) (currentState p) (pendingState p) (currentMaxGas p) (locals p) (journal p) (pending p) (queue p) (beats p) (all p) (priced p) x (feed p).
Definition set_feed (x : list Transaction) (p : TxPool S) : TxPool S :=
  mkPool (gasPrice p) (currentState p) (pendingState p) (currentMaxGas p) (locals p) (journal p) (pending p) (queue p) (beats p) (all p) (priced p) (homestead p) x.
End Fields.

Section Pool.
Context {S E : Type} `{!PoolState S E}.
Context (config : TxPoolConfig).
Context (hash : Transaction -> Hash) (Size : Transaction -> Z) (Sender : Transaction -> option Address).
Context (range_nonce : gmap Z Transaction -> list (Z * Transaction)).
Context (range_hash : gmap Hash Transaction -> list (Hash * Transaction)).
Context (range_list : gmap Address txList -> list (Address * txList)).
Context (range_txs : gmap Address (list Transaction) -> list (Address * list Transaction)).
Context (range_addr : gset Address -> list Address).
Implicit Types p : TxPool S.

(** ** accountSet *)

Definition contains p (addr : Address) : bool := bool_decide (addr ∈ locals p).
Definition containsTx (accounts : gset Address) (tx : Transaction) : bool :=
  match Sender tx with Some addr => bool_decide (addr ∈ accounts) | None => false end.

(** ** Adding transactions *)

Definition validateTx p (tx : Transaction) (local : bool) : Address + poolerror E :=
  if negb (IsValidTransactionType (Txtype tx)) then inr ErrInvalidTxType
  else
  let isNormalType := IsNormalTransaction (Txtype tx) in
  let isPosType := IsPosTransaction (Txtype tx) in
  let isPosAddr := IsPosPrecompiledAddr (To tx) in
  if negb (Bool.eqb isPosType isPosAddr) then inr ErrInvalidTxType
  else if Size tx >? 320 * 1024 then inr ErrOversizedData
  else if Value tx <? 0 then inr ErrNegativeValue
  else if currentMaxGas p <? Gas tx then inr ErrGasLimit
  else
  match Sender tx with
  | None => inr ErrInvalidSender
  | Some from =>
      let local := local || contains p from in
      if negb local && (gasPrice p >? GasPrice tx) then inr ErrUnderpriced
      else if GetNonce (currentState p) from >? Nonce tx then inr ErrNonceTooLow
      else if (isNormalType || isPosType) && (GetBalance (currentState p) from <? Cost tx) then inr ErrInsufficientFunds
      else
        let intrGas := Transition.IntrinsicGas (Data tx) (To tx) (homestead p) in
        let invalid :=
          if isNormalType || isPosType then
            if Gas tx <? intrGas then Some ErrIntrinsicGas else None
          else errState <$> ValidPrivacyTx (currentState p) from (Data tx) (GasPrice tx) intrGas (Value tx) (currentMaxGas p) in
        match invalid with
        | Some err => inr err
        | None =>
            match To tx with
            | None => inl from
            | Some to =>
                match ContractValidTx (currentState p) to tx with
                | Some err => inr (errState err)
                | None => inl from
                end
            end
        end
  end.

(** delete(pool.all, hash) and pool.priced.Removed(). *)
Definition forget_hash p (h : Hash) : TxPool S :=
  let all := base.delete h (all p) in set_all all (Priced.Removed range_hash all (priced p)) p.
Definition forget p (tx : Transaction) : TxPool S := forget_hash p (hash tx).
Definition forget_all p (txs : list Transaction) : TxPool S := foldl forget p txs.
(** pool.all[hash] = tx and pool.priced.Put(tx). *)
Definition record_tx p (tx : Transaction) : TxPool S :=
  set_all (<[hash tx := tx]> (all p)) (Priced.Put (priced p) tx) p.
Definition forget_old p (old : option Transaction) : TxPool S :=
  match old with Some tx => forget p tx | None => p end.

Definition journalTx p (from : Address) (tx : Transaction) : TxPool S :=
  match journal p with
  | None => p
  | Some j => if negb (contains p from) then p else set_journal (Some (Journal.insert j tx)) p
  end.

(** The hash it is called with is the hash of the transaction. *)
Definition enqueueTx p (tx : Transaction) : (bool + poolerror E) * TxPool S :=
  let from := ByPrice.sender_of Sender tx in
  let list := default (newTxList false) (queue p !! from) in
  let '(inserted, old, list) := Add list tx (PriceBump config) in
  let p := set_queue (<[from := list]> (queue p)) p in
  if negb inserted then (inr ErrReplaceUnderpriced, p)
  else (inl (bool_decide (is_Some old)), record_tx (forget_old p old) tx).

(** Demoted transactions; an error is ignored. *)
Definition enqueue_all p (txs : list Transaction) : TxPool S := foldl (fun p tx => (enqueueTx p tx).2) p txs.

Definition promoteTx (now : Z) (addr : Address) p (tx : Transaction) : TxPool S :=
  let list := default (newTxList true) (pending p !! addr) in
  let '(inserted, old, list) := Add list tx (PriceBump config) in
  let p := set_pending (<[addr := list]> (pending p)) p in
  if negb inserted then forget p tx
  else
    let p := forget_old p old in
    let p := match all p !! hash tx with None => record_tx p tx | Some _ => p end in
    let p := set_beats (<[addr := now]> (beats p)) p in
    let p := set_pendingState (SetNonce (pendingState p) addr ((Nonce tx + 1) mod 2 ^ 64)) p in
    set_feed (feed p ++ [tx]) p.

(** Lower the nonce of the pending state. *)
Definition lower_nonce p (addr : Address) (nonce : Z) : TxPool S :=
  if ManagedGetNonce (pendingState p) addr >? nonce then set_pendingState (SetNonce (pendingState p) addr nonce) p else p.

(** ** Removing transactions *)

Definition remove_future p (addr : Address) (tx : Transaction) : option (TxPool S) :=
  match queue p !! addr with
  | None => Some p
  | Some future =>
      '(_, _, future) ← ListRemove range_nonce future tx;
      Some (set_queue (if Empty future then base.delete addr (queue p) else <[addr := future]> (queue p)) p)
  end.
Definition removeTx p (h : Hash) : option (TxPool S) :=
  match all p !! h with
  | None => Some p
  | Some tx =>
      let addr := ByPrice.sender_of Sender tx in
      let p := forget_hash p h in
      match pending p !! addr with
      | None => remove_future p addr tx
      | Some list =>
          '(removed, invalids, list) ← ListRemove range_nonce list tx;
          if removed : bool then
            let p :=
              if Empty list then set_beats (base.delete addr (beats p)) (set_pending (base.delete addr (pending p)) p)
              else enqueue_all (set_pending (<[addr := list]> (pending p)) p) invalids in
            Some (lower_nonce p addr (Nonce tx))
          else remove_future (set_pending (<[addr := list]> (pending p)) p) addr tx
      end
  end.
Definition remove_all p (txs : list Transaction) : option (TxPool S) :=
  foldl (fun r tx => p ← r; removeTx p (hash tx)) (Some p) txs.

(** In a full pool the cheapest remote transactions make way for a dearer one;
    whether the transaction is underpriced. *)
Definition make_room p (tx : Transaction) : option (bool * TxPool S) :=
  let slots := (GlobalSlots config + GlobalQueue config) mod 2 ^ 64 in
  let count := Z.of_nat (size (all p)) in
  if count >=? slots then
    '(underpriced, l) ← Priced.Underpriced hash (all p) (containsTx (locals p)) (priced p) tx;
    let p := set_priced l p in
    if underpriced : bool then Some (true, p)
    else
      '(drop, l) ← Priced.Discard hash (all p) (containsTx (locals p)) (priced p) (count - int64 ((slots - 1) mod 2 ^ 64));
      p ← remove_all (set_priced l p) drop;
      Some (false, p)
  else Some (false, p).
(** The transaction replaces a pending one or goes to the queue. *)
Definition place p (from : Address) (tx : Transaction) (local : bool) : (bool + poolerror E) * TxPool S :=
  match (list ← pending p !! from; if Overlaps list tx then Some list else None) with
  | Some list =>
      let '(inserted, old, list) := Add list tx (PriceBump config) in
      let p := set_pending (<[from := list]> (pending p)) p in
      if negb inserted then (inr ErrReplaceUnderpriced, p)
      else (inl (bool_decide (is_Some old)), journalTx (record_tx (forget_old p old) tx) from tx)
  | None =>
      let (r, p) := enqueueTx p tx in
      match r with
      | inr err => (inr err, p)
      | inl replace => (inl replace, journalTx (if local then set_locals ({[from]} ∪ locals p) p else p) from tx)
      end
  end.
Definition add p (tx : Transaction) (local : bool) : option ((bool + poolerror E) * TxPool S) :=
  match all p !! hash tx with
  | Some _ => Some (inr (errKnown (hash tx)), p)
  | None =>
      match validateTx p tx local with
      | inr err => Some (inr err, p)
      | inl from =>
          '(underpriced, p) ← make_room p tx;
          if underpriced : bool then Some (inr ErrUnderpriced, p) else Some (place p from tx local)
      end
  end.

(** ** Promotion *)

(** The checks against the state that a list makes of its transactions. *)
Definition invalid_privacy p (tl : txList) : option (list Transaction * txList) :=
  InvalidPrivacyTx range_nonce Sender (fun from tx =>
    bool_decide (ValidPrivacyTx (currentState p) from (Data tx) (GasPrice tx) (Transition.IntrinsicGas (Data tx) (To tx) true) (Value tx) (currentMaxGas p) = None)) tl.
Definition invalid_rb p (tl : txList) : option (list Transaction * txList) :=
  InvalidPosTx range_nonce Sender randomBeaconPrecompileAddr (fun from tx => bool_decide (ValidPosRBTx (currentState p) from (Data tx) = None)) tl.
Definition invalid_el p (tl : txList) : option (list Transaction * txList) :=
  InvalidPosTx range_nonce Sender slotLeaderPrecompileAddr (fun from tx => bool_decide (ValidPosELTx (currentState p) from (Data tx) = None)) tl.
(** The transactions they remove are forgotten. *)
Definition drop_invalid (p : TxPool S) (tl : txList) : option (TxPool S * txList) :=
  '(invalid, tl) ← invalid_privacy p tl;
  let p := forget_all p invalid in
  '(invalid, tl) ← invalid_rb p tl;
  let p := forget_all p invalid in
  '(invalid, tl) ← invalid_el p tl;
  Some (forget_all p invalid, tl).
Definition is_charged (tx : Transaction) : bool := IsNormalTransaction (Txtype tx) || IsPosTransaction (Txtype tx).

(** The transactions of a queued list that are too old, too costly or invalid. *)
Definition prune_queued p (addr : Address) (list : txList) : option (TxPool S * txList) :=
  '(old, list) ← ListForward list (GetNonce (currentState p) addr);
  let p := forget_all p old in
  '(drops, _, list) ← ListFilter range_nonce list (GetBalance (currentState p) addr) (currentMaxGas p);
  let p := forget_all p (List.filter is_charged drops) in
  drop_invalid p list.
Definition promote_account (now : Z) p (addr : Address) : option (TxPool S) :=
  match queue p !! addr with
  | None => Some p
  | Some list =>
      '(p, list) ← prune_queued p addr list;
      '(ready, list) ← ListReady list (ManagedGetNonce (pendingState p) addr);
      let p := foldl (promoteTx now addr) p ready in
      '(over, list) ← (if negb (contains p addr) then ListCap list (int64 (AccountQueue config)) else Some ([], list));
      let p := forget_all p over in
      Some (set_queue (if Empty list then base.delete addr (queue p) else <[addr := list]> (queue p)) p)
  end.
Definition each_account (f : TxPool S -> Address -> option (TxPool S)) p (l : list Address) : option (TxPool S) :=
  foldl (fun r addr => p ← r; f p addr) (Some p) l.

Definition count_lists (m : gmap Address txList) : Z := foldr (fun (e : Address * txList) n => ListLen e.2 + n) 0 (range_list m).

(** Take the last transaction from the list of an account. *)
Definition drop_last p (addr : Address) : option (TxPool S) :=
  list ← pending p !! addr;
  '(drops, list) ← ListCap list (ListLen list - 1);
  let p := set_pending (<[addr := list]> (pending p)) p in
  Some (foldl (fun p tx => lower_nonce (forget p tx) addr (Nonce tx)) p drops).
(** One transaction from every account of a list. *)
Definition drop_round p (offenders : list Address) : option (TxPool S) := each_account drop_last p offenders.

Definition pending_len p (addr : Address) : option Z := list ← pending p !! addr; Some (ListLen list).

(** Rounds until the list of [watch] is no longer than [threshold]; the count of
    pending transactions falls in every round. *)
Fixpoint level (fuel : nat) p (count : Z) (offenders : list Address) (watch : Address) (threshold : Z) : option (TxPool S * Z) :=
  if count >? GlobalSlots config then
    n ← pending_len p watch;
    if n >? threshold then
      match fuel with
      | O => None
      | Datatypes.S fuel =>
          p ← drop_round p offenders;
          level fuel p (count - Z.of_nat (length offenders)) offenders watch threshold
      end
    else Some (p, count)
  else Some (p, count).

(** Every turn takes an account from the queue. *)
Fixpoint equalize (fuel : nat) p (count : Z) (spammers : list Prque.item) (offenders : list Address) : option (TxPool S * Z * list Address) :=
  match fuel, spammers with
  | Datatypes.S fuel, _ :: _ =>
      if count >? GlobalSlots config then
        '(offender, spammers) ← Prque.Pop spammers;
        '(p, count) ←
          match list.last offenders with
          | None => Some (p, count)
          | Some watch =>
              threshold ← pending_len p offender;
              level (Z.to_nat count) p count offenders watch threshold
          end;
        equalize fuel p count spammers (offenders ++ [offender])
      else Some (p, count, offenders)
  | _, _ => Some (p, count, offenders)
  end.

Definition spammers_of p : list Prque.item :=
  foldl (fun q (e : Address * txList) =>
    if negb (contains p e.1) && (ListLen e.2 >? AccountSlots config) then Prque.Push q e.1 (Prque.float32 (ListLen e.2)) else q)
    [] (range_list (pending p)).

Definition limit_pending p : option (TxPool S) :=
  let count := count_lists (pending p) in
  if count >? GlobalSlots config then
    let spammers := spammers_of p in
    '(p, count, offenders) ← equalize (length spammers) p count spammers [];
    match list.last offenders with
    | Some watch => '(p, _) ← level (Z.to_nat count) p count offenders watch (AccountSlots config); Some p
    | None => Some p
    end
  else Some p.

(** The accounts by their heartbeat; an account without one has the zero time. *)
Definition by_heartbeat p : list (Address * Z) :=
  sort_by snd ((fun addr => (addr, default 0 (beats p !! addr))) <$> List.filter (fun addr => negb (contains p addr)) ((range_list (queue p)).*1)).
Fixpoint drop_queued p (drop : Z) (addresses : list (Address * Z)) : option (TxPool S) :=
  match addresses with
  | [] => Some p
  | (addr, _) :: addresses =>
      if drop >? 0 then
        list ← queue p !! addr;
        let size := ListLen list in
        let (txs, list) := ListFlatten range_nonce list in
        let p := set_queue (<[addr := list]> (queue p)) p in
        if size <=? drop then
          p ← remove_all p txs;
          drop_queued p (drop - size) addresses
        else
          p ← remove_all p (take (Z.to_nat drop) (rev txs));
          drop_queued p (drop - Z.of_nat (length (take (Z.to_nat drop) (rev txs)))) addresses
      else Some p
  end.
Definition limit_queued p : option (TxPool S) :=
  let queued := count_lists (queue p) in
  if queued >? GlobalQueue config then drop_queued p (queued - GlobalQueue config) (rev (by_heartbeat p)) else Some p.

(** [None] for the accounts is all of the queue. *)
Definition promoteExecutables (now : Z) p (accounts : option (list Address)) : option (TxPool S) :=
  let accounts := match accounts with Some l => l | None => (range_list (queue p)).*1 end in
  p ← each_account (promote_account now) p accounts;
  p ← limit_pending p;
  limit_queued p.

(** ** Demotion *)

(** Likewise of a pending list, where those that follow one that is too costly are
    queued. *)
Definition prune_pending p (addr : Address) (list : txList) : option (TxPool S * txList) :=
  '(old, list) ← ListForward list (GetNonce (currentState p) addr);
  let p := forget_all p old in
  '(drops, invalids, list) ← ListFilter range_nonce list (GetBalance (currentState p) addr) (currentMaxGas p);
  let p := forget_all p (List.filter is_charged drops) in
  let p := enqueue_all p invalids in
  drop_invalid p list.
(** A list with a gap in front is queued. *)
Definition close_gap p (list : txList) (nonce : Z) : option (TxPool S * txList) :=
  if (0 <? ListLen list) && bool_decide (Get (txs list) nonce = None) then
    '(gapped, list) ← ListCap list 0;
    Some (enqueue_all p gapped, list)
  else Some (p, list).
Definition demote_account p (addr : Address) : option (TxPool S) :=
  list ← pending p !! addr;
  let nonce := GetNonce (currentState p) addr in
  '(p, list) ← prune_pending p addr list;
  '(p, list) ← close_gap p list nonce;
  Some (if Empty list then set_beats (base.delete addr (beats p)) (set_pending (base.delete addr (pending p)) p)
        else set_pending (<[addr := list]> (pending p)) p).
Definition demoteUnexecutables p : option (TxPool S) := each_account demote_account p ((range_list (pending p)).*1).

(** ** Batches, queries and eviction *)

Definition addTx (now : Z) p (tx : Transaction) (local : bool) : option (option (poolerror E) * TxPool S) :=
  '(r, p) ← add p tx local;
  match r with
  | inr err => Some (Some err, p)
  | inl replace =>
      if negb replace then
        p ← promoteExecutables now p (Some [ByPrice.sender_of Sender tx]);
        Some (None, p)
      else Some (None, set_feed (feed p ++ [tx]) p)
  end.
Definition AddLocal (now : Z) p (tx : Transaction) := addTx now p tx (negb (NoLocals config)).
Definition AddRemote (now : Z) p (tx : Transaction) := addTx now p tx false.

(** The transactions one after the other, and the accounts that gained one. *)
Fixpoint add_each p (txs : list Transaction) (local : bool) (dirty : gset Address) : option (gset Address * TxPool S) :=
  match txs with
  | [] => Some (dirty, p)
  | tx :: txs =>
      '(r, p) ← add p tx local;
      add_each p txs local (match r with inl false => {[ByPrice.sender_of Sender tx]} ∪ dirty | _ => dirty end)
  end.
Definition addTxsLocked (now : Z) p (txs : list Transaction) (local : bool) : option (TxPool S) :=
  '(dirty, p) ← add_each p txs local ∅;
  if (0 <? size dirty)%nat then promoteExecutables now p (Some (range_addr dirty)) else Some p.
Definition AddLocals (now : Z) p (txs : list Transaction) := addTxsLocked now p txs (negb (NoLocals config)).
Definition AddRemotes (now : Z) p (txs : list Transaction) := addTxsLocked now p txs false.

Definition PoolGet p (h : Hash) : option Transaction := all p !! h.
Definition stats p : Z * Z := (count_lists (pending p), count_lists (queue p)).

(** Flatten every list of a map. *)
Definition flatten_lists (m : gmap Address txList) : gmap Address (list Transaction) * gmap Address txList :=
  ((fun l => (ListFlatten range_nonce l).1) <$> m, (fun l => (ListFlatten range_nonce l).2) <$> m).
Definition Pending p : gmap Address (list Transaction) * TxPool S :=
  let (txs, m) := flatten_lists (pending p) in (txs, set_pending m p).
Definition Content p : gmap Address (list Transaction) * gmap Address (list Transaction) * TxPool S :=
  let (txs, m) := flatten_lists (pending p) in
  let (queued, q) := flatten_lists (queue p) in
  (txs, queued, set_queue q (set_pending m p)).

(** The transactions of the local accounts. *)
Definition local_account (r : gmap Address (list Transaction) * TxPool S) (addr : Address) : gmap Address (list Transaction) * TxPool S :=
  let (txs, p) := r in
  let (txs, p) :=
    match pending p !! addr with
    | None => (txs, p)
    | Some list =>
        let (l, list) := ListFlatten range_nonce list in
        (<[addr := default [] (txs !! addr) ++ l]> txs, set_pending (<[addr := list]> (pending p)) p)
    end in
  match queue p !! addr with
  | None => (txs, p)
  | Some list =>
      let (l, list) := ListFlatten range_nonce list in
      (<[addr := default [] (txs !! addr) ++ l]> txs, set_queue (<[addr := list]> (queue p)) p)
  end.
Definition local p : gmap Address (list Transaction) * TxPool S := foldl local_account (∅, p) (range_addr (locals p)).

Definition SetGasPrice p (price : Z) : option (TxPool S) :=
  let p := set_gasPrice price p in
  '(drop, l) ← Priced.Cap hash (all p) (containsTx (locals p)) (priced p) price;
  remove_all (set_priced l p) drop.

(** The tick of the eviction: times are in nanoseconds from the zero time, and a
    duration saturates. *)
Definition since (now t : Z) : Z := Z.min (now - t) (2 ^ 63 - 1).
Definition evict_account (now : Z) p (addr : Address) : option (TxPool S) :=
  if contains p addr then Some p
  else if since now (default 0 (beats p !! addr)) >? Lifetime config then
    list ← queue p !! addr;
    let (txs, list) := ListFlatten range_nonce list in
    remove_all (set_queue (<[addr := list]> (queue p)) p) txs
  else Some p.
Definition evict (now : Z) p : option (TxPool S) := each_account (evict_account now) p ((range_list (queue p)).*1).

Definition rejournal p : TxPool S :=
  match journal p with
  | None => p
  | Some _ => let (txs, p) := local p in set_journal (Some (Journal.rotate range_txs txs)) p
  end.

(** ** A new head of the chain *)

Record Header := mkHeader {
  h_Hash : Hash;
  ParentHash : Hash;
  Number : Z;
  Root : Hash;
  GasLimit : Z;
}.
Record Block := mkBlock {
  header : Header;
  Transactions : list Transaction;
}.
Section Chain.
Context (GetBlock : Hash -> Z -> option Block) (StateAt : Hash -> option S) (CurrentBlock : Block).

Definition parent (b : Block) : option Block := GetBlock (ParentHash (header b)) ((Number (header b) - 1) mod 2 ^ 64).

(** Down from [b] to the height [n], with the transactions on the way; an
    unrooted chain gives [Some None]. *)
Fixpoint descend (fuel : nat) (b : Block) (n : Z) (seen : list Transaction) : option (option (Block * list Transaction)) :=
  if Number (header b) >? n then
    match fuel with
    | O => None
    | Datatypes.S fuel =>
        match parent b with
        | None => Some None
        | Some b' => descend fuel b' n (seen ++ Transactions b)
        end
    end
  else Some (Some (b, seen)).
(** Down from both blocks to their common ancestor. *)
Fixpoint join (fuel : nat) (rem add : Block) (discarded included : list Transaction) : option (option (list Transaction * list Transaction)) :=
  if bool_decide (h_Hash (header rem) = h_Hash (header add)) then Some (Some (discarded, included))
  else
    match fuel with
    | O => None
    | Datatypes.S fuel =>
        match parent rem with
        | None => Some None
        | Some rem' =>
            match parent add with
            | None => Some None
            | Some add' => join fuel rem' add' (discarded ++ Transactions rem) (included ++ Transactions add)
            end
        end
    end.
Definition height (b : Block) : nat := Z.to_nat (Number (header b)).

(** The transactions to inject again; the distance of the heads is exact below
    2^53. *)
Definition reorg (oldHead newHead : Header) : option (option (list Transaction)) :=
  if bool_decide (h_Hash oldHead = ParentHash newHead) then Some (Some [])
  else if Z.abs (Number oldHead - Number newHead) >? 1024 then Some (Some [])
  else
    rem ← GetBlock (h_Hash oldHead) (Number oldHead);
    add ← GetBlock (h_Hash newHead) (Number newHead);
    r ← descend (height rem) rem (Number (header add)) [];
    match r with
    | None => Some None
    | Some (rem, discarded) =>
        r ← descend (height add) add (Number (header rem)) [];
        match r with
        | None => Some None
        | Some (add, included) =>
            r ← join (height rem + 1) rem add discarded included;
            Some ('(discarded, included) ← r; Some (TxDifference hash discarded included))
        end
    end.

(** The pending nonce of an account is that of its last pending transaction. *)
Definition set_pending_nonce p (addr : Address) : option (TxPool S) :=
  list ← pending p !! addr;
  let (txs, list) := ListFlatten range_nonce list in
  tx ← list.last txs;
  Some (set_pendingState (SetNonce (pendingState p) addr ((Nonce tx + 1) mod 2 ^ 64)) (set_pending (<[addr := list]> (pending p)) p)).

Definition reset (now : Z) p (oldHead newHead : option Header) : option (TxPool S) :=
  r ← match oldHead with
      | None => Some (Some [])
      | Some old => new ← newHead; reorg old new
      end;
  match r with
  | None => Some p
  | Some reinject =>
      let newHead := default (header CurrentBlock) newHead in
      match StateAt (Root newHead) with
      | None => Some p
      | Some statedb =>
          let p := set_state statedb (ManageState statedb) (GasLimit newHead) p in
          p ← addTxsLocked now p reinject false;
          p ← demoteUnexecutables p;
          p ← each_account set_pending_nonce p ((range_list (pending p)).*1);
          promoteExecutables now p None
      end
  end.

(** A ChainHeadEvent. *)
Definition chainHead (now : Z) p (head : Header) (ev : Block) : option (TxPool S) :=
  reset now (set_homestead true p) (Some head) (Some (header ev)).

(** A pool on the state of the current block, without which it has a nil state;
    [file] is the journal, if there is one.  The configuration is the sanitized
    one. *)
Definition emptyPool (statedb : S) : TxPool S :=
  mkPool (PriceLimit config) statedb (ManageState statedb) 0 ∅ None ∅ ∅ ∅ ∅ Priced.newTxPricedList false [].
Definition load (now : Z) p (file : list Transaction) : option (TxPool S) :=
  foldl (fun r tx => p ← r; '(_, p) ← AddLocal now p tx; Some p) (Some p) file.
Definition NewTxPool (now : Z) (file : option (list Transaction)) : option (TxPool S) :=
  statedb ← StateAt (Root (header CurrentBlock));
  p ← reset now (emptyPool statedb) None (Some (header CurrentBlock));
  match file with
  | Some file =>
      if negb (NoLocals config) then
        p ← load now (set_journal (Some (Journal.mkJournal file false)) p) file;
        Some (rejournal p)
      else Some p
  | None => Some p
  end.
End Chain.
End Pool.
End Pool.
