(* ===== verification/TxPoolInv.v ===== *)
(** The pool keeps its lists in order: what holds of a pool between its
    operations.

    [core M p]: the transactions [M a] that the lists of the account [a] hold, or
    that an operation has in its hands, have different nonces and are known by
    their hash, and the price heap knows all that the pool knows.  [pooled p]: the
    pending and the queued list of every account stand for lists [P a] and [Q a]
    whose transactions form a core. *)

From S2P Require Import Prelude BigMath VmData GoHeap TxTypes TxList TxListSpec TxListRefine TxPriced TxByPrice Ota Transition TxPool.
From stdpp Require Import functions.
Import Big Common Addr Tx Managed Pool TxList.

Local Open Scope Z_scope.

(** An iteration over a map meets every entry once. *)
Class Ranges `{Countable K} {A} (range : gmap K A -> list (K * A)) := range_perm : forall m, range m ≡ₚ map_to_list m.

Section Inv.
Context {S E : Type} `{!PoolState S E}.
Context {config : TxPoolConfig}.
Context {hash : Transaction -> Hash} {Sender : Transaction -> option Address}.
Context {range_nonce : gmap Z Transaction -> list (Z * Transaction)}.
Context {range_hash : gmap Hash Transaction -> list (Hash * Transaction)}.
Context `{!Ranges range_nonce, !Ranges range_hash}.
Implicit Types p : TxPool S.

Abbreviation sender_of := (ByPrice.sender_of Sender).
Abbreviation forget := (forget hash range_hash).
Abbreviation forget_all := (forget_all hash range_hash).
Abbreviation record_tx := (record_tx hash).
Abbreviation enqueueTx := (enqueueTx (E := E) config hash Sender range_hash).
Abbreviation enqueue_all := (enqueue_all (E := E) config hash Sender range_hash).

(** A transaction that can be in the pool. *)
Definition poolable (tx : Transaction) : Prop :=
  is_Some (Sender tx) /\ 0 <= Nonce tx < 2 ^ 64 - 1 /\ (IsPosTransaction (Txtype tx) = true -> is_Some (To tx)).

(** The transactions that the price heap has given out and that are about to be
    removed. *)
Context {D : list Transaction}.

(** What the pool knows. *)
Record known (all : gmap Hash Transaction) (l : Priced.txPricedList) : Prop := {
  kn_keys : map_Forall (fun h tx => hash tx = h) all;
  kn_poolable : map_Forall (fun _ tx => poolable tx) all;
  kn_heap : is_heap GasPrice (Priced.items l);
  kn_priced : map_Forall (fun _ tx => tx ∈ Priced.items l \/ tx ∈ D) all;
}.

Record core (M : Address -> list Transaction) p : Prop := {
  co_known : known (all p) (priced p);
  co_nonces : forall a, NoDup (Nonce <$> M a);
  co_listed : forall a, Forall (fun tx => sender_of tx = a /\ all p !! hash tx = Some tx) (M a);
}.

Lemma core_sub M M' p : core M p -> (forall a, exists rest, M a ≡ₚ M' a ++ rest) -> core M' p.
Proof.
  intros [Hk Hn Hl] Hs. split; [done|..]; intros a; destruct (Hs a) as [rest Hp].
  - specialize (Hn a). rewrite Hp, fmap_app in Hn. by apply list.NoDup_app in Hn as [? _].
  - specialize (Hl a). rewrite Hp in Hl. by apply Forall_app in Hl as [? _].
Qed.
Lemma core_perm M M' p : core M p -> (forall a, M' a ≡ₚ M a) -> core M' p.
Proof. intros H Hp. eapply core_sub; [done|]. intros a. exists []. by rewrite Hp, app_nil_r. Qed.

(** The other fields do not matter. *)
Lemma core_fields M p p' : core M p -> all p' = all p -> priced p' = priced p -> core M p'.
Proof. intros [Hk Hn Hl] E1 E2. split; rewrite ?E1, ?E2; done. Qed.

(** ** What is known *)

Lemma known_forget all l h : known all l -> known (base.delete h all) (Priced.Removed range_hash (base.delete h all) l).
Proof.
  intros [Hk Hp Hh Hc]. unfold Priced.Removed. set (all' := base.delete h all).
  assert (map_Forall (fun _ tx => tx ∈ Priced.items l \/ tx ∈ D) all') as Hc' by (by apply map_Forall_delete).
  destruct (_ <=? _); constructor; cbn [Priced.items]; try done; try (by apply map_Forall_delete).
  - apply (Init_ok Priced.less_cheap GasPrice _ less_cheap_key), any.
  - intros h' tx Htx. left. rewrite Init_perm, range_perm. apply list_elem_of_fmap. exists (h', tx). split; [done|]. by apply elem_of_map_to_list.
Qed.
Lemma known_record all l tx : known all l -> poolable tx -> known (<[hash tx := tx]> all) (Priced.Put l tx).
Proof.
  intros [Hk Hp Hh Hc] Ht. constructor; cbn [Priced.items Priced.Put].
  - by apply map_Forall_insert_2.
  - by apply map_Forall_insert_2.
  - by apply (Push_ok Priced.less_cheap GasPrice _ less_cheap_key); [apply any|].
  - apply map_Forall_insert_2; [left; rewrite Push_perm; by left|]. intros h t Hlt. rewrite Push_perm, elem_of_cons. destruct (Hc h t Hlt); auto.
Qed.

(** The fields other than the known transactions. *)
Record same_lists p p' : Prop := {
  sl_pending : pending p' = pending p;
  sl_queue : queue p' = queue p;
  sl_state : currentState p' = currentState p;
  sl_nonces : pendingState p' = pendingState p;
  sl_gas : currentMaxGas p' = currentMaxGas p;
  sl_locals : locals p' = locals p;
  sl_beats : beats p' = beats p;
  sl_all : all p' ⊆ all p;
}.
Lemma same_lists_refl p : same_lists p p.
Proof. by constructor. Qed.
Lemma same_lists_trans p p' p'' : same_lists p p' -> same_lists p' p'' -> same_lists p p''.
Proof. intros [] []. constructor; [congruence..|by etrans]. Qed.
Lemma forget_same p txs : same_lists p (forget_all p txs).
Proof. revert p. induction txs as [|tx txs IH]; intros p; [apply same_lists_refl|]. cbn.
  apply (same_lists_trans _ (forget p tx)); [|apply IH]. constructor; try done. apply delete_subseteq.
Qed.

(** Forgetting a transaction that is not listed. *)
Lemma core_forget M p h : core M p -> (forall a tx, tx ∈ M a -> hash tx <> h) -> core M (forget_hash range_hash p h).
Proof.
  intros [Hk Hn Hl] Hout. split; [by apply known_forget|done|]. intros a. specialize (Hl a). rewrite list.Forall_forall in *. intros tx Hx.
  destruct (Hl tx Hx) as [Hs Ha]. split; [done|]. cbn. rewrite lookup_delete_ne; [done|]. intros Eh. by apply (Hout a tx Hx).
Qed.
(** The listed transactions have different hashes. *)
Lemma core_hash M p a b tx tx' : core M p -> tx ∈ M a -> tx' ∈ M b -> hash tx = hash tx' -> tx = tx'.
Proof.
  intros [_ _ Hl] Hx Hx' Eh. pose proof (Hl a) as Ha. pose proof (Hl b) as Hb. rewrite list.Forall_forall in Ha, Hb.
  destruct (Ha _ Hx) as [_ E1], (Hb _ Hx') as [_ E2]. congruence.
Qed.
Lemma core_sender M p a tx : core M p -> tx ∈ M a -> sender_of tx = a.
Proof. intros [_ _ Hl] Hx. specialize (Hl a). rewrite list.Forall_forall in Hl. by apply Hl. Qed.
Lemma core_all M p a tx : core M p -> tx ∈ M a -> all p !! hash tx = Some tx.
Proof. intros [_ _ Hl] Hx. specialize (Hl a). rewrite list.Forall_forall in Hl. by apply Hl. Qed.

(** Taking the transactions [removed] from the list of [a]. *)
Lemma core_drop M p a removed rest : core M p -> M a ≡ₚ removed ++ rest -> core (<[a := rest]> M) (forget_all p removed).
Proof.
  intros H Hp. assert (core (<[a := rest]> M) p) as H'.
  { eapply core_sub; [done|]. intros b. destruct (decide (b = a)) as [->|Hne].
    - rewrite fn_lookup_insert. exists removed. by rewrite Hp, Permutation_app_comm.
    - rewrite fn_lookup_insert_ne by done. exists []. by rewrite app_nil_r. }
  assert (forall tx, tx ∈ removed -> forall b y, y ∈ (<[a := rest]> M) b -> hash y <> hash tx) as Hout.
  { intros tx Htx b y Hy Eh. assert (y ∈ M b) as Hy'.
    { destruct (decide (b = a)) as [->|Hne]; [rewrite fn_lookup_insert in Hy; rewrite Hp; apply elem_of_app; by right|by rewrite fn_lookup_insert_ne in Hy]. }
    assert (tx ∈ M a) as Htx' by (rewrite Hp; apply elem_of_app; by left).
    pose proof (core_hash M p b a y tx H Hy' Htx' Eh) as ->. pose proof (core_sender _ _ _ _ H Hy') as E1. pose proof (core_sender _ _ _ _ H Htx') as E2.
    assert (b = a) as -> by congruence. rewrite fn_lookup_insert in Hy. pose proof (co_nonces _ _ H a) as Hn. rewrite Hp, fmap_app in Hn.
    apply list.NoDup_app in Hn as (_ & Hn & _). apply (Hn (Nonce tx)); by apply list_elem_of_fmap_2. }
  clear Hp. generalize dependent (<[a := rest]> M). intros M' H' Hout. clear H. revert p H'.
  induction removed as [|tx removed IH]; intros p H'; [done|]. cbn. apply IH; [intros t Ht; apply Hout; by right|].
  apply core_forget; [done|]. intros b y Hy. eapply Hout; [by left|done].
Qed.

(** A transaction that is listed is recorded again. *)
Lemma core_again M p a tx : core M p -> tx ∈ M a -> core M (record_tx p tx).
Proof.
  intros H Hx. pose proof (core_all _ _ _ _ H Hx) as E1. destruct H as [Hk Hn Hl]. split; [|done|]; cbn.
  - apply known_record; [done|]. by apply (kn_poolable _ _ Hk) in E1.
  - by rewrite insert_id.
Qed.
(** A new transaction. *)
Lemma core_new M p a tx : core M p -> all p !! hash tx = None -> poolable tx -> sender_of tx = a -> Nonce tx ∉ Nonce <$> M a ->
  core (<[a := tx :: M a]> M) (record_tx p tx).
Proof.
  intros [Hk Hn Hl] Hnew Hpo Hs Hno. split; [by apply known_record|..]; intros b; destruct (decide (b = a)) as [->|Hne].
  - rewrite fn_lookup_insert. cbn. by apply list.NoDup_cons.
  - by rewrite fn_lookup_insert_ne.
  - rewrite fn_lookup_insert. constructor; [split; [done|apply lookup_insert_eq]|]. specialize (Hl a). rewrite list.Forall_forall in *.
    intros y Hy. destruct (Hl y Hy) as [? Hy']. split; [done|]. cbn. rewrite lookup_insert_ne; [done|]. congruence.
  - rewrite fn_lookup_insert_ne by done. specialize (Hl b). rewrite list.Forall_forall in *.
    intros y Hy. destruct (Hl y Hy) as [? Hy']. split; [done|]. cbn. rewrite lookup_insert_ne; [done|]. congruence.
Qed.

Lemma replaced_spec tx l : ordered Nonce l -> let rest := List.filter (fun t => negb (Nonce t =? Nonce tx)) l in
  match replaced tx l with
  | Some old => l ≡ₚ old :: rest
  | None => l = rest
  end.
Proof.
  intros Ho rest. unfold replaced. destruct (list_find _ l) as [[i old]|] eqn:Ef; cbn.
  - apply list_find_Some in Ef as (Ei & Hn & _). apply list_elem_of_lookup_2 in Ei. by apply filter_one.
  - apply list_find_None in Ef. rewrite list.Forall_forall in Ef. symmetry. by apply filter_other.
Qed.
(** A new transaction takes its place in the list [l] of an account. *)
Lemma core_put M p a tx l rest : core M p -> M a ≡ₚ l ++ rest -> ordered Nonce l -> Nonce tx ∉ Nonce <$> rest ->
  sender_of tx = a -> poolable tx -> all p !! hash tx = None ->
  core (<[a := put_list tx l ++ rest]> M) (record_tx (forget_old hash range_hash p (replaced tx l)) tx).
Proof.
  intros H Hm Ho Hno Hs Hpo Hnew. pose proof (replaced_spec tx l Ho) as Hr. cbn in Hr. set (l' := List.filter _ l) in *.
  assert (core (<[a := l' ++ rest]> M) (forget_old hash range_hash p (replaced tx l))) as H1.
  { destruct (replaced tx l) as [old|]; cbn [forget_old].
    - apply (core_drop M p a [old] (l' ++ rest)); [done|]. by rewrite Hm, Hr.
    - eapply core_perm; [done|]. intros b. destruct (decide (b = a)) as [->|Hne]; [rewrite fn_lookup_insert, Hm; by rewrite <- Hr|by rewrite fn_lookup_insert_ne]. }
  assert (all (forget_old hash range_hash p (replaced tx l)) !! hash tx = None) as Hnew'.
  { destruct (replaced tx l); [|done]. cbn. apply lookup_delete_None. by right. }
  pose proof (core_new _ _ a tx H1 Hnew' Hpo Hs) as H2. rewrite fn_lookup_insert in H2. eapply core_perm; [apply H2|].
  - rewrite fmap_app, not_elem_of_app. split; [|done]. intros (y & Ey & Hy)%list_elem_of_fmap. unfold l' in Hy. apply elem_of_lfilter in Hy as [_ Hy]. lia.
  - intros b. destruct (decide (b = a)) as [->|Hne]; [|by rewrite !fn_lookup_insert_ne]. rewrite !fn_lookup_insert. by rewrite put_list_perm.
Qed.

(** ** The lists of an account *)

Definition rep (s : bool) (o : option txList) (l : list Transaction) : Prop :=
  match o with Some tl => strict tl = s /\ lists tl l /\ l <> [] | None => l = [] end.

Record pooled (P Q : Address -> list Transaction) p : Prop := {
  po_pending : forall a, rep true (pending p !! a) (P a);
  po_queue : forall a, rep false (queue p !! a) (Q a);
  po_core : core (fun a => P a ++ Q a) p;
}.

Lemma rep_ordered s o l : rep s o l -> ordered Nonce l.
Proof. destruct o as [tl|]; [|intros ->; constructor]. intros (_ & [[[Ho _ _ _] _ _] _] & _). done. Qed.
Lemma rep_default s o l : rep s o l -> strict (default (newTxList s) o) = s /\ lists (default (newTxList s) o) l.
Proof. destruct o as [tl|]; cbn; [by intros (? & ? & _)|]. intros ->. split; [done|apply newTxList_ok]. Qed.

Lemma put_list_nonempty tx l : put_list tx l <> [].
Proof. intros H. pose proof (put_list_perm tx l) as Hp. rewrite H in Hp. by apply Permutation_nil_l in Hp. Qed.

Lemma add_rep s o l tx bump : rep s o l -> 0 <= Nonce tx < 2 ^ 64 ->
  exists tl, Add (default (newTxList s) o) tx bump = (if accepts tx bump l then (true, replaced tx l, tl) else (false, None, tl)) /\
    rep s (Some tl) (if accepts tx bump l then put_list tx l else l).
Proof.
  intros Hr Hn. destruct (rep_default _ _ _ Hr) as [Hs Hl]. destruct (Add_ok _ _ tx bump Hl Hn) as (tl & Ea & Hl' & Hs').
  exists tl. split; [done|]. split; [congruence|]. split; [done|]. destruct (accepts tx bump l) eqn:Eacc; [apply put_list_nonempty|].
  intros ->. by unfold accepts in Eacc.
Qed.
Lemma accepts_fresh tx bump l : Nonce tx ∉ Nonce <$> l -> accepts tx bump l = true /\ replaced tx l = None.
Proof.
  intros Hn. unfold accepts, replaced. destruct (list_find _ l) as [[i old]|] eqn:Ef; [|done]. cbn.
  apply list_find_Some in Ef as (Ei & He & _). apply list_elem_of_lookup_2 in Ei. destruct Hn. rewrite <- He. by apply list_elem_of_fmap_2.
Qed.

(** ** Moving transactions between the lists *)

Definition put_all (l txs : list Transaction) : list Transaction := foldl (fun l tx => put_list tx l) l txs.

Lemma put_fresh tx l : Nonce tx ∉ Nonce <$> l -> put_list tx l ≡ₚ tx :: l.
Proof.
  intros Hn. rewrite put_list_perm. f_equiv. apply reflexive_eq, filter_other. intros t Ht Et. apply Hn. rewrite <- Et. by apply list_elem_of_fmap_2.
Qed.
Lemma fresh_cons tx txs l : NoDup (Nonce <$> ((tx :: txs) ++ l)) -> (Nonce tx ∉ Nonce <$> l) /\ NoDup (Nonce <$> txs ++ put_list tx l).
Proof.
  intros Hn. assert (Nonce tx ∉ Nonce <$> l) as Hx.
  { rewrite fmap_app, fmap_cons in Hn. cbn in Hn. apply list.NoDup_cons in Hn as [Hx _]. rewrite not_elem_of_app in Hx. by destruct Hx. }
  split; [done|]. rewrite (put_fresh tx l Hx), <- Permutation_middle. done.
Qed.
Lemma put_all_perm txs : forall l, NoDup (Nonce <$> txs ++ l) -> put_all l txs ≡ₚ txs ++ l.
Proof.
  induction txs as [|tx txs IH]; intros l Hn; [done|]. destruct (fresh_cons tx txs l Hn) as [Hx Hn']. cbn.
  change (foldl _ _ _) with (put_all (put_list tx l) txs). rewrite (IH _ Hn'), (put_fresh tx l Hx). by rewrite <- Permutation_middle.
Qed.

Lemma elem_of_put_all x txs : forall l, x ∈ put_all l txs -> x ∈ txs \/ x ∈ l.
Proof.
  induction txs as [|tx txs IH]; intros l Hx; [by right|]. apply (IH (put_list tx l)) in Hx as [Hx|Hx]; [left; by right|].
  apply elem_of_put_list in Hx as [->|[Hx _]]; [left; by left|by right].
Qed.

Definition reps (s : bool) (m : gmap Address txList) (L : Address -> list Transaction) : Prop := forall a, rep s (m !! a) (L a).
Lemma reps_insert s m L a tl l : reps s m L -> rep s (Some tl) l -> reps s (<[a := tl]> m) (<[a := l]> L).
Proof.
  intros H Hr b. destruct (decide (b = a)) as [->|Hne]; [by rewrite lookup_insert_eq, fn_lookup_insert|].
  rewrite lookup_insert_ne, fn_lookup_insert_ne by done. apply H.
Qed.
Lemma reps_delete s m L a : reps s m L -> reps s (base.delete a m) (<[a := []]> L).
Proof.
  intros H b. destruct (decide (b = a)) as [->|Hne]; [by rewrite lookup_delete_eq, fn_lookup_insert|].
  rewrite lookup_delete_ne, fn_lookup_insert_ne by done. apply H.
Qed.
Lemma reps_ext s m L L' : reps s m L -> (forall a, L' a = L a) -> reps s m L'.
Proof. intros H Hl a. rewrite Hl. apply H. Qed.

(** What an operation on the queue leaves alone. *)
Record same_pending p p' : Prop := {
  sp_pending : pending p' = pending p;
  sp_state : currentState p' = currentState p;
  sp_nonces : pendingState p' = pendingState p;
  sp_gas : currentMaxGas p' = currentMaxGas p;
  sp_locals : locals p' = locals p;
  sp_beats : beats p' = beats p;
  sp_all : all p' = all p;
}.

Lemma same_pending_trans p p' p'' : same_pending p p' -> same_pending p' p'' -> same_pending p p''.
Proof. intros [] []. constructor; congruence. Qed.

Lemma poolable_nonce tx : poolable tx -> 0 <= Nonce tx < 2 ^ 64.
Proof. intros (_ & ? & _). lia. Qed.
Lemma core_poolable M p a tx : core M p -> tx ∈ M a -> poolable tx.
Proof. intros H Hx. pose proof (core_all _ _ _ _ H Hx) as Ha. by apply (kn_poolable _ _ (co_known _ _ H)) in Ha. Qed.

Lemma enqueue_held M Q p a tx : core M p -> reps false (queue p) Q -> tx ∈ M a -> Nonce tx ∉ Nonce <$> Q a ->
  let p' := (enqueueTx p tx).2 in core M p' /\ reps false (queue p') (<[a := put_list tx (Q a)]> Q) /\ same_pending p p'.
Proof.
  intros H HQ Hx Hn. pose proof (core_sender _ _ _ _ H Hx) as Hs. pose proof (core_poolable _ _ _ _ H Hx) as Hpo.
  destruct (accepts_fresh tx (PriceBump config) (Q a) Hn) as [Ea Er].
  destruct (add_rep false (queue p !! a) (Q a) tx (PriceBump config) (HQ a) (poolable_nonce _ Hpo)) as (tl & E1 & Hr). rewrite Ea in E1, Hr. rewrite Er in E1.
  unfold enqueueTx. rewrite Hs, E1. cbn [negb snd forget_old]. split_and!; [|by apply reps_insert|constructor; try done; cbn; apply insert_id, (core_all M p a tx H Hx)].
  eapply core_again; [|exact Hx]. by eapply core_fields.
Qed.
Lemma enqueue_all_held M a txs : forall Q p, core M p -> reps false (queue p) Q -> txs ⊆ M a -> NoDup (Nonce <$> txs ++ Q a) ->
  let p' := enqueue_all p txs in core M p' /\ reps false (queue p') (<[a := put_all (Q a) txs]> Q) /\ same_pending p p'.
Proof.
  induction txs as [|tx txs IH]; intros Q p H HQ Hx Hn; cbn.
  { split_and!; [done| |done]. eapply reps_ext; [done|]. intros b. destruct (decide (b = a)) as [->|Hne]; [by rewrite fn_lookup_insert|by rewrite fn_lookup_insert_ne]. }
  destruct (fresh_cons tx txs (Q a) Hn) as [Hf Hn']. destruct (enqueue_held M Q p a tx H HQ) as (H1 & H2 & H3); [apply Hx; by left|done|].
  destruct (IH (<[a := put_list tx (Q a)]> Q) (enqueueTx p tx).2 H1 H2) as (H4 & H5 & H6); [intros y Hy; apply Hx; by right|by rewrite fn_lookup_insert|].
  split_and!; [done| |by eapply same_pending_trans]. rewrite fn_lookup_insert in H5. eapply reps_ext; [done|]. intros b.
  destruct (decide (b = a)) as [->|Hne]; [by rewrite !fn_lookup_insert|by rewrite !fn_lookup_insert_ne].
Qed.

(** What promotion leaves alone. *)
Record same_queue p p' : Prop := {
  sq_queue : queue p' = queue p;
  sq_state : currentState p' = currentState p;
  sq_gas : currentMaxGas p' = currentMaxGas p;
  sq_locals : locals p' = locals p;
  sq_all : all p' = all p;
}.
Lemma same_queue_trans p p' p'' : same_queue p p' -> same_queue p' p'' -> same_queue p p''.
Proof. intros [] []. constructor; congruence. Qed.

(** The nonces after promotion. *)
Definition promoted_nonces (a : Address) (ms : ManagedState S) (txs : list Transaction) : ManagedState S :=
  foldl (fun ms tx => SetNonce ms a ((Nonce tx + 1) mod 2 ^ 64)) ms txs.

Lemma promote_held M P p now a tx : core M p -> reps true (pending p) P -> tx ∈ M a -> Nonce tx ∉ Nonce <$> P a ->
  let p' := promoteTx config hash range_hash now a p tx in
  core M p' /\ reps true (pending p') (<[a := put_list tx (P a)]> P) /\ same_queue p p' /\ pendingState p' = promoted_nonces a (pendingState p) [tx].
Proof.
  intros H HP Hx Hn. pose proof (core_poolable _ _ _ _ H Hx) as Hpo. pose proof (core_all _ _ _ _ H Hx) as Hall.
  destruct (accepts_fresh tx (PriceBump config) (P a) Hn) as [Ea Er].
  destruct (add_rep true (pending p !! a) (P a) tx (PriceBump config) (HP a) (poolable_nonce _ Hpo)) as (tl & E1 & Hr). rewrite Ea in E1, Hr. rewrite Er in E1.
  unfold promoteTx. rewrite E1. cbn [negb forget_old]. cbn [set_pending all]. rewrite Hall. cbn.
  split_and!; [by eapply core_fields|by apply reps_insert|done|done].
Qed.
Lemma promote_all_held M now a txs : forall P p, core M p -> reps true (pending p) P -> txs ⊆ M a -> NoDup (Nonce <$> txs ++ P a) ->
  let p' := foldl (promoteTx config hash range_hash now a) p txs in
  core M p' /\ reps true (pending p') (<[a := put_all (P a) txs]> P) /\ same_queue p p' /\ pendingState p' = promoted_nonces a (pendingState p) txs.
Proof.
  induction txs as [|tx txs IH]; intros P p H HP Hx Hn; cbn.
  { split_and!; [done| |done|done]. eapply reps_ext; [done|]. intros b. destruct (decide (b = a)) as [->|Hne]; [by rewrite fn_lookup_insert|by rewrite fn_lookup_insert_ne]. }
  destruct (fresh_cons tx txs (P a) Hn) as [Hf Hn']. destruct (promote_held M P p now a tx H HP) as (H1 & H2 & H3 & H3'); [apply Hx; by left|done|].
  destruct (IH (<[a := put_list tx (P a)]> P) _ H1 H2) as (H4 & H5 & H6 & H7); [intros y Hy; apply Hx; by right|by rewrite fn_lookup_insert|].
  split_and!; [done| |by eapply same_queue_trans|by rewrite H7, H3']. rewrite fn_lookup_insert in H5. eapply reps_ext; [done|]. intros b.
  destruct (decide (b = a)) as [->|Hne]; [by rewrite !fn_lookup_insert|by rewrite !fn_lookup_insert_ne].
Qed.

(** ** A list in hand *)

(** What is left of a list: in strict mode what comes first. *)
Definition kept (s : bool) (l l' : list Transaction) : Prop := if s then l' `prefix_of` l else sublist l' l.
Lemma kept_refl s l : kept s l l.
Proof. destruct s; cbn; reflexivity. Qed.
Lemma kept_trans s l l' l'' : kept s l l' -> kept s l' l'' -> kept s l l''.
Proof. destruct s; cbn; intros H1 H2; by etrans. Qed.
Lemma kept_sublist s l l' : kept s l l' -> sublist l' l.
Proof. destruct s; cbn; [|done]. intros [k ->]. by apply sublist_inserts_r. Qed.
Lemma lfilter_sublist {A} (g : A -> bool) (l : list A) : sublist (List.filter g l) l.
Proof. induction l as [|x l IH]; [constructor|]. cbn. destruct (g x); by constructor. Qed.
Lemma kept_left_by s g l : kept s l (left_by s g l).
Proof. destruct s; cbn; [destruct (before_prefix g l) as [k Hk]; by exists k|apply lfilter_sublist]. Qed.
Lemma sublist_elem {A} (l k : list A) x : sublist l k -> x ∈ l -> x ∈ k.
Proof. induction 1 as [|y l k H IH|y l k H IH]; [done|..]; rewrite ?elem_of_cons; naive_solver. Qed.

Section Hand.
Context (M : Address -> list Transaction) (a : Address) (rest : list Transaction).
Abbreviation holding l := (core (<[a := l ++ rest]> M)).

Lemma hand_drop l l' removed p : holding l p -> l ≡ₚ removed ++ l' -> holding l' (forget_all p removed).
Proof.
  intros H Hp. eapply core_perm; [apply (core_drop _ p a removed (l' ++ rest) H)|].
  - rewrite fn_lookup_insert, Hp. by rewrite app_assoc.
  - intros b. destruct (decide (b = a)) as [->|Hne]; [by rewrite !fn_lookup_insert|by rewrite !fn_lookup_insert_ne].
Qed.
Lemma hand_poolable l p tx : holding l p -> tx ∈ l -> poolable tx.
Proof. intros H Hx. apply (core_poolable _ _ a tx H). rewrite fn_lookup_insert. apply elem_of_app. by left. Qed.

Lemma hand_invalid s l p tl f : holding l p -> lists tl l -> strict tl = s -> (forall tx, tx ∈ l -> is_Some (f tx)) ->
  exists removed tl' l', dropInvalid range_nonce tl f = Some (removed, tl') /\ lists tl' l' /\ strict tl' = s /\ kept s l l' /\ holding l' (forget_all p removed).
Proof.
  intros H Hl Hs Hf. destruct (dropInvalid_ok range_nonce range_perm tl l f (fun tx => default false (f tx)) Hl) as (removed & tl' & E1 & Hl' & Hs' & Hp).
  { intros tx Hx. by destruct (Hf tx Hx) as [b ->]. }
  exists removed, tl', (left_by (strict tl) (fun tx => default false (f tx)) l). split_and!; [done|done|congruence|rewrite Hs; apply kept_left_by|by eapply hand_drop].
Qed.
Lemma pos_defined tx (f : Address -> option bool) : poolable tx -> (forall to, is_Some (f to)) ->
  is_Some (if negb (IsPosTransaction (Txtype tx)) then Some false else To tx ≫= f).
Proof.
  intros (_ & _ & Hto) Hf. destruct (IsPosTransaction _); [|by eexists]. destruct (Hto eq_refl) as [to ->]. apply Hf.
Qed.
Lemma hand_drop_invalid s l p tl : holding l p -> lists tl l -> strict tl = s ->
  exists p' tl' l', drop_invalid hash Sender range_nonce range_hash p tl = Some (p', tl') /\ lists tl' l' /\ strict tl' = s /\ kept s l l' /\ holding l' p' /\ same_lists p p'.
Proof.
  intros H Hl Hs. unfold drop_invalid, invalid_privacy, InvalidPrivacyTx.
  match goal with |- context [dropInvalid _ _ ?f] => destruct (hand_invalid s l p tl f) as (r1 & tl1 & l1 & -> & Hl1 & Hs1 & Hk1 & H1); [done|done|done| |] end.
  { intros tx _. destruct (negb _); [by eexists|]. case_match; by eexists. }
  cbn [mbind option_bind]. unfold invalid_rb, InvalidPosTx.
  match goal with |- context [dropInvalid _ _ ?f] => destruct (hand_invalid s l1 (forget_all p r1) tl1 f) as (r2 & tl2 & l2 & -> & Hl2 & Hs2 & Hk2 & H2); [done|done|done| |] end.
  { intros tx Hx. apply pos_defined; [by eapply hand_poolable|]. intros to. destruct (negb _); [by eexists|]. case_match; by eexists. }
  cbn [mbind option_bind]. unfold invalid_el, InvalidPosTx.
  match goal with |- context [dropInvalid _ _ ?f] => destruct (hand_invalid s l2 (forget_all (forget_all p r1) r2) tl2 f) as (r3 & tl3 & l3 & -> & Hl3 & Hs3 & Hk3 & H3); [done|done|done| |] end.
  { intros tx Hx. apply pos_defined; [by eapply hand_poolable|]. intros to. destruct (negb _); [by eexists|]. case_match; by eexists. }
  cbn [mbind option_bind]. eexists _, tl3, l3. split_and!; [done|done|done| |done|].
  - eapply kept_trans; [exact Hk1|]. by eapply kept_trans.
  - eapply same_lists_trans; [eapply same_lists_trans|]; apply forget_same.
Qed.
End Hand.

Lemma filter_drops tl l cost gas : strict tl = false -> lists tl l ->
  exists drops tl', ListFilter range_nonce tl cost gas = Some (drops, [], tl') /\ l ≡ₚ drops ++ List.filter (fun tx => negb (tooCostly cost gas tx)) l /\
    lists tl' (List.filter (fun tx => negb (tooCostly cost gas tx)) l) /\ strict tl' = false /\ List.filter is_charged drops = drops.
Proof.
  intros Hs Hl. destruct (ListFilter_ok range_nonce range_perm tl l cost gas Hl) as (drops & inv & tl' & Ef & Hd & Hl' & Hs' & Hp).
  rewrite Hs in *. cbn [left_by] in *. assert (inv = []) as ->.
  { pose proof (Permutation_length Hp) as Hlen. rewrite !length_app, (Permutation_length Hd) in Hlen. pose proof (lfilter_split (tooCostly cost gas) l).
    destruct inv; [done|cbn in Hlen; lia]. }
  exists drops, tl'. split_and!; try done. apply lfilter_all. intros x Hx. rewrite Hd in Hx. apply elem_of_lfilter in Hx as [_ Hx].
  unfold tooCostly in Hx. by apply andb_true_iff in Hx as [? _].
Qed.

Lemma pooled_hand_queue P Q p a : pooled P Q p -> core (<[a := Q a ++ P a]> (fun b => P b ++ Q b)) p.
Proof.
  intros [_ _ H]. eapply core_perm; [done|]. intros b. destruct (decide (b = a)) as [->|Hne].
  - rewrite fn_lookup_insert. apply Permutation_app_comm.
  - by rewrite fn_lookup_insert_ne.
Qed.
Lemma pooled_hand_pending P Q p a : pooled P Q p -> core (<[a := P a ++ Q a]> (fun b => P b ++ Q b)) p.
Proof.
  intros [_ _ H]. eapply core_perm; [done|]. intros b. destruct (decide (b = a)) as [->|Hne]; [by rewrite fn_lookup_insert|by rewrite fn_lookup_insert_ne].
Qed.
Lemma pooled_ext P Q P' Q' p : pooled P Q p -> (forall a, P' a = P a) -> (forall a, Q' a = Q a) -> pooled P' Q' p.
Proof.
  intros [HP HQ H] E1 E2. split; [intros a; rewrite E1; apply HP|intros a; rewrite E2; apply HQ|]. eapply core_perm; [done|]. intros a. cbn. by rewrite E1, E2.
Qed.
(** From the pieces. *)
Lemma pooled_pieces P Q p a l k : core (<[a := l ++ k]> (fun b => P b ++ Q b)) p ->
  reps true (pending p) (<[a := l]> P) -> reps false (queue p) (<[a := k]> Q) -> pooled (<[a := l]> P) (<[a := k]> Q) p.
Proof.
  intros H HP HQ. split; [done|done|]. eapply core_perm; [done|]. intros b. cbn.
  destruct (decide (b = a)) as [->|Hne]; [by rewrite !fn_lookup_insert|by rewrite !fn_lookup_insert_ne].
Qed.

Lemma lists_nonempty tl l : lists tl l -> Empty tl = bool_decide (l = []).
Proof.
  intros [[Hc _ _] _]. unfold Empty, ListLen, Len. rewrite (core_size _ _ _ Hc). destruct l; [done|]. by rewrite bool_decide_false.
Qed.
(** Storing a list, or deleting it when it is empty. *)
Lemma reps_store s m L a tl l : reps s m L -> strict tl = s -> lists tl l ->
  reps s (if Empty tl then base.delete a m else <[a := tl]> m) (<[a := l]> L).
Proof.
  intros H Hs Hl. rewrite (lists_nonempty _ _ Hl). case_bool_decide as El; [subst l; by apply reps_delete|]. apply reps_insert; [done|]. by split_and!.
Qed.
Lemma cap_account p tl l a : strict tl = false -> lists tl l -> 0 <= int64 (AccountQueue config) ->
  exists over l' tl', (if negb (contains p a) then ListCap tl (int64 (AccountQueue config)) else Some ([], tl)) = Some (over, tl') /\
    lists tl' l' /\ strict tl' = false /\ l ≡ₚ over ++ l' /\ l' `prefix_of` l /\ (contains p a = false -> Z.of_nat (length l') <= int64 (AccountQueue config)).
Proof.
  intros Hs Hl Hc. destruct (contains p a); cbn [negb].
  - exists [], l, tl. by split_and!.
  - destruct (ListCap_ok tl l (int64 (AccountQueue config)) Hl Hc) as (tl' & -> & Hl' & Hs'). eexists _, _, tl'. split_and!; [done|done|congruence| | |].
    + rewrite <- Permutation_rev, Permutation_app_comm. by rewrite take_drop.
    + exists (drop (Z.to_nat (int64 (AccountQueue config))) l). by rewrite take_drop.
    + intros _. rewrite length_take. lia.
Qed.

(** What is worth keeping of a list. *)
Definition payable p (a : Address) (tx : Transaction) : Prop :=
  GetNonce (currentState p) a <= Nonce tx /\ tooCostly (GetBalance (currentState p) a) (currentMaxGas p) tx = false.

(** What promotion of an account does. *)
Record promotes (P Q : Address -> list Transaction) p (a : Address) (ready kept_ : list Transaction) p' : Prop := {
  pr_pooled : pooled (<[a := put_all (P a) ready]> P) (<[a := kept_]> Q) p';
  pr_state : currentState p' = currentState p;
  pr_gas : currentMaxGas p' = currentMaxGas p;
  pr_locals : locals p' = locals p;
  pr_all : all p' ⊆ all p;
  pr_nonces : pendingState p' = promoted_nonces a (pendingState p) ready;
  pr_lists : exists l, sublist l (Q a) /\ Forall (payable p a) l /\
    ready = ready_list (ManagedGetNonce (pendingState p) a) l /\ kept_ `prefix_of` drop (length ready) l /\
    (contains p a = false -> Z.of_nat (length kept_) <= int64 (AccountQueue config));
}.

Lemma prune_queued_ok P Q p a tl : pooled P Q p -> strict tl = false -> lists tl (Q a) ->
  exists p' tl' l, prune_queued hash Sender range_nonce range_hash p a tl = Some (p', tl') /\ lists tl' l /\ strict tl' = false /\
    core (<[a := l ++ P a]> (fun b => P b ++ Q b)) p' /\ same_lists p p' /\ sublist l (Q a) /\ Forall (payable p a) l.
Proof.
  intros Hpo Hs Hl. unfold prune_queued. pose proof (pooled_hand_queue P Q p a Hpo) as H0.
  destruct (ListForward_ok tl (Q a) (GetNonce (currentState p) a) Hl) as (tl1 & -> & Hl1 & Hs1). cbn [mbind option_bind].
  set (old := List.filter (low _) (Q a)). set (l1 := List.filter (not_low _) (Q a)) in *.
  pose proof (hand_drop _ a (P a) (Q a) l1 old p H0 (lfilter_parts _ _)) as H1. pose proof (forget_same p old) as F1. set (p1 := forget_all p old) in *.
  destruct (filter_drops tl1 l1 (GetBalance (currentState p1) a) (currentMaxGas p1)) as (drops & tl2 & -> & Hp2 & Hl2 & Hs2 & Hch); [congruence|done|].
  cbn [mbind option_bind]. rewrite Hch. set (l2 := List.filter _ l1) in *.
  pose proof (hand_drop _ a (P a) l1 l2 drops p1 H1 Hp2) as H2. pose proof (same_lists_trans _ _ _ F1 (forget_same p1 drops)) as F2. set (p2 := forget_all p1 drops) in *.
  destruct (hand_drop_invalid _ a (P a) false l2 p2 tl2 H2 Hl2 Hs2) as (p3 & tl3 & l3 & -> & Hl3 & Hs3 & Hk3 & H3 & F3').
  exists p3, tl3, l3. split_and!; [done..|by eapply same_lists_trans| |].
  - etrans; [exact Hk3|]. etrans; apply lfilter_sublist.
  - rewrite list.Forall_forall. intros x Hx. apply (sublist_elem _ _ _ Hk3) in Hx. unfold l2, l1 in Hx.
    apply elem_of_lfilter in Hx as [[_ Hn]%elem_of_lfilter Hc]. rewrite (sl_state _ _ F1), (sl_gas _ _ F1) in Hc.
    split; [unfold not_low in Hn; destruct (Z.ltb_spec (Nonce x) (GetNonce (currentState p) a)); [done|lia]|by apply negb_true_iff in Hc].
Qed.

Lemma promote_account_ok now P Q p a : pooled P Q p -> 0 <= int64 (AccountQueue config) ->
  exists ready l p', promote_account config hash Sender range_nonce range_hash now p a = Some p' /\ promotes P Q p a ready l p'.
Proof.
  intros Hpo Hcap. pose proof Hpo as [HP HQ Hcore]. unfold promote_account. pose proof (HQ a) as Hr. destruct (queue p !! a) as [tl|] eqn:Eq; cbn [rep] in Hr.
  2: { exists [], [], p. split; [done|]. constructor; try done.
       - eapply pooled_ext; [done|..]; intros b; destruct (decide (b = a)) as [->|Hne]; by rewrite ?fn_lookup_insert, ?fn_lookup_insert_ne.
       - exists []. rewrite Hr. split_and!; try done. }
  destruct Hr as (Hs & Hl & Hne). destruct (prune_queued_ok P Q p a tl Hpo Hs Hl) as (p3 & tl3 & l3 & -> & Hl3 & Hs3 & H3 & F3 & Hk3 & Hpay). cbn [mbind option_bind].
  destruct (ListReady_ok tl3 l3 (ManagedGetNonce (pendingState p3) a) Hl3) as (tl4 & -> & Hl4 & Hs4). cbn [mbind option_bind].
  rewrite (sl_nonces _ _ F3) in Hl4 |- *. set (ready := ready_list _ l3) in *. set (l4 := drop (length ready) l3) in *.
  pose proof (ready_prefix (ManagedGetNonce (pendingState p) a) l3) as Hl34. fold ready l4 in Hl34.
  assert (NoDup (Nonce <$> (ready ++ P a))) as Hnd.
  { pose proof (co_nonces _ _ H3 a) as Hn. rewrite fn_lookup_insert, <- Hl34, <- app_assoc, (Permutation_app_comm l4), app_assoc, fmap_app in Hn.
    by apply list.NoDup_app in Hn as [? _]. }
  destruct (promote_all_held _ now a ready P p3 H3) as (H4 & HP4 & Fq & Hps); [by rewrite (sl_pending _ _ F3)| |done|].
  { intros x Hx. rewrite fn_lookup_insert, <- Hl34, !elem_of_app. auto. }
  set (p4 := foldl _ p3 ready) in *. destruct (cap_account p4 tl4 l4 a) as (over & l5 & tl5 & -> & Hl5 & Hs5 & Hp5 & Hpre & Hlim); [congruence|done|done|].
  cbn [mbind option_bind]. exists ready, l5. eexists. split; [done|].
  pose proof (core_drop _ p4 a over (put_all (P a) ready ++ l5) H4) as H5. pose proof (forget_same p4 over) as F5. set (p5 := forget_all p4 over) in *.
  assert (queue p5 = queue p) as Hq by (rewrite (sl_queue _ _ F5), (sq_queue _ _ Fq); apply F3).
  constructor; cbn.
  - apply pooled_pieces; cbn; [|by rewrite (sl_pending _ _ F5)|rewrite Hq; by apply reps_store].
    eapply core_fields; [eapply core_perm; [apply H5|]|done|done].
    + rewrite fn_lookup_insert, <- Hl34, Hp5, (put_all_perm _ _ Hnd), <- !app_assoc, (Permutation_app_swap_app ready over). do 2 f_equiv. apply Permutation_app_comm.
    + intros b. destruct (decide (b = a)) as [->|Hnb]; [by rewrite !fn_lookup_insert|by rewrite !fn_lookup_insert_ne].
  - rewrite (sl_state _ _ F5), (sq_state _ _ Fq). apply F3.
  - rewrite (sl_gas _ _ F5), (sq_gas _ _ Fq). apply F3.
  - rewrite (sl_locals _ _ F5), (sq_locals _ _ Fq). apply F3.
  - etrans; [apply F5|]. rewrite (sq_all _ _ Fq). apply F3.
  - rewrite (sl_nonces _ _ F5), Hps. f_equal. apply F3.
  - exists l3. split_and!; try done. intros Hloc. apply Hlim. unfold contains in *. by rewrite (sq_locals _ _ Fq), (sl_locals _ _ F3).
Qed.

(** ** The nonces of the pending state *)

Lemma get_set_nonce (ms : ManagedState S) a n b : 0 <= n < 2 ^ 64 ->
  ManagedGetNonce (SetNonce ms a n) b = if decide (b = a) then n else ManagedGetNonce ms b.
Proof.
  intros Hn. unfold ManagedGetNonce, hasAccount, getAccount, object_nonce, SetNonce; cbn. destruct (decide (b = a)) as [->|Hne].
  - rewrite bool_decide_true by set_solver. rewrite !lookup_insert_eq. cbn. unfold next; cbn.
    destruct (_ <? _); cbn; by apply Z.mod_small.
  - rewrite !lookup_insert_ne by done. rewrite (bool_decide_ext _ (b ∈ dom (accounts ms))); [done|]. rewrite dom_insert. set_solver.
Qed.

(** The pending transactions of an account follow its nonce in the state, and its
    pending nonce follows them. *)
Definition executable (P : Address -> list Transaction) p : Prop := forall a,
  Nonce <$> P a = seqZ (GetNonce (currentState p) a) (Z.of_nat (length (P a))) /\
  ManagedGetNonce (pendingState p) a = GetNonce (currentState p) a + Z.of_nat (length (P a)).

Lemma low_run n l : forall c, Nonce <$> l = seqZ c (Z.of_nat (length l)) -> c <= n <= c + Z.of_nat (length l) ->
  Nonce <$> List.filter (low n) l = seqZ c (n - c) /\ Z.of_nat (length (List.filter (low n) l)) = n - c.
Proof.
  induction l as [|tx l IH]; intros c Hl Hn; cbn [length] in *.
  { replace (n - c) with 0 by lia. done. }
  rewrite seqZ_cons in Hl by lia. injection Hl as Hc Hl. change (Nonce <$> l = seqZ (Z.succ c) (Z.pred (Z.of_nat (Datatypes.S (length l))))) in Hl. replace (Z.pred (Z.of_nat (Datatypes.S (length l)))) with (Z.of_nat (length l)) in Hl by lia.
  cbn [List.filter]. destruct (low n tx) eqn:El; unfold low in El; [apply Z.ltb_lt in El|apply Z.ltb_ge in El].
  - destruct (IH (Z.succ c) Hl ltac:(lia)) as [E1 E2]. rewrite (seqZ_cons c) by lia. cbn [length]. split; [|lia]. rewrite fmap_cons, E1. f_equal; [done|]. f_equal. lia.
  - assert (n = c) as -> by lia. replace (c - c) with 0 by lia. assert (List.filter (low c) l = []) as ->; [|done]. apply lfilter_nil. intros x Hx.
    assert (Nonce x ∈ Nonce <$> l) as Hin by (by apply list_elem_of_fmap_2). rewrite Hl, elem_of_seqZ in Hin. unfold low. destruct (Z.ltb_spec (Nonce x) c); [lia|done].
Qed.

Lemma lower_same p a n : let p' := lower_nonce p a n in
  pending p' = pending p /\ queue p' = queue p /\ currentState p' = currentState p /\ currentMaxGas p' = currentMaxGas p /\ locals p' = locals p /\
  all p' = all p /\ priced p' = priced p.
Proof. unfold lower_nonce. by destruct (_ >? _). Qed.
Lemma executable_lower P p p' a n : executable P p -> n ∈ Nonce <$> P a -> 0 <= n < 2 ^ 64 -> currentState p' = currentState p ->
  pendingState p' = pendingState (lower_nonce p a n) -> executable (<[a := List.filter (low n) (P a)]> P) p'.
Proof.
  intros H Hn Hr Hst Hps b. destruct (H a) as [Hrun Hnext]. rewrite Hst, Hps. pose proof Hn as Hn'. rewrite Hrun, elem_of_seqZ in Hn'.
  unfold lower_nonce. destruct (Z.gtb_spec (ManagedGetNonce (pendingState p) a) n); [|lia]. cbn. rewrite get_set_nonce by done.
  destruct (decide (b = a)) as [->|Hne]; [|rewrite fn_lookup_insert_ne by done; apply H]. rewrite fn_lookup_insert.
  destruct (low_run n (P a) _ Hrun) as [E1 E2]; [lia|]. rewrite E1, E2. split; [done|lia].
Qed.
Lemma executable_same P P' p p' : executable P p -> (forall a, P' a = P a) -> currentState p' = currentState p -> pendingState p' = pendingState p -> executable P' p'.
Proof. intros H Hp E1 E2 a. rewrite Hp, E1, E2. apply H. Qed.

Lemma run_ordered l : forall c, Nonce <$> l = seqZ c (Z.of_nat (length l)) -> ordered Nonce l.
Proof.
  induction l as [|tx l IH]; intros c Hl; [constructor|]. cbn [length] in Hl. rewrite seqZ_cons, Nat2Z.inj_succ, Z.pred_succ in Hl by lia.
  assert (Nonce tx = c) as Hc by (by injection Hl). assert (Nonce <$> l = seqZ (Z.succ c) (Z.of_nat (length l))) as Hl' by (by injection Hl).
  apply ordered_cons. split; [by eapply IH|]. rewrite list.Forall_forall. intros x Hx. assert (Nonce x ∈ Nonce <$> l) as Hin by (by apply list_elem_of_fmap_2).
  rewrite Hl', elem_of_seqZ in Hin. lia.
Qed.
Lemma run_from_nonces l : forall n, Nonce <$> run_from n l = seqZ n (Z.of_nat (length (run_from n l))).
Proof.
  induction l as [|tx l IH]; intros n; [done|]. cbn [run_from]. destruct (Z.eqb_spec (Nonce tx) n) as [En|]; [|done].
  cbn [length]. rewrite seqZ_cons, Nat2Z.inj_succ, Z.pred_succ, fmap_cons, IH by lia. by rewrite En.
Qed.
Lemma put_last tx l : ordered Nonce (l ++ [tx]) -> put_list tx l = l ++ [tx].
Proof.
  intros Ho. unfold put_list. apply sort_by_unique; [done|]. rewrite filter_other; [by rewrite Permutation_app_comm|].
  intros t Ht. apply ordered_app in Ho as (_ & _ & Ho). specialize (Ho t tx Ht). rewrite list_elem_of_singleton in Ho. specialize (Ho eq_refl). lia.
Qed.
Lemma put_all_app txs : forall l, ordered Nonce (l ++ txs) -> put_all l txs = l ++ txs.
Proof.
  induction txs as [|tx txs IH]; intros l Ho; [by rewrite app_nil_r|]. change (put_all l (tx :: txs)) with (put_all (put_list tx l) txs).
  rewrite cons_middle, app_assoc in Ho |- *. rewrite put_last; [by apply IH|]. by apply ordered_app in Ho as [? _].
Qed.
Lemma get_promoted_nonces a txs b : forall ms, Forall poolable txs -> ManagedGetNonce (promoted_nonces a ms txs) b =
  if decide (b = a) then match list.last txs with Some tx => Nonce tx + 1 | None => ManagedGetNonce ms b end else ManagedGetNonce ms b.
Proof.
  induction txs as [|tx txs IH]; intros ms F; [by destruct (decide _)|]. apply Forall_cons_iff in F as [(_ & Hn & _) F]. cbn [promoted_nonces foldl].
  change (foldl _ ?m txs) with (promoted_nonces a m txs). rewrite IH by done. rewrite Z.mod_small by lia. rewrite get_set_nonce by lia.
  destruct (decide (b = a)); [|done]. rewrite last_cons. by destruct (list.last txs).
Qed.

Lemma run_last l c tx : Nonce <$> l = seqZ c (Z.of_nat (length l)) -> list.last l = Some tx -> Nonce tx + 1 = c + Z.of_nat (length l).
Proof.
  intros Hl [pre ->]%last_Some. rewrite length_app in *. cbn in *. assert ((Nonce <$> (pre ++ [tx])) !! length pre = Some (Nonce tx)) as Hat.
  { by rewrite list_lookup_fmap, list_lookup_middle. }
  rewrite Hl in Hat. apply lookup_seqZ in Hat as [Hat _]. lia.
Qed.

(** The accounts that are not touched stay as they are. *)
Lemma executable_update P p p' a l : executable P p -> currentState p' = currentState p ->
  (forall b, b <> a -> ManagedGetNonce (pendingState p') b = ManagedGetNonce (pendingState p) b) ->
  Nonce <$> l = seqZ (GetNonce (currentState p) a) (Z.of_nat (length l)) ->
  ManagedGetNonce (pendingState p') a = GetNonce (currentState p) a + Z.of_nat (length l) -> executable (<[a := l]> P) p'.
Proof.
  intros H Hst Hb H1 H2 b. rewrite Hst. destruct (decide (b = a)) as [->|Hne]; [by rewrite fn_lookup_insert|]. rewrite fn_lookup_insert_ne by done.
  rewrite Hb by done. apply H.
Qed.

Lemma ready_exact start l : (forall tx, tx ∈ l -> start <= Nonce tx) -> Nonce <$> ready_list start l = seqZ start (Z.of_nat (length (ready_list start l))).
Proof.
  intros Hl. unfold ready_list. destruct l as [|tx l]; [done|]. destruct (Z.gtb_spec (Nonce tx) start); [done|].
  assert (Nonce tx = start) as -> by (specialize (Hl tx ltac:(by left)); lia). apply run_from_nonces.
Qed.

Lemma promotes_executable P Q p a ready l p' : pooled P Q p -> promotes P Q p a ready l p' -> executable P p ->
  executable (<[a := put_all (P a) ready]> P) p'.
Proof.
  intros Hpo [_ Hst _ _ _ Hps (k & Hk & Hpay & -> & _ & _)] Hex. destruct (Hex a) as [Hrun Hnext]. rewrite Hnext in *.
  set (c := GetNonce (currentState p) a) in *. set (n := Z.of_nat (length (P a))) in *. set (ready := ready_list (c + n) k) in *.
  assert (Nonce <$> ready = seqZ (c + n) (Z.of_nat (length ready))) as Hready.
  { apply ready_exact. intros tx Hx. rewrite list.Forall_forall in Hpay. destruct (Hpay tx Hx) as [Hc _]. fold c in Hc.
    destruct (Z.le_gt_cases (c + n) (Nonce tx)) as [|Hlt]; [done|]. exfalso. pose proof (co_nonces _ _ (po_core _ _ _ Hpo) a) as Hn. cbn in Hn.
    rewrite fmap_app in Hn. apply list.NoDup_app in Hn as (_ & Hn & _). apply (Hn (Nonce tx)); [rewrite Hrun; apply elem_of_seqZ; lia|].
    apply list_elem_of_fmap_2. by eapply sublist_elem. }
  assert (Nonce <$> (P a ++ ready) = seqZ c (Z.of_nat (length (P a ++ ready)))) as Hall.
  { rewrite fmap_app, Hrun, Hready, length_app, Nat2Z.inj_add. symmetry. apply seqZ_app; lia. }
  rewrite put_all_app by (by eapply run_ordered). assert (Forall poolable ready) as Hpl.
  { rewrite list.Forall_forall. intros tx Hx. apply (core_poolable _ _ a tx (po_core _ _ _ Hpo)). apply elem_of_app. right. eapply sublist_elem; [exact Hk|].
    rewrite <- (ready_prefix (c + n) k). apply elem_of_app. by left. }
  apply (executable_update P p); [done|done| |done|]; rewrite Hps.
  - intros b Hb. rewrite get_promoted_nonces by done. by rewrite decide_False.
  - rewrite get_promoted_nonces, decide_True by done. rewrite length_app. destruct (list.last ready) as [tx|] eqn:El.
    + pose proof (run_last _ _ _ Hready El). lia.
    + apply last_None in El. rewrite El. cbn. rewrite Nat.add_0_r. done.
Qed.

(** ** Removal *)

(** What an operation that adds nothing keeps. *)
Record quiet (P Q : Address -> list Transaction) p (P' Q' : Address -> list Transaction) p' : Prop := {
  qu_state : currentState p' = currentState p;
  qu_gas : currentMaxGas p' = currentMaxGas p;
  qu_locals : locals p' = locals p;
  qu_all : all p' ⊆ all p;
  qu_exec : executable P p -> executable P' p';
  qu_sub : forall a, P' a ++ Q' a ⊆ P a ++ Q a;
}.
Lemma quiet_refl P Q p : quiet P Q p P Q p.
Proof. by constructor. Qed.
Lemma quiet_trans P Q p P' Q' p' P'' Q'' p'' : quiet P Q p P' Q' p' -> quiet P' Q' p' P'' Q'' p'' -> quiet P Q p P'' Q'' p''.
Proof. intros [? ? ? ? ? H1] [? ? ? ? ? H2]. constructor; [congruence..|by etrans|auto|intros a x Hx; by apply H1, H2]. Qed.
Lemma promotes_quiet P Q p a ready l p' : pooled P Q p -> promotes P Q p a ready l p' -> quiet P Q p (<[a := put_all (P a) ready]> P) (<[a := l]> Q) p'.
Proof.
  intros Hpo H. pose proof (promotes_executable _ _ _ _ _ _ _ Hpo H). destruct H as [_ ? ? ? ? _ (k & Hk & _ & -> & Hpre & _)]. constructor; try done. intros b x.
  destruct (decide (b = a)) as [->|Hb]; [|by rewrite !fn_lookup_insert_ne]. rewrite !fn_lookup_insert, !elem_of_app.
  pose proof (ready_prefix (ManagedGetNonce (pendingState p) a) k) as Hr. assert (forall y, y ∈ ready_list (ManagedGetNonce (pendingState p) a) k -> y ∈ Q a) as Hready.
  { intros y Hy. eapply sublist_elem; [exact Hk|]. rewrite <- Hr. apply elem_of_app. by left. }
  intros [Hx|Hx]; [apply elem_of_put_all in Hx as [Hx|Hx]; auto|]. right. eapply sublist_elem; [exact Hk|]. rewrite <- Hr. apply elem_of_app. right.
  destruct Hpre as [j ->]. apply elem_of_app. by left.
Qed.

(** Forgetting a hash takes the nonce of its transaction from the account. *)
Lemma core_forget_nonce M p h tx : core M p -> all p !! h = Some tx ->
  core (<[sender_of tx := List.filter (other (Nonce tx)) (M (sender_of tx))]> M) (forget_hash range_hash p h).
Proof.
  intros H Ht. set (a := sender_of tx). apply core_forget.
  - eapply core_sub; [done|]. intros b. destruct (decide (b = a)) as [->|Hne]; [|rewrite fn_lookup_insert_ne by done; exists []; by rewrite app_nil_r].
    rewrite fn_lookup_insert. exists (List.filter (fun t => negb (other (Nonce tx) t)) (M a)). apply lfilter_parts.
  - intros b y Hy Eh. assert (y ∈ M b) as Hy'.
    { destruct (decide (b = a)) as [->|Hne]; [rewrite fn_lookup_insert in Hy; by apply elem_of_lfilter in Hy as [? _]|by rewrite fn_lookup_insert_ne in Hy]. }
    pose proof (core_all _ _ _ _ H Hy') as Ey. rewrite Eh, Ht in Ey. injection Ey as <-. pose proof (core_sender _ _ _ _ H Hy') as Hs. fold a in Hs. subst b.
    rewrite fn_lookup_insert in Hy. apply elem_of_lfilter in Hy as [_ Hy]. unfold other in Hy. by rewrite Z.eqb_refl in Hy.
Qed.

Lemma other_fresh n l : n ∉ Nonce <$> l -> List.filter (other n) l = l.
Proof.
  intros Hn. apply lfilter_all. intros x Hx. unfold other. apply negb_true_iff, Z.eqb_neq. intros En. apply Hn. rewrite <- En. by apply list_elem_of_fmap_2.
Qed.

Lemma remove_future_ok P Q p a tx : core (<[a := P a ++ List.filter (other (Nonce tx)) (Q a)]> (fun b => P b ++ Q b)) p ->
  reps true (pending p) P -> reps false (queue p) Q ->
  exists p', remove_future range_nonce p a tx = Some p' /\ pooled P (<[a := List.filter (other (Nonce tx)) (Q a)]> Q) p' /\ same_pending p p'.
Proof.
  intros H HP HQ. unfold remove_future. pose proof (HQ a) as Hr. destruct (queue p !! a) as [tl|] eqn:Eq; cbn [rep] in Hr.
  - destruct Hr as (Hs & Hl & Hne). destruct (ListRemove_ok range_nonce range_perm tl (Q a) tx Hl) as (inv & tl' & -> & Hl' & Hs' & _).
    cbn [mbind option_bind]. rewrite Hs in Hl'. unfold left_after in Hl'. cbn [andb] in Hl'. eexists. split; [done|]. split; [|done].
    split; [done|cbn; apply reps_store; [done|congruence|done]|]. eapply core_perm; [eapply core_fields; [exact H|done|done]|].
    intros b. cbn. destruct (decide (b = a)) as [->|Hnb]; [by rewrite !fn_lookup_insert|by rewrite !fn_lookup_insert_ne].
  - exists p. split; [done|]. split; [|done]. rewrite Hr. cbn. rewrite Hr in H. split; [done| |].
    + eapply reps_ext; [done|]. intros b. destruct (decide (b = a)) as [->|Hnb]; [by rewrite fn_lookup_insert|by rewrite fn_lookup_insert_ne].
    + eapply core_perm; [exact H|]. intros b. cbn. destruct (decide (b = a)) as [->|Hnb]; [by rewrite !fn_lookup_insert|by rewrite !fn_lookup_insert_ne].
Qed.

Abbreviation removeTx := (removeTx (E := E) config hash Sender range_nonce range_hash).
Abbreviation remove_all := (remove_all (E := E) config hash Sender range_nonce range_hash).

(** The transaction was pending: what follows it goes back to the queue, unless
    nothing is left before it. *)
Lemma remove_pending_ok P Q p h tx inv tl' : pooled P Q p -> all p !! h = Some tx -> let a := sender_of tx in
  Nonce tx ∈ Nonce <$> P a -> strict tl' = true -> lists tl' (List.filter (low (Nonce tx)) (P a)) ->
  List.filter (other (Nonce tx)) (P a) ≡ₚ inv ++ List.filter (low (Nonce tx)) (P a) ->
  let p1 := forget_hash range_hash p h in
  let p2 := if Empty tl' then set_beats (base.delete a (beats p1)) (set_pending (base.delete a (pending p1)) p1)
            else enqueue_all (set_pending (<[a := tl']> (pending p1)) p1) inv in
  exists k, pooled (<[a := List.filter (low (Nonce tx)) (P a)]> P) (<[a := k]> Q) (lower_nonce p2 a (Nonce tx)) /\
    quiet P Q p (<[a := List.filter (low (Nonce tx)) (P a)]> P) (<[a := k]> Q) (lower_nonce p2 a (Nonce tx)) /\ all (lower_nonce p2 a (Nonce tx)) = base.delete h (all p).
Proof.
  intros Hpo Ht a Hn Hs Hl Hp p1 p2. pose proof Hpo as [HP HQ Hc]. pose proof (core_forget_nonce _ p h tx Hc Ht) as H1. cbn in H1. fold a in H1.
  assert (Nonce tx ∉ Nonce <$> Q a) as HnQ.
  { pose proof (co_nonces _ _ Hc a) as Hnd. cbn in Hnd. rewrite fmap_app in Hnd. apply list.NoDup_app in Hnd as (_ & Hnd & _). by apply Hnd. }
  rewrite List.filter_app, (other_fresh _ _ HnQ) in H1. fold p1 in H1. set (low_ := List.filter (low (Nonce tx)) (P a)) in *.
  assert (exists k, core (<[a := low_ ++ k]> (fun b => P b ++ Q b)) p2 /\ reps true (pending p2) (<[a := low_]> P) /\ reps false (queue p2) (<[a := k]> Q) /\
    currentState p2 = currentState p /\ pendingState p2 = pendingState p /\ currentMaxGas p2 = currentMaxGas p /\ locals p2 = locals p /\ all p2 = base.delete h (all p) /\ k ⊆ P a ++ Q a)
    as (k & C2 & HP2 & HQ2 & Es & En & Eg & Eloc & Ea & Hk).
  { unfold p2. pose proof (reps_store true (pending p) P a tl' low_ HP Hs Hl) as Hst. rewrite (lists_nonempty _ _ Hl) in *. case_bool_decide as El.
    - exists (Q a). rewrite El. split_and!; cbn; try done.
      + eapply core_fields; [eapply core_sub; [exact H1|]|done|done]. intros b. destruct (decide (b = a)) as [->|Hnb]; [|rewrite !fn_lookup_insert_ne by done; exists []; by rewrite app_nil_r].
        rewrite !fn_lookup_insert. eexists. rewrite Permutation_app_comm. done.
      + by rewrite <- El at 1.
      + eapply reps_ext; [exact HQ|]. intros b. destruct (decide (b = a)) as [->|Hnb]; [by rewrite fn_lookup_insert|by rewrite fn_lookup_insert_ne].
      + intros x Hx. apply elem_of_app. by right.
    - destruct (enqueue_all_held _ a inv Q (set_pending (<[a := tl']> (pending p1)) p1) ltac:(by eapply core_fields) HQ) as (H2 & HQ2 & F2).
      + intros x Hx. rewrite fn_lookup_insert, Hp, !elem_of_app. auto.
      + pose proof (co_nonces _ _ H1 a) as Hnd. rewrite fn_lookup_insert, Hp, <- app_assoc, (Permutation_app_swap_app inv), fmap_app in Hnd. by apply list.NoDup_app in Hnd as (_ & _ & ?).
      + exists (put_all (Q a) inv). destruct F2 as [F1 F2 F3 F4 F5 _ F6]. split_and!; [|by rewrite F1|done|by rewrite F2|by rewrite F3|by rewrite F4|by rewrite F5|by rewrite F6|].
        2: { intros x [Hx|Hx]%elem_of_put_all; apply elem_of_app; [left|by right]. assert (x ∈ inv ++ low_) as Hx' by (apply elem_of_app; by left).
             rewrite <- Hp in Hx'. by apply elem_of_lfilter in Hx' as [? _]. }
        eapply core_perm; [exact H2|]. intros b.
        destruct (decide (b = a)) as [->|Hnb]; [|by rewrite !fn_lookup_insert_ne]. rewrite !fn_lookup_insert, Hp, put_all_perm; [by rewrite <- app_assoc, Permutation_app_swap_app|].
        pose proof (co_nonces _ _ H1 a) as Hnd. rewrite fn_lookup_insert, Hp, <- app_assoc, (Permutation_app_swap_app inv), fmap_app in Hnd. by apply list.NoDup_app in Hnd as (_ & _ & ?). }
  exists k. destruct (lower_same p2 a (Nonce tx)) as (L1 & L2 & L3 & L4 & L5 & L6 & L7). set (p3 := lower_nonce p2 a (Nonce tx)) in *. split_and!.
  - apply pooled_pieces; rewrite ?L1, ?L2; [by eapply core_fields|done|done].
  - constructor; [congruence..|rewrite L6, Ea; apply delete_subseteq| |].
    + intros Hex. apply (executable_lower P p _ a (Nonce tx)); [done|done| |congruence|].
      * apply poolable_nonce. by apply (kn_poolable _ _ (co_known _ _ Hc)) in Ht.
      * unfold p3, lower_nonce. rewrite En. by destruct (_ >? _).
    + intros b x. destruct (decide (b = a)) as [->|Hb]; [|by rewrite !fn_lookup_insert_ne]. rewrite !fn_lookup_insert, elem_of_app.
      intros [Hx|Hx]; [|by apply Hk]. apply elem_of_lfilter in Hx as [? _]. apply elem_of_app. by left.
  - congruence.
Qed.

(** What the removal of a hash does to the lists. *)
Record removes (P Q : Address -> list Transaction) p (h : Hash) (P' Q' : Address -> list Transaction) p' : Prop := {
  rm_pooled : pooled P' Q' p';
  rm_quiet : quiet P Q p P' Q' p';
  rm_all : all p' = base.delete h (all p);
  rm_others : forall b, (forall tx, all p !! h = Some tx -> sender_of tx <> b) -> P' b = P b /\ Q' b = Q b;
  rm_queued : forall tx, all p !! h = Some tx -> Nonce tx ∉ Nonce <$> P (sender_of tx) ->
    P' (sender_of tx) = P (sender_of tx) /\ Q' (sender_of tx) = List.filter (other (Nonce tx)) (Q (sender_of tx));
}.

Lemma remove_queued_ok P Q p h tx p1 : pooled P Q p -> all p !! h = Some tx -> Nonce tx ∉ Nonce <$> P (sender_of tx) ->
  reps true (pending p1) P -> (let p0 := forget_hash range_hash p h in same_queue p0 p1 /\ pendingState p1 = pendingState p0 /\ priced p1 = priced p0) ->
  exists P' Q' p', remove_future range_nonce p1 (sender_of tx) tx = Some p' /\ removes P Q p h P' Q' p'.
Proof.
  intros Hpo Ht Hn HP1 ([Fq Fs Fg Fl Fa] & Fn & Fp). pose proof Hpo as [HP HQ Hc]. pose proof (core_forget_nonce _ p h tx Hc Ht) as H1. cbn in H1.
  set (a := sender_of tx) in *. rewrite List.filter_app, (other_fresh _ _ Hn) in H1.
  destruct (remove_future_ok P Q p1 a tx) as (p' & -> & Hpo' & [F1 F2 F3 F4 F5 _ F6]); [eapply core_fields; [exact H1|exact Fa|exact Fp]|done|by rewrite Fq|].
  eexists P, _, p'. split; [done|]. constructor; [done| |by rewrite F6, Fa| |].
  - constructor; [by rewrite F2, Fs|by rewrite F4, Fg|by rewrite F5, Fl|rewrite F6, Fa; apply delete_subseteq| |].
    + intros Hex. eapply executable_same; [done|done|by rewrite F2, Fs|by rewrite F3, Fn].
    + intros b x. destruct (decide (b = a)) as [->|Hb]; [|by rewrite !fn_lookup_insert_ne]. rewrite !fn_lookup_insert, !elem_of_app, elem_of_lfilter. naive_solver.
  - intros b Hb. split; [done|]. rewrite fn_lookup_insert_ne; [done|]. intros Eb. by apply (Hb tx Ht).
  - intros tx' Ht' _. rewrite Ht in Ht'. injection Ht' as <-. split; [done|]. fold a. by rewrite fn_lookup_insert.
Qed.

Lemma removeTx_ok P Q p h : pooled P Q p -> exists P' Q' p', removeTx p h = Some p' /\ removes P Q p h P' Q' p'.
Proof.
  intros Hpo. pose proof Hpo as [HP HQ Hc]. unfold removeTx. destruct (all p !! h) as [tx|] eqn:Ht.
  2: { exists P, Q, p. split; [done|]. constructor; [done|apply quiet_refl|by rewrite delete_id|done|]. intros tx. by rewrite Ht. }
  set (a := sender_of tx). pose proof (HP a) as Hr. change (pending (forget_hash range_hash p h)) with (pending p).
  destruct (pending p !! a) as [tl|] eqn:Eq; cbn [rep] in Hr.
  - destruct Hr as (Hs & Hl & Hne). destruct (ListRemove_ok range_nonce range_perm tl (P a) tx Hl) as (inv & tl' & -> & Hl' & Hs' & Hp).
    cbn [mbind option_bind]. unfold left_after in *. rewrite Hs in *. cbn [andb] in *. case_bool_decide as Hn.
    + destruct (remove_pending_ok P Q p h tx inv tl' Hpo Ht Hn Hs' Hl' Hp) as (k & Hpo' & Hq & Ha). eexists _, _, _. split; [done|]. constructor; [exact Hpo'|exact Hq|done| |].
      * intros b Hb. assert (b <> a) by (intros Eb; by apply (Hb tx Ht)). by rewrite !fn_lookup_insert_ne.
      * intros tx' Ht' Hn'. rewrite Ht in Ht'. injection Ht' as <-. done.
    + apply (remove_queued_ok P Q p h tx); [done|done|done| |done]. rewrite (other_fresh _ _ Hn) in Hl'. cbn.
      eapply reps_ext; [apply (reps_insert true (pending p) P a tl' (P a)); [done|by split_and!]|]. intros b.
      destruct (decide (b = a)) as [->|Hnb]; [by rewrite fn_lookup_insert|by rewrite fn_lookup_insert_ne].
  - apply (remove_queued_ok P Q p h tx); [done|done| |done|done]. fold a. rewrite Hr. apply not_elem_of_nil.
Qed.

Lemma remove_all_ok txs : forall P Q p, pooled P Q p -> exists P' Q' p', remove_all p txs = Some p' /\ pooled P' Q' p' /\ quiet P Q p P' Q' p' /\
  (forall tx, tx ∈ txs -> all p' !! hash tx = None) /\
  (forall b, (forall tx, tx ∈ txs -> sender_of tx <> b) -> map_Forall (fun h tx => forall t, t ∈ txs -> hash t = h -> tx = t) (all p) -> P' b = P b /\ Q' b = Q b).
Proof.
  induction txs as [|tx txs IH]; intros P Q p Hpo.
  { exists P, Q, p. split; [done|]. split_and!; [done|apply quiet_refl|by intros ? ?%elem_of_nil|done]. }
  destruct (removeTx_ok P Q p (hash tx) Hpo) as (P1 & Q1 & p1 & E1 & [Hpo1 Hq1 Ha1 Ho1 _]).
  destruct (IH P1 Q1 p1 Hpo1) as (P2 & Q2 & p2 & E2 & Hpo2 & Hq2 & Hg2 & Ho2). exists P2, Q2, p2. split; [|split_and!; [done|by eapply quiet_trans| |]].
  - unfold Pool.remove_all. cbn [foldl mbind option_bind]. rewrite E1. exact E2.
  - intros t [->|Ht]%elem_of_cons; [|by apply Hg2]. eapply lookup_weaken_None; [|apply (qu_all _ _ _ _ _ _ Hq2)]. rewrite Ha1. apply lookup_delete_eq.
  - intros b Hb Hall. destruct (Ho2 b) as [-> ->].
    + intros t Ht. apply Hb. by right.
    + intros h y Hy t Ht Eh. rewrite Ha1 in Hy. apply lookup_delete_Some in Hy as [_ Hy]. apply (Hall h y Hy t); [by right|done].
    + apply Ho1. intros y Hy. assert (y = tx) as -> by (by apply (Hall _ _ Hy); [left|]). apply Hb. by left.
Qed.
End Inv.
