(* ===== verification/TxPoolSteps.v ===== *)
(** The operations of the pool keep it in order, and never panic.

    Every operation is shown to return from a pool that is [pooled], to leave it
    pooled, and to keep its pending transactions [executable]. *)

From S2P Require Import Prelude BigMath VmData GoHeap TxTypes TxList TxListSpec TxListRefine TxPriced TxByPrice Ota Transition TxPool TxPoolInv.
From stdpp Require Import functions.
Import Big Common Addr Tx Managed Pool TxList.

Local Open Scope Z_scope.

Section Steps.
Context {S E : Type} `{!PoolState S E}.
Context {config : TxPoolConfig}.
Context {hash : Transaction -> Hash} {Size : Transaction -> Z} {Sender : Transaction -> option Address}.
Context {range_nonce : gmap Z Transaction -> list (Z * Transaction)}.
Context {range_hash : gmap Hash Transaction -> list (Hash * Transaction)}.
Context {range_list : gmap Address txList -> list (Address * txList)}.
Context {range_txs : gmap Address (list Transaction) -> list (Address * list Transaction)}.
Context {range_addr : gset Address -> list Address}.
Context `{!Ranges range_nonce, !Ranges range_hash, !Ranges range_list, !Ranges range_txs}.
Implicit Types p : TxPool S.

Abbreviation sender_of := (ByPrice.sender_of Sender).
Abbreviation known D := (known (hash := hash) (Sender := Sender) (D := D)).
Abbreviation pooled D := (pooled (hash := hash) (Sender := Sender) (D := D)).
Abbreviation poolable := (poolable (Sender := Sender)).
Abbreviation enqueueTx := (enqueueTx (E := E) config hash Sender range_hash).
Abbreviation remove_all := (remove_all (E := E) config hash Sender range_nonce range_hash).
Abbreviation add := (add config hash Size Sender range_nonce range_hash).
Abbreviation forget_old := (forget_old hash range_hash).
Abbreviation record_tx := (record_tx hash).

(** ** Making room *)

Lemma known_live D all l h tx : known D all l -> all !! h = Some tx -> Priced.live hash all tx = true.
Proof. intros H Ht. apply bool_decide_true. rewrite (kn_keys _ _ H _ _ Ht). apply elem_of_dom. by eexists. Qed.

Lemma Underpriced_known D all l local tx : known D all l -> exists b l', Priced.Underpriced hash all local l tx = Some (b, l') /\ known D all l'.
Proof.
  intros H. unfold Priced.Underpriced. destruct (local tx); [by exists false, l|].
  destruct (underpriced_ok hash all (length (Priced.items l)) (Priced.items l) (Priced.stales l) (kn_heap _ _ H) ltac:(lia)) as (popped & its & -> & Hh & Hp & Hst & _).
  cbn [mbind option_bind]. eexists _, _. split; [done|]. pose proof H as [Hk Hpo _ Hc]. constructor; cbn; [done|done|done|].
  intros h t Ht. destruct (Hc h t Ht) as [Hin|]; [|auto]. rewrite Hp, elem_of_app in Hin. destruct Hin as [Hin|]; [|auto].
  pose proof (known_live D all l h t H Ht) as Hl. by rewrite (Hst t Hin) in Hl.
Qed.

(** What a loop gives out is not in the heap any more. *)
Lemma known_given all l local popped rest its st : known [] all l -> Priced.items l ≡ₚ popped ++ rest ->
  is_heap GasPrice its -> its ≡ₚ List.filter (kept_local hash all local) popped ++ rest ->
  known (List.filter (remote hash all local) popped) all (Priced.mkPriced its st).
Proof.
  intros H Hp Hh Hits. pose proof H as [Hk Hpo _ Hc]. constructor; cbn; [done|done|done|]. intros h t Ht.
  destruct (Hc h t Ht) as [Hin|?%elem_of_nil]; [|done]. rewrite Hp, elem_of_app in Hin. rewrite Hits, elem_of_app, !elem_of_lfilter. destruct Hin as [Hin|]; [|auto].
  pose proof (known_live [] all l h t H Ht) as Hl. unfold kept_local, remote. rewrite Hl. destruct (local t); cbn; auto.
Qed.
Lemma Discard_known all l local count : known [] all l -> 0 <= count ->
  exists drop l', Priced.Discard hash all local l count = Some (drop, l') /\ known drop all l'.
Proof.
  intros H Hc. unfold Priced.Discard. rewrite (proj2 (Z.ltb_ge _ _)) by lia.
  destruct (discard_ok hash all local (length (Priced.items l)) count (Priced.items l) (Priced.stales l) [] [] (kn_heap _ _ H) ltac:(lia) Hc)
    as (popped & rest & -> & Hh & Hp & _). cbn [mbind option_bind app].
  destruct (push_all_ok rest (List.filter (kept_local hash all local) popped) Hh) as [Hh' Hp']. eexists _, _. split; [done|]. by eapply known_given.
Qed.
Lemma Cap_known all l local threshold : known [] all l -> exists drop l', Priced.Cap hash all local l threshold = Some (drop, l') /\ known drop all l'.
Proof.
  intros H. unfold Priced.Cap.
  destruct (price_cap_ok hash all local threshold (length (Priced.items l)) (Priced.items l) (Priced.stales l) [] [] (kn_heap _ _ H) ltac:(lia))
    as (popped & rest & its' & save' & -> & Hh & Hp & Hs & _). cbn [mbind option_bind app].
  destruct (push_all_ok its' save' Hh) as [Hh' Hp']. eexists _, _. split; [done|]. eapply known_given; [done|exact Hp|done|]. by rewrite Hp', Hs.
Qed.

Lemma pooled_priced D D' P Q p l : pooled D P Q p -> known D' (all p) l -> pooled D' P Q (set_priced l p).
Proof. intros [HP HQ [_ Hn Hl]] Hk. by split. Qed.
(** The transactions given out are removed. *)
Lemma given_removed P Q p drop : pooled drop P Q p -> exists P' Q' p', remove_all p drop = Some p' /\ pooled [] P' Q' p' /\ quiet P Q p P' Q' p'.
Proof.
  intros H. destruct (remove_all_ok (config := config) (range_nonce := range_nonce) (range_hash := range_hash) drop P Q p H) as (P' & Q' & p' & E1 & [HP HQ [[Hk Hp Hh Hc] Hn Hl]] & Hq & Hg & _).
  exists P', Q', p'. split_and!; [done| |done]. split; [done|done|]. split; [|done|done]. constructor; [done..|]. intros h t Ht. left.
  destruct (Hc h t Ht) as [|Hd]; [done|]. specialize (Hg t Hd). by rewrite (Hk _ _ Ht), Ht in Hg.
Qed.

(** ** Adding a transaction *)

(** What an operation that may add [n] transactions keeps. *)
Record tame (n : nat) (P : Address -> list Transaction) p (P' : Address -> list Transaction) p' : Prop := {
  ta_state : currentState p' = currentState p;
  ta_gas : currentMaxGas p' = currentMaxGas p;
  ta_size : (size (all p') <= n + size (all p))%nat;
  ta_exec : executable P p -> executable P' p';
}.
Lemma quiet_tame P Q p P' Q' p' : quiet P Q p P' Q' p' -> tame 0 P p P' p'.
Proof. intros [? ? _ Ha ? _]. constructor; try done. by apply map_subseteq_size. Qed.
Lemma tame_trans n m P p P' p' P'' p'' : tame n P p P' p' -> tame m P' p' P'' p'' -> tame (n + m) P p P'' p''.
Proof. intros [] []. constructor; [congruence..|lia|auto]. Qed.

Lemma validateTx_ok p tx local from : validateTx Size Sender p tx local = inl from -> 0 <= Nonce tx < 2 ^ 64 - 1 -> Sender tx = Some from /\ poolable tx.
Proof.
  unfold validateTx. intros H Hn. destruct (negb (IsValidTransactionType _)); [done|]. destruct (negb (Bool.eqb _ _)) eqn:Ep; [done|].
  destruct (Size tx >? _); [done|]. destruct (Value tx <? 0); [done|]. destruct (currentMaxGas p <? Gas tx); [done|].
  destruct (Sender tx) as [a|] eqn:Es; [|done]. assert (from = a) as ->.
  { revert H. repeat case_match; intros; by simplify_eq. }
  split; [done|]. split; [by eexists|]. split; [done|]. intros Hpos. rewrite Hpos in Ep. destruct (To tx); [by eexists|done].
Qed.

Lemma make_room_ok P Q p tx : pooled [] P Q p ->
  exists b P' Q' p', make_room (E := E) config hash Sender range_nonce range_hash p tx = Some (b, p') /\ pooled [] P' Q' p' /\ quiet P Q p P' Q' p'.
Proof.
  intros H. unfold make_room. set (slots := (_ + _) mod 2 ^ 64). destruct (Z.geb_spec (Z.of_nat (size (all p))) slots) as [Hge|]; [|by exists false, P, Q, p].
  destruct (Underpriced_known [] (all p) (priced p) (containsTx Sender (locals p)) tx (co_known _ _ (po_core _ _ _ H))) as (b & l & -> & Hk). cbn [mbind option_bind].
  destruct b; [exists true, P, Q; eexists; split_and!; [done|by eapply pooled_priced|done]|].
  assert (0 <= Z.of_nat (size (all p)) - int64 ((slots - 1) mod 2 ^ 64)) as Hc.
  { assert (0 <= slots < 2 ^ 64) as Hs by (by apply Z.mod_pos_bound). unfold int64.
    assert (forall z, (z + 2 ^ 63) mod 2 ^ 64 - 2 ^ 63 < 2 ^ 63) as Hi by (intros z; pose proof (Z.mod_pos_bound (z + 2 ^ 63) (2 ^ 64)); lia).
    destruct (decide (slots = 0)) as [E0|Hnz]; [rewrite E0; change (((0 - 1) mod 2 ^ 64 + 2 ^ 63) mod 2 ^ 64 - 2 ^ 63) with (-1); lia|]. rewrite (Z.mod_small (slots - 1)) by lia.
    destruct (Z.le_gt_cases (2 ^ 63) (slots - 1)) as [Hbig|Hsm]; [specialize (Hi (slots - 1)); lia|]. rewrite Z.mod_small by lia. lia. }
  destruct (Discard_known (all p) l (containsTx Sender (locals p)) _ Hk Hc) as (drop & l' & Ed & Hk'). cbn. rewrite Ed. cbn [mbind option_bind].
  destruct (given_removed P Q (set_priced l' (set_priced l p)) drop) as (P' & Q' & p' & -> & Hp' & Hq).
  { apply (pooled_priced [] drop P Q (set_priced l p) l'); [by apply (pooled_priced [] [])|done]. }
  cbn [mbind option_bind]. exists false, P', Q', p'. split_and!; [done|done|]. by destruct Hq.
Qed.

Lemma ordered_nonces l : ordered Nonce l -> ordered (fun n : Z => n) (Nonce <$> l).
Proof.
  induction l as [|tx l IH]; [constructor|]. intros [Ho F]%ordered_cons. rewrite fmap_cons. apply ordered_cons. split; [by apply IH|].
  apply list.Forall_forall. intros n (t & -> & Ht)%list_elem_of_fmap. rewrite list.Forall_forall in F. by apply F.
Qed.
(** A replacement has the nonce of what it replaces. *)
Lemma put_nonces tx l : ordered Nonce l -> Nonce tx ∈ Nonce <$> l -> Nonce <$> put_list tx l = Nonce <$> l.
Proof.
  intros Ho Hn. apply (ordered_unique (fun n : Z => n)); [by apply ordered_nonces, put_list_ordered|by apply ordered_nonces|].
  apply list_elem_of_fmap in Hn as (old & En & Hin). rewrite put_list_perm, fmap_cons. rewrite (filter_one tx old l Ho Hin) at 2 by done. rewrite fmap_cons. by rewrite En.
Qed.
Lemma overlaps_ok tl l tx : lists tl l -> Overlaps tl tx = bool_decide (Nonce tx ∈ Nonce <$> l).
Proof.
  intros [Hm _]. unfold Overlaps. rewrite (replaced_ok _ _ _ Hm). unfold replaced. destruct (list_find _ l) as [[i old]|] eqn:Ef; cbn.
  - apply list_find_Some in Ef as (Ei & En & _). symmetry. apply bool_decide_true. rewrite <- En. apply list_elem_of_fmap_2. by eapply list_elem_of_lookup_2.
  - apply list_find_None in Ef. rewrite list.Forall_forall in Ef. symmetry. apply bool_decide_false. intros (t & En & Ht)%list_elem_of_fmap. by apply (Ef t Ht).
Qed.
Lemma pooled_fields D P Q p p' : pooled D P Q p -> pending p' = pending p -> queue p' = queue p -> all p' = all p -> priced p' = priced p -> pooled D P Q p'.
Proof. intros [HP HQ H] E1 E2 E3 E4. split; [by rewrite E1|by rewrite E2|by eapply core_fields]. Qed.

Abbreviation journalTx := (journalTx (S := S)).
Lemma journal_fields p a tx : let p' := journalTx p a tx in
  pending p' = pending p /\ queue p' = queue p /\ all p' = all p /\ priced p' = priced p /\ currentState p' = currentState p /\
  pendingState p' = pendingState p /\ currentMaxGas p' = currentMaxGas p.
Proof. unfold Pool.journalTx. destruct (journal p); [|done]. by destruct (negb _). Qed.

(** The other fields do not matter. *)
Lemma tame_fields n P p P' p' p'' : tame n P p P' p' -> currentState p'' = currentState p' -> currentMaxGas p'' = currentMaxGas p' ->
  pendingState p'' = pendingState p' -> all p'' = all p' -> tame n P p P' p''.
Proof.
  intros [H1 H2 H3 H4] E1 E2 E3 E4. constructor; [congruence..|by rewrite E4|]. intros Hex. eapply executable_same; [by apply H4|done|done|done].
Qed.
Lemma size_record p old tx : (size (all (record_tx (forget_old p old) tx)) <= 1 + size (all p))%nat.
Proof.
  assert (forall m : gmap Hash Transaction, (size (<[hash tx := tx]> m) <= 1 + size m)%nat) as Hi by (intros m; rewrite map_size_insert; destruct (m !! hash tx); cbn; lia).
  etrans; [apply Hi|]. destruct old as [o|]; [|done]. pose proof (map_subseteq_size _ _ (delete_subseteq (all p) (hash o))). cbn. lia.
Qed.

(** A new transaction in the list of its account, pending or queued. *)
Lemma old_fields p old tx : let p' := record_tx (forget_old p old) tx in
  pending p' = pending p /\ queue p' = queue p /\ currentState p' = currentState p /\ pendingState p' = pendingState p /\
  currentMaxGas p' = currentMaxGas p /\ locals p' = locals p.
Proof. by destruct old. Qed.

Lemma replace_pending_ok P Q p a tx tl : pooled [] P Q p -> sender_of tx = a -> poolable tx -> all p !! hash tx = None ->
  pending p !! a = Some tl -> Nonce tx ∈ Nonce <$> P a ->
  exists r P' p', (let '(inserted, old, list) := Add tl tx (PriceBump config) in
    let p := set_pending (<[a := list]> (pending p)) p in
    if negb inserted then (inr (ErrReplaceUnderpriced (E := E)), p)
    else (inl (bool_decide (is_Some old)), journalTx (record_tx (forget_old p old) tx) a tx)) = (r, p') /\ pooled [] P' Q p' /\ tame 1 P p P' p'.
Proof.
  intros H Hsa Hpo Hnew Ep Hin. pose proof H as [HP HQ Hc]. pose proof (HP a) as HPa. rewrite Ep in HPa.
  destruct (add_rep true (Some tl) (P a) tx (PriceBump config) HPa (poolable_nonce _ Hpo)) as (tl' & Ea & Hr). unfold default, id in Ea. rewrite Ea.
  pose proof (rep_ordered _ _ _ HPa) as Ho. destruct (accepts tx _ (P a)); cbn [negb].
  - set (p1 := set_pending (<[a := tl']> (pending p)) p). destruct (old_fields p1 (replaced tx (P a)) tx) as (F1 & F2 & F3 & F4 & F5 & _).
    pose proof (size_record p1 (replaced tx (P a)) tx) as Hsz. set (p2 := record_tx (forget_old p1 (replaced tx (P a))) tx) in *.
    destruct (journal_fields p2 a tx) as (J1 & J2 & J3 & J4 & J5 & J6 & J7).
    eexists _, (<[a := put_list tx (P a)]> P), _. split; [done|]. split.
    + eapply pooled_fields; [|done..]. split; [rewrite F1; by apply reps_insert|by rewrite F2|]. eapply core_perm; [apply (core_put (fun b => P b ++ Q b) p1 a tx (P a) (Q a)); [by eapply core_fields|done|done| |done|done|done]|].
      * intros HnQ. pose proof (co_nonces _ _ Hc a) as Hnd. cbn in Hnd. rewrite fmap_app in Hnd. apply list.NoDup_app in Hnd as (_ & Hnd & _). by apply (Hnd _ Hin).
      * intros b. cbn. destruct (decide (b = a)) as [->|Hne]; [by rewrite !fn_lookup_insert|by rewrite !fn_lookup_insert_ne].
    + eapply tame_fields; [|done..]. constructor; [done|done|done|]. intros Hex. destruct (Hex a) as [Hrun Hnext]. pose proof (put_nonces tx (P a) Ho Hin) as Epn.
      assert (length (put_list tx (P a)) = length (P a)) as Elen by (by rewrite <- (length_fmap Nonce), Epn, length_fmap).
      apply (executable_update P p); [done|done|by rewrite F4|by rewrite Epn, Elen|by rewrite F4, Elen].
  - eexists _, P, _. split; [done|]. split; [|by constructor; cbn; [..|lia|]]. split; [|done|by eapply core_fields].
    eapply reps_ext; [by apply (reps_insert true (pending p) P a tl' (P a))|]. intros b. destruct (decide (b = a)) as [->|Hne]; [by rewrite fn_lookup_insert|by rewrite fn_lookup_insert_ne].
Qed.
Lemma enqueue_new_ok P Q p a tx : pooled [] P Q p -> sender_of tx = a -> poolable tx -> all p !! hash tx = None -> Nonce tx ∉ Nonce <$> P a ->
  exists r Q' p', enqueueTx p tx = (r, p') /\ pooled [] P Q' p' /\ tame 1 P p P p'.
Proof.
  intros H Hsa Hpo Hnew Hn. pose proof H as [HP HQ Hc]. unfold Pool.enqueueTx. rewrite Hsa.
  destruct (add_rep false (queue p !! a) (Q a) tx (PriceBump config) (HQ a) (poolable_nonce _ Hpo)) as (tl' & Ea & Hr). rewrite Ea.
  pose proof (rep_ordered _ _ _ (HQ a)) as Ho. destruct (accepts tx _ (Q a)); cbn [negb].
  - set (p1 := set_queue (<[a := tl']> (queue p)) p). destruct (old_fields p1 (replaced tx (Q a)) tx) as (F1 & F2 & F3 & F4 & F5 & _).
    pose proof (size_record p1 (replaced tx (Q a)) tx) as Hsz. eexists _, (<[a := put_list tx (Q a)]> Q), _. split; [done|]. split.
    + split; [by rewrite F1|rewrite F2; by apply reps_insert|]. eapply core_perm; [apply (core_put (fun b => P b ++ Q b) p1 a tx (Q a) (P a)); [by eapply core_fields|apply Permutation_app_comm|done..]|].
      * intros b. cbn. destruct (decide (b = a)) as [->|Hne]; [rewrite !fn_lookup_insert; apply Permutation_app_comm|by rewrite !fn_lookup_insert_ne].
    + constructor; [done|done|done|]. intros Hex. by eapply executable_same.
  - eexists _, Q, _. split; [done|]. split; [|by constructor; cbn; [..|lia|]]. split; [done| |by eapply core_fields].
    eapply reps_ext; [by apply (reps_insert false (queue p) Q a tl' (Q a))|]. intros b. destruct (decide (b = a)) as [->|Hne]; [by rewrite fn_lookup_insert|by rewrite fn_lookup_insert_ne].
Qed.

Lemma place_ok P Q p a tx local : pooled [] P Q p -> Sender tx = Some a -> poolable tx -> all p !! hash tx = None ->
  exists r P' Q' p', place (E := E) config hash Sender range_hash p a tx local = (r, p') /\ pooled [] P' Q' p' /\ tame 1 P p P' p'.
Proof.
  intros H Hs Hpo Hnew. pose proof (po_pending _ _ _ H a) as HPa. assert (sender_of tx = a) as Hsa by (unfold ByPrice.sender_of; by rewrite Hs).
  unfold place. destruct (pending p !! a ≫= _) as [tl|] eqn:Eo.
  - apply bind_Some in Eo as (tl' & Ep & Eo). rewrite Ep in HPa. destruct HPa as (Hst & Hl & Hne). rewrite (overlaps_ok _ _ tx Hl) in Eo.
    case_bool_decide as Hin; [|done]. injection Eo as ->. destruct (replace_pending_ok P Q p a tx tl H Hsa Hpo Hnew Ep Hin) as (r & P' & p' & E1 & Hp' & Ht).
    by exists r, P', Q, p'.
  - assert (Nonce tx ∉ Nonce <$> P a) as Hn.
    { destruct (pending p !! a) as [tl|]; [|cbn in HPa; rewrite HPa; apply not_elem_of_nil]. destruct HPa as (_ & Hl & _). cbn in Eo.
      rewrite (overlaps_ok _ _ tx Hl) in Eo. by case_bool_decide. }
    destruct (enqueue_new_ok P Q p a tx H Hsa Hpo Hnew Hn) as (r & Q' & p1 & -> & Hp1 & Ht1). destruct r as [replace|err]; [|by eexists _, P, Q', _].
    set (p2 := if local then _ else p1). destruct (journal_fields p2 a tx) as (J1 & J2 & J3 & J4 & J5 & J6 & J7). eexists _, P, Q', _. split; [done|]. split.
    + eapply pooled_fields; [exact Hp1|..]; rewrite ?J1, ?J2, ?J3, ?J4; unfold p2; by destruct local.
    + eapply tame_fields; [exact Ht1|..]; rewrite ?J3, ?J5, ?J6, ?J7; unfold p2; by destruct local.
Qed.

Lemma add_ok P Q p tx local : pooled [] P Q p -> 0 <= Nonce tx < 2 ^ 64 - 1 ->
  exists r P' Q' p', add p tx local = Some (r, p') /\ pooled [] P' Q' p' /\ tame 1 P p P' p'.
Proof.
  intros H Hn. unfold Pool.add. assert (tame 1 P p P p) as Hrefl by (constructor; [..|lia|]; done).
  destruct (all p !! hash tx) as [t|] eqn:Et; [by eexists _, P, Q, p|].
  destruct (validateTx Size Sender p tx local) as [a|err] eqn:Ev; [|by eexists _, P, Q, p].
  destruct (validateTx_ok p tx local a Ev Hn) as [Hs Hpo]. destruct (make_room_ok P Q p tx H) as (b & P1 & Q1 & p1 & -> & H1 & Hq1). cbn [mbind option_bind].
  pose proof (quiet_tame _ _ _ _ _ _ Hq1) as Ht1. destruct b.
  - eexists _, P1, Q1, p1. split_and!; [done|done|]. destruct Ht1. constructor; try done. lia.
  - destruct (place_ok P1 Q1 p1 a tx local H1 Hs Hpo) as (r & P2 & Q2 & p2 & -> & H2 & Ht2); [eapply lookup_weaken_None; [exact Et|apply Hq1]|].
    eexists _, P2, Q2, p2. split_and!; [done|done|]. by apply (tame_trans 0 1 _ _ _ _ _ _ Ht1 Ht2).
Qed.

(** ** Account by account *)

Abbreviation each_account := (each_account (S := S)).

Lemma each_cons f p a l : each_account f p (a :: l) = (p ← f p a; each_account f p l).
Proof.
  unfold Pool.each_account. cbn [foldl mbind option_bind]. destruct (f p a) as [p'|]; [done|]. cbn. by induction l.
Qed.
Lemma each_ok D (f : TxPool S -> Address -> option (TxPool S)) l :
  (forall P Q p a, pooled D P Q p -> exists P' Q' p', f p a = Some p' /\ pooled D P' Q' p' /\ quiet P Q p P' Q' p') ->
  forall P Q p, pooled D P Q p -> exists P' Q' p', each_account f p l = Some p' /\ pooled D P' Q' p' /\ quiet P Q p P' Q' p'.
Proof.
  intros Hf. induction l as [|a l IH]; intros P Q p H; [by exists P, Q, p|]. rewrite each_cons.
  destruct (Hf P Q p a H) as (P1 & Q1 & p1 & -> & H1 & Hq1). destruct (IH P1 Q1 p1 H1) as (P2 & Q2 & p2 & E2 & H2 & Hq2).
  exists P2, Q2, p2. split_and!; [done|done|by eapply quiet_trans].
Qed.
(** An operation that needs [G] of the lists of its account, changes them by [R],
    leaves those of the others, and keeps [I] and the rest by [T]. *)
Section Each.
Context (D : list Transaction) (f : TxPool S -> Address -> option (TxPool S)).
Context (T : (Address -> list Transaction) -> (Address -> list Transaction) -> TxPool S -> (Address -> list Transaction) -> (Address -> list Transaction) -> TxPool S -> Prop).
Context (I : TxPool S -> Prop) (G : list Transaction -> list Transaction -> Prop) (R : Address -> list Transaction -> list Transaction -> Prop).
Hypothesis T_refl : forall P Q p, T P Q p P Q p.
Hypothesis T_trans : forall P Q p P' Q' p' P'' Q'' p'', T P Q p P' Q' p' -> T P' Q' p' P'' Q'' p'' -> T P Q p P'' Q'' p''.
Hypothesis T_keeps : forall P Q p P' Q' p', T P Q p P' Q' p' -> I p -> I p'.
Hypothesis f_ok : forall P Q p a, pooled D P Q p -> I p -> G (P a) (Q a) -> exists P' Q' p', f p a = Some p' /\ pooled D P' Q' p' /\ T P Q p P' Q' p' /\ R a (P a) (P' a) /\
  (forall b, b <> a -> P' b = P b /\ Q' b = Q b).

Lemma each_in l : NoDup l -> forall P Q p, pooled D P Q p -> I p -> (forall a, a ∈ l -> G (P a) (Q a)) ->
  exists P' Q' p', each_account f p l = Some p' /\ pooled D P' Q' p' /\ T P Q p P' Q' p' /\ (forall a, a ∈ l -> R a (P a) (P' a)) /\ (forall b, b ∉ l -> P' b = P b /\ Q' b = Q b).
Proof.
  induction l as [|a l IH]; intros Hn P Q p H HI HG.
  { exists P, Q, p. split_and!; [done|done|apply T_refl|by intros ? ?%elem_of_nil|done]. }
  apply list.NoDup_cons in Hn as [Ha Hn]. rewrite each_cons. destruct (f_ok P Q p a H HI) as (P1 & Q1 & p1 & -> & H1 & Hq1 & HR1 & Ho1); [apply HG; by left|].
  destruct (IH Hn P1 Q1 p1 H1) as (P2 & Q2 & p2 & E2 & H2 & Hq2 & HR2 & Ho2); [by eapply T_keeps| |].
  { intros b Hb. destruct (Ho1 b) as [-> ->]; [intros ->; done|]. apply HG. by right. }
  exists P2, Q2, p2. split_and!; [done|done|by eapply T_trans| |].
  - intros b [->|Hb]%elem_of_cons; [by destruct (Ho2 a Ha) as [-> _]|]. destruct (Ho1 b) as [<- _]; [by intros ->|]. by apply HR2.
  - intros b Hb. apply not_elem_of_cons in Hb as [Hba Hb]. destruct (Ho2 b Hb) as [-> ->]. by apply Ho1.
Qed.
End Each.

Abbreviation promote_account := (promote_account (E := E) config hash Sender range_nonce range_hash).
(** What the state can pay for. *)
Definition affordable (st : S) (gas : Z) (a : Address) (l : list Transaction) : Prop :=
  Forall (fun tx => GetNonce st a <= Nonce tx /\ tooCostly (GetBalance st a) gas tx = false) l.
Lemma affordable_sub st gas a l k : affordable st gas a l -> k ⊆ l -> affordable st gas a k.
Proof. unfold affordable. rewrite !list.Forall_forall. intros H Hs x Hx. by apply H, Hs. Qed.

Lemma promotes_affordable P Q p a ready l p' : promotes P Q p a ready l p' (config := config) (hash := hash) (Sender := Sender) (D := []) -> let st := currentState p in let gas := currentMaxGas p in
  affordable st gas a l /\ (affordable st gas a (P a) -> affordable st gas a (put_all (P a) ready)).
Proof.
  intros [_ _ _ _ _ _ (k & _ & Hpay & -> & Hpre & _)] st gas. pose proof (ready_prefix (ManagedGetNonce (pendingState p) a) k) as Hr. split.
  - apply (affordable_sub _ _ _ k); [done|]. intros x Hx. rewrite <- Hr. apply elem_of_app. right. destruct Hpre as [j ->]. apply elem_of_app. by left.
  - unfold affordable. rewrite !list.Forall_forall. intros HP x [Hx|Hx]%elem_of_put_all; [|by apply HP]. rewrite list.Forall_forall in Hpay. apply Hpay. rewrite <- Hr. apply elem_of_app. by left.
Qed.

Lemma promote_each_ok now st gas l : 0 <= int64 (AccountQueue config) -> forall P Q p, pooled [] P Q p -> currentState p = st -> currentMaxGas p = gas ->
  exists P' Q' p', each_account (promote_account now) p l = Some p' /\ pooled [] P' Q' p' /\ quiet P Q p P' Q' p' /\
    (forall a, affordable st gas a (P a) -> affordable st gas a (P' a)) /\ (forall a, a ∈ l \/ affordable st gas a (Q a) -> affordable st gas a (Q' a)).
Proof.
  intros Hc. induction l as [|a l IH]; intros P Q p H Hst Hgas.
  { exists P, Q, p. split_and!; [done|done|apply quiet_refl|done|]. by intros a [?%elem_of_nil|]. }
  rewrite each_cons. destruct (promote_account_ok now P Q p a H Hc) as (ready & k & p1 & -> & Hp). pose proof (promotes_quiet _ _ _ _ _ _ _ H Hp) as Hq1.
  destruct (promotes_affordable _ _ _ _ _ _ _ Hp) as [HaQ HaP]. rewrite Hst, Hgas in *. cbn [mbind option_bind].
  destruct (IH _ _ p1 (pr_pooled _ _ _ _ _ _ _ Hp)) as (P2 & Q2 & p2 & E2 & H2 & Hq2 & HP2 & HQ2); [rewrite <- Hst; apply Hp|rewrite <- Hgas; apply Hp|].
  exists P2, Q2, p2. split_and!; [done|done|by eapply quiet_trans| |].
  - intros b Hb. apply HP2. destruct (decide (b = a)) as [->|Hne]; [rewrite fn_lookup_insert; by apply HaP|by rewrite fn_lookup_insert_ne].
  - intros b Hb. apply HQ2. destruct (decide (b = a)) as [->|Hne]; [right; by rewrite fn_lookup_insert|]. rewrite fn_lookup_insert_ne by done.
    destruct Hb as [[Hb|Hb]%elem_of_cons|]; [done|by left|by right].
Qed.

(** ** The limit of the pending transactions *)

Definition len (l : list Transaction) : Z := Z.of_nat (length l).

Lemma rep_len s o l tl : rep s o l -> o = Some tl -> ListLen tl = len l.
Proof. intros Hr ->. destruct Hr as (_ & [[Hc _ _] _] & _). unfold ListLen, Len. by rewrite (core_size _ _ _ Hc). Qed.
Lemma pending_len_ok D P Q p a : pooled D P Q p -> P a <> [] -> pending_len p a = Some (len (P a)).
Proof.
  intros H Hne. pose proof (po_pending _ _ _ H a) as Hr. unfold pending_len. destruct (pending p !! a) as [tl|] eqn:Ep; [|done].
  cbn. f_equal. eapply rep_len; [exact Hr|done].
Qed.

Abbreviation drop_last := (drop_last (E := E) hash range_hash).
Lemma seqZ_take k c m : 0 <= k <= m -> take (Z.to_nat k) (seqZ c m) = seqZ c k.
Proof. intros Hk. replace m with (k + (m - k)) by lia. rewrite seqZ_app by lia. apply take_app_length'. rewrite length_seqZ. lia. Qed.

Lemma drop_last_ok D P Q p a : pooled D P Q p -> 2 <= len (P a) -> exists p', drop_last p a = Some p' /\
  pooled D (<[a := take (length (P a) - 1) (P a)]> P) Q p' /\ quiet P Q p (<[a := take (length (P a) - 1) (P a)]> P) Q p'.
Proof.
  intros H Hlen. pose proof H as [HP HQ Hc]. unfold Pool.drop_last, len in *. pose proof (HP a) as Hr. destruct (pending p !! a) as [tl|] eqn:Ep; [|cbn in Hr; rewrite Hr in Hlen; done].
  pose proof Hr as (Hs & Hl & Hne). cbn [mbind option_bind]. rewrite (rep_len _ _ _ tl Hr eq_refl). unfold len.
  destruct (ListCap_ok tl (P a) (Z.of_nat (length (P a)) - 1) Hl ltac:(lia)) as (tl' & -> & Hl' & Hs'). cbn [mbind option_bind].
  replace (Z.to_nat (Z.of_nat (length (P a)) - 1)) with (length (P a) - 1)%nat in * by lia. set (k := (length (P a) - 1)%nat) in *.
  destruct (drop k (P a)) as [|tx [|? ?]] eqn:Ed; [apply (f_equal length) in Ed; rewrite length_drop in Ed; cbn in Ed; lia| |apply (f_equal length) in Ed; rewrite length_drop in Ed; cbn in Ed; lia].
  cbn [rev app foldl]. eexists. split; [done|]. assert (P a = take k (P a) ++ [tx]) as HPa by (by rewrite <- Ed, take_drop).
  set (p1 := set_pending (<[a := tl']> (pending p)) p). set (p2 := forget hash range_hash p1 tx). destruct (lower_same p2 a (Nonce tx)) as (L1 & L2 & L3 & L4 & L5 & L6 & L7).
  split.
  - split; [rewrite L1; apply reps_insert; [done|split_and!; [congruence|done|]]|by rewrite L2|].
    + intros E0. apply (f_equal length) in E0. rewrite length_take in E0. cbn in E0. lia.
    + eapply core_fields; [eapply core_perm; [apply (core_drop (fun b => P b ++ Q b) p1 a [tx] (take k (P a) ++ Q a))|]|done|done].
      * by eapply core_fields.
      * rewrite HPa at 1. rewrite <- app_assoc. by rewrite (Permutation_app_swap_app [tx]).
      * intros b. cbn. destruct (decide (b = a)) as [->|Hb]; [by rewrite !fn_lookup_insert|by rewrite !fn_lookup_insert_ne].
  - constructor; [done|done|done|rewrite L6; apply delete_subseteq| |intros b x; destruct (decide (b = a)) as [->|Hb]; [rewrite fn_lookup_insert, !elem_of_app; intros [Hx|]; [left; by apply (take_sub k)|auto]|by rewrite fn_lookup_insert_ne]].
    intros Hex. destruct (Hex a) as [Hrun Hnext].
    assert (Nonce tx = GetNonce (currentState p) a + Z.of_nat k) as Hn.
    { assert ((Nonce <$> P a) !! k = Some (Nonce tx)) as Hat by (rewrite list_lookup_fmap, HPa, list_lookup_middle by (rewrite length_take; lia); done).
      rewrite Hrun in Hat. by apply lookup_seqZ in Hat as [? _]. }
    assert (0 <= Nonce tx < 2 ^ 64) as Hr64. { apply (poolable_nonce (Sender := Sender)). apply (core_poolable _ _ a tx Hc). rewrite HPa. apply elem_of_app. left. apply elem_of_app. right. by left. }
    assert ((ManagedGetNonce (pendingState p2) a >? Nonce tx) = true) as Hgt by (change (pendingState p2) with (pendingState p); rewrite Hnext; lia).
    unfold lower_nonce. rewrite Hgt. cbn. apply (executable_update P p); cbn; [done|done| | |].
    + intros b Hb. rewrite get_set_nonce by done. by rewrite decide_False.
    + rewrite fmap_take, Hrun, length_take, Nat.min_l by lia. rewrite <- (seqZ_take (Z.of_nat k) _ (Z.of_nat (length (P a)))) by lia. by rewrite Nat2Z.id.
    + rewrite get_set_nonce, decide_True by done. rewrite length_take. lia.
Qed.

Abbreviation drop_round := (drop_round (E := E) hash range_hash).
Lemma drop_round_ok D offenders P Q p : pooled D P Q p -> NoDup offenders -> (forall a, a ∈ offenders -> 2 <= len (P a)) ->
  exists P' Q' p', drop_round p offenders = Some p' /\ pooled D P' Q' p' /\ quiet P Q p P' Q' p' /\
    (forall a, a ∈ offenders -> len (P' a) = len (P a) - 1) /\ (forall b, b ∉ offenders -> P' b = P b).
Proof.
  intros H Hn Hlen. destruct (each_in D drop_last quiet (fun _ => True) (fun pa _ => 2 <= len pa) (fun _ pa pa' => len pa' = len pa - 1)) with offenders P Q p as (P' & Q' & p' & E1 & H1 & H2 & H3 & H4); try done.
  - apply quiet_trans.
  - clear dependent P Q p. intros P Q p a H _ Hl. destruct (drop_last_ok D P Q p a H Hl) as (p' & -> & Hp' & Hq). eexists _, Q, p'. split_and!; [done|exact Hp'|done| |].
    + rewrite fn_lookup_insert. unfold len in *. rewrite length_take. lia.
    + intros b Hb. by rewrite fn_lookup_insert_ne.
  - exists P', Q', p'. split_and!; try done. intros b Hb. by apply H4.
Qed.

Abbreviation level := (level (E := E) config hash range_hash).
Lemma level_ok D offenders watch threshold : NoDup offenders -> watch ∈ offenders -> 1 <= threshold -> 0 <= GlobalSlots config ->
  forall fuel P Q p count n, pooled D P Q p -> (forall a, a ∈ offenders -> len (P a) = n) -> 1 <= n -> (Z.to_nat count <= fuel)%nat ->
  exists P' Q' p' count' n', level fuel p count offenders watch threshold = Some (p', count') /\ pooled D P' Q' p' /\ quiet P Q p P' Q' p' /\
    (forall a, a ∈ offenders -> len (P' a) = n') /\ (forall b, b ∉ offenders -> P' b = P b) /\ Z.min n threshold <= n' <= n /\ (count' <= GlobalSlots config \/ n' <= threshold).
Proof.
  intros Hnd Hw Ht Hg. induction fuel as [|fuel IH]; intros P Q p count n H Hlen Hn Hf; cbn [Pool.level].
  all: destruct (Z.gtb_spec count (GlobalSlots config)) as [Hc|Hc];
    [|exists P, Q, p, count, n; split_and!; [done|done|apply quiet_refl|done|done|lia|lia|left; lia]].
  all: rewrite (pending_len_ok D P Q p watch H) by (intros E0; specialize (Hlen watch Hw); rewrite E0 in Hlen; unfold len in Hlen; cbn in Hlen; lia);
    cbn [mbind option_bind]; rewrite (Hlen watch Hw); destruct (Z.gtb_spec n threshold) as [Hnt|Hnt];
    [|exists P, Q, p, count, n; split_and!; [done|done|apply quiet_refl|done|done|lia|lia|right; lia]].
  { lia. }
  destruct (drop_round_ok D offenders P Q p H Hnd) as (P1 & Q1 & p1 & -> & H1 & Hq1 & Hl1 & Ho1); [intros a Ha; rewrite (Hlen a Ha); lia|]. cbn [mbind option_bind].
  assert (1 <= Z.of_nat (length offenders)) as Hlo by (destruct offenders; [by apply elem_of_nil in Hw|cbn; lia]).
  destruct (IH P1 Q1 p1 (count - Z.of_nat (length offenders)) (n - 1) H1) as (P2 & Q2 & p2 & count2 & n2 & E2 & H2 & Hq2 & Hl2 & Ho2 & Hn2 & Hd2); [|lia|lia|].
  { intros a Ha. rewrite (Hl1 a Ha), (Hlen a Ha). done. }
  exists P2, Q2, p2, count2, n2. split_and!; [done|done|by eapply quiet_trans|done| |lia|lia|done]. intros b Hb. rewrite (Ho2 b Hb). by apply Ho1.
Qed.

(** The accounts with the longest lists come first. *)
Definition priority (i : Prque.item) : Z := - i.2.
Lemma less_prque_key a b : True -> True -> Prque.less_prque a b = (priority a <? priority b).
Proof. intros _ _. unfold Prque.less_prque, priority. destruct (Z.gtb_spec a.2 b.2); lia. Qed.
Lemma any_item (h : list Prque.item) : Forall (fun _ => True) h.
Proof. by apply Forall_true. Qed.

Lemma prque_pop (q : list Prque.item) i k : is_heap priority q -> q = i :: k -> exists q', Prque.Pop q = Some (i.1, q') /\ is_heap priority q' /\ q ≡ₚ i :: q' /\
  (forall j, j ∈ q' -> j.2 <= i.2) /\ (length q' < length q)%nat.
Proof.
  intros Hh Eq. destruct (Pop_ok Prque.less_prque priority _ less_prque_key q i (any_item _) Hh) as (q' & E1 & Hh' & Hp & Hm); [by rewrite Eq|].
  exists q'. unfold Prque.Pop. rewrite E1. split_and!; try done.
  - intros j Hj. rewrite list.Forall_forall in Hm. specialize (Hm j Hj). unfold priority in Hm. lia.
  - rewrite (Permutation_length Hp). cbn. lia.
Qed.

(** All offenders have lists of the same length, and no account of the queue has a
    longer one. *)
Definition levelled (P : Address -> list Transaction) (offenders : list Address) (spammers : list Prque.item) : Prop :=
  exists n, 1 <= n /\ (forall o, o ∈ offenders -> len (P o) = n) /\ (forall i, i ∈ spammers -> i.2 <= n).

Abbreviation equalize := (equalize (E := E) config hash range_hash).

(** One more offender. *)
Lemma offend_ok D P Q p count offenders (i : Prque.item) : 0 <= GlobalSlots config -> pooled D P Q p -> NoDup (offenders ++ [i.1]) ->
  i.2 = len (P i.1) -> 1 <= i.2 -> levelled P offenders [i] ->
  exists P' Q' p' count', (match list.last offenders with
      | None => Some (p, count)
      | Some watch => threshold ← pending_len p i.1; level (Z.to_nat count) p count offenders watch threshold
      end) = Some (p', count') /\ pooled D P' Q' p' /\ quiet P Q p P' Q' p' /\ (forall b, b ∉ offenders -> P' b = P b) /\
    (count' <= GlobalSlots config \/ forall o, o ∈ offenders ++ [i.1] -> len (P' o) = i.2).
Proof.
  intros Hg H Hnd Hi H1 (n & Hn & Hlen & Hle). specialize (Hle i ltac:(by left)). apply list.NoDup_app in Hnd as (Hnd & Hout & _).
  assert (i.1 ∉ offenders) as Hio by (intros Ho; apply (Hout _ Ho); by left).
  destruct (list.last offenders) as [watch|] eqn:El.
  - apply last_Some_elem_of in El. rewrite (pending_len_ok D P Q p i.1 H) by (intros E0; rewrite E0 in Hi; unfold len in Hi; cbn in Hi; lia). cbn [mbind option_bind].
    destruct (level_ok D offenders watch (len (P i.1)) Hnd El ltac:(lia) Hg (Z.to_nat count) P Q p count n H Hlen Hn ltac:(lia))
      as (P1 & Q1 & p1 & count1 & n1 & -> & H2 & Hq & Hl & Ho & Hr & Hd). exists P1, Q1, p1, count1. split_and!; try done.
    destruct Hd as [|Hd]; [by left|]. right. intros o [Ho'|Ho'%list_elem_of_singleton]%elem_of_app; [rewrite (Hl o Ho'); lia|]. subst o. by rewrite (Ho _ Hio).
  - apply last_None in El as ->. exists P, Q, p, count. split_and!; [done|done|apply quiet_refl|done|]. right. intros o Ho%list_elem_of_singleton. by subst o.
Qed.
Lemma equalize_ok D : 0 <= GlobalSlots config -> forall fuel P Q p count spammers offenders, pooled D P Q p -> is_heap priority spammers -> NoDup (offenders ++ spammers.*1) ->
  (forall i, i ∈ spammers -> i.2 = len (P i.1) /\ 1 <= i.2) -> count <= GlobalSlots config \/ levelled P offenders spammers -> (length spammers <= fuel)%nat ->
  exists P' Q' p' count' offenders', equalize fuel p count spammers offenders = Some (p', count', offenders') /\ pooled D P' Q' p' /\ quiet P Q p P' Q' p' /\ NoDup offenders' /\
    (count' <= GlobalSlots config \/ levelled P' offenders' []).
Proof.
  intros Hg. induction fuel as [|fuel IH]; intros P Q p count spammers offenders H Hh Hnd Hsp Hlv Hf.
  all: assert (NoDup offenders) as Hnd' by (by apply list.NoDup_app in Hnd as [? _]).
  all: assert (count <= GlobalSlots config \/ levelled P offenders []) as Hlv' by
    (destruct Hlv as [|(n & Hn & Hl & _)]; [by left|right; exists n; split_and!; [done|done|by intros ? ?%elem_of_nil]]).
  { cbn [Pool.equalize]. exists P, Q, p, count, offenders. by split_and!. }
  cbn [Pool.equalize]. destruct spammers as [|i k] eqn:Es; [exists P, Q, p, count, offenders; by split_and!|]. rewrite <- Es in *.
  destruct (Z.gtb_spec count (GlobalSlots config)) as [Hc|Hc]; [|exists P, Q, p, count, offenders; by split_and!].
  destruct (prque_pop spammers i k Hh Es) as (q & -> & Hh' & Hp & Hmax & Hlen). cbn [mbind option_bind].
  assert (i ∈ spammers) as Hi by (rewrite Es; by left). destruct (Hsp i Hi) as [Hi1 Hi2]. destruct Hlv as [|(n & Hn & Hl & Hle)]; [lia|].
  rewrite Hp in Hnd. cbn in Hnd. rewrite cons_middle, app_assoc in Hnd.
  destruct (offend_ok D P Q p count offenders i Hg H) as (P1 & Q1 & p1 & count1 & -> & H1 & Hq1 & Ho1 & Hd1);
    [by apply list.NoDup_app in Hnd as [? _]|done|done|exists n; split_and!; [done|done|]; intros j ->%list_elem_of_singleton; by apply Hle|].
  cbn [mbind option_bind]. assert (forall j, j ∈ q -> j ∈ spammers) as Hq by (intros j Hj; rewrite Hp; by right).
  destruct (IH P1 Q1 p1 count1 q (offenders ++ [i.1]) H1 Hh' Hnd) as (P2 & Q2 & p2 & count2 & off2 & E2 & H2 & Hq2 & Hn2 & Hd2); [| |lia|].
  - intros j Hj. destruct (Hsp j (Hq j Hj)) as [Hj1 Hj2]. rewrite Ho1; [done|]. intros Hjo. apply list.NoDup_app in Hnd as (_ & Hnd & _).
    apply (Hnd j.1); [apply elem_of_app; by left|by apply list_elem_of_fmap_2].
  - destruct Hd1 as [|Hd1]; [by left|]. right. exists i.2. split_and!; [done|done|done].
  - exists P2, Q2, p2, count2, off2. split_and!; [done|done|by eapply quiet_trans|done|done].
Qed.

Lemma listed_size D P Q p a : pooled D P Q p -> (length (P a) <= size (all p))%nat.
Proof.
  intros [_ _ H]. rewrite <- (length_fmap hash). assert (NoDup (hash <$> P a)) as Hnd.
  { pose proof (co_nonces _ _ H a) as Hn. cbn in Hn. rewrite fmap_app in Hn. apply list.NoDup_app in Hn as [Hn _].
    apply list.NoDup_fmap_2_strong; [|by eapply list.NoDup_fmap_1]. intros x y Hx Hy. apply (core_hash _ _ a a x y H); apply elem_of_app; by left. }
  rewrite <- (size_list_to_set (C := gset Hash)) by done. rewrite <- (size_dom (all p)). apply subseteq_size. intros h Hh%elem_of_list_to_set.
  apply list_elem_of_fmap in Hh as (x & -> & Hx). apply elem_of_dom. exists x. apply (core_all _ _ a x H). apply elem_of_app. by left.
Qed.
Lemma float32_exact n : n < 2 ^ 24 -> Prque.float32 n = n.
Proof. intros Hn. unfold Prque.float32. by rewrite (proj2 (Z.ltb_lt _ _)). Qed.

Abbreviation spammers_of := (spammers_of (S := S) config range_list).
Lemma spammers_ok D P Q p : pooled D P Q p -> Z.of_nat (size (all p)) < 2 ^ 24 -> 1 <= AccountSlots config ->
  is_heap priority (spammers_of p) /\ NoDup (spammers_of p).*1 /\ forall i, i ∈ spammers_of p -> i.2 = len (P i.1) /\ 1 <= i.2.
Proof.
  intros H Hsz Hslots. unfold Pool.spammers_of. set (q0 := []). assert (forall e, e ∈ range_list (pending p) -> pending p !! e.1 = Some e.2) as Hin.
  { intros [a tl] Hx. rewrite range_perm in Hx. by apply elem_of_map_to_list in Hx. }
  assert (NoDup ((range_list (pending p)).*1 ++ q0.*1)) as Hnd by (cbn; rewrite app_nil_r, range_perm; apply NoDup_fst_map_to_list).
  assert (is_heap priority q0) as Hh by (intros x Hx; cbn in Hx; lia). assert (forall i, i ∈ q0 -> i.2 = len (P i.1) /\ 1 <= i.2) as Hq by (by intros i ?%elem_of_nil).
  clearbody q0. revert q0 Hnd Hh Hq. induction (range_list (pending p)) as [|[a tl] l IH]; intros q Hnd Hh Hq; [done|]. cbn [foldl].
  rewrite fmap_cons in Hnd. cbn [app fst] in Hnd. apply list.NoDup_cons in Hnd as [Ha Hnd]. specialize (IH ltac:(intros e He; apply Hin; by right)).
  destruct (_ && _) eqn:Ec; [|by apply IH]. apply andb_true_iff in Ec as [_ Ec].
  pose proof (rep_len _ _ _ tl (po_pending _ _ _ H a) (Hin (a, tl) ltac:(by left))) as El. cbn [fst snd] in *. rewrite El in *.
  pose proof (listed_size D P Q p a H) as Hls. rewrite float32_exact by (unfold len; lia). unfold Prque.Push. apply IH.
  - rewrite (Push_perm Prque.less_prque). cbn. rewrite <- Permutation_middle. by apply list.NoDup_cons.
  - apply (Push_ok Prque.less_prque priority _ less_prque_key); [apply any_item|done].
  - intros i Hi. rewrite Push_perm in Hi. apply elem_of_cons in Hi as [->|Hi]; [|by apply Hq]. cbn. split; [done|]. destruct (Z.gtb_spec (len (P a)) (AccountSlots config)); [lia|done].
Qed.

Abbreviation limit_pending := (limit_pending (E := E) config hash range_hash range_list).
Lemma limit_pending_ok D P Q p : pooled D P Q p -> Z.of_nat (size (all p)) < 2 ^ 24 -> 1 <= AccountSlots config -> 0 <= GlobalSlots config ->
  exists P' Q' p', limit_pending p = Some p' /\ pooled D P' Q' p' /\ quiet P Q p P' Q' p'.
Proof.
  intros H Hsz Hs Hg. unfold Pool.limit_pending. destruct (_ >? _); [|by exists P, Q, p]. destruct (spammers_ok D P Q p H Hsz Hs) as (Hh & Hnd & Hsp).
  destruct (equalize_ok D Hg (length (spammers_of p)) P Q p (count_lists range_list (pending p)) (spammers_of p) [] H Hh Hnd Hsp) as (P1 & Q1 & p1 & count1 & off & -> & H1 & Hq1 & Hnd1 & Hd1); [|done|].
  - right. exists (Z.max 1 (foldr (fun i n => Z.max i.2 n) 0 (spammers_of p))). split_and!; [lia|by intros ? ?%elem_of_nil|].
    intros i Hi. assert (i.2 <= foldr (fun i n => Z.max i.2 n) 0 (spammers_of p)); [|lia]. clear - Hi. induction (spammers_of p) as [|j l IH]; [by apply elem_of_nil in Hi|].
    cbn. apply elem_of_cons in Hi as [->|Hi]; [lia|]. specialize (IH Hi). lia.
  - cbn [mbind option_bind]. destruct (list.last off) as [watch|] eqn:El; [|by exists P1, Q1, p1]. apply last_Some_elem_of in El.
    destruct Hd1 as [Hc|(n & Hn & Hl & _)].
    + exists P1, Q1, p1. split_and!; try done. destruct (Z.to_nat count1); cbn [Pool.level]; (destruct (Z.gtb_spec count1 (GlobalSlots config)); [lia|done]).
    + destruct (level_ok D off watch (AccountSlots config) Hnd1 El Hs Hg (Z.to_nat count1) P1 Q1 p1 count1 n H1 Hl Hn ltac:(lia)) as (P2 & Q2 & p2 & count2 & n2 & -> & H2 & Hq2 & _).
      exists P2, Q2, p2. split_and!; [done|done|by eapply quiet_trans].
Qed.

(** ** The limit of the queued transactions *)

Lemma flatten_rep s tl l : rep s (Some tl) l -> exists tl', ListFlatten range_nonce tl = (l, tl') /\ rep s (Some tl') l.
Proof.
  intros (Hs & Hl & Hne). destruct (ListFlatten_ok range_nonce range_perm tl l Hl) as (tl' & -> & Hl' & Hs'). exists tl'. split; [done|]. split_and!; [congruence|done|done].
Qed.
Lemma reps_same s m L a tl : reps s m L -> rep s (Some tl) (L a) -> reps s (<[a := tl]> m) L.
Proof.
  intros H Hr. eapply reps_ext; [by apply (reps_insert s m L a tl (L a))|]. intros b. destruct (decide (b = a)) as [->|Hne]; [by rewrite fn_lookup_insert|by rewrite fn_lookup_insert_ne].
Qed.
Lemma remove_listed D P Q p a txs : pooled D P Q p -> (forall tx, tx ∈ txs -> tx ∈ P a ++ Q a) ->
  exists P' Q' p', remove_all p txs = Some p' /\ pooled D P' Q' p' /\ quiet P Q p P' Q' p' /\ (forall b, b <> a -> P' b = P b /\ Q' b = Q b).
Proof.
  intros H Hin. destruct (remove_all_ok (config := config) (range_nonce := range_nonce) (range_hash := range_hash) txs P Q p H) as (P' & Q' & p' & E1 & H1 & Hq & _ & Ho).
  exists P', Q', p'. split_and!; [done|done|done|]. intros b Hb. apply Ho.
  - intros tx Hx <-. apply Hb. apply (core_sender _ _ _ _ (po_core _ _ _ H)). by apply Hin.
  - intros h y Hy tx Hx Eh. pose proof (core_all _ _ _ _ (po_core _ _ _ H) (Hin tx Hx)) as Ha. rewrite Eh in Ha. congruence.
Qed.

(** The queue of an account is flattened and some of it removed. *)
Lemma remove_queue_ok D P Q p a tl (take_ : list Transaction -> list Transaction) : pooled D P Q p -> queue p !! a = Some tl -> (forall l, take_ l ⊆ l) ->
  exists tl' P' Q' p', ListFlatten range_nonce tl = (Q a, tl') /\ remove_all (set_queue (<[a := tl']> (queue p)) p) (take_ (Q a)) = Some p' /\ pooled D P' Q' p' /\ quiet P Q p P' Q' p' /\
    (forall b, b <> a -> P' b = P b /\ Q' b = Q b).
Proof.
  intros H Eq Hsub. pose proof (po_queue _ _ _ H a) as Hr. rewrite Eq in Hr. destruct (flatten_rep false tl (Q a) Hr) as (tl' & Ef & Hr').
  set (p1 := set_queue (<[a := tl']> (queue p)) p). assert (pooled D P Q p1) as H1. { destruct H as [HP HQ Hc]. split; [done|by apply reps_same|by eapply core_fields]. }
  destruct (remove_listed D P Q p1 a (take_ (Q a)) H1) as (P' & Q' & p' & E1 & H2 & Hq & Ho); [intros tx Hx; apply elem_of_app; right; by apply Hsub|].
  exists tl', P', Q', p'. split_and!; [done|done|done| |done]. by destruct Hq.
Qed.

Abbreviation drop_queued := (drop_queued (E := E) config hash Sender range_nonce range_hash).
Lemma drop_queued_ok D addresses : forall P Q p count, pooled D P Q p -> NoDup addresses.*1 -> (forall e, e ∈ addresses -> Q e.1 <> []) ->
  exists P' Q' p', drop_queued p count addresses = Some p' /\ pooled D P' Q' p' /\ quiet P Q p P' Q' p'.
Proof.
  induction addresses as [|[a t] addresses IH]; intros P Q p count H Hnd Hne; cbn [Pool.drop_queued]; [by exists P, Q, p|]. destruct (_ >? 0); [|by exists P, Q, p].
  pose proof (po_queue _ _ _ H a) as Hr. destruct (queue p !! a) as [tl|] eqn:Eq; [|by specialize (Hne (a, t) ltac:(by left))]. cbn [mbind option_bind].
  cbn in Hnd. apply list.NoDup_cons in Hnd as [Ha Hnd].
  assert (forall take_ : list Transaction -> list Transaction, (forall l, take_ l ⊆ l) -> forall n, exists P' Q' p', (let (txs, tl') := ListFlatten range_nonce tl in
    p1 ← remove_all (set_queue (<[a := tl']> (queue p)) p) (take_ txs); drop_queued p1 (n txs) addresses) = Some p' /\ pooled D P' Q' p' /\ quiet P Q p P' Q' p') as Hstep.
  { intros take_ Ht n. destruct (remove_queue_ok D P Q p a tl take_ H Eq Ht) as (tl' & P1 & Q1 & p1 & -> & -> & H1 & Hq1 & Ho1). cbn [mbind option_bind].
    destruct (IH P1 Q1 p1 (n (Q a)) H1 Hnd) as (P2 & Q2 & p2 & -> & H2 & Hq2).
    - intros e He. destruct (Ho1 e.1) as [_ ->]; [|apply Hne; by right]. intros Ee. apply Ha. rewrite <- Ee. by apply list_elem_of_fmap_2.
    - exists P2, Q2, p2. split_and!; [done|done|by eapply quiet_trans]. }
  destruct (ListLen tl <=? count).
  - destruct (Hstep (fun l => l) ltac:(done) (fun _ => count - ListLen tl)) as (P' & Q' & p' & Es & Hp'). exists P', Q', p'. by destruct (ListFlatten range_nonce tl).
  - destruct (Hstep (fun l => take (Z.to_nat count) (rev l)) ltac:(intros l; etrans; [apply take_sub|]; intros x Hx; by rewrite <- Permutation_rev in Hx)
      (fun l => count - Z.of_nat (length (take (Z.to_nat count) (rev l))))) as (P' & Q' & p' & Es & Hp'). exists P', Q', p'. by destruct (ListFlatten range_nonce tl).
Qed.

Abbreviation limit_queued := (limit_queued (E := E) config hash Sender range_nonce range_hash range_list).
Lemma limit_queued_ok D P Q p : pooled D P Q p -> exists P' Q' p', limit_queued p = Some p' /\ pooled D P' Q' p' /\ quiet P Q p P' Q' p'.
Proof.
  intros H. unfold Pool.limit_queued. destruct (_ >? _); [|by exists P, Q, p]. set (addrs := List.filter (fun a => negb (contains p a)) (range_list (queue p)).*1).
  assert (rev (by_heartbeat range_list p) ≡ₚ (fun a => (a, default 0 (beats p !! a))) <$> addrs) as Hp by (unfold by_heartbeat; by rewrite <- Permutation_rev, sort_by_perm).
  apply (drop_queued_ok D _ P Q); [done| |].
  - rewrite Hp, <- list_fmap_compose. cbn. rewrite list_fmap_id. apply lfilter_nodup. rewrite range_perm. apply NoDup_fst_map_to_list.
  - intros e He. rewrite Hp in He. apply list_elem_of_fmap in He as (a & -> & Ha). cbn. unfold addrs in Ha. apply elem_of_lfilter in Ha as [Ha _].
    apply list_elem_of_fmap in Ha as ([a' tl] & -> & Ha). rewrite range_perm in Ha. apply elem_of_map_to_list in Ha. pose proof (po_queue _ _ _ H a') as Hr. rewrite Ha in Hr. apply Hr.
Qed.

Abbreviation promoteExecutables := (promoteExecutables (E := E) config hash Sender range_nonce range_hash range_list).
(** What the configuration has to be. *)
Record config_ok : Prop := {
  cf_queue : 0 <= int64 (AccountQueue config);
  cf_slots : 1 <= AccountSlots config;
  cf_global : 0 <= GlobalSlots config;
}.
Lemma promoteExecutables_ok now P Q p accounts : config_ok -> pooled [] P Q p -> Z.of_nat (size (all p)) < 2 ^ 24 ->
  exists P' Q' p', promoteExecutables now p accounts = Some p' /\ pooled [] P' Q' p' /\ quiet P Q p P' Q' p' /\
    (accounts = None -> (forall a, affordable (currentState p) (currentMaxGas p) a (P a)) -> forall a, affordable (currentState p) (currentMaxGas p) a (P' a ++ Q' a)).
Proof.
  intros [Hc Hs Hg] H Hsz. unfold Pool.promoteExecutables. set (l := match accounts with Some _ => _ | None => _ end).
  destruct (promote_each_ok now (currentState p) (currentMaxGas p) l Hc P Q p H eq_refl eq_refl) as (P1 & Q1 & p1 & -> & H1 & Hq1 & HP1 & HQ1). cbn [mbind option_bind].
  destruct (limit_pending_ok [] P1 Q1 p1 H1) as (P2 & Q2 & p2 & -> & H2 & Hq2); [pose proof (map_subseteq_size _ _ (qu_all _ _ _ _ _ _ Hq1)); lia|done|done|]. cbn [mbind option_bind].
  destruct (limit_queued_ok [] P2 Q2 p2 H2) as (P3 & Q3 & p3 & -> & H3 & Hq3). exists P3, Q3, p3. pose proof (quiet_trans _ _ _ _ _ _ _ _ _ Hq2 Hq3) as Hq23.
  split_and!; [done|done|by eapply quiet_trans|]. intros -> HP a. eapply affordable_sub; [|apply Hq23]. apply Forall_app. split; [by apply HP1|]. apply HQ1.
  destruct (decide (a ∈ l)) as [|Hnl]; [by left|]. right. destruct (Q a) as [|tx k] eqn:Ea; [constructor|]. destruct Hnl. unfold l.
  pose proof (po_queue _ _ _ H a) as Hr. destruct (queue p !! a) as [tl|] eqn:Eq; [|cbn in Hr; congruence]. apply list_elem_of_fmap. exists (a, tl). split; [done|].
  rewrite range_perm. by apply elem_of_map_to_list.
Qed.
End Steps.
