(* ===== verification/TxPoolReset.v ===== *)
(** The pool on a new head of the chain: demotion, reorganisations, eviction and
    whole histories of the pool. *)

From S2P Require Import Prelude BigMath VmData GoHeap TxTypes TxList TxListSpec TxListRefine TxPriced TxByPrice Ota Transition TxPool TxPoolInv TxPoolSteps.
From stdpp Require Import functions.
Import Big Common Addr Tx Managed Pool TxList.

Local Open Scope Z_scope.

Section Reset.
Context {S E : Type} `{!PoolState S E}.
Context {config : TxPoolConfig}.
Context {hash : Transaction -> Hash} {Size : Transaction -> Z} {Sender : Transaction -> option Address}.
Context {range_nonce : gmap Z Transaction -> list (Z * Transaction)}.
Context {range_hash : gmap Hash Transaction -> list (Hash * Transaction)}.
Context {range_list : gmap Address txList -> list (Address * txList)}.
Context {range_txs : gmap Address (list Transaction) -> list (Address * list Transaction)}.
Context {range_addr : gset Address -> list Address}.
Context `{!Ranges range_nonce, !Ranges range_hash, !Ranges range_list, !Ranges range_txs}.
Implicit Types p : TxPool S.

Abbreviation pooled D := (pooled (hash := hash) (Sender := Sender) (D := D)).
Abbreviation core D := (TxPoolInv.core (hash := hash) (Sender := Sender) (D := D)).
Abbreviation forget_all := (forget_all hash range_hash).

(** ** Demotion *)

(** What demotion leaves alone. *)
Record calm p p' : Prop := {
  cl_state : currentState p' = currentState p;
  cl_gas : currentMaxGas p' = currentMaxGas p;
  cl_locals : locals p' = locals p;
  cl_nonces : pendingState p' = pendingState p;
  cl_all : all p' ⊆ all p;
}.
Lemma calm_refl p : calm p p.
Proof. by constructor. Qed.
Lemma calm_trans p p' p'' : calm p p' -> calm p' p'' -> calm p p''.
Proof. intros [] []. constructor; [congruence..|by etrans]. Qed.
Lemma same_lists_calm p p' : same_lists p p' -> calm p p'.
Proof. by intros []. Qed.
Lemma same_pending_calm p p' : same_pending p p' -> calm p p'.
Proof. intros []. constructor; try done. apply reflexive_eq. congruence. Qed.

Abbreviation prune_pending := (prune_pending (E := E) config hash Sender range_nonce range_hash).
Lemma prune_pending_ok D P Q p a tl : pooled D P Q p -> strict tl = true -> lists tl (P a) ->
  exists p' tl' l k, prune_pending p a tl = Some (p', tl') /\ lists tl' l /\ strict tl' = true /\
    core D (<[a := l ++ k]> (fun b => P b ++ Q b)) p' /\ reps false (queue p') (<[a := k]> Q) /\ pending p' = pending p /\ calm p p' /\
    l `prefix_of` List.filter (not_low (GetNonce (currentState p) a)) (P a) /\ Forall (payable p a) l.
Proof.
  intros Hpo Hs Hl. unfold Pool.prune_pending. pose proof (pooled_hand_pending P Q p a Hpo) as H0.
  destruct (ListForward_ok tl (P a) (GetNonce (currentState p) a) Hl) as (tl1 & -> & Hl1 & Hs1). cbn [mbind option_bind].
  set (old := List.filter (low _) (P a)). set (l1 := List.filter (not_low _) (P a)) in *.
  pose proof (hand_drop _ a (Q a) (P a) l1 old p H0 (lfilter_parts _ _)) as H1. pose proof (forget_same (hash := hash) (range_hash := range_hash) p old) as F1. set (p1 := forget_all p old) in *.
  destruct (ListFilter_ok range_nonce range_perm tl1 l1 (GetBalance (currentState p1) a) (currentMaxGas p1) Hl1) as (drops & inv & tl2 & -> & Hd & Hl2 & Hs2 & Hp2).
  cbn [mbind option_bind]. rewrite Hs1, Hs in *. set (l2 := left_by true _ l1) in *.
  assert (List.filter is_charged drops = drops) as ->.
  { apply lfilter_all. intros x Hx. rewrite Hd in Hx. apply elem_of_lfilter in Hx as [_ Hx]. unfold tooCostly in Hx. by apply andb_true_iff in Hx as [? _]. }
  pose proof (hand_drop _ a (Q a) l1 (inv ++ l2) drops p1 H1 Hp2) as H2. pose proof (same_lists_trans _ _ _ F1 (forget_same (hash := hash) (range_hash := range_hash) p1 drops)) as F2. set (p2 := forget_all p1 drops) in *.
  assert (NoDup (Nonce <$> (inv ++ Q a))) as Hnd.
  { pose proof (co_nonces _ _ H2 a) as Hn. rewrite fn_lookup_insert, <- app_assoc, (Permutation_app_swap_app inv), fmap_app in Hn. by apply list.NoDup_app in Hn as (_ & _ & ?). }
  destruct (enqueue_all_held (E := E) (config := config) (range_hash := range_hash) _ a inv Q p2 H2) as (H3 & HQ3 & F3); [rewrite (sl_queue _ _ F2); intros b; apply Hpo|intros x Hx; rewrite fn_lookup_insert, !elem_of_app; auto|done|].
  set (p3 := enqueue_all _ _ _ _ p2 inv) in *. set (k := put_all (Q a) inv) in *.
  assert (core D (<[a := l2 ++ k]> (fun b => P b ++ Q b)) p3) as H3'.
  { eapply core_perm; [exact H3|]. intros b. destruct (decide (b = a)) as [->|Hb]; [|by rewrite !fn_lookup_insert_ne]. rewrite !fn_lookup_insert. unfold k. rewrite (put_all_perm _ _ Hnd).
    by rewrite <- app_assoc, (Permutation_app_swap_app inv). }
  destruct (hand_drop_invalid (range_nonce := range_nonce) (range_hash := range_hash) _ a k true l2 p3 tl2 H3' Hl2 Hs2) as (p4 & tl4 & l4 & -> & Hl4 & Hs4 & Hk4 & H4 & F4).
  exists p4, tl4, l4, k. split_and!; [done|done|done|done|by rewrite (sl_queue _ _ F4)| | | |].
  - rewrite (sl_pending _ _ F4), (sp_pending _ _ F3). apply F2.
  - eapply calm_trans; [eapply calm_trans|]; [by apply same_lists_calm|by apply same_pending_calm|by apply same_lists_calm].
  - etrans; [exact Hk4|]. apply (kept_left_by true).
  - rewrite list.Forall_forall. intros x Hx. assert (x ∈ l2) as Hx2 by (eapply sublist_elem; [by apply (kept_sublist true)|done]).
    pose proof (left_by_ok _ _ _ _ Hx2) as Hc. rewrite (sl_state _ _ F1), (sl_gas _ _ F1) in Hc. split; [|done].
    assert (x ∈ l1) as Hx1 by (by apply (left_by_sub _ _ _ _ Hx2)). unfold l1 in Hx1. apply elem_of_lfilter in Hx1 as [_ Hn]. unfold not_low in Hn.
    destruct (Z.ltb_spec (Nonce x) (GetNonce (currentState p) a)); [done|lia].
Qed.

(** What is left of a pending list on the state [st]. *)
Record demoted (st : S) (gas : Z) (a : Address) (l l' : list Transaction) : Prop := {
  de_prefix : l' `prefix_of` List.filter (not_low (GetNonce st a)) l;
  de_first : forall tx k, l' = tx :: k -> Nonce tx = GetNonce st a;
  de_payable : Forall (fun tx => GetNonce st a <= Nonce tx /\ tooCostly (GetBalance st a) gas tx = false) l';
}.

Lemma first_nonce tl l n tx k : lists tl l -> Forall (fun tx => n <= Nonce tx) l -> Get (txs tl) n <> None -> l = tx :: k -> Nonce tx = n.
Proof.
  intros [Hm _] F Hg ->. destruct (Get (txs tl) n) as [t|] eqn:Et; [|done]. apply (SortedGet_ok _ _ _ _ Hm) in Et as [Ht En].
  pose proof (co_ordered _ _ _ (rp_core _ _ Hm)) as [Ho Hf]%ordered_cons. rewrite list.Forall_forall in Hf, F. pose proof (F tx ltac:(by left)) as Hx.
  apply elem_of_cons in Ht as [->|Ht]; [done|]. specialize (Hf t Ht). lia.
Qed.

Abbreviation close_gap := (close_gap (E := E) config hash Sender range_hash).
Lemma close_gap_ok D P Q p a p1 tl l k : calm p p1 -> lists tl l -> strict tl = true -> core D (<[a := l ++ k]> (fun b => P b ++ Q b)) p1 ->
  reps false (queue p1) (<[a := k]> Q) -> pending p1 = pending p -> l `prefix_of` List.filter (not_low (GetNonce (currentState p) a)) (P a) -> Forall (payable p a) l ->
  exists p' tl' l' k', close_gap p1 tl (GetNonce (currentState p) a) = Some (p', tl') /\ lists tl' l' /\ strict tl' = true /\
    core D (<[a := l' ++ k']> (fun b => P b ++ Q b)) p' /\ reps false (queue p') (<[a := k']> Q) /\ pending p' = pending p /\ calm p p' /\
    demoted (currentState p) (currentMaxGas p) a (P a) l'.
Proof.
  intros Hc1 Hl1 Hs1 H1 HQ1 Hp1 Hpre Hpay. unfold Pool.close_gap.
  assert (Forall (fun tx => GetNonce (currentState p) a <= Nonce tx) l) as F by (eapply list.Forall_impl; [exact Hpay|]; by intros x []).
  destruct (0 <? ListLen tl) eqn:Elen; cbn [andb]; [case_bool_decide as Eg|].
  - destruct (ListCap_ok tl l 0 Hl1 ltac:(done)) as (tl2 & -> & Hl2 & Hs2). cbn [mbind option_bind]. change (Z.to_nat 0) with 0%nat in *. rewrite drop_0 in *. rewrite take_0 in Hl2.
    assert (NoDup (Nonce <$> (rev l ++ k))) as Hnd. { pose proof (co_nonces _ _ H1 a) as Hn. rewrite fn_lookup_insert in Hn. by rewrite <- Permutation_rev. }
    destruct (enqueue_all_held (E := E) (config := config) (range_hash := range_hash) _ a (rev l) _ p1 H1 HQ1) as (H2 & HQ2 & F2).
    { intros x Hx. rewrite fn_lookup_insert. apply elem_of_app. left. by rewrite <- Permutation_rev in Hx. }
    { by rewrite fn_lookup_insert. }
    rewrite fn_lookup_insert in HQ2. eexists _, tl2, [], (put_all k (rev l)). split_and!; [done|done|congruence| | | | |].
    + eapply core_perm; [exact H2|]. intros b. destruct (decide (b = a)) as [->|Hb]; [|by rewrite !fn_lookup_insert_ne]. rewrite !fn_lookup_insert, (put_all_perm _ _ Hnd). cbn.
      by rewrite <- Permutation_rev.
    + eapply reps_ext; [exact HQ2|]. intros b. destruct (decide (b = a)) as [->|Hb]; [by rewrite !fn_lookup_insert|by rewrite !fn_lookup_insert_ne].
    + by rewrite (sp_pending _ _ F2).
    + eapply calm_trans; [exact Hc1|by apply same_pending_calm].
    + constructor; [apply prefix_nil|done|constructor].
  - eexists p1, tl, l, k. split_and!; try done. constructor; [done| |done]. intros tx j El. by eapply first_nonce.
  - eexists p1, tl, l, k. split_and!; try done. constructor; [done| |done]. intros tx j El.
    exfalso. apply Z.ltb_ge in Elen. destruct Hl1 as [[Hc _ _] _]. unfold ListLen, Len in Elen. rewrite (core_size _ _ _ Hc), El in Elen. cbn in Elen. lia.
Qed.

Abbreviation demote_account := (demote_account (E := E) config hash Sender range_nonce range_hash).
Lemma demote_account_ok D P Q p a : pooled D P Q p -> P a <> [] ->
  exists P' Q' p', demote_account p a = Some p' /\ pooled D P' Q' p' /\ calm p p' /\ demoted (currentState p) (currentMaxGas p) a (P a) (P' a) /\
    (forall b, b <> a -> P' b = P b /\ Q' b = Q b).
Proof.
  intros Hpo Hne. pose proof (po_pending _ _ _ Hpo a) as Hr. unfold Pool.demote_account. destruct (pending p !! a) as [tl|] eqn:Ep; [|done]. destruct Hr as (Hs & Hl & _).
  cbn [mbind option_bind]. destruct (prune_pending_ok D P Q p a tl Hpo Hs Hl) as (p1 & tl1 & l & k & -> & Hl1 & Hs1 & H1 & HQ1 & Hp1 & Hc1 & Hpre & Hpay). cbn [mbind option_bind].
  destruct (close_gap_ok D P Q p a p1 tl1 l k Hc1 Hl1 Hs1 H1 HQ1 Hp1 Hpre Hpay) as (p2 & tl2 & l2 & k2 & -> & Hl2 & Hs2 & H2 & HQ2 & Hp2 & Hc2 & Hde).
  cbn [mbind option_bind]. eexists (<[a := l2]> P), (<[a := k2]> Q), _. split; [done|].
  pose proof (reps_store true (pending p) P a tl2 l2 ltac:(intros b; apply Hpo) Hs2 Hl2) as Hst. split_and!.
  - destruct (Empty tl2); (apply pooled_pieces; cbn; [by eapply core_fields|by rewrite Hp2|done]).
  - destruct Hc2. by destruct (Empty tl2).
  - by rewrite fn_lookup_insert.
  - intros b Hb. by rewrite !fn_lookup_insert_ne.
Qed.

(** The accounts with pending transactions. *)
Lemma pending_keys D P Q p a : pooled D P Q p -> a ∈ (range_list (pending p)).*1 <-> P a <> [].
Proof.
  intros H. pose proof (po_pending _ _ _ H a) as Hr. rewrite list_elem_of_fmap. split.
  - intros ([a' tl] & -> & Ha). rewrite range_perm in Ha. apply elem_of_map_to_list in Ha. cbn in *. rewrite Ha in Hr. apply Hr.
  - intros Hne. destruct (pending p !! a) as [tl|] eqn:Ep; [|done]. exists (a, tl). split; [done|]. rewrite range_perm. by apply elem_of_map_to_list.
Qed.
Lemma queue_keys D P Q p a : pooled D P Q p -> a ∈ (range_list (queue p)).*1 <-> Q a <> [].
Proof.
  intros H. pose proof (po_queue _ _ _ H a) as Hr. rewrite list_elem_of_fmap. split.
  - intros ([a' tl] & -> & Ha). rewrite range_perm in Ha. apply elem_of_map_to_list in Ha. cbn in *. rewrite Ha in Hr. apply Hr.
  - intros Hne. destruct (queue p !! a) as [tl|] eqn:Ep; [|done]. exists (a, tl). split; [done|]. rewrite range_perm. by apply elem_of_map_to_list.
Qed.
Lemma keys_nodup (m : gmap Address txList) : NoDup (range_list m).*1.
Proof. rewrite range_perm. apply NoDup_fst_map_to_list. Qed.

Abbreviation demoteUnexecutables := (demoteUnexecutables (E := E) config hash Sender range_nonce range_hash range_list).
Lemma demoteUnexecutables_ok D P Q p : pooled D P Q p ->
  exists P' Q' p', demoteUnexecutables p = Some p' /\ pooled D P' Q' p' /\ calm p p' /\ forall a, demoted (currentState p) (currentMaxGas p) a (P a) (P' a).
Proof.
  intros H. destruct (each_in (hash := hash) (Sender := Sender) D demote_account (fun _ _ p _ _ p' => calm p p') (fun p' => currentState p' = currentState p /\ currentMaxGas p' = currentMaxGas p) (fun pa _ => pa <> [])
    (demoted (currentState p) (currentMaxGas p))) with ((range_list (pending p)).*1) P Q p as (P' & Q' & p' & E1 & H1 & Hc & HR & Ho); try done.
  - intros _ _ p1 _ _ p2 _ _ p3. apply calm_trans.
  - intros _ _ p1 _ _ p2 [] []. split; congruence.
  - clear P Q H. intros P Q p1 a H1 [Es Eg] Hne. destruct (demote_account_ok D P Q p1 a H1 Hne) as (P' & Q' & p' & E1 & H2 & Hc & Hd & Ho). rewrite Es, Eg in Hd. by exists P', Q', p'.
  - apply keys_nodup.
  - intros a Ha. by eapply pending_keys in Ha.
  - exists P', Q', p'. split_and!; try done. intros a. destruct (decide (a ∈ (range_list (pending p)).*1)) as [Ha|Ha]; [by apply HR|].
    destruct (Ho a Ha) as [-> _]. destruct (P a) as [|tx l] eqn:Ea; [constructor; [apply prefix_nil|done|constructor]|].
    destruct Ha. eapply pending_keys; [done|]. by rewrite Ea.
Qed.

(** ** The pending nonces *)

Lemma run_app l1 l2 c : Nonce <$> (l1 ++ l2) = seqZ c (Z.of_nat (length (l1 ++ l2))) ->
  Nonce <$> l1 = seqZ c (Z.of_nat (length l1)) /\ Nonce <$> l2 = seqZ (c + Z.of_nat (length l1)) (Z.of_nat (length l2)).
Proof.
  rewrite fmap_app, length_app, Nat2Z.inj_add, seqZ_app by lia. intros Ha. apply app_inj_1 in Ha; [done|]. rewrite length_fmap, length_seqZ. lia.
Qed.
(** What demotion leaves of consecutive transactions follows the nonce of the
    account. *)
Lemma demoted_run st gas a l l' c : demoted st gas a l l' -> Nonce <$> l = seqZ c (Z.of_nat (length l)) -> Nonce <$> l' = seqZ (GetNonce st a) (Z.of_nat (length l')).
Proof.
  intros [[k Hk] Hf _] Hl. pose proof (low_first (GetNonce st a) l (run_ordered l c Hl)) as Hsplit. rewrite Hsplit in Hl. apply run_app in Hl as [_ Hl].
  rewrite Hk in Hl. apply run_app in Hl as [Hl _]. destruct l' as [|tx l']; [done|]. specialize (Hf tx l' eq_refl). cbn [length] in *.
  assert (Nonce tx = c + Z.of_nat (length (List.filter (low (GetNonce st a)) l))) as Htx by (rewrite seqZ_cons in Hl by lia; by injection Hl).
  rewrite Hl. f_equal. lia.
Qed.

Abbreviation each_account := (each_account (S := S)).
Abbreviation set_pending_nonce := (set_pending_nonce (S := S) range_nonce).
Lemma set_pending_nonce_ok D P Q p a : pooled D P Q p -> P a <> [] -> exists p' tx, set_pending_nonce p a = Some p' /\ list.last (P a) = Some tx /\ pooled D P Q p' /\
  currentState p' = currentState p /\ currentMaxGas p' = currentMaxGas p /\ all p' = all p /\
  forall b, ManagedGetNonce (pendingState p') b = if decide (b = a) then Nonce tx + 1 else ManagedGetNonce (pendingState p) b.
Proof.
  intros H Hne. pose proof (po_pending _ _ _ H a) as Hr. unfold Pool.set_pending_nonce. destruct (pending p !! a) as [tl|] eqn:Ep; [|done]. cbn [mbind option_bind].
  destruct (flatten_rep true tl (P a) Hr) as (tl' & -> & Hr'). destruct (list.last (P a)) as [tx|] eqn:El; [|by apply last_None in El]. cbn [mbind option_bind].
  eexists _, tx. split; [done|]. split; [done|]. split_and!; try done.
  - destruct H as [HP HQ Hc]. split; [by apply reps_same|done|by eapply core_fields].
  - intros b. cbn. apply last_Some_elem_of in El. assert (0 <= Nonce tx < 2 ^ 64 - 1) as Hn.
    { apply (core_poolable _ _ a tx (po_core _ _ _ H)). apply elem_of_app. by left. }
    rewrite Z.mod_small by lia. by rewrite get_set_nonce by lia.
Qed.
Lemma set_nonces_ok D P Q l : (forall a, a ∈ l -> P a <> []) -> forall p, pooled D P Q p -> exists p', each_account set_pending_nonce p l = Some p' /\ pooled D P Q p' /\
  currentState p' = currentState p /\ currentMaxGas p' = currentMaxGas p /\ all p' = all p /\
  forall b, ManagedGetNonce (pendingState p') b =
    match list.last (P b) with Some tx => if decide (b ∈ l) then Nonce tx + 1 else ManagedGetNonce (pendingState p) b | None => ManagedGetNonce (pendingState p) b end.
Proof.
  induction l as [|a l IH]; intros Hl p H.
  { exists p. split_and!; try done. intros b. destruct (list.last (P b)); [|done]. rewrite decide_False; [done|]. apply not_elem_of_nil. }
  rewrite each_cons. destruct (set_pending_nonce_ok D P Q p a H) as (p1 & tx & -> & El & H1 & E1 & E2 & E3 & Hn1); [apply Hl; by left|]. cbn [mbind option_bind].
  destruct (IH ltac:(intros b Hb; apply Hl; by right) p1 H1) as (p2 & -> & H2 & F1 & F2 & F3 & Hn2). exists p2. split_and!; [done|done|congruence..|].
  intros b. rewrite Hn2, Hn1. destruct (decide (b = a)) as [->|Hne].
  - rewrite El. rewrite (decide_True (P := a ∈ a :: l)) by (by left). by destruct (decide (a ∈ l)).
  - destruct (list.last (P b)); [|done]. destruct (decide (b ∈ l)) as [Hb|Hb]; [by rewrite decide_True by (by right)|]. rewrite decide_False; [done|]. by apply not_elem_of_cons.
Qed.

(** ** Batches *)

Abbreviation add_each := (add_each config hash Size Sender range_nonce range_hash).
Abbreviation addTxsLocked := (addTxsLocked config hash Size Sender range_nonce range_hash range_list range_addr).
Abbreviation addTx := (addTx config hash Size Sender range_nonce range_hash range_list).
Definition nonce_ok (tx : Transaction) : Prop := 0 <= Nonce tx < 2 ^ 64 - 1.

Lemma add_each_ok local txs : forall P Q p dirty, pooled [] P Q p -> Forall nonce_ok txs ->
  exists d P' Q' p', add_each p txs local dirty = Some (d, p') /\ pooled [] P' Q' p' /\ tame (length txs) P p P' p'.
Proof.
  induction txs as [|tx txs IH]; intros P Q p dirty H F; cbn [Pool.add_each].
  { exists dirty, P, Q, p. by split_and!. }
  apply Forall_cons_iff in F as [Hn F]. destruct (add_ok (E := E) (config := config) (Size := Size) (range_nonce := range_nonce) (range_hash := range_hash) P Q p tx local H Hn) as (r & P1 & Q1 & p1 & -> & H1 & Ht1).
  cbn [mbind option_bind]. destruct (IH P1 Q1 p1 (match r with inl false => {[ByPrice.sender_of Sender tx]} ∪ dirty | _ => dirty end) H1 F) as (d & P2 & Q2 & p2 & E2 & H2 & Ht2).
  exists d, P2, Q2, p2. split_and!; [done|done|]. apply (tame_trans 1 (length txs) _ _ _ _ _ _ Ht1 Ht2).
Qed.
Lemma addTxsLocked_ok now local txs P Q p : config_ok (config := config) -> pooled [] P Q p -> Forall nonce_ok txs -> Z.of_nat (length txs + size (all p)) < 2 ^ 24 ->
  exists P' Q' p', addTxsLocked now p txs local = Some p' /\ pooled [] P' Q' p' /\ tame (length txs) P p P' p' /\ (txs = [] -> p' = p /\ P' = P).
Proof.
  intros Hc H F Hsz. unfold Pool.addTxsLocked. destruct txs as [|tx txs]; [cbn; exists P, Q, p; by split_and!|].
  destruct (add_each_ok local (tx :: txs) P Q p ∅ H F) as (d & P1 & Q1 & p1 & -> & H1 & Ht1). cbn [mbind option_bind].
  destruct (_ <? _)%nat; [|exists P1, Q1, p1; by split_and!].
  destruct (promoteExecutables_ok (range_nonce := range_nonce) (range_hash := range_hash) (range_list := range_list) now P1 Q1 p1 (Some (range_addr d)) Hc H1) as (P2 & Q2 & p2 & -> & H2 & Hq2 & _); [pose proof (ta_size _ _ _ _ _ Ht1); lia|].
  exists P2, Q2, p2. split_and!; [done|done| |done]. pose proof (tame_trans _ _ _ _ _ _ _ _ Ht1 (quiet_tame _ _ _ _ _ _ Hq2)) as Ht. by rewrite Nat.add_0_r in Ht.
Qed.
Lemma addTx_ok now local tx P Q p : config_ok (config := config) -> pooled [] P Q p -> nonce_ok tx -> Z.of_nat (1 + size (all p)) < 2 ^ 24 ->
  exists r P' Q' p', addTx now p tx local = Some (r, p') /\ pooled [] P' Q' p' /\ tame 1 P p P' p'.
Proof.
  intros Hc H Hn Hsz. unfold Pool.addTx.
  destruct (add_ok (E := E) (config := config) (Size := Size) (range_nonce := range_nonce) (range_hash := range_hash) P Q p tx local H Hn) as (r & P1 & Q1 & p1 & -> & H1 & Ht1).
  cbn [mbind option_bind]. destruct r as [[]|err]; cbn [negb].
  - eexists _, P1, Q1, _. split; [done|]. split; [by eapply pooled_fields|by eapply tame_fields].
  - destruct (promoteExecutables_ok (range_nonce := range_nonce) (range_hash := range_hash) (range_list := range_list) now P1 Q1 p1 (Some [ByPrice.sender_of Sender tx]) Hc H1) as (P2 & Q2 & p2 & -> & H2 & Hq2 & _);
      [pose proof (ta_size _ _ _ _ _ Ht1); lia|].
    cbn [mbind option_bind]. exists None, P2, Q2, p2. split_and!; [done|done|]. apply (tame_trans 1 0 _ _ _ _ _ _ Ht1), (quiet_tame _ _ _ _ _ _ Hq2).
  - by exists (Some err), P1, Q1, p1.
Qed.

(** ** Prices, eviction and the journal *)

Abbreviation SetGasPrice := (SetGasPrice (E := E) config hash Sender range_nonce range_hash).
Lemma SetGasPrice_ok P Q p price : pooled [] P Q p -> exists P' Q' p', SetGasPrice p price = Some p' /\ pooled [] P' Q' p' /\ quiet P Q p P' Q' p'.
Proof.
  intros H. unfold Pool.SetGasPrice. set (p0 := set_gasPrice price p). assert (pooled [] P Q p0) as H0 by (by eapply pooled_fields).
  destruct (Cap_known (all p0) (priced p0) (containsTx Sender (locals p0)) price (co_known _ _ (po_core _ _ _ H0))) as (drop & l & -> & Hk). cbn [mbind option_bind].
  destruct (given_removed (hash := hash) (Sender := Sender) (config := config) (range_nonce := range_nonce) (range_hash := range_hash) P Q (set_priced l p0) drop) as (P' & Q' & p' & -> & H1 & Hq); [by apply (pooled_priced [] drop P Q p0 l)|].
  exists P', Q', p'. split_and!; [done|done|]. by destruct Hq.
Qed.

Abbreviation evict := (evict (E := E) config hash Sender range_nonce range_hash range_list).
Lemma evict_ok now P Q p : pooled [] P Q p -> exists P' Q' p', evict now p = Some p' /\ pooled [] P' Q' p' /\ quiet P Q p P' Q' p'.
Proof.
  intros H. destruct (each_in (hash := hash) (Sender := Sender) [] (evict_account (E := E) config hash Sender range_nonce range_hash now) quiet (fun _ => True) (fun _ qa => qa <> []) (fun _ _ _ => True))
    with ((range_list (queue p)).*1) P Q p as (P' & Q' & p' & E1 & H1 & Hq & _); try done.
  - apply quiet_trans.
  - clear dependent P Q p. intros P Q p a H _ Hne. unfold evict_account. destruct (contains p a); [exists P, Q, p; by split_and!|]. destruct (_ >? _); [|exists P, Q, p; by split_and!].
    pose proof (po_queue _ _ _ H a) as Hr. destruct (queue p !! a) as [tl|] eqn:Eq; [|done]. cbn [mbind option_bind].
    destruct (remove_queue_ok (config := config) (range_nonce := range_nonce) (range_hash := range_hash) [] P Q p a tl (fun l => l) H Eq ltac:(done)) as (tl' & P' & Q' & p' & -> & -> & H1 & Hq & Ho).
    exists P', Q', p'. by split_and!.
  - apply keys_nodup.
  - intros a Ha. by eapply queue_keys in Ha.
  - by exists P', Q', p'.
Qed.

(** Flattening changes no list. *)
Lemma flatten_field D P Q p a : pooled D P Q p ->
  (forall tl, pending p !! a = Some tl -> exists tl', ListFlatten range_nonce tl = (P a, tl') /\ pooled D P Q (set_pending (<[a := tl']> (pending p)) p)) /\
  (forall tl, queue p !! a = Some tl -> exists tl', ListFlatten range_nonce tl = (Q a, tl') /\ pooled D P Q (set_queue (<[a := tl']> (queue p)) p)).
Proof.
  intros [HP HQ Hc]. split; intros tl Et; [specialize (HP a) as Hr|specialize (HQ a) as Hr]; rewrite Et in Hr; destruct (flatten_rep _ tl _ Hr) as (tl' & -> & Hr'); exists tl'; (split; [done|]);
    split; try done; try (by apply reps_same); by eapply core_fields.
Qed.
Lemma local_ok D P Q l : forall txs p, pooled D P Q p -> let r := foldl (local_account (S := S) range_nonce) (txs, p) l in pooled D P Q r.2 /\ calm p r.2.
Proof.
  induction l as [|a l IH]; intros txs p H; [by split; [|apply calm_refl]|]. cbn [foldl]. destruct (flatten_field D P Q p a H) as [Hp _].
  assert (exists txs' p', local_account range_nonce (txs, p) a = (txs', p') /\ pooled D P Q p' /\ calm p p') as (txs' & p' & -> & H' & Hc').
  { unfold local_account. destruct (pending p !! a) as [tl|] eqn:Ep.
    - destruct (Hp tl eq_refl) as (tl' & -> & H1). destruct (flatten_field D P Q _ a H1) as [_ Hq]. cbn in Hq |- *. destruct (queue p !! a) as [tq|]; [|by eexists _, _].
      destruct (Hq tq eq_refl) as (tq' & -> & H2). by eexists _, _.
    - destruct (flatten_field D P Q p a H) as [_ Hq]. destruct (queue p !! a) as [tq|]; [|by eexists _, _]. destruct (Hq tq eq_refl) as (tq' & -> & H2). by eexists _, _. }
  destruct (IH txs' p' H') as [H2 Hc2]. split; [done|]. by eapply calm_trans.
Qed.
Lemma rejournal_ok P Q p : pooled [] P Q p -> let p' := rejournal range_nonce range_txs range_addr p in pooled [] P Q p' /\ calm p p'.
Proof.
  intros H. unfold rejournal. destruct (journal p); [|by split; [|apply calm_refl]]. destruct (local_ok [] P Q (range_addr (locals p)) ∅ p H) as [H1 H2]. unfold local.
  destruct (foldl _ _ _) as [txs p']. cbn in *. split; [by eapply pooled_fields|]. by destruct H2.
Qed.
Lemma reps_flatten s m L : reps s m L -> reps s ((fun l => (ListFlatten range_nonce l).2) <$> m) L /\ forall a, ((fun l => (ListFlatten range_nonce l).1) <$> m) !! a = if decide (L a = []) then None else Some (L a).
Proof.
  intros H. split; intros a; specialize (H a); rewrite lookup_fmap; destruct (m !! a) as [tl|]; cbn; try (cbn in H; by rewrite ?H);
    destruct (flatten_rep s tl (L a) H) as (tl' & -> & H'); cbn; [done|]. destruct H as (_ & _ & Hne). by rewrite decide_False.
Qed.
(** The miner is given the pending lists. *)
Lemma Pending_ok D P Q p : pooled D P Q p -> let r := Pending range_nonce p in pooled D P Q r.2 /\ calm p r.2 /\ forall a, r.1 !! a = if decide (P a = []) then None else Some (P a).
Proof.
  intros [HP HQ Hc]. cbn. destruct (reps_flatten true (pending p) P HP) as [H1 H2]. split_and!; [split; [done|done|by eapply core_fields]|done|done].
Qed.
Lemma Content_ok D P Q p : pooled D P Q p -> let r := Content range_nonce p in pooled D P Q r.2 /\ calm p r.2 /\
  (forall a, r.1.1 !! a = if decide (P a = []) then None else Some (P a)) /\ (forall a, r.1.2 !! a = if decide (Q a = []) then None else Some (Q a)).
Proof.
  intros [HP HQ Hc]. cbn. destruct (reps_flatten true (pending p) P HP) as [H1 H2], (reps_flatten false (queue p) Q HQ) as [H3 H4].
  split_and!; [split; [done|done|by eapply core_fields]|done|done|done].
Qed.

(** ** A new head *)

Section Chain.
Context (GetBlock : Hash -> Z -> option Block) (StateAt : Hash -> option S) (CurrentBlock : Block).

(** The chain finds a block by its hash and number, and no block is below the
    first. *)
Record chain_ok : Prop := {
  ch_number : forall h n b, GetBlock h n = Some b -> Number (header b) = n;
  ch_first : forall h, GetBlock h (2 ^ 64 - 1) = None;
}.

Lemma parent_number b b' : chain_ok -> 0 <= Number (header b) < 2 ^ 64 -> parent GetBlock b = Some b' -> 0 <= Number (header b') < 2 ^ 64 /\ Number (header b) = Number (header b') + 1.
Proof.
  intros [Hn Hf] Hb Hp. unfold parent in Hp. pose proof (Hn _ _ _ Hp) as Eb. destruct (decide (Number (header b) = 0)) as [E0|Hnz].
  - rewrite E0 in Hp. change ((0 - 1) mod 2 ^ 64) with (2 ^ 64 - 1) in Hp. by rewrite Hf in Hp.
  - rewrite Z.mod_small in Eb by lia. lia.
Qed.
Lemma descend_ok n : chain_ok -> 0 <= n -> forall fuel b seen, 0 <= Number (header b) < 2 ^ 64 -> (height b <= fuel)%nat ->
  exists r, descend GetBlock fuel b n seen = Some r /\ forall b' l, r = Some (b', l) -> 0 <= Number (header b') < 2 ^ 64.
Proof.
  intros Hc Hn. unfold height. induction fuel as [|fuel IH]; intros b seen Hb Hf; cbn [descend]; destruct (Z.gtb_spec (Number (header b)) n) as [Hgt|Hle];
    try (eexists; split; [done|]; intros ? ? [= <- <-]; done); [lia|].
  destruct (parent GetBlock b) as [b'|] eqn:Ep; [|by exists None]. destruct (parent_number b b' Hc Hb Ep) as [Hb' En]. apply IH; [done|lia].
Qed.
Lemma join_ok : chain_ok -> forall fuel rem add d i, 0 <= Number (header rem) < 2 ^ 64 -> (height rem < fuel)%nat -> exists r, join GetBlock fuel rem add d i = Some r.
Proof.
  intros Hc. unfold height. induction fuel as [|fuel IH]; intros rem add d i Hb Hf; cbn [join]; (case_bool_decide; [by eexists|]); [lia|].
  destruct (parent GetBlock rem) as [rem'|] eqn:Ep; [|by eexists]. destruct (parent_number rem rem' Hc Hb Ep) as [Hb' En]. destruct (parent GetBlock add); [|by eexists].
  apply IH; [done|lia].
Qed.
(** The walk to the common ancestor ends. *)
Lemma reorg_ok old new : chain_ok -> 0 <= Number old < 2 ^ 64 -> 0 <= Number new < 2 ^ 64 -> is_Some (GetBlock (h_Hash old) (Number old)) -> is_Some (GetBlock (h_Hash new) (Number new)) ->
  exists r, reorg hash GetBlock old new = Some r.
Proof.
  intros Hc Ho Hn [rem Er] [add Ea]. unfold reorg. case_bool_decide; [by eexists|]. destruct (_ >? 1024); [by eexists|]. rewrite Er, Ea. cbn [mbind option_bind].
  pose proof (ch_number Hc _ _ _ Er) as Nr. pose proof (ch_number Hc _ _ _ Ea) as Na.
  destruct (descend_ok (Number (header add)) Hc ltac:(lia) (height rem) rem []) as (r1 & -> & H1); [lia|done|]. cbn [mbind option_bind]. destruct r1 as [[rem' d]|]; [|by eexists].
  specialize (H1 _ _ eq_refl). destruct (descend_ok (Number (header rem')) Hc ltac:(lia) (height add) add []) as (r2 & -> & H2); [lia|done|]. cbn [mbind option_bind].
  destruct r2 as [[add' i]|]; [|by eexists]. destruct (join_ok Hc (height rem' + 1) rem' add' d i H1 ltac:(lia)) as (r3 & ->). by eexists.
Qed.

Abbreviation reset := (reset config hash Size Sender range_nonce range_hash range_list range_addr GetBlock StateAt CurrentBlock).

(** The transactions that a new head brings back. *)
Definition reinjected (oldHead newHead : option Header) : option (option (list Transaction)) :=
  match oldHead with None => Some (Some []) | Some old => new ← newHead; reorg hash GetBlock old new end.

Lemma demoted_executable P Q p st gas p1 P1 : executable P p -> pooled [] P1 Q p1 -> currentState p1 = st -> (forall a, demoted st gas a (P a) (P1 a)) ->
  (forall b, ManagedGetNonce (pendingState p1) b = match list.last (P1 b) with Some tx => Nonce tx + 1 | None => GetNonce st b end) -> executable P1 p1.
Proof.
  intros Hex H1 Hst Hd Hn b. rewrite Hst. destruct (Hex b) as [Hrun _]. pose proof (demoted_run _ _ _ _ _ _ (Hd b) Hrun) as Hr. split; [done|]. rewrite Hn.
  destruct (list.last (P1 b)) as [tx|] eqn:El; [by apply run_last|]. apply last_None in El. rewrite El. cbn. lia.
Qed.

Lemma reset_ok now P Q p old new r : config_ok (config := config) -> pooled [] P Q p -> reinjected old new = Some r ->
  Forall nonce_ok (default [] r) -> Z.of_nat (length (default [] r) + size (all p)) < 2 ^ 24 ->
  exists P' Q' p', reset now p old new = Some p' /\ pooled [] P' Q' p' /\ (size (all p') <= length (default [] r) + size (all p))%nat /\
    (default [] r = [] -> executable P p -> executable P' p') /\
    (forall st, is_Some r -> StateAt (Root (default (header CurrentBlock) new)) = Some st -> currentState p' = st /\
       forall a, affordable st (GasLimit (default (header CurrentBlock) new)) a (P' a ++ Q' a)).
Proof.
  intros Hc H Er F Hsz. unfold Pool.reset. fold (reinjected old new). rewrite Er. cbn [mbind option_bind].
  destruct r as [txs|]; [|exists P, Q, p; split_and!; try done; try lia; by intros ? []]. change (default [] (Some txs)) with txs in *. set (head := default (header CurrentBlock) new).
  destruct (StateAt (Root head)) as [st|]; [|exists P, Q, p; split_and!; [done|done|lia|done|done]]. set (p0 := set_state st (ManageState st) (GasLimit head) p).
  destruct (addTxsLocked_ok now false txs P Q p0 Hc) as (P1 & Q1 & p1 & -> & H1 & Ht1 & Hnil); [by eapply pooled_fields|done|done|]. cbn [mbind option_bind].
  destruct (demoteUnexecutables_ok [] P1 Q1 p1 H1) as (P2 & Q2 & p2 & -> & H2 & Hc2 & Hd2). cbn [mbind option_bind].
  assert (currentState p1 = st) as S1 by apply (ta_state _ _ _ _ _ Ht1). assert (currentMaxGas p1 = GasLimit head) as G1 by apply (ta_gas _ _ _ _ _ Ht1). rewrite S1, G1 in Hd2.
  destruct (set_nonces_ok [] P2 Q2 (range_list (pending p2)).*1 ltac:(intros a Ha; by eapply pending_keys in Ha) p2 H2) as (p3 & -> & H3 & S3 & G3 & A3 & N3). cbn [mbind option_bind].
  assert (size (all p3) <= length txs + size (all p))%nat as Hs3.
  { rewrite A3. etrans; [apply map_subseteq_size, (cl_all _ _ Hc2)|]. apply (ta_size _ _ _ _ _ Ht1). }
  destruct (promoteExecutables_ok (range_nonce := range_nonce) (range_hash := range_hash) (range_list := range_list) now P2 Q2 p3 None Hc H3) as (P4 & Q4 & p4 & -> & H4 & Hq4 & Haff); [lia|].
  assert (currentState p3 = st) as S3' by (rewrite S3, (cl_state _ _ Hc2); done). assert (currentMaxGas p3 = GasLimit head) as G3' by (rewrite G3, (cl_gas _ _ Hc2); done).
  exists P4, Q4, p4. split_and!; [done|done| | |].
  - etrans; [apply map_subseteq_size, (qu_all _ _ _ _ _ _ Hq4)|done].
  - intros -> Hex. apply (qu_exec _ _ _ _ _ _ Hq4). destruct (Hnil eq_refl) as [-> ->]. apply (demoted_executable P Q2 p st (GasLimit head)); [done|done|done|done|].
    intros b. rewrite N3, (cl_nonces _ _ Hc2). destruct (list.last (P2 b)) as [tx|] eqn:El; [|done]. rewrite decide_True; [done|]. eapply pending_keys; [exact H2|]. intros E0. by rewrite E0 in El.
  - intros st' _ [= <-]. rewrite S3', G3' in Haff. split; [by rewrite (qu_state _ _ _ _ _ _ Hq4)|]. apply Haff; [done|]. intros a. apply (Hd2 a).
Qed.
End Chain.
End Reset.
