(* ===== verification/EvmInv.v ===== *)
(** Invariants of the running machine, and the specification of the execution
    functions against them.

    The lemmas are proved for any state database that satisfies [StateDBSpec]
    and any native contracts that satisfy [precompile_spec]. *)

From S2P Require Import Prelude BigMath VmData VmState StateSpec GasTable Instructions Evm.
Import Big GoMath Common VmCommon Params.

(** A 256-bit word. *)
Definition word (x : Z) : Prop := 0 <= x < 2 ^ 256.

(** The largest memory [memoryGasCost] accepts. *)
Definition maxMemory : Z := 0xffffffffe0.

Create HintDb word discriminated.

Lemma word_small x : 0 <= x < 2 ^ 64 -> word x.
Proof. unfold word. lia. Qed.

Lemma word_len {A} (l : list A) : len l < 2 ^ 62 -> word (len l).
Proof. intros. pose proof (len_nonneg l). apply word_small. lia. Qed.

Lemma word_address (a : Address) : word (Address_Big a).
Proof. rewrite Address_Big_val. pose proof (bits_bound a). unfold word. lia. Qed.

Lemma word_hash (h : Hash) : word (Hash_Big h).
Proof. rewrite Hash_Big_val. exact (bits_bound h). Qed.

Lemma word_bytes l : len l <= 32 -> word (SetBytes l).
Proof.
  intros Hl. unfold word, SetBytes. pose proof (be_val_bound l) as Hb.
  assert (256 ^ len l <= 256 ^ 32); [apply Z.pow_le_mono_r; lia|].
  change (2 ^ 256) with (256 ^ 32). lia.
Qed.

Lemma word_0 : word 0.
Proof. unfold word. lia. Qed.

Lemma word_1 : word 1.
Proof. unfold word. lia. Qed.

Lemma word_U256 x : word (U256 x).
Proof. apply U256_range. Qed.

Lemma word_Exp b x : word x -> word (Exp b x).
Proof.
  intros Hx. rewrite Exp_spec by (unfold word in Hx; lia).
  apply Z.mod_pos_bound. lia.
Qed.

Lemma word_byte b : word (byte_Z b).
Proof. apply word_small. pose proof (byte_Z_range b). lia. Qed.

Lemma bits_low x y : word x -> word y ->
  word (Z.land x y) /\ word (Z.lor x y) /\ word (Z.lxor x y).
Proof.
  unfold word. intros Hx Hy.
  rewrite <- (Z.mod_small x (2 ^ 256) Hx), <- (Z.mod_small y (2 ^ 256) Hy).
  rewrite <- !Z.land_ones by lia.
  assert (forall z, Z.land z (Z.ones 256) = z -> 0 <= z < 2 ^ 256) as Hlow.
  { intros z Hz. rewrite Z.land_ones in Hz by lia. rewrite <- Hz. apply Z.mod_pos_bound. lia. }
  repeat split; apply Hlow; apply Z.bits_inj'; intros i Hi;
    rewrite ?Z.land_spec, ?Z.lor_spec, ?Z.lxor_spec, ?Z.land_spec;
    repeat destruct (Z.testbit _ i); done.
Qed.

Lemma word_land x y : word x -> word y -> word (Z.land x y).
Proof. apply bits_low. Qed.

Lemma word_lor x y : word x -> word y -> word (Z.lor x y).
Proof. apply bits_low. Qed.

Lemma word_lxor x y : word x -> word y -> word (Z.lxor x y).
Proof. apply bits_low. Qed.

#[export] Hint Resolve word_small word_len word_land word_lor word_lxor : word.
#[export] Hint Extern 1 (word (Zpos _)) => (unfold word; lia) : word.
#[export] Hint Resolve word_0 word_1 word_U256 word_Exp word_byte word_address word_hash : word.

(** What native contracts keep outside account balances and may move back: its
    value in a state, and the invariant of their storage. *)
Record ledger := mkLedger {
  kept :> astate -> Z;
  kept_ok : astate -> Prop;
}.
Definition no_ledger : ledger := mkLedger (fun _ => 0) (fun _ => True).

Section Inv.
Context {db : Type} `{!StateDB db} (env : Env db).
Context `{!StateDBSpec db (Keccak256Hash env)}.

Context (locked : ledger).

Definition total (s : astate) : Z := supply s + locked s.

(** * Assumptions on the environment *)

(** What the machine relies on from a native contract: it does not panic, keeps
    the database well formed and its snapshots valid, and when it succeeds it
    keeps its ledger consistent and creates no value.  When it fails the state
    it leaves is reverted by the caller. *)
Definition precompile_spec (p : PrecompiledContract db) : Prop :=
  forall input c d,
    db_ok d -> state_ok (abs d) -> kept_ok locked (abs d) -> total (abs d) < 2 ^ 256 ->
    word (value c) -> len input < 2 ^ 62 ->
    0 <= RequiredGas p input < 2 ^ 64 /\
    exists ret err d', PrecompiledRun p input c (ctx env) d = Some (ret, err, d') /\
      db_ok d' /\ (forall i s, covers d i s -> covers d' i s) /\ len ret < 2 ^ 62 /\
      (err = None ->
       state_ok (abs d') /\ kept_ok locked (abs d') /\ total (abs d') <= total (abs d)).

(** A native contract that does not change the state. *)
Definition precompile_quiet (p : PrecompiledContract db) : Prop :=
  forall input c d ret err d', db_ok d ->
    PrecompiledRun p input c (ctx env) d = Some (ret, err, d') ->
    err = None -> static_eq (abs d) (abs d').
Definition quiet : Prop :=
  forall a p, precompiles env a = Some p -> precompile_quiet p.

(** The updates the virtual machine makes: it creates an account only where
    there is none or at an address of [CreateAddress], and does not write byte
    arrays. *)
Definition vm_update (u : update) (s : astate) : Prop :=
  match u with
  | UCreateAccount a => accounts s !! a = None \/ exists c n, a = CreateAddress env c n
  | USetStateByteArray _ _ _ => False
  | _ => True
  end.

Record env_ok : Prop := {
  metered : DisableGasMetering (cfg env) = false;
  price_word : word (GasPrice (ctx env));
  (** codes of different length do not collide under the hash function *)
  hash_length : forall c c', len c < 2 ^ 62 -> len c' < 2 ^ 62 ->
    Keccak256Hash env c = Keccak256Hash env c' -> length c = length c';
  (** the ledger of the native contracts is not negative, and no update of the
      machine breaks it *)
  locked_nonneg : forall s, kept_ok locked s -> 0 <= locked s;
  locked_update : forall u s, kept_ok locked s -> vm_update u s ->
    kept_ok locked (abs_update u s) /\ locked (abs_update u s) <= locked s;
  precompiles_ok : forall a p, precompiles env a = Some p -> precompile_spec p;
}.

(** * Invariants *)

(** The cached bitmaps are long enough for the code with their hash. *)
Definition cache_length (d : Analysis.destinations) : Prop :=
  forall code m, len code < 2 ^ 62 -> d !! Keccak256Hash env code = Some m ->
    length m = length (Analysis.jumpdests code).

Record evm_ok (e : EVM db) : Prop := {
  evm_db : db_ok (statedb e);
  evm_state : state_ok (abs (statedb e));
  evm_kept : kept_ok locked (abs (statedb e));
  evm_total : total (abs (statedb e)) < 2 ^ 256;
  evm_data : len (returnData e) < 2 ^ 62;
  evm_cache : cache_length (jumpdests e);
}.

(** How an execution may change the machine: depth and mode are restored,
    snapshots stay valid, no value is created, and a read-only execution
    changes nothing. *)
Record evm_rel (e e' : EVM db) : Prop := {
  rel_depth : depth e' = depth e;
  rel_readOnly : readOnly e' = readOnly e;
  rel_covers : forall i s, covers (statedb e) i s -> covers (statedb e') i s;
  rel_total : total (abs (statedb e')) <= total (abs (statedb e));
  rel_static : quiet -> readOnly e = true -> static_eq (abs (statedb e)) (abs (statedb e'));
}.

#[export] Instance evm_rel_preorder : PreOrder evm_rel.
Proof.
  split.
  - intros e. by split.
  - intros e1 e2 e3 [] []. split; [congruence..|auto|lia|].
    intros Hq Hr. etrans; [by auto|]. apply rel_static1; [done|congruence].
Qed.

(** What remains of this after a native contract has failed, before the caller
    reverts the database. *)
Record failed_rel (e e' : EVM db) : Prop := {
  failed_db : db_ok (statedb e');
  failed_data : len (returnData e') < 2 ^ 62;
  failed_cache : cache_length (jumpdests e');
  failed_depth : depth e' = depth e;
  failed_readOnly : readOnly e' = readOnly e;
  failed_covers : forall i s, covers (statedb e) i s -> covers (statedb e') i s;
}.

Lemma rel_failed e e' : evm_ok e' -> evm_rel e e' -> failed_rel e e'.
Proof. intros [] []. by split. Qed.

Lemma failed_trans e1 e2 e3 : evm_rel e1 e2 -> failed_rel e2 e3 -> failed_rel e1 e3.
Proof. intros [] []. split; try done; [congruence..|auto]. Qed.

Record contract_ok (c : Contract) : Prop := {
  gas_range : 0 <= Gas c < 2 ^ 64;
  code_length : len (Code c) < 2 ^ 62;
  code_hash : Code c = [] \/ CodeHash c = Keccak256Hash env (Code c);
  input_length : len (Input c) < 2 ^ 62;
  value_word : word (value c);
}.

Record frame_ok (s : frame db) : Prop := {
  stack_words : Forall word (stack s);
  stack_limit : len (stack s) <= StackLimit;
  memory_limit : Memory.Len (memory s) <= maxMemory;
  frame_contract : contract_ok (contract s);
  frame_evm : evm_ok (evm s);
  pc_range : 0 <= pc s < 2 ^ 63;
}.

(** The effect of an operation on the frame. *)
Record post (s s' : frame db) : Prop := {
  post_frame : frame_ok s';
  post_gas : Gas (contract s') <= Gas (contract s);
  post_evm : evm_rel (evm s) (evm s');
  post_pc : pc s' <= 2 ^ 62 + 64;
}.

(** [exec_spec N ex k j mf w lo]: the execution function [ex] pops [k] items
    and pushes [j], within memory of the size [mf] asks for; it is not run in
    read-only mode when [w]; run with at most [N - lo] gas it keeps the
    invariants. *)
Definition exec_spec (N : Z) (ex : executionFunc) (k j : Z)
    (mf : option (list Z -> option Z)) (w : bool) (lo : Z) : Prop :=
  forall s, frame_ok s -> pc s < 2 ^ 62 ->
    k <= len (stack s) -> len (stack s) + j - k <= StackLimit ->
    (forall f, mf = Some f -> exists sz, f (stack s) = Some sz /\ sz <= Memory.Len (memory s)) ->
    (readOnly (evm s) = true -> w = false) ->
    Gas (contract s) + lo <= N ->
    wp ex (fun ret s' => post s s' /\ len ret < 2 ^ 62) (fun _ s' => post s s') s.

(** An operation that changes only the stack and the program counter. *)
Lemma post_stack n n' st st' m c e :
  frame_ok (mkFrame n st m c e) -> Forall word st' -> len st' <= StackLimit ->
  0 <= n' <= 2 ^ 62 + 64 -> post (mkFrame n st m c e) (mkFrame n' st' m c e).
Proof.
  intros [] ? ? ?. split; cbn in *; [split; cbn; try done; lia|lia|reflexivity|lia].
Qed.

Lemma post_memory n n' st st' m m' c e :
  frame_ok (mkFrame n st m c e) -> Forall word st' -> len st' <= StackLimit ->
  Memory.Len m' <= maxMemory ->
  0 <= n' <= 2 ^ 62 + 64 -> post (mkFrame n st m c e) (mkFrame n' st' m' c e).
Proof.
  intros [] ? ? ? ?. split; cbn in *; [split; cbn; try done; lia|lia|reflexivity|lia].
Qed.

Lemma post_with_evm n n' st st' m c e e' :
  frame_ok (mkFrame n st m c e) -> Forall word st' -> len st' <= StackLimit ->
  evm_ok e' -> evm_rel e e' ->
  0 <= n' <= 2 ^ 62 + 64 -> post (mkFrame n st m c e) (mkFrame n' st' m c e').
Proof.
  intros [] ? ? ? ? ?. split; cbn in *; [split; cbn; try done; lia|lia|done|lia].
Qed.

(** * Changes of the database *)

Lemma evm_change e d :
  evm_ok e -> db_ok d -> state_ok (abs d) -> kept_ok locked (abs d) -> total (abs d) <= total (abs (statedb e)) ->
  (forall i s, covers (statedb e) i s -> covers d i s) ->
  (quiet -> readOnly e = true -> static_eq (abs (statedb e)) (abs d)) ->
  evm_ok (set_db e d) /\ evm_rel e (set_db e d).
Proof. intros [] ? ? ? ? ? ?. split; split; cbn; try done; lia. Qed.

Lemma total_update (Henv : env_ok) u s :
  kept_ok locked s -> vm_update u s ->
  kept_ok locked (abs_update u s) /\ total (abs_update u s) <= total s + minted u s.
Proof.
  intros Hs Hu. destruct (locked_update Henv u s Hs Hu). unfold total. rewrite update_supply. split; [done|lia].
Qed.

Lemma evm_update (Henv : env_ok) e u :
  evm_ok e -> vm_update u (abs (statedb e)) -> update_pre u (abs (statedb e)) -> minted u (abs (statedb e)) <= 0 ->
  (readOnly e = true -> static_eq (abs (statedb e)) (abs_update u (abs (statedb e)))) ->
  evm_ok (set_db e (apply_update u (statedb e))) /\
  evm_rel e (set_db e (apply_update u (statedb e))).
Proof.
  intros He Hu Hp Hm Hs. destruct (He). destruct (total_update Henv u (abs (statedb e))); [done..|].
  apply evm_change; rewrite ?update_abs by done; auto.
  - by apply update_ok.
  - by apply update_state_ok.
  - lia.
  - intros. by apply update_covers.
Qed.

(** Moving the balance of an account to another and destroying the account. *)
Lemma evm_suicide (Henv : env_ok) e a b :
  evm_ok e -> readOnly e = false ->
  let d := (Suicide a (AddBalance b (GetBalance (statedb e) a) (statedb e))).2 in
  evm_ok (set_db e d) /\ evm_rel e (set_db e d).
Proof.
  intros He Hr d. destruct (He). unfold d.
  rewrite (GetBalance_spec (hash:=Keccak256Hash env)) by done.
  set (u := UAddBalance b (a_balance (acct (abs (statedb e)) a))).
  change (AddBalance _ _ _) with (apply_update u (statedb e)).
  change (Suicide a ?d).2 with (apply_update (USuicide a) d).
  pose proof (acct_balance _ a evm_state0) as [Hb _].
  assert (a_balance (acct (abs (statedb e)) a) <=
          a_balance (acct (abs_update u (abs (statedb e))) a)).
  { cbn. destruct (decide (b = a)) as [->|].
    - rewrite acct_on_account_eq. cbn. lia.
    - by rewrite acct_on_account_ne. }
  assert (db_ok (apply_update u (statedb e))) by by apply update_ok.
  destruct (total_update Henv u (abs (statedb e))); [done..|].
  destruct (total_update Henv (USuicide a) (abs_update u (abs (statedb e)))); [done..|].
  apply evm_change; rewrite ?update_abs by done.
  - done.
  - by apply update_ok.
  - by repeat apply update_state_ok.
  - done.
  - cbn [minted u] in *. lia.
  - intros. by repeat apply update_covers.
  - congruence.
Qed.
End Inv.
