(* ===== verification/StakingSafety.v ===== *)
(** Every operation of the staking contract keeps the invariant of its records
    and records exactly the money it is sent: weakest preconditions of the
    operations, and [precompile_spec] of the contract. *)

From S2P Require Import Prelude BigMath Encoding Abi AbiSafety VmData VmState StateSpec Rlp RlpSpec RlpDecode RlpCodec.
From S2P Require Import Ota Staking StakingCodec StakingSpec Instructions Evm EvmInv.
Import Big Common Secp Staking.

(** * Weights and epochs *)

Lemma weight_range n : 0 <= n <= PSMaxEpochNum -> 966 <= s64 (CalLocktimeWeight n) <= 1500.
Proof.
  unfold PSMaxEpochNum, CalLocktimeWeight. intros Hn. destruct (Z.eqb_spec n 0); [done|].
  rewrite (u64_small (n * 6)), u64_small, s64_small by lia. lia.
Qed.

Lemma weighted_mul amount n : 0 <= amount -> 0 <= n <= PSMaxEpochNum ->
  weighted amount (amount * s64 (CalLocktimeWeight n)).
Proof. intros Ha Hn. pose proof (weight_range n Hn). unfold weighted. nia. Qed.

Lemma weighted_add a b s t : weighted a s -> weighted b t -> weighted (a + b) (s + t).
Proof. unfold weighted. lia. Qed.

Lemma lock_le n : lock_ok n -> 0 <= n <= PSMaxEpochNum.
Proof. unfold lock_ok, PSMinEpochNum, PSMaxEpochNum. lia. Qed.

Lemma u64_fits n : uint_fits (u64 n).
Proof. apply u64_range. Qed.

(** * Changes of a record *)

Lemma set_epochs_ok s lock next staking :
  staker_ok s -> lock_ok lock -> lock_ok next -> uint_fits staking -> staker_ok (set_epochs s lock next staking).
Proof. intros []. by split. Qed.

Lemma set_fee_ok s fee : staker_ok s -> 0 <= fee <= PSMaxFeeRate -> staker_ok (set_fee s fee).
Proof. intros []. by split. Qed.

Lemma set_amounts_ok s amount stake :
  staker_ok s -> 0 <= amount -> weighted amount stake ->
  amount + clientsTotal s + partnersTotal s <= maxTotalStake -> staker_ok (set_amounts s amount stake).
Proof. intros []. by split. Qed.

Lemma set_members_ok s cs ps :
  staker_ok s -> Forall client_ok cs -> NoDup (ci_Address <$> cs) ->
  Forall partner_ok ps -> NoDup (pi_Address <$> ps) -> len ps <= maxPartners ->
  si_Amount s + sumOf ci_Amount cs + sumOf pi_Amount ps <= maxTotalStake -> staker_ok (set_members s cs ps).
Proof. intros []. by split. Qed.

(** ** Adding to the entry of the caller *)

Lemma NoDup_unique {A} (f : A -> Address) (l : list A) x y : NoDup (f <$> l) -> x ∈ l -> y ∈ l -> f x = f y -> x = y.
Proof.
  intros Hnd Hx Hy Heq. apply list_elem_of_lookup in Hx as [i Hi], Hy as [j Hj].
  assert (i = j) as ->; [|congruence].
  eapply (NoDup_lookup (f <$> l)); [done|by rewrite list_lookup_fmap, Hi|]. rewrite list_lookup_fmap, Hj. cbn. by f_equal.
Qed.

Lemma NoDup_snoc {A} (l : list A) x : NoDup l -> x ∉ l -> NoDup (l ++ [x]).
Proof.
  intros Hl Hx. apply list.NoDup_app. split_and!; [done| |apply NoDup_singleton].
  by intros y Hy ->%list_elem_of_singleton.
Qed.

Section AddTo.
Context {A : Type} (addr : A -> Address) (amount : A -> Z) (caller : Address) (v : Z) (add : A -> A).
Hypothesis add_addr : forall x, addr (add x) = addr x.
Hypothesis add_mine : forall x, addr x = caller -> amount (add x) = amount x + v.
Hypothesis add_other : forall x, addr x <> caller -> add x = x.
Implicit Types l : list A.

Lemma add_addrs l : addr <$> (add <$> l) = addr <$> l.
Proof. rewrite <- list_fmap_compose. apply list_fmap_ext. intros _ x _. apply add_addr. Qed.

Lemma add_none l : caller ∉ (addr <$> l) -> add <$> l = l.
Proof.
  induction l as [|x l IH]; [done|]. cbn. rewrite not_elem_of_cons. intros [Hx Hl].
  rewrite add_other by done. f_equal. by apply IH.
Qed.

Lemma add_sum l : NoDup (addr <$> l) -> caller ∈ (addr <$> l) -> sumOf amount (add <$> l) = sumOf amount l + v.
Proof.
  induction l as [|x l IH]; intros Hnd Hin; [by apply not_elem_of_nil in Hin|].
  cbn [fmap list_fmap] in *. pose proof (NoDup_cons_1_1 _ _ Hnd) as Hx. apply NoDup_cons_1_2 in Hnd. rewrite !sumOf_cons.
  apply elem_of_cons in Hin as [Hc|Hin].
  - rewrite add_mine by done. rewrite add_none; [lia|]. by rewrite Hc.
  - rewrite add_other by (intros Heq; rewrite Heq in Hx; done). rewrite IH by done. lia.
Qed.

Lemma add_elem l x : x ∈ l -> addr x <> caller -> x ∈ add <$> l.
Proof. intros Hx Hne. apply list_elem_of_fmap. exists x. by rewrite add_other. Qed.
End AddTo.

Lemma existsb_caller {A} (f : A -> Address) caller (l : list A) :
  existsb (fun x => bool_decide (f x = caller)) l = bool_decide (caller ∈ (f <$> l)).
Proof.
  apply eq_true_iff_eq. rewrite existsb_exists, bool_decide_eq_true, list_elem_of_fmap. split.
  - intros (x & Hx & Hf%bool_decide_eq_true). exists x. split; [done|]. by apply list_elem_of_In.
  - intros (x & -> & Hx). exists x. split; [by apply list_elem_of_In|]. by apply bool_decide_eq_true.
Qed.

(** * What an operation changes *)

(** The updates the contract makes. *)
Definition staking_update (u : update) : Prop :=
  match u with
  | USetStateByteArray a _ _ => a = StakersInfoAddr \/ a = StakersFeeAddr
  | UAddLog _ => True
  | _ => False
  end.

Lemma staking_update_balance u s a : staking_update u -> a_balance (acct (abs_update u s) a) = a_balance (acct s a).
Proof.
  destruct u as [| | | | | | |b k v| |l|]; try done; intros _; cbn [abs_update].
  - destruct (decide (b = a)) as [->|]; [by rewrite acct_on_account_eq|by rewrite acct_on_account_ne].
  - unfold add_log. by destruct (txinfo s) as [[? ?] ?].
Qed.

Lemma staking_update_bytes u s a : staking_update u -> a <> StakersInfoAddr -> a <> StakersFeeAddr ->
  bytes_of (abs_update u s) a = bytes_of s a.
Proof.
  destruct u as [| | | | | | |b k v| |l|]; try done; intros Hu H1 H2; [|by apply bytes_of_keep].
  unfold bytes_of. cbn [abs_update]. rewrite acct_on_account_ne; [done|]. destruct Hu; congruence.
Qed.

Lemma staking_update_pre u s : staking_update u -> update_pre u s /\ minted u s = 0.
Proof. by destruct u. Qed.

(** What [caller] can change of a record: money is only added, the lock time
    that runs is fixed, the terms are those of the owner, and the entries of
    other clients and partners stay as they are. *)
Record guarded (caller : Address) (st st' : StakerInfo) : Prop := {
  g_owner : si_From st' = si_From st;
  g_amount : si_Amount st <= si_Amount st';
  g_epochs : si_LockEpochs st' = si_LockEpochs st /\ si_StakingEpoch st' = si_StakingEpoch st;
  g_terms : si_From st <> caller ->
    si_Amount st' = si_Amount st /\ si_StakeAmount st' = si_StakeAmount st /\
    si_NextLockEpochs st' = si_NextLockEpochs st /\ si_FeeRate st' = si_FeeRate st;
  g_clients : forall i, i ∈ si_Clients st -> ci_Address i <> caller -> i ∈ si_Clients st';
  g_partners : forall p, p ∈ si_Partners st -> pi_Address p <> caller -> p ∈ si_Partners st';
}.

Lemma guarded_refl caller st : guarded caller st st.
Proof. by split. Qed.

(** Members that are added or changed for the caller. *)
Lemma members_guarded caller st cs ps :
  (forall i, i ∈ si_Clients st -> ci_Address i <> caller -> i ∈ cs) ->
  (forall p, p ∈ si_Partners st -> pi_Address p <> caller -> p ∈ ps) -> guarded caller st (set_members st cs ps).
Proof. intros. by split. Qed.

Section Safety.
Context {db : Type} `{!StateDB db} (hash : list byte -> Hash) `{!StateDBSpec db hash}.
Context (cfg : PosConfig.Config).
(** The contract that is run, and its context. *)
Context (c : Contract) (x : Context).
Abbreviation M := (ST db vmerror).
Implicit Types (d : db) (F : vmerror -> db -> Prop).

(** Every validator keeps a record, in which the caller has changed only what
    is theirs. *)
Definition guarded_records d d' : Prop := forall k b st, staker_at (abs d) k b st ->
  exists b' st', staker_at (abs d') k b' st' /\ guarded (CallerAddress c) st st'.

(** [records v d d']: only records and logs change, the invariant is kept,
    [v] is added to the stakes, and nobody else's stake is touched. *)
Record records (v : Z) d d' : Prop := {
  rec_moves : moves d d';
  rec_inv : staking_inv (abs d');
  rec_sum : recorded (abs d') = recorded (abs d) + v;
  rec_balance : forall a, a_balance (acct (abs d') a) = a_balance (acct (abs d) a);
  rec_state : state_ok (abs d) -> state_ok (abs d');
  rec_supply : supply (abs d') = supply (abs d);
  rec_bytes : forall a, a <> StakersInfoAddr -> a <> StakersFeeAddr -> bytes_of (abs d') a = bytes_of (abs d) a;
  rec_guarded : guarded_records d d';
}.

(** The part of it that holds after any updates of the contract. *)
Record touched d d' : Prop := {
  t_moves : moves d d';
  t_balance : forall a, a_balance (acct (abs d') a) = a_balance (acct (abs d) a);
  t_state : state_ok (abs d) -> state_ok (abs d');
  t_supply : supply (abs d') = supply (abs d);
  t_bytes : forall a, a <> StakersInfoAddr -> a <> StakersFeeAddr -> bytes_of (abs d') a = bytes_of (abs d) a;
}.

Lemma touched_refl d : db_ok d -> touched d d.
Proof. intros Hd. by split. Qed.

Lemma touched_update d d' u : touched d d' -> staking_update u -> touched d (apply_update u d').
Proof.
  intros [Hm Hb Hs Hp Hy] Hu. destruct (staking_update_pre u (abs d') Hu) as [? Hz].
  split; [by apply moves_update|..]; rewrite update_abs by apply Hm.
  - intros a. by rewrite staking_update_balance.
  - intros ?. by apply update_state_ok; auto.
  - rewrite update_supply. lia.
  - intros a Ha1 Ha2. rewrite <- Hy by done. by apply staking_update_bytes.
Qed.

Lemma touched_records v d d' : touched d d' -> staking_inv (abs d') -> recorded (abs d') = recorded (abs d) + v ->
  guarded_records d d' -> records v d d'.
Proof. intros [] ? ? ?. by split. Qed.

(** Storing a record in place of the one of the same key. *)
Lemma put_guarded st b d (s' := abs_update (put_staker st b) (abs d)) d' :
  staker_ok st -> codes st b -> GetStakeInKeyHash (si_Address st) <> emptyHash -> stakers (abs d') = stakers s' ->
  (forall b0 st0, staker_at (abs d) (GetStakeInKeyHash (si_Address st)) b0 st0 -> guarded (CallerAddress c) st0 st) ->
  guarded_records d d'.
Proof.
  intros Hst Hb Hk Hs' Hg k b0 st0 Hat. destruct (staker_decode st b Hst Hb) as [_ Hlen].
  destruct (stakers_put st b (abs d) Hlen) as [Hput _]. fold s' in Hput. rewrite Hput in Hs'.
  destruct (decide (k = GetStakeInKeyHash (si_Address st))) as [->|Hne].
  - exists b, st. split; [|by eapply Hg]. unfold staker_at. rewrite Hs', lookup_insert_eq. by split_and!.
  - exists b0, st0. split; [|apply guarded_refl]. destruct Hat as (Hk0 & ?). split; [|done].
    by rewrite Hs', lookup_insert_ne.
Qed.

(** A log after the records. *)
Lemma log_records v addr y id args data d d' F :
  records v d d' ->
  wp (precompiledScAddLog addr y id args data) (fun _ d'' => records v d d'') F d'.
Proof.
  intros [Hm Hi Hr Hb Hs Hp Hy Hg]. apply wp_modify. set (l := mkLog _ _ _ _ _ _ _ _).
  change (AddLog l d') with (apply_update (UAddLog l) d').
  destruct (staking_inv_same (abs d') (abs_update (UAddLog l) (abs d'))) as [Hi' Hr'];
    [by apply bytes_of_keep..|done|].
  apply touched_records; [by apply touched_update|..]; rewrite ?update_abs by apply Hm; [done|lia|].
  intros k b st Hat. destruct (Hg k b st Hat) as (b' & st' & Hat' & ?). exists b', st'. split; [|done].
  destruct Hat' as (Hk' & ?). split; [|done]. rewrite update_abs by apply Hm. unfold stakers. by rewrite bytes_of_keep.
Qed.

(** ** Reading and writing records *)

Lemma GetInfo_wp a k d (Q : list byte -> db -> Prop) F :
  db_ok d -> (k <> emptyHash -> Q (default [] (bytes_of (abs d) a !! k)) d) -> (k = emptyHash -> F errKeyHash d) ->
  wp (GetInfo a k) Q F d.
Proof.
  intros Hd HQ HF. unfold GetInfo. case_bool_decide; [by apply wp_throw, HF|]. apply wp_gets.
  rewrite (GetStateByteArray_spec (hash:=hash)) by done. by apply HQ.
Qed.

Lemma GetInfoBytes_wp a k d (Q : list byte -> db -> Prop) F :
  db_ok d -> (k <> emptyHash -> Q (default [] (bytes_of (abs d) a !! k)) d) -> (k = emptyHash -> Q [] d) ->
  wp (GetInfoBytes a k) Q F d.
Proof.
  intros Hd HQ HQ0. unfold wp, GetInfoBytes.
  assert (wp (GetInfo a k) Q (fun _ d' => Q [] d') d) as H by by apply GetInfo_wp.
  unfold wp in H. by destruct (GetInfo a k d).
Qed.

Lemma getStakeInfo_wp addr d (Q : StakerInfo -> db -> Prop) F :
  db_ok d -> staking_inv (abs d) -> F errNoItem d ->
  (forall st b, staker_at (abs d) (GetStakeInKeyHash addr) b st -> si_Address st = addr -> Q st d) ->
  wp (getStakeInfo addr) Q F d.
Proof.
  intros Hd Hi HF HQ. unfold getStakeInfo. apply wp_bind, GetInfoBytes_wp; [done| |intros; by apply wp_throw].
  intros Hk. fold (stakers (abs d)). destruct (stakers (abs d) !! GetStakeInKeyHash addr) as [b|] eqn:E;
    [|by apply wp_throw].
  destruct (inv_stakers _ Hi _ _ E) as (st & Hat). pose proof Hat as (_ & Hb & Hkey & _ & Hst).
  destruct (staker_decode st b Hst Hb) as [Hdec Hlen]. cbn [default from_option id].
  destruct (Z.eqb_spec (len b) 0); [done|]. apply wp_bind. eapply wp_must; [exact Hdec|].
  apply wp_ret. by apply (HQ st b), eq_sym, key_inj.
Qed.

Lemma saveStakeInfo_wp st d (Q : unit -> db -> Prop) F :
  staker_ok st -> (GetStakeInKeyHash (si_Address st) = emptyHash -> F errKeyHash d) ->
  (forall b, GetStakeInKeyHash (si_Address st) <> emptyHash -> codes st b -> Q tt (apply_update (put_staker st b) d)) ->
  wp (saveStakeInfo st) Q F d.
Proof.
  intros Hst HF HQ. destruct (staker_codes st Hst) as [b Hb]. unfold saveStakeInfo.
  apply wp_bind. eapply wp_must; [exact Hb|]. unfold StoreInfo.
  case_bool_decide; [by apply wp_throw, HF|]. apply wp_modify. by apply HQ.
Qed.

(** Replacing a record by one that keeps the fee rate. *)
Lemma replace_wp st st' b v d (k : M (list byte)) F :
  db_ok d -> staking_inv (abs d) -> staker_at (abs d) (GetStakeInKeyHash (si_Address st)) b st ->
  staker_ok st' -> si_Address st' = si_Address st -> si_FeeRate st' = si_FeeRate st ->
  stake_total st' = stake_total st + v -> guarded (CallerAddress c) st st' ->
  (forall d', records v d d' -> wp k (fun ret d'' => ret = [] /\ records v d d'') F d') ->
  wp (saveStakeInfo st';; k) (fun ret d' => ret = [] /\ records v d d') F d.
Proof.
  intros Hd Hi Hat Hst' Ha Hfee Htot Hg Hk. rewrite <- Ha in Hat. pose proof Hat as (_ & _ & _ & Hne & _).
  apply wp_bind, saveStakeInfo_wp; [done|done|]. intros b' _ Hb'.
  destruct (put_staker_ok (abs d) st' b' Hi Hst' Hne Hb') as (Hi' & _ & Hr).
  { intros b0 st0 Hat0. destruct (staker_at_fun _ _ _ _ _ _ Hat Hat0) as [_ <-]. done. }
  rewrite (staker_at_stake _ _ _ _ Hat) in Hr. apply Hk, touched_records.
  - apply touched_update; [by apply touched_refl|by left].
  - by rewrite update_abs.
  - rewrite update_abs by done. lia.
  - eapply put_guarded; [done|exact Hb'|done|by rewrite update_abs|].
    intros b0 st0 Hat0. by destruct (staker_at_fun _ _ _ _ _ _ Hat Hat0) as [_ <-].
Qed.

(** The event and the empty result at the end of an operation. *)
Lemma finish_call_wp v d d' (log : M unit) F :
  (forall d', records v d d' -> wp log (fun _ d'' => records v d d'') F d') -> records v d d' ->
  wp (log;; mret (@nil byte)) (fun ret d'' => ret = [] /\ records v d d'') F d'.
Proof.
  intros Hlog Hr. apply wp_bind. eapply wp_mono; [by apply Hlog| |done]. intros [] d'' ?. by apply wp_ret.
Qed.

(** ** Parsing *)

Lemma unpackInput_wp args payload d (Q : list Abi.value -> db -> Prop) F :
  forallb simple args = true -> (forall e, F e d) ->
  (forall vs, Forall2 (shape (len payload)) args vs -> Q vs d) -> wp (unpackInput args payload) Q F d.
Proof.
  intros Ha HF HQ. pose proof (input_total args payload Ha) as H. unfold wp, unpackInput in *.
  destruct (Abi.UnpackInput args payload tt) as [vs []|e []| |]; [auto|auto|done|done].
Qed.

Lemma addressParse_wp payload d (Q : Address -> db -> Prop) F :
  (forall e, F e d) -> (forall a, Q a d) -> wp (addressParse payload) Q F d.
Proof.
  intros HF HQ. apply wp_bind, unpackInput_wp; [done..|]. intros vs Hvs. open_shapes. by apply wp_ret.
Qed.

Lemma stakeUpdateParse_wp payload d (Q : Address * Z -> db -> Prop) F :
  (forall e, F e d) -> (forall a lock, lock_ok (Uint64 lock) -> Q (a, lock) d) ->
  wp (stakeUpdateParseAndValid payload) Q F d.
Proof.
  intros HF HQ. apply wp_bind, unpackInput_wp; [done..|]. intros vs Hvs. open_shapes.
  destruct (Z.eqb_spec (Uint64 n) 0); cbn [negb andb].
  { apply wp_ret, HQ. by left. }
  destruct (_ || _) eqn:E; [by apply wp_throw|]. apply wp_ret, HQ. right. apply orb_false_iff in E as [? ?].
  rewrite Uint64_small; unfold PSMinEpochNum, PSMaxEpochNum in *; lia.
Qed.

Lemma updateFeeParse_wp payload d (Q : Address * Z -> db -> Prop) F :
  (forall e, F e d) -> (forall a fee, 0 <= fee <= PSMaxFeeRate -> Q (a, fee) d) ->
  wp (updateFeeRateParseAndValid payload) Q F d.
Proof.
  intros HF HQ. apply wp_bind, unpackInput_wp; [done..|]. intros vs Hvs. open_shapes.
  destruct (_ || _) eqn:E; [by apply wp_throw|]. apply wp_ret, HQ. apply orb_false_iff in E as [? ?].
  unfold PSMinFeeRate in *. lia.
Qed.

Lemma partnerInParse_wp payload d (Q : Address * bool -> db -> Prop) F :
  (forall e, F e d) -> (forall a r, Q (a, r) d) -> wp (partnerInParseAndValid payload) Q F d.
Proof.
  intros HF HQ. apply wp_bind, unpackInput_wp; [done..|]. intros vs Hvs. open_shapes. by apply wp_ret.
Qed.

(** The parameters of a valid stakeIn. *)
Record param_ok (p : StakeInParam) : Prop := {
  pk_sec : exists pub, ToECDSAPub (in_SecPk p) = Some pub /\ in_pub p = Some pub;
  pk_bn : len (in_Bn256Pk p) < 2 ^ 62;
  pk_lock : PSMinEpochNum <= in_LockEpochs p <= PSMaxEpochNum;
  pk_fee : 0 <= in_FeeRate p <= PSMaxFeeRate;
}.

Lemma doParse_wp info d (Q : StakeInParam -> db -> Prop) F :
  (forall e, F e d) -> len (in_Bn256Pk info) < 2 ^ 62 ->
  (forall p, param_ok p -> in_FeeRate p = in_FeeRate info -> Q p d) ->
  wp (doStakeInParseAndValid info) Q F d.
Proof.
  intros HF Hbn HQ. unfold doStakeInParseAndValid. destruct (ToECDSAPub (in_SecPk info)) as [pub|] eqn:Epub;
    [|by apply wp_throw].
  destruct (G1_Unmarshal _); cbn [negb]; [|by apply wp_throw].
  destruct ((_ <? _) || _) eqn:El; [by apply wp_throw|]. apply orb_false_iff in El as [? ?].
  destruct (_ || _) eqn:Ef; [by apply wp_throw|]. apply orb_false_iff in Ef as [? ?].
  apply wp_ret, HQ; [|done]. unfold PSMinFeeRate in *. split; cbn; [by exists pub|done|lia|lia].
Qed.

Lemma stakeInParse_wp payload d (Q : StakeInParam -> db -> Prop) F :
  len payload < 2 ^ 62 -> (forall e, F e d) -> (forall p, param_ok p -> Q p d) ->
  wp (stakeInParseAndValid payload) Q F d.
Proof.
  intros Hp HF HQ. apply wp_bind, unpackInput_wp; [done..|]. intros vs Hvs. open_shapes.
  apply doParse_wp; [done|cbn; lia|auto].
Qed.

Lemma stakeRegisterParse_wp payload d (Q : StakeInParam * Z -> db -> Prop) F :
  len payload < 2 ^ 62 -> (forall e, F e d) ->
  (forall p maxFee, param_ok p -> in_FeeRate p <= maxFee <= PSMaxFeeRate -> Q (p, maxFee) d) ->
  wp (stakeRegisterParseAndValid payload) Q F d.
Proof.
  intros Hp HF HQ. apply wp_bind, unpackInput_wp; [done..|]. intros vs Hvs. open_shapes.
  destruct (_ || _) eqn:E1; [by apply wp_throw|]. apply orb_false_iff in E1 as [? ?].
  destruct (Z.gtb_spec n0 n1); [by apply wp_throw|]. destruct (_ && _); [by apply wp_throw|].
  apply wp_bind, doParse_wp; [done|cbn; lia|]. intros p Hpok Hfee. cbn in Hfee. apply wp_ret, HQ; [done|].
  rewrite Hfee. lia.
Qed.

(** ** Operations *)

(** From a consistent database. *)
Abbreviation keeps v d := (fun ret d' => ret = [] /\ records v d d').
Abbreviation fails d := (fun _ d' => moves d d').

Lemma StakeUpdate_wp payload d :
  db_ok d -> staking_inv (abs d) -> wp (StakeUpdate hash payload c x) (keeps 0 d) (fails d) d.
Proof.
  intros Hd Hi. pose proof (moves_refl d Hd). apply wp_bind, stakeUpdateParse_wp; [done|]. intros a lock Hlock.
  apply wp_bind, getStakeInfo_wp; [done..|]. intros st b Hat Ha. rewrite <- Ha in Hat.
  case_bool_decide; cbn [negb]; [|by apply wp_throw]. case_match; [by apply wp_throw|].
  pose proof Hat as (_ & _ & _ & _ & Hst). eapply replace_wp; [done..| |done|done| | |].
  - destruct (Hst). by apply set_epochs_ok.
  - unfold stake_total, clientsTotal, partnersTotal. cbn. lia.
  - by split.
  - intros d' Hr. apply finish_call_wp; [|done]. intros d'' ?. unfold stakeUpdateLog. case_match; by apply log_records.
Qed.

Lemma quitFirst_wp caller quit l d (Q : list ClientInfo -> db -> Prop) F :
  (forall e, F e d) -> uint_fits quit -> Forall client_ok l ->
  (forall l', Forall client_ok l' -> ci_Address <$> l' = ci_Address <$> l -> sumOf ci_Amount l' = sumOf ci_Amount l ->
     (forall i, i ∈ l -> ci_Address i <> caller -> i ∈ l') -> Q l' d) ->
  wp (quitFirst caller quit l) Q F d.
Proof.
  intros HF Hq Hl. revert Q. induction Hl as [|i l Hi Hl IH]; intros Q HQ; [by apply wp_throw|].
  cbn [quitFirst]. case_bool_decide.
  - case_match; [by apply wp_throw|]. apply wp_ret, HQ; [|done|done|].
    + constructor; [|done]. destruct Hi as (? & ? & _). by split_and!.
    + intros j [->|Hj]%elem_of_cons Hne; [done|]. apply elem_of_cons. by right.
  - apply wp_bind, IH. intros l' Hok Ha Hs Hin. apply wp_ret, HQ.
    + by constructor.
    + cbn. by rewrite Ha.
    + by rewrite !sumOf_cons, Hs.
    + intros j [->|Hj]%elem_of_cons Hne; apply elem_of_cons; auto.
Qed.

Lemma DelegateOut_wp payload d :
  db_ok d -> staking_inv (abs d) -> wp (DelegateOut hash payload c x) (keeps 0 d) (fails d) d.
Proof.
  intros Hd Hi. pose proof (moves_refl d Hd). apply wp_bind, addressParse_wp; [done|]. intros a.
  apply wp_bind, getStakeInfo_wp; [done..|]. intros st b Hat Ha. rewrite <- Ha in Hat.
  pose proof Hat as (_ & _ & _ & _ & Hst). pose proof Hst as [].
  apply wp_bind, quitFirst_wp; [done|apply u64_fits|done|]. intros cs Hcs Haddr Hsum Hin.
  eapply replace_wp; [done..| |done|done| | |].
  - apply set_members_ok; try done; [by rewrite Haddr|]. unfold stake_total, clientsTotal, partnersTotal in *. lia.
  - unfold stake_total, clientsTotal, partnersTotal. cbn. lia.
  - by apply members_guarded.
  - intros d' Hr. apply finish_call_wp; [|done]. intros d'' ?. unfold delegateOutLog. case_match; by apply log_records.
Qed.

Lemma StakeAppend_wp payload d :
  db_ok d -> staking_inv (abs d) -> 0 <= value c ->
  wp (StakeAppend hash cfg payload c x) (keeps (value c) d) (fails d) d.
Proof.
  intros Hd Hi Hv. pose proof (moves_refl d Hd). apply wp_bind, addressParse_wp; [done|]. intros a.
  apply wp_bind, getStakeInfo_wp; [done..|]. intros st b Hat Ha. rewrite <- Ha in Hat.
  pose proof Hat as (_ & _ & _ & _ & Hst). pose proof Hst as [].
  case_bool_decide; cbn [negb]; [|by apply wp_throw].
  destruct (_ || _) eqn:El; [by apply wp_throw|]. apply orb_false_iff in El as [? ?].
  case_match eqn:Et; [by apply wp_throw|]. set (l := realLock _ _) in *.
  assert (0 <= l <= PSMaxEpochNum) as Hl by lia. rewrite (u64_small l) by (unfold PSMaxEpochNum in *; lia).
  eapply replace_wp; [done..| |done|done| | |].
  - apply set_amounts_ok; [done|lia| |lia]. case_match; [by apply weighted_mul; [lia|]|].
    apply weighted_add; [done|]. by apply weighted_mul.
  - unfold stake_total, clientsTotal, partnersTotal. cbn. lia.
  - split; cbn; try done. lia.
  - intros d' Hr. apply finish_call_wp; [|done]. intros d'' ?. unfold stakeAppendLog. case_match; by apply log_records.
Qed.

Lemma addToClient_laws w :
  (forall i, ci_Address (addToClient c w i) = ci_Address i) /\
  (forall i, ci_Address i = CallerAddress c -> ci_Amount (addToClient c w i) = ci_Amount i + value c) /\
  (forall i, ci_Address i <> CallerAddress c -> addToClient c w i = i).
Proof. unfold addToClient. split_and!; intros i; intros; case_bool_decide; done. Qed.

Lemma addToPartner_laws w r :
  (forall p, pi_Address (addToPartner c w r p) = pi_Address p) /\
  (forall p, pi_Address p = CallerAddress c -> pi_Amount (addToPartner c w r p) = pi_Amount p + value c) /\
  (forall p, pi_Address p <> CallerAddress c -> addToPartner c w r p = p).
Proof. unfold addToPartner. split_and!; intros i; intros; case_bool_decide; done. Qed.

Lemma weight_7 : s64 (CalLocktimeWeight PSMinEpochNum) = 1002.
Proof. done. Qed.

Lemma addToClients_ok l :
  0 <= value c -> Forall client_ok l -> Forall client_ok (addToClient c (CalLocktimeWeight PSMinEpochNum) <$> l).
Proof.
  intros Hv Hl. apply Forall_fmap. eapply Forall_impl; [|exact Hl]. intros i (? & Hs & ?). unfold compose, addToClient.
  rewrite weight_7. case_bool_decide; [|done]. split_and!; cbn; [lia|lia|done].
Qed.

Lemma addToPartners_ok l n r :
  0 <= value c -> 0 <= n <= PSMaxEpochNum -> Forall partner_ok l ->
  Forall partner_ok (addToPartner c (CalLocktimeWeight n) r <$> l).
Proof.
  intros Hv Hn Hl. apply Forall_fmap. eapply Forall_impl; [|exact Hl]. intros p (? & ? & ? & ?).
  unfold compose, addToPartner. case_bool_decide; [|done]. split; [cbn; lia|]. split; [|done]. cbn.
  apply weighted_add; [done|]. by apply weighted_mul.
Qed.

Lemma PartnerIn_wp payload d :
  db_ok d -> staking_inv (abs d) -> 0 <= value c ->
  wp (PartnerIn hash cfg payload c x) (keeps (value c) d) (fails d) d.
Proof.
  intros Hd Hi Hv. pose proof (moves_refl d Hd). apply wp_bind, partnerInParse_wp; [done|]. intros a r.
  apply wp_bind, getStakeInfo_wp; [done..|]. intros st b Hat Ha. rewrite <- Ha in Hat.
  pose proof Hat as (_ & _ & _ & _ & Hst). pose proof Hst as [].
  cbv zeta. destruct (_ && (_ <? PosConfig.AugustEpochID) && _); [by apply wp_throw|].
  destruct (_ || _) eqn:El; [by apply wp_throw|]. apply orb_false_iff in El as [? ?].
  set (l := realLock _ _) in *. assert (0 <= l <= PSMaxEpochNum) as Hl by lia.
  rewrite (u64_small l) by (unfold PSMaxEpochNum in *; lia).
  destruct (Z.gtb_spec (si_Amount st + clientsTotal st + value c + partnersTotal st) maxTotalStake); [by apply wp_throw|].
  rewrite existsb_caller. set (w := CalLocktimeWeight l). destruct (addToPartner_laws w r) as (L1 & L2 & L3).
  assert (forall ps, Forall partner_ok ps -> NoDup (pi_Address <$> ps) -> len ps <= maxPartners ->
    sumOf pi_Amount ps = partnersTotal st + value c ->
    (forall p, p ∈ si_Partners st -> pi_Address p <> CallerAddress c -> p ∈ ps) ->
    wp (saveStakeInfo (set_members st (si_Clients st) ps);; partnerInLog hash c x a r;; mret (@nil byte))
      (keeps (value c) d) (fails d) d) as Hsave.
  { intros ps Hps Hnd Hlen Hsum Hin. eapply replace_wp; [done..| |done|done| | |].
    - apply set_members_ok; try done. unfold clientsTotal in *. lia.
    - unfold stake_total, clientsTotal, partnersTotal in *. cbn. lia.
    - by apply members_guarded.
    - intros d' Hr. apply finish_call_wp; [|done]. intros d'' ?. unfold partnerInLog.
      case_match; [by apply log_records|by apply wp_ret]. }
  case_bool_decide as Hin; apply wp_bind.
  - apply wp_ret, Hsave.
    + by apply addToPartners_ok.
    + by rewrite add_addrs.
    + unfold len. by rewrite length_fmap.
    + by apply (add_sum pi_Address pi_Amount (CallerAddress c)).
    + by apply (add_elem pi_Address (CallerAddress c)).
  - destruct (Z.geb_spec (len (si_Partners st)) maxPartners); [by apply wp_throw|].
    destruct (_ && _); [by apply wp_throw|].
    rewrite (add_none pi_Address (CallerAddress c)) by done. apply wp_ret, Hsave.
    + apply Forall_app. split; [done|]. constructor; [|done]. split; [done|]. split; [by apply weighted_mul|].
      split; [done|]. cbn. case_match; [done|apply u64_fits].
    + rewrite fmap_app. by apply NoDup_snoc.
    + rewrite len_app, len_cons, len_nil. lia.
    + rewrite sumOf_app. unfold partnersTotal. change (sumOf _ [_]) with (value c + 0). lia.
    + intros p Hp _. apply elem_of_app. by left.
Qed.

Lemma DelegateIn_wp payload d :
  db_ok d -> staking_inv (abs d) -> 0 <= value c ->
  wp (DelegateIn hash payload c x) (keeps (value c) d) (fails d) d.
Proof.
  intros Hd Hi Hv. pose proof (moves_refl d Hd). apply wp_bind, addressParse_wp; [done|]. intros a.
  apply wp_bind, getStakeInfo_wp; [done..|]. intros st b Hat Ha. rewrite <- Ha in Hat.
  pose proof Hat as (_ & _ & _ & _ & Hst). pose proof Hst as [].
  destruct (si_FeeRate st =? _); [by apply wp_throw|]. cbv zeta. destruct (_ <? MinValidatorStake); [by apply wp_throw|].
  destruct (existsb _ _); [by apply wp_throw|].
  destruct (Z.gtb_spec (value c + clientsTotal st + (si_Amount st + partnersTotal st)) maxTotalStake); [by apply wp_throw|].
  destruct (_ >? _); [by apply wp_throw|]. rewrite existsb_caller.
  set (w := CalLocktimeWeight PSMinEpochNum). destruct (addToClient_laws w) as (L1 & L2 & L3).
  assert (forall cs, Forall client_ok cs -> NoDup (ci_Address <$> cs) -> sumOf ci_Amount cs = clientsTotal st + value c ->
    (forall i, i ∈ si_Clients st -> ci_Address i <> CallerAddress c -> i ∈ cs) ->
    wp (saveStakeInfo (set_members st cs (si_Partners st));; delegateInLog hash c x (si_Address st);; mret (@nil byte))
      (keeps (value c) d) (fails d) d) as Hsave.
  { intros cs Hcs Hnd Hsum Hin. eapply replace_wp; [done..| |done|done| | |].
    - apply set_members_ok; try done. unfold partnersTotal in *. lia.
    - unfold stake_total, clientsTotal, partnersTotal in *. cbn. lia.
    - by apply members_guarded.
    - intros d' Hr. apply finish_call_wp; [|done]. intros d'' ?. unfold delegateInLog. case_match; by apply log_records. }
  case_bool_decide as Hin; apply wp_bind.
  - apply wp_ret, Hsave.
    + by apply addToClients_ok.
    + by rewrite add_addrs.
    + by apply (add_sum ci_Address ci_Amount (CallerAddress c)).
    + by apply (add_elem ci_Address (CallerAddress c)).
  - destruct (Z.ltb_spec (value c) minDelegatorStake); [by apply wp_throw|].
    rewrite (add_none ci_Address (CallerAddress c)) by done. apply wp_ret, Hsave.
    + apply Forall_app. split; [done|]. constructor; [|done]. unfold w. rewrite weight_7. split_and!; cbn; [done|lia|done].
    + rewrite fmap_app. by apply NoDup_snoc.
    + rewrite sumOf_app. unfold clientsTotal. change (sumOf _ [_]) with (value c + 0). lia.
    + intros i Hi' _. apply elem_of_app. by left.
Qed.

(** A new validator; nothing is recorded under its key before. *)
Lemma ToECDSAPub_len p pub : ToECDSAPub p = Some pub -> len p = 65.
Proof. unfold ToECDSAPub. destruct (Z.eqb_spec (len p) 65); [done|]. by case_match. Qed.

Lemma doStakeIn_wp info d (Q : StakerInfo -> db -> Prop) F :
  db_ok d -> staking_inv (abs d) -> param_ok info -> (forall e, F e d) ->
  (forall st b, staker_ok st -> GetStakeInKeyHash (si_Address st) <> emptyHash -> codes st b ->
     si_FeeRate st = in_FeeRate info -> stake_total st = value c ->
     stakers (abs d) !! GetStakeInKeyHash (si_Address st) = None -> Q st (apply_update (put_staker st b) d)) ->
  wp (doStakeIn hash cfg c x info) Q F d.
Proof.
  intros Hd Hi [(pub & Hsec & Hpub) Hbn Hlock Hfee] HF HQ. unfold doStakeIn.
  destruct (Z.ltb_spec (value c) minStakeholderStake); [by apply wp_throw|].
  destruct (Z.gtb_spec (value c) maxTotalStake); [by apply wp_throw|].
  apply wp_bind. eapply wp_must; [exact Hpub|]. cbv zeta. set (a := PubkeyToAddress hash pub).
  rewrite (Uint64_small (in_LockEpochs info)) by (unfold PSMinEpochNum, PSMaxEpochNum in *; lia).
  rewrite (Uint64_small (in_FeeRate info)) by (unfold PSMaxFeeRate in *; lia).
  match goal with |- context [saveStakeInfo ?s] => set (st := s) end.
  assert (stake_total st = value c) as Htot.
  { unfold stake_total, clientsTotal, partnersTotal. change (si_Amount st) with (value c). rewrite !Z.add_0_r. done. }
  assert (staker_ok st) as Hst.
  { split; cbn; try apply NoDup_nil_2; try done.
    - by eapply ToECDSAPub_len.
    - unfold minStakeholderStake, ether in *. lia.
    - apply weighted_mul; [unfold minStakeholderStake, ether in *; lia|]. unfold PSMinEpochNum in *. lia.
    - by right.
    - by right.
    - case_match; [done|apply u64_fits].
    - change (stake_total st <= maxTotalStake). lia. }
  assert (forall d', wp (saveStakeInfo st;; mret st) (fun s d'' => exists b, s = st /\ codes st b /\
    GetStakeInKeyHash a <> emptyHash /\ d'' = apply_update (put_staker st b) d') (fun _ d'' => d'' = d') d') as Hsave.
  { intros d'. apply wp_bind, saveStakeInfo_wp; [done|done|]. intros b Hk Hb. apply wp_ret. by exists b. }
  apply wp_bind, GetInfoBytes_wp; [done| |].
  - intros Hk. fold (stakers (abs d)). destruct (stakers (abs d) !! GetStakeInKeyHash a) as [b0|] eqn:E; cbn [default from_option id].
    + destruct (inv_stakers _ Hi _ _ E) as (st0 & _ & Hb0 & _ & _ & Hst0).
      destruct (staker_decode st0 b0 Hst0 Hb0) as [_ Hl]. destruct (Z.eqb_spec (len b0) 0); [done|]. by apply wp_throw.
    + cbn [negb len Z.eqb length Z.of_nat]. eapply wp_mono; [apply Hsave| |intros e d' ->; done].
      intros s d' (b & -> & Hb & _ & ->). by apply HQ.
  - intros Hk. cbn [negb len Z.eqb length Z.of_nat]. eapply wp_mono; [apply Hsave| |intros e d' ->; done].
    by intros s d' (b & _ & _ & ? & _).
Qed.

Lemma StakeIn_wp payload d :
  db_ok d -> staking_inv (abs d) -> len payload < 2 ^ 62 ->
  wp (StakeIn hash cfg payload c x) (keeps (value c) d) (fails d) d.
Proof.
  intros Hd Hi Hp. pose proof (moves_refl d Hd). apply wp_bind, stakeInParse_wp; [done..|]. intros p Hpok.
  apply wp_bind, doStakeIn_wp; [done..|]. intros st b Hst Hk Hb _ Htot Hnone.
  destruct (put_staker_ok (abs d) st b) as (Hi' & _ & Hr); [done..| |].
  { intros b0 st0 (Hk0 & _). congruence. }
  rewrite Hnone in Hr. cbn [from_option] in Hr. apply finish_call_wp.
  - intros d' ?. unfold stakeInLog. case_match; by apply log_records.
  - apply touched_records; [apply touched_update; [by apply touched_refl|by left]|by rewrite update_abs|..].
    + rewrite update_abs by done. lia.
    + eapply put_guarded; [exact Hst|exact Hb|done|by rewrite update_abs|]. intros b0 st0 (Hk0 & _). congruence.
Qed.

Lemma saveFee_wp f a d (Q : unit -> db -> Prop) F :
  fee_ok f -> GetStakeInKeyHash a <> emptyHash ->
  (forall b, codes f b -> Q tt (apply_update (put_fee a b) d)) -> wp (saveStakeFeeRate f a) Q F d.
Proof.
  intros Hf Hk HQ. destruct (fee_codes f Hf) as [b Hb]. unfold saveStakeFeeRate.
  apply wp_bind. eapply wp_must; [exact Hb|]. unfold StoreInfo. rewrite bool_decide_false by done.
  apply wp_modify. by apply HQ.
Qed.

(** Storing a record and its fee record. *)
Lemma both_records v st b f fb d :
  db_ok d -> staking_inv (abs d) -> staker_ok st -> GetStakeInKeyHash (si_Address st) <> emptyHash -> codes st b ->
  codes f fb -> fee_ok f -> fr_ValidatorAddr f = si_Address st -> fr_FeeRate f = si_FeeRate st ->
  stake_total st = from_option stake_in 0 (stakers (abs d) !! GetStakeInKeyHash (si_Address st)) + v ->
  (forall b0 st0, staker_at (abs d) (GetStakeInKeyHash (si_Address st)) b0 st0 -> guarded (CallerAddress c) st0 st) ->
  records v d (apply_update (put_fee (si_Address st) fb) (apply_update (put_staker st b) d)).
Proof.
  intros Hd Hi Hst Hk Hb Hfb Hf Ha Hr Htot Hg.
  destruct (put_both_ok (abs d) st b f fb) as (Hi' & Hrec); [done..|].
  apply touched_records.
  - apply touched_update; [apply touched_update; [by apply touched_refl|by left]|by right].
  - rewrite !update_abs; [done|done|by apply update_ok].
  - rewrite !update_abs; [lia|done|by apply update_ok].
  - eapply put_guarded; [exact Hst|exact Hb|done| |done]. destruct (fee_decode f fb Hf Hfb) as [_ Hlen].
    rewrite !update_abs; [|done|by apply update_ok]. by apply fees_put.
Qed.

Lemma StakeRegister_wp payload d :
  db_ok d -> staking_inv (abs d) -> len payload < 2 ^ 62 ->
  wp (StakeRegister hash cfg payload c x) (keeps (value c) d) (fails d) d.
Proof.
  intros Hd Hi Hp. pose proof (moves_refl d Hd). apply wp_bind, stakeRegisterParse_wp; [done..|]. intros p m Hpok Hm.
  apply wp_bind, doStakeIn_wp; [done..|]. intros st b Hst Hk Hb Hfee Htot Hnone. cbv zeta.
  pose proof (pk_fee p Hpok) as Hpf. rewrite (Uint64_small m) by (unfold PSMaxFeeRate in *; lia).
  apply wp_bind, saveFee_wp; [|done|].
  { unfold fee_ok. cbn. rewrite Hfee. split; [lia|]. split; [lia|done]. }
  intros fb Hfb. apply finish_call_wp; [intros d' ?; by apply log_records|].
  eapply both_records; try done; [|by rewrite Hnone; cbn [from_option]; rewrite Htot|intros b0 st0 (Hk0 & _); congruence].
  unfold fee_ok. cbn. rewrite Hfee. split; [lia|]. split; [lia|done].
Qed.

Lemma getFee_wp a d (Q : option UpdateFeeRate -> db -> Prop) F :
  db_ok d -> staking_inv (abs d) -> F errKeyHash d -> Q None d ->
  (forall f b b' st, fee_ok f -> codes f b -> fr_ValidatorAddr f = a -> staker_at (abs d) (GetStakeInKeyHash a) b' st ->
     fr_FeeRate f = si_FeeRate st -> Q (Some f) d) ->
  wp (getStakeFeeRate a) Q F d.
Proof.
  intros Hd Hi HF HN HQ. unfold getStakeFeeRate. apply wp_bind, GetInfo_wp; [done| |done].
  intros Hk. fold (fees (abs d)). destruct (fees (abs d) !! GetStakeInKeyHash a) as [b|] eqn:E; [|by apply wp_ret].
  destruct (inv_fees _ Hi _ _ E) as (f & st & b' & Hb & Hf & Hkey & Hat & Hr).
  destruct (fee_decode f b Hf Hb) as [Hdec Hlen]. cbn [default from_option id].
  destruct (Z.eqb_spec (len b) 0); [done|]. apply wp_bind. eapply wp_must; [exact Hdec|].
  apply wp_ret. eapply HQ; try done. by apply eq_sym, key_inj.
Qed.

Lemma StakeUpdateFeeRate_wp payload d :
  db_ok d -> staking_inv (abs d) ->
  wp (StakeUpdateFeeRate hash payload c x) (keeps 0 d) (fails d) d.
Proof.
  intros Hd Hi. pose proof (moves_refl d Hd). apply wp_bind, updateFeeParse_wp; [done|]. intros a fee Hfee.
  apply wp_bind, getStakeInfo_wp; [done..|]. intros st b Hat Ha. rewrite <- Ha in Hat. cbv zeta.
  rewrite (Uint64_small fee) by (unfold PSMaxFeeRate in *; lia).
  destruct (_ || _); [by apply wp_throw|]. destruct (si_FeeRate st =? fee); [by apply wp_throw|].
  case_bool_decide; cbn [negb]; [|by apply wp_throw]. set (eid := CalEpochID (Uint64 (Time x))).
  assert (uint_fits eid) as Heid.
  { unfold eid, uint_fits, CalEpochID, CalEpochSlotID. cbn [fst]. pose proof (u64_range (Z.abs (Time x))).
    unfold Uint64, PosConfig.SlotTime, PosConfig.SlotCount, PosConfig.K. zlia. }
  pose proof Hat as (_ & _ & _ & Hk & Hst). pose proof (so_fee st Hst).
  assert (forall f, fee_ok f -> fr_ValidatorAddr f = si_Address st ->
    wp (if fee >? fr_MaxFeeRate f then throw errFeeMax
        else if fee >? u64 (si_FeeRate st + PSFeeRateStep) then throw errFeeStep
        else
          saveStakeInfo (set_fee st fee);;
          saveStakeFeeRate (mkFeeRate (fr_ValidatorAddr f) (fr_MaxFeeRate f) fee eid) (si_Address st);;
          stakeUpdateFeeRateLog hash c x (mkFeeRate (fr_ValidatorAddr f) (fr_MaxFeeRate f) fee eid);; mret (@nil byte))
      (keeps 0 d) (fails d) d) as Hgo.
  { intros f Hf Hfa. destruct (Z.gtb_spec fee (fr_MaxFeeRate f)); [by apply wp_throw|].
    destruct (_ >? _); [by apply wp_throw|]. set (f' := mkFeeRate _ _ fee eid).
    assert (fee_ok f') by (destruct Hf as (? & ? & ?); split; [cbn; lia|]; by split).
    apply wp_bind, saveStakeInfo_wp; [by apply set_fee_ok|done|]. intros b' _ Hb'.
    apply wp_bind, saveFee_wp; [done|done|]. intros fb Hfb. apply finish_call_wp.
    - intros d' ?. unfold stakeUpdateFeeRateLog. case_match; [by apply log_records|by apply wp_ret].
    - eapply (both_records 0 (set_fee st fee)); try done; [by apply set_fee_ok|..];
        change (si_Address (set_fee st fee)) with (si_Address st).
      + rewrite (staker_at_stake _ _ _ _ Hat). unfold stake_total, clientsTotal, partnersTotal. cbn. lia.
      + intros b0 st0 Hat0. destruct (staker_at_fun _ _ _ _ _ _ Hat Hat0) as [_ <-]. by split. }
  apply wp_bind, getFee_wp; [done..| |].
  - apply wp_bind, wp_ret, Hgo; [|done]. unfold fee_ok. cbn. split; [lia|]. split; [lia|done].
  - intros f fb b' st' Hf _ Hfa _ _. destruct (_ =? eid); apply wp_bind; [by apply wp_throw|]. by apply wp_ret, Hgo.
Qed.

(** ** The contract *)

(** The methods that take money. *)
Definition payable (id : list byte) : bool :=
  bool_decide (id ∈ [stakeRegisterId hash; stakeInId hash; stakeAppendId hash; partnerInId hash; delegateInId hash]).
(** What a call adds to the recorded stakes when it succeeds. *)
Definition credit (input : list byte) : Z := if payable (take 4 input) then value c else 0.

(** Method ids are different. *)
Definition ids : list (list byte) :=
  [stakeRegisterId hash; stakeInId hash; stakeUpdateId hash; stakeAppendId hash; partnerInId hash; delegateInId hash;
   delegateOutId hash; stakeUpdateFeeRateId hash].

Lemma payable_ids : NoDup ids ->
  payable (stakeRegisterId hash) = true /\ payable (stakeInId hash) = true /\ payable (stakeUpdateId hash) = false /\
  payable (stakeAppendId hash) = true /\ payable (partnerInId hash) = true /\ payable (delegateInId hash) = true /\
  payable (delegateOutId hash) = false /\ payable (stakeUpdateFeeRateId hash) = false.
Proof.
  unfold ids, payable. generalize (stakeRegisterId hash) (stakeInId hash) (stakeUpdateId hash) (stakeAppendId hash)
    (partnerInId hash) (delegateInId hash) (delegateOutId hash) (stakeUpdateFeeRateId hash).
  intros i1 i2 i3 i4 i5 i6 i7 i8 Hnd. rewrite !list.NoDup_cons, !not_elem_of_cons in Hnd. destruct_and! Hnd.
  split_and!; (apply bool_decide_eq_true_2 || apply bool_decide_eq_false_2); rewrite !elem_of_cons, elem_of_nil;
    try tauto; intros ?; destruct_or?; congruence.
Qed.

Lemma Run_wp input d :
  NoDup ids -> db_ok d -> staking_inv (abs d) -> 0 <= value c -> len input < 2 ^ 62 ->
  wp (Run hash cfg input c x) (keeps (credit input) d) (fails d) d.
Proof.
  intros Hids Hd Hi Hv Hlen. pose proof (moves_refl d Hd). unfold Run.
  destruct (Z.ltb_spec (len input) 4); [by apply wp_throw|]. cbv zeta.
  assert (len (drop 4 input) < 2 ^ 62). { unfold len in *. rewrite length_drop. lia. }
  destruct (payable_ids Hids) as (P1 & P2 & N1 & P3 & P4 & P5 & N2 & N3). unfold credit.
  case_bool_decide as E1; [rewrite E1, P1; by apply StakeRegister_wp|].
  case_bool_decide as E2; [rewrite E2, P2; by apply StakeIn_wp|].
  case_bool_decide as E3; [rewrite E3, N1; by apply StakeUpdate_wp|].
  case_bool_decide as E4; [rewrite E4, P3; by apply StakeAppend_wp|].
  case_bool_decide as E5; [rewrite E5, P4; by apply PartnerIn_wp|].
  case_bool_decide as E6; [rewrite E6, P5; by apply DelegateIn_wp|].
  case_bool_decide as E7; [rewrite E7, N2; by apply DelegateOut_wp|].
  case_bool_decide as E8; [rewrite E8, N3; by apply StakeUpdateFeeRate_wp|].
  by apply wp_throw.
Qed.
End Safety.
