(* ===== verification/PrivacySpec.v ===== *)
(** The ledger of private money: what the one-time accounts hold, the invariant
    of their storage, and the proof that the wancoin and stamp contracts keep it
    and create no money ([precompile_spec]).

    Soundness of ring signatures is an assumption ([linkable]): the key image of
    an accepted signature is that of one of the public keys of the ring. *)

From S2P Require Import Prelude BigMath Encoding Abi VmData VmState StateSpec Ota Privacy Instructions Evm.
From S2P Require Import Rlp RlpSpec RlpDecode RlpCodec Staking StakingCodec StakingSpec EvmInv CodecTheorems.
Import Big GoMath Common Addr Ota Privacy Secp.

(** * Sums of stored values *)

Abbreviation msum := (map_sum be_val).

Lemma msum_nonneg (m : gmap Hash (list byte)) : 0 <= msum m.
Proof. apply map_sum_nonneg. intros k v _. apply be_val_bound. Qed.

(** A map whose entries are matched with different entries of another map. *)
Lemma msum_matched (R : Hash -> Hash -> Prop) (m1 m2 : gmap Hash (list byte)) :
  (forall h h' k, R h k -> R h' k -> h = h') ->
  map_Forall (fun h v => exists k v', R h k /\ m2 !! k = Some v' /\ be_val v' = be_val v) m1 ->
  msum m1 <= msum m2.
Proof.
  intros Hinj. revert m2. induction m1 as [|h v m1 Hh IH] using map_ind; intros m2 Hf.
  { apply msum_nonneg. }
  apply map_Forall_insert in Hf as [(k & v' & HR & Hk & Hv) Hf]; [|done].
  rewrite map_sum_insert by done. rewrite (map_sum_delete be_val m2 k v') by done. apply Z.add_le_mono; [lia|].
  apply IH. intros h' w Hw. destruct (Hf h' w Hw) as (k' & w' & HR' & Hk' & Hw').
  exists k', w'. split_and!; [done| |done]. rewrite lookup_delete_ne; [done|].
  intros <-. rewrite (Hinj h h' k) in Hh by done. congruence.
Qed.

(** * The ledger *)

Definition values : list Z := StampValueSet ++ WanCoinValueSet.

Lemma values_pos v : v ∈ values -> 0 < v < 2 ^ 256.
Proof.
  assert (Forall (fun v => 0 < v < 2 ^ 256) values) as H by (repeat constructor).
  rewrite Forall_forall in H. intros Hv%list_elem_of_In. by apply H.
Qed.

Definition max_value : Z := 50000000000000000000000.
Lemma values_max v : v ∈ values -> v <= max_value.
Proof.
  assert (Forall (fun v => v <= max_value) values) as H.
  { unfold values. repeat (constructor; [by apply Z.leb_le|]). constructor. }
  rewrite Forall_forall in H. intros Hv%list_elem_of_In. by apply H.
Qed.

(** The addresses of the ledger are different. *)
Lemma values_addr v :
  v ∈ values -> OTABalance2ContractAddr v <> otaBalanceStorageAddr /\
    OTABalance2ContractAddr v <> otaImageStorageAddr /\ OTABalance2ContractAddr v <> IncentivePrecompileAddr /\
    OTABalance2ContractAddr v <> StakersInfoAddr /\ OTABalance2ContractAddr v <> StakersFeeAddr.
Proof.
  assert (Forall (fun v => (bool_decide (OTABalance2ContractAddr v <> otaBalanceStorageAddr) &&
    bool_decide (OTABalance2ContractAddr v <> otaImageStorageAddr) &&
    bool_decide (OTABalance2ContractAddr v <> IncentivePrecompileAddr) &&
    bool_decide (OTABalance2ContractAddr v <> StakersInfoAddr) &&
    bool_decide (OTABalance2ContractAddr v <> StakersFeeAddr)) = true) values) as H.
  { repeat (constructor; [vm_compute; reflexivity|]). constructor. }
  rewrite Forall_forall in H. intros Hv%list_elem_of_In. specialize (H v Hv).
  rewrite !andb_true_iff, !bool_decide_eq_true in H. tauto.
Qed.

Lemma storage_addr_ne :
  otaBalanceStorageAddr <> otaImageStorageAddr /\ otaBalanceStorageAddr <> IncentivePrecompileAddr /\
  otaImageStorageAddr <> IncentivePrecompileAddr.
Proof. by split_and!; apply (bool_decide_unpack _); vm_compute. Qed.

Lemma staking_storage_ne :
  otaBalanceStorageAddr <> StakersInfoAddr /\ otaBalanceStorageAddr <> StakersFeeAddr /\
  otaImageStorageAddr <> StakersInfoAddr /\ otaImageStorageAddr <> StakersFeeAddr /\
  IncentivePrecompileAddr <> StakersInfoAddr /\ IncentivePrecompileAddr <> StakersFeeAddr.
Proof. by split_and!; apply (bool_decide_unpack _); vm_compute. Qed.

(** Addresses whose byte arrays hold the ledger. *)
Definition reserved (a : Address) : Prop :=
  a = otaBalanceStorageAddr \/ a = otaImageStorageAddr \/ a = IncentivePrecompileAddr \/
  (exists v, v ∈ values /\ a = OTABalance2ContractAddr v) \/ a = StakersInfoAddr \/ a = StakersFeeAddr.

(** What the accounts hold that are not spent: GetUnspendOTATotalBalance. *)
Definition unspent (s : astate) : Z :=
  msum (bytes_of s otaBalanceStorageAddr) - msum (bytes_of s otaImageStorageAddr).

(** The fees collected under a key of the incentive storage. *)
Definition pool (key : Hash) (s : astate) : Z :=
  be_val (default [] (bytes_of s IncentivePrecompileAddr !! key)).

Section Ledger.
Context (hash : list byte -> Hash) (image_of : list byte -> PublicKey) (spent0 : gmap Hash (list byte)) (key : Hash).

(** [account_at s k v w]: a one-time account of value [v] with key [k] and
    address [w]. *)
Definition account_at (s : astate) (k : Hash) (v : Z) (w : list byte) : Prop :=
  v ∈ values /\ bytes_of s (OTABalance2ContractAddr v) !! k = Some w /\
  len w = WAddressLength /\ slice w 1 33 = Some (Hash_Bytes k).

(** Every balance belongs to an account; every spent image to a different one
    of the same value; the images [spent0] are spent; and the staking records
    are consistent. *)
Record native_inv (s : astate) : Prop := {
  inv_accounts : forall k b, bytes_of s otaBalanceStorageAddr !! k = Some b ->
    exists w, account_at s k (be_val b) w;
  inv_images : forall h b, bytes_of s otaImageStorageAddr !! h = Some b ->
    exists k b' w comp, h = hash (FromECDSAPub (image_of comp)) /\
      bytes_of s otaBalanceStorageAddr !! k = Some b' /\ be_val b' = be_val b /\
      account_at s k (be_val b') w /\ slice w 0 33 = Some comp;
  inv_spent : spent0 ⊆ bytes_of s otaImageStorageAddr;
  inv_staking : staking_inv s;
}.

Definition wan_ledger : ledger := mkLedger (fun s => unspent s + pool key s) native_inv.

Lemma unspent_nonneg s : native_inv s -> 0 <= unspent s.
Proof.
  intros [Ha Hi _ _]. unfold unspent. set (B := bytes_of s otaBalanceStorageAddr) in *.
  apply Zle_minus_le_0. apply (msum_matched (fun h k => exists b' w comp,
    h = hash (FromECDSAPub (image_of comp)) /\ B !! k = Some b' /\
    account_at s k (be_val b') w /\ slice w 0 33 = Some comp)).
  - intros h h' k (b & w & c & -> & Hb & (_ & Hw & _) & Hc) (b' & w' & c' & -> & Hb' & (_ & Hw' & _) & Hc').
    congruence.
  - intros h b Hb. destruct (Hi h b Hb) as (k & b' & w & c & ? & ? & ? & ? & ?). exists k, b'.
    split_and!; [by exists b', w, c|done|done].
Qed.

Lemma native_inv_same s s' :
  (forall a, reserved a -> bytes_of s' a = bytes_of s a) -> native_inv s ->
  native_inv s' /\ wan_ledger s' = wan_ledger s.
Proof.
  intros Hsame [Ha Hi Hs0 Hst]. assert (forall k v w, account_at s k v w -> account_at s' k v w) as Hat.
  { intros k v w (Hv & Hw & ? & ?). split_and!; try done. rewrite Hsame; [done|]. do 3 right. left. by exists v. }
  assert (reserved otaBalanceStorageAddr) by by left.
  assert (reserved otaImageStorageAddr) by (right; by left).
  assert (reserved IncentivePrecompileAddr) by (right; right; by left).
  split; [split|cbn; unfold unspent, pool; by rewrite !Hsame].
  - rewrite Hsame by done. intros k b Hb. destruct (Ha k b Hb) as [w ?]. eauto.
  - rewrite Hsame by done. intros h b Hb. destruct (Hi h b Hb) as (k & b' & w & c & ? & ? & ? & ? & ?).
    exists k, b', w, c. rewrite Hsame by done. split_and!; auto.
  - by rewrite Hsame.
  - apply (staking_inv_same s); [apply Hsame; do 4 right; by left|apply Hsame; by do 5 right|done].
Qed.

(** Changes of the staking records only. *)
Lemma native_inv_staking s s' :
  (forall a, a <> StakersInfoAddr -> a <> StakersFeeAddr -> bytes_of s' a = bytes_of s a) -> native_inv s ->
  staking_inv s' -> native_inv s' /\ wan_ledger s' = wan_ledger s.
Proof.
  intros Hsame [Ha Hi Hs0 _] Hst. destruct staking_storage_ne as (? & ? & ? & ? & ? & ?).
  assert (forall k v w, account_at s k v w -> account_at s' k v w) as Hat.
  { intros k v w (Hv & Hw & ? & ?). destruct (values_addr v Hv) as (_ & _ & _ & ? & ?). split_and!; try done. by rewrite Hsame. }
  split; [split|cbn; unfold unspent, pool; by rewrite !Hsame]; [..|done].
  - rewrite Hsame by done. intros k b Hb. destruct (Ha k b Hb) as [w ?]. eauto.
  - rewrite Hsame by done. intros h b Hb. destruct (Hi h b Hb) as (k & b' & w & c & ? & ? & ? & ? & ?).
    exists k, b', w, c. rewrite Hsame by done. split_and!; auto.
  - by rewrite Hsame.
Qed.
End Ledger.

(** * Changes of the byte arrays *)

Lemma Bytes_nonempty v : v <> 0 -> len (Bytes v) <> 0.
Proof.
  intros Hv H0. apply len_nil_iff in H0. pose proof (SetBytes_Bytes v) as H. rewrite H0 in H.
  change (SetBytes []) with 0 in H. lia.
Qed.

Lemma msum_set (m : gmap Hash (list byte)) k v :
  msum (<[k := v]> m) = msum m - be_val (default [] (m !! k)) + be_val v.
Proof. rewrite map_sum_set. by destruct (m !! k). Qed.

Section Changes.
Context (hash : list byte -> Hash) (image_of : list byte -> PublicKey) (spent0 : gmap Hash (list byte)) (key : Hash).
Abbreviation inv := (native_inv hash image_of spent0).
Abbreviation ledger := (wan_ledger hash image_of spent0 key).

Definition balance_of (s : astate) (k : Hash) : Z := be_val (default [] (bytes_of s otaBalanceStorageAddr !! k)).

(** An account without balance has no entry. *)
Lemma no_balance s k : inv s -> balance_of s k = 0 -> bytes_of s otaBalanceStorageAddr !! k = None.
Proof.
  intros [Ha _ _] Hb. unfold balance_of in Hb. destruct (_ !! k) as [b|] eqn:E; [|done].
  cbn [default from_option id] in Hb. destruct (Ha k b E) as (w & Hv & _). apply values_pos in Hv. lia.
Qed.

(** setOTA of a new account. *)
Definition with_account (v : Z) (k : Hash) (w : list byte) (s : astate) : astate :=
  abs_update (USetStateByteArray otaBalanceStorageAddr k (Bytes v))
    (abs_update (USetStateByteArray (OTABalance2ContractAddr v) k w) s).

Lemma with_account_bytes v k w s a :
  v ∈ values -> len w = WAddressLength ->
  bytes_of (with_account v k w s) a =
  if decide (otaBalanceStorageAddr = a) then <[k := Bytes v]> (bytes_of s a)
  else if decide (OTABalance2ContractAddr v = a) then <[k := w]> (bytes_of s a) else bytes_of s a.
Proof.
  intros Hv Hw. pose proof (values_pos v Hv). destruct (values_addr v Hv) as (? & _).
  unfold with_account. rewrite bytes_of_set by (apply Bytes_nonempty; lia).
  rewrite bytes_of_set by (rewrite Hw; unfold WAddressLength; lia).
  repeat case_decide; congruence.
Qed.

Lemma with_account_ok v k w s :
  inv s -> v ∈ values -> len w = WAddressLength -> slice w 1 33 = Some (Hash_Bytes k) ->
  balance_of s k = 0 ->
  inv (with_account v k w s) /\ ledger (with_account v k w s) = ledger s + v.
Proof.
  intros Hinv Hv Hw Hk Hb. pose proof (values_pos v Hv). pose proof (no_balance s k Hinv Hb) as Hnone.
  destruct (values_addr v Hv) as (? & ? & ? & ? & ?). destruct storage_addr_ne as (? & ? & ?).
  assert (forall k' v' w', k' <> k -> account_at s k' v' w' -> account_at (with_account v k w s) k' v' w') as Hold.
  { intros k' v' w' Hne (Hv' & Hw' & ? & ?). split_and!; try done. destruct (values_addr v' Hv') as (? & _).
    rewrite with_account_bytes by done. rewrite decide_False by done.
    case_decide; [by rewrite lookup_insert_ne|done]. }
  destruct Hinv as [Ha Hi Hs0 Hst]. split; [split|].
  - rewrite with_account_bytes, decide_True by done. intros k' b'.
    intros [[<- <-]|[Hne Hb']]%lookup_insert_Some.
    + exists w. pose proof (SetBytes_Bytes v) as Hbv. unfold SetBytes in Hbv. rewrite Hbv, Z.abs_eq by lia.
      split_and!; try done. rewrite with_account_bytes by done.
      by rewrite decide_False, decide_True, lookup_insert_eq by done.
    + destruct (Ha k' b' Hb') as [w' Hw']. exists w'. auto.
  - rewrite (with_account_bytes _ _ _ _ otaImageStorageAddr) by done.
    rewrite !decide_False by congruence. intros h b Hh.
    destruct (Hi h b Hh) as (k' & b' & w' & c & ? & Hb' & ? & ? & ?).
    assert (k' <> k) by (intros ->; congruence).
    exists k', b', w', c. rewrite with_account_bytes, decide_True, lookup_insert_ne by done. split_and!; auto.
  - by rewrite with_account_bytes, !decide_False by congruence.
  - destruct staking_storage_ne as (? & ? & _). apply (staking_inv_same s); [..|done]; unfold stakers, fees;
      by rewrite with_account_bytes, !decide_False by done.
  - unfold wan_ledger. cbn [kept]. unfold unspent, pool. rewrite !with_account_bytes by done.
    rewrite decide_True, !decide_False by congruence.
    rewrite msum_set, Hnone. pose proof (SetBytes_Bytes v) as Hbv. unfold SetBytes in Hbv. rewrite Hbv.
    change (be_val (default [] None)) with 0. lia.
Qed.

(** [holder s comp v]: the public key with compressed form [comp] owns an account
    of value [v]. *)
Definition holder (s : astate) (comp : list byte) (v : Z) : Prop :=
  exists k b w, bytes_of s otaBalanceStorageAddr !! k = Some b /\ be_val b = v /\
    account_at s k v w /\ slice w 0 33 = Some comp.

(** AddOTAImage of a new image. *)
Definition with_image (h : Hash) (v : Z) (s : astate) : astate :=
  abs_update (USetStateByteArray otaImageStorageAddr h (Bytes v)) s.

Lemma with_image_bytes h v s a :
  v ∈ values ->
  bytes_of (with_image h v s) a =
  if decide (otaImageStorageAddr = a) then <[h := Bytes v]> (bytes_of s a) else bytes_of s a.
Proof.
  intros Hv. pose proof (values_pos v Hv). apply bytes_of_set, Bytes_nonempty. lia.
Qed.

Lemma with_image_ok comp v s :
  let h := hash (FromECDSAPub (image_of comp)) in
  inv s -> holder s comp v -> default [] (bytes_of s otaImageStorageAddr !! h) = [] ->
  inv (with_image h v s) /\ ledger (with_image h v s) = ledger s - v.
Proof.
  intros h [Ha Hi Hs0 Hst] (k & b & w & Hb & Hbv & Hat & Hc) Hnew. pose proof Hat as (Hv & _).
  pose proof (values_pos v Hv). destruct storage_addr_ne as (? & ? & ?).
  pose proof (SetBytes_Bytes v) as HB. unfold SetBytes in HB. rewrite Z.abs_eq in HB by lia.
  assert (forall k v' w, account_at s k v' w -> account_at (with_image h v s) k v' w) as Hold.
  { intros k' v' w' (Hv' & Hw' & ? & ?). destruct (values_addr v' Hv') as (_ & ? & _).
    split_and!; try done. by rewrite with_image_bytes, decide_False. }
  split; [split|].
  - rewrite with_image_bytes, decide_False by done. intros k' b' Hb'. destruct (Ha k' b' Hb') as [w' ?]. eauto.
  - rewrite with_image_bytes, decide_True by done. intros h' b' [[<- <-]|[Hne Hb']]%lookup_insert_Some.
    + exists k, b, w, comp. rewrite with_image_bytes, decide_False by done. rewrite HB, Hbv. split_and!; auto.
    + destruct (Hi h' b' Hb') as (k' & b'' & w' & c & ? & ? & ? & ? & ?). exists k', b'', w', c.
      rewrite with_image_bytes, decide_False by done. split_and!; auto.
  - rewrite with_image_bytes, decide_True by done. apply insert_subseteq_r; [|done].
    apply eq_None_not_Some. intros [b0 Hb0]. pose proof (lookup_weaken _ _ _ _ Hb0 Hs0) as Hb1.
    rewrite Hb1 in Hnew. cbn in Hnew. subst b0. destruct (Hi h [] Hb1) as (? & b'' & ? & ? & _ & _ & Hz & (Hv' & _) & _).
    apply values_pos in Hv'. change (be_val []) with 0 in Hz. lia.
  - destruct staking_storage_ne as (_ & _ & ? & ? & _). apply (staking_inv_same s); [..|done]; unfold stakers, fees;
      by rewrite with_image_bytes, decide_False by done.
  - unfold wan_ledger. cbn [kept]. unfold unspent, pool. rewrite !with_image_bytes by done.
    repeat (case_decide; try congruence). rewrite msum_set, Hnew, HB.
    change (be_val []) with 0. lia.
Qed.
End Changes.
