(* ===== verification/PrivacySafety.v ===== *)
(** The functions of core/vm/ota_storage.go and the contracts of
    core/vm/contracts.go keep the ledger of private money: weakest preconditions
    of every function; and [precompile_spec] of all native contracts that are
    modelled, with the staking contract. *)

From S2P Require Import Prelude BigMath Encoding Abi VmData VmState StateSpec Ota Privacy Instructions Evm.
From S2P Require Import AbiSafety Rlp RlpSpec RlpDecode RlpCodec Staking StakingCodec StakingSpec Contracts.
From S2P Require Import EvmInv CodecTheorems StakingSafety PrivacySpec.
Import Big GoMath Common Addr Ota Privacy Secp.

Section Safety.
Context {db : Type} `{!StateDB db} (hash : list byte -> Hash) `{!StateDBSpec db hash}.
Context (image_of : list byte -> PublicKey) (spent0 : gmap Hash (list byte)) (key : Hash).
Context (VerifyRingSign : list byte -> list PublicKey -> PublicKey -> list Z -> list Z -> bool).

(** Ring signatures are linkable: an accepted signature carries the key image of
    a public key of the ring. *)
Definition linkable : Prop := forall m pks image w q,
  VerifyRingSign m pks image w q = true ->
  exists pk, pk ∈ pks /\ image = image_of (ECDSAPKCompression pk).
Context (Hlink : linkable).

Abbreviation inv := (native_inv hash image_of spent0).
Abbreviation wledger := (wan_ledger hash image_of spent0 key).
Abbreviation M := (ST db vmerror).
Implicit Types (d : db) (F : vmerror -> db -> Prop).

(** ** core/vm/ota_storage.go *)

Lemma read_wp a k d (Q : list byte -> db -> Prop) F :
  db_ok d -> Q (default [] (bytes_of (abs d) a !! k)) d -> wp (read_bytes a k) Q F d.
Proof.
  intros Hd HQ. apply wp_gets. by rewrite (GetStateByteArray_spec (hash:=hash)).
Qed.

Lemma GetAX_wp w d (Q : list byte -> db -> Prop) F :
  (forall ax, len w = WAddressLength -> len ax = 32 -> slice w 1 33 = Some ax -> Q ax d) ->
  F ErrInvalidOTAAddr d -> wp (GetAXFromWanAddr w) Q F d.
Proof.
  intros HQ HF. unfold GetAXFromWanAddr. destruct (Z.eqb_spec (len w) WAddressLength) as [Hw|]; cbn [negb];
    [|by apply wp_throw].
  assert (slice w 1 33 = Some (take (Z.to_nat (33 - 1)) (drop (Z.to_nat 1) w))) as Hs.
  { apply slice_Some; rewrite ?Hw; unfold WAddressLength; lia. }
  eapply wp_must; [exact Hs|]. apply HQ; [done| |done]. by apply slice_len in Hs as [-> _].
Qed.

Lemma GetOtaBalance_wp ax d (Q : Z -> db -> Prop) F :
  db_ok d -> (len ax = 32 -> Q (balance_of (abs d) (BytesToHash ax)) d) ->
  (len ax <> 32 -> F ErrInvalidOTAAX d) ->
  wp (GetOtaBalanceFromAX ax) Q F d.
Proof.
  intros Hd HQ HF. unfold GetOtaBalanceFromAX.
  destruct (Z.eqb_spec (len ax) (Z.of_nat HashLength)) as [Hl|]; cbn [negb]; [|by apply wp_throw, HF].
  apply wp_bind, read_wp; [done|]. specialize (HQ Hl). unfold balance_of in HQ.
  destruct (Z.eqb_spec (len (default [] (bytes_of (abs d) otaBalanceStorageAddr !! BytesToHash ax))) 0) as [H0|];
    apply wp_ret; [|done].
  apply len_nil_iff in H0. by rewrite H0 in HQ.
Qed.

Lemma CheckAX_wp ax d (Q : bool * option Z -> db -> Prop) F :
  db_ok d ->
  (forall b, len ax = 32 -> (b = false -> balance_of (abs d) (BytesToHash ax) = 0) ->
     Q (b, if b then Some (balance_of (abs d) (BytesToHash ax)) else None) d) ->
  F ErrInvalidOTAAX d -> wp (CheckOTAAXExist ax) Q F d.
Proof.
  intros Hd HQ HF. unfold CheckOTAAXExist.
  destruct (Z.eqb_spec (len ax) (Z.of_nat HashLength)) as [Hl|]; cbn [negb]; [|by apply wp_throw].
  apply wp_bind, GetOtaBalance_wp; [done| |done]. intros _.
  destruct (Z.eqb_spec (balance_of (abs d) (BytesToHash ax)) 0); apply wp_ret.
  - by apply (HQ false).
  - by apply (HQ true).
Qed.

Lemma CheckLong_wp ota d (Q : bool * option Z -> db -> Prop) F :
  db_ok d -> inv (abs d) -> Q (false, None) d ->
  (forall v, holder (abs d) ota v -> Q (true, Some v) d) -> (forall err, F err d) ->
  wp (CheckOTALongAddrExist ota) Q F d.
Proof.
  intros Hd [Ha _ _] Hno Hyes HF. unfold CheckOTALongAddrExist.
  destruct (Z.eqb_spec (len ota) 33) as [Hl|]; cbn [negb]; [|by apply wp_throw].
  apply wp_bind. eapply wp_must; [apply slice_Some; unfold HashLength; lia|]. set (ax := take _ _).
  apply wp_bind, GetOtaBalance_wp; [done| |done]. intros _.
  destruct (Z.eqb_spec (balance_of (abs d) (BytesToHash ax)) 0) as [|Hb]; [by apply wp_ret|].
  unfold balance_of in *. set (k := BytesToHash ax) in *.
  destruct (bytes_of (abs d) otaBalanceStorageAddr !! k) as [b|] eqn:Eb; [|done].
  cbn [default from_option id] in *. destruct (Ha k b Eb) as (w & Hat). pose proof Hat as (_ & Hw & Hlw & _).
  apply wp_bind, read_wp; [done|]. rewrite Hw. cbn [default from_option id].
  rewrite Hlw. change (WAddressLength =? 0) with false. cbv iota.
  assert (exists p, slice w 0 33 = Some p) as [p Hp].
  { eexists. apply slice_Some; rewrite ?Hlw; unfold WAddressLength; lia. }
  apply wp_bind. eapply wp_must; [exact Hp|]. case_bool_decide as Heq; cbn [negb]; apply wp_ret; [|done].
  apply Hyes. exists k, b, w. by subst.
Qed.

Lemma batCheck_wp otas bal d (Q : option Z -> db -> Prop) F :
  db_ok d -> inv (abs d) -> (forall err, F err d) ->
  (forall r, (forall b, bal = Some b -> r = Some b) -> (otas <> [] -> is_Some r) ->
     (forall v, r = Some v -> Forall (fun ota => holder (abs d) ota v) otas) -> Q r d) ->
  wp (batCheck otas bal) Q F d.
Proof.
  intros Hd Hi HF. revert bal Q. induction otas as [|ota otas IH]; intros bal Q HQ; cbn [batCheck].
  { apply wp_ret, HQ; [done|done|]. constructor. }
  destruct (negb _); [by apply wp_throw|]. apply wp_bind, CheckLong_wp; try done; [by apply wp_throw|].
  intros v Hv. cbn [negb]. apply wp_bind, wp_ret. destruct (v =? 0); [by apply wp_throw|].
  destruct bal as [b0|].
  - destruct (Z.eqb_spec b0 v) as [->|]; cbn [negb]; [|by apply wp_throw].
    apply IH. intros r Hr _ Hall. apply HQ; [done|by rewrite (Hr v)|].
    intros u Hu. constructor; [|auto]. rewrite (Hr v) in Hu by done. by injection Hu as <-.
  - apply IH. intros r Hr _ Hall. apply HQ; [done|by rewrite (Hr v)|].
    intros u Hu. constructor; [|auto]. rewrite (Hr v) in Hu by done. by injection Hu as <-.
Qed.

Lemma BatCheck_wp pks d (Q : option Z -> db -> Prop) F :
  db_ok d -> inv (abs d) -> (forall err, F err d) ->
  (forall v, Forall (fun pk => holder (abs d) (ECDSAPKCompression pk) v) pks -> Q (Some v) d) ->
  wp (BatCheckOTAExist (ECDSAPKCompression <$> pks)) Q F d.
Proof.
  intros Hd Hi HF HQ. unfold BatCheckOTAExist. destruct (Z.eqb_spec (len (ECDSAPKCompression <$> pks)) 0) as [|Hne];
    [by apply wp_throw|].
  apply batCheck_wp; try done. intros r _ Hsome Hall. destruct Hsome as [v ->]; [intros Hnil; by rewrite Hnil in Hne|].
  apply HQ. specialize (Hall v eq_refl). by rewrite Forall_fmap in Hall.
Qed.

Lemma CheckImage_wp image d (Q : bool * list byte -> db -> Prop) F :
  db_ok d -> (forall v, Q (true, v) d) ->
  (default [] (bytes_of (abs d) otaImageStorageAddr !! hash image) = [] -> Q (false, []) d) ->
  F errInvalidInputParam d -> wp (CheckOTAImageExist hash image) Q F d.
Proof.
  intros Hd Hyes Hno HF. unfold CheckOTAImageExist. case_match; [by apply wp_throw|].
  apply wp_bind, read_wp; [done|]. destruct (Z.eqb_spec (len (default [] (bytes_of (abs d)
    otaImageStorageAddr !! hash image))) 0) as [H0|]; cbn [negb]; apply wp_ret; [|done].
  by apply Hno, len_nil_iff.
Qed.

Lemma AddOTA_wp v w d (Q : bool -> db -> Prop) F :
  db_ok d -> (forall err, F err d) ->
  (forall k, len w = WAddressLength -> slice w 1 33 = Some (Hash_Bytes k) -> balance_of (abs d) k = 0 ->
     Q true (apply_update (USetStateByteArray otaBalanceStorageAddr k (Bytes v))
               (apply_update (USetStateByteArray (OTABalance2ContractAddr v) k w) d))) ->
  wp (AddOTAIfNotExist v w) Q F d.
Proof.
  intros Hd HF HQ. unfold AddOTAIfNotExist. case_match eqn:Hw; [by apply wp_throw|].
  apply wp_bind, GetAX_wp; [|done]. intros ax Hlw Hla Hs. rewrite Hash_Bytes_BytesToHash by done.
  apply wp_bind, CheckAX_wp; [done| |done]. intros [] _ Hb; [by apply wp_throw|].
  apply wp_bind. unfold setOTA. rewrite Hw. apply wp_bind, GetAX_wp; [|done].
  intros ax' _ _ Hs'. rewrite Hs in Hs'. injection Hs' as <-.
  apply wp_bind, wp_modify. unfold SetOtaBalanceToAX. rewrite Hla. cbn [negb].
  apply wp_modify, wp_ret, HQ; [done| |by apply Hb]. by rewrite Hash_Bytes_BytesToHash.
Qed.

(** The total after an update that keeps the byte arrays. *)
Lemma total_same_bytes u s : keeps_bytes u -> inv s -> total wledger (abs_update u s) = supply (abs_update u s) + wledger s.
Proof.
  intros Hu Hi. unfold total. f_equal. eapply native_inv_same; [|exact Hi]. intros. by apply bytes_of_keep.
Qed.

(** ** core/vm/contracts.go *)

Lemma unpackArgs_wp unpack payload err d (Q : list byte * Z -> db -> Prop) F :
  wp (unpack [Abi.StringTy; Abi.UintTy 256] payload)
    (fun l _ => exists s n, l = [Abi.VString s; Abi.VInt n] /\ 0 <= n) (fun _ _ => True) tt ->
  (forall s n, 0 <= n -> unpack [Abi.StringTy; Abi.UintTy 256] payload tt = Ok [Abi.VString s; Abi.VInt n] tt ->
     Q (s, n) d) -> F err d -> wp (unpackArgs unpack payload err) Q F d.
Proof.
  intros Hu HQ HF. unfold wp, unpackArgs in *.
  destruct (unpack _ payload tt) as [l []|e u| |]; try done. destruct Hu as (s & n & -> & Hn). by apply HQ.
Qed.

Lemma hexDecode_wp s d (Q : list byte -> db -> Prop) F :
  (forall b, Hexutil.Decode s = (b, None) -> Q b d) -> (forall err, F err d) -> wp (hexDecode s) Q F d.
Proof.
  intros HQ HF. unfold hexDecode. destruct (Hexutil.Decode s) as [b [[]|]]; first [by apply wp_throw|by apply wp_ret, HQ].
Qed.

Lemma orFail_wp {A} (m : M A) err d (Q : A -> db -> Prop) F :
  wp m Q (fun _ d' => F err d') d -> wp (orFail m err) Q F d.
Proof. unfold wp, orFail. by destruct (m d). Qed.

(** An error turned into the empty slice. *)
Lemma recover_wp (m : M (list byte)) d (Q : list byte -> db -> Prop) F :
  wp m Q (fun _ d' => Q [] d') d ->
  wp (fun d => match m d with Fail _ d' => Ok [] d' | r => r end) Q F d.
Proof. unfold wp. by destruct (m d). Qed.

Lemma FetchRing_wp from s d (Q : RingSignInfo -> db -> Prop) F :
  db_ok d -> inv (abs d) -> (forall err, F err d) ->
  (forall info comp, KeyImage info = image_of comp -> holder (abs d) comp (OTABalance info) ->
     DecodeRingSignOut s = Some (PublicKeys info, KeyImage info, W_Random info, Q_Random info) -> Q info d) ->
  wp (FetchRingSignInfo VerifyRingSign from s) Q F d.
Proof.
  intros Hd Hi HF HQ. unfold FetchRingSignInfo.
  destruct (DecodeRingSignOut s) as [[[[pks image] w] q]|]; [|by apply wp_throw].
  apply wp_bind, BatCheck_wp; try done. intros v Hall. apply wp_bind, wp_ret.
  destruct (VerifyRingSign from pks image w q) eqn:Hv; cbn [negb]; [|by apply wp_throw].
  destruct (Hlink _ _ _ _ _ Hv) as (pk & Hpk & ->). apply wp_ret. eapply HQ; [done| |done]. cbn.
  by apply (proj1 (Forall_forall _ _) Hall), list_elem_of_In.
Qed.

(** A successful contract. *)
Definition good d d' : Prop :=
  moves d d' /\ state_ok (abs d') /\ inv (abs d') /\ total wledger (abs d') <= total wledger (abs d).

(** The database after an account was bought and before it was paid. *)
Definition bought (v : Z) (w : list byte) (k : Hash) d : db :=
  apply_update (USetStateByteArray otaBalanceStorageAddr k (Bytes v))
    (apply_update (USetStateByteArray (OTABalance2ContractAddr v) k w) d).

(** A new account can be stored at [k] for the address [w]. *)
Definition vacant (w : list byte) (k : Hash) d : Prop :=
  len w = WAddressLength /\ slice w 1 33 = Some (Hash_Bytes k) /\ balance_of (abs d) k = 0.

Lemma bought_moves v w k d : db_ok d -> moves d (bought v w k d).
Proof. intros. by repeat apply moves_update; apply moves_refl. Qed.

Lemma bought_abs v w k d : db_ok d -> abs (bought v w k d) = with_account v k w (abs d).
Proof. intros. unfold bought. rewrite !update_abs; [done|done|by apply update_ok]. Qed.

Lemma balance_with_bytes a b k v s :
  a_balance (acct (on_account b (with_bytes k v) s) a) = a_balance (acct s a).
Proof.
  destruct (decide (b = a)) as [->|]; [by rewrite acct_on_account_eq|by rewrite acct_on_account_ne].
Qed.

Lemma bought_acct v w k d a : db_ok d -> a_balance (acct (abs (bought v w k d)) a) = a_balance (acct (abs d) a).
Proof.
  intros. rewrite bought_abs by done. unfold with_account. cbn [abs_update].
  rewrite !balance_with_bytes. done.
Qed.

(** The part of buyStamp and buyCoin after the checks. *)
Lemma buy_wp v w c err d (Q : list byte -> db -> Prop) F :
  db_ok d -> v = value c -> F err d ->
  (forall k, vacant w k d -> F errBalance (bought v w k d)) ->
  (forall k, vacant w k d -> v <= a_balance (acct (abs d) (CallerAddress c)) ->
     Q [x01] (apply_update (USubBalance (CallerAddress c) v) (bought v w k d))) ->
  wp (add ← orFail (AddOTAIfNotExist v w) err; if negb add then throw err else pay c) Q F d.
Proof.
  intros Hd -> HF HFb HQ. apply wp_bind, orFail_wp, AddOTA_wp; [done..|].
  intros k Hlw Hk Hb. cbn [negb]. fold (bought (value c) w k d).
  pose proof (moves_ok _ _ (bought_moves (value c) w k d Hd)).
  unfold pay. apply wp_bind, wp_gets. rewrite (GetBalance_spec (hash:=hash)), bought_acct by done.
  destruct (Z.geb_spec (a_balance (acct (abs d) (CallerAddress c))) (value c)); [|by apply wp_throw, HFb].
  by apply wp_bind, wp_modify, wp_ret, HQ.
Qed.

Lemma bought_good v w k a d :
  db_ok d -> state_ok (abs d) -> inv (abs d) -> v ∈ values -> vacant w k d ->
  v <= a_balance (acct (abs d) a) -> good d (apply_update (USubBalance a v) (bought v w k d)).
Proof.
  intros Hd Hst Hi Hv (Hlw & Hk & Hb) Hbal. pose proof (values_pos v Hv).
  destruct (with_account_ok hash image_of spent0 key v k w (abs d)) as [Hi' Hl]; [done..|].
  pose proof (bought_abs v w k d Hd) as Habs. pose proof (bought_moves v w k d Hd) as Hm.
  rewrite <- (bought_acct v w k d a Hd) in Hbal. revert Hbal Habs Hm. generalize (bought v w k d). intros d' Hbal Habs Hm.
  pose proof (moves_ok _ _ Hm). rewrite <- Habs in Hi', Hl.
  split_and!; [by apply moves_update|..]; rewrite update_abs by done.
  - apply update_state_ok; [|done]. rewrite Habs. by repeat apply update_state_ok.
  - destruct (native_inv_same hash image_of spent0 key (abs d') (abs_update (USubBalance a v) (abs d'))); [|done..].
    intros. by apply bytes_of_keep.
  - rewrite total_same_bytes, update_supply, Hl, Habs by done. unfold with_account. rewrite !update_supply.
    cbn [minted]. unfold total. lia.
Qed.

(** The one-time address in the arguments of a purchase. *)
Definition buy_address (unpack : list Abi.Ty -> list byte -> Abi.R (list Abi.value)) (payload : list byte)
    : option (list byte) :=
  match unpack [Abi.StringTy; Abi.UintTy 256] payload tt with
  | Ok [Abi.VString s; _] _ => match Hexutil.Decode s with (w, None) => Some w | _ => None end
  | _ => None
  end.

Lemma ValidBuyStamp_wp payload v d (Q : list byte -> db -> Prop) F :
  db_ok d -> (forall err, F err d) ->
  (forall w, v ∈ StampValueSet -> buy_address Abi.UnpackTmp payload = Some w -> Q w d) ->
  wp (ValidBuyStampReq payload v) Q F d.
Proof.
  intros Hd HF HQ. unfold ValidBuyStampReq. case_match; [by apply wp_throw|].
  apply wp_bind, unpackArgs_wp; [apply UnpackTmp_total| |done]. intros s n Hn Hargs.
  destruct (Z.eqb_spec n v) as [->|]; cbn [negb]; [|by apply wp_throw].
  case_bool_decide as Hv; cbn [negb]; [|by apply wp_throw].
  apply wp_bind, hexDecode_wp; [|done]. intros w Hw. apply wp_bind.
  assert (forall ax, wp ('(found, _) ← CheckOTAAXExist ax; if found : bool then throw ErrOTAReused else mret w) Q F d)
    as Hrest.
  { intros ax. apply wp_bind, CheckAX_wp; [done| |done]. intros [] _ _; [by apply wp_throw|].
    apply wp_ret, HQ; [done|]. unfold buy_address. by rewrite Hargs, Hw. }
  apply recover_wp, GetAX_wp; [intros; apply Hrest|apply Hrest].
Qed.

Lemma ValidBuyCoin_wp payload v d (Q : list byte -> db -> Prop) F :
  db_ok d -> (forall err, F err d) ->
  (forall w, v ∈ WanCoinValueSet -> buy_address Abi.Unpack payload = Some w -> Q w d) ->
  wp (ValidBuyCoinReq payload v) Q F d.
Proof.
  intros Hd HF HQ. unfold ValidBuyCoinReq. case_match; [by apply wp_throw|].
  apply wp_bind, unpackArgs_wp; [apply Unpack_total| |done]. intros s n Hn Hargs.
  destruct (Z.eqb_spec n v) as [->|]; cbn [negb]; [|by apply wp_throw].
  case_bool_decide as Hv; cbn [negb]; [|by apply wp_throw].
  apply wp_bind, hexDecode_wp; [|done]. intros w Hw. apply wp_bind, GetAX_wp; [|done]. intros ax _ _ _.
  apply wp_bind, CheckAX_wp; [done| |done]. intros [] _ _; [by apply wp_throw|].
  apply wp_ret, HQ; [done|]. unfold buy_address. by rewrite Hargs, Hw.
Qed.

Lemma buyStamp_wp input c d :
  db_ok d -> state_ok (abs d) -> inv (abs d) ->
  wp (buyStamp input c) (fun ret d' => len ret < 2 ^ 62 /\ good d d') (fun _ d' => moves d d') d.
Proof.
  intros Hd Hst Hi. apply wp_bind, ValidBuyStamp_wp; [done|intros; by apply moves_refl|].
  intros w Hv _. apply buy_wp; [done..|by apply moves_refl|intros; by apply bought_moves|].
  intros. split; [done|]. apply bought_good; try done. apply elem_of_app. by left.
Qed.

Lemma buyCoin_wp input c d (Q : list byte -> db -> Prop) F :
  db_ok d -> (forall d' err, moves d d' -> F err d') ->
  (forall w k, value c ∈ WanCoinValueSet -> buy_address Abi.Unpack input = Some w -> vacant w k d ->
     value c <= a_balance (acct (abs d) (CallerAddress c)) ->
     Q [x01] (apply_update (USubBalance (CallerAddress c) (value c)) (bought (value c) w k d))) ->
  wp (buyCoin input c) Q F d.
Proof.
  intros Hd HF HQ. apply wp_bind, ValidBuyCoin_wp; [done|intros; by apply HF, moves_refl|].
  intros w Hv Hw. apply buy_wp; [done..|by apply HF, moves_refl|intros; by apply HF, bought_moves|].
  intros. by apply HQ.
Qed.

(** The key image in the arguments of a refund. *)
Definition refund_image (payload : list byte) : option PublicKey :=
  match Abi.Unpack [Abi.StringTy; Abi.UintTy 256] payload tt with
  | Ok [Abi.VString s; _] _ => '(_, image, _, _) ← DecodeRingSignOut s; Some image
  | _ => None
  end.

Lemma ValidRefund_wp payload from d (Q : list byte * Z -> db -> Prop) F :
  db_ok d -> inv (abs d) -> (forall err, F err d) ->
  (forall comp v, let kix := FromECDSAPub (image_of comp) in
     holder (abs d) comp v -> refund_image payload = Some (image_of comp) ->
     default [] (bytes_of (abs d) otaImageStorageAddr !! hash kix) = [] -> Q (kix, v) d) ->
  wp (ValidRefundReq hash VerifyRingSign payload from) Q F d.
Proof.
  intros Hd Hi HF HQ. unfold ValidRefundReq. case_match; [by apply wp_throw|].
  apply wp_bind, unpackArgs_wp; [apply Unpack_total| |done]. intros s n _ Hargs.
  apply wp_bind, FetchRing_wp; try done. intros info comp Himg Hh Hring.
  destruct (Z.eqb_spec (OTABalance info) n) as [<-|]; cbn [negb]; [|by apply wp_throw].
  apply wp_bind, CheckImage_wp; [done|by intros; apply wp_throw| |done].
  rewrite Himg. intros Hnew. apply wp_ret, HQ; [done| |done]. unfold refund_image.
  rewrite Hargs, Hring. cbn. by rewrite Himg.
Qed.

Lemma image_length pk : (len (FromECDSAPub pk) =? 0) = false.
Proof. unfold FromECDSAPub. by rewrite !len_app, !len_be_bytes. Qed.

(** The database after a refund. *)
Definition refunded (image : PublicKey) (v : Z) (a : Address) d : db :=
  apply_update (UAddBalance a v)
    (apply_update (USetStateByteArray otaImageStorageAddr (hash (FromECDSAPub image)) (Bytes v)) d).

Lemma refund_wp input c d (Q : list byte -> db -> Prop) F :
  db_ok d -> inv (abs d) -> (forall err, F err d) ->
  (forall comp v, holder (abs d) comp v -> refund_image input = Some (image_of comp) ->
     default [] (bytes_of (abs d) otaImageStorageAddr !! hash (FromECDSAPub (image_of comp))) = [] ->
     Q [x01] (refunded (image_of comp) v (CallerAddress c) d)) ->
  wp (refund hash VerifyRingSign input c) Q F d.
Proof.
  intros Hd Hi HF HQ. apply wp_bind, ValidRefund_wp; [done..|].
  intros comp v kix Hh Himg Hnew. pose proof Hh as (k & b & w & _ & _ & (Hv & _) & _). pose proof (values_pos v Hv).
  apply wp_bind. unfold AddOTAImage. unfold kix at 1. rewrite image_length. cbn [orb].
  destruct (Z.eqb_spec (len (Bytes v)) 0) as [H0|]; [by apply Bytes_nonempty in H0; [|lia]|].
  by apply wp_modify, wp_bind, wp_modify, wp_ret, HQ.
Qed.

Lemma refunded_good comp v a d :
  db_ok d -> state_ok (abs d) -> inv (abs d) -> holder (abs d) comp v ->
  default [] (bytes_of (abs d) otaImageStorageAddr !! hash (FromECDSAPub (image_of comp))) = [] ->
  good d (refunded (image_of comp) v a d).
Proof.
  intros Hd Hst Hi Hh Hnew. destruct (with_image_ok hash image_of spent0 key comp v (abs d)) as [Hi' Hl]; [done..|].
  pose proof Hh as (k & b & w & _ & _ & (Hv & _) & _). pose proof (values_pos v Hv).
  unfold refunded. set (u := USetStateByteArray _ _ _). set (d' := apply_update u d).
  assert (db_ok d') by by apply update_ok.
  assert (abs d' = with_image (hash (FromECDSAPub (image_of comp))) v (abs d)) as Habs by by apply update_abs.
  rewrite <- Habs in Hi', Hl.
  split_and!; [by repeat apply moves_update; apply moves_refl|..]; rewrite (update_abs d') by done.
  - apply update_state_ok; [|done]. rewrite Habs. by apply update_state_ok.
  - destruct (native_inv_same hash image_of spent0 key (abs d') (abs_update (UAddBalance a v) (abs d'))); [|done..].
    intros. by apply bytes_of_keep.
  - rewrite total_same_bytes, update_supply, Hl, Habs by done. unfold with_image. rewrite update_supply.
    cbn [minted]. unfold total. lia.
Qed.

Lemma coinRun_wp input c d :
  db_ok d -> state_ok (abs d) -> inv (abs d) ->
  wp (coinRun hash VerifyRingSign input c) (fun ret d' => len ret < 2 ^ 62 /\ good d d') (fun _ d' => moves d d') d.
Proof.
  intros Hd Hst Hi. pose proof (moves_refl d Hd). unfold coinRun.
  case_match; [by apply wp_throw|]. case_bool_decide.
  { apply buyCoin_wp; [done..|]. intros. split; [done|]. apply bought_good; try done. apply elem_of_app. by right. }
  case_bool_decide; [|by apply wp_throw]. apply refund_wp; [done..|]. intros. split; [done|]. by apply refunded_good.
Qed.

Lemma stampRun_wp input c d :
  db_ok d -> state_ok (abs d) -> inv (abs d) ->
  wp (stampRun hash input c) (fun ret d' => len ret < 2 ^ 62 /\ good d d') (fun _ d' => moves d d') d.
Proof.
  intros Hd Hst Hi. pose proof (moves_refl d Hd). unfold stampRun.
  case_match; [by apply wp_throw|]. case_bool_decide; [by apply buyStamp_wp|by apply wp_throw].
Qed.
End Safety.

(** * The native contracts and the machine *)
Section Native.
Context {db : Type} `{!StateDB db} (env : Env db) `{!StateDBSpec db (Keccak256Hash env)}.
Context (image_of : list byte -> PublicKey) (spent0 : gmap Hash (list byte)) (key : Hash).
Context (VerifyRingSign : list byte -> list PublicKey -> PublicKey -> list Z -> list Z -> bool).
Context (posCfg : PosConfig.Config) (others : Address -> option (PrecompiledContract db)).
Abbreviation hash := (Keccak256Hash env).
Abbreviation wledger := (wan_ledger hash image_of spent0 key).

Lemma native_spec gas run :
  (forall input, 0 <= gas input < 2 ^ 64) ->
  (forall input c d, db_ok d -> state_ok (abs d) -> native_inv hash image_of spent0 (abs d) -> len input < 2 ^ 62 ->
     wp (run input c) (fun ret d' => len ret < 2 ^ 62 /\ good hash image_of spent0 key d d')
       (fun _ d' => moves d d') d) ->
  precompile_spec env wledger (native gas run).
Proof.
  intros Hg Hrun input c d Hd Hst Hk _ _ Hin. split; [apply Hg|]. cbn [PrecompiledRun native].
  specialize (Hrun input c d Hd Hst Hk Hin). unfold wp in Hrun.
  destruct (run input c d) as [ret d'|err d'| |]; try done.
  - destruct Hrun as [? ([] & ? & ? & ?)]. exists ret, None, d'. by split_and!.
  - destruct Hrun. exists [], (Some err), d'. by split_and!.
Qed.

Lemma coinGas_range input : 0 <= coinRequiredGas hash input < 2 ^ 64.
Proof.
  unfold coinRequiredGas, Params.SstoreSetGas, RequiredGasPerMixPub.
  repeat case_match; try lia. apply u64_range.
Qed.

Lemma coin_spec :
  linkable image_of VerifyRingSign ->
  precompile_spec env wledger (native (coinRequiredGas hash) (coinRun hash VerifyRingSign)).
Proof. intros Hl. apply native_spec; [apply coinGas_range|]. intros. by apply coinRun_wp. Qed.

Lemma stamp_spec : precompile_spec env wledger (native stampRequiredGas (stampRun hash)).
Proof.
  apply native_spec.
  - intros. unfold stampRequiredGas, Params.SstoreSetGas. lia.
  - intros. by apply stampRun_wp.
Qed.

Lemma dataCopy_spec : precompile_spec env wledger (native dataCopyRequiredGas dataCopyRun).
Proof.
  apply native_spec.
  - intros. apply u64_range.
  - intros input c d ? ? ? ?. apply wp_ret. split; [done|]. by split_and!.
Qed.

Lemma staking_spec : NoDup (ids hash) -> precompile_spec env wledger (Staking.PosStaking hash posCfg).
Proof.
  intros Hids input c d Hd Hst Hk _ Hv Hin. split; [done|]. cbn [PrecompiledRun Staking.PosStaking].
  pose proof (Run_wp hash posCfg c (ctx env) input d Hids Hd (inv_staking _ _ _ _ Hk) (proj1 Hv) Hin) as Hrun.
  unfold wp in Hrun. destruct (Staking.Run hash posCfg input c (ctx env) d) as [ret d'|err d'| |]; try done.
  - destruct Hrun as [-> [[] Hi _ _ Hs Hsup Hb _]]. exists [], None, d'. split_and!; try done. intros _.
    destruct (native_inv_staking hash image_of spent0 key (abs d) (abs d')) as [? Hl]; [done..|].
    split_and!; [auto|done|]. unfold total. rewrite Hl. lia.
  - destruct Hrun. exists [], (Some err), d'. by split_and!.
Qed.

(** What the machine with these contracts relies on. *)
Record wan_env_ok : Prop := {
  wan_table : forall a, precompiles env a = PrecompiledContractsByzantium hash VerifyRingSign posCfg others a;
  wan_ids : NoDup (ids hash);
  wan_linkable : linkable image_of VerifyRingSign;
  wan_others : forall spent a p, others a = Some p -> precompile_spec env (wan_ledger hash image_of spent key) p;
  wan_metered : DisableGasMetering (cfg env) = false;
  wan_price : word (GasPrice (ctx env));
  wan_hash_length : forall c c', len c < 2 ^ 62 -> len c' < 2 ^ 62 -> hash c = hash c' -> length c = length c';
  (** the address of a new contract, a hash, is not one of the ledger *)
  wan_create : forall c n, ~ reserved (CreateAddress env c n);
}.

Lemma vm_update_bytes u s a :
  (forall c n, ~ reserved (CreateAddress env c n)) -> vm_update env u s -> reserved a ->
  bytes_of (abs_update u s) a = bytes_of s a.
Proof.
  intros Hc Hu Ha. destruct u as [b| | | | | | |b k v| | |]; try (by apply bytes_of_keep).
  cbn [abs_update vm_update] in *. unfold bytes_of. destruct (decide (b = a)) as [->|].
  - rewrite acct_on_account_eq. destruct Hu as [Hn|(c & n & ->)]; [|by apply Hc in Ha].
    unfold acct. by rewrite Hn.
  - by rewrite acct_on_account_ne.
Qed.

Lemma wan_env_env_ok : wan_env_ok -> env_ok env wledger.
Proof.
  intros [Ht Hids Hl Ho Hm Hp Hh Hc]. split; try done.
  - intros s Hs. cbn. pose proof (unspent_nonneg _ _ _ s Hs).
    pose proof (be_val_bound (default [] (bytes_of s IncentivePrecompileAddr !! key))). unfold pool. lia.
  - intros u s Hs Hu. destruct (native_inv_same hash image_of spent0 key s (abs_update u s)) as [? He]; [|done|].
    + intros. by apply vm_update_bytes.
    + split; [done|]. by rewrite He.
  - intros a p. rewrite Ht. unfold PrecompiledContractsByzantium. repeat case_bool_decide.
    + intros [= <-]. apply dataCopy_spec.
    + intros [= <-]. by apply coin_spec.
    + intros [= <-]. apply stamp_spec.
    + intros [= <-]. by apply staking_spec.
    + apply Ho.
Qed.
End Native.
