(* ===== verification/EvmExec.v ===== *)
(** Every execution function of core/vm/instructions.go keeps the invariants of
    the machine: no panic, 256-bit words, a bounded stack and memory. *)

From S2P Require Import Prelude BigMath VmData VmState StateSpec GasTable Instructions Evm.
From S2P Require Import EvmInv.
Import Big GoMath Common VmCommon Params MemoryTable.

(** Introduce the frame of an [exec_spec] goal and name the stack items. *)
Ltac exec_intro :=
  let s := fresh "s" in
  intros s Hf Hpc Hk Hj Hm Hw HN; destruct s as [n st m c e];
  cbn [stack memory pc contract evm] in *;
  repeat (let x := fresh "x" in
          destruct st as [|x st];
          [exfalso; rewrite ?len_cons, len_nil in Hk; lia|]);
  pose proof (stack_words _ _ _ Hf) as Hst; cbn [stack] in Hst;
  rewrite ?Forall_cons_iff in Hst; destruct_and? Hst;
  rewrite ?len_cons in *.

(** Run the monadic code on a frame with enough stack items. *)
Ltac exec_run :=
  cbv [wp pop push back address get_db update_db set_stack set_pc set_memory set_contract set_evm
       memory_set gets modify must throw panic mbind ST_bind mret ST_ret Stack.pop Stack.push
       Stack.Back stack memory pc contract evm].

Ltac stack_words := rewrite ?Forall_cons_iff; split_and?; auto with word.
Ltac stack_length := rewrite ?len_cons; unfold StackLimit in *; lia.

Ltac pc_bound :=
  match goal with H : frame_ok _ _ _ |- _ => pose proof (pc_range _ _ _ H) end;
  cbn [pc] in *; lia.

(** An operation that only computes on the stack. *)
Ltac exec_stack :=
  repeat match goal with |- context [if ?b then _ else _] => destruct b eqn:?; cbv beta iota end;
  (split; [eapply post_stack; [eassumption|stack_words|stack_length|pc_bound]|done]).

Ltac exec_pure op := exec_intro; unfold op; exec_run; exec_stack.

(** The invariants of the frame, as hypotheses. *)
Ltac frame_facts :=
  match goal with H : frame_ok _ _ _ |- _ =>
    let Hc := fresh in let He := fresh in
    pose proof (frame_contract _ _ _ H) as Hc;
    pose proof (frame_evm _ _ _ H) as He;
    pose proof (memory_limit _ _ _ H);
    pose proof (pc_range _ _ _ H);
    cbn [contract evm memory pc] in *; destruct Hc, He
  end.

(** The memory region an operation asked for is inside the memory. *)
Lemma calcMemSize_fits m off l :
  word off -> word l -> calcMemSize off l <= Memory.Len m -> Memory.fits m off l.
Proof.
  unfold word, calcMemSize, Memory.fits. intros ? ? H. split_and!; [lia..|].
  intros. unfold Sign in H. destruct (Z.eqb_spec (Z.sgn l) 0); lia.
Qed.

Lemma BigMax_le x y z : BigMax x y <= z -> x <= z /\ y <= z.
Proof. unfold BigMax. destruct (Z.ltb_spec x y); lia. Qed.

(** Turn the memory hypothesis of an [exec_spec] goal into [fits] facts. *)
Ltac mem_fits :=
  let sz := fresh in let Hsz := fresh in let Hle := fresh in
  match goal with Hm : forall f, Some _ = Some f -> _ |- _ =>
    destruct (Hm _ eq_refl) as (sz & Hsz & Hle); clear Hm
  end;
  cbn -[calcMemSize BigMax] in Hsz; injection Hsz as <-;
  try (apply BigMax_le in Hle as [? Hle]);
  repeat match goal with H : calcMemSize _ _ <= _ |- _ =>
    let F := fresh "Hfit" in
    assert (F := H); clear H; apply calcMemSize_fits in F; [|auto with word..]
  end.

Section Exec.
Context {db : Type} `{!StateDB db} (env : Env db).
Context `{!StateDBSpec db (Keccak256Hash env)}.
Context (locked : ledger) (Henv : env_ok env locked) (N : Z).

Abbreviation spec := (exec_spec env locked N).

Lemma opAdd_spec : spec opAdd 2 1 None false 0.
Proof. exec_pure (@opAdd). Qed.

Lemma opSub_spec : spec opSub 2 1 None false 0.
Proof. exec_pure (@opSub). Qed.

Lemma opMul_spec : spec opMul 2 1 None false 0.
Proof. exec_pure (@opMul). Qed.

Lemma opDiv_spec : spec opDiv 2 1 None false 0.
Proof. exec_pure (@opDiv). Qed.

Lemma opSdiv_spec : spec opSdiv 2 1 None false 0.
Proof. exec_pure (@opSdiv). Qed.

Lemma opMod_spec : spec opMod 2 1 None false 0.
Proof. exec_pure (@opMod). Qed.

Lemma opSmod_spec : spec opSmod 2 1 None false 0.
Proof. exec_pure (@opSmod). Qed.

Lemma opExp_spec : spec opExp 2 1 None false 0.
Proof. exec_pure (@opExp). Qed.

Lemma opSignExtend_spec : spec opSignExtend 2 1 None false 0.
Proof. exec_pure (@opSignExtend). Qed.

Lemma opLt_spec : spec opLt 2 1 None false 0.
Proof. exec_pure (@opLt). Qed.

Lemma opGt_spec : spec opGt 2 1 None false 0.
Proof. exec_pure (@opGt). Qed.

Lemma opSlt_spec : spec opSlt 2 1 None false 0.
Proof. exec_pure (@opSlt). Qed.

Lemma opSgt_spec : spec opSgt 2 1 None false 0.
Proof. exec_pure (@opSgt). Qed.

Lemma opEq_spec : spec opEq 2 1 None false 0.
Proof. exec_pure (@opEq). Qed.

Lemma opAnd_spec : spec opAnd 2 1 None false 0.
Proof. exec_pure (@opAnd). Qed.

Lemma opOr_spec : spec opOr 2 1 None false 0.
Proof. exec_pure (@opOr). Qed.

Lemma opXor_spec : spec opXor 2 1 None false 0.
Proof. exec_pure (@opXor). Qed.

Lemma opByte_spec : spec opByte 2 1 None false 0.
Proof. exec_pure (@opByte). Qed.

Lemma opNot_spec : spec opNot 1 1 None false 0.
Proof. exec_pure (@opNot). Qed.

Lemma opIszero_spec : spec opIszero 1 1 None false 0.
Proof. exec_pure (@opIszero). Qed.

Lemma opAddmod_spec : spec opAddmod 3 1 None false 0.
Proof. exec_pure (@opAddmod). Qed.

Lemma opMulmod_spec : spec opMulmod 3 1 None false 0.
Proof. exec_pure (@opMulmod). Qed.

Lemma opPop_spec : spec opPop 1 0 None false 0.
Proof. exec_pure (@opPop). Qed.

Lemma opJumpdest_spec : spec opJumpdest 0 0 None false 0.
Proof. exec_pure (@opJumpdest). Qed.

Lemma opAddress_spec : spec opAddress 0 1 None false 0.
Proof. exec_intro. frame_facts. unfold opAddress. exec_run. exec_stack. Qed.

Lemma opCaller_spec : spec opCaller 0 1 None false 0.
Proof. exec_intro. frame_facts. unfold opCaller. exec_run. exec_stack. Qed.

Lemma opCallValue_spec : spec opCallValue 0 1 None false 0.
Proof. exec_intro. frame_facts. unfold opCallValue. exec_run. exec_stack. Qed.

Lemma opCallDataSize_spec : spec opCallDataSize 0 1 None false 0.
Proof. exec_intro. frame_facts. unfold opCallDataSize. exec_run. exec_stack. Qed.

Lemma opReturnDataSize_spec : spec opReturnDataSize 0 1 None false 0.
Proof. exec_intro. frame_facts. unfold opReturnDataSize. exec_run. exec_stack. Qed.

Lemma opCodeSize_spec : spec opCodeSize 0 1 None false 0.
Proof. exec_intro. frame_facts. unfold opCodeSize. exec_run. exec_stack. Qed.

Lemma opGas_spec : spec opGas 0 1 None false 0.
Proof. exec_intro. frame_facts. unfold opGas. exec_run. exec_stack. Qed.

Lemma opPc_spec : spec opPc 0 1 None false 0.
Proof. exec_intro. frame_facts. unfold opPc. exec_run. exec_stack. apply word_small. lia. Qed.

Lemma opMsize_spec : spec opMsize 0 1 None false 0.
Proof. exec_intro. frame_facts. unfold opMsize. exec_run. exec_stack. apply word_small. pose proof (len_nonneg (Memory.store m)). unfold Memory.Len, maxMemory in *. lia. Qed.

Lemma opOrigin_spec : spec (opOrigin env) 0 1 None false 0.
Proof. exec_pure (@opOrigin). Qed.

Lemma opCoinbase_spec : spec (opCoinbase env) 0 1 None false 0.
Proof. exec_pure (@opCoinbase). Qed.

Lemma opTimestamp_spec : spec (opTimestamp env) 0 1 None false 0.
Proof. exec_pure (@opTimestamp). Qed.

Lemma opNumber_spec : spec (opNumber env) 0 1 None false 0.
Proof. exec_pure (@opNumber). Qed.

Lemma opDifficulty_spec : spec (opDifficulty env) 0 1 None false 0.
Proof. exec_pure (@opDifficulty). Qed.

Lemma opGasLimit_spec : spec (opGasLimit env) 0 1 None false 0.
Proof. exec_pure (@opGasLimit). Qed.

Lemma opGasprice_spec : spec (opGasprice env) 0 1 None false 0.
Proof. exec_intro. pose proof (price_word _ _ Henv). unfold opGasprice. exec_run. exec_stack. Qed.

Lemma opBlockhash_spec : spec (opBlockhash env) 1 1 None false 0.
Proof. exec_pure (@opBlockhash). Qed.

Lemma opSload_spec : spec opSload 1 1 None false 0.
Proof. exec_pure (@opSload). Qed.

Lemma word_balance e a : evm_ok env locked e -> word (GetBalance (statedb e) a).
Proof.
  intros []. rewrite (GetBalance_spec (hash:=Keccak256Hash env)) by done.
  pose proof (acct_balance (abs (statedb e)) a evm_state).
  pose proof (locked_nonneg _ _ Henv (abs (statedb e)) evm_kept). unfold word, total in *. lia.
Qed.

Lemma opBalance_spec : spec opBalance 1 1 None false 0.
Proof.
  exec_intro. unfold opBalance. exec_run. exec_stack.
  apply word_balance, (frame_evm _ _ _ Hf).
Qed.

Lemma opExtCodeSize_spec : spec opExtCodeSize 1 1 None false 0.
Proof.
  exec_intro. frame_facts. unfold opExtCodeSize. exec_run. exec_stack.
  rewrite (GetCodeSize_spec (hash:=Keccak256Hash env)) by done.
  apply word_len, (acct_ok _ (BigToAddress x) evm_state).
Qed.

Lemma opCallDataLoad_spec : spec opCallDataLoad 1 1 None false 0.
Proof.
  exec_intro. frame_facts. unfold opCallDataLoad. exec_run. unfold word in *.
  destruct (getDataBig_ok (Input c) x 32) as (d & -> & Hd); [lia..|].
  exec_stack. apply word_bytes. lia.
Qed.

(** * Memory *)

(** An operation that writes memory and pops its operands. *)
Ltac exec_memory :=
  cbv beta iota; (split; [eapply post_memory; [eassumption|stack_words|stack_length|done|lia]|done]).

(** Reading and writing the memory an operation asked for. *)
Lemma memory_read m off size :
  Memory.Len m <= maxMemory -> Memory.fits m off size ->
  exists d, Memory.Get m (Int64 off) (Int64 size) = Some d /\ len d < 2 ^ 62.
Proof.
  unfold maxMemory. intros Hm Hf.
  destruct (Memory.Get_ok m off size Hf) as (d & Hd & Hl); [lia|].
  exists d. split; [done|]. destruct Hf as (? & ? & ?).
  destruct (decide (size = 0)) as [->|]; lia.
Qed.

Lemma memory_write m off size v :
  Memory.Len m <= maxMemory -> Memory.fits m off size ->
  exists m', Memory.Set_ m (Uint64 off) (Uint64 size) v = Some m' /\
    Memory.Len m' <= maxMemory.
Proof.
  unfold maxMemory. intros Hm Hf.
  destruct (Memory.Set_ok m off size v Hf) as (m' & Hm' & Hl & _); [lia|].
  exists m'. split; [done|lia].
Qed.

Lemma opMload_spec : spec opMload 1 1 (Some memoryMLoad) false 0.
Proof.
  exec_intro. frame_facts. mem_fits. unfold opMload. exec_run.
  destruct (Memory.Get_ok m x 32) as (d & Hd & Hl); [done|unfold maxMemory in *; lia|].
  change (Int64 32) with 32 in Hd. rewrite Hd. exec_stack. apply word_bytes. done.
Qed.

Lemma opMstore_spec : spec opMstore 2 0 (Some memoryMStore) false 0.
Proof.
  exec_intro. frame_facts. mem_fits. unfold opMstore. exec_run.
  destruct (memory_write m x 32 (PaddedBigBytes x0 32)) as (m' & Hm' & ?); [done..|].
  change (Uint64 32) with 32 in Hm'. rewrite Hm'. exec_memory.
Qed.

Lemma opMstore8_spec : spec opMstore8 2 0 (Some memoryMStore8) false 0.
Proof.
  exec_intro. frame_facts. mem_fits. unfold opMstore8. exec_run.
  destruct Hfit as (? & _ & ?). unfold Memory.SetByte, maxMemory, Memory.Len in *.
  rewrite Int64_small by lia.
  destruct (index_Some (Memory.store m) x) as (b & ->); [lia|]. cbn.
  split; [|done]. eapply post_memory; [eassumption|stack_words|stack_length| |lia].
  unfold Memory.Len, len, maxMemory in *. cbn. rewrite length_insert. lia.
Qed.

Lemma opCallDataCopy_spec : spec opCallDataCopy 3 0 (Some memoryCallDataCopy) false 0.
Proof.
  exec_intro. frame_facts. mem_fits. unfold opCallDataCopy. exec_run.
  destruct (getDataBig_ok (Input c) x0 x1) as (d & -> & _); [unfold word in *; lia..|].
  destruct (memory_write m x x1 d) as (m' & -> & ?); [done..|]. exec_memory.
Qed.

Lemma opCodeCopy_spec : spec opCodeCopy 3 0 (Some memoryCodeCopy) false 0.
Proof.
  exec_intro. frame_facts. mem_fits. unfold opCodeCopy. exec_run.
  destruct (getDataBig_ok (Code c) x0 x1) as (d & -> & _); [unfold word in *; lia..|].
  destruct (memory_write m x x1 d) as (m' & -> & ?); [done..|]. exec_memory.
Qed.

Lemma opExtCodeCopy_spec : spec opExtCodeCopy 4 0 (Some memoryExtCodeCopy) false 0.
Proof.
  exec_intro. frame_facts. mem_fits. unfold opExtCodeCopy. exec_run.
  rewrite (GetCode_spec (hash:=Keccak256Hash env)) by done.
  pose proof (acct_ok _ (BigToAddress x) evm_state) as (_ & _ & ?).
  destruct (getDataBig_ok (a_code (acct (abs (statedb e)) (BigToAddress x))) x1 x2)
    as (d & -> & _); [unfold word in *; lia..|].
  destruct (memory_write m x0 x2 d) as (m' & -> & ?); [done..|]. exec_memory.
Qed.

Lemma opReturnDataCopy_spec : spec opReturnDataCopy 3 0 (Some memoryReturnDataCopy) false 0.
Proof.
  exec_intro. frame_facts. mem_fits. unfold opReturnDataCopy. exec_run.
  destruct (_ || _) eqn:Hb; cbv beta iota.
  { eapply post_stack; [eassumption|stack_words|stack_length|lia]. }
  apply orb_false_iff in Hb as [Hb1 Hb2].
  assert (x0 + x1 < 2 ^ 64).
  { rewrite <- (Z.abs_eq (x0 + x1)) by (unfold word in *; lia). apply BitLen_le; lia. }
  pose proof (len_nonneg (returnData e)). unfold word in *.
  rewrite u64_small in Hb2 by lia. rewrite (Uint64_small (x0 + x1)) in * by lia.
  rewrite (Uint64_small x0) by lia. rewrite slice_Some by lia.
  destruct (memory_write m x x1 (take (Z.to_nat (x0 + x1 - x0)) (drop (Z.to_nat x0) (returnData e))))
    as (m' & -> & ?); [done..|]. exec_memory.
Qed.

Lemma opReturn_spec : spec opReturn 2 0 (Some memoryReturn) false 0.
Proof.
  exec_intro. frame_facts. mem_fits. unfold opReturn. exec_run.
  destruct (Memory.GetPtr_ok m x x0) as (d & -> & Hd); [done|unfold maxMemory in *; lia|].
  split; [eapply post_stack; [eassumption|stack_words|stack_length|lia]|].
  destruct Hfit as (? & ? & ?). unfold maxMemory in *. destruct (decide (x0 = 0)); lia.
Qed.

Lemma opRevert_spec : spec opRevert 2 0 (Some memoryRevert) false 0.
Proof. exact opReturn_spec. Qed.

(** * Database operations *)

(** An operation that changes the database and pops its operands. *)
Ltac exec_db :=
  cbv beta iota;
  (split; [eapply post_with_evm; [eassumption|stack_words|stack_length|done|done|lia]|done]).

Lemma SetBytes_hash h : SetBytes (Hash_Bytes h) = Hash_Big h.
Proof. unfold Hash_Big. reflexivity. Qed.

Lemma opSha3_spec : spec (opSha3 env) 2 1 (Some memorySha3) false 0.
Proof.
  exec_intro. frame_facts. mem_fits. unfold opSha3. exec_run.
  destruct (memory_read m x x0) as (d & -> & ?); [done..|]. rewrite SetBytes_hash.
  destruct (EnablePreimageRecording (cfg env)); [|exec_stack].
  destruct (evm_update env locked Henv e (UAddPreimage (Keccak256Hash env d) d)) as [? ?];
    [apply (frame_evm _ _ _ Hf)|done|done|done| |exec_db].
  intros _. cbn. by destruct (_ !! _).
Qed.

Lemma opSstore_spec : spec opSstore 2 0 None true 0.
Proof.
  exec_intro. unfold opSstore. frame_facts. exec_run.
  destruct (evm_update env locked Henv e (USetState (self c) (BigToHash x) (BigToHash x0)))
    as [? ?]; [apply (frame_evm _ _ _ Hf)|done|done|done| |exec_db].
  intros Hr. by specialize (Hw Hr).
Qed.

Lemma popTopics_ok k n st m c (e : EVM db) : Z.of_nat k <= len st ->
  exists topics, popTopics k (mkFrame n st m c e) =
    Ok topics (mkFrame n (drop k st) m c e).
Proof.
  revert st. induction k as [|k IH]; intros st Hk; [by exists []|].
  destruct st as [|x st]; [exfalso; rewrite len_nil in Hk; lia|]. rewrite len_cons in Hk.
  destruct (IH st) as [topics Ht]; [lia|].
  exists (BigToHash x :: topics). cbn [popTopics drop]. exec_run.
  by rewrite Ht.
Qed.

Lemma makeLog_spec k : spec (makeLog env k) (Z.of_nat k + 2) 0 (Some memoryLog) true 0.
Proof.
  intros s Hf Hpc Hk Hj Hm Hw HN. destruct s as [n st m c e].
  cbn [stack memory pc contract evm] in *.
  destruct st as [|x st]; [exfalso; rewrite len_nil in Hk; lia|].
  destruct st as [|x0 st]; [exfalso; rewrite len_cons, len_nil in Hk; lia|].
  rewrite !len_cons in *. frame_facts.
  pose proof (stack_words _ _ _ Hf) as Hst. cbn [stack] in Hst.
  rewrite !Forall_cons_iff in Hst. destruct_and! Hst. mem_fits.
  unfold makeLog. exec_run.
  destruct (popTopics_ok k n st m c e) as [topics ->]; [lia|]. exec_run.
  destruct (memory_read m x x0) as (d & -> & ?); [done..|]. cbv beta iota.
  match goal with |- context [AddLog ?l _] =>
    destruct (evm_update env locked Henv e (UAddLog l)) as [? ?];
      [apply (frame_evm _ _ _ Hf)|done|done|done| |] end.
  { intros Hr. by specialize (Hw Hr). }
  split; [|done]. eapply post_with_evm; [eassumption| | |done|done|lia].
  - by apply Forall_drop.
  - unfold StackLimit, len in *. rewrite length_drop. lia.
Qed.

Lemma opSuicide_spec : spec opSuicide 1 0 None true 0.
Proof.
  exec_intro. unfold opSuicide. frame_facts. exec_run.
  destruct (evm_suicide env locked Henv e (self c) (BigToAddress x)) as [? ?];
    [apply (frame_evm _ _ _ Hf)|by destruct (readOnly e); [specialize (Hw eq_refl)|]|].
  exec_db.
Qed.

(** * Jumps *)

Lemma cache_length_insert d code :
  cache_length env d -> len code < 2 ^ 62 ->
  cache_length env (<[Keccak256Hash env code := Analysis.jumpdests code]> d).
Proof.
  intros Hd Hc code' m Hl Hm. apply lookup_insert_Some in Hm as [[Hh <-]|[_ Hm]].
  - rewrite !Analysis.length_jumpdests. by rewrite (hash_length _ _ Henv code code').
  - by apply (Hd code').
Qed.

(** [has] answers without panicking, and only accepts positions in the code. *)
Lemma has_ok d h code pos :
  cache_length env d -> len code < 2 ^ 62 -> code = [] \/ h = Keccak256Hash env code ->
  0 <= pos ->
  exists ok d', Analysis.has d h code pos = Some (ok, d') /\ cache_length env d' /\
    (ok = true -> pos < len code).
Proof.
  intros Hd Hl Hh Hpos. unfold Analysis.has. rewrite u64_small by (pose proof (len_nonneg code); lia).
  destruct (_ || _) eqn:Hb; [by exists false, d|].
  apply orb_false_iff in Hb as [Hb1 Hb2].
  assert (pos < 2 ^ 63).
  { rewrite <- (Z.abs_eq pos) by lia. apply BitLen_le; lia. }
  rewrite Uint64_small in * by lia.
  destruct Hh as [->| ->]; [rewrite len_nil in Hb2; lia|].
  set (r := match d !! _ with Some m => (m, d) | None => _ end).
  assert (length r.1 = length (Analysis.jumpdests code) /\ cache_length env r.2) as [Hr1 Hr2].
  { unfold r. destruct (d !! _) eqn:E; cbn; [split; [by apply Hd|done]|].
    split; [done|]. by apply cache_length_insert. }
  destruct r as [m d']. cbn in *.
  destruct (index_Some m (pos / 8)) as (b & ->).
  { rewrite Analysis.length_jumpdests in Hr1. unfold len in *. rewrite Hr1.
    rewrite Nat2Z.inj_add, Nat2Z.inj_div. zlia. }
  eexists _, _. split; [done|]. split; [done|]. lia.
Qed.

Lemma validJump_ok n st m c (e : EVM db) pos :
  contract_ok env c -> cache_length env (jumpdests e) -> 0 <= pos ->
  exists ok d, validJump pos (mkFrame n st m c e) =
    Ok ok (mkFrame n st m c (set_jumpdests e d)) /\ cache_length env d /\
    (ok = true -> pos < len (Code c)).
Proof.
  intros [] Hd Hpos. unfold validJump. exec_run.
  destruct (has_ok (jumpdests e) (CodeHash c) (Code c) pos) as (ok & d & -> & ? & ?); [done..|].
  by exists ok, d.
Qed.

Lemma evm_set_jumpdests e d :
  evm_ok env locked e -> cache_length env d ->
  evm_ok env locked (set_jumpdests e d) /\ evm_rel env locked e (set_jumpdests e d).
Proof. intros [] ?. split; by split. Qed.

Ltac exec_jump Hf x c e :=
  match goal with |- context [validJump x (mkFrame ?n ?st ?m c e)] =>
    let ok := fresh "ok" in let d := fresh "d" in
    destruct (validJump_ok n st m c e x) as (ok & d & -> & Hd & Hok);
      [apply (frame_contract _ _ _ Hf)|done|unfold word in *; lia|];
    destruct (evm_set_jumpdests e d) as [? ?]; [apply (frame_evm _ _ _ Hf)|done|];
    destruct ok; cbn [negb]; cbv beta iota;
      [specialize (Hok eq_refl); pose proof (len_nonneg (Code c))|];
      rewrite ?Uint64_small by (unfold word in *; lia)
  end.

Ltac post_evm_solve :=
  eapply post_with_evm; [eassumption|stack_words|stack_length|done|done|unfold word in *; lia].

Lemma opJump_spec : spec opJump 1 0 None false 0.
Proof.
  exec_intro. frame_facts. unfold opJump. exec_run.
  exec_jump Hf x c e; [split; [|done]|]; post_evm_solve.
Qed.

Lemma opJumpi_spec : spec opJumpi 2 0 None false 0.
Proof.
  exec_intro. frame_facts. unfold opJumpi. exec_run.
  destruct (negb _); cbv beta iota.
  - exec_jump Hf x c e; [split; [|done]|]; post_evm_solve.
  - rewrite u64_small by lia. exec_stack.
Qed.

(** * Push, dup, swap *)

Lemma makePush_spec k : 1 <= k <= 32 -> spec (makePush k k) 0 1 None false 0.
Proof.
  intros Hk'. exec_intro. frame_facts. unfold makePush. exec_run.
  rewrite (u64_small (n + 1)), s64_small, (u64_small (n + k)) by lia.
  pose proof (len_nonneg (Code c)).
  set (a := if n + 1 <? len (Code c) then _ else _).
  assert (0 <= a <= len (Code c)).
  { unfold a. destruct (Z.ltb_spec (n + 1) (len (Code c))); lia. }
  set (b := if a + k <? len (Code c) then _ else _).
  assert (a <= b <= len (Code c) /\ b - a <= k).
  { unfold b. destruct (Z.ltb_spec (a + k) (len (Code c))); lia. }
  rewrite slice_Some by lia. exec_stack. apply word_bytes. rewrite RightPadBytes_len.
  unfold len in *. rewrite length_take, length_drop. lia.
Qed.

Lemma makeDup_spec (k : nat) : (0 < k)%nat ->
  spec (makeDup k) (Z.of_nat k) (Z.of_nat k + 1) None false 0.
Proof.
  intros Hk0 s Hf Hpc Hk Hj _ _ _. destruct s as [n st m c e].
  cbn [stack memory pc contract evm] in *. frame_facts.
  pose proof (stack_words _ _ _ Hf) as Hst. cbn [stack] in Hst.
  unfold makeDup, Stack.dup. exec_run. destruct k as [|i]; [lia|].
  destruct (lookup_lt_is_Some_2 st i) as [x Hx]; [unfold len in *; lia|]. rewrite Hx. cbn.
  split; [|done]. eapply post_stack; [eassumption| |stack_length|lia].
  apply Forall_cons_iff. split; [|done]. by eapply Forall_lookup_1.
Qed.

Lemma makeSwap_spec (k : nat) : (0 < k)%nat ->
  spec (makeSwap k) (Z.of_nat k + 1) (Z.of_nat k + 1) None false 0.
Proof.
  intros Hk0 s Hf Hpc Hk Hj _ _ _. destruct s as [n st m c e].
  cbn [stack memory pc contract evm] in *. frame_facts.
  pose proof (stack_words _ _ _ Hf) as Hst. cbn [stack] in Hst.
  unfold makeSwap, Stack.swap. exec_run. rewrite Nat.add_1_r.
  destruct (lookup_lt_is_Some_2 st k) as [x Hx]; [unfold len in *; lia|]. rewrite Hx.
  destruct (lookup_lt_is_Some_2 st 0) as [y Hy]; [unfold len in *; lia|].
  cbn -[lookup]. rewrite Hy. cbn.
  split; [|done]. eapply post_stack; [eassumption| | |lia].
  - apply Forall_insert; [apply Forall_insert; [done|]|]; by eapply Forall_lookup_1.
  - unfold len in *. rewrite !length_insert. unfold StackLimit in *. lia.
Qed.
End Exec.
