(* ===== verification/EvmGas.v ===== *)
(** The gas functions of core/vm/gas_table.go keep the invariants and charge at
    least a known amount; the work of one operation ([perform]) from the
    specifications of its gas function and of its execution function. *)

From S2P Require Import Prelude BigMath VmData VmState StateSpec GasTable Instructions Evm.
From S2P Require Import EvmInv EvmExec.
Import Big GoMath Common VmCommon Params MemoryTable.

(** * Rules for the building blocks of gas functions *)

Section Rules.
Context {db : Type} `{!StateDB db}.
Implicit Types s : frame db.

Lemma wp_checked v (Q : Z -> frame db -> Prop) F s :
  0 <= v -> (v < 2 ^ 64 -> Q v s) -> (forall err, F err s) ->
  wp (checked (u64 v, negb (v <? 2 ^ 64))) Q F s.
Proof.
  intros Hv HQ HF. unfold wp, checked.
  destruct (Z.ltb_spec v (2 ^ 64)); cbn; [|apply HF].
  rewrite u64_small by lia. by apply HQ.
Qed.

Lemma wp_SafeAdd x y (Q : Z -> frame db -> Prop) F s :
  0 <= x < 2 ^ 64 -> 0 <= y < 2 ^ 64 ->
  (x + y < 2 ^ 64 -> Q (x + y) s) -> (forall err, F err s) ->
  wp (checked (SafeAdd x y)) Q F s.
Proof. intros. rewrite SafeAdd_ok by done. apply wp_checked; [lia|done..]. Qed.

Lemma wp_SafeMul x y (Q : Z -> frame db -> Prop) F s :
  0 <= x < 2 ^ 64 -> 0 <= y < 2 ^ 64 ->
  (0 <= x * y < 2 ^ 64 -> Q (x * y) s) -> (forall err, F err s) ->
  wp (checked (SafeMul x y)) Q F s.
Proof. intros. rewrite SafeMul_ok by done. apply wp_checked; [lia|auto with lia|done]. Qed.

Lemma wp_bigUint64 v (Q : Z -> frame db -> Prop) F s :
  word v -> (0 <= v < 2 ^ 64 -> Q v s) -> (forall err, F err s) ->
  wp (checked (bigUint64 v)) Q F s.
Proof.
  unfold word. intros. rewrite bigUint64_ok by lia. apply wp_checked; [lia|auto with lia|done].
Qed.

Lemma wp_back k x (Q : Z -> frame db -> Prop) F s :
  stack s !! k = Some x -> Q x s -> wp (back k) Q F s.
Proof. intros Hx HQ. apply wp_bind, wp_gets. by apply (wp_must _ x). Qed.

(** Memory gas: the fee, and a size the machine accepts. *)
Lemma wp_memGas sz (Q : Z -> frame db -> Prop) F n st m c e :
  0 <= sz ->
  (forall fee m', Memory.store m' = Memory.store m -> 0 <= fee < 2 ^ 64 -> sz <= maxMemory ->
     Q fee (mkFrame n st m' c e)) ->
  (forall err, F err (mkFrame n st m c e)) ->
  wp (memGas sz) Q F (mkFrame n st m c e).
Proof.
  intros Hsz HQ HF. unfold memGas. exec_run. unfold memoryGasCost.
  destruct (Z.eqb_spec sz 0) as [->|]; cbn [fst snd].
  { apply HQ; [done|lia|unfold maxMemory; lia]. }
  destruct (sz >? 0xffffffffe0) eqn:Hb; [apply HF|].
  destruct (u64 _ >? _); apply HQ; try done; try (unfold maxMemory; lia).
  apply u64_range.
Qed.

Lemma toWordSize_range v : 0 <= v < 2 ^ 64 -> 0 <= toWordSize v < 2 ^ 64.
Proof. intros. rewrite toWordSize_spec by lia. zlia. Qed.
End Rules.

(** Unfold the gas constants. *)
Ltac gas_consts :=
  cbv [GasQuickStep GasFastestStep GasFastStep GasMidStep GasSlowStep GasExtStep CopyGas
       Sha3Gas Sha3WordGas LogGas LogTopicGas LogDataGas CreateGas CallNewAccountGas
       CallValueTransferGas CallStipend SstoreSetGas SstoreClearGas SstoreResetGas JumpdestGas
       GasTableEIP158 gt_ExtcodeSize gt_ExtcodeCopy gt_Balance gt_SLoad gt_Calls gt_Suicide
       gt_ExpByte gt_CreateBySuicide] in *.
Ltac gas_lia := gas_consts; lia.

(** One step through a gas function, on a stack whose first items are known. *)
Ltac gas_step :=
  lazymatch goal with
  | |- wp (_ ≫= _) _ _ _ => apply wp_bind
  | |- wp (mret _) _ _ _ => apply wp_ret
  | |- wp (memGas _) _ _ _ =>
      apply wp_memGas; [done|let fee := fresh "fee" in intros fee ? ? ? ?|intros]
  | |- wp (back _) _ _ _ => eapply wp_back; [reflexivity|]
  | |- wp (checked (SafeAdd _ _)) _ _ _ => apply wp_SafeAdd; [gas_lia|gas_lia|intros|intros]
  | |- wp (checked (SafeMul _ _)) _ _ _ =>
      apply wp_SafeMul; [first [by apply toWordSize_range|gas_lia]|gas_lia|intros|intros]
  | |- wp (checked (bigUint64 _)) _ _ _ => apply wp_bigUint64; [done|intros|intros]
  end.

Section Gas.
Context {db : Type} `{!StateDB db} (env : Env db).
Context `{!StateDBSpec db (Keccak256Hash env)}.
Context (locked : ledger) (Henv : env_ok env locked).

(** What a gas function leaves: the memory's bookkeeping and the database may
    have changed. *)
Definition gas_post (s s' : frame db) : Prop :=
  exists m e, s' = mkFrame (pc s) (stack s) m (contract s) e /\
    Memory.store m = Memory.store (memory s) /\
    evm_ok env locked e /\ evm_rel env locked (evm s) e.

(** [gas_spec g k mf w lo]: on a stack of [k] items, [g] fails or asks for at
    least [lo] gas, and accepts only bounded memory sizes. *)
Definition gas_spec (g : gasFunc (db:=db)) (k : Z) (mem w : bool) (lo : Z) : Prop :=
  forall s sz, frame_ok env locked s -> k <= len (stack s) -> 0 <= sz ->
    (mem = false -> sz = 0) -> (readOnly (evm s) = true -> w = false) ->
    wp (g GasTableEIP158 sz)
      (fun cost s' => gas_post s s' /\ lo <= cost < 2 ^ 64 /\ sz <= maxMemory)
      (fun _ s' => gas_post s s') s.

Lemma gas_post_same n st m m' c e :
  frame_ok env locked (mkFrame n st m c e) -> Memory.store m' = Memory.store m ->
  gas_post (mkFrame n st m c e) (mkFrame n st m' c e).
Proof.
  intros Hf Hm. exists m', e. split; [done|]. split; [done|].
  split; [apply (frame_evm _ _ _ Hf)|reflexivity].
Qed.

Lemma constGasFunc_spec g : 0 <= g < 2 ^ 64 -> gas_spec (constGasFunc g) 0 false false g.
Proof.
  intros Hg [n st m c e] sz Hf Hk Hsz Hz Hw. apply wp_ret.
  split; [by apply gas_post_same|]. rewrite (Hz eq_refl). unfold maxMemory. lia.
Qed.

Lemma gasPush_spec : gas_spec gasPush 0 false false 3.
Proof. by apply constGasFunc_spec. Qed.

Lemma gasDup_spec : gas_spec gasDup 0 false false 3.
Proof. by apply constGasFunc_spec. Qed.

Lemma gasSwap_spec : gas_spec gasSwap 0 false false 3.
Proof. by apply constGasFunc_spec. Qed.

Lemma gasBalance_spec : gas_spec gasBalance 0 false false 400.
Proof. by apply constGasFunc_spec. Qed.

Lemma gasExtCodeSize_spec : gas_spec gasExtCodeSize 0 false false 700.
Proof. by apply constGasFunc_spec. Qed.

Lemma gasSLoad_spec : gas_spec gasSLoad 0 false false 200.
Proof. by apply constGasFunc_spec. Qed.

Ltac gas_intro :=
  let s := fresh "s" in
  intros s sz Hf Hk Hsz Hz Hw; destruct s as [n st m c e];
  cbn [stack memory pc contract evm] in *;
  repeat (let x := fresh "x" in
          destruct st as [|x st];
          [exfalso; rewrite ?len_cons, len_nil in Hk; lia|]);
  pose proof (stack_words _ _ _ Hf) as Hst; cbn [stack] in Hst;
  rewrite ?Forall_cons_iff in Hst; destruct_and? Hst;
  rewrite ?len_cons in *.

Ltac gas_done :=
  try (split_and!; [|gas_lia..]); apply gas_post_same; [eassumption|done].

Ltac gas_solve g := gas_intro; unfold g; repeat gas_step; gas_done.

Lemma gasCallDataCopy_spec : gas_spec gasCallDataCopy 3 true false 3.
Proof. gas_solve (@gasCallDataCopy). Qed.

Lemma gasReturnDataCopy_spec : gas_spec gasReturnDataCopy 3 true false 3.
Proof. gas_solve (@gasReturnDataCopy). Qed.

Lemma gasCodeCopy_spec : gas_spec gasCodeCopy 3 true false 3.
Proof. gas_solve (@gasCodeCopy). Qed.

Lemma gasExtCodeCopy_spec : gas_spec gasExtCodeCopy 4 true false 700.
Proof. gas_solve (@gasExtCodeCopy). Qed.

Lemma gasSha3_spec : gas_spec gasSha3 2 true false 30.
Proof. gas_solve (@gasSha3). Qed.

Lemma gasMLoad_spec : gas_spec gasMLoad 0 true false 3.
Proof. gas_solve (@gasMLoad). Qed.

Lemma gasMStore_spec : gas_spec gasMStore 0 true false 3.
Proof. gas_solve (@gasMStore). Qed.

Lemma gasMStore8_spec : gas_spec gasMStore8 0 true false 3.
Proof. gas_solve (@gasMStore8). Qed.

Lemma gasCreate_spec : gas_spec gasCreate 0 true false 32000.
Proof. gas_solve (@gasCreate). Qed.

Lemma gasReturn_spec : gas_spec gasReturn 0 true false 0.
Proof. gas_solve (@gasReturn). Qed.

Lemma gasRevert_spec : gas_spec gasRevert 0 true false 0.
Proof. gas_solve (@gasRevert). Qed.

Lemma gasSStore_spec : gas_spec gasSStore 2 false true 5000.
Proof.
  gas_intro. unfold gasSStore, get_db, address, update_db. repeat gas_step.
  repeat (first [apply wp_bind, wp_gets|apply wp_gets]).
  rewrite (Hz eq_refl). unfold maxMemory.
  set (val := GetState _ _ _). cbn zeta.
  destruct (_ && _); [apply wp_ret; split_and!; [by apply gas_post_same|gas_lia..]|].
  destruct (_ && _); [|apply wp_ret; split_and!; [by apply gas_post_same|gas_lia..]].
  apply wp_bind, wp_modify, wp_ret. cbn [pc stack memory contract evm].
  destruct (evm_update env locked Henv e (UAddRefund SstoreRefundGas)) as [? ?];
    [apply (frame_evm _ _ _ Hf)|done|done|done|intros Hr; by specialize (Hw Hr)|].
  split_and!; [by eexists _, _|gas_lia..].
Qed.

Lemma gasSuicide_spec : gas_spec gasSuicide 1 false true 0.
Proof.
  gas_intro. unfold gasSuicide, get_db, address, update_db. repeat gas_step.
  repeat (first [apply wp_bind, wp_gets|apply wp_gets]).
  rewrite (Hz eq_refl). unfold maxMemory. cbn zeta.
  set (gas := if _ && _ then _ else _).
  assert (0 <= gas < 2 ^ 64).
  { unfold gas. destruct (_ && _); [apply u64_range|gas_lia]. }
  clearbody gas. apply wp_bind. destruct (HasSuicided _ _); cbn [negb].
  - do 2 apply wp_ret. split_and!; [by apply gas_post_same|gas_lia..].
  - apply wp_modify, wp_ret. cbn [pc stack memory contract evm].
    destruct (evm_update env locked Henv e (UAddRefund SuicideRefundGas)) as [? ?];
      [apply (frame_evm _ _ _ Hf)|done|done|done|intros Hr; by specialize (Hw Hr)|].
    split_and!; [by eexists _, _|gas_lia..].
Qed.

Lemma gasExp_spec : gas_spec gasExp 2 false false 10.
Proof.
  gas_intro. unfold gasExp. apply wp_bind. gas_step. cbn zeta.
  assert (0 <= BitLen x0 <= 256).
  { split; [apply BitLen_bound|]. apply BitLen_le; [lia|]. unfold word in *. lia. }
  assert (0 <= (BitLen x0 + 7) / 8 <= 32) by zlia.
  rewrite u64_small by gas_lia. gas_step; [|gas_done].
  rewrite (Hz eq_refl). unfold maxMemory. gas_done.
Qed.

Lemma makeGasLog_spec k : 0 <= k <= 4 -> gas_spec (makeGasLog k) 2 true false 375.
Proof.
  intros Hk'. gas_intro. unfold makeGasLog.
  rewrite (u64_small (k * LogTopicGas)) by gas_lia. repeat gas_step; gas_done.
Qed.

(** * Gas of the call instructions

    The gas handed to the callee replaces the operand on the stack. *)
Lemma wp_chargeCall gas (Q : Z -> frame db -> Prop) F n x st m c e :
  0 <= gas < 2 ^ 64 ->
  (forall cg, 0 <= cg < 2 ^ 64 -> gas + cg < 2 ^ 64 -> Q (gas + cg) (mkFrame n (cg :: st) m c e)) ->
  (forall err y, y = x \/ 0 <= y < 2 ^ 64 -> F err (mkFrame n (y :: st) m c e)) ->
  wp (chargeCall GasTableEIP158 gas) Q F (mkFrame n (x :: st) m c e).
Proof.
  intros Hg HQ HF. unfold chargeCall. apply wp_bind, wp_gets, wp_bind.
  eapply wp_back; [reflexivity|]. cbn [contract].
  destruct (callGas GasTableEIP158 (Gas c) gas x) as [cg|err] eqn:Hcg;
    [|apply wp_throw, HF; by left].
  assert (0 <= cg < 2 ^ 64).
  { unfold callGas in Hcg. repeat case_match; simplify_eq; apply u64_range. }
  apply wp_bind, wp_gets, wp_bind, wp_modify. cbn.
  apply wp_SafeAdd; [done|done|auto|]. intros err. apply HF. by right.
Qed.

(** [call_gas_spec g k v]: the cost is a base of at least 700, or 9700 when
    [v] finds a transferred value on the stack, and the gas of the callee, which
    [g] leaves on the stack. *)
Definition call_gas_spec (g : gasFunc (db:=db)) (k : Z) (v : list Z -> Z) : Prop :=
  forall n x st m c e sz, frame_ok env locked (mkFrame n (x :: st) m c e) ->
    k <= len (x :: st) -> 0 <= sz -> n <= 2 ^ 62 ->
    wp (g GasTableEIP158 sz)
      (fun cost s' => exists cg base m',
         s' = mkFrame n (cg :: st) m' c e /\ Memory.store m' = Memory.store m /\
         sz <= maxMemory /\ 0 <= cg /\ cost = base + cg /\ cost < 2 ^ 64 /\
         700 <= base /\ (v (x :: st) <> 0 -> 9700 <= base))
      (fun _ s' => post env locked (mkFrame n (x :: st) m c e) s')
      (mkFrame n (x :: st) m c e).

Lemma post_call_gas n x y st m m' c e :
  frame_ok env locked (mkFrame n (x :: st) m c e) -> n <= 2 ^ 62 ->
  Memory.store m' = Memory.store m -> y = x \/ 0 <= y < 2 ^ 64 ->
  post env locked (mkFrame n (x :: st) m c e) (mkFrame n (y :: st) m' c e).
Proof.
  intros Hf Hn Hm Hy. pose proof (stack_words _ _ _ Hf) as Hst. cbn in Hst.
  pose proof (stack_limit _ _ _ Hf) as Hl. pose proof (memory_limit _ _ _ Hf) as Hml.
  pose proof (pc_range _ _ _ Hf). cbn in *. apply Forall_cons_iff in Hst as [Hx ?].
  eapply post_memory; [eassumption| | | |lia].
  - apply Forall_cons_iff. split; [|done]. destruct Hy as [->|]; auto with word.
  - rewrite len_cons in *. lia.
  - unfold Memory.Len in *. by rewrite Hm.
Qed.

Ltac call_gas_intro :=
  intros n x st m c e sz Hf Hk Hsz Hn;
  repeat (let y := fresh "y" in
          destruct st as [|y st];
          [exfalso; rewrite ?len_cons, len_nil in Hk; lia|]).

Ltac call_gas_done :=
  repeat gas_step;
  try (by apply post_call_gas; [..|left]);
  apply wp_chargeCall;
  [gas_lia
  |intros cg ? ?; eexists cg, _, _; split_and!; try done; try gas_lia
  |intros; by apply post_call_gas].

Lemma gasDelegateCall_spec : call_gas_spec gasDelegateCall 6 (fun _ => 0).
Proof. call_gas_intro. unfold gasDelegateCall. call_gas_done. Qed.

Lemma gasStaticCall_spec : call_gas_spec gasStaticCall 6 (fun _ => 0).
Proof. call_gas_intro. unfold gasStaticCall. call_gas_done. Qed.

Definition call_value (st : list Z) : Z := default 0 (st !! 2%nat).

Lemma gasCallCode_spec : call_gas_spec gasCallCode 7 call_value.
Proof.
  call_gas_intro. unfold gasCallCode. apply wp_bind. gas_step. cbn zeta.
  set (g := if negb _ then _ else _).
  assert (700 <= g < 2 ^ 32 /\ (y0 <> 0 -> 9700 <= g)) as [? ?].
  { unfold g, Sign. rewrite u64_small by gas_lia. destruct (Z.eqb_spec (Z.sgn y0) 0); cbn [negb]; gas_lia. }
  clearbody g. call_gas_done. intros Hv. cbn in Hv. lia.
Qed.

Lemma gasCall_spec : call_gas_spec gasCall 7 call_value.
Proof.
  call_gas_intro. unfold gasCall, get_db. do 2 (apply wp_bind; gas_step).
  apply wp_bind, wp_gets. cbn zeta.
  set (g0 := if negb _ && _ then _ else _).
  assert (700 <= g0 < 2 ^ 31).
  { unfold g0. rewrite u64_small by gas_lia. destruct (_ && _); gas_lia. }
  clearbody g0. set (g := if negb _ then _ else _).
  assert (700 <= g < 2 ^ 32 /\ (y0 <> 0 -> 9700 <= g)) as [? ?].
  { unfold g, Sign. rewrite u64_small by gas_lia. destruct (Z.eqb_spec (Z.sgn y0) 0); cbn [negb]; gas_lia. }
  clearbody g. call_gas_done. intros Hv. cbn in Hv. lia.
Qed.

(** * The work of one operation *)

(** The frame after paying [cost] and expanding the memory to [sz]. *)
Definition charged (sz cost : Z) (s : frame db) : frame db :=
  mkFrame (pc s) (stack s)
    (if sz >? 0 then Memory.Resize (memory s) sz else memory s)
    (SetGas (contract s) (u64 (Gas (contract s) - cost))) (evm s).

(** An operation is its memory request, gas function and execution in turn. *)
Lemma perform_wp o (Q : list byte -> frame db -> Prop) F s :
  wp (requestedMemory o) (fun sz s' => s' = s /\
    wp (gasCost o GasTableEIP158 sz)
      (fun cost s1 => F ErrOutOfGas s1 /\
         (cost <= Gas (contract s1) -> wp (executeOp o) Q F (charged sz cost s1)))
      (fun _ s1 => F ErrOutOfGas s1) s) F s ->
  wp (perform env o) Q F s.
Proof.
  intros Hwp. unfold perform. apply wp_bind. eapply wp_mono; [exact Hwp| |done].
  intros sz ? [-> Hgas]. rewrite (metered _ _ Henv). apply wp_bind.
  unfold wp at 1, chargeGas. unfold wp at 1 in Hgas.
  destruct (gasCost o GasTableEIP158 sz s) as [cost s1|err s1| |]; try done.
  destruct Hgas as [HF HQ]. unfold UseGas.
  destruct (Z.ltb_spec (Gas (contract s1)) cost) as [Hlt|Hle]; [done|].
  specialize (HQ Hle). apply wp_bind. unfold charged in HQ. destruct (sz >? 0); exact HQ.
Qed.

Lemma requestedMemory_wp o (Q : Z -> frame db -> Prop) F s :
  (memorySize o = None -> Q 0 s) ->
  (forall f, memorySize o = Some f -> exists sz, f (stack s) = Some sz /\ 0 <= sz) ->
  (forall f sz v, memorySize o = Some f -> f (stack s) = Some sz -> sz <= v -> 0 <= v < 2 ^ 64 -> Q v s) ->
  (forall err, F err s) ->
  wp (requestedMemory o) Q F s.
Proof.
  intros HN Hf HQ HF. unfold requestedMemory.
  destruct (memorySize o) as [f|]; [|by apply wp_ret, HN].
  destruct (Hf f eq_refl) as (sz & Hsz & Hpos).
  apply wp_bind, wp_gets, wp_bind. eapply wp_must; [done|].
  apply wp_bind. rewrite bigUint64_ok by done. apply wp_checked; [done| |done].
  intros Hlt. apply wp_SafeMul; [apply toWordSize_range; lia|lia| |done].
  intros Hv. apply (HQ f sz); try done. rewrite toWordSize_spec by lia. zlia.
Qed.
End Gas.
