(* ===== verification/EvmStep.v ===== *)
(** One iteration of the interpreter loop keeps the invariants, and pays for
    itself unless it ends the run. *)

From S2P Require Import Prelude BigMath VmData VmState StateSpec GasTable Instructions Evm.
From S2P Require Import EvmInv EvmExec EvmGas.
Import Big GoMath Common VmCommon Params MemoryTable Stack.

Section Step.
Context {db : Type} `{!StateDB db} (env : Env db).
Context `{!StateDBSpec db (Keccak256Hash env)}.
Context (locked : ledger) (Henv : env_ok env locked).

(** * From gas and execution to an operation *)

Lemma contract_ok_SetGas c g : contract_ok env c -> 0 <= g < 2 ^ 64 -> contract_ok env (SetGas c g).
Proof. intros [] ?. by split. Qed.

Lemma charged_ok sz cost s :
  frame_ok env locked s -> 0 <= cost <= Gas (contract s) -> 0 <= sz <= maxMemory ->
  frame_ok env locked (charged sz cost s) /\
  Gas (contract (charged sz cost s)) = Gas (contract s) - cost /\
  sz <= Memory.Len (memory (charged sz cost s)).
Proof.
  intros [] Hc Hsz. destruct s as [n st m c e]. cbn in *.
  pose proof (gas_range _ _ frame_contract). rewrite u64_small by lia.
  assert (Memory.Len (if sz >? 0 then Memory.Resize m sz else m) = Z.max (Memory.Len m) sz) as Hm.
  { destruct (sz >? 0) eqn:?; unfold maxMemory in *.
    - apply Memory.Resize_len; lia.
    - pose proof (len_nonneg (Memory.store m)). unfold Memory.Len. lia. }
  split; [split; cbn|cbn]; rewrite ?Hm; try done; try lia.
  apply contract_ok_SetGas; [done|apply u64_range].
Qed.

Lemma post_trans s1 s2 s3 : post env locked s1 s2 -> post env locked s2 s3 -> post env locked s1 s3.
Proof. intros [] []. split; [done|lia|by etrans|done]. Qed.

Lemma gas_post_ok s s' : frame_ok env locked s -> gas_post env locked s s' -> frame_ok env locked s'.
Proof.
  intros [] (m & e & -> & Hm & ? & ?). split; cbn; try done.
  unfold Memory.Len in *. by rewrite Hm.
Qed.

Lemma gas_post_post s s' :
  frame_ok env locked s -> pc s <= 2 ^ 62 -> gas_post env locked s s' -> post env locked s s'.
Proof.
  intros Hf Hpc Hg. pose proof (gas_post_ok _ _ Hf Hg).
  destruct Hg as (m & e & -> & ? & ? & ?). split; cbn; try done; lia.
Qed.

Definition with_returnData (s : frame db) (r : list byte) : frame db :=
  mkFrame (pc s) (stack s) (memory s) (contract s) (set_returnData (evm s) r).

Lemma post_returnData s s' r :
  post env locked s s' -> len r < 2 ^ 62 -> post env locked s (with_returnData s' r).
Proof.
  intros [[] ? [] ?] ?. destruct frame_evm.
  split; [split|..]; cbn; try done; split; cbn; done.
Qed.

Lemma executeOp_wp o (Q : list byte -> frame db -> Prop) F s :
  wp (execute o) (fun ret s' => Q ret (if returns o then with_returnData s' ret else s'))
    (fun err s' => F err (if returns o then with_returnData s' [] else s')) s ->
  wp (executeOp o) Q F s.
Proof.
  unfold wp, executeOp. destruct (execute o s); try done; by destruct (returns o).
Qed.

Lemma executeOp_post o s s0 bound :
  post env locked s s0 ->
  wp (execute o) (fun ret s' => post env locked s0 s' /\ len ret < 2 ^ 62 /\ Gas (contract s') <= bound)
    (fun _ s' => post env locked s0 s') s0 ->
  wp (executeOp o) (fun ret s' => post env locked s s' /\ len ret < 2 ^ 62 /\ Gas (contract s') <= bound)
    (fun _ s' => post env locked s s') s0.
Proof.
  intros H0 Hex. apply executeOp_wp. eapply wp_mono; [exact Hex|..].
  - intros ret s' (? & ? & ?). pose proof (post_trans _ _ _ H0 H).
    destruct (returns o); split_and!; try done. by apply post_returnData.
  - intros err s' ?. pose proof (post_trans _ _ _ H0 H).
    destruct (returns o); [|done]. by apply post_returnData.
Qed.

(** The specification of an operation with its table entry; [R] is what the
    restrictions of read-only mode guarantee. *)
Definition op_spec (N : Z) (o : operation) (k j : Z) (R : frame db -> Prop) (lo : Z) : Prop :=
  forall s, frame_ok env locked s -> pc s < 2 ^ 62 ->
    k <= len (stack s) -> len (stack s) + j - k <= StackLimit ->
    R s -> Gas (contract s) <= N ->
    wp (perform env o)
      (fun ret s' => post env locked s s' /\ len ret < 2 ^ 62 /\
                     Gas (contract s') <= Gas (contract s) - lo)
      (fun _ s' => post env locked s s') s.

Definition writes_allowed (w : bool) (s : frame db) : Prop :=
  readOnly (evm s) = true -> w = false.

(** The memory size is defined on a stack of [k] words. *)
Definition mem_spec (mf : option (list Z -> option Z)) (k : Z) : Prop :=
  forall f st, mf = Some f -> Forall word st -> k <= len st ->
    exists sz, f st = Some sz /\ 0 <= sz.

Lemma op_spec_intro N o k j w lo :
  0 <= lo -> mem_spec (memorySize o) k ->
  gas_spec env locked (gasCost o) k (match memorySize o with None => false | _ => true end) w lo ->
  exec_spec env locked N (execute o) k j (memorySize o) w lo ->
  op_spec N o k j (writes_allowed w) lo.
Proof.
  intros Hlo Hmem Hgas Hex s Hf Hpc Hk Hj Hw HN.
  assert (forall v, (memorySize o = None -> v = 0) -> 0 <= v ->
    (forall f, memorySize o = Some f -> exists sz, f (stack s) = Some sz /\ sz <= v) ->
    wp (gasCost o GasTableEIP158 v)
      (fun cost s1 => post env locked s s1 /\
         (cost <= Gas (contract s1) -> wp (executeOp o)
            (fun ret s' => post env locked s s' /\ len ret < 2 ^ 62 /\
                           Gas (contract s') <= Gas (contract s) - lo)
            (fun _ s' => post env locked s s') (charged v cost s1)))
      (fun _ s1 => post env locked s s1) s) as Hmain.
  { intros v Hv0 Hv Hv'. eapply wp_mono; [apply Hgas; try done|..].
    { intros E. apply Hv0. by destruct (memorySize o). }
    - intros cost s1 (Hg & Hcost & Hmax). pose proof (gas_post_ok _ _ Hf Hg) as Hf1.
      pose proof (gas_post_post _ _ Hf ltac:(lia) Hg) as Hp1.
      split; [done|]. intros Hle.
      destruct (charged_ok v cost s1 Hf1) as (Hf2 & Hgas2 & Hlen2); [lia..|].
      destruct Hg as (m & e & -> & Hm & He & Hr). cbn in Hgas2, Hle.
      apply executeOp_post.
      + split; [done|cbn; lia|done|cbn; lia].
      + eapply wp_mono; [apply Hex; cbn -[Gas]; try done|..].
        * intros f Hfm. destruct (Hv' f Hfm) as (sz & ? & ?). exists sz. split; [done|].
          cbn in Hlen2. lia.
        * unfold writes_allowed in Hw. rewrite <- (rel_readOnly _ _ _ _ Hr) in Hw. exact Hw.
        * cbn. lia.
        * intros ret s' [Hp ?]. split_and!; [done..|]. pose proof (post_gas _ _ _ _ Hp) as Hpg. cbn in Hpg. lia.
        * done.
    - intros err s1 Hg. apply gas_post_post; [done|lia|done]. }
  apply (perform_wp env locked Henv). apply requestedMemory_wp.
  - intros E. split; [done|]. apply Hmain; [done|lia|congruence].
  - intros f E. apply (Hmem f); [done|apply (stack_words _ _ _ Hf)|done].
  - intros f sz v E Hsz ? ?. split; [done|]. apply Hmain; [congruence|lia|].
    intros f' E'. assert (f' = f) as -> by congruence. by exists sz.
  - intros err. destruct s, (Hf). cbn in *. eapply post_stack; [done..|lia].
Qed.

(** * Calls *)

(** What a call promises: the invariants, at most the given gas left, and on an
    error the state of before. *)
Definition call_post (e : EVM db) (gas : Z) (r : list byte * Z * option vmerror) (e' : EVM db) : Prop :=
  let '(ret, gas', err) := r in
  evm_ok env locked e' /\ evm_rel env locked e e' /\ 0 <= gas' <= gas /\ len ret < 2 ^ 62 /\
  (err <> None -> abs (statedb e') = abs (statedb e)).

(** A failed creation may leave the increased nonce of the caller. *)
Definition create_post (e : EVM db) (caller : Address) (gas : Z)
    (r : list byte * Address * Z * option vmerror) (e' : EVM db) : Prop :=
  let '(ret, addr, gas', err) := r in
  evm_ok env locked e' /\ evm_rel env locked e e' /\ 0 <= gas' <= gas /\ len ret < 2 ^ 62 /\
  (err <> None -> abs (statedb e') = abs (statedb e) \/
     abs (statedb e') =
       abs_update (USetNonce caller (u64 (a_nonce (acct (abs (statedb e)) caller) + 1)))
         (abs (statedb e))).

(** The five entry points, with gas at most [N - 2]. *)
Record calls_ok (N : Z) (calls : Calls db) : Prop := {
  Call_ok caller addr input gas v e :
    evm_ok env locked e -> len input < 2 ^ 62 -> 0 <= gas < 2 ^ 64 -> gas + 2 <= N -> word v ->
    (readOnly e = true -> v = 0) ->
    wp (Call calls caller addr input gas v) (call_post e gas) (fun _ _ => False) e;
  CallCode_ok caller addr input gas v e :
    evm_ok env locked e -> len input < 2 ^ 62 -> 0 <= gas < 2 ^ 64 -> gas + 2 <= N -> word v ->
    wp (CallCode calls caller addr input gas v) (call_post e gas) (fun _ _ => False) e;
  DelegateCall_ok c addr input gas e :
    evm_ok env locked e -> len input < 2 ^ 62 -> 0 <= gas < 2 ^ 64 -> gas + 2 <= N ->
    word (value c) ->
    wp (DelegateCall calls (ContractOf c) addr input gas) (call_post e gas) (fun _ _ => False) e;
  StaticCall_ok caller addr input gas e :
    evm_ok env locked e -> len input < 2 ^ 62 -> 0 <= gas < 2 ^ 64 -> gas + 2 <= N ->
    wp (StaticCall calls caller addr input gas) (call_post e gas) (fun _ _ => False) e;
  Create_ok caller code gas v e :
    evm_ok env locked e -> len code < 2 ^ 62 -> 0 <= gas < 2 ^ 64 -> gas + 2 <= N -> word v ->
    readOnly e = false ->
    wp (Create calls caller code gas v) (create_post e (RefAddress caller) gas) (fun _ _ => False) e;
}.

Lemma wp_call_evm {A} (m : ME db A) (Q : A -> frame db -> Prop) F n st mm c e :
  wp m (fun a e' => Q a (mkFrame n st mm c e')) (fun _ _ => False) e ->
  wp (call_evm m) Q F (mkFrame n st mm c e).
Proof. unfold wp, call_evm. cbn. by destruct (m e). Qed.

Context (N : Z) (calls : Calls db) (Hcalls : calls_ok N calls).

Lemma post_call n n' st st' m m' c e e' g :
  frame_ok env locked (mkFrame n st m c e) -> Forall word st' -> len st' <= StackLimit ->
  Memory.Len m' <= maxMemory -> evm_ok env locked e' -> evm_rel env locked e e' ->
  0 <= g <= Gas c -> 0 <= n' <= 2 ^ 62 + 64 ->
  post env locked (mkFrame n st m c e) (mkFrame n' st' m' (SetGas c g) e').
Proof.
  intros [] ? ? ? ? ? ? ?. cbn in *. pose proof (gas_range _ _ frame_contract).
  split; cbn; [split; cbn; try done; [apply contract_ok_SetGas; [done|]|]; lia|lia|done|lia].
Qed.

Lemma SetGas_SetGas c g h : SetGas (SetGas c g) h = SetGas c h.
Proof. done. Qed.

Lemma opCreate_spec :
  exec_spec env locked N (opCreate calls) 3 1 (Some memoryCreate) true 2.
Proof.
  exec_intro. frame_facts. mem_fits. unfold opCreate. exec_run.
  destruct (memory_read m x0 x1) as (d & -> & ?); [done..|]. cbv beta iota.
  set (g := Gas c / 64). assert (0 <= g <= Gas c) by (unfold g; zlia).
  rewrite (u64_small (Gas c - g)) by lia. unfold UseGas.
  replace (Gas c <? Gas c - g) with false by lia. cbn [snd].
  replace (Gas c - (Gas c - g)) with g by lia. rewrite (u64_small g) by lia.
  pose proof (Create_ok _ _ Hcalls (ContractOf (SetGas c g)) d (Gas c - g) x e) as Hc.
  unfold wp in Hc. unfold call_evm. cbn [evm pc stack memory contract].
  destruct (Create _ _ _ _ _ e) as [[[[ret addr] rg] err] e'|[]| |];
    [destruct Hc as (? & ? & ? & ? & ?)|destruct Hc..];
    try done; try (apply (frame_evm _ _ _ Hf)); try lia; try (by destruct (readOnly e); [specialize (Hw eq_refl)|]).
  assert (forall r : list byte, len r < 2 ^ 62 -> len (if bool_decide (err = Some errExecutionReverted)
            then r else []) < 2 ^ 62) by (intros r ?; by case_bool_decide).
  destruct err as [err|]; cbv beta iota;
    rewrite SetGas_SetGas; cbn [Gas SetGas]; rewrite u64_small by lia;
    (split; [|auto]); (apply post_call; try done; [stack_words|stack_length|lia|lia]).
Qed.

(** * The call instructions *)

Lemma finishCall_wp retO retS ret rg err (Q : list byte -> frame db -> Prop) F n st m c e :
  Memory.Len m <= maxMemory -> Memory.fits m retO retS ->
  (forall f m', word f -> Memory.Len m' <= maxMemory ->
     Q ret (mkFrame n (f :: st) m' (SetGas c (u64 (Gas c + rg))) e)) ->
  wp (finishCall retO retS (ret, rg, err)) Q F (mkFrame n st m c e).
Proof.
  intros Hm Hfit HQ. unfold finishCall. exec_run.
  destruct (memory_write m retO retS ret) as (m' & Hset & ?); [done..|].
  destruct err as [err|], (_ || _); cbv beta iota; rewrite ?Hset; apply HQ; auto with word.
Qed.

(** [call_exec_spec ex k v R mf]: a call instruction, run with the gas [cg] of
    the callee on the stack after [base + cg] was paid by the frame [s0]. *)
Definition call_exec_spec (ex : executionFunc) (k : Z) (v : list Z -> Z)
    (R : bool -> list Z -> Prop) (mf : list Z -> option Z) : Prop :=
  forall s0 n cg st m c e base,
    frame_ok env locked (mkFrame n (cg :: st) m c e) -> n < 2 ^ 62 ->
    k <= len (cg :: st) -> len (cg :: st) + 1 - k <= StackLimit ->
    (exists sz, mf (cg :: st) = Some sz /\ sz <= Memory.Len m) ->
    R (readOnly e) (cg :: st) -> 0 <= cg ->
    700 <= base -> (v (cg :: st) <> 0 -> 9700 <= base) ->
    Gas c + cg + base <= N -> Gas c + cg + base < 2 ^ 64 ->
    evm s0 = e -> Gas (contract s0) = Gas c + cg + base ->
    wp ex (fun ret s' => post env locked s0 s' /\ len ret < 2 ^ 62 /\
                         Gas (contract s') <= Gas (contract s0) - 1)
      (fun _ _ => False) (mkFrame n (cg :: st) m c e).

Lemma post_call_end s0 n st st' m m' c e e' g :
  frame_ok env locked (mkFrame n st m c e) -> n < 2 ^ 62 -> Forall word st' ->
  len st' <= StackLimit -> Memory.Len m' <= maxMemory ->
  evm_ok env locked e' -> evm_rel env locked e e' -> evm s0 = e ->
  0 <= g < Gas (contract s0) -> Gas (contract s0) < 2 ^ 64 ->
  post env locked s0 (mkFrame n st' m' (SetGas c g) e') /\
  Gas (contract (mkFrame n st' m' (SetGas c g) e')) <= Gas (contract s0) - 1.
Proof.
  intros [] ? ? ? ? ? ? <- ? ?. cbn in *.
  split; [split; cbn; [split; cbn; try done; apply contract_ok_SetGas; [done|lia]|lia|done|lia]|lia].
Qed.

Ltac call_intro :=
  intros s0 n cg st m c e base Hf Hpc Hk Hj (sz & Hsz & Hle) HR Hcg Hb Hbv HN HG Hs0 Hg0;
  repeat (let y := fresh "y" in
          destruct st as [|y st];
          [exfalso; rewrite ?len_cons, len_nil in Hk; lia|]);
  pose proof (stack_words _ _ _ Hf) as Hst; cbn [stack] in Hst;
  rewrite ?Forall_cons_iff in Hst; destruct_and? Hst; rewrite ?len_cons in *;
  cbn -[calcMemSize BigMax] in Hsz; injection Hsz as <-; apply BigMax_le in Hle as [Hle1 Hle2];
  apply calcMemSize_fits in Hle1; [|done..]; apply calcMemSize_fits in Hle2; [|done..];
  frame_facts; rewrite ?U256_small by done.

Lemma wp_pop (Q : Z -> frame db -> Prop) F n x st m c e :
  Q x (mkFrame n st m c e) -> wp VmState.pop Q F (mkFrame n (x :: st) m c e).
Proof. done. Qed.

(** Pop the operands and read the arguments from memory. *)
Ltac call_args :=
  repeat apply wp_bind, wp_pop; apply wp_bind, wp_gets, wp_bind; cbn [memory];
  match goal with |- wp (must (Memory.Get ?m (Int64 ?o) (Int64 ?l))) _ _ _ =>
    let args := fresh "args" in let Hargs := fresh "Hargs" in
    destruct (memory_read m o l) as (args & Hargs & ?); [done..|];
    eapply wp_must; [exact Hargs|]
  end; apply wp_bind, wp_gets, wp_bind, wp_call_evm; cbn [contract].

(** Store the result and take the gas back. *)
Ltac call_end :=
  intros [[ret rg] err] e' (? & ? & ? & ? & _);
  apply finishCall_wp; [done|done|]; intros f m' ? ?;
  rewrite u64_small by lia;
  match goal with |- ?P /\ _ /\ ?G => assert (P /\ G) as [? ?]; [|done] end;
  eapply post_call_end; [eassumption|done|stack_words|stack_length|done|done|done|done|lia|lia].

Lemma opCall_spec :
  call_exec_spec (opCall calls) 7 call_value (fun r st => r = true -> call_value st = 0) memoryCall.
Proof.
  call_intro. unfold opCall. call_args. rewrite U256_small, (Uint64_small cg) by (done || lia).
  cbn in HR, Hbv. set (g := if negb _ then _ else _).
  assert (0 <= g <= cg + 2300 /\ (y0 = 0 -> g = cg)) as [? ?].
  { unfold g, CallStipend, Sign. destruct (Z.eqb_spec (Z.sgn y0) 0); cbn [negb]; [lia|].
    rewrite u64_small by lia. lia. }
  clearbody g. eapply wp_mono; [apply (Call_ok _ _ Hcalls); (done || lia)|call_end|done].
Qed.

Lemma opCallCode_spec :
  call_exec_spec (opCallCode calls) 7 call_value (fun _ _ => True) memoryCall.
Proof.
  call_intro. unfold opCallCode. call_args. rewrite U256_small, (Uint64_small cg) by (done || lia).
  cbn in Hbv. set (g := if negb _ then _ else _).
  assert (0 <= g <= cg + 2300 /\ (y0 = 0 -> g = cg)) as [? ?].
  { unfold g, CallStipend, Sign. destruct (Z.eqb_spec (Z.sgn y0) 0); cbn [negb]; [lia|].
    rewrite u64_small by lia. lia. }
  clearbody g. eapply wp_mono; [apply (CallCode_ok _ _ Hcalls); (done || lia)|call_end|done].
Qed.

Lemma opDelegateCall_spec :
  call_exec_spec (opDelegateCall calls) 6 (fun _ => 0) (fun _ _ => True) memoryDelegateCall.
Proof.
  call_intro. unfold opDelegateCall. call_args. rewrite (Uint64_small cg) by lia.
  eapply wp_mono; [apply (DelegateCall_ok _ _ Hcalls); (done || lia)|call_end|done].
Qed.

Lemma opStaticCall_spec :
  call_exec_spec (opStaticCall calls) 6 (fun _ => 0) (fun _ _ => True) memoryStaticCall.
Proof.
  call_intro. unfold opStaticCall. call_args. rewrite (Uint64_small cg) by lia.
  eapply wp_mono; [apply (StaticCall_ok _ _ Hcalls); (done || lia)|call_end|done].
Qed.

(** The memory request and the value of a call do not depend on its gas. *)
Definition gas_independent {A} (f : list Z -> A) : Prop := forall x y st, f (x :: st) = f (y :: st).

Lemma call_op_spec o k v R mf :
  memorySize o = Some mf -> 0 < k -> mem_spec (Some mf) k ->
  gas_independent mf -> gas_independent v -> (forall b, gas_independent (R b)) ->
  call_gas_spec env locked (gasCost o) k v ->
  call_exec_spec (execute o) k v R mf ->
  op_spec N o k 1 (fun s => R (readOnly (evm s)) (stack s)) 1.
Proof.
  intros Hmf Hk0 Hmem Hmi Hvi HRi Hgas Hex s Hf Hpc Hk Hj HR HN.
  destruct s as [n st m c e]. cbn [pc stack evm contract] in *.
  destruct st as [|x st]; [exfalso; rewrite len_nil in Hk; lia|].
  apply (perform_wp env locked Henv). apply requestedMemory_wp; rewrite ?Hmf.
  { done. }
  { intros f [= <-]. apply (Hmem mf); [done|apply (stack_words _ _ _ Hf)|done]. }
  2: { intros err. destruct (Hf). cbn in *. eapply post_stack; [done..|lia]. }
  intros f sz v' [= <-] Hsz Hle Hv'. split; [done|].
  eapply wp_mono; [apply Hgas; (done || lia)|intros cost s1|done].
  intros (cg & base & m' & -> & Hm & Hmax & Hcg & -> & Hcost & Hb & Hbv).
  pose proof (post_call_gas env locked n x cg st m m' c e Hf ltac:(lia) Hm ltac:(lia)) as Hp.
  split; [done|]. intros Hpay. cbn [contract] in Hpay.
  destruct (charged_ok v' (base + cg) _ (post_frame _ _ _ _ Hp)) as (Hf2 & Hg2 & Hl2);
    [cbn; lia|lia|]. cbn in Hf2, Hg2, Hl2.
  apply executeOp_wp. unfold charged. cbn [pc stack memory contract evm].
  eapply wp_mono; [eapply (Hex (mkFrame n (x :: st) m c e)); try done; cbn; try lia|..].
  - exists sz. rewrite <- Hsz. cbn in *. split; [apply Hmi|lia].
  - by rewrite (HRi _ cg x).
  - intros Hv0. apply Hbv. by rewrite (Hvi x cg).
  - pose proof (gas_range _ _ (frame_contract _ _ _ Hf)). cbn in *. lia.
  - intros ret s' (? & ? & ?). destruct (returns o); split_and!; try done. by apply post_returnData.
  - done.
Qed.
End Step.
