(* ===== verification/EvmTable.v ===== *)
(** Every entry of the Byzantium instruction table (core/vm/jump_table.go)
    keeps the invariants: its stack check, memory size, gas function and
    execution function fit together. *)

From S2P Require Import Prelude BigMath VmData VmState StateSpec GasTable Instructions Evm.
From S2P Require Import EvmInv EvmExec EvmGas EvmStep.
Import Big GoMath Common VmCommon Params MemoryTable Stack Op.

Section Table.
Context {db : Type} `{!StateDB db} (env : Env db).
Context `{!StateDBSpec db (Keccak256Hash env)}.
Context (locked : ledger) (Henv : env_ok env locked).
Context (N : Z) (calls : Calls db) (Hcalls : calls_ok env locked N calls).

(** * Memory sizes *)

Lemma calcMemSize_nonneg a b : word a -> word b -> 0 <= calcMemSize a b.
Proof. unfold word, calcMemSize. intros. destruct (_ =? _); lia. Qed.

Lemma BigMax_nonneg a b : 0 <= a -> 0 <= b -> 0 <= BigMax a b.
Proof. unfold BigMax. intros. by destruct (_ <? _). Qed.

Ltac mem_solve :=
  intros f st [= <-] Hst Hk;
  repeat (let y := fresh "y" in
          destruct st as [|y st];
          [exfalso; rewrite ?len_cons, len_nil in Hk; lia|]);
  rewrite ?Forall_cons_iff in Hst; destruct_and? Hst;
  eexists; split; [reflexivity|];
  repeat (first [apply BigMax_nonneg|apply calcMemSize_nonneg]); auto with word.

Lemma memorySha3_spec : mem_spec (Some memorySha3) 2. Proof. mem_solve. Qed.
Lemma memoryCallDataCopy_spec : mem_spec (Some memoryCallDataCopy) 3. Proof. mem_solve. Qed.
Lemma memoryReturnDataCopy_spec : mem_spec (Some memoryReturnDataCopy) 3. Proof. mem_solve. Qed.
Lemma memoryCodeCopy_spec : mem_spec (Some memoryCodeCopy) 3. Proof. mem_solve. Qed.
Lemma memoryExtCodeCopy_spec : mem_spec (Some memoryExtCodeCopy) 4. Proof. mem_solve. Qed.
Lemma memoryMLoad_spec : mem_spec (Some memoryMLoad) 1. Proof. mem_solve. Qed.
Lemma memoryMStore_spec : mem_spec (Some memoryMStore) 2. Proof. mem_solve. Qed.
Lemma memoryMStore8_spec : mem_spec (Some memoryMStore8) 2. Proof. mem_solve. Qed.
Lemma memoryCreate_spec : mem_spec (Some memoryCreate) 3. Proof. mem_solve. Qed.
Lemma memoryCall_spec : mem_spec (Some memoryCall) 7. Proof. mem_solve. Qed.
Lemma memoryDelegateCall_spec : mem_spec (Some memoryDelegateCall) 6. Proof. mem_solve. Qed.
Lemma memoryStaticCall_spec : mem_spec (Some memoryStaticCall) 6. Proof. mem_solve. Qed.
Lemma memoryReturn_spec : mem_spec (Some memoryReturn) 2. Proof. mem_solve. Qed.
Lemma memoryRevert_spec : mem_spec (Some memoryRevert) 2. Proof. mem_solve. Qed.
Lemma memoryLog_spec k : 2 <= k -> mem_spec (Some memoryLog) k.
Proof.
  intros Hk f st [= <-] Hst Hl. destruct st as [|x [|y st]].
  - rewrite len_nil in Hl. lia.
  - rewrite len_cons, len_nil in Hl. lia.
  - rewrite !Forall_cons_iff in Hst. destruct_and! Hst. eexists. split; [reflexivity|].
    by apply calcMemSize_nonneg.
Qed.
Lemma mem_spec_None k : mem_spec None k. Proof. done. Qed.

(** * Assembling a table entry *)

Create HintDb evm_table discriminated.
#[local] Hint Resolve
  opAdd_spec opSub_spec opMul_spec opDiv_spec opSdiv_spec opMod_spec opSmod_spec
  opExp_spec opSignExtend_spec opLt_spec opGt_spec opSlt_spec opSgt_spec opEq_spec
  opAnd_spec opOr_spec opXor_spec opByte_spec opNot_spec opIszero_spec opAddmod_spec
  opMulmod_spec opPop_spec opJumpdest_spec opAddress_spec opCaller_spec opCallValue_spec
  opCallDataSize_spec opReturnDataSize_spec opCodeSize_spec opGas_spec opPc_spec
  opMsize_spec opOrigin_spec opCoinbase_spec opTimestamp_spec opNumber_spec
  opDifficulty_spec opGasLimit_spec opGasprice_spec opBlockhash_spec opSload_spec
  opBalance_spec opExtCodeSize_spec opCallDataLoad_spec opMload_spec opMstore_spec
  opMstore8_spec opCallDataCopy_spec opCodeCopy_spec opExtCodeCopy_spec
  opReturnDataCopy_spec opReturn_spec opRevert_spec opSha3_spec opSstore_spec makeLog_spec
  opSuicide_spec opJump_spec opJumpi_spec makePush_spec makeDup_spec makeSwap_spec
  opCreate_spec : evm_table.
#[local] Hint Resolve
  constGasFunc_spec gasPush_spec gasDup_spec gasSwap_spec gasBalance_spec
  gasExtCodeSize_spec gasSLoad_spec gasCallDataCopy_spec gasReturnDataCopy_spec gasCodeCopy_spec
  gasExtCodeCopy_spec gasSha3_spec gasMLoad_spec gasMStore_spec gasMStore8_spec
  gasCreate_spec gasReturn_spec gasRevert_spec gasSStore_spec gasSuicide_spec gasExp_spec
  makeGasLog_spec : evm_table.
#[local] Hint Resolve
  memorySha3_spec memoryCallDataCopy_spec memoryReturnDataCopy_spec memoryCodeCopy_spec
  memoryExtCodeCopy_spec memoryMLoad_spec memoryMStore_spec memoryMStore8_spec
  memoryCreate_spec memoryCall_spec memoryDelegateCall_spec memoryStaticCall_spec
  memoryReturn_spec memoryRevert_spec memoryLog_spec mem_spec_None : evm_table.

#[local] Hint Extern 5 (_ <= _ <= _) => (gas_consts; cbn; lia) : evm_table.
#[local] Hint Extern 5 (_ <= _ < _) => (gas_consts; cbn; lia) : evm_table.
#[local] Hint Extern 5 (_ <= _) => (gas_consts; cbn; lia) : evm_table.
#[local] Hint Extern 5 (_ < _)%nat => (cbn; lia) : evm_table.

(** The restrictions of read-only mode on an operation. *)
Definition allowed (op : byte) (o : operation (db:=db)) (s : frame db) : Prop :=
  readOnly (evm s) = true -> writes o = false /\ (op = CALL -> call_value (stack s) = 0).

Definition table_ok (op : byte) (o : operation (db:=db)) : Prop :=
  forall s, frame_ok env locked s -> pc s < 2 ^ 62 -> validateStack o (stack s) = None ->
    allowed op o s -> Gas (contract s) <= N ->
    wp (perform env o)
      (fun ret s' => post env locked s s' /\ len ret < 2 ^ 62 /\
         (halts o = false -> reverts o = false -> Gas (contract s') < Gas (contract s)))
      (fun _ s' => post env locked s s') s.

Lemma table_intro op o k j R lo :
  op_spec env locked N o k j R lo ->
  (forall st, validateStack o st = makeStackFunc k j st) ->
  (forall s, allowed op o s -> R s) ->
  (halts o = false -> reverts o = false -> 1 <= lo) -> table_ok op o.
Proof.
  intros Hop Hv HR Hlo s Hf Hpc Hst Ha HN. rewrite Hv in Hst.
  apply makeStackFunc_ok in Hst as [? ?].
  eapply wp_mono; [apply Hop; (done || auto)|..|done].
  intros ret s' (? & ? & ?). split_and!; [done..|]. intros Hh Hr. specialize (Hlo Hh Hr). lia.
Qed.

Lemma op_spec_table o k j we wg kg loe lo :
  exec_spec env locked N (execute o) k j (memorySize o) we loe ->
  gas_spec env locked (gasCost o) kg (match memorySize o with None => false | _ => true end) wg lo ->
  mem_spec (memorySize o) k -> kg <= k -> 0 <= loe <= lo ->
  (we = true -> writes o = true) -> (wg = true -> writes o = true) ->
  op_spec env locked N o k j (writes_allowed (writes o)) lo.
Proof.
  intros Hex Hgas Hmem Hk Hlo Hwe Hwg. apply (op_spec_intro _ _ Henv); [lia|done|..].
  - intros s sz ? ? ? ? Hw. apply Hgas; try done; [lia|].
    intros Hr. specialize (Hw Hr). destruct wg; [|done]. rewrite Hwg in Hw; done.
  - intros s ? ? ? ? ? Hw ?. apply Hex; try done; [|lia].
    intros Hr. specialize (Hw Hr). destruct we; [|done]. rewrite Hwe in Hw; done.
Qed.

Ltac entry_regular :=
  eapply table_intro;
  [eapply op_spec_table; cbn [execute gasCost memorySize writes];
   [eauto with evm_table|eauto with evm_table|eauto with evm_table|gas_consts; cbn; lia..|done|done]
  |reflexivity
  |intros s Ha Hr; apply (Ha Hr)
  |cbn [halts reverts]; first [discriminate|intros; gas_consts; lia]].

(** Entries of call instructions. *)
Ltac entry_call gas ex mem :=
  eapply table_intro;
  [eapply (call_op_spec env locked Henv); cbn [execute gasCost memorySize];
   [reflexivity| |apply mem| | | |apply gas|by apply ex]; [lia|done..]
  |reflexivity
  |intros s Ha; cbn; try done; intros Hr; by apply (Ha Hr)
  |intros; lia].

(** Every valid opcode but STOP: the entry keeps the invariants, and costs gas
    unless it ends the run. *)
Lemma table_step op :
  match NewByzantiumInstructionSet env calls op with
  | Some o => op <> STOP -> table_ok op o
  | None => True
  end.
Proof.
  destruct op; cbn [NewByzantiumInstructionSet NewHomesteadInstructionSet NewFrontierInstructionSet];
    try exact I; intros Hne; try done.
  all: try entry_regular.
  - entry_call gasCall_spec opCall_spec memoryCall_spec.
  - entry_call gasCallCode_spec opCallCode_spec memoryCall_spec.
  - entry_call gasDelegateCall_spec opDelegateCall_spec memoryDelegateCall_spec.
  - entry_call gasStaticCall_spec opStaticCall_spec memoryStaticCall_spec.
Qed.
End Table.
