(* ===== verification/EvmSafety.v ===== *)
(** The interpreter and the entry points of the machine are total and keep the
    invariants: with more fuel than gas no execution panics or runs out of
    fuel, gas only decreases, value is not created, failed calls restore the
    state and read-only calls do not change it. *)

From S2P Require Import Prelude BigMath VmData VmState StateSpec GasTable Instructions Evm.
From S2P Require Import EvmInv EvmExec EvmGas EvmStep EvmTable.
Import Big GoMath Common VmCommon Params Stack Op.

Section Safety.
Context {db : Type} `{!StateDB db} (env : Env db).
Context `{!StateDBSpec db (Keccak256Hash env)}.
Context (locked : ledger) (Henv : env_ok env locked).

(** * One iteration *)

Record step_post (s s' : frame db) : Prop := {
  sp_frame : frame_ok env locked s';
  sp_gas : Gas (contract s') <= Gas (contract s);
  sp_evm : evm_rel env locked (evm s) (evm s');
}.

Lemma step_post_refl s : frame_ok env locked s -> step_post s s.
Proof. intros. by split. Qed.

Lemma step_post_trans s1 s2 s3 : step_post s1 s2 -> step_post s2 s3 -> step_post s1 s3.
Proof. intros [] []. split; [done|lia|by etrans]. Qed.

Lemma post_step_post s s' : post env locked s s' -> step_post s s'.
Proof. intros []. by split. Qed.

Lemma stop_ok calls o s :
  NewByzantiumInstructionSet env calls STOP = Some o -> frame_ok env locked s ->
  wp (perform env o) (fun ret s' => step_post s s' /\ ret = []) (fun _ s' => step_post s s') s /\
  halts o = true /\ reverts o = false.
Proof.
  intros [= <-] Hf. split; [|done]. apply (perform_wp env locked Henv).
  apply wp_ret. split; [done|]. apply wp_ret. split; [by apply step_post_refl|].
  intros _. apply executeOp_wp, wp_ret. cbn -[charged].
  destruct (charged_ok env locked 0 0 s Hf) as (? & Hg & _).
  - pose proof (gas_range _ _ (frame_contract _ _ _ Hf)). lia.
  - unfold maxMemory. lia.
  - split; [|done]. split; [done|lia|done].
Qed.

Lemma enforceRestrictions_wp op o (Q : unit -> frame db -> Prop) F s :
  (op = CALL -> 3 <= len (stack s)) -> Forall word (stack s) ->
  (allowed op o s -> Q tt s) -> (forall err, F err s) ->
  wp (enforceRestrictions op o) Q F s.
Proof.
  intros Hc Hst HQ HF. unfold enforceRestrictions. apply wp_bind, wp_gets.
  unfold allowed in HQ. destruct (readOnly (evm s)); [|by apply wp_ret, HQ].
  destruct (writes o); [by apply wp_throw|].
  case_bool_decide as Hop; [|by apply wp_ret, HQ].
  destruct (lookup_lt_is_Some_2 (stack s) 2) as [x Hx]; [specialize (Hc Hop); unfold len in *; lia|].
  apply wp_bind. eapply wp_back; [done|].
  destruct (BitLen x >? 0) eqn:Hb; [by apply wp_throw|].
  apply wp_ret, HQ. intros _. split; [done|]. intros _. unfold call_value. rewrite Hx. cbn.
  pose proof (BitLen_le x 0 ltac:(lia)). lia.
Qed.

Lemma GetOp_end c n : len (Code c) < 2 ^ 62 -> 2 ^ 62 <= n -> GetOp c n = STOP.
Proof.
  intros Hc Hn. unfold GetOp, GetByte. pose proof (len_nonneg (Code c)).
  rewrite u64_small by lia. by replace (n <? _) with false by lia.
Qed.

Lemma step_ok N calls s :
  calls_ok env locked N calls -> frame_ok env locked s -> Gas (contract s) <= N ->
  wp (step env calls)
    (fun r s' => step_post s s' /\
       match r with
       | None => Gas (contract s') < Gas (contract s)
       | Some (ret, _) => len ret < 2 ^ 62
       end)
    (fun _ s' => step_post s s') s.
Proof.
  intros Hcalls Hf HN. unfold step. apply wp_bind, wp_gets, wp_bind, wp_gets.
  set (op := GetOp _ _).
  pose proof (table_step env locked Henv N calls Hcalls op) as Ht.
  destruct (NewByzantiumInstructionSet env calls op) as [o|] eqn:Ho;
    [|by apply wp_throw, step_post_refl].
  apply wp_bind, wp_gets.
  destruct (validateStack o (stack s)) as [err|] eqn:Hv; [by apply wp_throw, step_post_refl|].
  apply wp_bind, enforceRestrictions_wp.
  { intros Hop. rewrite Hop in Ho. injection Ho as <-.
    apply makeStackFunc_ok in Hv as [? _]. lia. }
  { apply (stack_words _ _ _ Hf). }
  2: { intros err. by apply step_post_refl. }
  intros Ha. apply wp_bind.
  destruct (decide (op = STOP)) as [Hop|Hne].
  - rewrite Hop in Ho. destruct (stop_ok calls o s Ho Hf) as (Hs & Hh & Hr).
    eapply wp_mono; [exact Hs| |done]. intros ret s' [? ->]. rewrite Hr, Hh.
    by apply wp_ret.
  - assert (pc s < 2 ^ 62).
    { apply Z.lt_nge. intros Hge. apply Hne, GetOp_end; [|done].
      apply (code_length _ _ (frame_contract _ _ _ Hf)). }
    eapply wp_mono; [by apply (Ht Hne)| |intros; by apply post_step_post].
    intros ret s' (Hp & Hl & Hlt). pose proof (post_step_post _ _ Hp).
    destruct (reverts o); [by apply wp_ret|]. destruct (halts o); [by apply wp_ret|].
    specialize (Hlt eq_refl eq_refl). destruct (jumps o); [by apply wp_ret|].
    apply wp_bind, wp_gets, wp_bind, wp_modify, wp_ret. cbn.
    destruct Hp as [[] ? ? ?]. rewrite u64_small by lia.
    split; [|done]. split; cbn; [split; cbn; try done; lia|done|done].
Qed.

(** * Entry points *)

(** What running a contract promises. *)
Definition run_post (c : Contract) (e : EVM db) (r : list byte * option vmerror * Z) (e' : EVM db)
    : Prop :=
  let '(ret, err, gas') := r in
  failed_rel env e e' /\ (err = None -> evm_ok env locked e' /\ evm_rel env locked e e') /\
  0 <= gas' <= Gas c /\ len ret < 2 ^ 62.

Lemma run_post_ok c e ret err gas e' :
  evm_ok env locked e' -> evm_rel env locked e e' -> 0 <= gas <= Gas c -> len ret < 2 ^ 62 ->
  run_post c e (ret, err, gas) e'.
Proof. intros. split_and!; first [done|lia|by apply rel_failed with locked]. Qed.

Definition run_ok (N : Z) (run : Contract -> list byte -> ME db (list byte * option vmerror * Z))
    : Prop :=
  forall c input e, evm_ok env locked e -> contract_ok env c -> len input < 2 ^ 62 ->
    Gas c + 2 <= N -> wp (run c input) (run_post c e) (fun _ _ => False) e.

Lemma enter_ok caller e : evm_ok env locked e -> evm_ok env locked (enter caller e).
Proof. intros []. destruct caller; [|done]. by split. Qed.

Lemma enter_rel caller e e' : evm_rel env locked e e' -> evm_rel env locked e (enter caller e').
Proof. intros []. by destruct caller; split. Qed.

Lemma statedb_enter caller (e : EVM db) : statedb (enter caller e) = statedb e.
Proof. by destruct caller. Qed.

(** The contract that runs the code of an account. *)
Lemma callee_ok caller self v gas d addr :
  db_ok d -> state_ok (abs d) -> 0 <= gas < 2 ^ 64 -> word v ->
  contract_ok env (SetCallCode (NewContract caller self v gas) addr (GetCodeHash d addr) (GetCode d addr)).
Proof.
  intros Hd Hs Hg Hv. pose proof (acct_ok _ addr Hs) as (_ & _ & ?).
  rewrite (GetCode_spec (hash:=Keccak256Hash env)), (GetCodeHash_spec (hash:=Keccak256Hash env)) by done.
  split; cbn; try done. unfold acct.
  destruct (accounts (abs d) !! addr); cbn; [by right|by left].
Qed.

(** A prepared call: [e1] is the machine when the callee starts, after the
    snapshot [sid] of [e] and the transfer. *)
Record prepared (e : EVM db) (sid : Z) (e1 : EVM db) : Prop := {
  prep_ok : evm_ok env locked e1;
  prep_rel : evm_rel env locked e e1;
  prep_covers : covers (statedb e1) sid (abs (statedb e));
  prep_newer : forall i s, covers (statedb e) i s -> i < sid;
}.

Lemma snapshot_prepared e sid d :
  evm_ok env locked e -> Snapshot (statedb e) = (sid, d) -> prepared e sid (set_db e d).
Proof.
  intros He Hs. destruct (Snapshot_spec _ _ _ (evm_db _ _ _ He) Hs) as (? & Habs & ? & Hc).
  destruct (He). destruct (evm_change env locked e d) as [? ?]; try done.
  - by rewrite Habs.
  - by rewrite Habs.
  - rewrite Habs. lia.
  - intros. by apply Hc.
  - intros. by rewrite Habs.
  - split; try done. intros i s Hi. by apply (Hc i s).
Qed.

Lemma prepared_step e sid e1 e2 :
  prepared e sid e1 -> evm_ok env locked e2 -> evm_rel env locked e1 e2 -> prepared e sid e2.
Proof. intros [] ? Hr. split; try done; [by etrans|by apply Hr]. Qed.

Lemma prepared_enter e sid e1 caller : prepared e sid e1 -> prepared e sid (enter caller e1).
Proof.
  intros []. split; try done; [by apply enter_ok|by apply enter_rel|by rewrite statedb_enter].
Qed.

(** A prepared call after a failure. *)
Record revertible (e : EVM db) (sid : Z) (e2 : EVM db) : Prop := {
  rv_failed : failed_rel env e e2;
  rv_covers : covers (statedb e2) sid (abs (statedb e));
  rv_newer : forall i s, covers (statedb e) i s -> i < sid;
}.

Lemma prepared_revertible e sid e2 : prepared e sid e2 -> revertible e sid e2.
Proof. intros []. split; try done. by apply rel_failed with locked. Qed.

Lemma prepared_failed e sid e1 e2 :
  prepared e sid e1 -> failed_rel env e1 e2 -> revertible e sid e2.
Proof. intros [] Hf. split; [by eapply failed_trans|by apply Hf|done]. Qed.

(** Reverting to the snapshot restores the state. *)
Lemma prepared_revert e sid e2 :
  evm_ok env locked e -> revertible e sid e2 ->
  exists d, RevertToSnapshot sid (statedb e2) = Some d /\ abs d = abs (statedb e) /\
    evm_ok env locked (set_db e2 d) /\ evm_rel env locked e (set_db e2 d).
Proof.
  intros [] [[] ? Hn].
  destruct (RevertToSnapshot_spec (statedb e2) sid (abs (statedb e))) as (d & ? & ? & Habs & Hc);
    [done..|].
  exists d. split_and!; [done..| |]; split; cbn; rewrite ?Habs; try done.
  - intros i s Hi. apply Hc; [by apply failed_covers|by apply (Hn i s)].
Qed.

Lemma finishRun_ok e sid e2 ret err gas gas0 :
  evm_ok env locked e -> revertible e sid e2 -> (err = None -> prepared e sid e2) ->
  0 <= gas <= gas0 -> len ret < 2 ^ 62 ->
  wp (finishRun sid ret err gas) (call_post env locked e gas0) (fun _ _ => False) e2.
Proof.
  intros He Hv Hp Hg Hl. unfold finishRun. destruct err as [x|].
  - apply wp_bind, wp_gets, wp_bind.
    destruct (prepared_revert e sid e2 He Hv) as (d & Hd & Habs & ? & ?).
    eapply wp_must; [exact Hd|]. apply wp_bind, wp_modify, wp_ret.
    cbn. split_and!; try done; case_bool_decide; lia.
  - apply wp_ret. destruct (Hp eq_refl). cbn. split_and!; try done; lia.
Qed.

(** Running the prepared callee and finishing the call. *)
Lemma run_finish N run e sid e1 c input :
  run_ok N run -> evm_ok env locked e -> prepared e sid e1 -> contract_ok env c ->
  len input < 2 ^ 62 -> Gas c + 2 <= N ->
  wp ('(ret, err, gas) ← run c input; finishRun sid ret err gas)
    (call_post env locked e (Gas c)) (fun _ _ => False) e1.
Proof.
  intros Hrun He Hp Hc Hi HN. apply wp_bind.
  eapply wp_mono; [apply Hrun; [apply Hp|done..]| |done].
  intros [[ret err] gas] e2 (? & Hok & ? & ?). apply finishRun_ok; try done.
  - by eapply prepared_failed.
  - intros Herr. destruct (Hok Herr). by eapply prepared_step.
Qed.

(** * Value transfer *)

Lemma CanTransfer_balance d a v :
  db_ok d -> CanTransfer d a v = true -> v <= a_balance (acct (abs d) a).
Proof.
  intros Hd. unfold CanTransfer. rewrite (GetBalance_spec (hash:=Keccak256Hash env)) by done. lia.
Qed.

Lemma evm_transfer e a b v :
  evm_ok env locked e -> 0 <= v <= a_balance (acct (abs (statedb e)) a) ->
  (readOnly e = true -> v = 0) ->
  evm_ok env locked (set_db e (Transfer (statedb e) a b v)) /\
  evm_rel env locked e (set_db e (Transfer (statedb e) a b v)).
Proof.
  intros He Hv Hr. destruct (He). unfold Transfer.
  change (AddBalance b v (SubBalance a v (statedb e)))
    with (apply_update (UAddBalance b v) (apply_update (USubBalance a v) (statedb e))).
  assert (db_ok (apply_update (USubBalance a v) (statedb e))) by by apply update_ok.
  destruct (total_update env locked Henv (USubBalance a v) (abs (statedb e))); [done..|].
  destruct (total_update env locked Henv (UAddBalance b v)
              (abs_update (USubBalance a v) (abs (statedb e)))); [done..|].
  apply evm_change; rewrite ?update_abs by done; try done.
  - by apply update_ok.
  - apply update_state_ok; [|done]. apply update_state_ok; [done|]. cbn. lia.
  - cbn [minted] in *. lia.
  - intros. by repeat apply update_covers.
  - intros _ Hro. rewrite (Hr Hro). etrans; apply static_on_account.
    + destruct (acct _ a). unfold with_balance. cbn. f_equal. lia.
    + by apply with_balance_id.
Qed.

Lemma evm_create_account e a :
  evm_ok env locked e ->
  accounts (abs (statedb e)) !! a = None \/ (exists c n, a = CreateAddress env c n) /\ readOnly e = false ->
  evm_ok env locked (set_db e (CreateAccount a (statedb e))) /\
  evm_rel env locked e (set_db e (CreateAccount a (statedb e))).
Proof.
  intros He Hr. apply (evm_update env locked Henv e (UCreateAccount a)); try done.
  - destruct Hr as [|[? _]]; [by left|by right].
  - intros Hro. apply static_on_account. unfold acct. destruct Hr as [->|[_ ?]]; [done|congruence].
Qed.

Lemma CreateAccount_balance s a b :
  a_balance (acct (abs_update (UCreateAccount a) s) b) = a_balance (acct s b).
Proof.
  cbn. destruct (decide (a = b)) as [->|].
  - by rewrite acct_on_account_eq.
  - by rewrite acct_on_account_ne.
Qed.

Lemma Call_safe N run : run_ok N run -> forall caller addr input gas v e,
  evm_ok env locked e -> len input < 2 ^ 62 -> 0 <= gas < 2 ^ 64 -> gas + 2 <= N -> word v ->
  (readOnly e = true -> v = 0) ->
  wp (evmCall env run caller addr input gas v) (call_post env locked e gas) (fun _ _ => False) e.
Proof.
  intros Hrun caller addr input gas v e He Hi Hg HN Hv Hr. unfold evmCall.
  assert (forall err, call_post env locked e gas ([], gas, err) e) as Hsame.
  { intros err. split_and!; (done || lia || reflexivity). }
  apply wp_bind, wp_gets. unfold id.
  destruct (_ && _); [by apply wp_ret|]. destruct (_ >? _); [by apply wp_ret|].
  destruct (CanTransfer _ _ _) eqn:Hcan; cbn [negb]; [|by apply wp_ret].
  apply CanTransfer_balance in Hcan; [|apply He].
  destruct (Snapshot (statedb e)) as [sid d] eqn:Hs.
  pose proof (snapshot_prepared e sid d He Hs) as Hp.
  destruct (Snapshot_spec _ _ _ (evm_db _ _ _ He) Hs) as (Hd & Habs & _).
  destruct (_ && _ && _).
  { apply wp_bind, wp_modify, wp_ret. destruct Hp. split_and!; (done || lia). }
  set (d1 := if Exist d addr then d else CreateAccount addr d).
  assert (prepared e sid (set_db e d1) /\
          v <= a_balance (acct (abs d1) (RefAddress caller))) as [Hp1 Hb1].
  { unfold d1. rewrite <- Habs in Hcan.
    rewrite (Exist_spec (hash:=Keccak256Hash env)) by done. case_bool_decide as Hex; [done|].
    destruct (evm_create_account (set_db e d) addr) as [? ?]; [apply Hp| |].
    { left. by apply eq_None_not_Some. }
    split; [by eapply prepared_step|].
    change (CreateAccount addr d) with (apply_update (UCreateAccount addr) d).
    by rewrite update_abs, CreateAccount_balance. }
  clearbody d1. set (d2 := if _ && _ then Transfer d1 _ _ _ else d1).
  assert (prepared e sid (set_db e d2)) as Hp2.
  { unfold d2. destruct (_ && _); [|done].
    destruct (evm_transfer (set_db e d1) (RefAddress caller) addr v) as [? ?];
      [apply Hp1|unfold word in Hv; split; [lia|done]|done|]. by eapply prepared_step. }
  clearbody d2. apply wp_bind, wp_modify.
  destruct (prep_ok _ _ _ Hp2). apply (run_finish N); try done.
  - by apply prepared_enter.
  - by apply callee_ok.
Qed.

Lemma call_post_same e gas err :
  evm_ok env locked e -> 0 <= gas -> call_post env locked e gas ([], gas, err) e.
Proof. intros. split_and!; (done || lia || reflexivity). Qed.

Lemma CallCode_safe N run : run_ok N run -> forall caller addr input gas v e,
  evm_ok env locked e -> len input < 2 ^ 62 -> 0 <= gas < 2 ^ 64 -> gas + 2 <= N -> word v ->
  wp (evmCallCode env run caller addr input gas v) (call_post env locked e gas) (fun _ _ => False) e.
Proof.
  intros Hrun caller addr input gas v e He Hi Hg HN Hv. unfold evmCallCode.
  apply wp_bind, wp_gets. unfold id.
  do 3 (case_match; [apply wp_ret, call_post_same; [done|lia]|]).
  destruct (Snapshot (statedb e)) as [sid d] eqn:Hs.
  pose proof (snapshot_prepared e sid d He Hs) as Hp. destruct (prep_ok _ _ _ Hp).
  apply wp_bind, wp_modify. apply (run_finish N); try done.
  - by apply prepared_enter.
  - by apply callee_ok.
Qed.

Lemma DelegateCall_safe N run : run_ok N run -> forall c addr input gas e,
  evm_ok env locked e -> len input < 2 ^ 62 -> 0 <= gas < 2 ^ 64 -> gas + 2 <= N ->
  word (value c) ->
  wp (evmDelegateCall env run (ContractOf c) addr input gas) (call_post env locked e gas)
    (fun _ _ => False) e.
Proof.
  intros Hrun c addr input gas e He Hi Hg HN Hv. unfold evmDelegateCall.
  apply wp_bind, wp_gets. unfold id.
  do 2 (case_match; [apply wp_ret, call_post_same; [done|lia]|]).
  destruct (Snapshot (statedb e)) as [sid d] eqn:Hs.
  pose proof (snapshot_prepared e sid d He Hs) as Hp. destruct (prep_ok _ _ _ Hp).
  apply wp_bind. eapply wp_must; [reflexivity|].
  apply wp_bind, wp_modify. apply (run_finish N); try done.
  by destruct (callee_ok (ContractOf c) (self c) (value c) gas d addr); [done..|split].
Qed.

Lemma set_readOnly_same (e : EVM db) b : readOnly e = b -> set_readOnly e b = e.
Proof. intros <-. by destruct e. Qed.

Lemma evm_ok_readOnly e b : evm_ok env locked e -> evm_ok env locked (set_readOnly e b).
Proof. intros []. by split. Qed.

(** A static call also changes nothing when it is made in writing mode. *)
Lemma StaticCall_static N run : run_ok N run -> forall caller addr input gas e,
  evm_ok env locked e -> len input < 2 ^ 62 -> 0 <= gas < 2 ^ 64 -> gas + 2 <= N ->
  wp (evmStaticCall env run caller addr input gas)
    (fun r e' => call_post env locked e gas r e' /\
       (quiet env -> static_eq (abs (statedb e)) (abs (statedb e'))))
    (fun _ _ => False) e.
Proof.
  intros Hrun caller addr input gas e He Hi Hg HN. unfold evmStaticCall.
  apply wp_bind, wp_gets. unfold id.
  do 2 (case_match; [apply wp_ret; split; [apply call_post_same; [done|lia]|done]|]).
  pose proof (evm_ok_readOnly e true He) as He'.
  destruct (Snapshot (statedb (set_readOnly e true))) as [sid d] eqn:Hs.
  pose proof (snapshot_prepared _ sid d He' Hs) as Hp. destruct (prep_ok _ _ _ Hp).
  apply wp_bind, wp_modify, wp_bind. eapply wp_mono; [apply Hrun; try done| |done].
  { by apply enter_ok. }
  { by apply callee_ok. }
  intros [[ret err] gas'] e2 (? & Hrel & ? & ?). apply wp_bind.
  eapply wp_mono; [apply (finishRun_ok (set_readOnly e true) sid e2 ret err gas' gas)|..]; try done.
  { eapply prepared_failed; [by apply prepared_enter|done]. }
  { intros Herr. destruct (Hrel Herr). eapply prepared_step; [by apply prepared_enter|done|done]. }
  intros [[ret' rg] err'] e3 (? & [] & ? & ? & ?). apply wp_bind.
  destruct (readOnly e) eqn:Hro.
  - do 2 apply wp_ret. split; [|intros; by apply rel_static].
    rewrite (set_readOnly_same e) in * by done.
    unfold call_post. split_and!; try done; try lia.
  - apply wp_modify, wp_ret. split; [|intros; by apply rel_static].
    unfold call_post. split_and!; try done; try lia.
    + by apply evm_ok_readOnly.
    + split; cbn in *; try done. congruence.
Qed.

Lemma StaticCall_safe N run : run_ok N run -> forall caller addr input gas e,
  evm_ok env locked e -> len input < 2 ^ 62 -> 0 <= gas < 2 ^ 64 -> gas + 2 <= N ->
  wp (evmStaticCall env run caller addr input gas) (call_post env locked e gas)
    (fun _ _ => False) e.
Proof.
  intros Hrun caller addr input gas e He Hi Hg HN.
  eapply wp_mono; [by apply (StaticCall_static N run)| |done]. by intros r e' [? _].
Qed.

Lemma SetCode_prepared e sid e2 a code :
  readOnly e = false -> prepared e sid e2 -> len code < 2 ^ 62 ->
  prepared e sid (set_db e2 (SetCode a code (statedb e2))).
Proof.
  intros Hr Hp Hl. destruct (evm_update env locked Henv e2 (USetCode a code)) as [? ?];
    [apply Hp|done|done|done| |by eapply prepared_step].
  intros Hro. rewrite (rel_readOnly _ _ _ _ (prep_rel _ _ _ Hp)) in Hro. congruence.
Qed.

(** The initial account of the contract: created, with nonce 1 and the value. *)
Lemma create_prepared e sid d caller a v :
  evm_ok env locked e -> readOnly e = false -> prepared e sid (set_db e d) -> abs d = abs (statedb e) ->
  0 <= v <= a_balance (acct (abs (statedb e)) caller) -> (exists c n, a = CreateAddress env c n) ->
  prepared e sid (set_db e (Transfer (SetNonce a 1 (CreateAccount a d)) caller a v)).
Proof.
  intros He Hr Hp Habs Hv Ha.
  destruct (evm_create_account (set_db e d) a) as [? ?]; [apply Hp|by right|].
  set (e1 := set_db (set_db e d) _) in *.
  destruct (evm_update env locked Henv e1 (USetNonce a 1)) as [? ?];
    [done|done|cbn; lia|done|cbn; congruence|].
  destruct (evm_transfer (set_db e1 (SetNonce a 1 (statedb e1))) caller a v) as [? ?]; try done.
  - cbn. change (SetNonce a 1 ?d) with (apply_update (USetNonce a 1) d).
    change (CreateAccount a ?d) with (apply_update (UCreateAccount a) d).
    assert (db_ok d) by apply Hp. rewrite update_abs by (by apply update_ok). rewrite update_abs by done.
    rewrite Habs. destruct (decide (a = caller)) as [->|].
    + cbn. by rewrite !acct_on_account_eq.
    + cbn. by rewrite !acct_on_account_ne.
  - cbn. congruence.
  - eapply prepared_step; [|done|done]. eapply prepared_step; [|done|done].
    by eapply prepared_step.
Qed.

Lemma revert_wp {A} e sid e2 (f : db -> A) (Q : A -> EVM db -> Prop) :
  evm_ok env locked e -> revertible e sid e2 ->
  (forall d, abs d = abs (statedb e) -> evm_ok env locked (set_db e2 d) ->
     evm_rel env locked e (set_db e2 d) -> Q (f d) (set_db e2 d)) ->
  wp (e ← gets id; d ← must (RevertToSnapshot sid (statedb e)); put (set_db e d);; mret (f d))
    Q (fun _ _ => False) e2.
Proof.
  intros He Hp HQ. destruct (prepared_revert e sid e2 He Hp) as (d & Hd & ? & ? & ?).
  apply wp_bind, wp_gets, wp_bind. eapply wp_must; [exact Hd|].
  apply wp_bind, wp_modify, wp_ret. by apply HQ.
Qed.

Lemma finishCreate_ok e sid e2 a ret err gas gas0 :
  evm_ok env locked e -> readOnly e = false -> revertible e sid e2 -> (err = None -> prepared e sid e2) ->
  0 <= gas <= gas0 -> gas0 < 2 ^ 64 -> len ret < 2 ^ 62 ->
  wp (finishCreate sid a ret err gas)
    (fun '(ret, a', gas', err) e' => evm_ok env locked e' /\ evm_rel env locked e e' /\
       0 <= gas' <= gas0 /\ len ret < 2 ^ 62 /\
       (err <> None -> abs (statedb e') = abs (statedb e)))
    (fun _ _ => False) e2.
Proof.
  intros He Hr Hrv Hp Hg Hg0 Hl. unfold finishCreate.
  set (cost := u64 (u64 (len ret) * CreateDataGas)).
  assert (0 <= cost) by apply u64_range.
  destruct (bool_decide (err = None) && negb (len ret >? MaxCodeSize)) eqn:Hok.
  - apply andb_true_iff in Hok as [Hnone Hsize]. apply bool_decide_eq_true in Hnone. apply negb_true_iff in Hsize. rewrite Hsize.
    destruct (gas <? cost) eqn:Hpay; cbn [orb andb].
    + apply wp_bind, wp_ret, wp_bind. cbn [bool_decide negb].
      apply (revert_wp e); [done..|]. intros d Habs ? ?. apply wp_ret.
      split_and!; try done; case_bool_decide; lia.
    + apply wp_bind, wp_modify, wp_bind, wp_ret, wp_ret. rewrite u64_small by lia.
      pose proof (SetCode_prepared e sid e2 a ret Hr (Hp Hnone) Hl) as [].
      split_and!; try done; lia.
  - apply wp_bind, wp_ret, wp_bind. case_match eqn:Hrev.
    + apply (revert_wp e); [done..|]. intros d Habs ? ?. apply wp_ret.
      split_and!; try done; destruct (bool_decide (err = Some _)); lia.
    + apply wp_ret, wp_ret. apply orb_false_iff in Hrev as [Hsz Herr].
      rewrite Hsz. apply negb_false_iff, bool_decide_eq_true in Herr as ->. destruct (Hp eq_refl).
      split_and!; try done; lia.
Qed.

Lemma Create_safe N run : run_ok N run -> forall caller code gas v e,
  evm_ok env locked e -> len code < 2 ^ 62 -> 0 <= gas < 2 ^ 64 -> gas + 2 <= N -> word v ->
  readOnly e = false ->
  wp (evmCreate env run caller code gas v) (create_post env locked e (RefAddress caller) gas)
    (fun _ _ => False) e.
Proof.
  intros Hrun caller code gas v e He Hc Hg HN Hv Hr. unfold evmCreate.
  apply wp_bind, wp_gets. unfold id.
  case_match; [apply wp_ret; split_and!; (done || lia || auto || reflexivity)|].
  destruct (CanTransfer _ _ _) eqn:Hcan; cbn [negb];
    [|apply wp_ret; split_and!; (done || lia || auto || reflexivity)].
  apply CanTransfer_balance in Hcan; [|apply He].
  rewrite (GetNonce_spec (hash:=Keccak256Hash env)) by apply He.
  set (u := USetNonce (RefAddress caller) (u64 (a_nonce (acct (abs (statedb e)) (RefAddress caller)) + 1))).
  change (SetNonce _ _ (statedb e)) with (apply_update u (statedb e)).
  destruct (evm_update env locked Henv e u) as [He0 Hrel0];
    [done|done|apply u64_range|done|congruence|].
  assert (abs (apply_update u (statedb e)) = abs_update u (abs (statedb e))) as Habs0
    by (apply update_abs, He).
  set (d0 := apply_update u (statedb e)) in *. clearbody d0.
  destruct (Empty _ _); cbn [negb].
  2: { apply wp_bind, wp_modify, wp_ret. split_and!; (done || lia || auto). }
  destruct (Snapshot d0) as [sid d] eqn:Hs.
  pose proof (snapshot_prepared (set_db e d0) sid d He0 Hs) as Hp.
  destruct (Snapshot_spec _ _ _ (evm_db _ _ _ He0) Hs) as (_ & Habs & _).
  set (a := CreateAddress _ _ _).
  apply (create_prepared (set_db e d0) sid d (RefAddress caller) a v) in Hp; try done.
  2: { unfold word in Hv. split; [lia|]. cbn. rewrite Habs0. cbn. by rewrite acct_on_account_eq. }
  2: by eexists _, _.
  apply (prepared_enter _ _ _ caller) in Hp. cbn [set_db statedb] in Hp.
  apply wp_bind, wp_modify. case_match.
  { apply wp_ret. destruct Hp. split_and!; try done; first [by etrans|lia]. }
  apply wp_bind. eapply wp_mono; [apply Hrun; [apply Hp|by split; try right|done|done]| |done].
  intros [[ret err] gas'] e2 (? & Hok & ? & ?).
  eapply wp_mono; [apply (finishCreate_ok (set_db e d0) sid e2 a ret err gas' gas)|..]; try done; try lia.
  { by eapply prepared_failed. }
  { intros Herr. destruct (Hok Herr). by eapply prepared_step. }
  intros [[[ret' a'] rg] err'] e3 (? & ? & ? & ? & Herr). split_and!; try done; try lia; [by etrans|].
  intros Hne. right. by rewrite Herr.
Qed.

Lemma calls_of_ok N run : run_ok N run -> calls_ok env locked N (calls_of env run).
Proof.
  intros Hrun. split; cbn.
  - by apply Call_safe.
  - by apply CallCode_safe.
  - by apply DelegateCall_safe.
  - by apply StaticCall_safe.
  - by apply Create_safe.
Qed.

(** * The interpreter *)

Definition loop_ok (N : Z) (loop : M db (list byte * option vmerror)) : Prop :=
  forall s, frame_ok env locked s -> Gas (contract s) + 1 <= N ->
    wp loop (fun '(ret, err) s' => step_post s s' /\ len ret < 2 ^ 62)
      (fun _ s' => step_post s s') s.

Definition running (e : EVM db) : EVM db := set_returnData (set_depth e (depth e + 1)) [].
Definition leave (e : EVM db) : EVM db := set_depth e (depth e - 1).

Lemma running_ok e : evm_ok env locked e -> evm_ok env locked (running e).
Proof. intros []. by split. Qed.

Lemma leave_ok e e' :
  evm_ok env locked e' -> evm_rel env locked (running e) e' ->
  evm_ok env locked (leave e') /\ evm_rel env locked e (leave e').
Proof. intros [] [Hd]. split; split; cbn in *; try done. lia. Qed.

Lemma NewMemory_len : Memory.Len Memory.NewMemory = 0.
Proof. done. Qed.

Lemma InterpreterRun_ok N loop c input e :
  loop_ok N loop -> evm_ok env locked e -> contract_ok env c -> len input < 2 ^ 62 ->
  Gas c + 1 <= N -> wp (InterpreterRun loop c input) (run_post c e) (fun _ _ => False) e.
Proof.
  intros Hloop He Hc Hi HN. pose proof (running_ok e He) as He1.
  pose proof (gas_range _ _ Hc). unfold wp, InterpreterRun. fold (running e).
  destruct (Z.eqb_spec (len (Code c)) 0) as [Hz|Hz].
  { destruct (leave_ok e (running e)) as [? ?]; [done|done|]. apply run_post_ok; (done || lia). }
  set (s := mkFrame _ _ _ _ _).
  assert (frame_ok env locked s) as Hf.
  { destruct Hc. split; cbn; try done; rewrite ?NewMemory_len; unfold maxMemory; lia. }
  specialize (Hloop s Hf HN). unfold wp in Hloop.
  destruct (loop s) as [[ret err] s'|err s'| |]; try done.
  - destruct Hloop as [[Hs' Hg Hr] ?]. destruct (Hs').
    destruct (leave_ok e (evm s')) as [? ?]; [done|done|].
    pose proof (gas_range _ _ frame_contract). cbn in Hg. apply run_post_ok; (done || lia).
  - destruct Hloop as [Hs' Hg Hr]. destruct (Hs').
    destruct (leave_ok e (evm s')) as [? ?]; [done|done|].
    pose proof (gas_range _ _ frame_contract). cbn in Hg. apply run_post_ok; (done || lia).
Qed.

Lemma RunPrecompiledContract_ok p a c input e :
  precompiles env a = Some p -> evm_ok env locked e -> contract_ok env c -> len input < 2 ^ 62 ->
  wp (RunPrecompiledContract env p input c) (run_post c e) (fun _ _ => False) e.
Proof.
  intros Hp He Hc Hin. pose proof (gas_range _ _ Hc). unfold wp, RunPrecompiledContract, UseGas.
  destruct (He). destruct (precompiles_ok _ _ Henv a p Hp input c (statedb e)) as [Hg _]; try done.
  { apply Hc. }
  destruct (Z.ltb_spec (Gas c) (RequiredGas p input)).
  { apply run_post_ok; (done || lia). }
  destruct (precompiles_ok _ _ Henv a p Hp input (SetGas c (u64 (Gas c - RequiredGas p input)))
              (statedb e)) as (_ & ret & err & d & Hrun & ? & ? & ? & Hok); try done.
  { apply Hc. }
  rewrite Hrun. cbn. rewrite u64_small by lia. split_and!; try lia; try done.
  intros Herr. destruct (Hok Herr) as (? & ? & ?). apply evm_change; try done.
  intros Hq _. by eapply (Hq a p).
Qed.

(** Reading the abort flag. *)
Lemma read_abort_ok s :
  frame_ok env locked s ->
  step_post s (mkFrame (pc s) (stack s) (memory s) (contract s) (read_abort (evm s))).
Proof. intros [? ? ? ? [] ?]. by split; [split| |split]. Qed.

(** With fuel above the gas, [run] and the loop return. *)
Lemma run_loop_ok n : run_ok (Z.of_nat n) (run env n) /\ loop_ok (Z.of_nat n) (loop env n).
Proof.
  induction n as [|n [IHrun IHloop]].
  { split.
    - intros c input e _ Hc _ HN. pose proof (gas_range _ _ Hc). lia.
    - intros s Hf HN. pose proof (gas_range _ _ (frame_contract _ _ _ Hf)). lia. }
  split.
  - intros c input e He Hc Hi HN. rewrite run_S.
    destruct (CodeAddr c ≫= precompiles env) as [p|] eqn:Hp.
    + apply bind_Some in Hp as (a & _ & Hp). by apply (RunPrecompiledContract_ok p a).
    + apply (InterpreterRun_ok (Z.of_nat n)); (done || lia).
  - intros s Hf HN. rewrite loop_S. apply wp_bind, wp_gets, wp_bind, wp_modify.
    pose proof (read_abort_ok s Hf) as Hread. set (s0 := mkFrame _ _ _ _ _) in *.
    destruct (abort env _); [by apply wp_ret|].
    change (Gas (contract s)) with (Gas (contract s0)) in HN. pose proof (sp_frame _ _ Hread).
    apply wp_bind. eapply wp_mono; [apply (step_ok (Z.of_nat n)); [by apply calls_of_ok|done|lia]|..].
    2: { intros err s' ?. by eapply step_post_trans. }
    intros [[ret err]|] s' [Hp Hr]; [apply wp_ret; split; [by eapply step_post_trans|done]|].
    pose proof (step_post_trans _ _ _ Hread Hp) as Hp'.
    eapply wp_mono; [apply IHloop; [apply Hp|lia]|..].
    + intros [ret err] s'' [? ?]. split; [by eapply step_post_trans|done].
    + intros err s'' ?. by eapply step_post_trans.
Qed.
End Safety.
