(* ===== verification/TransitionSafety.v ===== *)
(** The effect of a transaction on the abstract state, and the proof that the
    state transition of core/state_transition.go never panics, accounts for all
    gas it buys and creates no money. *)

From S2P Require Import Prelude BigMath Encoding Abi VmData VmState StateSpec Ota Privacy Instructions Evm.
From S2P Require Import Rlp RlpSpec RlpDecode RlpCodec Staking StakingCodec StakingSpec.
From S2P Require Import AbiSafety TxTypes Transition EvmInv PrivacySpec PrivacySafety EvmStep EvmSafety.
Import Big GoMath Common Addr Ota Privacy Secp Transition Incentive.

(** * Abstract effects *)

Definition absent (s : astate) (a : Address) : bool := bool_decide (accounts s !! a = None).

(** An account created when it does not exist. *)
Definition ensure (a : Address) (s : astate) : astate :=
  if absent s a then abs_update (UCreateAccount a) s else s.

(** AddEpochGas. *)
Definition collect (key : Hash) (fee : Z) (s : astate) : astate :=
  abs_update (USetStateByteArray IncentivePrecompileAddr key (Bytes (pool key s + fee))) s.

Lemma create_absent s a : accounts s !! a = None -> forall b, acct (abs_update (UCreateAccount a) s) b = acct s b.
Proof.
  intros Ha b. cbn [abs_update]. destruct (decide (a = b)) as [<-|].
  - rewrite acct_on_account_eq. unfold acct. by rewrite Ha.
  - by rewrite acct_on_account_ne.
Qed.

Lemma ensure_acct a s b : acct (ensure a s) b = acct s b.
Proof. unfold ensure, absent. case_bool_decide; [by apply create_absent|done]. Qed.

Lemma ensure_state_ok a s : state_ok s -> state_ok (ensure a s).
Proof. intros. unfold ensure. destruct (absent s a); [by apply update_state_ok|done]. Qed.

Lemma ensure_supply a s : supply (ensure a s) = supply s.
Proof. unfold ensure. destruct (absent s a); [|done]. rewrite update_supply. cbn [minted]. lia. Qed.

Section Ledger.
Context (hash : list byte -> Hash) (image_of : list byte -> PublicKey) (spent0 : gmap Hash (list byte)) (key : Hash).
Abbreviation inv := (native_inv hash image_of spent0).
Abbreviation wledger := (wan_ledger hash image_of spent0 key).
Abbreviation money := (total wledger).

Lemma keep_update u s :
  keeps_bytes u -> inv s -> inv (abs_update u s) /\ money (abs_update u s) = money s + minted u s.
Proof.
  intros Hu Hi. destruct (native_inv_same hash image_of spent0 key s (abs_update u s)) as [? Hl]; [|done|].
  - intros. by apply bytes_of_keep.
  - split; [done|]. unfold total. rewrite Hl, update_supply. lia.
Qed.

Lemma keep_ensure a s : inv s -> inv (ensure a s) /\ money (ensure a s) = money s.
Proof.
  intros Hi. destruct (native_inv_same hash image_of spent0 key s (ensure a s)) as [? Hl]; [|done|].
  - intros. unfold bytes_of. by rewrite ensure_acct.
  - split; [done|]. unfold total. by rewrite Hl, ensure_supply.
Qed.

Lemma keep_refund r s : inv s -> inv (with_refund r s) /\ money (with_refund r s) = money s.
Proof.
  intros Hi. destruct (native_inv_same hash image_of spent0 key s (with_refund r s)) as [? Hl]; [done|done|].
  split; [done|]. unfold total. by rewrite Hl.
Qed.

Lemma collect_bytes fee s a :
  bytes_of (collect key fee s) a =
  if decide (IncentivePrecompileAddr = a) then
    if len (Bytes (pool key s + fee)) =? 0 then delete key (bytes_of s a)
    else <[key := Bytes (pool key s + fee)]> (bytes_of s a)
  else bytes_of s a.
Proof.
  unfold collect, bytes_of. cbn [abs_update]. case_decide as Ha; [subst a|by rewrite acct_on_account_ne].
  by rewrite acct_on_account_eq.
Qed.

Lemma keep_collect fee s : 0 <= fee -> inv s -> inv (collect key fee s) /\ money (collect key fee s) = money s + fee.
Proof.
  intros Hf Hi. destruct storage_addr_ne as (? & ? & ?).
  assert (forall v, v ∈ values -> OTABalance2ContractAddr v <> IncentivePrecompileAddr) as Hva.
  { intros v Hv. by apply values_addr. }
  assert (forall a, a <> IncentivePrecompileAddr -> bytes_of (collect key fee s) a = bytes_of s a) as Hne.
  { intros a Ha. rewrite collect_bytes. by rewrite decide_False. }
  assert (0 <= pool key s) as Hp by apply be_val_bound.
  assert (pool key (collect key fee s) = pool key s + fee) as Hpool.
  { unfold pool at 1. rewrite collect_bytes, decide_True by done. pose proof (SetBytes_Bytes (pool key s + fee)) as HB.
    unfold SetBytes in HB. destruct (Z.eqb_spec (len (Bytes (pool key s + fee))) 0) as [Hz|].
    - rewrite lookup_delete_eq. apply len_nil_iff in Hz. rewrite Hz in HB. cbn [default from_option id] in *. lia.
    - rewrite lookup_insert_eq. cbn [default from_option id]. lia. }
  assert (forall k v w, account_at s k v w -> account_at (collect key fee s) k v w) as Hat.
  { intros k v w (Hv & Hw & ? & ?). split_and!; try done. rewrite Hne; auto. }
  destruct Hi as [Ha Hi Hs Hst]. split; [split|].
  - rewrite Hne by done. intros k b Hb. destruct (Ha k b Hb) as [w ?]. eauto.
  - rewrite (Hne otaImageStorageAddr) by done. intros h b Hb.
    destruct (Hi h b Hb) as (k & b' & w & c & ? & ? & ? & ? & ?). exists k, b', w, c. rewrite Hne by done.
    split_and!; auto.
  - by rewrite Hne.
  - destruct staking_storage_ne as (_ & _ & _ & _ & ? & ?). apply (staking_inv_same s); [by apply Hne..|done].
  - unfold total. cbn [kept wan_ledger]. rewrite Hpool. unfold unspent. rewrite !Hne by done.
    unfold collect. rewrite update_supply. cbn [minted]. lia.
Qed.

Lemma collect_acct fee s a : a <> IncentivePrecompileAddr -> acct (collect key fee s) a = acct s a.
Proof. intros. unfold collect. cbn [abs_update]. by rewrite acct_on_account_ne. Qed.
End Ledger.

(** * The transition *)
Section Transition.
Context {db : Type} `{!StateDB db} (env : Env db) `{!StateDBSpec db (Keccak256Hash env)}.
Context (image_of : list byte -> PublicKey) (spent0 : gmap Hash (list byte)).
Context (VerifyRingSign : list byte -> list PublicKey -> PublicKey -> list Z -> list Z -> bool).
Context (IsPosActive : bool) (fuel : nat) (msg : Message).

(** Where the fees of the block are collected. *)
Definition fee_key : Hash :=
  getGasHashKey (Keccak256Hash env) (fst (GetEpochSlotIDFromDifficulty (Difficulty (ctx env)))).
Abbreviation hash := (Keccak256Hash env).
Abbreviation inv := (native_inv hash image_of spent0).
Abbreviation wledger := (wan_ledger hash image_of spent0 fee_key).
Abbreviation money := (total wledger).
Context (Hlink : linkable image_of VerifyRingSign) (Henv : env_ok env wledger).
Abbreviation price := (msg_GasPrice msg).
Abbreviation sender := (From msg).

(** Between the steps of a transaction: the machine, with a database that means
    [s] and whose older snapshots are those of [d0]. *)
Record stage (d0 : db) (e : EVM db) (s : astate) : Prop := {
  sg_db : db_ok (statedb e);
  sg_covers : forall i t, covers d0 i t -> covers (statedb e) i t;
  sg_abs : abs (statedb e) = s;
  sg_data : len (returnData e) < 2 ^ 62;
  sg_cache : cache_length env (jumpdests e);
  sg_writing : readOnly e = false;
}.

(** A state that is well formed, balanced and of a bounded amount of money. *)
Record sound (s : astate) : Prop := {
  snd_state : state_ok s;
  snd_inv : inv s;
  snd_money : money s < 2 ^ 256;
}.

Lemma stage_evm d0 e s : stage d0 e s -> sound s -> evm_ok env wledger e.
Proof. intros [] []. subst s. by split. Qed.

Lemma evm_stage e : evm_ok env wledger e -> readOnly e = false -> stage (statedb e) e (abs (statedb e)).
Proof. intros [] ?. by split. Qed.

Lemma evm_sound e : evm_ok env wledger e -> sound (abs (statedb e)).
Proof. intros []. by split. Qed.

Lemma stage_change d0 e s d s' :
  stage d0 e s -> db_ok d -> abs d = s' -> (forall i t, covers (statedb e) i t -> covers d i t) ->
  stage d0 (set_db e d) s'.
Proof. intros [] ? ? ?. split; auto. Qed.

Lemma stage_update d0 e s u : stage d0 e s -> stage d0 (set_db e (apply_update u (statedb e))) (abs_update u s).
Proof.
  intros He. pose proof (sg_db _ _ _ He) as Hd. eapply stage_change; [exact He|by apply update_ok|..].
  - rewrite update_abs by done. by rewrite (sg_abs _ _ _ He).
  - intros. by apply update_covers.
Qed.

Lemma stage_ensure d0 e s a :
  stage d0 e s ->
  stage d0 (set_db e (if Exist (statedb e) a then statedb e else CreateAccount a (statedb e))) (ensure a s).
Proof.
  intros He. pose proof (sg_db _ _ _ He) as Hd. rewrite (Exist_spec (hash:=hash)), (sg_abs _ _ _ He) by done.
  unfold ensure, absent. case_bool_decide as Hx.
  - rewrite bool_decide_false by by destruct Hx as [? ->]. eapply stage_change; [exact He|done|apply He|done].
  - rewrite bool_decide_true by by apply eq_None_not_Some. exact (stage_update _ _ _ (UCreateAccount a) He).
Qed.

(** ** Soundness of the effects *)

Lemma sound_update u s :
  sound s -> keeps_bytes u -> update_pre u s -> money s + minted u s < 2 ^ 256 -> sound (abs_update u s).
Proof.
  intros [] Hu Hp Hm. destruct (keep_update hash image_of spent0 fee_key u s); [done..|].
  split; [by apply update_state_ok|done|lia].
Qed.

Lemma sound_ensure a s : sound s -> sound (ensure a s).
Proof.
  intros []. destruct (keep_ensure hash image_of spent0 fee_key a s); [done|].
  split; [by apply ensure_state_ok|done|lia].
Qed.

(** ** Rules for the steps *)
Abbreviation T := (ST (StateTransition db) txerror).
Abbreviation tr p g i b e := (@mkTransition db p g i b e).
Implicit Types (F : txerror -> StateTransition db -> Prop).

(** What a transaction that is refused leaves: everything can be undone. *)
Definition tx_undoable (d0 : db) (st : StateTransition db) : Prop :=
  db_ok (state st) /\ forall i t, covers d0 i t -> covers (state st) i t.

Lemma stage_undoable d0 p g i b e s : stage d0 e s -> tx_undoable d0 (tr p g i b e).
Proof. by intros []. Qed.

Lemma from_wp d0 p g i b e s (Q : ContractRef -> StateTransition db -> Prop) F :
  stage d0 e s -> (forall e', stage d0 e' (ensure sender s) -> Q (AccountRef sender) (tr p g i b e')) ->
  wp (from msg) Q F (tr p g i b e).
Proof. intros He HQ. apply wp_bind, wp_modify, wp_ret, HQ. by apply stage_ensure. Qed.

Lemma update_wp d0 p g i b e s u (Q : unit -> StateTransition db -> Prop) F :
  stage d0 e s -> (forall e', stage d0 e' (abs_update u s) -> Q tt (tr p g i b e')) ->
  wp (on_state (apply_update u)) Q F (tr p g i b e).
Proof. intros He HQ. apply wp_modify, HQ. by apply stage_update. Qed.
Lemma ensure_idem a s : ensure a (ensure a s) = ensure a s.
Proof.
  unfold ensure at 1. destruct (absent (ensure a s) a) eqn:E; [|done]. unfold absent in E.
  rewrite bool_decide_eq_true in E. unfold ensure, absent in E. case_bool_decide; [|done].
  cbn [abs_update on_account set_accounts accounts] in E. by rewrite lookup_insert_eq in E.
Qed.

Lemma subPool_wp amount p g i b e (Q : unit -> StateTransition db -> Prop) F :
  (amount <= p -> Q tt (tr (p - amount) g i b e)) -> F ErrGasLimitReached (tr p g i b e) ->
  wp (subPool amount) Q F (tr p g i b e).
Proof.
  intros HQ HF. unfold subPool, SubGas. apply wp_bind, wp_gets. cbn [gp].
  destruct (Z.ltb_spec p amount); [by apply wp_throw|by apply wp_modify, HQ].
Qed.

Lemma buyGas_wp d0 p b e s (Q : unit -> StateTransition db -> Prop) :
  stage d0 e s -> 0 <= msg_Gas msg ->
  (forall e', msg_Gas msg < 2 ^ 64 -> msg_Gas msg * price <= a_balance (acct s sender) -> msg_Gas msg <= p ->
     stage d0 e' (abs_update (USubBalance sender (msg_Gas msg * price)) (ensure sender s)) ->
     Q tt (tr (p - msg_Gas msg) (msg_Gas msg) (msg_Gas msg) b e')) ->
  wp (buyGas msg) Q (fun _ => tx_undoable d0) (tr p 0 0 b e).
Proof.
  intros He Hg HQ. unfold buyGas.
  destruct (Z.gtb_spec (BitLen (msg_Gas msg)) 64) as [|Hb]; [by eapply wp_throw, stage_undoable|].
  apply BitLen_le in Hb; [|lia]. rewrite Z.abs_eq in Hb by done.
  apply wp_bind. eapply from_wp; [exact He|]. intros e1 He1. pose proof (stage_undoable _ p 0 0 b _ _ He1) as Hundo.
  apply wp_bind, wp_gets. unfold state. cbn [st_evm RefAddress].
  rewrite (GetBalance_spec (hash:=hash)), (sg_abs _ _ _ He1), ensure_acct by apply He1.
  destruct (Z.ltb_spec (a_balance (acct s sender)) (msg_Gas msg * gasPrice msg)); [by apply wp_throw|].
  apply wp_bind, subPool_wp; [|done]. intros Hp.
  apply wp_bind, wp_gets, wp_bind, wp_modify. cbn [gp gas initialGas data st_evm].
  apply wp_bind, wp_modify. cbn [gp gas initialGas data st_evm].
  eapply (update_wp _ _ _ _ _ _ _ (USubBalance sender (msg_Gas msg * price))); [exact He1|].
  intros e2 He2. unfold Uint64. rewrite Z.abs_eq, Z.add_0_l, !u64_small by (rewrite ?u64_small; lia).
  by apply HQ.
Qed.

Lemma preCheck_wp d0 p b e s (Q : unit -> StateTransition db -> Prop) :
  stage d0 e s -> 0 <= msg_Gas msg ->
  (forall e', msg_Gas msg < 2 ^ 64 -> msg_Gas msg * price <= a_balance (acct s sender) -> msg_Gas msg <= p ->
     stage d0 e' (abs_update (USubBalance sender (msg_Gas msg * price)) (ensure sender s)) ->
     Q tt (tr (p - msg_Gas msg) (msg_Gas msg) (msg_Gas msg) b e')) ->
  wp (preCheck msg) Q (fun _ => tx_undoable d0) (tr p 0 0 b e).
Proof.
  intros He Hg HQ. unfold preCheck. apply wp_bind. eapply from_wp; [exact He|]. intros e1 He1.
  pose proof (stage_undoable _ p 0 0 b _ _ He1) as Hundo. apply wp_bind, wp_gets.
  case_match; [by apply wp_throw|]. case_match; [by apply wp_throw|].
  eapply buyGas_wp; [exact He1|done|]. intros e2 ? Hb ? He2. rewrite ensure_acct in Hb.
  rewrite ensure_idem in He2. by apply HQ.
Qed.

(** ** Execution *)

(** The state in which the recipient is called. *)
Definition called (a : Address) (s : astate) : astate :=
  ensure a (abs_update (USetNonce sender (u64 (a_nonce (acct s sender) + 1))) s).

Lemma called_sound a s : sound s -> sound (called a s) /\ money (called a s) = money s.
Proof.
  intros Hs. set (u := USetNonce sender (u64 (a_nonce (acct s sender) + 1))).
  destruct (keep_update hash image_of spent0 fee_key u s) as [? Hm]; [done|apply Hs|]. cbn [minted u] in Hm.
  assert (sound (abs_update u s)) as Hu.
  { apply sound_update; try done; [apply u64_range|]. cbn [minted u]. pose proof (snd_money _ Hs). lia. }
  split; [by apply sound_ensure|]. unfold called. fold u.
  destruct (keep_ensure hash image_of spent0 fee_key a (abs_update u s)) as [_ ->]; [done|]. lia.
Qed.

(** A value that is not a word is more than any balance. *)
Lemma CanTransfer_big e a v : evm_ok env wledger e -> 2 ^ 256 <= v -> CanTransfer (statedb e) a v = false.
Proof.
  intros He Hv. unfold CanTransfer. rewrite (GetBalance_spec (hash:=hash)) by apply He.
  pose proof (acct_balance _ a (evm_state _ _ _ He)). pose proof (evm_total _ _ _ He) as Ht. unfold total in Ht.
  pose proof (locked_nonneg _ _ Henv _ (evm_kept _ _ _ He)). rewrite Z.geb_leb. apply Z.leb_gt. lia.
Qed.

Lemma call_ok caller a input g v e :
  evm_ok env wledger e -> readOnly e = false -> len input < 2 ^ 62 -> 0 <= g < 2 ^ 64 -> g + 2 <= Z.of_nat fuel ->
  0 <= v -> wp (evmCall env (run env fuel) caller a input g v) (call_post env wledger e g) (fun _ _ => False) e.
Proof.
  intros He Hr Hi Hg HN Hv. pose proof (proj1 (run_loop_ok env wledger Henv fuel)) as Hrun.
  destruct (Z.lt_ge_cases v (2 ^ 256)) as [Hlt|Hge].
  - eapply (Call_safe env wledger Henv); try done. congruence.
  - unfold evmCall. apply wp_bind, wp_gets. unfold id. rewrite CanTransfer_big by done. cbn [negb].
    repeat (case_match; [apply wp_ret, call_post_same; [done|lia]|]). apply wp_ret, call_post_same; [done|lia].
Qed.

Lemma create_tx_ok caller input g v e :
  evm_ok env wledger e -> readOnly e = false -> len input < 2 ^ 62 -> 0 <= g < 2 ^ 64 -> g + 2 <= Z.of_nat fuel ->
  0 <= v -> wp (evmCreate env (run env fuel) caller input g v)
    (create_post env wledger e (RefAddress caller) g) (fun _ _ => False) e.
Proof.
  intros He Hr Hi Hg HN Hv. pose proof (proj1 (run_loop_ok env wledger Henv fuel)) as Hrun.
  destruct (Z.lt_ge_cases v (2 ^ 256)) as [Hlt|Hge].
  - by eapply (Create_safe env wledger Henv).
  - unfold evmCreate. apply wp_bind, wp_gets. unfold id. rewrite CanTransfer_big by done. cbn [negb].
    case_match; apply wp_ret; split_and!; (done || lia || auto || reflexivity).
Qed.

Lemma in_evm_wp {A} (m : ME db A) p g i b e (Q : A -> StateTransition db -> Prop) F :
  wp m (fun a e' => Q a (tr p g i b e')) (fun _ _ => False) e -> wp (in_evm m) Q F (tr p g i b e).
Proof. unfold wp, in_evm. cbn [st_evm]. by destruct (m e) as [| [] | |]. Qed.

Lemma stage_step d0 e s e' :
  stage d0 e s -> evm_ok env wledger e' -> evm_rel env wledger e e' -> stage d0 e' (abs (statedb e')).
Proof. intros [] [] []. split; try done; [auto|congruence]. Qed.

Lemma execute_wp d0 p g i b e s (Q : list byte * option vmerror -> StateTransition db -> Prop) F :
  stage d0 e s -> sound s -> 0 <= g < 2 ^ 64 -> g + 2 <= Z.of_nat fuel -> len b < 2 ^ 62 -> 0 <= msg_Value msg ->
  (forall ret err g' e' s', 0 <= g' <= g -> stage d0 e' s' -> sound s' -> money s' <= money s ->
     (forall a, err <> None -> To msg = Some a -> s' = called a s) -> Q (ret, err) (tr p g' i b e')) ->
  wp (execute env (run env fuel) msg (AccountRef sender)) Q F (tr p g i b e).
Proof.
  intros He Hs Hg HN Hb Hv HQ. pose proof (stage_evm _ _ _ He Hs) as Hok.
  unfold execute. apply wp_bind, wp_gets. cbn [data]. destruct (To msg) as [a|] eqn:Hto.
  - apply wp_bind, wp_modify, wp_bind. unfold to. rewrite Hto. apply wp_bind, wp_modify, wp_ret.
    unfold set_state, state. cbn [st_evm gp gas initialGas data]. set (e1 := set_db _ _).
    assert (stage d0 e1 (called a s)) as He1.
    { unfold e1, called. apply stage_ensure. rewrite (GetNonce_spec (hash:=hash)), (sg_abs _ _ _ He) by apply He.
      apply (stage_update _ _ _ (USetNonce sender _) He). }
    clearbody e1. destruct (called_sound a s Hs) as [Hs1 Hm1]. pose proof (stage_evm _ _ _ He1 Hs1) as Hok1.
    apply wp_bind, wp_gets, wp_bind, in_evm_wp. cbn [gas RefAddress].
    eapply wp_mono; [apply call_ok; try done; apply He1| |done].
    intros [[ret g'] err] e2 (Hok2 & Hrel & Hg' & _ & Herr). apply wp_bind, wp_modify, wp_ret.
    apply (HQ _ _ _ _ (abs (statedb e2))); [done|by eapply stage_step|by apply evm_sound|..].
    + rewrite <- Hm1, <- (sg_abs _ _ _ He1). apply Hrel.
    + intros a' Hne [= <-]. rewrite Herr by done. apply He1.
  - apply wp_bind, wp_gets, wp_bind, in_evm_wp. cbn [gas].
    eapply wp_mono; [apply create_tx_ok; try done; apply He| |done].
    intros [[[ret addr] g'] err] e2 (Hok2 & Hrel & Hg' & _). apply wp_bind, wp_modify, wp_ret.
    apply (HQ _ _ _ _ (abs (statedb e2))); [done|by eapply stage_step|by apply evm_sound|..|done].
    rewrite <- (sg_abs _ _ _ He). apply Hrel.
Qed.
(** ** Refund and fee *)
Abbreviation counter := StateSpec.refund.

(** The gas given back for cleared storage. *)
Definition refunded_gas (i g : Z) (s : astate) : Z := BigMin ((i - g) / 2) (counter s).

Definition after_refund (i g : Z) (s : astate) : astate :=
  let s1 := abs_update (UAddBalance sender (g * price)) (ensure sender s) in
  abs_update (UAddBalance sender (refunded_gas i g s * price))
    (if (i - g) / 2 >? counter s then with_refund (counter s * price) s1 else s1).

Lemma ensure_refund a s : counter (ensure a s) = counter s.
Proof. unfold ensure. by destruct (absent s a). Qed.

Lemma refunded_gas_bound i g s : 0 <= counter s -> g <= i -> 0 <= refunded_gas i g s <= (i - g) / 2.
Proof.
  intros Hr Hg. unfold refunded_gas, BigMin. pose proof (Z.div_pos (i - g) 2 ltac:(lia) ltac:(lia)).
  destruct (Z.gtb_spec ((i - g) / 2) (counter s)); lia.
Qed.

Lemma after_refund_sound i g s :
  sound s -> 0 <= price -> 0 <= g <= i -> money s + i * price < 2 ^ 256 ->
  sound (after_refund i g s) /\ money (after_refund i g s) = money s + (g + refunded_gas i g s) * price.
Proof.
  intros Hs Hp Hg Hm. pose proof (refund_nonneg _ (snd_state _ Hs)) as Hr.
  pose proof (refunded_gas_bound i g s Hr ltac:(lia)) as Hb. pose proof (Z.div_le_upper_bound (i - g) 2 (i - g) ltac:(lia) ltac:(lia)).
  unfold after_refund. set (r := refunded_gas i g s) in *.
  assert (0 <= g * price /\ 0 <= r * price /\ (g + r) * price <= i * price) as (? & ? & ?).
  { split_and!; [nia..|]. apply Z.mul_le_mono_nonneg_r; lia. }
  pose proof (sound_ensure sender s Hs) as Hs1.
  destruct (keep_ensure hash image_of spent0 fee_key sender s) as [_ Hm1]; [apply Hs|].
  set (u := UAddBalance sender (g * price)).
  assert (sound (abs_update u (ensure sender s))) as Hs2.
  { apply sound_update; try done. cbn [minted u]. lia. }
  destruct (keep_update hash image_of spent0 fee_key u (ensure sender s)) as [_ Hm2]; [done|apply Hs1|].
  set (s2 := if _ >? _ then _ else _).
  assert (sound s2 /\ money s2 = money s + g * price) as [Hs3 Hm3].
  { unfold s2. rewrite Hm1 in Hm2. cbn [minted u] in Hm2. case_match; [|split; [done|lia]].
    destruct (keep_refund hash image_of spent0 fee_key (counter s * price) (abs_update u (ensure sender s))) as [Hi Hm4];
      [apply Hs2|]. split; [|lia]. destruct Hs2 as [[] ? ?]. split; [split; [done|]|done|lia].
    cbn [with_refund StateSpec.refund]. nia. }
  clearbody s2. set (u2 := UAddBalance sender (r * price)). split.
  - apply sound_update; try done. cbn [minted u2]. lia.
  - destruct (keep_update hash image_of spent0 fee_key u2 s2) as [_ ->]; [done|apply Hs3|]. cbn [minted u2]. lia.
Qed.

Lemma refundGas_wp d0 p g i b e s (Q : unit -> StateTransition db -> Prop) F :
  stage d0 e s -> 0 <= counter s -> 0 <= g <= i -> i < 2 ^ 64 ->
  (forall d1 e', let g' := g + refunded_gas i g s in
     stage d1 e' (after_refund i g s) -> Q tt (tr (p + g') g' i b e')) ->
  wp (refundGas msg) Q F (tr p g i b e).
Proof.
  intros He Hr Hg Hi HQ. pose proof (refunded_gas_bound i g s Hr ltac:(lia)) as Hb.
  pose proof (Z.div_le_upper_bound (i - g) 2 (i - g) ltac:(lia) ltac:(lia)).
  unfold refundGas. apply wp_bind. eapply from_wp; [exact He|]. intros e1 He1.
  apply wp_bind, wp_gets, wp_bind. cbn [gas RefAddress].
  eapply (update_wp _ _ _ _ _ _ _ (UAddBalance sender (g * price))); [exact He1|]. intros e2 He2.
  do 2 apply wp_bind, wp_gets. cbn [gas initialGas st_evm state gasUsed]. unfold gasUsed, state. cbn [gas initialGas st_evm].
  rewrite (GetRefund_spec (hash:=hash)), (sg_abs _ _ _ He2) by apply He2.
  change (counter (abs_update (UAddBalance sender (g * price)) (ensure sender s))) with (counter (ensure sender s)).
  rewrite ensure_refund. fold (refunded_gas i g s).
  apply wp_bind, wp_gets, wp_bind, wp_modify. cbn [gp gas initialGas data st_evm].
  replace (u64 (g + Uint64 (refunded_gas i g s))) with (g + refunded_gas i g s).
  2: { unfold Uint64. rewrite Z.abs_eq, !u64_small by (rewrite ?u64_small; lia). done. }
  set (g' := g + refunded_gas i g s) in *. set (s2 := abs_update _ _) in He2.
  assert (forall d1 e3, stage d1 e3 (if (i - g) / 2 >? counter s then with_refund (counter s * price) s2 else s2) ->
    wp (on_state (AddBalance sender (refunded_gas i g s * gasPrice msg));; g ← gets gas; p ← gets gp; set_gp (AddGas p g))
      Q F (tr p g' i b e3)) as Hrest.
  { intros d1 e3 He3. apply wp_bind.
    eapply (update_wp _ _ _ _ _ _ _ (UAddBalance sender (refunded_gas i g s * price))); [exact He3|]. intros e4 He4.
    do 2 apply wp_bind, wp_gets. apply wp_modify. by apply (HQ d1). }
  apply wp_bind. case_match; [|by apply wp_ret, (Hrest d0)]. apply wp_modify. cbn [gp gas initialGas data st_evm].
  destruct (MulRefund_spec (hash:=hash) (statedb e2) price (sg_db _ _ _ He2)) as [Hd Habs].
  apply (Hrest (MulRefund price (statedb e2))). destruct He2. split; try done.
  change (abs (MulRefund price (statedb e2)) = with_refund (counter s * price) s2).
  rewrite Habs, sg_abs0. f_equal. f_equal. unfold s2.
  change (counter (abs_update (UAddBalance sender (g * price)) (ensure sender s))) with (counter (ensure sender s)).
  apply ensure_refund.
Qed.

Definition paid (fee : Z) (s : astate) : astate :=
  if IsPosActive then collect fee_key fee s else abs_update (UAddBalance (Coinbase (ctx env)) fee) s.

Lemma payFee_wp d0 fee p g i b e s (Q : unit -> StateTransition db -> Prop) F :
  stage d0 e s -> (forall e', stage d0 e' (paid fee s) -> Q tt (tr p g i b e')) ->
  wp (payFee env IsPosActive fee) Q F (tr p g i b e).
Proof.
  intros He HQ. unfold payFee, paid in *. destruct IsPosActive; cbn [negb].
  - apply wp_modify. cbn [gp gas initialGas data st_evm]. apply HQ. unfold AddEpochGas, getEpochGas, state. cbn [st_evm].
    rewrite (GetStateByteArray_spec (hash:=hash)), (sg_abs _ _ _ He) by apply He.
    exact (stage_update _ _ _ (USetStateByteArray IncentivePrecompileAddr fee_key _) He).
  - by eapply (update_wp _ _ _ _ _ _ _ (UAddBalance (Coinbase (ctx env)) fee)).
Qed.

Lemma paid_sound fee s :
  sound s -> 0 <= fee -> money s + fee < 2 ^ 256 -> sound (paid fee s) /\ money (paid fee s) = money s + fee.
Proof.
  intros Hs Hf Hm. unfold paid. destruct IsPosActive.
  - destruct (keep_collect hash image_of spent0 fee_key fee s Hf (snd_inv _ Hs)) as [? He].
    split; [|done]. split; [|done|lia]. apply update_state_ok; [apply Hs|done].
  - set (u := UAddBalance _ fee).
    destruct (keep_update hash image_of spent0 fee_key u s) as [? He]; [done|apply Hs|]. cbn [minted u] in He.
    split; [|lia]. apply sound_update; try done. cbn [minted u]. lia.
Qed.
(** ** Privacy transactions *)

Lemma big_Div_pos x y : 0 < y -> big_Div x y = Some (x / y).
Proof.
  intros Hy. unfold big_Div. destruct (Z.eqb_spec y 0); [lia|]. rewrite Z.sgn_pos, Z.abs_eq by lia. f_equal. lia.
Qed.

(** The key image in the data of a privacy transaction, and what is stored for a
    key image. *)
Definition stamp_image (input : list byte) : option PublicKey :=
  match Abi.Unpack [Abi.StringTy; Abi.BytesTy] (drop 4 input) tt with
  | Ok [Abi.VString s; _] _ => '(_, image, _, _) ← DecodeRingSignOut s; Some image
  | _ => None
  end.
Definition image_at (s : astate) (image : PublicKey) : list byte :=
  default [] (bytes_of s otaImageStorageAddr !! hash (FromECDSAPub image)).

Lemma unpackCombine_wp payload d (Q : list byte * list byte -> db -> Prop) (F' : vmerror -> db -> Prop) :
  (forall s q, len q <= len payload ->
     Abi.Unpack [Abi.StringTy; Abi.BytesTy] payload tt = Ok [Abi.VString s; Abi.VBytes q] tt -> Q (s, q) d) -> (forall err, F' err d) -> wp (unpackCombine payload) Q F' d.
Proof.
  intros HQ HF. pose proof (combine_total payload) as Hu. unfold wp, unpackCombine in *.
  destruct (Abi.Unpack _ _ tt) as [l []|err []| |]; try done. destruct Hu as (s & q & -> & Hq). by apply HQ.
Qed.

Lemma dropError_wp m d (Q : unit -> db -> Prop) (F' : vmerror -> db -> Prop) :
  wp m Q (fun _ d' => Q tt d') d -> wp (dropError m) Q F' d.
Proof. unfold wp, dropError. by destruct (m d). Qed.

Lemma FetchPrivacy_wp from input d (Q : PrivacyTxInfo -> db -> Prop) (F' : vmerror -> db -> Prop) :
  db_ok d -> inv (abs d) -> 0 < price -> (forall err, F' err d) ->
  (forall info comp, tx_KeyImage info = image_of comp -> holder (abs d) comp (StampBalance info) ->
     0 <= GasLeftSubRingSign info <= StampTotalGas info -> StampTotalGas info < 2 ^ 64 ->
     StampTotalGas info * price <= StampBalance info -> len (CallData info) <= len input ->
     stamp_image input = Some (tx_KeyImage info) -> Q info d) ->
  wp (FetchPrivacyTxInfo VerifyRingSign from input price) Q F' d.
Proof.
  intros Hd Hi Hp HF HQ. unfold FetchPrivacyTxInfo. destruct (Z.ltb_spec (len input) 4); [by apply wp_throw|].
  apply wp_bind, unpackCombine_wp; [|done]. intros s q Hq Hargs. apply wp_bind. eapply FetchRing_wp; [done..|]. intros info comp Himg Hh Hring. apply wp_bind.
  pose proof Hh as (? & ? & ? & _ & _ & (Hv & _) & _). apply values_pos in Hv.
  rewrite big_Div_pos by done. apply wp_ret. set (g := OTABalance info / price).
  assert (0 <= g) as Hg by (apply Z.div_pos; lia).
  assert (g * price <= OTABalance info) as Hle by (unfold g; rewrite Z.mul_comm; apply Z.mul_div_le; lia).
  destruct (Z.gtb_spec (BitLen g) 64) as [|Hb]; [by apply wp_throw|]. apply BitLen_le in Hb; [|lia].
  rewrite Z.abs_eq in Hb by done. unfold Uint64. rewrite Z.abs_eq, u64_small by lia.
  set (pre := u64 (u64 _ + _)). assert (0 <= pre < 2 ^ 64) as Hpre by apply u64_range. clearbody pre. destruct (Z.ltb_spec g pre); [by apply wp_throw|]. apply wp_ret.
  rewrite u64_small by lia. eapply HQ; cbn; [exact Himg|done|lia|done|done|..].
  - unfold len in *. rewrite length_drop in Hq. lia.
  - unfold stamp_image. by rewrite Hargs, Hring.
Qed.

Lemma PreProcess_wp from input d (Q : list byte * Z * Z -> db -> Prop) (F' : vmerror -> db -> Prop) :
  db_ok d -> state_ok (abs d) -> inv (abs d) -> 0 < price -> (forall err, F' err d) -> Q ([], 0, 0) d ->
  (forall b total left v d', 0 <= left <= total -> total < 2 ^ 64 -> total * price <= v -> v <= max_value ->
     len b <= len input ->
     moves d d' -> state_ok (abs d') -> inv (abs d') -> money (abs d') = money (abs d) - v ->
     (exists image, stamp_image input = Some image /\ image_at (abs d) image = [] /\ image_at (abs d') image <> []) ->
     Q (b, total, left) d') ->
  wp (PreProcessPrivacyTx hash VerifyRingSign from input price (msg_Value msg)) Q F' d.
Proof.
  intros Hd Hst Hi Hp HF Hspent HQ. unfold PreProcessPrivacyTx. case_match; [by apply wp_throw|].
  apply wp_bind, FetchPrivacy_wp; [done..|]. intros info comp Himg Hh Hleft Htot Hle Hlen Hst'.
  apply wp_bind, (CheckImage_wp hash); [done|by intros; apply wp_ret| |done]. rewrite Himg. intros Hnew.
  pose proof Hh as (? & ? & ? & _ & _ & (Hv & _) & _). pose proof (values_pos _ Hv).
  destruct (with_image_ok hash image_of spent0 fee_key comp (StampBalance info) (abs d)) as [Hi' Hl]; [done..|].
  set (u := USetStateByteArray otaImageStorageAddr (hash (FromECDSAPub (image_of comp))) (Bytes (StampBalance info))).
  apply wp_bind, dropError_wp. unfold AddOTAImage. rewrite image_length. cbn [orb].
  destruct (Z.eqb_spec (len (Bytes (StampBalance info))) 0) as [Hz|]; [by apply Bytes_nonempty in Hz; [|lia]|].
  apply wp_modify, wp_ret. change (SetStateByteArray _ _ _ d) with (apply_update u d). apply (HQ _ _ _ (StampBalance info)); try done; rewrite ?update_abs by done.
  - by apply values_max.
  - by apply moves_update, moves_refl.
  - by apply update_state_ok.
  - done.
  - unfold total. change (abs_update u (abs d)) with (with_image (hash (FromECDSAPub (image_of comp))) (StampBalance info) (abs d)).
    rewrite Hl. unfold with_image. rewrite update_supply. cbn [minted]. lia.
  - exists (image_of comp). rewrite Hst', Himg. split_and!; [done|done|]. unfold image_at.
    change (abs_update u (abs d)) with (with_image (hash (FromECDSAPub (image_of comp))) (StampBalance info) (abs d)).
    rewrite with_image_bytes, decide_True, lookup_insert_eq by done. cbn [default from_option id].
    by rewrite <- len_nil_iff.
Qed.

Lemma preProcess_wp d0 p b e s (Q : Z -> StateTransition db -> Prop) :
  stage d0 e s -> sound s -> len b < 2 ^ 62 -> 0 < price ->
  (forall total left b' e' s', 0 <= left <= total -> total < 2 ^ 64 -> total <= max_value / price -> total <= p -> stage d0 e' s' -> sound s' ->
     money s' + total * price <= money s -> len b' < 2 ^ 62 ->
     total = 0 \/ (exists image, stamp_image b = Some image /\ image_at s image = [] /\ image_at s' image <> []) ->
     Q total (tr (p - total) left left b' e')) ->
  wp (preProcess env VerifyRingSign msg (AccountRef sender)) Q (fun _ => tx_undoable d0) (tr p 0 0 b e).
Proof.
  intros He Hs Hb Hp HQ. unfold preProcess. apply wp_bind, wp_gets, wp_bind. cbn [data RefAddress].
  assert (forall b' total left d', len b' < 2 ^ 62 -> 0 <= left <= total -> total < 2 ^ 64 -> total * price <= max_value ->
    stage d0 (set_db e d') (abs d') -> sound (abs d') -> money (abs d') + total * price <= money s ->
    total = 0 \/ (exists image, stamp_image b = Some image /\ image_at s image = [] /\ image_at (abs d') image <> []) ->
    wp (set_gas left;; set_initialGas left;; set_data b';; subPool total;; mret total) Q (fun _ => tx_undoable d0)
      (tr p 0 0 b (set_db e d'))) as Hrest.
  { intros b' total left d' ? ? ? ? He' ? ? ?. do 3 (apply wp_bind, wp_modify). cbn [gp gas initialGas data st_evm].
    apply wp_bind, subPool_wp; [|by eapply stage_undoable]. intros. apply wp_ret.
    apply (HQ _ _ _ _ (abs d')); try done. apply Z.div_le_lower_bound; lia. }
  assert (forall A (m : ST db vmerror A) (Q' : A -> StateTransition db -> Prop),
    wp m (fun a d' => Q' a (tr p 0 0 b (set_db e d'))) (fun _ d' => d' = statedb e) (statedb e) ->
    wp (in_db m) Q' (fun _ => tx_undoable d0) (tr p 0 0 b e)) as Hin.
  { intros A m Q' Hm. unfold wp, in_db, state in *. cbn [st_evm]. destruct (m (statedb e)); try done.
    cbn in Hm. subst. destruct He. by split. }
  pose proof (sg_abs _ _ _ He) as Habs. apply Hin. rewrite <- Habs in Hs. pose proof Hs as [? ? ?].
  assert (0 <= 0 * price) by lia.
  apply PreProcess_wp; try done; [apply He|..].
  - apply Hrest; rewrite ?Habs; try done; [|by rewrite <- Habs|lia|by left]. by eapply stage_change; [exact He|apply He..|].
  - intros b' total left v d' Hl Ht Hle Hmax Hlen [Hd' Hcov] Hst' Hi' Hm Himg. rewrite Habs in Hm.
    assert (0 <= total * price) by nia. rewrite Habs in *.
    apply Hrest; try done; [lia|lia|by eapply stage_change|split; [done..|lia]|lia|by right].
Qed.

(** ** Intrinsic gas *)

Lemma nonZero_bound b : 0 <= nonZero b <= len b.
Proof. unfold nonZero, len. pose proof (length_filter (fun c => c <> x00) b). lia. Qed.

Lemma IntrinsicGas_pos b a : 2100 <= IntrinsicGas b a true.
Proof.
  unfold IntrinsicGas, TxGas, TxGasContractCreation, TxDataNonZeroGas, TxDataZeroGas. pose proof (nonZero_bound b).
  set (x := if len b >? 0 then _ else _).
  assert (21000 <= x) by (unfold x; repeat case_match; lia). clearbody x.
  case_match; [|lia]. apply Z.div_le_lower_bound; lia.
Qed.
(** ** The whole transaction *)

Definition ordinary : bool := IsNormalTransaction (TxType msg) || IsPosTransaction (TxType msg).

(** What the transaction may rely on: amounts are not negative, the price of a
    privacy transaction is positive.  The fuel covers the gas, which a stamp
    cannot buy more of than its greatest value pays. *)
Record msg_ok : Prop := {
  gas_nonneg : 0 <= msg_Gas msg;
  price_nonneg : 0 <= price;
  value_nonneg : 0 <= msg_Value msg;
  data_length : len (msg_Data msg) < 2 ^ 62;
  privacy_price : IsPrivacyTransaction (TxType msg) = true -> 0 < price;
  enough_fuel : (if ordinary then msg_Gas msg else max_value / price) + 2 <= Z.of_nat fuel;
}.

(** The state after the gas is bought. *)
Definition bought_gas (s : astate) : astate :=
  abs_update (USubBalance sender (msg_Gas msg * price)) (ensure sender s).

Definition intrinsic : Z := IntrinsicGas (msg_Data msg) (To msg) true.

(** The result of a transaction from a pool of [p] gas and the state [s]. *)
Definition tx_post (p : Z) (s : astate) (r : list byte * Z * Z * bool) (st : StateTransition db) : Prop :=
  let '(ret, required, used, failed) := r in
  exists d s', stage d (st_evm st) s' /\ sound s' /\ money s' <= money s /\ gp st = p - used /\ 0 <= used /\
    (ordinary = false -> required = used) /\
    (ordinary = true -> intrinsic <= required <= msg_Gas msg /\ required - required / 2 <= used <= required /\
       forall a, failed = true -> To msg = Some a ->
         let g := msg_Gas msg - required in
         let s1 := called a (bought_gas s) in
         used = required - refunded_gas (msg_Gas msg) g s1 /\
         s' = paid (used * price) (after_refund (msg_Gas msg) g s1)).

Lemma useGas_wp d0 amount p g i b e s (Q : unit -> StateTransition db -> Prop) :
  stage d0 e s -> 0 <= amount -> 0 <= g < 2 ^ 64 ->
  (amount <= g -> Q tt (tr p (g - amount) i b e)) ->
  wp (useGas amount) Q (fun _ => tx_undoable d0) (tr p g i b e).
Proof.
  intros He Ha Hg HQ. unfold useGas. apply wp_bind, wp_gets. cbn [gas].
  destruct (Z.ltb_spec g amount); [by eapply wp_throw, stage_undoable|]. apply wp_modify.
  cbn [gp gas initialGas data st_evm]. rewrite u64_small by lia. by apply HQ.
Qed.

Lemma bought_gas_sound s :
  sound s -> 0 <= msg_Gas msg * price <= a_balance (acct s sender) ->
  sound (bought_gas s) /\ money (bought_gas s) = money s - msg_Gas msg * price.
Proof.
  intros Hs Hb. pose proof (sound_ensure sender s Hs) as Hs1. unfold bought_gas. set (u := USubBalance _ _).
  destruct (keep_ensure hash image_of spent0 fee_key sender s) as [_ Hm1]; [apply Hs|].
  destruct (keep_update hash image_of spent0 fee_key u (ensure sender s)) as [_ Hm]; [done|apply Hs1|].
  cbn [minted u] in Hm. split; [|lia]. apply sound_update; try done.
  - cbn [update_pre u]. rewrite ensure_acct. lia.
  - cbn [minted u]. pose proof (snd_money _ Hs1). lia.
Qed.

Lemma ensure_bought s : ensure sender (bought_gas s) = bought_gas s.
Proof.
  unfold ensure at 1, absent. rewrite bool_decide_false; [done|]. unfold bought_gas. cbn [abs_update].
  unfold on_account. cbn [accounts set_accounts]. by rewrite lookup_insert_eq.
Qed.

(** The end of a transaction whose gas was bought by the sender. *)
Lemma finish_wp d0 p g i b e s s0 (ret : list byte) (err : option vmerror) :
  stage d0 e s -> sound s -> 0 <= price -> 0 <= g <= i -> i < 2 ^ 64 -> money s + i * price <= money s0 ->
  money s0 < 2 ^ 256 ->
  let required := i - g in
  let used := required - refunded_gas i g s in
  wp ('(requiredGas, usedGas) ← (required ← gets gasUsed; refundGas msg;; used ← gets gasUsed;
                                 mret (Some required, Some used));
      used ← must usedGas; required ← must requiredGas;
      payFee env IsPosActive (used * gasPrice msg);;
      mret (ret, required, used, match err with Some _ => true | None => false end))
    (fun r st => r = (ret, required, used, match err with Some _ => true | None => false end) /\
       exists d, let s' := paid (used * price) (after_refund i g s) in
         stage d (st_evm st) s' /\ sound s' /\ money s' <= money s0 /\ gp st = p + (i - used))
    (fun _ => tx_undoable d0) (tr p g i b e).
Proof.
  intros He Hs Hp Hg Hi Hm Hb required used. pose proof (refund_nonneg _ (snd_state _ Hs)) as Hr.
  pose proof (refunded_gas_bound i g s Hr ltac:(lia)) as Hrb.
  pose proof (Z.div_le_upper_bound (i - g) 2 (i - g) ltac:(lia) ltac:(lia)).
  apply wp_bind, wp_bind, wp_gets, wp_bind. unfold gasUsed at 1. cbn [initialGas gas].
  eapply refundGas_wp; [done..|]. intros d1 e1 g' He1. apply wp_bind, wp_gets, wp_ret.
  unfold gasUsed. cbn [initialGas gas]. do 2 apply wp_bind, wp_ret.
  assert (i - g' = used) as Hused by (unfold g', used, required; lia). rewrite Hused.
  apply wp_bind. eapply payFee_wp; [exact He1|]. intros e2 He2. apply wp_ret. split; [done|].
  exists d1. cbn [st_evm gp]. destruct (after_refund_sound i g s Hs Hp Hg) as [Hs2 Hm2]; [lia|].
  assert (used * price = i * price - (g + refunded_gas i g s) * price) as Hfee by (unfold used, required; lia).
  assert (0 <= used * price) by (apply Z.mul_nonneg_nonneg; [unfold used, required; lia|done]).
  destruct (paid_sound (used * price) _ Hs2) as [Hs3 Hm3]; [done|lia|].
  split_and!; [done|done|lia|lia].
Qed.

Lemma ordinary_not_privacy : ordinary = true -> IsPrivacyTransaction (TxType msg) = false.
Proof.
  unfold ordinary, IsNormalTransaction, IsPosTransaction, IsPrivacyTransaction, NORMAL_TX, POS_TX, PRIVACY_TX.
  rewrite !orb_true_iff, !Z.eqb_eq. intros. apply Z.eqb_neq. lia.
Qed.

Lemma TransitionDb_wp p e s :
  msg_ok -> stage (statedb e) e s -> sound s ->
  wp (TransitionDb env VerifyRingSign IsPosActive (run env fuel) msg) (tx_post p s)
    (fun _ => tx_undoable (statedb e)) (NewStateTransition e msg p).
Proof.
  intros [Hg Hp Hv Hb Hpp HN] He Hs. unfold TransitionDb, NewStateTransition. fold ordinary.
  pose proof (IntrinsicGas_pos (msg_Data msg) (To msg)) as Hpos.
  destruct ordinary eqn:Hord.
  - apply wp_bind. eapply preCheck_wp; [exact He|done|]. intros e1 Hg64 Hbal Hpool He1. fold (bought_gas s) in He1.
    destruct (bought_gas_sound s Hs) as [Hs1 Hm1]; [nia|].
    apply wp_bind. eapply from_wp; [exact He1|]. rewrite ensure_bought. intros e2 He2.
    apply wp_bind, wp_gets. cbn [data]. fold intrinsic in *.
    destruct (Z.gtb_spec (BitLen intrinsic) 64) as [|Hbl]; [by eapply wp_throw, stage_undoable|].
    apply BitLen_le in Hbl; [|lia]. rewrite Z.abs_eq in Hbl by lia.
    rewrite (ordinary_not_privacy Hord). apply wp_bind, wp_ret. unfold Uint64. rewrite Z.abs_eq, u64_small by lia.
    apply wp_bind. eapply useGas_wp; [exact He2|lia|lia|]. intros Hi.
    apply wp_bind. eapply execute_wp; [exact He2|done|lia|lia|done|done|].
    intros ret err g' e3 s3 Hg' He3 Hs3 Hm3 Herr. case_bool_decide; [by eapply wp_throw, stage_undoable|].
    pose proof (refund_nonneg _ (snd_state _ Hs3)) as Hr.
    pose proof (refunded_gas_bound (msg_Gas msg) g' s3 Hr ltac:(lia)) as Hrb.
    pose proof (Z.div_le_upper_bound (msg_Gas msg - g') 2 (msg_Gas msg - g') ltac:(lia) ltac:(lia)).
    eapply wp_mono; [eapply (finish_wp _ _ g' (msg_Gas msg) _ e3 s3 s); try done; [lia|lia|apply Hs]| |done].
    intros r st [-> (d & Hst & Hsd & Hmd & Hgp)]. exists d. eexists. split_and!; try done; [lia|lia|rewrite Hord; done|].
    intros _. split_and!; [lia..|]. intros a Hf Hto.
    assert (s3 = called a (bought_gas s)) as -> by (apply Herr; [by destruct err|done]).
    replace (msg_Gas msg - (msg_Gas msg - g')) with g' by lia. done.
  - apply wp_bind, wp_ret, wp_bind. eapply from_wp; [exact He|]. intros e2 He2.
    pose proof (sound_ensure sender s Hs) as Hs2.
    destruct (keep_ensure hash image_of spent0 fee_key sender s) as [_ Hm2]; [apply Hs|].
    apply wp_bind, wp_gets. cbn [data]. fold intrinsic in *.
    destruct (Z.gtb_spec (BitLen intrinsic) 64) as [|Hbl]; [by eapply wp_throw, stage_undoable|].
    apply BitLen_le in Hbl; [|lia]. rewrite Z.abs_eq in Hbl by lia. unfold Uint64. rewrite Z.abs_eq, u64_small by lia.
    destruct (IsPrivacyTransaction (TxType msg)).
    2: { apply wp_bind, wp_ret, wp_bind. eapply useGas_wp; [exact He2|lia|lia|]. lia. }
    apply wp_bind. eapply preProcess_wp; [exact He2|done|done|by apply Hpp|].
    intros tot left b' e3 s3 Hl Ht Hmx Htp He3 Hs3 Hm3 Hb' _.
    apply wp_bind. eapply useGas_wp; [exact He3|lia|lia|]. intros Hi.
    apply wp_bind. eapply execute_wp; [exact He3|done|lia|lia|done|done|].
    intros ret err g' e4 s4 Hg' He4 Hs4 Hm4 Herr. case_bool_decide; [by eapply wp_throw, stage_undoable|].
    do 3 apply wp_bind, wp_ret. apply wp_bind. eapply payFee_wp; [exact He4|]. intros e5 He5. apply wp_ret.
    assert (0 <= tot * price) by nia. pose proof (snd_money _ Hs2).
    destruct (paid_sound (tot * price) s4) as [Hs5 Hm5]; [done|done|lia|].
    exists (statedb e), (paid (tot * price) s4). cbn [st_evm gp]. rewrite Hord.
    split_and!; try done; lia.
Qed.
End Transition.
