(* ===== verification/StakingCall.v ===== *)
(** Calls of the staking contract through the virtual machine: the money a call
    sends is the money it records. *)

From S2P Require Import Prelude BigMath Encoding Abi VmData VmState StateSpec Rlp RlpSpec RlpDecode RlpCodec Ota.
From S2P Require Import Staking StakingCodec StakingSpec Instructions Evm EvmInv StakingSafety EvmSafety TransitionSafety.
Import Big Common Params Addr Staking.

Definition balance_of (s : astate) (a : Address) : Z := a_balance (acct s a).

(** The stakes recorded are covered by the balance of the contract. *)
Definition funded (s : astate) : Prop := recorded s <= balance_of s WanCscPrecompileAddr.

Lemma balance_sub s a v b : 0 <= v ->
  balance_of (abs_update (USubBalance a v) s) b = balance_of s b - (if decide (a = b) then v else 0).
Proof.
  intros Hv. unfold balance_of. cbn [abs_update]. case_decide as E.
  - subst. rewrite acct_on_account_eq. cbn. lia.
  - rewrite acct_on_account_ne by done. lia.
Qed.

Lemma balance_add s a v b : 0 <= v ->
  balance_of (abs_update (UAddBalance a v) s) b = balance_of s b + (if decide (a = b) then v else 0).
Proof.
  intros Hv. unfold balance_of. cbn [abs_update]. case_decide as E.
  - subst. rewrite acct_on_account_eq. cbn. lia.
  - rewrite acct_on_account_ne by done. lia.
Qed.

(** A transfer on the abstract state. *)
Definition transferred (s : astate) (a b : Address) (v : Z) : astate :=
  abs_update (UAddBalance b v) (abs_update (USubBalance a v) s).

Lemma transferred_balance s a b v x : 0 <= v ->
  balance_of (transferred s a b v) x =
  balance_of s x - (if decide (a = x) then v else 0) + (if decide (b = x) then v else 0).
Proof. intros Hv. unfold transferred. by rewrite balance_add, balance_sub. Qed.

Lemma transferred_bytes s a b v x : bytes_of (transferred s a b v) x = bytes_of s x.
Proof. unfold transferred. by rewrite !bytes_of_keep. Qed.

Lemma transferred_state s a b v : state_ok s -> v <= balance_of s a -> state_ok (transferred s a b v).
Proof. intros Hs Hv. apply update_state_ok; [|done]. by apply update_state_ok. Qed.

Section Transfers.
Context {db : Type} `{!StateDB db} {hash : list byte -> Hash} `{!StateDBSpec db hash}.
Implicit Types d : db.

Lemma Transfer_abs d a b v : db_ok d ->
  db_ok (Transfer d a b v) /\ abs (Transfer d a b v) = transferred (abs d) a b v.
Proof.
  intros Hd. unfold Transfer.
  change (AddBalance b v (SubBalance a v d)) with (apply_update (UAddBalance b v) (apply_update (USubBalance a v) d)).
  assert (db_ok (apply_update (USubBalance a v) d)) by by apply update_ok.
  split; [by apply update_ok|]. by rewrite !update_abs.
Qed.

Lemma Transfer_moves d d' a b v : moves d d' -> moves d (Transfer d' a b v).
Proof.
  intros Hm. unfold Transfer.
  change (AddBalance b v (SubBalance a v d')) with (apply_update (UAddBalance b v) (apply_update (USubBalance a v) d')).
  by repeat apply moves_update.
Qed.
End Transfers.

Section Contract.
Context {db : Type} `{!StateDB db} (env : Env db) `{!StateDBSpec db (Keccak256Hash env)} (posCfg : PosConfig.Config).
Abbreviation hash := (Keccak256Hash env).
Implicit Types (d : db) (e : EVM db).

(** The staking contract is installed, and its method ids are different. *)
Record staking_env : Prop := {
  se_contract : precompiles env WanCscPrecompileAddr = Some (PosStaking hash posCfg);
  se_ids : NoDup (ids hash);
}.
Context (Henv : staking_env).

(** What a call of value [v] does. *)
Definition call_result (caller : Address) (input : list byte) (v : Z) (s s' : astate) : Prop :=
  staking_inv s' /\
  recorded s' = recorded s + (if payable hash (take 4 input) then v else 0) /\
  (forall a, balance_of s' a =
    balance_of s a - (if decide (caller = a) then v else 0) + (if decide (WanCscPrecompileAddr = a) then v else 0)) /\
  (forall k b st, staker_at s k b st -> exists b' st', staker_at s' k b' st' /\ guarded caller st st').

(** The contract run on the prepared database. *)
Lemma run_staking fuel c input e :
  CodeAddr c = Some WanCscPrecompileAddr -> db_ok (statedb e) -> staking_inv (abs (statedb e)) ->
  0 <= value c -> 0 <= Gas c < 2 ^ 64 -> len input < 2 ^ 62 ->
  exists err e', run env (S fuel) c input e = Ok ([], err, Gas c) e' /\ moves (statedb e) (statedb e') /\
    (err = None -> records hash c (if payable hash (take 4 input) then value c else 0) (statedb e) (statedb e')).
Proof.
  intros Hc Hd Hi Hv Hg Hin. rewrite run_S, Hc. cbn [mbind option_bind]. rewrite (se_contract Henv).
  unfold RunPrecompiledContract, UseGas. cbn [RequiredGas PosStaking]. destruct (Z.ltb_spec (Gas c) 0); [lia|].
  set (c' := SetGas c _). assert (Gas c' = Gas c) as Hgas. { cbn. rewrite u64_small by lia. lia. }
  pose proof (Run_wp hash posCfg c' (ctx env) input (statedb e) (se_ids Henv) Hd Hi Hv Hin) as Hrun.
  unfold wp in Hrun. cbn [PrecompiledRun PosStaking].
  destruct (Run hash posCfg input c' (ctx env) (statedb e)) as [ret d'|err d'| |]; try done; rewrite Hgas.
  - destruct Hrun as [-> Hr]. exists None, (set_db e d'). split_and!; [done|apply Hr|]. intros _. by destruct Hr.
  - by exists (Some err), (set_db e d').
Qed.

Lemma stake_call_ok fuel caller input gas v e :
  db_ok (statedb e) -> state_ok (abs (statedb e)) -> staking_inv (abs (statedb e)) -> depth e = 0 ->
  0 <= v -> 0 <= gas < 2 ^ 64 -> len input < 2 ^ 62 ->
  exists left err e',
    evmCall env (run env (S fuel)) caller WanCscPrecompileAddr input gas v e = Ok ([], left, err) e' /\
    db_ok (statedb e') /\ state_ok (abs (statedb e')) /\
    match err with
    | None => call_result (RefAddress caller) input v (abs (statedb e)) (abs (statedb e'))
    | Some _ => abs (statedb e') = abs (statedb e)
    end.
Proof.
  intros Hd Hs Hi Hdepth Hv Hg Hin. set (m := evmCall _ _ _ _ _ _ _).
  assert (wp m (fun r e' => exists left err, r = ([], left, err) /\ db_ok (statedb e') /\ state_ok (abs (statedb e')) /\
    match err with
    | None => call_result (RefAddress caller) input v (abs (statedb e)) (abs (statedb e'))
    | Some _ => abs (statedb e') = abs (statedb e)
    end) (fun _ _ => False) e) as H.
  2: { unfold wp in H. destruct (m e) as [r e'| | |]; try done. destruct H as (left & err & -> & ? & ? & ?). by exists left, err, e'. }
  unfold m, evmCall. apply wp_bind, wp_gets. unfold id. rewrite Hdepth, andb_false_r. change (0 >? CallCreateDepth) with false.
  cbv iota. destruct (CanTransfer _ _ _) eqn:Hcan; cbn [negb]; [|apply wp_ret; by exists gas, (Some ErrInsufficientBalance)].
  apply (CanTransfer_balance env) in Hcan; [|done].
  destruct (Snapshot (statedb e)) as [sid d] eqn:Hsnap.
  destruct (Snapshot_spec _ _ _ Hd Hsnap) as (Hd1 & Habs & Hcov & _).
  rewrite (se_contract Henv), andb_false_r. cbn [andb].
  set (d1 := if Exist d _ then d else _).
  assert (moves d d1 /\ abs d1 = ensure WanCscPrecompileAddr (abs (statedb e))) as [Hm1 Ha1].
  { unfold d1, ensure, absent. rewrite (Exist_spec (hash:=hash)) by done. rewrite <- Habs. case_bool_decide as Hex.
    - split; [by apply moves_refl|]. rewrite bool_decide_false; [done|]. intros Hn. rewrite Hn in Hex. by apply is_Some_None in Hex.
    - apply eq_None_not_Some in Hex. rewrite bool_decide_true by done.
      change (CreateAccount WanCscPrecompileAddr d) with (apply_update (UCreateAccount WanCscPrecompileAddr) d).
      split; [by apply moves_update, moves_refl|by apply update_abs]. }
  clearbody d1. rewrite !bool_decide_false by (apply (bool_decide_unpack _); by vm_compute). cbn [negb andb].
  destruct (Transfer_abs d1 (RefAddress caller) WanCscPrecompileAddr v (moves_ok _ _ Hm1)) as [Hd2 Ha2].
  pose proof (Transfer_moves _ _ (RefAddress caller) WanCscPrecompileAddr v Hm1) as Hm2.
  set (d2 := Transfer d1 _ _ v) in *. rewrite Ha1 in Ha2. clearbody d2.
  assert (forall a, bytes_of (abs d2) a = bytes_of (abs (statedb e)) a) as Hbytes.
  { intros a. rewrite Ha2, transferred_bytes. unfold bytes_of. by rewrite ensure_acct. }
  destruct (staking_inv_same (abs (statedb e)) (abs d2)) as [Hi2 Hr2]; [apply Hbytes|apply Hbytes|done|].
  assert (state_ok (abs d2)) as Hs2.
  { rewrite Ha2. apply transferred_state; [by apply ensure_state_ok|]. unfold balance_of. by rewrite ensure_acct. }
  apply wp_bind, wp_modify. apply wp_bind.
  match goal with |- wp (run env _ ?c _) _ _ ?e1 =>
    destruct (run_staking fuel c input e1) as (err & e2 & Hrun & Hm3 & Hrec); try done; [by rewrite statedb_enter|by rewrite statedb_enter|] end.
  unfold wp at 1. rewrite Hrun. rewrite statedb_enter in Hm3, Hrec. cbn [statedb set_db] in Hm3, Hrec.
  unfold finishRun. destruct err as [x|].
  - apply wp_bind, wp_gets, wp_bind. unfold id.
    destruct (RevertToSnapshot_spec (statedb e2) sid (abs (statedb e))) as (d3 & Hd3 & ? & Habs3 & _); [apply Hm3| |].
    { by apply Hm3, Hm2. }
    eapply wp_must; [exact Hd3|]. apply wp_bind, wp_modify, wp_ret. eexists _, (Some x). cbn [statedb set_db]. rewrite Habs3. by split_and!.
  - apply wp_ret. eexists _, None. split; [done|]. destruct (Hrec eq_refl) as [_ Hi3 Hr3 Hb3 Hs3 _ _ Hg3].
    split; [apply Hm3|]. split; [by apply Hs3|]. split; [done|]. split; [rewrite Hr3, Hr2; done|]. split.
    2: { intros k b st Hat. apply (Hg3 k b). destruct Hat as (Hk & ?). split; [|done]. unfold stakers. by rewrite Hbytes. }
    intros a. unfold balance_of at 1. rewrite Hb3. fold (balance_of (abs d2) a). rewrite Ha2, transferred_balance by done.
    unfold balance_of. by rewrite !ensure_acct.
Qed.
End Contract.
