(* ===== verification/StakeOutSpec.v ===== *)
(** What StakeOutRun should do, as a function of a validator record: the refunds
    that are due and the record that remains; and the proof that the loop does
    it. *)

From S2P Require Import Prelude BigMath Encoding VmData VmState StateSpec Rlp RlpSpec RlpDecode RlpCodec Ota.
From S2P Require Import Staking StakingCodec StakingSpec Instructions Evm EvmInv StakingSafety EvmSafety TransitionSafety StakingCall StakeOut.
Import Big Common Staking StakeOut.

(** * Pointwise effects of updates *)

(** The updates of StakeOutRun. *)
Definition simple_update (u : update) : Prop :=
  match u with
  | USubBalance _ v | UAddBalance _ v => 0 <= v
  | USetStateByteArray _ _ _ => True
  | _ => False
  end.

Definition effect (u : update) (a : Address) (c : account) : account :=
  match u with
  | USubBalance b v => if decide (b = a) then with_balance (fun n => n - Z.max 0 v) c else c
  | UAddBalance b v => if decide (b = a) then with_balance (fun n => n + Z.max 0 v) c else c
  | USetStateByteArray b k v => if decide (b = a) then with_bytes k v c else c
  | _ => c
  end.

Lemma acct_on a b f s : acct (on_account b f s) a = if decide (b = a) then f (acct s a) else acct s a.
Proof. case_decide; [subst; by rewrite acct_on_account_eq|by rewrite acct_on_account_ne]. Qed.

Lemma effect_acct u s a : simple_update u -> acct (abs_update u s) a = effect u a (acct s a).
Proof. destruct u; try done; intros _; cbn [abs_update effect]; apply acct_on. Qed.

Definition run_updates (us : list update) (s : astate) : astate := fold_left (fun s u => abs_update u s) us s.

Lemma run_updates_app us vs s : run_updates (us ++ vs) s = run_updates vs (run_updates us s).
Proof. apply fold_left_app. Qed.

Lemma static_update u s s' : simple_update u -> static_eq s s' -> static_eq (abs_update u s) (abs_update u s').
Proof.
  intros Hu (Ha & ? & ? & ? & ?). split.
  - intros a. rewrite !effect_acct by done. by rewrite Ha.
  - by destruct u.
Qed.

Lemma static_updates us s s' : Forall simple_update us -> static_eq s s' -> static_eq (run_updates us s) (run_updates us s').
Proof.
  intros Hus. revert s s'. induction Hus as [|u us Hu Hus IH]; intros s s' Hs; [done|].
  apply IH. by apply static_update.
Qed.

Lemma run_effects us s a : Forall simple_update us -> acct (run_updates us s) a = fold_left (fun c u => effect u a c) us (acct s a).
Proof.
  intros Hus. revert s. induction Hus as [|u us Hu Hus IH]; intros s; [done|].
  cbn [run_updates fold_left] in *. fold (run_updates us (abs_update u s)). by rewrite IH, effect_acct.
Qed.

(** The rest of the state is not changed. *)
Lemma run_rest us s : Forall simple_update us ->
  refund (run_updates us s) = refund s /\ logs (run_updates us s) = logs s /\
  logSize (run_updates us s) = logSize s /\ txinfo (run_updates us s) = txinfo s.
Proof.
  intros Hus. revert s. induction Hus as [|u us Hu Hus IH]; intros s; [done|].
  cbn [run_updates fold_left]. fold (run_updates us (abs_update u s)).
  destruct (IH (abs_update u s)) as (-> & -> & -> & ->). by destruct u.
Qed.

Lemma static_eq_effects us vs s : Forall simple_update us -> Forall simple_update vs ->
  (forall a c, fold_left (fun c u => effect u a c) us c = fold_left (fun c u => effect u a c) vs c) ->
  static_eq (run_updates us s) (run_updates vs s).
Proof.
  intros Hus Hvs H. destruct (run_rest us s Hus) as (? & ? & ? & ?). destruct (run_rest vs s Hvs) as (? & ? & ? & ?).
  split_and!; try congruence. intros a. rewrite !run_effects by done. by rewrite H.
Qed.

Lemma static_bytes s s' a : static_eq s s' -> bytes_of s' a = bytes_of s a.
Proof. intros (Ha & _). unfold bytes_of. by rewrite Ha. Qed.

Lemma static_balance s s' a : static_eq s s' -> balance_of s' a = balance_of s a.
Proof. intros (Ha & _). unfold balance_of. by rewrite Ha. Qed.

Lemma static_staking s s' : static_eq s s' -> staking_inv s -> staking_inv s' /\ recorded s' = recorded s.
Proof. intros Hs. apply staking_inv_same; unfold stakers, fees; by apply static_bytes. Qed.

(** * The refunds of a validator *)

Definition client_refund (c : ClientInfo) : RefundInfo := mkRefund (ci_Address c) (ci_Amount c).
Definition partner_refund (p : PartnerInfo) : RefundInfo := mkRefund (pi_Address p) (pi_Amount p).

Section Outcome.
Context (cfg : PosConfig.Config) (epochID : Z).

Definition active (s : StakerInfo) : StakerInfo := if si_StakingEpoch s =? 0 then activate cfg s else s.

(** The members that stay when those that are due have left. *)
Definition staying (s : StakerInfo) : StakerInfo :=
  set_members s (filter (fun c => clientDue epochID c = false) (si_Clients s))
    (filter (fun p => partnerDue epochID p = false) (si_Partners s)).

Definition leaving_refunds (s : StakerInfo) : list RefundInfo :=
  (client_refund <$> filter (fun c => clientDue epochID c = true) (si_Clients s)) ++
  (partner_refund <$> filter (fun p => partnerDue epochID p = true) (si_Partners s)).

(** All members and the owner. *)
Definition all_refunds (s : StakerInfo) : list RefundInfo :=
  (client_refund <$> si_Clients s) ++ (partner_refund <$> si_Partners s) ++ [mkRefund (si_From s) (si_Amount s)].

Definition refunds (s : StakerInfo) : list RefundInfo :=
  if si_LockEpochs s =? 0 then []
  else
    let s := active s in
    leaving_refunds s ++ (if expired epochID (staying s) then all_refunds (staying s) else []).

(** What becomes of the record. *)
Inductive change := Keep | Remove | Store (s : StakerInfo).

Definition next (s0 : StakerInfo) : change :=
  if si_LockEpochs s0 =? 0 then Keep
  else
    let s := staying (active s0) in
    if expired epochID s then Remove
    else
      let '(s', renewed) := renew epochID s in
      if (si_StakingEpoch s0 =? 0) || renewed || existsb (partnerDue epochID) (si_Partners (active s0)) ||
         existsb (clientDue epochID) (si_Clients (active s0))
      then Store s' else Keep.

Definition encoding (s : StakerInfo) : list byte := match rlpEncode s with Some (inl b) => b | _ => [] end.

Definition pays (l : list RefundInfo) : list update :=
  flat_map (fun r => [USubBalance WanCscPrecompileAddr (rf_Amount r); UAddBalance (rf_Addr r) (rf_Amount r)]) l.
Definition record_updates (s : StakerInfo) : list update :=
  match next s with
  | Keep => []
  | Remove => [put_staker s []; put_fee (si_Address s) []]
  | Store s' => [put_staker s' (encoding s')]
  end.
Definition staker_updates (s : StakerInfo) : list update := pays (refunds s) ++ record_updates s.
End Outcome.

Definition paid (l : list RefundInfo) : Z := sumOf rf_Amount l.
(** What the refunds pay to an account. *)
Definition paid_to (a : Address) (l : list RefundInfo) : Z :=
  sumOf (fun r => if decide (rf_Addr r = a) then rf_Amount r else 0) l.

(** * The outcome is consistent *)

Lemma Forall_keep {A} (P : A -> Prop) (f : A -> bool) b (l : list A) : Forall P l -> Forall P (filter (fun x => f x = b) l).
Proof.
  induction 1 as [|x l Hx Hl IH]; [done|]. destruct (decide (f x = b)).
  - rewrite filter_cons_True by done. by constructor.
  - by rewrite filter_cons_False.
Qed.

Lemma NoDup_keep {A B} (g : A -> B) (f : A -> bool) b (l : list A) : NoDup (g <$> l) -> NoDup (g <$> filter (fun x => f x = b) l).
Proof.
  induction l as [|x l IH]; [done|]. rewrite fmap_cons. intros [Hx Hl]%list.NoDup_cons. destruct (decide (f x = b)).
  - rewrite filter_cons_True, fmap_cons by done. apply list.NoDup_cons. split; [|auto].
    intros (y & Hy & Hin)%list_elem_of_fmap. apply list_elem_of_filter in Hin as [_ Hin]. apply Hx, list_elem_of_fmap. eauto.
  - rewrite filter_cons_False by done. auto.
Qed.

Lemma sumOf_split {A} (f : A -> Z) (due : A -> bool) l :
  sumOf f (filter (fun x => due x = true) l) + sumOf f (filter (fun x => due x = false) l) = sumOf f l.
Proof.
  induction l as [|x l IH]; [done|]. rewrite sumOf_cons. destruct (due x) eqn:E.
  - rewrite filter_cons_True, filter_cons_False, sumOf_cons by congruence. lia.
  - rewrite filter_cons_False, filter_cons_True, sumOf_cons by congruence. lia.
Qed.

Lemma sumOf_fmap {A B} (f : B -> Z) (g : A -> B) l : sumOf f (g <$> l) = sumOf (fun x => f (g x)) l.
Proof. induction l as [|x l IH]; [done|]. rewrite fmap_cons, !sumOf_cons. lia. Qed.

Lemma paid_app l k : paid (l ++ k) = paid l + paid k.
Proof. apply sumOf_app. Qed.

Lemma paid_clients l : paid (client_refund <$> l) = sumOf ci_Amount l.
Proof. unfold paid. by rewrite sumOf_fmap. Qed.
Lemma paid_partners l : paid (partner_refund <$> l) = sumOf pi_Amount l.
Proof. unfold paid. by rewrite sumOf_fmap. Qed.

Lemma paid_all s : paid (all_refunds s) = stake_total s.
Proof.
  unfold all_refunds. rewrite !paid_app, paid_clients, paid_partners. unfold stake_total, clientsTotal, partnersTotal.
  change (paid [mkRefund _ _]) with (si_Amount s + 0). lia.
Qed.

Section Consistent.
Context (cfg : PosConfig.Config) (epochID : Z).

Lemma paid_leaving s : paid (leaving_refunds epochID s) + stake_total (staying epochID s) = stake_total s.
Proof.
  unfold leaving_refunds. rewrite paid_app, paid_clients, paid_partners. unfold stake_total, clientsTotal, partnersTotal.
  cbn [staying set_members si_Amount si_Clients si_Partners].
  pose proof (sumOf_split ci_Amount (clientDue epochID) (si_Clients s)).
  pose proof (sumOf_split pi_Amount (partnerDue epochID) (si_Partners s)). lia.
Qed.

Lemma activate_ok s : staker_ok s -> staker_ok (activate cfg s) /\ stake_total (activate cfg s) = stake_total s.
Proof.
  intros Hs. unfold activate. set (f := fun p => mkPartner _ _ _ _ _ _).
  assert (forall ps, sumOf pi_Amount (f <$> ps) = sumOf pi_Amount ps) as Hsum by (intros ps; by rewrite sumOf_fmap).
  assert (forall ps : list PartnerInfo, pi_Address <$> (f <$> ps) = pi_Address <$> ps) as Haddr by (intros ps; by rewrite <- list_fmap_compose).
  split.
  - pose proof Hs as []. apply set_members_ok; try done.
    + by apply set_epochs_ok; [done..|apply u64_fits].
    + apply Forall_fmap. eapply Forall_impl; [|exact so_partners]. intros p (? & ? & ? & ?).
      split; [done|]. split; [done|]. split; [done|apply u64_fits].
    + cbn [set_epochs si_Partners]. by rewrite Haddr.
    + unfold len in *. by rewrite length_fmap.
    + cbn [set_epochs si_Amount si_Clients si_Partners]. rewrite Hsum. done.
  - unfold stake_total, clientsTotal, partnersTotal. cbn [set_members set_epochs si_Amount si_Clients si_Partners]. by rewrite Hsum.
Qed.

Lemma active_ok s : staker_ok s -> staker_ok (active cfg s) /\ stake_total (active cfg s) = stake_total s.
Proof. intros Hs. unfold active. case_match; [by apply activate_ok|done]. Qed.

Lemma staying_ok s : staker_ok s -> staker_ok (staying epochID s).
Proof.
  intros Hs. pose proof Hs as []. apply set_members_ok; try done.
  - by apply Forall_keep.
  - by apply NoDup_keep.
  - by apply Forall_keep.
  - by apply NoDup_keep.
  - pose proof (length_filter (fun p => partnerDue epochID p = false) (si_Partners s)). unfold len in *. lia.
  - pose proof (paid_leaving s) as Hp. unfold stake_total, clientsTotal, partnersTotal in *.
    cbn [staying set_members si_Amount si_Clients si_Partners] in Hp.
    assert (0 <= paid (leaving_refunds epochID s)); [|lia]. unfold leaving_refunds.
    rewrite paid_app, paid_clients, paid_partners. apply Z.add_nonneg_nonneg; apply sumOf_nonneg, Forall_keep.
    + eapply Forall_impl; [|exact so_clients]. intros c (? & _). unfold minDelegatorStake, ether in *. lia.
    + eapply Forall_impl; [|exact so_partners]. by intros p (? & _).
Qed.

Lemma renewPartners_ok n ps : lock_ok n -> Forall partner_ok ps -> Forall partner_ok (renewPartner epochID n <$> ps).
Proof.
  intros Hn Hps. apply Forall_fmap. eapply Forall_impl; [|exact Hps]. intros p (? & ? & ? & ?). pose proof (lock_le n Hn).
  unfold compose, renewPartner. case_match; [|done]. split; [done|]. split; [by apply weighted_mul|]. split; [done|apply u64_fits].
Qed.

Lemma renew_ok s : staker_ok s ->
  let s' := (renew epochID s).1 in
  staker_ok s' /\ stake_total s' = stake_total s /\ si_Address s' = si_Address s /\ si_FeeRate s' = si_FeeRate s /\
  si_From s' = si_From s /\ si_Amount s' = si_Amount s.
Proof.
  intros Hs. unfold renew. case_match; [|done]. set (n := si_NextLockEpochs s). set (r := renewPartner epochID n).
  pose proof Hs as []. fold n in so_next.
  assert (forall ps, sumOf pi_Amount (r <$> ps) = sumOf pi_Amount ps) as Hsum.
  { intros ps. induction ps as [|p ps IH]; [done|]. rewrite fmap_cons, !sumOf_cons, IH. f_equal.
    unfold r, renewPartner. by case_match. }
  assert (forall ps : list PartnerInfo, pi_Address <$> (r <$> ps) = pi_Address <$> ps) as Haddr.
  { intros ps. rewrite <- list_fmap_compose. apply list_fmap_ext. intros _ p _. unfold r, compose, renewPartner. by case_match. }
  assert (forall s0, staker_ok s0 -> si_Partners s0 = si_Partners s -> si_Clients s0 = si_Clients s -> si_Amount s0 = si_Amount s ->
    staker_ok (set_members s0 (si_Clients s0) (r <$> si_Partners s0)) /\
    stake_total (set_members s0 (si_Clients s0) (r <$> si_Partners s0)) = stake_total s) as Hgo.
  { intros s0 Hs0 Hp Hc Ha. rewrite Hp, Hc. split.
    - apply set_members_ok; try done.
      + by apply renewPartners_ok.
      + by rewrite Haddr.
      + unfold len in *. by rewrite length_fmap.
      + rewrite Hsum, Ha. done.
    - unfold stake_total, clientsTotal, partnersTotal. cbn [set_members si_Amount si_Clients si_Partners]. by rewrite Hsum, Ha. }
  destruct (Z.eqb_spec n 0) as [Hn|Hn]; cbn [negb fst].
  - destruct (Hgo s) as [? ?]; [done..|]. split_and!; done.
  - destruct (Hgo (set_epochs (set_amounts s (si_Amount s) (si_Amount s * s64 (CalLocktimeWeight n))) n n
                    (u64 (epochID + JoinDelay)))) as [? ?]; [|done..|split_and!; done].
    apply set_epochs_ok; [|done|done|apply u64_fits]. apply set_amounts_ok; try done.
    apply weighted_mul; [done|]. by apply lock_le.
Qed.

Lemma active_fields s : si_Address (active cfg s) = si_Address s /\ si_FeeRate (active cfg s) = si_FeeRate s /\
  si_From (active cfg s) = si_From s /\ si_Amount (active cfg s) = si_Amount s /\
  si_LockEpochs (active cfg s) = si_LockEpochs s /\ si_NextLockEpochs (active cfg s) = si_NextLockEpochs s /\
  si_Clients (active cfg s) = si_Clients s.
Proof. unfold active. by case_match. Qed.

Lemma filter_none {A} (f : A -> bool) l : existsb f l = false -> filter (fun x => f x = true) l = [].
Proof.
  induction l as [|x l IH]; [done|]. cbn [existsb]. intros [Hx Hl]%orb_false_iff.
  rewrite filter_cons_False by congruence. auto.
Qed.

Lemma refunds_nonneg s : staker_ok s -> Forall (fun r => 0 <= rf_Amount r) (refunds cfg epochID s).
Proof.
  intros Hs. destruct (active_ok s Hs) as [Hact _].
  assert (forall cs, Forall client_ok cs -> Forall (fun r => 0 <= rf_Amount r) (client_refund <$> cs)) as Hc.
  { intros cs Hcs. apply Forall_fmap. eapply Forall_impl; [|exact Hcs]. intros c (? & _).
    unfold compose, minDelegatorStake, ether in *. cbn. lia. }
  assert (forall ps, Forall partner_ok ps -> Forall (fun r => 0 <= rf_Amount r) (partner_refund <$> ps)) as Hp.
  { intros ps Hps. apply Forall_fmap. eapply Forall_impl; [|exact Hps]. by intros p (? & _). }
  assert (forall s0, staker_ok s0 -> Forall (fun r => 0 <= rf_Amount r) (all_refunds s0)) as Hall.
  { intros s0 []. unfold all_refunds. rewrite !Forall_app. split_and!; [auto|auto|by constructor]. }
  unfold refunds. case_match; [done|]. apply Forall_app. split.
  - destruct Hact. apply Forall_app. split; [apply Hc|apply Hp]; by apply Forall_keep.
  - case_match; [|done]. by apply Hall, staying_ok.
Qed.

Lemma outcome_ok s : staker_ok s ->
  match next cfg epochID s with
  | Keep => refunds cfg epochID s = []
  | Remove => paid (refunds cfg epochID s) = stake_total s
  | Store s' => staker_ok s' /\ si_Address s' = si_Address s /\ si_FeeRate s' = si_FeeRate s /\
                stake_total s' = stake_total s - paid (refunds cfg epochID s)
  end.
Proof.
  intros Hs. destruct (active_ok s Hs) as [Hact Htot]. pose proof (staying_ok _ Hact) as Hst.
  pose proof (paid_leaving (active cfg s)) as Hleave. destruct (active_fields s) as (Ha & Hf & _).
  unfold next, refunds. destruct (si_LockEpochs s =? 0); [done|]. cbv zeta. destruct (expired _ _).
  { rewrite paid_app, paid_all. lia. }
  rewrite app_nil_r. destruct (renew_ok _ Hst) as (Hok & Hr1 & Hr2 & Hr3 & _).
  destruct (renew epochID (staying epochID (active cfg s))) as [s' renewed]. cbn [fst] in *.
  destruct (_ || existsb _ (si_Clients _)) eqn:Ech.
  - split_and!; [done|by rewrite Hr2|by rewrite Hr3|lia].
  - rewrite !orb_false_iff in Ech. destruct Ech as [[[_ _] Hp] Hc]. unfold leaving_refunds.
    by rewrite !filter_none.
Qed.
End Consistent.
