(* ===== verification/StakeOutSafety.v ===== *)
(** StakeOutRun pays what is due: weakest preconditions of its loops in terms
    of the updates of StakeOutSpec. *)

From S2P Require Import Prelude BigMath Encoding VmData VmState StateSpec Rlp RlpSpec RlpDecode RlpCodec Ota.
From S2P Require Import Staking StakingCodec StakingSpec Instructions Evm EvmInv StakingSafety EvmSafety TransitionSafety StakingCall StakeOut StakeOutSpec.
Import Big Common Staking StakeOut.

(** * Updates of the refunds *)

Abbreviation pool := WanCscPrecompileAddr.

Lemma pays_simple l : Forall (fun r => 0 <= rf_Amount r) l -> Forall simple_update (pays l).
Proof. induction 1; [constructor|]. by repeat constructor. Qed.

Lemma record_simple cfg epochID s : Forall simple_update (record_updates cfg epochID s).
Proof. unfold record_updates. case_match; by repeat constructor. Qed.

Lemma pays_app l k : pays (l ++ k) = pays l ++ pays k.
Proof. apply flat_map_app. Qed.

Lemma paid_nonneg l : Forall (fun r => 0 <= rf_Amount r) l -> 0 <= paid l.
Proof. apply sumOf_nonneg. Qed.

Lemma paid_to_app a l k : paid_to a (l ++ k) = paid_to a l + paid_to a k.
Proof. apply sumOf_app. Qed.

Lemma paid_to_nonneg a l : Forall (fun r => 0 <= rf_Amount r) l -> 0 <= paid_to a l.
Proof.
  intros Hl. apply sumOf_nonneg. eapply Forall_impl; [|exact Hl]. intros r Hr. cbv beta in *. case_decide; lia.
Qed.

Lemma paid_to_elem l r : Forall (fun r => 0 <= rf_Amount r) l -> r ∈ l -> rf_Amount r <= paid_to (rf_Addr r) l.
Proof.
  intros Hl Hr. pose proof (sumOf_part (fun x => if decide (rf_Addr x = rf_Addr r) then rf_Amount x else 0) l r) as H.
  cbn in H. rewrite decide_True in H by done. apply H; [|done].
  eapply Forall_impl; [|exact Hl]. intros x Hx. cbv beta in *. case_decide; lia.
Qed.

(** What refunds do to an account. *)
Lemma pays_effect l a c : Forall (fun r => 0 <= rf_Amount r) l ->
  fold_left (fun c u => effect u a c) (pays l) c =
  with_balance (fun n => n - (if decide (pool = a) then paid l else 0) + paid_to a l) c.
Proof.
  intros Hl. revert c. induction Hl as [|r l Hr Hl IH]; intros c.
  - cbn. unfold paid, paid_to, sumOf. cbn. destruct c. unfold with_balance. cbn. f_equal. case_decide; lia.
  - change (pays (r :: l)) with ([USubBalance pool (rf_Amount r); UAddBalance (rf_Addr r) (rf_Amount r)] ++ pays l).
    rewrite fold_left_app, IH. unfold paid, paid_to. rewrite !sumOf_cons. cbn [fold_left effect].
    destruct c. unfold with_balance. repeat case_decide; cbn; f_equal; lia.
Qed.

Lemma record_effect_balance cfg epochID s a c :
  a_balance (fold_left (fun c u => effect u a c) (record_updates cfg epochID s) c) = a_balance c.
Proof. unfold record_updates. repeat case_match; cbn; repeat case_decide; done. Qed.

Section Loop.
Context {db : Type} `{!StateDB db} (hash : list byte -> Hash) `{!StateDBSpec db hash}.
Context (cfg : PosConfig.Config).
Abbreviation M := (ST db vmerror).
Implicit Types (d : db) (F : vmerror -> db -> Prop).

(** The database moves and the abstract state changes by the updates. *)
Record does (us : list update) d d' : Prop := {
  does_moves : moves d d';
  does_state : static_eq (run_updates us (abs d)) (abs d');
}.

Lemma does_refl d : db_ok d -> does [] d d.
Proof. intros Hd. split; [by apply moves_refl|reflexivity]. Qed.

Lemma does_trans us vs d d' d'' : Forall simple_update vs -> does us d d' -> does vs d' d'' -> does (us ++ vs) d d''.
Proof.
  intros Hvs [Hm Hs] [Hm' Hs']. split; [by eapply moves_trans|]. rewrite run_updates_app.
  trans (run_updates vs (abs d')); [|done]. by apply static_updates.
Qed.

Lemma does_update d u : db_ok d -> does [u] d (apply_update u d).
Proof. intros Hd. split; [by apply moves_update, moves_refl|]. cbn. by rewrite update_abs. Qed.

(** The balance of the pool after refunds. *)
Lemma does_pool l d d' : Forall (fun r => 0 <= rf_Amount r) l -> does (pays l) d d' ->
  balance_of (abs d) pool - paid l <= balance_of (abs d') pool.
Proof.
  intros Hl [_ Hs]. rewrite (static_balance _ _ _ Hs). unfold balance_of.
  rewrite run_effects by by apply pays_simple. rewrite pays_effect by done. cbn.
  rewrite decide_True by done. pose proof (paid_to_nonneg pool l Hl). lia.
Qed.

Lemma coreTransfer_wp to amount d (Q : unit -> db -> Prop) F :
  db_ok d -> amount <= balance_of (abs d) pool ->
  (forall d', does (pays [mkRefund to amount]) d d' -> Q tt d') -> wp (coreTransfer pool to amount) Q F d.
Proof.
  intros Hd Hle HQ. apply wp_modify. unfold CanTransfer. rewrite (GetBalance_spec (hash:=hash)) by done.
  fold (balance_of (abs d) pool). destruct (Z.geb_spec (balance_of (abs d) pool) amount); [|lia]. apply HQ.
  split; [by apply Transfer_moves, moves_refl|]. by destruct (Transfer_abs d pool to amount Hd) as [_ ->].
Qed.

Lemma settle_wp {A} (due : A -> bool) addr amount infos l d (Q : list A * list RefundInfo * bool -> db -> Prop) F :
  let rs := (fun x => mkRefund (addr x) (amount x)) <$> filter (fun x => due x = true) l in
  db_ok d -> Forall (fun x => 0 <= amount x) l -> paid rs <= balance_of (abs d) pool ->
  (forall d', does (pays rs) d d' -> Q (filter (fun x => due x = false) l, infos ++ rs, existsb due l) d') ->
  wp (settle due addr amount infos l) Q F d.
Proof.
  intros rs Hd Hl. subst rs. revert infos d Hd Q. induction Hl as [|x l Hx Hl IH]; intros infos d Hd Q Hle HQ.
  { apply wp_ret. rewrite app_nil_r in HQ. by apply HQ, does_refl. }
  assert (forall b, Forall (fun r => 0 <= rf_Amount r)
    ((fun x => mkRefund (addr x) (amount x)) <$> filter (fun x => due x = b) l)) as Hpos.
  { intros b. apply Forall_fmap. by apply Forall_keep. }
  cbn [settle existsb] in *. destruct (due x) eqn:Edue; cbn [orb] in HQ.
  - rewrite filter_cons_True, fmap_cons in Hle, HQ by done. rewrite filter_cons_False in HQ by congruence.
    change (?r :: ?l) with ([r] ++ l) in Hle, HQ. rewrite paid_app in Hle. rewrite pays_app in HQ.
    assert (0 <= paid ((fun x => mkRefund (addr x) (amount x)) <$> filter (fun x => due x = true) l)) by by apply paid_nonneg.
    change (paid [mkRefund (addr x) (amount x)]) with (amount x + 0) in Hle.
    apply wp_bind, coreTransfer_wp; [done|lia|]. intros d' Hd'. apply wp_bind, IH; [apply Hd'| |].
    + pose proof (does_pool [mkRefund (addr x) (amount x)] d d') as Hpool.
      change (paid [mkRefund (addr x) (amount x)]) with (amount x + 0) in Hpool.
      specialize (Hpool ltac:(by constructor) Hd'). lia.
    + intros d'' Hd''. apply wp_ret. unfold recordStakeOut. rewrite <- app_assoc. apply HQ.
      eapply does_trans; [by apply pays_simple|exact Hd'|exact Hd''].
  - rewrite filter_cons_False in Hle, HQ by congruence. rewrite filter_cons_True in HQ by done.
    apply wp_bind, IH; [done..|]. intros d' Hd'. apply wp_ret. by apply HQ.
Qed.

Lemma settle_all_wp {A} addr amount infos (l : list A) d (Q : list A * list RefundInfo * bool -> db -> Prop) F :
  let rs := (fun x => mkRefund (addr x) (amount x)) <$> l in
  db_ok d -> Forall (fun x => 0 <= amount x) l -> paid rs <= balance_of (abs d) pool ->
  (forall d' kept changed, does (pays rs) d d' -> Q (kept, infos ++ rs, changed) d') ->
  wp (settle (fun _ => true) addr amount infos l) Q F d.
Proof.
  intros rs Hd Hl Hle HQ. assert (filter (fun x => (fun _ : A => true) x = true) l = l) as Hall.
  { clear. induction l as [|x l IH]; [done|]. rewrite filter_cons_True by done. by f_equal. }
  apply settle_wp; rewrite ?Hall; auto.
Qed.

Lemma wp_ignore (m : M unit) d (Q : unit -> db -> Prop) F :
  wp m Q (fun _ d' => Q tt d') d -> wp (ignore m) Q F d.
Proof. unfold wp, ignore. by destruct (m d) as [[] ?|? ?| |]. Qed.

Lemma UpdateInfo_wp a k v d (Q : unit -> db -> Prop) F :
  k <> emptyHash -> Q tt (apply_update (USetStateByteArray a k v) d) -> wp (ignore (UpdateInfo a k v)) Q F d.
Proof. intros Hk HQ. apply wp_ignore. unfold UpdateInfo, StoreInfo. rewrite bool_decide_false by done. by apply wp_modify. Qed.

(** Fee records are not empty, so a record that is read as empty is absent. *)
Definition solid_fees (s : astate) : Prop := map_Forall (fun _ b => len b <> 0) (fees s).

Lemma clear_absent s a k : bytes_of s a !! k = None -> static_eq (abs_update (USetStateByteArray a k []) s) s.
Proof.
  intros Hk. symmetry. apply static_on_account. unfold with_bytes. cbn. unfold bytes_of in Hk.
  destruct (acct s a). cbn in *. by rewrite delete_id.
Qed.

Lemma removeStaker_wp s d (Q : unit -> db -> Prop) F :
  db_ok d -> GetStakeInKeyHash (si_Address s) <> emptyHash -> solid_fees (abs d) ->
  (forall d', does [put_staker s []; put_fee (si_Address s) []] d d' -> Q tt d') -> wp (removeStaker s) Q F d.
Proof.
  intros Hd Hk Hf HQ. unfold removeStaker. set (k := GetStakeInKeyHash (si_Address s)) in *.
  apply wp_bind, UpdateInfo_wp; [done|]. change (USetStateByteArray _ k []) with (put_staker s []). set (d1 := apply_update (put_staker s []) d).
  assert (does [put_staker s []] d d1) as H1 by by apply does_update.
  apply wp_bind, (GetInfoBytes_wp hash); [apply H1| |done]. intros _.
  assert (bytes_of (abs d1) StakersFeeAddr = fees (abs d)) as ->.
  { unfold d1. rewrite update_abs by done. unfold put_staker. rewrite bytes_of_clear.
    destruct staking_addrs as (? & _). by rewrite decide_False. }
  destruct (fees (abs d) !! k) as [b|] eqn:Eb; cbn [default from_option id].
  - specialize (Hf k b Eb). cbn in Hf. destruct (Z.eqb_spec (len b) 0); [done|]. cbn [negb].
    apply UpdateInfo_wp; [done|]. apply HQ. apply (does_trans [_] [_] d d1); [by repeat constructor|done|].
    by apply does_update, H1.
  - apply wp_ret, HQ. destruct H1 as [Hm Hs]. split; [done|]. etrans; [|exact Hs].
    cbn [run_updates fold_left]. apply clear_absent.
    unfold put_staker. rewrite bytes_of_clear. destruct staking_addrs as (? & _). by rewrite decide_False.
Qed.

Lemma member_amounts s : staker_ok s ->
  Forall (fun c => 0 <= ci_Amount c) (si_Clients s) /\ Forall (fun p => 0 <= pi_Amount p) (si_Partners s).
Proof.
  intros []. split.
  - eapply Forall_impl; [|exact so_clients]. intros c (? & _). unfold minDelegatorStake, ether in *. lia.
  - eapply Forall_impl; [|exact so_partners]. by intros p (? & _).
Qed.

Lemma does_solid us d d' : does us d d' -> fees (run_updates us (abs d)) ⊆ fees (abs d) -> solid_fees (abs d) -> solid_fees (abs d').
Proof.
  intros [_ Hs] Hsub Hf k b. unfold fees. rewrite (static_bytes _ _ _ Hs). intros Hk. apply (Hf k).
  by eapply lookup_weaken; [exact Hk|].
Qed.

Lemma pays_bytes l s a : bytes_of (run_updates (pays l) s) a = bytes_of s a.
Proof.
  revert s. induction l as [|r l IH]; intros s; [done|].
  change (pays (r :: l)) with ([USubBalance pool (rf_Amount r); UAddBalance (rf_Addr r) (rf_Amount r)] ++ pays l).
  rewrite run_updates_app, IH. cbn [run_updates fold_left]. by rewrite !bytes_of_keep.
Qed.

Lemma pool_left l k d d' : does (pays l) d d' -> paid (l ++ k) <= balance_of (abs d) pool ->
  Forall (fun r => 0 <= rf_Amount r) l -> paid k <= balance_of (abs d') pool.
Proof. intros Hd Hle Hl. revert Hle. pose proof (does_pool l d d' Hl Hd). rewrite paid_app. lia. Qed.

Lemma paid_prefix l k n : Forall (fun r => 0 <= rf_Amount r) k -> paid (l ++ k) <= n -> paid l <= n.
Proof. intros Hk. pose proof (paid_nonneg k Hk). rewrite paid_app. lia. Qed.

Lemma does_pays l k d d' d'' : Forall (fun r => 0 <= rf_Amount r) k -> does (pays l) d d' -> does (pays k) d' d'' ->
  does (pays (l ++ k)) d d''.
Proof. intros Hk Hl Hk'. rewrite pays_app. eapply does_trans; [by apply pays_simple|exact Hl|exact Hk']. Qed.

(** The settlements of the members that are due. *)
Lemma leave_wp epochID infos s d F
    (k : list RefundInfo -> list ClientInfo -> bool -> list PartnerInfo -> bool -> M (option (list RefundInfo))) Q :
  db_ok d -> staker_ok s -> paid (leaving_refunds epochID s) <= balance_of (abs d) pool ->
  (forall d', does (pays (leaving_refunds epochID s)) d d' ->
     wp (k (infos ++ leaving_refunds epochID s) (si_Clients (staying epochID s)) (existsb (clientDue epochID) (si_Clients s))
           (si_Partners (staying epochID s)) (existsb (partnerDue epochID) (si_Partners s))) Q F d') ->
  wp ('(newClients, infos, clientChanged) ← settle (clientDue epochID) ci_Address ci_Amount infos (si_Clients s);
      '(newPartners, infos, partnerchanged) ← settle (partnerDue epochID) pi_Address pi_Amount infos (si_Partners s);
      k infos newClients clientChanged newPartners partnerchanged) Q F d.
Proof.
  intros Hd Hs Hle HQ. destruct (member_amounts s Hs) as [Hc Hp].
  assert (Forall (fun r => 0 <= rf_Amount r) (client_refund <$> filter (fun c => clientDue epochID c = true) (si_Clients s))).
  { apply Forall_fmap. by apply Forall_keep. }
  assert (Forall (fun r => 0 <= rf_Amount r) (partner_refund <$> filter (fun p => partnerDue epochID p = true) (si_Partners s))).
  { apply Forall_fmap. by apply Forall_keep. }
  apply wp_bind, settle_wp; [done|done|by eapply paid_prefix|]. intros d1 H1.
  apply wp_bind, settle_wp; [apply H1|done|by apply (pool_left _ _ _ _ H1 Hle)|]. intros d2 H2.
  rewrite <- app_assoc. apply HQ. by apply does_pays with d1.
Qed.

(** The settlement of a validator whose time is over. *)
Lemma quit_wp infos s d (Q : option (list RefundInfo) -> db -> Prop) F :
  db_ok d -> staker_ok s -> GetStakeInKeyHash (si_Address s) <> emptyHash -> solid_fees (abs d) ->
  paid (all_refunds s) <= balance_of (abs d) pool ->
  (forall d', does (pays (all_refunds s) ++ [put_staker s []; put_fee (si_Address s) []]) d d' ->
     Q (Some (infos ++ all_refunds s)) d') ->
  wp ('(_, infos, _) ← settle (fun _ => true) ci_Address ci_Amount infos (si_Clients s);
      '(_, infos, _) ← settle (fun _ => true) pi_Address pi_Amount infos (si_Partners s);
      coreTransfer WanCscPrecompileAddr (si_From s) (si_Amount s);;
      removeStaker s;;
      mret (Some (recordStakeOut infos (si_From s) (si_Amount s)))) Q F d.
Proof.
  intros Hd Hs Hk Hf Hle HQ. destruct (member_amounts s Hs) as [Hc Hp]. unfold all_refunds in *.
  set (cs := client_refund <$> si_Clients s) in *. set (ps := partner_refund <$> si_Partners s) in *.
  set (own := [mkRefund (si_From s) (si_Amount s)]) in *.
  assert (Forall (fun r => 0 <= rf_Amount r) cs) as Hcs by by apply Forall_fmap.
  assert (Forall (fun r => 0 <= rf_Amount r) ps) as Hps by by apply Forall_fmap.
  assert (Forall (fun r => 0 <= rf_Amount r) own) as Hown by by constructor; [apply so_amount|].
  apply wp_bind, settle_all_wp; [done|done|eapply paid_prefix; [|exact Hle]; by apply Forall_app|].
  intros d1 _ _ H1. pose proof (pool_left _ _ _ _ H1 Hle ltac:(done)) as Hle1.
  apply wp_bind, settle_all_wp; [apply H1|done|by eapply paid_prefix|].
  intros d2 _ _ H2. pose proof (pool_left _ _ _ _ H2 Hle1 ltac:(done)) as Hle2. unfold own, paid in Hle2. rewrite sumOf_cons in Hle2.
  apply wp_bind, coreTransfer_wp; [apply H2|cbn in Hle2; unfold sumOf in Hle2; cbn in Hle2; lia|]. intros d3 H3.
  assert (does (pays (cs ++ ps ++ own)) d d3) as H03.
  { apply does_pays with d1; [by apply Forall_app|done|]. by apply does_pays with d2. }
  apply wp_bind, removeStaker_wp; [apply H3|done| |].
  { eapply does_solid; [exact H03| |done]. unfold fees. by rewrite pays_bytes. }
  intros d4 H4. apply wp_ret. unfold recordStakeOut. rewrite <- !app_assoc. apply HQ.
  eapply does_trans; [by repeat constructor|exact H03|exact H4].
Qed.

Lemma codes_encoding s : staker_ok s -> codes s (encoding s).
Proof. intros Hs. destruct (staker_codes s Hs) as [b Hb]. unfold codes, encoding in *. by rewrite Hb. Qed.

Lemma stakeOutOne_wp epochID infos s d (Q : option (list RefundInfo) -> db -> Prop) F :
  db_ok d -> staker_ok s -> GetStakeInKeyHash (si_Address s) <> emptyHash -> solid_fees (abs d) ->
  paid (refunds cfg epochID s) <= balance_of (abs d) pool ->
  (forall d', does (staker_updates cfg epochID s) d d' -> Q (Some (infos ++ refunds cfg epochID s)) d') ->
  wp (stakeOutOne cfg epochID infos s) Q F d.
Proof.
  intros Hd Hs Hk Hf Hle HQ. pose proof (refunds_nonneg cfg epochID s Hs) as Hpos.
  pose proof (outcome_ok cfg epochID s Hs) as Hout. destruct (active_ok cfg s Hs) as [Hact _].
  pose proof (staying_ok epochID _ Hact) as Hst. destruct (active_fields cfg s) as (Haddr & _).
  unfold stakeOutOne. unfold staker_updates, record_updates, refunds, next in *.
  destruct (si_LockEpochs s =? 0).
  { apply wp_ret. rewrite !app_nil_r in HQ. by apply HQ, does_refl. }
  assert ((if si_StakingEpoch s =? 0 then (activate cfg s, true) else (s, false)) = (active cfg s, si_StakingEpoch s =? 0))
    as -> by (unfold active; by destruct (si_StakingEpoch s =? 0)).
  cbv zeta in *. set (s1 := active cfg s) in *. apply Forall_app in Hpos as [Hpos1 Hpos2].
  apply (leave_wp epochID infos s1 d); [done|done|by eapply paid_prefix|]. intros d1 H1. cbv beta.
  pose proof (pool_left _ _ _ _ H1 Hle Hpos1) as Hle1.
  change (set_members s1 (si_Clients (staying epochID s1)) (si_Partners (staying epochID s1))) with (staying epochID s1).
  set (s2 := staying epochID s1) in *. change (si_Address s1) with (si_Address s2) in Haddr.
  assert (solid_fees (abs d1)) as Hf1 by (eapply does_solid; [exact H1| |done]; unfold fees; by rewrite pays_bytes).
  destruct (expired epochID s2).
  - apply quit_wp; [apply H1|done|by rewrite Haddr|done|done|]. intros d2 H2. rewrite <- app_assoc. apply HQ.
    rewrite pays_app, <- app_assoc. unfold put_staker in *. rewrite Haddr in H2.
    eapply does_trans; [|exact H1|exact H2]. apply Forall_app. split; [by apply pays_simple|by repeat constructor].
  - rewrite app_nil_r in *. destruct (renew epochID s2) as [s3 renewed] eqn:Er.
    destruct (_ || existsb _ (si_Clients s1)).
    + destruct Hout as (Hok & Ha3 & _). apply wp_bind. eapply wp_must; [by apply codes_encoding|].
      apply wp_bind, UpdateInfo_wp; [by rewrite Ha3|]. apply wp_ret, HQ.
      eapply does_trans; [by repeat constructor|exact H1|]. apply does_update, H1.
    + apply wp_ret. rewrite app_nil_r in HQ. by apply HQ.
Qed.

(** The records that are visited: well formed, with keys of their own. *)
Definition visited (l : list StakerInfo) : Prop :=
  Forall (fun s => staker_ok s /\ GetStakeInKeyHash (si_Address s) <> emptyHash) l.

Lemma refunds_le epochID s : staker_ok s -> paid (refunds cfg epochID s) <= stake_total s.
Proof.
  intros Hs. pose proof (outcome_ok cfg epochID s Hs) as Hout. pose proof (stake_nonneg s Hs).
  destruct (next cfg epochID s) as [| |s'] eqn:E.
  - rewrite Hout. cbn. unfold paid, sumOf. cbn. lia.
  - lia.
  - destruct Hout as (Hs' & _ & _ & ?). pose proof (stake_nonneg s' Hs'). lia.
Qed.

Lemma staker_fees epochID s st : fees (run_updates (staker_updates cfg epochID s) st) ⊆ fees st.
Proof.
  unfold staker_updates. rewrite run_updates_app. set (st1 := run_updates (pays _) st).
  assert (fees st1 = fees st) as <- by apply pays_bytes. clearbody st1. destruct staking_addrs as (Hne & _).
  unfold record_updates, fees. destruct (next cfg epochID s) as [| |s'] eqn:E; cbn [run_updates fold_left]; [done|..].
  - unfold put_fee, put_staker. rewrite !bytes_of_clear. rewrite decide_True, decide_False by done. apply delete_subseteq.
  - unfold put_staker, bytes_of. rewrite effect_acct by done. cbn [effect]. by rewrite decide_False.
Qed.

Lemma staker_simple epochID s : staker_ok s -> Forall simple_update (staker_updates cfg epochID s).
Proof. intros Hs. apply Forall_app. split; [by apply pays_simple, refunds_nonneg|apply record_simple]. Qed.

Lemma visited_simple epochID l : visited l -> Forall simple_update (l ≫= staker_updates cfg epochID).
Proof. induction 1 as [|s l [Hs _] Hl IH]; [constructor|]. cbn. apply Forall_app. split; [by apply staker_simple|exact IH]. Qed.

Lemma staker_pool epochID s d d' : staker_ok s -> does (staker_updates cfg epochID s) d d' ->
  balance_of (abs d) pool - stake_total s <= balance_of (abs d') pool.
Proof.
  intros Hs [_ Hst]. pose proof (refunds_nonneg cfg epochID s Hs) as Hpos. pose proof (refunds_le epochID s Hs).
  rewrite (static_balance _ _ _ Hst). unfold balance_of.
  rewrite run_effects by by apply staker_simple. unfold staker_updates.
  rewrite fold_left_app, record_effect_balance, pays_effect by done. cbn. rewrite decide_True by done.
  pose proof (paid_to_nonneg pool _ Hpos). lia.
Qed.

Lemma stakeOutAll_wp epochID infos l d (Q : option (list RefundInfo) -> db -> Prop) F :
  db_ok d -> visited l -> solid_fees (abs d) -> sumOf stake_total l <= balance_of (abs d) pool ->
  (forall d', does (l ≫= staker_updates cfg epochID) d d' -> Q (Some (infos ++ (l ≫= refunds cfg epochID))) d') ->
  wp (stakeOutAll (stakeOutOne cfg epochID) infos l) Q F d.
Proof.
  intros Hd Hl. revert infos d Hd Q. induction Hl as [|s l [Hs Hk] Hl IH]; intros infos d Hd Q Hf Hle HQ.
  { apply wp_ret. cbn in HQ. rewrite app_nil_r in HQ. by apply HQ, does_refl. }
  rewrite sumOf_cons in Hle. cbn [stakeOutAll].
  assert (0 <= sumOf stake_total l).
  { apply sumOf_nonneg. eapply Forall_impl; [|exact Hl]. intros s' [? _]. by apply stake_nonneg. }
  apply wp_bind, stakeOutOne_wp; [done|done|done|done|pose proof (refunds_le epochID s Hs); lia|].
  intros d1 H1. pose proof (staker_pool epochID s d d1 Hs H1).
  apply IH; [apply H1|by eapply does_solid; [exact H1|apply staker_fees|]|lia|]. intros d2 H2. rewrite <- app_assoc. apply HQ.
  eapply does_trans; [by apply visited_simple|exact H1|exact H2].
Qed.
End Loop.
