(* ===== verification/StakeOutRefine.v ===== *)
(** StakeOutRun as a function of the abstract state.

    [after_account] gives every account after the run in closed form: it does
    not mention the order in which the validators are visited, and the run
    refines it for every order. *)

From S2P Require Import Prelude BigMath Encoding VmData VmState StateSpec Rlp RlpSpec RlpDecode RlpCodec Ota.
From S2P Require Import Staking StakingCodec StakingSpec Instructions Evm EvmInv StakingSafety EvmSafety TransitionSafety StakingCall.
From S2P Require Import StakeOut StakeOutSpec StakeOutSafety.
Import Big Common Staking StakeOut.

(** * The records of a state *)

Definition dec (b : list byte) : option StakerInfo :=
  match rlpDecode b with Some (inl s) => Some s | _ => None end.
Definition staker_key (s : StakerInfo) : Hash := GetStakeInKeyHash (si_Address s).
Definition records_of (s : astate) : list StakerInfo := omap (fun kv => dec kv.2) (map_to_list (stakers s)).

(** * The result in closed form *)

Section Result.
Context (cfg : PosConfig.Config) (epochID : Z).

(** All refunds of a run. *)
Definition payout (s : astate) : list RefundInfo := records_of s ≫= refunds cfg epochID.

(** What becomes of an entry under the key of validator [st] at address [a]. *)
Definition fate (st : StakerInfo) (a : Address) (entry : option (list byte)) : option (list byte) :=
  match next cfg epochID st with
  | Keep => entry
  | Remove => if decide (a = StakersInfoAddr \/ a = StakersFeeAddr) then None else entry
  | Store st' => if decide (a = StakersInfoAddr) then Some (encoding st') else entry
  end.

Definition after_bytes (s : astate) (a : Address) : gmap Hash (list byte) :=
  map_imap (fun k b => match stakers s !! k ≫= dec with Some st => fate st a (Some b) | None => Some b end)
    (bytes_of s a).

Definition after_account (s : astate) (a : Address) : account :=
  let c := acct s a in
  let c' := mkAccount (a_nonce c)
    (a_balance c - (if decide (pool = a) then paid (payout s) else 0) + paid_to a (payout s))
    (a_code c) (a_storage c) (after_bytes s a) (a_suicided c) in
  if decide (StakingCommonAddr = a) then with_bytes StakersInfoStakeOutKeyHash (Bytes (s64 epochID)) c' else c'.

Definition stake_out_result (s s' : astate) : Prop :=
  (forall a, acct s' a = after_account s a) /\ refund s' = refund s /\ logs s' = logs s /\
  logSize s' = logSize s /\ txinfo s' = txinfo s.

(** ** The effect of the updates on an account *)

Definition paid_balance (a : Address) (l : list RefundInfo) (c : account) : Z :=
  a_balance c - (if decide (pool = a) then paid l else 0) + paid_to a l.

Lemma with_bytes_alter k v c : with_bytes k v c =
  mkAccount (a_nonce c) (a_balance c) (a_code c) (a_storage c)
    (partial_alter (fun _ => if len v =? 0 then None else Some v) k (a_bytes c)) (a_suicided c).
Proof. unfold with_bytes. by destruct (len v =? 0). Qed.

Lemma staker_effect st a c : staker_ok st ->
  fold_left (fun c u => effect u a c) (staker_updates cfg epochID st) c =
  mkAccount (a_nonce c) (paid_balance a (refunds cfg epochID st) c) (a_code c) (a_storage c)
    (partial_alter (fate st a) (staker_key st) (a_bytes c)) (a_suicided c).
Proof.
  intros Hs. unfold staker_updates. rewrite fold_left_app, pays_effect by by apply refunds_nonneg.
  change (with_balance _ c) with
    (mkAccount (a_nonce c) (paid_balance a (refunds cfg epochID st) c) (a_code c) (a_storage c) (a_bytes c) (a_suicided c)).
  pose proof (outcome_ok cfg epochID st Hs) as Hout. destruct staking_addrs as (Hne & _).
  assert (forall (g : option (list byte) -> option (list byte)) k (m : gmap Hash (list byte)),
    (forall o, g o = o) -> partial_alter g k m = m) as Hid.
  { intros g k m Hg. apply map_eq. intros i. rewrite lookup_partial_alter. case_decide; subst; by rewrite ?Hg. }
  unfold record_updates, fate. destruct (next cfg epochID st) as [| |st'] eqn:E; cbn [fold_left].
  - by rewrite Hid.
  - unfold put_staker, put_fee, staker_key. cbn [effect].
    destruct (decide (a = StakersInfoAddr \/ a = StakersFeeAddr)) as [[->| ->]|Hn].
    + by repeat (case_decide; [try congruence|try congruence]).
    + by repeat (case_decide; [try congruence|try congruence]).
    + rewrite !decide_False by intuition congruence. by rewrite Hid.
  - destruct Hout as (Hok & Haddr & _). unfold put_staker, staker_key. rewrite Haddr. cbn [effect].
    destruct (staker_decode st' _ Hok (codes_encoding st' Hok)) as [_ Hlen].
    destruct (decide (a = StakersInfoAddr)) as [->|Hn].
    + rewrite decide_True, with_bytes_alter by done. cbn [a_nonce a_balance a_code a_storage a_bytes a_suicided].
      by destruct (Z.eqb_spec (len (encoding st')) 0).
    + rewrite decide_False by congruence. by rewrite Hid.
Qed.

Lemma visited_effect l a c : visited l ->
  fold_left (fun c u => effect u a c) (l ≫= staker_updates cfg epochID) c =
  mkAccount (a_nonce c) (paid_balance a (l ≫= refunds cfg epochID) c) (a_code c) (a_storage c)
    (fold_left (fun m st => partial_alter (fate st a) (staker_key st) m) l (a_bytes c)) (a_suicided c).
Proof.
  intros Hl. revert c. induction Hl as [|st l [Hst _] Hl IH]; intros c.
  - destruct c. unfold paid_balance, paid, paid_to, sumOf. cbn. f_equal. case_decide; lia.
  - cbn [mbind list_bind fold_left]. rewrite fold_left_app, staker_effect by done.
    change (list_bind _ _ (staker_updates cfg epochID) l) with (l ≫= staker_updates cfg epochID). rewrite IH.
    cbn [a_nonce a_balance a_code a_storage a_bytes a_suicided]. f_equal.
    change (list_bind _ _ (refunds cfg epochID) l) with (l ≫= refunds cfg epochID).
    unfold paid_balance. cbn [a_balance]. rewrite paid_app, paid_to_app. case_decide; lia.
Qed.

(** ** Alterations under different keys *)

Lemma alter_other (l : list StakerInfo) a k (m : gmap Hash (list byte)) : k ∉ (staker_key <$> l) ->
  fold_left (fun m st => partial_alter (fate st a) (staker_key st) m) l m !! k = m !! k.
Proof.
  revert m. induction l as [|st l IH]; intros m; [done|]. rewrite fmap_cons, not_elem_of_cons. intros [Hk Hl].
  cbn [fold_left]. by rewrite IH, lookup_partial_alter_ne.
Qed.

Lemma alter_one (l : list StakerInfo) a st (m : gmap Hash (list byte)) : NoDup (staker_key <$> l) -> st ∈ l ->
  fold_left (fun m st => partial_alter (fate st a) (staker_key st) m) l m !! staker_key st = fate st a (m !! staker_key st).
Proof.
  revert m. induction l as [|st' l IH]; intros m Hnd Hin; [by apply not_elem_of_nil in Hin|].
  rewrite fmap_cons in Hnd. apply list.NoDup_cons in Hnd as [Hk Hnd]. cbn [fold_left].
  apply elem_of_cons in Hin as [->|Hin].
  - by rewrite alter_other, lookup_partial_alter_eq.
  - rewrite IH by done. rewrite lookup_partial_alter_ne; [done|]. intros Heq. apply Hk. rewrite Heq.
    by apply list_elem_of_fmap_2.
Qed.
End Result.

(** * The records under the invariant *)

Lemma dec_staker s k b st : staker_at s k b st -> dec b = Some st.
Proof. intros (_ & Hb & _ & _ & Hst). unfold dec. by destruct (staker_decode st b Hst Hb) as [-> _]. Qed.

Lemma staker_at_key s k b st : staker_at s k b st -> k = staker_key st.
Proof. by intros (_ & _ & -> & _). Qed.

Lemma records_elem s st : staking_inv s -> st ∈ records_of s <-> exists b, staker_at s (staker_key st) b st.
Proof.
  intros Hi. unfold records_of. rewrite list_elem_of_omap. split.
  - intros ([k b] & Hkb%elem_of_map_to_list & Hdec). cbn in Hdec. destruct (inv_stakers s Hi k b Hkb) as [st' Hat].
    rewrite (dec_staker _ _ _ _ Hat) in Hdec. injection Hdec as ->. exists b. by rewrite <- (staker_at_key _ _ _ _ Hat).
  - intros [b Hat]. exists (staker_key st, b). split; [|by eapply dec_staker]. apply elem_of_map_to_list. apply Hat.
Qed.

Lemma records_keys s : staking_inv s -> staker_key <$> records_of s = (map_to_list (stakers s)).*1.
Proof.
  intros Hi. unfold records_of.
  assert (Forall (fun kv => exists st, staker_at s kv.1 kv.2 st) (map_to_list (stakers s))) as Hall.
  { apply Forall_forall. intros [k b] Hin%list_elem_of_In%elem_of_map_to_list. by apply inv_stakers. }
  induction Hall as [|[k b] l [st Hat] Hl IH]; [done|]. cbn [omap list_omap fst snd] in *.
  rewrite (dec_staker _ _ _ _ Hat). rewrite !fmap_cons. f_equal; [|done]. by rewrite <- (staker_at_key _ _ _ _ Hat).
Qed.

Lemma records_NoDup s : staking_inv s -> NoDup (staker_key <$> records_of s).
Proof. intros Hi. rewrite records_keys by done. apply NoDup_fst_map_to_list. Qed.

Lemma records_visited s : staking_inv s -> visited (records_of s).
Proof.
  intros Hi. apply Forall_forall. intros st Hin%list_elem_of_In. apply records_elem in Hin as [b Hat]; [|done].
  by pose proof Hat as (_ & _ & _ & ? & ?).
Qed.

(** A sum over the records. *)
Lemma records_sum s (f : StakerInfo -> Z) : 
  sumOf f (records_of s) = map_sum (fun b => from_option f 0 (dec b)) (stakers s).
Proof.
  rewrite map_sum_list. unfold records_of. induction (map_to_list (stakers s)) as [|[k b] l IH]; [done|].
  cbn [omap list_omap snd]. rewrite sumOf_cons. cbn [snd]. destruct (dec b) as [st|]; cbn [from_option].
  - rewrite sumOf_cons. by rewrite <- IH.
  - by rewrite <- IH.
Qed.

Lemma stake_in_dec b : stake_in b = from_option stake_total 0 (dec b).
Proof. unfold stake_in, dec. by destruct (rlpDecode b) as [[]|]. Qed.

Lemma records_total s : sumOf stake_total (records_of s) = recorded s.
Proof. rewrite records_sum. unfold recorded. rewrite !map_sum_list. apply sumOf_ext. intros [k b] _. by rewrite stake_in_dec. Qed.

(** * Every order gives the result *)

Section Order.
Context (cfg : PosConfig.Config) (epochID : Z).

Lemma after_bytes_lookup s a k :
  after_bytes cfg epochID s a !! k =
  b ← bytes_of s a !! k; match stakers s !! k ≫= dec with Some st => fate cfg epochID st a (Some b) | None => Some b end.
Proof. unfold after_bytes. by rewrite map_lookup_imap. Qed.

Lemma order_bytes s l a : staking_inv s -> l ≡ₚ records_of s ->
  fold_left (fun m st => partial_alter (fate cfg epochID st a) (staker_key st) m) l (bytes_of s a) = after_bytes cfg epochID s a.
Proof.
  intros Hi Hl. apply map_eq. intros k. rewrite after_bytes_lookup.
  assert (NoDup (staker_key <$> l)) as Hnd by (rewrite Hl; by apply records_NoDup).
  destruct (stakers s !! k) as [b|] eqn:Ek.
  - destruct (inv_stakers s Hi k b Ek) as [st Hat]. cbn [mbind option_bind]. rewrite (dec_staker _ _ _ _ Hat).
    pose proof (staker_at_key _ _ _ _ Hat). subst k.
    rewrite alter_one; [|done|rewrite Hl; by apply records_elem; [done|exists b]].
    destruct (bytes_of s a !! staker_key st) as [b'|] eqn:Ea; [done|]. cbn. unfold fate.
    destruct (next cfg epochID st); [done|by case_decide|]. case_decide; [|done]. subst a. unfold stakers in Ek. congruence.
  - cbn [mbind option_bind]. rewrite alter_other; [by destruct (bytes_of s a !! k)|]. rewrite Hl, records_keys by done.
    intros ([k' b] & -> & Hin%elem_of_map_to_list)%list_elem_of_fmap. cbn in Ek. congruence.
Qed.

Lemma common_kept l (m : gmap Hash (list byte)) :
  fold_left (fun m st => partial_alter (fate cfg epochID st StakingCommonAddr) (staker_key st) m) l m = m.
Proof.
  destruct staking_addrs as (_ & Hn1 & Hn2). revert m. induction l as [|st l IH]; intros m; [done|].
  cbn [fold_left]. rewrite IH. apply map_eq. intros i. rewrite lookup_partial_alter. case_decide; [|done]. subst. unfold fate.
  destruct (next cfg epochID st); [done|rewrite decide_False; intuition congruence|by rewrite decide_False].
Qed.

Lemma paid_perm l k : l ≡ₚ k -> paid l = paid k.
Proof. apply sumOf_perm. Qed.

(** The run on the abstract state: the epoch, then the validators in some order. *)
Lemma order_result s s' l : staking_inv s -> l ≡ₚ records_of s ->
  static_eq (run_updates (USetStateByteArray StakingCommonAddr StakersInfoStakeOutKeyHash (Bytes (s64 epochID))
                          :: (l ≫= staker_updates cfg epochID)) s) s' ->
  stake_out_result cfg epochID s s'.
Proof.
  intros Hi Hl Hs. set (u := USetStateByteArray _ _ _) in *. set (us := u :: _) in *.
  assert (visited l) as Hv by (unfold visited; rewrite Hl; by apply records_visited).
  assert (Forall simple_update us) as Hsim by (constructor; [done|by apply visited_simple]).
  destruct (run_rest us s Hsim) as (? & ? & ? & ?). destruct Hs as (Ha & ? & ? & ? & ?).
  split; [|split_and!; congruence]. intros a. rewrite Ha, run_effects by done. unfold us. cbn [fold_left].
  rewrite visited_effect by done. unfold u, after_account, payout. cbn [effect].
  assert ((l ≫= refunds cfg epochID) ≡ₚ (records_of s ≫= refunds cfg epochID)) as Hp by by rewrite Hl.
  unfold paid_balance. rewrite (paid_perm _ _ Hp). unfold paid_to. rewrite (sumOf_perm _ _ _ Hp).
  destruct (decide (StakingCommonAddr = a)) as [<-|Hne].
  - rewrite <- (order_bytes s l _ Hi Hl), !common_kept. done.
  - by rewrite <- (order_bytes s l a Hi Hl).
Qed.
End Order.

(** * The run *)

Lemma dec_empty : rlpDecode (A:=StakerInfo) [] <> None /\ dec [] = None.
Proof. unfold dec. by vm_compute. Qed.

Lemma dec_filter (l : list (Hash * list byte)) :
  omap (fun e => dec e.2) l = omap (fun e => dec e.2) (filter (fun e => len e.2 <> 0) l).
Proof.
  induction l as [|[k b] l IH]; [done|]. destruct (decide (len b <> 0)) as [Hb|Hb].
  - rewrite filter_cons_True by done. cbn [omap list_omap snd]. destruct (dec b); by rewrite IH.
  - rewrite filter_cons_False by done. cbn [omap list_omap snd]. destruct b; [|rewrite len_cons in Hb; pose proof (len_nonneg b0); lia].
    destruct dec_empty as [_ ->]. done.
Qed.

Section Run.
Context {db : Type} `{!StateDB db} `{!StateIter db} (hash : list byte -> Hash) `{!StateDBSpec db hash}.
Context `{!StateIterSpec db hash} (cfg : PosConfig.Config).
Implicit Types d : db.

Lemma decodeAll_ok entries d : Forall (fun e : Hash * list byte => rlpDecode (A:=StakerInfo) e.2 <> None) entries ->
  decodeAll entries d = Ok (omap (fun e => dec e.2) entries) d.
Proof.
  induction 1 as [|[k b] l Hb Hl IH]; [done|]. cbn [decodeAll omap list_omap snd] in *. unfold dec at 1.
  destruct (rlpDecode b) as [r|]; [|done]. cbn [must]. unfold mbind at 1, ST_bind at 1. cbn.
  erewrite bind_Ok by exact IH. by destruct r.
Qed.

Lemma GetStakersSnap_ok d : db_ok d -> staking_inv (abs d) ->
  exists l, GetStakersSnap d = Ok l d /\ l ≡ₚ records_of (abs d).
Proof.
  intros Hd Hi. pose proof (ForEach_spec d StakersInfoAddr Hd) as Hperm. exists (omap (fun e => dec e.2) (ForEachStorageByteArray d StakersInfoAddr)).
  split.
  - unfold GetStakersSnap. erewrite bind_Ok by reflexivity. apply decodeAll_ok, Forall_forall.
    intros [k b] Hin%list_elem_of_In. cbn. destruct (decide (len b <> 0)) as [Hb|Hb].
    + assert ((k, b) ∈ map_to_list (bytes_of (abs d) StakersInfoAddr)) as Hkb%elem_of_map_to_list.
      { rewrite <- Hperm. by apply list_elem_of_filter. }
      destruct (inv_stakers _ Hi k b Hkb) as (st & _ & Hc & _ & _ & Hst).
      by destruct (staker_decode st b Hst Hc) as [-> _].
    + destruct b; [apply dec_empty|]. rewrite len_cons in Hb. pose proof (len_nonneg b0). lia.
  - rewrite dec_filter, Hperm. done.
Qed.

(** The last epoch for which the run was made. *)
Definition last_epoch (s : astate) : Z := Uint64 (SetBytes (default [] (bytes_of s StakingCommonAddr !! StakersInfoStakeOutKeyHash))).

Lemma out_key : StakersInfoStakeOutKeyHash <> emptyHash.
Proof. by apply (bool_decide_unpack _); vm_compute. Qed.

Lemma StakeoutIsFinished_ok epochID d : db_ok d -> StakeoutIsFinished epochID d = Ok (last_epoch (abs d) >=? epochID) d.
Proof.
  intros Hd. unfold StakeoutIsFinished, GetInfo. rewrite bool_decide_false by apply out_key. cbn.
  by rewrite (GetStateByteArray_spec (hash:=hash)).
Qed.

Lemma inv_solid s : staking_inv s -> solid_fees s.
Proof.
  intros Hi k b Hk. destruct (inv_fees s Hi k b Hk) as (f & st & b' & Hc & Hf & _). by destruct (fee_decode f b Hf Hc).
Qed.

Lemma StakeOutRun_ok epochID d : db_ok d -> staking_inv (abs d) -> funded (abs d) -> last_epoch (abs d) < epochID ->
  exists infos d', StakeOutRun cfg epochID d = Ok (true, Some infos) d' /\ moves d d' /\
    infos ≡ₚ payout cfg epochID (abs d) /\ stake_out_result cfg epochID (abs d) (abs d').
Proof.
  intros Hd Hi Hfund Hep. unfold StakeOutRun. erewrite bind_Ok by by apply StakeoutIsFinished_ok.
  destruct (Z.geb_spec (last_epoch (abs d)) epochID); [lia|]. cbv iota.
  set (u := USetStateByteArray StakingCommonAddr StakersInfoStakeOutKeyHash (Bytes (s64 epochID))).
  set (d1 := apply_update u d).
  assert (StakeoutSetEpoch epochID d = Ok tt d1) as Hset.
  { unfold StakeoutSetEpoch, ignore, StoreInfo. rewrite bool_decide_false by apply out_key. done. }
  erewrite bind_Ok by exact Hset. assert (does hash [u] d d1) as H1 by by apply does_update.
  assert (abs d1 = abs_update u (abs d)) as Ha1 by by apply update_abs.
  assert (static_eq (abs_update u (abs d)) (abs d1)) as Hs1 by by rewrite Ha1.
  destruct staking_addrs as (_ & Hn1 & Hn2).
  assert (forall a, a <> StakingCommonAddr -> acct (abs d1) a = acct (abs d) a) as Hacct.
  { intros a Hne. rewrite Ha1, effect_acct by done. unfold u. cbn [effect]. by rewrite decide_False by congruence. }
  assert (stakers (abs d1) = stakers (abs d)) as Hst1 by (unfold stakers, bytes_of; by rewrite Hacct).
  assert (fees (abs d1) = fees (abs d)) as Hfe1 by (unfold fees, bytes_of; by rewrite Hacct).
  destruct (staking_inv_same (abs d) (abs d1) Hst1 Hfe1 Hi) as [Hi1 Hr1].
  destruct (GetStakersSnap_ok d1) as (l & Hl & Hperm); [apply H1|done|]. erewrite bind_Ok by exact Hl.
  assert (records_of (abs d1) = records_of (abs d)) as Hrec by (unfold records_of; by rewrite Hst1).
  rewrite Hrec in Hperm.
  assert (visited l) as Hv by (unfold visited; rewrite Hperm; by apply records_visited).
  pose (m := stakeOutAll (stakeOutOne cfg epochID) [] l).
  assert (wp m (fun r d' => r = Some (l ≫= refunds cfg epochID) /\ does hash (l ≫= staker_updates cfg epochID) d1 d')
    (fun _ _ => False) d1) as Hwp.
  { apply (stakeOutAll_wp hash); [apply H1|done|by apply inv_solid| |done].
    rewrite (sumOf_perm _ _ _ Hperm), records_total. unfold funded, balance_of in *. rewrite Hacct; [done|].
    by apply (bool_decide_unpack _); vm_compute. }
  unfold wp in Hwp. fold m. destruct (m d1) as [r d2| | |] eqn:Em; try done. destruct Hwp as [-> H2].
  exists (l ≫= refunds cfg epochID), d2. erewrite bind_Ok by exact Em.
  assert (does hash (u :: (l ≫= staker_updates cfg epochID)) d d2) as [Hm2 Hs2].
  { apply (does_trans hash [u] _ d d1 d2); [by apply visited_simple|done|done]. }
  split; [done|]. split; [done|]. split; [unfold payout; by rewrite Hperm|].
  by eapply order_result; [done|exact Hperm|exact Hs2].
Qed.

(** A second run for the same epoch changes nothing. *)
Lemma StakeOutRun_done epochID d : db_ok d -> epochID <= last_epoch (abs d) -> StakeOutRun cfg epochID d = Ok (true, None) d.
Proof.
  intros Hd Hep. unfold StakeOutRun. erewrite bind_Ok by by apply StakeoutIsFinished_ok.
  by destruct (Z.geb_spec (last_epoch (abs d)) epochID); [|lia].
Qed.
End Run.

(** * The records after the run *)

Lemma map_sum_imap {K V} `{Countable K} (g h : V -> Z) (f : K -> V -> option V) (m : gmap K V) :
  (forall k v, m !! k = Some v -> from_option g 0 (f k v) = g v - h v) ->
  map_sum g (map_imap f m) = map_sum g m - map_sum h m.
Proof.
  induction m as [|k v m Hm IH] using map_ind; intros Hf; [by rewrite map_imap_empty|].
  rewrite map_imap_insert, !map_sum_insert by done.
  assert (map_imap f m !! k = None) as Hk by (rewrite map_lookup_imap, Hm; done).
  pose proof (Hf k v (lookup_insert_eq _ _ _)) as Hkv. specialize (IH ltac:(intros k' v' Hk'; apply Hf;
    rewrite lookup_insert_ne; [done|congruence])).
  destruct (f k v) as [w|]; cbn [from_option] in Hkv.
  - rewrite map_sum_insert by done. lia.
  - rewrite delete_id by done. lia.
Qed.

Section After.
Context (cfg : PosConfig.Config) (epochID : Z).

Lemma result_bytes s s' a : stake_out_result cfg epochID s s' -> a <> StakingCommonAddr ->
  bytes_of s' a = after_bytes cfg epochID s a.
Proof. intros (Ha & _) Hne. unfold bytes_of. rewrite Ha. unfold after_account. by rewrite decide_False by congruence. Qed.

Lemma result_balance s s' a : stake_out_result cfg epochID s s' ->
  balance_of s' a = balance_of s a - (if decide (pool = a) then paid (payout cfg epochID s) else 0)
                    + paid_to a (payout cfg epochID s).
Proof.
  intros (Ha & _). unfold balance_of. rewrite Ha. unfold after_account. by destruct (decide (StakingCommonAddr = a)).
Qed.

(** The record of a validator after the run. *)
Lemma result_staker s s' k b st : staking_inv s -> stake_out_result cfg epochID s s' -> staker_at s k b st ->
  match next cfg epochID st with
  | Keep => staker_at s' k b st
  | Remove => stakers s' !! k = None
  | Store st' => staker_at s' k (encoding st') st'
  end.
Proof.
  intros Hi Hr Hat. destruct staking_addrs as (_ & Hn1 & _). pose proof Hat as (Hk & Hb & Hkey & Hne & Hst).
  assert (stakers s' !! k = fate cfg epochID st StakersInfoAddr (Some b)) as Hs'.
  { unfold stakers. rewrite (result_bytes s s') by done. rewrite after_bytes_lookup. fold (stakers s). rewrite Hk.
    cbn [mbind option_bind]. by rewrite (dec_staker _ _ _ _ Hat). }
  pose proof (outcome_ok cfg epochID st Hst) as Hout. unfold fate in Hs'. destruct (next cfg epochID st) as [| |st'] eqn:E.
  - by split.
  - rewrite Hs'. by rewrite decide_True by auto.
  - destruct Hout as (Hok & Haddr & _). rewrite decide_True in Hs' by done. split; [done|].
    rewrite Haddr. split_and!; [by apply codes_encoding|done..].
Qed.

Lemma result_old s s' k b : staking_inv s -> stake_out_result cfg epochID s s' -> stakers s' !! k = Some b ->
  exists b0 st0, staker_at s k b0 st0.
Proof.
  intros Hi Hr. destruct staking_addrs as (_ & Hn1 & _). unfold stakers. rewrite (result_bytes s s') by done.
  rewrite after_bytes_lookup. fold (stakers s). destruct (stakers s !! k) as [b0|] eqn:E; [|done]. intros _.
  destruct (inv_stakers s Hi k b0 E) as [st0 ?]. by exists b0, st0.
Qed.

Lemma payout_paid s : staking_inv s ->
  paid (payout cfg epochID s) = map_sum (fun b => from_option (fun st => paid (refunds cfg epochID st)) 0 (dec b)) (stakers s).
Proof.
  intros Hi. rewrite <- records_sum. unfold payout. induction (records_of s) as [|st l IH]; [done|].
  rewrite sumOf_cons, <- IH. cbn [mbind list_bind]. by rewrite paid_app.
Qed.

Lemma result_inv s s' : staking_inv s -> stake_out_result cfg epochID s s' ->
  staking_inv s' /\ recorded s' = recorded s - paid (payout cfg epochID s).
Proof.
  intros Hi Hr. destruct staking_addrs as (Hn0 & Hn1 & Hn2). split; [split|].
  - intros k b Hk. destruct (result_old s s' k b Hi Hr Hk) as (b0 & st0 & Hat).
    pose proof (result_staker s s' k b0 st0 Hi Hr Hat) as H. destruct (next cfg epochID st0) as [| |st']; [|congruence|].
    + exists st0. by replace b with b0 by (destruct H as [H _]; congruence).
    + exists st'. by replace b with (encoding st') by (destruct H as [H _]; congruence).
  - intros k b. unfold fees. rewrite (result_bytes s s') by done. rewrite after_bytes_lookup. fold (fees s).
    destruct (fees s !! k) as [b0|] eqn:Ek; [|done]. cbn [mbind option_bind].
    destruct (inv_fees s Hi k b0 Ek) as (f & st & b' & Hc & Hf & Hkey & Hat & Hrate).
    pose proof (result_staker s s' k b' st Hi Hr Hat) as H. pose proof Hat as (-> & _ & _ & _ & Hst). cbn [mbind option_bind].
    rewrite (dec_staker _ _ _ _ Hat). pose proof (outcome_ok cfg epochID st Hst) as Hout. unfold fate.
    destruct (next cfg epochID st) as [| |st'] eqn:E.
    + intros [= <-]. by exists f, st, b'.
    + by rewrite decide_True by auto.
    + rewrite decide_False by congruence. intros [= <-]. destruct Hout as (_ & _ & Hfee & _). exists f, st', (encoding st').
      split_and!; try done. congruence.
  - rewrite payout_paid by done. unfold recorded at 1. unfold stakers at 1. rewrite (result_bytes s s') by done.
    unfold after_bytes. fold (stakers s). apply map_sum_imap. intros k b Hk. rewrite Hk. cbn [mbind option_bind].
    destruct (inv_stakers s Hi k b Hk) as [st Hat]. rewrite stake_in_dec, (dec_staker _ _ _ _ Hat). cbn [from_option].
    pose proof Hat as (_ & _ & _ & _ & Hst). pose proof (outcome_ok cfg epochID st Hst) as Hout. unfold fate.
    destruct (next cfg epochID st) as [| |st'] eqn:E; cbn [from_option].
    + rewrite stake_in_dec, (dec_staker _ _ _ _ Hat), Hout. cbn [from_option]. unfold paid, sumOf. cbn. lia.
    + rewrite decide_True by auto. cbn [from_option]. lia.
    + destruct Hout as (Hok & _ & _ & Htot). rewrite decide_True by done. cbn [from_option].
      rewrite (stake_in_staker st') by (done || by apply codes_encoding). lia.
Qed.

Lemma payout_nonneg s : staking_inv s -> Forall (fun r => 0 <= rf_Amount r) (payout cfg epochID s).
Proof.
  intros Hi. unfold payout. pose proof (records_visited s Hi) as Hv. induction Hv as [|st l [Hst _] Hl IH]; [constructor|].
  cbn [mbind list_bind]. apply Forall_app. split; [by apply refunds_nonneg|exact IH].
Qed.

Lemma result_funded s s' : staking_inv s -> stake_out_result cfg epochID s s' -> funded s -> funded s'.
Proof.
  intros Hi Hr Hf. destruct (result_inv s s' Hi Hr) as [_ Hrec]. unfold funded in *.
  rewrite Hrec, (result_balance s s' pool Hr), decide_True by done.
  pose proof (paid_to_nonneg pool _ (payout_nonneg s Hi)). lia.
Qed.

Lemma payout_bound s s' : staking_inv s -> stake_out_result cfg epochID s s' -> paid (payout cfg epochID s) <= recorded s.
Proof. intros Hi Hr. destruct (result_inv s s' Hi Hr) as [Hi' Hrec]. pose proof (recorded_nonneg s' Hi'). lia. Qed.

Lemma result_state s s' : state_ok s -> staking_inv s -> funded s -> stake_out_result cfg epochID s s' -> state_ok s'.
Proof.
  intros Hs Hi Hf Hr. pose proof (payout_bound s s' Hi Hr) as Hle. pose proof Hr as (Ha & Href & _).
  split; [|rewrite Href; apply Hs]. intros a c Hc. assert (acct s' a = c) as <- by (unfold acct; by rewrite Hc).
  rewrite Ha. destruct (acct_ok s a Hs) as (Hb & ? & ?). pose proof (paid_to_nonneg a _ (payout_nonneg s Hi)).
  unfold funded, balance_of in Hf.
  assert (0 <= a_balance (acct s a) - (if decide (pool = a) then paid (payout cfg epochID s) else 0)) as Hnn.
  { destruct (decide (pool = a)) as [<-|]; lia. }
  unfold account_ok, after_account. destruct (decide (StakingCommonAddr = a));
    cbn [with_bytes a_balance a_nonce a_code]; split_and!; try done; lia.
Qed.

Lemma result_last s s' : 0 <= epochID < 2 ^ 63 -> stake_out_result cfg epochID s s' -> last_epoch s' = epochID.
Proof.
  intros He (Ha & _). unfold last_epoch, bytes_of. rewrite Ha. unfold after_account. rewrite decide_True by done.
  unfold with_bytes. cbn [a_bytes]. rewrite s64_small by lia. destruct (Z.eqb_spec (len (Bytes epochID)) 0) as [Hz|Hz].
  - rewrite lookup_delete_eq. apply len_nil_iff in Hz. pose proof (SetBytes_Bytes epochID) as HB. rewrite Hz in HB.
    cbn [default from_option id]. rewrite HB. rewrite Uint64_small by lia. lia.
  - rewrite lookup_insert_eq. cbn [default from_option id]. rewrite SetBytes_Bytes. rewrite Uint64_small by lia. lia.
Qed.

(** The result is a function of the state, up to accounts that do not exist. *)
Lemma result_static s1 s2 s1' s2' : static_eq s1 s2 ->
  stake_out_result cfg epochID s1 s1' -> stake_out_result cfg epochID s2 s2' -> static_eq s1' s2'.
Proof.
  intros Hs (Ha1 & ? & ? & ? & ?) (Ha2 & ? & ? & ? & ?). pose proof Hs as (Ha & ? & ? & ? & ?).
  split; [|split_and!; congruence]. intros a. rewrite Ha1, Ha2. unfold after_account, after_bytes, payout, records_of, stakers.
  by rewrite !(static_bytes _ _ _ Hs), Ha.
Qed.
End After.
