(* ===== verification/StakingHistory.v ===== *)
(** Histories of the staking contract: transactions that call it, runs of
    StakeOutRun at the end of epochs, and other transactions, in any order.

    Every state of a history is solvent, and the stake of a validator that does
    not renew is returned by the first run after its lock time. *)

From S2P Require Import Prelude BigMath Encoding VmData VmState StateSpec Rlp RlpSpec RlpDecode RlpCodec Ota.
From S2P Require Import Staking StakingCodec StakingSpec Instructions Evm EvmInv StakingSafety EvmSafety TransitionSafety StakingCall.
From S2P Require Import StakeOut StakeOutSpec StakeOutSafety StakeOutRefine.
Import Big Common Staking StakeOut.

(** The environment in another block. *)
Definition at_block {db} `{!StateDB db} (env : Env db) (x : Context) : Env db :=
  mkEnv db x (cfg env) (abort env) (Keccak256Hash env) (CreateAddress env) (precompiles env).

(** * Steps *)

Inductive event :=
| ECall (caller : Address) (input : list byte) (v : Z)
| EStakeOut (epochID : Z)
| EOther.

Section History.
Context {db : Type} `{!StateDB db} `{!StateIter db} (env : Env db) `{!StateDBSpec db (Keccak256Hash env)}.
Context `{!StateIterSpec db (Keccak256Hash env)} (posCfg : PosConfig.Config).
Abbreviation hash := (Keccak256Hash env).
Implicit Types d : db.

(** What other transactions leave alone: the records, and the money of the
    contract, which has no code to spend it. *)
Definition unrelated (s s' : astate) : Prop :=
  bytes_of s' StakersInfoAddr = bytes_of s StakersInfoAddr /\ bytes_of s' StakersFeeAddr = bytes_of s StakersFeeAddr /\
  bytes_of s' StakingCommonAddr = bytes_of s StakingCommonAddr /\ balance_of s pool <= balance_of s' pool.

(** Nobody sends a transaction from the address of the contract. *)
Inductive step (d : db) : event -> db -> Prop :=
| step_call x fuel caller input gas v e ret left err e' :
    statedb e = d -> depth e = 0 -> RefAddress caller <> pool -> 0 <= v -> 0 <= gas < 2 ^ 64 -> len input < 2 ^ 62 ->
    evmCall (at_block env x) (run (at_block env x) (S fuel)) caller pool input gas v e = Ok (ret, left, err) e' ->
    step d (ECall (RefAddress caller) input v) (statedb e')
| step_out epochID r d' : StakeOutRun posCfg epochID d = Ok r d' -> step d (EStakeOut epochID) d'
| step_other d' : db_ok d' -> state_ok (abs d') -> unrelated (abs d) (abs d') -> step d EOther d'.

Inductive history (d : db) : list event -> db -> Prop :=
| history_nil : history d [] d
| history_snoc evs ev d1 d2 : history d evs d1 -> step d1 ev d2 -> history d (evs ++ [ev]) d2.

(** The states of a history: well formed, with consistent records that are
    covered by the money of the contract. *)
Record solvent d : Prop := {
  sv_db : db_ok d;
  sv_state : state_ok (abs d);
  sv_inv : staking_inv (abs d);
  sv_funded : funded (abs d);
}.

Context (Henv : staking_env env posCfg).

(** A call as a step. *)
Lemma call_step d x fuel caller input gas v e ret left err e' :
  solvent d -> statedb e = d -> depth e = 0 -> 0 <= v -> 0 <= gas < 2 ^ 64 -> len input < 2 ^ 62 ->
  evmCall (at_block env x) (run (at_block env x) (S fuel)) caller pool input gas v e = Ok (ret, left, err) e' ->
  db_ok (statedb e') /\ state_ok (abs (statedb e')) /\
  match err with
  | None => call_result env (RefAddress caller) input v (abs d) (abs (statedb e'))
  | Some _ => abs (statedb e') = abs d
  end.
Proof.
  intros [Hd Hs Hi _] <- Hdep Hv Hg Hin Hcall.
  assert (staking_env (at_block env x) posCfg) as Henv' by (destruct Henv; by split).
  destruct (stake_call_ok (at_block env x) posCfg Henv' fuel caller input gas v e) as (left' & err' & e'' & Hcall' & H);
    [done..|]. rewrite Hcall in Hcall'. injection Hcall' as -> -> -> ->. exact H.
Qed.

Lemma step_solvent d ev d' : solvent d -> step d ev d' -> solvent d'.
Proof.
  intros Hsv Hstep. pose proof Hsv as [Hd Hs Hi Hf]. destruct Hstep as
    [x fuel caller input gas v e ret left err e' He Hdep Hne Hv Hg Hin Hcall|epochID r d' Hrun|d' Hd' Hs' (H1 & H2 & H3 & H4)].
  - destruct (call_step d x fuel caller input gas v e ret left err e') as (? & ? & Hres); [done..|].
    destruct err; [split; rewrite ?Hres; done|]. destruct Hres as (? & Hr & Hb & _). split; try done. unfold funded in *.
    rewrite Hr, Hb. rewrite decide_False, decide_True by done. case_match; lia.
  - destruct (Z.lt_ge_cases (last_epoch (abs d)) epochID) as [Hlt|Hge].
    + destruct (StakeOutRun_ok hash posCfg epochID d Hd Hi Hf Hlt) as (infos & d2 & Hrun2 & Hm & _ & Hres).
      rewrite Hrun in Hrun2. injection Hrun2 as _ <-. destruct (result_inv _ _ _ _ Hi Hres). split; [apply Hm|..].
      * exact (result_state _ _ _ _ Hs Hi Hf Hres).
      * done.
      * exact (result_funded _ _ _ _ Hi Hres Hf).
    + rewrite (StakeOutRun_done hash) in Hrun by done. by injection Hrun as _ <-.
  - destruct (staking_inv_same (abs d) (abs d')) as [? Hr]; [done..|]. split; try done. unfold funded in *. lia.
Qed.

Lemma history_solvent d evs d' : solvent d -> history d evs d' -> solvent d'.
Proof. intros Hsv. induction 1 as [|evs ev d1 d2 _ IH Hstep]; [done|]. by eapply step_solvent. Qed.

(** * A validator that does not renew *)

Definition expiry (st : StakerInfo) : Z := u64 (si_StakingEpoch (active posCfg st) + si_LockEpochs st).

(** What stays of its record. *)
Record locked (st0 st : StakerInfo) : Prop := {
  lk_from : si_From st = si_From st0;
  lk_amount : si_Amount st0 <= si_Amount st;
  lk_lock : si_LockEpochs st = si_LockEpochs st0;
  lk_next : si_NextLockEpochs st = 0;
  lk_start : si_StakingEpoch (active posCfg st) = si_StakingEpoch (active posCfg st0);
}.

Lemma guarded_locked caller st0 st st' : guarded caller st st' -> si_From st0 <> caller -> locked st0 st -> locked st0 st'.
Proof.
  intros [Ho Ha [Hl Hs] Ht _ _] Hne [Lf La Ll Ln Ls]. destruct Ht as (_ & _ & Hn & _); [congruence|].
  split; try congruence; [lia|]. rewrite <- Ls. unfold active. rewrite Hs. by destruct (_ =? 0).
Qed.

Lemma active_lock st : si_LockEpochs (active posCfg st) = si_LockEpochs st.
Proof. unfold active. by destruct (_ =? 0). Qed.

(** Activation happens once. *)
Lemma active_again st st' : si_StakingEpoch st' = si_StakingEpoch (active posCfg st) ->
  si_StakingEpoch (active posCfg st') = si_StakingEpoch (active posCfg st).
Proof.
  intros H. unfold active at 1. destruct (Z.eqb_spec (si_StakingEpoch st') 0) as [H0|]; [|done].
  unfold active in *. destruct (Z.eqb_spec (si_StakingEpoch st) 0); [done|lia].
Qed.

Lemma expired_locked epochID st0 st : locked st0 st ->
  expired epochID (staying epochID (active posCfg st)) = (epochID >=? expiry st0).
Proof.
  intros [Lf La Ll Ln Ls]. unfold expired, expiry. cbn [staying set_members si_StakingEpoch si_LockEpochs].
  by rewrite active_lock, Ls, Ll.
Qed.

(** A run before the end of the lock time keeps the record. *)
Lemma run_locked epochID st0 st : locked st0 st -> epochID < expiry st0 ->
  match next posCfg epochID st with Keep => True | Remove => False | Store st' => locked st0 st' end.
Proof.
  intros Hl He. unfold next. destruct (si_LockEpochs st =? 0); [done|]. cbv zeta.
  rewrite (expired_locked _ st0) by done. destruct (Z.geb_spec epochID (expiry st0)); [lia|].
  pose proof Hl as [Lf La Ll Ln Ls]. destruct (active_fields posCfg st) as (_ & _ & Af & Aa & Al & An & _).
  assert (forall cs ps, locked st0 (set_members (staying epochID (active posCfg st)) cs ps)) as Hmem.
  { intros cs ps. split; cbn [set_members staying si_From si_Amount si_LockEpochs si_NextLockEpochs]; try congruence.
    rewrite <- Ls. by apply active_again. }
  destruct (renew epochID (staying epochID (active posCfg st))) as [st' renewed] eqn:Er.
  assert (locked st0 st') as Hst'.
  { revert Er. unfold renew. destruct (_ >=? _).
    - cbn [staying set_members si_NextLockEpochs]. rewrite An, Ln. cbn [negb Z.eqb]. intros [= <- _]. apply Hmem.
    - intros [= <- _]. exact (Hmem (si_Clients (staying epochID (active posCfg st))) (si_Partners (staying epochID (active posCfg st)))). }
  by destruct (_ || _).
Qed.

(** The first run after it removes the record and pays the owner. *)
Lemma run_returns epochID st0 st : locked st0 st -> si_LockEpochs st0 <> 0 -> expiry st0 <= epochID ->
  next posCfg epochID st = Remove /\ mkRefund (si_From st0) (si_Amount st) ∈ refunds posCfg epochID st.
Proof.
  intros Hl Hlock He. unfold next, refunds. destruct (Z.eqb_spec (si_LockEpochs st) 0) as [H0|_].
  { rewrite (lk_lock _ _ Hl) in H0. done. }
  cbv zeta. rewrite (expired_locked _ st0) by done. destruct (Z.geb_spec epochID (expiry st0)); [|lia].
  split; [done|]. destruct (active_fields posCfg st) as (_ & _ & Af & Aa & _).
  apply elem_of_app. right. unfold all_refunds. do 2 (apply elem_of_app; right). apply list_elem_of_singleton.
  cbn [staying set_members si_From si_Amount]. rewrite Af, Aa. by rewrite (lk_from _ _ Hl).
Qed.

(** The owner makes no call, and no run is made after the lock time. *)
Definition quiet_event (st0 : StakerInfo) (ev : event) : Prop :=
  match ev with
  | ECall caller _ _ => si_From st0 <> caller
  | EStakeOut epochID => epochID < expiry st0
  | EOther => True
  end.

Lemma step_locked d ev d' k st0 : solvent d -> step d ev d' -> quiet_event st0 ev ->
  (exists b st, staker_at (abs d) k b st /\ locked st0 st) -> exists b st, staker_at (abs d') k b st /\ locked st0 st.
Proof.
  intros Hsv Hstep Hq (b & st & Hat & Hl). pose proof Hsv as [Hd Hs Hi Hf]. destruct Hstep as
    [x fuel caller input gas v e ret left err e' He Hdep Hne Hv Hg Hin Hcall|epochID r d' Hrun|d' Hd' Hs' (H1 & H2 & H3 & H4)].
  - destruct (call_step d x fuel caller input gas v e ret left err e') as (? & ? & Hres); [done..|].
    destruct err; [rewrite Hres; by exists b, st|]. destruct Hres as (_ & _ & _ & Hguard).
    destruct (Hguard k b st Hat) as (b' & st' & ? & ?). exists b', st'. split; [done|]. by eapply guarded_locked.
  - destruct (Z.lt_ge_cases (last_epoch (abs d)) epochID) as [Hlt|Hge].
    + destruct (StakeOutRun_ok hash posCfg epochID d Hd Hi Hf Hlt) as (infos & d2 & Hrun2 & Hm & _ & Hres).
      rewrite Hrun in Hrun2. injection Hrun2 as _ <-. pose proof (result_staker _ _ _ _ k b st Hi Hres Hat) as Hst.
      pose proof (run_locked epochID st0 st Hl Hq) as Hn. destruct (next posCfg epochID st) as [| |st']; [|done|].
      * by exists b, st.
      * by exists (encoding st'), st'.
    + rewrite (StakeOutRun_done hash) in Hrun by done. injection Hrun as _ <-. by exists b, st.
  - exists b, st. split; [|done]. destruct Hat as (Hk & ?). split; [|done]. unfold stakers. by rewrite H1.
Qed.

Lemma history_locked d evs d' k b st0 : solvent d -> history d evs d' -> Forall (quiet_event st0) evs ->
  staker_at (abs d) k b st0 -> si_NextLockEpochs st0 = 0 -> exists b' st, staker_at (abs d') k b' st /\ locked st0 st.
Proof.
  intros Hsv Hh Hq Hat Hn. induction Hh as [|evs ev d1 d2 Hh IH Hstep].
  - exists b, st0. split; [done|]. by split.
  - apply Forall_app in Hq as [Hq Hev]. apply Forall_cons_1 in Hev as [Hev _].
    eapply step_locked; [by eapply history_solvent|exact Hstep|done|]. by apply IH.
Qed.
End History.
