(* ===== verification/EvmFuel.v ===== *)
(** The fuel of the machine is only a bound: an execution that ends within some
    fuel has the same result with any larger fuel. *)

From S2P Require Import Prelude BigMath VmData VmState GasTable Instructions Evm.

(** [m] is cut off by its fuel, or does the same as [m']. *)
Definition approx {S E A} (m m' : ST S E A) : Prop := forall s, m s = OutOfFuel \/ m s = m' s.

#[export] Instance approx_preorder {S E A} : PreOrder (@approx S E A).
Proof.
  split.
  - intros m s. by right.
  - intros m1 m2 m3 H12 H23 s. destruct (H12 s) as [| ->]; [by left|]. apply H23.
Qed.

Lemma approx_bind {S E A B} (m m' : ST S E A) (f f' : A -> ST S E B) :
  approx m m' -> (forall a, approx (f a) (f' a)) -> approx (m ≫= f) (m' ≫= f').
Proof.
  intros Hm Hf s. unfold mbind, ST_bind. destruct (Hm s) as [->| ->]; [by left|].
  destruct (m' s); [apply Hf|by right..].
Qed.

Create HintDb approx discriminated.
Ltac approx_step :=
  first [reflexivity | assumption | solve [eauto 4 with approx]
        | apply approx_bind; [|intros ?] | case_match].
Ltac approx := repeat approx_step.

Section Fuel.
Context {db : Type} `{!StateDB db} (env : Env db).

Lemma approx_call_evm {A} (m m' : ME db A) : approx m m' -> approx (call_evm m) (call_evm m').
Proof.
  intros Hm s. unfold call_evm. destruct (Hm (evm s)) as [->| ->]; [by left|by right].
Qed.
#[local] Hint Resolve approx_call_evm : approx.

Section Table.
Context (calls calls' : Calls db).

Record calls_approx : Prop := {
  approx_Call a b c d e : approx (Call calls a b c d e) (Call calls' a b c d e);
  approx_CallCode a b c d e : approx (CallCode calls a b c d e) (CallCode calls' a b c d e);
  approx_DelegateCall a b c d : approx (DelegateCall calls a b c d) (DelegateCall calls' a b c d);
  approx_StaticCall a b c d : approx (StaticCall calls a b c d) (StaticCall calls' a b c d);
  approx_Create a b c d : approx (Create calls a b c d) (Create calls' a b c d);
}.
#[local] Hint Resolve approx_Call approx_CallCode approx_DelegateCall approx_StaticCall
  approx_Create : approx.

(** Operations of the two tables that differ only in what they call. *)
Record op_approx (o o' : operation (db:=db)) : Prop := {
  oa_execute : approx (execute o) (execute o');
  oa_rest : o' = mkOperation (execute o') (gasCost o) (validateStack o) (memorySize o)
                   (halts o) (jumps o) (writes o) (reverts o) (returns o);
}.

Context (Hcalls : calls_approx).

Lemma table_approx op :
  match NewByzantiumInstructionSet env calls op, NewByzantiumInstructionSet env calls' op with
  | Some o, Some o' => op_approx o o'
  | None, None => True
  | _, _ => False
  end.
Proof.
  destruct op; try exact I; (split; [|reflexivity]); try reflexivity;
    cbn [execute]; unfold opCreate, opCall, opCallCode, opDelegateCall, opStaticCall; approx.
Qed.

Lemma executeOp_approx o o' : op_approx o o' -> approx (executeOp o) (executeOp o').
Proof.
  intros [He ->] s. unfold executeOp. cbn [execute returns].
  destruct (He s) as [->| ->]; [by left|by right].
Qed.
#[local] Hint Resolve executeOp_approx : approx.

Lemma step_approx : approx (step env calls) (step env calls').
Proof.
  unfold step. approx_step; [reflexivity|]. approx_step; [reflexivity|].
  pose proof (table_approx (GetOp a a0)) as Ht.
  destruct (NewByzantiumInstructionSet env calls _) as [o|], (NewByzantiumInstructionSet env calls' _) as [o'|];
    try done.
  pose proof (executeOp_approx o o' Ht) as Hex. rewrite (oa_rest _ _ Ht) in Hex |- *.
  unfold enforceRestrictions, perform, requestedMemory, chargeGas.
  cbn [validateStack memorySize gasCost halts jumps writes reverts]. approx.
Qed.
End Table.

(** The entry points. *)
Section Entry.
Context (run run' : Contract -> list byte -> ME db (list byte * option vmerror * Z)).
Context (Hrun : forall c input, approx (run c input) (run' c input)).
#[local] Hint Resolve Hrun : approx.

Lemma calls_of_approx : calls_approx (calls_of env run) (calls_of env run').
Proof.
  split; intros; cbn;
    unfold evmCall, evmCallCode, evmDelegateCall, evmStaticCall, evmCreate; approx.
Qed.
End Entry.

Lemma InterpreterRun_approx loop loop' c input :
  approx loop loop' -> approx (InterpreterRun (db:=db) loop c input) (InterpreterRun loop' c input).
Proof.
  intros Hl e. unfold InterpreterRun. destruct (_ =? 0); [by right|].
  match goal with |- context [loop ?s] => destruct (Hl s) as [->| ->] end; [by left|by right].
Qed.

Lemma run_loop_succ n :
  (forall c input, approx (run env n c input) (run env (S n) c input)) /\
  approx (loop env n) (loop env (S n)).
Proof.
  induction n as [|n [IHrun IHloop]]; [split; [intros ? ?|]; intros s; by left|].
  split.
  - intros c input. rewrite (run_S env n), (run_S env (S n)).
    destruct (_ ≫= _); [reflexivity|]. by apply InterpreterRun_approx.
  - rewrite (loop_S env n), (loop_S env (S n)). apply approx_bind; [reflexivity|intros e].
    apply approx_bind; [reflexivity|intros _]. destruct (abort env _); [reflexivity|].
    apply approx_bind; [by apply step_approx, calls_of_approx|]. intros [out|]; [reflexivity|done].
Qed.

Lemma run_mono n m c input : (n <= m)%nat -> approx (run env n c input) (run env m c input).
Proof.
  induction 1 as [|m _ IH]; [reflexivity|]. etrans; [exact IH|]. apply run_loop_succ.
Qed.
End Fuel.
