(* ===== verification/CoreState.v ===== *)
(** The journalled state database: core/state/state_object.go, journal.go and
    statedb.go, over the Trie and Database interfaces of core/state/database.go.

    A [stateObject] is reached only through the map [stateObjects]; a method
    that changes an object stores it back in the map.  The callback [onDirty]
    is [StateDB.MarkStateObjectDirty] or nil, so it is modelled by a flag. *)

From S2P Require Import Prelude BigMath VmData VmState.
Import Big Common.

(** * core/state/database.go *)

(** A database error; the code only tests for it and stores it. *)
Inductive dberror := DbError (code : Z).

Class Trie (tr : Type) := {
  TryGet : tr -> list byte -> list byte * option dberror;
  TryUpdate : list byte -> list byte -> tr -> tr * option dberror;
  TryDelete : list byte -> tr -> tr * option dberror;
  Trie_Hash : tr -> Hash;
}.

(** The entries of a storage trie as [trie.NewIterator] visits them, with the
    keys that [GetKey] gives back. *)
Class TrieIter (tr : Type) := {
  Entries : tr -> list (Hash * list byte);
}.

Class Database (dbt tr : Type) := {
  OpenTrie : dbt -> Hash -> tr + dberror;
  OpenStorageTrie : dbt -> Hash -> Hash -> tr + dberror;
  ContractCode : dbt -> Hash -> Hash -> list byte * option dberror;
  ContractCodeSize : dbt -> Hash -> Hash -> Z * option dberror;
}.

(** The codings of package rlp that this package uses: accounts, and the
    content of a string. *)
Record Account := mkAcct {
  Nonce : Z;
  Balance : Z;
  Root : Hash;
  CodeHash_ : Hash;
}.

Class Rlp := {
  EncodeAccount : Account -> list byte;
  DecodeAccount : list byte -> option Account;
  EncodeBytes : list byte -> list byte;
  Split : list byte -> list byte * option dberror;
}.

Module State.
Section State.
Context {tr dbt : Type} `{!Trie tr} `{!Database dbt tr} `{!Rlp}.
Context (Keccak256Hash : list byte -> Hash).

(** * core/state/state_object.go *)

Definition emptyCodeHash : Hash := Keccak256Hash [].
Definition emptyTrieRoot : Hash :=
  bits_of 256 0x56e81f171bcc55a6ff8345e692c0f86e5b48e01b996cadc001622fb5e363b421.

Record stateObject := mkObject {
  address : Address;
  addrHash : Hash;
  data : Account;
  obj_dbErr : option dberror;
  obj_trie : option tr;
  code : option (list byte);
  cachedStorage : gmap Hash Hash;
  dirtyStorage : gmap Hash Hash;
  cachedStorageByteArray : gmap Hash (list byte);
  dirtyStorageByteArray : gmap Hash (list byte);
  dirtyCode : bool;
  suicided : bool;
  touched : bool;
  deleted : bool;
  onDirty : bool;
}.

(** [newObject]; a new account has zero balance and the hash of no code. *)
Definition newObject (a : Address) (data : Account) (onDirty : bool) : stateObject :=
  mkObject a (Keccak256Hash (Address_Bytes a)) data None None None ∅ ∅ ∅ ∅
    false false false false onDirty.

(** [Account{}] after the defaults of [newObject]. *)
Definition emptyAccount : Account := mkAcct 0 0 emptyHash emptyCodeHash.

Definition empty (o : stateObject) : bool :=
  (Nonce (data o) =? 0) && (Sign (Balance (data o)) =? 0) &&
  (bool_decide (CodeHash_ (data o) = emptyCodeHash) || bool_decide (CodeHash_ (data o) = emptyHash)) &&
  (bool_decide (Root (data o) = emptyHash) || bool_decide (Root (data o) = emptyTrieRoot)) &&
  (Z.of_nat (size (dirtyStorage o)) =? 0) && (Z.of_nat (size (dirtyStorageByteArray o)) =? 0).

(** Field updates. *)
Definition set_data (o : stateObject) (x : Account) : stateObject :=
  mkObject (address o) (addrHash o) x (obj_dbErr o) (obj_trie o) (code o) (cachedStorage o)
    (dirtyStorage o) (cachedStorageByteArray o) (dirtyStorageByteArray o) (dirtyCode o)
    (suicided o) (touched o) (deleted o) (onDirty o).
Definition set_trie (o : stateObject) (t : option tr) : stateObject :=
  mkObject (address o) (addrHash o) (data o) (obj_dbErr o) t (code o) (cachedStorage o)
    (dirtyStorage o) (cachedStorageByteArray o) (dirtyStorageByteArray o) (dirtyCode o)
    (suicided o) (touched o) (deleted o) (onDirty o).
Definition set_code (o : stateObject) (c : option (list byte)) (dirty : bool) : stateObject :=
  mkObject (address o) (addrHash o) (data o) (obj_dbErr o) (obj_trie o) c (cachedStorage o)
    (dirtyStorage o) (cachedStorageByteArray o) (dirtyStorageByteArray o) dirty
    (suicided o) (touched o) (deleted o) (onDirty o).
Definition set_storage (o : stateObject) (c d : gmap Hash Hash) : stateObject :=
  mkObject (address o) (addrHash o) (data o) (obj_dbErr o) (obj_trie o) (code o) c d
    (cachedStorageByteArray o) (dirtyStorageByteArray o) (dirtyCode o)
    (suicided o) (touched o) (deleted o) (onDirty o).
Definition set_bytes (o : stateObject) (c d : gmap Hash (list byte)) : stateObject :=
  mkObject (address o) (addrHash o) (data o) (obj_dbErr o) (obj_trie o) (code o) (cachedStorage o)
    (dirtyStorage o) c d (dirtyCode o) (suicided o) (touched o) (deleted o) (onDirty o).
Definition set_flags (o : stateObject) (sui tou del dirty : bool) : stateObject :=
  mkObject (address o) (addrHash o) (data o) (obj_dbErr o) (obj_trie o) (code o) (cachedStorage o)
    (dirtyStorage o) (cachedStorageByteArray o) (dirtyStorageByteArray o) (dirtyCode o)
    sui tou del dirty.
(** setError remembers the first non-nil error it is called with. *)
Definition obj_setError (err : option dberror) (o : stateObject) : stateObject :=
  match obj_dbErr o with
  | Some _ => o
  | None =>
      mkObject (address o) (addrHash o) (data o) err (obj_trie o) (code o) (cachedStorage o)
        (dirtyStorage o) (cachedStorageByteArray o) (dirtyStorageByteArray o) (dirtyCode o)
        (suicided o) (touched o) (deleted o) (onDirty o)
  end.

(** The storage trie, opened at the first access; when the root cannot be
    opened the empty trie is used.  The empty root always opens; [None] stands
    for the nil trie that a failure there would leave. *)
Definition getTrie (db : dbt) (o : stateObject) : option tr * stateObject :=
  match obj_trie o with
  | Some t => (Some t, o)
  | None =>
      match OpenStorageTrie db (addrHash o) (Root (data o)) with
      | inl t => (Some t, set_trie o (Some t))
      | inr err =>
          let t := match OpenStorageTrie db (addrHash o) emptyHash with
                   | inl t => Some t
                   | inr _ => None
                   end in
          (t, obj_setError (Some err) (set_trie o t))
      end
  end.

(** GetState returns a value in account storage. *)
Definition obj_GetState (db : dbt) (key : Hash) (o : stateObject) : Hash * stateObject :=
  match cachedStorage o !! key with
  | Some value => (value, o)
  | None =>
      let '(t, o) := getTrie db o in
      let '(enc, err) := match t with
                         | Some t => TryGet t (Hash_Bytes key)
                         | None => ([], None)
                         end in
      match err with
      | Some _ => (emptyHash, obj_setError err o)
      | None =>
          let '(value, o) :=
            if len enc >? 0 then
              let '(content, err) := Split enc in
              (BytesToHash content, match err with Some _ => obj_setError err o | None => o end)
            else (emptyHash, o) in
          (value,
           if negb (EmptyHash value)
           then set_storage o (<[key := value]> (cachedStorage o)) (dirtyStorage o) else o)
      end
  end.

Definition obj_GetStateByteArray (db : dbt) (key : Hash) (o : stateObject)
    : list byte * stateObject :=
  match cachedStorageByteArray o !! key with
  | Some value => (value, o)
  | None =>
      let '(t, o) := getTrie db o in
      let '(value, err) := match t with
                           | Some t => TryGet t (Hash_Bytes key)
                           | None => ([], None)
                           end in
      (value,
       if bool_decide (err = None) && negb (len value =? 0)
       then set_bytes o (<[key := value]> (cachedStorageByteArray o)) (dirtyStorageByteArray o)
       else o)
  end.

(** [Code]: the bytecode, loaded at the first access; [None] is nil. *)
Definition obj_Code (db : dbt) (o : stateObject) : option (list byte) * stateObject :=
  match code o with
  | Some c => (Some c, o)
  | None =>
      if bool_decide (CodeHash_ (data o) = emptyCodeHash) then (None, o)
      else
        let '(c, err) := ContractCode db (addrHash o) (CodeHash_ (data o)) in
        let o := match err with Some _ => obj_setError err o | None => o end in
        (Some c, set_code o (Some c) (dirtyCode o))
  end.

(** * core/state/journal.go and the fields of StateDB *)

Inductive journalEntry :=
| createObjectChange (account : Address)
| resetObjectChange (prev : stateObject)
| suicideChange (account : Address) (prev : bool) (prevbalance : Z)
| balanceChange (account : Address) (prev : Z)
| nonceChange (account : Address) (prev : Z)
| storageChange (account : Address) (key prevalue : Hash)
| storageByteArrayChange (account : Address) (key : Hash) (prevalue : list byte)
| codeChange (account : Address) (prevcode : option (list byte)) (prevhash : Hash)
| refundChange (prev : Z)
| addLogChange (txhash : Hash)
| addPreimageChange (hash : Hash)
| touchChange (account : Address) (prev prevDirty : bool).

(** The journal is kept with the newest entry first, so the entry with index i
    of the code is the one with i entries behind it. *)
Record StateDB := mkStateDB {
  db : dbt;
  trie : tr;
  stateObjects : gmap Address stateObject;
  stateObjectsDirty : gset Address;
  dbErr : option dberror;
  refund : Z;
  thash : Hash;
  bhash : Hash;
  txIndex : Z;
  logs : gmap Hash (list Log);
  logSize : Z;
  preimages : gmap Hash (list byte);
  journal : list journalEntry;
  validRevisions : list (Z * nat);
  nextRevisionId : Z;
}.

Definition New (root : Hash) (db : dbt) : StateDB + dberror :=
  match OpenTrie db root with
  | inr err => inr err
  | inl t => inl (mkStateDB db t ∅ ∅ None 0 emptyHash emptyHash 0 ∅ 0 ∅ [] [] 0)
  end.

Definition set_objects (s : StateDB) (objs : gmap Address stateObject) (dirty : gset Address) : StateDB :=
  mkStateDB (db s) (trie s) objs dirty (dbErr s) (refund s) (thash s) (bhash s) (txIndex s)
    (logs s) (logSize s) (preimages s) (journal s) (validRevisions s) (nextRevisionId s).
Definition set_journal (s : StateDB) (j : list journalEntry) : StateDB :=
  mkStateDB (db s) (trie s) (stateObjects s) (stateObjectsDirty s) (dbErr s) (refund s) (thash s)
    (bhash s) (txIndex s) (logs s) (logSize s) (preimages s) j (validRevisions s) (nextRevisionId s).
Definition set_revisions (s : StateDB) (r : list (Z * nat)) (next : Z) : StateDB :=
  mkStateDB (db s) (trie s) (stateObjects s) (stateObjectsDirty s) (dbErr s) (refund s) (thash s)
    (bhash s) (txIndex s) (logs s) (logSize s) (preimages s) (journal s) r next.
Definition set_refund (s : StateDB) (r : Z) : StateDB :=
  mkStateDB (db s) (trie s) (stateObjects s) (stateObjectsDirty s) (dbErr s) r (thash s)
    (bhash s) (txIndex s) (logs s) (logSize s) (preimages s) (journal s) (validRevisions s)
    (nextRevisionId s).
Definition set_logs (s : StateDB) (l : gmap Hash (list Log)) (n : Z) : StateDB :=
  mkStateDB (db s) (trie s) (stateObjects s) (stateObjectsDirty s) (dbErr s) (refund s) (thash s)
    (bhash s) (txIndex s) l n (preimages s) (journal s) (validRevisions s) (nextRevisionId s).
Definition set_preimages (s : StateDB) (p : gmap Hash (list byte)) : StateDB :=
  mkStateDB (db s) (trie s) (stateObjects s) (stateObjectsDirty s) (dbErr s) (refund s) (thash s)
    (bhash s) (txIndex s) (logs s) (logSize s) p (journal s) (validRevisions s) (nextRevisionId s).
(** setError remembers the first non-nil error it is called with. *)
Definition setError (err : option dberror) (s : StateDB) : StateDB :=
  match dbErr s with
  | Some _ => s
  | None =>
      mkStateDB (db s) (trie s) (stateObjects s) (stateObjectsDirty s) err (refund s) (thash s)
        (bhash s) (txIndex s) (logs s) (logSize s) (preimages s) (journal s) (validRevisions s)
        (nextRevisionId s)
  end.
Definition record (e : journalEntry) (s : StateDB) : StateDB := set_journal s (e :: journal s).

Definition setStateObject (o : stateObject) (s : StateDB) : StateDB :=
  set_objects s (<[address o := o]> (stateObjects s)) (stateObjectsDirty s).
Definition MarkStateObjectDirty (a : Address) (s : StateDB) : StateDB :=
  set_objects s (stateObjects s) ({[a]} ∪ stateObjectsDirty s).

(** [if self.onDirty != nil { self.onDirty(self.Address()); self.onDirty = nil }],
    and the changed object stored. *)
Definition dirtied (o : stateObject) (s : StateDB) : StateDB :=
  let s := if onDirty o then MarkStateObjectDirty (address o) s else s in
  setStateObject (set_flags o (suicided o) (touched o) (deleted o) false) s.

(** ** Setters of a state object, without journal *)
Definition setBalance (amount : Z) (o : stateObject) : StateDB -> StateDB :=
  dirtied (set_data o (mkAcct (Nonce (data o)) amount (Root (data o)) (CodeHash_ (data o)))).
Definition setNonce (nonce : Z) (o : stateObject) : StateDB -> StateDB :=
  dirtied (set_data o (mkAcct nonce (Balance (data o)) (Root (data o)) (CodeHash_ (data o)))).
Definition setState (key value : Hash) (o : stateObject) : StateDB -> StateDB :=
  dirtied (set_storage o (<[key := value]> (cachedStorage o)) (<[key := value]> (dirtyStorage o))).
Definition setStateByteArray (key : Hash) (value : list byte) (o : stateObject) : StateDB -> StateDB :=
  dirtied (set_bytes o (<[key := value]> (cachedStorageByteArray o))
             (<[key := value]> (dirtyStorageByteArray o))).
Definition setCode (codeHash : Hash) (c : option (list byte)) (o : stateObject) : StateDB -> StateDB :=
  dirtied (set_code
             (set_data o (mkAcct (Nonce (data o)) (Balance (data o)) (Root (data o)) codeHash))
             c true).
Definition markSuicided (o : stateObject) : StateDB -> StateDB :=
  dirtied (set_flags o true (touched o) (deleted o) (onDirty o)).
Definition touch (o : stateObject) (s : StateDB) : StateDB :=
  dirtied (set_flags o (suicided o) true (deleted o) (onDirty o))
    (record (touchChange (address o) (touched o) (negb (onDirty o))) s).

(** * core/state/statedb.go *)

(** Retrieve a state object; loads it from the trie into the live set. *)
Definition getStateObject (a : Address) (s : StateDB) : option stateObject * StateDB :=
  match stateObjects s !! a with
  | Some o => if deleted o then (None, s) else (Some o, s)
  | None =>
      let '(enc, err) := TryGet (trie s) (Address_Bytes a) in
      if len enc =? 0 then (None, setError err s)
      else
        match DecodeAccount enc with
        | None => (None, s)
        | Some data =>
            let o := newObject a data true in
            (Some o, setStateObject o s)
        end
  end.

(** createObject creates a new state object; an existing one is overwritten and
    returned.  [newobj.setNonce(0)] marks the object dirty. *)
Definition createObject (a : Address) (s : StateDB) : stateObject * option stateObject * StateDB :=
  let '(prev, s) := getStateObject a s in
  let newobj := newObject a emptyAccount false in
  let s := MarkStateObjectDirty a s in
  let s := match prev with
           | None => record (createObjectChange a) s
           | Some o => record (resetObjectChange o) s
           end in
  (newobj, prev, setStateObject newobj s).

Definition GetOrNewStateObject (a : Address) (s : StateDB) : stateObject * StateDB :=
  let '(o, s) := getStateObject a s in
  match o with
  | Some o => (o, s)
  | None => let '(o, _, s) := createObject a s in (o, s)
  end.

Definition CreateAccount (a : Address) (s : StateDB) : StateDB :=
  let '(newobj, prev, s) := createObject a s in
  match prev with
  | Some o => setBalance (Balance (data o)) newobj s
  | None => s
  end.

(** ** Getters: the value, and the state with what was loaded *)
Definition Exist (a : Address) (s : StateDB) : bool * StateDB :=
  let '(o, s) := getStateObject a s in (match o with Some _ => true | None => false end, s).
Definition Empty (a : Address) (s : StateDB) : bool * StateDB :=
  let '(o, s) := getStateObject a s in (match o with Some o => empty o | None => true end, s).
Definition GetBalance (a : Address) (s : StateDB) : Z * StateDB :=
  let '(o, s) := getStateObject a s in (match o with Some o => Balance (data o) | None => 0 end, s).
Definition GetNonce (a : Address) (s : StateDB) : Z * StateDB :=
  let '(o, s) := getStateObject a s in (match o with Some o => Nonce (data o) | None => 0 end, s).
Definition GetCode (a : Address) (s : StateDB) : option (list byte) * StateDB :=
  let '(o, s) := getStateObject a s in
  match o with
  | Some o => let '(c, o) := obj_Code (db s) o in (c, setStateObject o s)
  | None => (None, s)
  end.
Definition GetCodeSize (a : Address) (s : StateDB) : Z * StateDB :=
  let '(o, s) := getStateObject a s in
  match o with
  | None => (0, s)
  | Some o =>
      match code o with
      | Some c => (len c, s)
      | None =>
          let '(size, err) := ContractCodeSize (db s) (addrHash o) (CodeHash_ (data o)) in
          (size, match err with Some _ => setError err s | None => s end)
      end
  end.
Definition GetCodeHash (a : Address) (s : StateDB) : Hash * StateDB :=
  let '(o, s) := getStateObject a s in
  (match o with Some o => CodeHash_ (data o) | None => emptyHash end, s).
Definition GetState (a : Address) (key : Hash) (s : StateDB) : Hash * StateDB :=
  let '(o, s) := getStateObject a s in
  match o with
  | Some o => let '(v, o) := obj_GetState (db s) key o in (v, setStateObject o s)
  | None => (emptyHash, s)
  end.
Definition GetStateByteArray (a : Address) (key : Hash) (s : StateDB) : list byte * StateDB :=
  let '(o, s) := getStateObject a s in
  match o with
  | Some o => let '(v, o) := obj_GetStateByteArray (db s) key o in (v, setStateObject o s)
  | None => ([], s)
  end.
Definition HasSuicided (a : Address) (s : StateDB) : bool * StateDB :=
  let '(o, s) := getStateObject a s in (match o with Some o => suicided o | None => false end, s).
Definition GetRefund (s : StateDB) : Z := refund s.
(** The result of GetRefund, a pointer to the counter, multiplied in place. *)
Definition MulRefund (x : Z) (s : StateDB) : StateDB := set_refund s (refund s * x).

(** ** Setters *)
Definition SetBalance (a : Address) (amount : Z) (s : StateDB) : StateDB :=
  let '(o, s) := GetOrNewStateObject a s in
  setBalance amount o (record (balanceChange a (Balance (data o))) s).

(** Negative amounts are logged and ignored. *)
Definition AddBalance (a : Address) (amount : Z) (s : StateDB) : StateDB :=
  let '(o, s) := GetOrNewStateObject a s in
  if Sign amount =? 1 then
    setBalance (Balance (data o) + amount) o (record (balanceChange a (Balance (data o))) s)
  else if Sign amount =? 0 then (if empty o then touch o s else s)
  else s.
Definition SubBalance (a : Address) (amount : Z) (s : StateDB) : StateDB :=
  let '(o, s) := GetOrNewStateObject a s in
  if Sign amount =? 1 then
    setBalance (Balance (data o) - amount) o (record (balanceChange a (Balance (data o))) s)
  else s.
Definition SetNonce (a : Address) (nonce : Z) (s : StateDB) : StateDB :=
  let '(o, s) := GetOrNewStateObject a s in
  setNonce nonce o (record (nonceChange a (Nonce (data o))) s).
Definition SetCode (a : Address) (c : list byte) (s : StateDB) : StateDB :=
  let '(o, s) := GetOrNewStateObject a s in
  let '(prevcode, o) := obj_Code (db s) o in
  setCode (Keccak256Hash c) (Some c) o (record (codeChange a prevcode (CodeHash_ (data o))) s).
Definition SetState (a : Address) (key value : Hash) (s : StateDB) : StateDB :=
  let '(o, s) := GetOrNewStateObject a s in
  let '(prev, o) := obj_GetState (db s) key o in
  setState key value o (record (storageChange a key prev) s).
Definition SetStateByteArray (a : Address) (key : Hash) (value : list byte) (s : StateDB) : StateDB :=
  let '(o, s) := GetOrNewStateObject a s in
  let '(prev, o) := obj_GetStateByteArray (db s) key o in
  setStateByteArray key value o (record (storageByteArrayChange a key prev) s).
Definition Suicide (a : Address) (s : StateDB) : bool * StateDB :=
  let '(o, s) := getStateObject a s in
  match o with
  | None => (false, s)
  | Some o =>
      let s := record (suicideChange a (suicided o) (Balance (data o))) s in
      (true,
       markSuicided
         (set_data o (mkAcct (Nonce (data o)) 0 (Root (data o)) (CodeHash_ (data o)))) s)
  end.
Definition AddRefund (gas : Z) (s : StateDB) : StateDB :=
  set_refund (record (refundChange (refund s)) s) (refund s + gas).
Definition AddLog (l : Log) (s : StateDB) : StateDB :=
  let l := mkLog (log_Address l) (log_Topics l) (log_Data l) (log_BlockNumber l)
             (thash s) (txIndex s) (bhash s) (logSize s) in
  set_logs (record (addLogChange (thash s)) s)
    (<[thash s := default [] (logs s !! thash s) ++ [l]]> (logs s)) (u64 (logSize s + 1)).
Definition AddPreimage (h : Hash) (preimage : list byte) (s : StateDB) : StateDB :=
  match preimages s !! h with
  | Some _ => s
  | None => set_preimages (record (addPreimageChange h) s) (<[h := preimage]> (preimages s))
  end.

(** ** Undo

    [None] is the nil dereference of an entry whose account is gone. *)
Definition ripemd : Address := bits_of 160 3.

(** Undo a change of an existing object. *)
Definition on_object (a : Address) (f : stateObject -> StateDB -> StateDB) (s : StateDB)
    : option StateDB :=
  let '(o, s) := getStateObject a s in
  match o with Some o => Some (f o s) | None => None end.

Definition undo (e : journalEntry) (s : StateDB) : option StateDB :=
  match e with
  | createObjectChange a =>
      Some (set_objects s (delete a (stateObjects s)) (stateObjectsDirty s ∖ {[a]}))
  | resetObjectChange prev => Some (setStateObject prev s)
  | suicideChange a prev prevbalance =>
      let '(o, s) := getStateObject a s in
      Some match o with
           | Some o => setBalance prevbalance (set_flags o prev (touched o) (deleted o) (onDirty o)) s
           | None => s
           end
  | touchChange a prev prevDirty =>
      if negb prev && negb (bool_decide (a = ripemd)) then
        on_object a (fun o s =>
          let s := setStateObject (set_flags o (suicided o) prev (deleted o) (onDirty o)) s in
          if negb prevDirty then set_objects s (stateObjects s) (stateObjectsDirty s ∖ {[a]})
          else s) s
      else Some s
  | balanceChange a prev => on_object a (setBalance prev) s
  | nonceChange a prev => on_object a (setNonce prev) s
  | codeChange a prevcode prevhash => on_object a (setCode prevhash prevcode) s
  | storageChange a key prevalue => on_object a (setState key prevalue) s
  | storageByteArrayChange a key prevalue => on_object a (setStateByteArray key prevalue) s
  | refundChange prev => Some (set_refund s prev)
  | addLogChange txhash =>
      let l := default [] (logs s !! txhash) in
      let logs' := if len l =? 1 then delete txhash (logs s)
                   else <[txhash := take (length l - 1) l]> (logs s) in
      if len l =? 0 then None else Some (set_logs s logs' (u64 (logSize s - 1)))
  | addPreimageChange h => Some (set_preimages s (delete h (preimages s)))
  end.

(** ** Snapshots *)

Definition Snapshot (s : StateDB) : Z * StateDB :=
  let id := nextRevisionId s in
  (id, set_revisions s (validRevisions s ++ [(id, length (journal s))]) (id + 1)).

(** sort.Search: binary search for the first index where [f] holds. *)
Fixpoint sort_Search_loop (fuel : nat) (i j : nat) (f : nat -> bool) : nat :=
  match fuel with
  | O => i
  | S n =>
      if (i <? j)%nat then
        let h := ((i + j) / 2)%nat in
        if f h then sort_Search_loop n i h f else sort_Search_loop n (h + 1) j f
      else i
  end.
Definition sort_Search (n : nat) (f : nat -> bool) : nat := sort_Search_loop n 0 n f.

(** Undo the newest [n] entries. *)
Fixpoint undo_n (n : nat) (s : StateDB) : option StateDB :=
  match n with
  | O => Some s
  | S n =>
      match journal s with
      | [] => Some s
      | e :: j => s' ← undo e (set_journal s j); undo_n n s'
      end
  end.

(** RevertToSnapshot; [None] is the panic on an unknown revision. *)
Definition RevertToSnapshot (revid : Z) (s : StateDB) : option StateDB :=
  let revs := validRevisions s in
  let idx := sort_Search (length revs)
               (fun i => match revs !! i with Some (id, _) => revid <=? id | None => false end) in
  match revs !! idx with
  | Some (id, snapshot) =>
      if id =? revid then
        s ← undo_n (length (journal s) - snapshot) s;
        Some (set_revisions s (take idx revs) (nextRevisionId s))
      else None
  | None => None
  end.

(** ** Iteration over the byte arrays of an account

    [range] is the order in which Go's range statement visits a map;
    [mercury]: the current epoch is not before MercuryEpochId.  The callback
    does not stop. *)
Definition ForEachStorageByteArrayBeforeFork `{!TrieIter tr} (range : gmap Hash (list byte) -> list (Hash * list byte))
    (a : Address) (s : StateDB) : list (Hash * list byte) * StateDB :=
  let '(so, s) := getStateObject a s in
  match so with
  | None => ([], s)
  | Some o =>
      let '(t, o') := getTrie (db s) o in
      let it := match t with Some t => Entries t | None => [] end in
      (range (cachedStorageByteArray o) ++ filter (fun e => cachedStorage o !! e.1 = None) it, setStateObject o' s)
  end.
Definition ForEachStorageByteArray `{!TrieIter tr} (mercury : bool)
    (range : gmap Hash (list byte) -> list (Hash * list byte)) (a : Address) (s : StateDB)
    : list (Hash * list byte) * StateDB :=
  if negb mercury then ForEachStorageByteArrayBeforeFork range a s
  else
    let '(so, s) := getStateObject a s in
    match so with
    | None => ([], s)
    | Some o =>
        let '(t, o') := getTrie (db s) o in
        let it := match t with Some t => Entries t | None => [] end in
        (range (cachedStorageByteArray o) ++ filter (fun e => cachedStorageByteArray o !! e.1 = None) it,
         setStateObject o' s)
    end.
End State.
End State.
