(* ===== verification/CoreStateSpec.v ===== *)
(** The journalled database of core/state implements the contract of a state
    database: every operation has its abstract effect, and reverting to a
    snapshot undoes exactly the changes made since. *)

From S2P Require Import Prelude BigMath VmData VmState StateSpec CoreState.
Import Big Common State.

(** * What the database relies on *)

(** A trie is a finite map from keys to non-empty values; reads of a complete
    trie do not fail. *)
Class TrieSpec (tr : Type) `{!Trie tr} := {
  trie_ok : tr -> Prop;
  content : tr -> gmap (list byte) (list byte);
  TryGet_spec t k : trie_ok t -> TryGet t k = (default [] (content t !! k), None);
  content_nonempty t k v : trie_ok t -> content t !! k = Some v -> v <> [];
}.

(** The entries whose key is an array of [n] bytes. *)
Definition key_map (w : N) (n : nat) (m : gmap (list byte) (list byte)) : gmap (bits w) (list byte) :=
  list_to_map (omap (fun kv => if bool_decide (length kv.1 = n)
                               then Some (bits_of w (be_val kv.1), kv.2) else None)
                 (map_to_list m)).

Lemma key_map_lookup w n m (b : bits w) :
  Z.of_N w = 8 * Z.of_nat n -> key_map w n m !! b = m !! be_bytes n (bits_val b).
Proof.
  intros Hw. unfold key_map.
  assert (forall k, length k = n -> be_bytes n (bits_val (bits_of w (be_val k))) = k) as Hinv.
  { intros k Hk. rewrite <- (be_bytes_be_val k) at 2. rewrite Hk. f_equal. cbn.
    apply Z.mod_small. pose proof (be_val_bound k) as Hb. unfold len in Hb.
    rewrite Hk, pow256, <- Hw in Hb. done. }
  apply option_eq. intros v. rewrite <- elem_of_list_to_map.
  - rewrite list_elem_of_omap. split.
    + intros ([k v'] & Hkv & Hx). cbn [fst snd] in Hx. case_bool_decide as Hk; [|done].
      injection Hx as <- <-. rewrite Hinv by done. by apply elem_of_map_to_list.
    + intros Hv. exists (be_bytes n (bits_val b), v). split; [by apply elem_of_map_to_list|].
      cbn [fst snd]. rewrite bool_decide_true by apply length_be_bytes. do 2 f_equal.
      apply bits_eq. rewrite bits_val_of, be_val_be_bytes, pow256, <- Hw.
      rewrite Zmod_mod. apply Z.mod_small, bits_bound.
  - pose proof (NoDup_fst_map_to_list m) as Hnd.
    induction (map_to_list m) as [|[k v'] l IH]; [constructor|].
    cbn [fmap list_fmap fst] in Hnd. pose proof (NoDup_cons_1_1 _ _ Hnd) as Hk.
    apply NoDup_cons_1_2 in Hnd. specialize (IH Hnd).
    cbn [omap list_omap fst snd]. case_bool_decide as Hlen; [|done].
    apply NoDup_cons_2; [|done]. cbn [fst]. intros Hin. apply Hk.
    apply list_elem_of_fmap in Hin as ([b' v''] & Hb & Hin). cbn [fst] in Hb.
    apply list_elem_of_omap in Hin as ([k' v3] & Hin & Hx). cbn [fst snd] in Hx.
    case_bool_decide as Hlen'; [|done]. injection Hx as Hx _.
    assert (k = k') as ->.
    { rewrite <- (Hinv k), <- (Hinv k') by done. congruence. }
    apply list_elem_of_fmap. by exists (k', v3).
Qed.

Section Spec.
Context {tr dbt : Type} `{!Trie tr} `{!Database dbt tr} `{!Rlp} `{!TrieSpec tr}.
Context (hash : list byte -> Hash).

Abbreviation obj := (@stateObject tr).
Abbreviation sdb := (@StateDB tr dbt).

(** The code store: sizes agree with codes, nothing is stored under the hash of
    no code, and the zero root is the empty trie. *)
Record database_ok (d : dbt) : Prop := {
  code_size ah h : ContractCodeSize d ah h = (len (ContractCode d ah h).1, (ContractCode d ah h).2);
  no_code ah : (ContractCode d ah (emptyCodeHash hash)).1 = [];
  empty_root ah : exists t, OpenStorageTrie d ah emptyHash = inl t /\ trie_ok t /\ content t = ∅;
}.

(** * The meaning of a state object *)

Definition storage_trie (d : dbt) (o : obj) : gmap (list byte) (list byte) :=
  match obj_trie o with
  | Some t => content t
  | None =>
      match OpenStorageTrie d (addrHash o) (Root (data o)) with
      | inl t => content t
      | inr _ => ∅
      end
  end.

Definition nonzero (v : Hash) : option Hash := if EmptyHash v then None else Some v.
Definition nonempty (v : list byte) : option (list byte) := if len v =? 0 then None else Some v.

(** Values of the cache, else of the trie. *)
Definition storage_view (d : dbt) (o : obj) : gmap Hash Hash :=
  omap nonzero (cachedStorage o ∪ ((fun enc => BytesToHash (Split enc).1) <$>
                                   key_map 256 32 (storage_trie d o))).
Definition bytes_view (d : dbt) (o : obj) : gmap Hash (list byte) :=
  omap nonempty (cachedStorageByteArray o ∪ key_map 256 32 (storage_trie d o)).
Definition code_view (d : dbt) (o : obj) : list byte :=
  match code o with
  | Some c => c
  | None => (ContractCode d (addrHash o) (CodeHash_ (data o))).1
  end.

Definition view (d : dbt) (o : obj) : account :=
  mkAccount (Nonce (data o)) (Balance (data o)) (code_view d o) (storage_view d o)
    (bytes_view d o) (suicided o).

(** The storage trie opens, and the code is the one of the code hash. *)
Record obj_ok (d : dbt) (o : obj) : Prop := {
  obj_trie_ok : match obj_trie o with
                | Some t => trie_ok t
                | None => exists t, OpenStorageTrie d (addrHash o) (Root (data o)) = inl t /\ trie_ok t
                end;
  obj_code_ok : hash (code_view d o) = CodeHash_ (data o);
}.

(** * The meaning of the database *)

(** The accounts of the trie. *)
Definition base (s : sdb) : gmap Address account :=
  map_imap (fun a enc => data ← DecodeAccount enc; Some (view (db s) (newObject hash a data true)))
    (key_map 160 20 (content (trie s))).

Definition abs_accounts (s : sdb) : gmap Address account :=
  merge (fun o c => match o with
                    | Some o => if deleted o then None else Some (view (db s) o)
                    | None => c
                    end) (stateObjects s) (base s).

Definition absState (s : sdb) : astate :=
  mkState (abs_accounts s) (refund s) (logs s) (logSize s) (preimages s)
    (thash s, bhash s, txIndex s).

Record struct_ok (s : sdb) : Prop := {
  so_db : database_ok (db s);
  so_trie : trie_ok (trie s);
  so_objects a o : stateObjects s !! a = Some o ->
    address o = a /\ obj_ok (db s) o /\ (deleted o = true -> base s !! a = None);
  so_loadable a enc x : content (trie s) !! Address_Bytes a = Some enc ->
    DecodeAccount enc = Some x -> obj_ok (db s) (newObject hash a x true);
  so_logSize : 0 <= logSize s < 2 ^ 64;
  so_logs : map_Forall (fun _ l => l <> []) (logs s);
}.

Lemma abs_accounts_lookup s a :
  abs_accounts s !! a =
  match stateObjects s !! a with
  | Some o => if deleted o then None else Some (view (db s) o)
  | None => base s !! a
  end.
Proof.
  unfold abs_accounts. rewrite lookup_merge.
  by destruct (stateObjects s !! a), (base s !! a).
Qed.

Lemma base_lookup s a :
  base s !! a = enc ← content (trie s) !! Address_Bytes a;
                data ← DecodeAccount enc; Some (view (db s) (newObject hash a data true)).
Proof. unfold base. rewrite map_lookup_imap. by rewrite key_map_lookup. Qed.

(** States that differ only in the live objects. *)
Record same_but_objects (s s' : sdb) : Prop := {
  sb_db : db s' = db s;
  sb_trie : trie s' = trie s;
  sb_refund : refund s' = refund s;
  sb_tx : (thash s', bhash s', txIndex s') = (thash s, bhash s, txIndex s);
  sb_logs : logs s' = logs s;
  sb_logSize : logSize s' = logSize s;
  sb_preimages : preimages s' = preimages s;
  sb_journal : journal s' = journal s;
  sb_revisions : validRevisions s' = validRevisions s;
  sb_next : nextRevisionId s' = nextRevisionId s;
}.

#[export] Instance same_but_objects_preorder : PreOrder same_but_objects.
Proof.
  split; [by split|]. intros s1 s2 s3 [] []. split; congruence.
Qed.

Lemma same_base s s' : same_but_objects s s' -> base s' = base s.
Proof. intros []. unfold base. by rewrite sb_db0, sb_trie0. Qed.

(** Storing an object of an account. *)
Lemma set_object_ok s s' a o :
  struct_ok s -> same_but_objects s s' ->
  stateObjects s' = <[a := o]> (stateObjects s) ->
  address o = a -> obj_ok (db s) o -> deleted o = false ->
  struct_ok s' /\ absState s' = set_accounts (absState s) (<[a := view (db s) o]> (abs_accounts s)).
Proof.
  intros [] Hsame Hobj Ha Ho Hd. pose proof (same_base _ _ Hsame) as Hbase. destruct Hsame.
  split.
  - split; try (by rewrite ?sb_db0, ?sb_trie0, ?sb_logSize0, ?sb_logs0).
    intros b o' Hb. rewrite Hbase, sb_db0. rewrite Hobj in Hb.
    apply lookup_insert_Some in Hb as [[<- <-]|[_ Hb]]; [|by apply so_objects0].
    split_and!; [done|done|congruence].
  - unfold absState, set_accounts. cbn. rewrite sb_refund0, sb_logs0, sb_logSize0, sb_preimages0, sb_tx0.
    f_equal. apply map_eq. intros b. rewrite abs_accounts_lookup, Hobj.
    destruct (decide (a = b)) as [<-|].
    + rewrite !lookup_insert_eq, Hd. by rewrite sb_db0.
    + rewrite !lookup_insert_ne, abs_accounts_lookup by done. by rewrite sb_db0, Hbase.
Qed.

(** * Loading *)

Lemma set_accounts_same s a c :
  accounts s !! a = Some c -> set_accounts s (<[a := c]> (accounts s)) = s.
Proof. intros. rewrite insert_id by done. by destruct s. Qed.

Lemma setError_same err s : same_but_objects s (setError err s) /\
  stateObjects (setError err s) = stateObjects s.
Proof. unfold setError. by destruct (dbErr s). Qed.

Lemma absState_same s s' :
  same_but_objects s s' -> stateObjects s' = stateObjects s -> absState s' = absState s.
Proof.
  intros Hs Ho. pose proof (same_base _ _ Hs) as Hb. destruct Hs. unfold absState, abs_accounts.
  by rewrite Ho, Hb, sb_db0, sb_refund0, sb_logs0, sb_logSize0, sb_preimages0, sb_tx0.
Qed.

Lemma struct_ok_same s s' :
  struct_ok s -> same_but_objects s s' -> stateObjects s' = stateObjects s -> struct_ok s'.
Proof.
  intros [] Hs Ho. pose proof (same_base _ _ Hs) as Hb. destruct Hs.
  by split; rewrite ?sb_db0, ?sb_trie0, ?sb_logSize0, ?sb_logs0, ?Ho, ?Hb.
Qed.

(** [getStateObject] finds the account of the abstract state, and only fills
    the live set. *)
Lemma getStateObject_spec a s :
  struct_ok s ->
  let '(o, s') := getStateObject hash a s in
  struct_ok s' /\ same_but_objects s s' /\ absState s' = absState s /\
  match o with
  | Some o => stateObjects s' !! a = Some o /\ deleted o = false /\ address o = a /\
              obj_ok (db s) o /\ accounts (absState s) !! a = Some (view (db s) o)
  | None => accounts (absState s) !! a = None /\ base s !! a = None
  end.
Proof.
  intros Hok. unfold getStateObject. cbn [absState accounts]. rewrite abs_accounts_lookup.
  destruct (stateObjects s !! a) as [o|] eqn:Ho.
  - destruct (so_objects _ Hok a o Ho) as (? & ? & ?).
    destruct (deleted o) eqn:Hd; split_and!; auto; reflexivity.
  - rewrite base_lookup, TryGet_spec by apply Hok.
    destruct (content (trie s) !! Address_Bytes a) as [enc|] eqn:Henc; cbn.
    + pose proof (content_nonempty _ _ _ (so_trie _ Hok) Henc).
      destruct (Z.eqb_spec (len enc) 0) as [Hz|].
      { destruct enc; [done|]. rewrite len_cons in Hz. pose proof (len_nonneg enc). lia. }
      destruct (DecodeAccount enc) as [x|] eqn:Hx; cbn; [|split_and!; auto; reflexivity].
      pose proof (so_loadable _ Hok a enc x Henc Hx) as Hobj.
      set (s' := setStateObject _ s).
      destruct (set_object_ok s s' a (newObject hash a x true)) as [? Habs]; try done.
      split_and!; try done; cbn [stateObjects setStateObject set_objects s']; try (by rewrite lookup_insert_eq).
      rewrite Habs. apply set_accounts_same. cbn. rewrite abs_accounts_lookup, Ho, base_lookup.
      by rewrite Henc; cbn; rewrite Hx.
    + destruct (setError_same None s) as [Hs1 Hs2].
      split_and!; [by eapply struct_ok_same|done|by apply absState_same|done|done].
Qed.

(** * State objects *)

Lemma dirtied_ok o s :
  struct_ok s -> obj_ok (db s) o -> deleted o = false ->
  struct_ok (dirtied o s) /\ same_but_objects s (dirtied o s) /\
  absState (dirtied o s) = set_accounts (absState s) (<[address o := view (db s) o]> (accounts (absState s))).
Proof.
  intros Hs Ho Hd. set (o' := set_flags o (suicided o) (touched o) (deleted o) false).
  assert (same_but_objects s (dirtied o s)).
  { unfold dirtied. by destruct (onDirty o). }
  destruct (set_object_ok s (dirtied o s) (address o) o') as [? ?]; try done.
  - unfold dirtied. by destruct (onDirty o).
  - by destruct Ho.
Qed.

(** Objects that differ only in what was loaded. *)
Record same_object (d : dbt) (o o' : obj) : Prop := {
  sm_address : address o' = address o;
  sm_data : data o' = data o;
  sm_deleted : deleted o' = deleted o;
  sm_onDirty : onDirty o' = onDirty o;
  sm_touched : touched o' = touched o;
  sm_view : view d o' = view d o;
}.

Lemma obj_Code_spec d o :
  database_ok d -> obj_ok d o ->
  let '(c, o') := obj_Code hash d o in
  default [] c = code_view d o /\ (c = None -> CodeHash_ (data o) = emptyCodeHash hash) /\
  obj_ok d o' /\ same_object d o o'.
Proof.
  intros Hd [Ht Hc]. unfold obj_Code.
  destruct (code o) as [c|] eqn:Ec; [unfold code_view; rewrite Ec; by split_and!|].
  case_bool_decide as He.
  { split_and!; try done. unfold code_view. rewrite Ec, He. cbn. symmetry. by apply no_code. }
  destruct (ContractCode d (addrHash o) (CodeHash_ (data o))) as [c err] eqn:EC.
  assert (c = code_view d o) as -> by (unfold code_view; by rewrite Ec, EC).
  assert (forall o1, addrHash o1 = addrHash o -> data o1 = data o -> obj_trie o1 = obj_trie o ->
    address o1 = address o -> deleted o1 = deleted o -> onDirty o1 = onDirty o ->
    touched o1 = touched o -> suicided o1 = suicided o -> cachedStorage o1 = cachedStorage o ->
    cachedStorageByteArray o1 = cachedStorageByteArray o ->
    code o1 = Some (code_view d o) -> obj_ok d o1 /\ same_object d o o1) as Hsame.
  { intros o1 E1 E2 E3 ? ? ? ? E4 E5 E6 E7. split; split; try congruence.
    - by rewrite E3, E1, E2.
    - unfold code_view at 1. by rewrite E7, E2.
    - unfold view, code_view at 1, storage_view, bytes_view, storage_trie.
      by rewrite E1, E2, E3, E4, E5, E6, E7. }
  split; [done|]. split; [done|]. apply Hsame; destruct err; try done;
    unfold obj_setError; by destruct (obj_dbErr o).
Qed.

Lemma storage_view_lookup d o k :
  storage_view d o !! k =
  match cachedStorage o !! k with
  | Some v => nonzero v
  | None => enc ← storage_trie d o !! Hash_Bytes k; nonzero (BytesToHash (Split enc).1)
  end.
Proof.
  unfold storage_view. rewrite lookup_omap, lookup_union, lookup_fmap, key_map_lookup by done.
  change (be_bytes 32 (bits_val k)) with (Hash_Bytes k).
  destruct (cachedStorage o !! k), (storage_trie d o !! Hash_Bytes k); done.
Qed.

Lemma bytes_view_lookup d o k :
  bytes_view d o !! k =
  match cachedStorageByteArray o !! k with
  | Some v => nonempty v
  | None => enc ← storage_trie d o !! Hash_Bytes k; nonempty enc
  end.
Proof.
  unfold bytes_view. rewrite lookup_omap, lookup_union, key_map_lookup by done.
  change (be_bytes 32 (bits_val k)) with (Hash_Bytes k).
  destruct (cachedStorageByteArray o !! k), (storage_trie d o !! Hash_Bytes k); done.
Qed.

Lemma nonzero_default v : default emptyHash (nonzero v) = v.
Proof. unfold nonzero, EmptyHash. case_bool_decide; by cbn. Qed.

Lemma nonempty_default v : default [] (nonempty v) = v.
Proof.
  unfold nonempty. destruct (Z.eqb_spec (len v) 0) as [E|]; [|done]. destruct v; [done|].
  rewrite len_cons in E. pose proof (len_nonneg v). lia.
Qed.

#[export] Instance same_object_preorder d : PreOrder (same_object d).
Proof. split; [by split|]. intros o1 o2 o3 [] []. split; congruence. Qed.

Lemma getTrie_spec d o :
  obj_ok d o ->
  exists t o', getTrie d o = (Some t, o') /\ trie_ok t /\ content t = storage_trie d o /\
    obj_ok d o' /\ same_object d o o' /\ cachedStorage o' = cachedStorage o /\
    cachedStorageByteArray o' = cachedStorageByteArray o /\ dirtyStorage o' = dirtyStorage o /\
    dirtyStorageByteArray o' = dirtyStorageByteArray o /\ storage_trie d o' = storage_trie d o.
Proof.
  intros [Ht Hc]. unfold getTrie, storage_trie. destruct (obj_trie o) as [t|] eqn:Et.
  - exists t, o. rewrite Et. by split_and!; try split; rewrite ?Et.
  - destruct Ht as (t & Ho & Hok). rewrite Ho. exists t, (set_trie o (Some t)). cbn.
    split_and!; try done. split; try done. unfold view, code_view, storage_view, bytes_view, storage_trie.
    cbn. by rewrite Et, Ho.
Qed.

(** Filling the cache with the value it would answer changes nothing. *)
Lemma cache_storage d o k v :
  obj_ok d o -> storage_view d o !! k = nonzero v -> cachedStorage o !! k = None ->
  let o' := set_storage o (<[k := v]> (cachedStorage o)) (dirtyStorage o) in
  obj_ok d o' /\ same_object d o o'.
Proof.
  intros [Ht Hc] Hv Hk. split; split; try done. unfold view. f_equal. apply map_eq. intros k'.
  destruct (decide (k = k')) as [<-|].
  - rewrite storage_view_lookup. cbn. by rewrite lookup_insert_eq, Hv.
  - rewrite !storage_view_lookup. cbn. by rewrite lookup_insert_ne.
Qed.

Lemma cache_bytes d o k v :
  obj_ok d o -> bytes_view d o !! k = nonempty v -> cachedStorageByteArray o !! k = None ->
  let o' := set_bytes o (<[k := v]> (cachedStorageByteArray o)) (dirtyStorageByteArray o) in
  obj_ok d o' /\ same_object d o o'.
Proof.
  intros [Ht Hc] Hv Hk. split; split; try done. unfold view. f_equal. apply map_eq. intros k'.
  destruct (decide (k = k')) as [<-|].
  - rewrite bytes_view_lookup. cbn. by rewrite lookup_insert_eq, Hv.
  - rewrite !bytes_view_lookup. cbn. by rewrite lookup_insert_ne.
Qed.

Lemma obj_setError_same d err o :
  obj_ok d o -> obj_ok d (obj_setError err o) /\ same_object d o (obj_setError err o) /\
  cachedStorage (obj_setError err o) = cachedStorage o /\
  storage_view d (obj_setError err o) = storage_view d o.
Proof.
  intros [Ht Hc]. unfold obj_setError. destruct (obj_dbErr o); split_and!; try done; by split.
Qed.

Lemma BytesToHash_nil : BytesToHash [] = emptyHash.
Proof. apply bits_eq. reflexivity. Qed.

Lemma obj_GetState_spec d k o :
  obj_ok d o ->
  let '(v, o') := obj_GetState d k o in
  v = default emptyHash (storage_view d o !! k) /\ obj_ok d o' /\ same_object d o o'.
Proof.
  intros Ho. unfold obj_GetState. pose proof (storage_view_lookup d o k) as Hl.
  destruct (cachedStorage o !! k) as [v|] eqn:Ek.
  { split_and!; try done. by rewrite Hl, nonzero_default. }
  destruct (getTrie_spec d o Ho) as (t & o1 & -> & Hok & Hct & Ho1 & Hs1 & Hc1 & _ & _ & _ & Ht1).
  rewrite TryGet_spec, Hct by done.
  assert (storage_view d o1 = storage_view d o) as Hsv by (destruct Hs1; by injection sm_view0).
  set (r := if _ >? 0 then _ else _).
  assert (nonzero r.1 = storage_view d o !! k /\ obj_ok d r.2 /\ same_object d o1 r.2 /\
          cachedStorage r.2 = cachedStorage o1 /\ storage_view d r.2 = storage_view d o1)
    as (Hv & Ho2 & Hs2 & Hc2 & Hsv2).
  { unfold r. rewrite Hl. destruct (storage_trie d o !! Hash_Bytes k) as [enc|] eqn:Eenc; cbn.
    - destruct (len enc >? 0) eqn:Elen.
      + destruct (Split enc) as [c err]. cbn.
        destruct err; [|by split_and!]. split; [done|]. by apply obj_setError_same.
      + pose proof (content_nonempty t (Hash_Bytes k) enc Hok ltac:(by rewrite Hct)) as Hne.
        exfalso. apply Hne, len_nil_iff. pose proof (len_nonneg enc). lia.
    - by split_and!. }
  destruct r as [v o2]. cbn in *. split; [by rewrite <- Hv, nonzero_default|].
  destruct (negb (EmptyHash v)); [|split; [done|by etrans]].
  destruct (cache_storage d o2 k v) as [? ?]; [done|by rewrite Hsv2, Hsv|by rewrite Hc2, Hc1|].
  split; [done|]. etrans; [done|]. by etrans.
Qed.

Lemma obj_GetStateByteArray_spec d k o :
  obj_ok d o ->
  let '(v, o') := obj_GetStateByteArray d k o in
  v = default [] (bytes_view d o !! k) /\ obj_ok d o' /\ same_object d o o'.
Proof.
  intros Ho. unfold obj_GetStateByteArray. pose proof (bytes_view_lookup d o k) as Hl.
  destruct (cachedStorageByteArray o !! k) as [v|] eqn:Ek.
  { split_and!; try done. by rewrite Hl, nonempty_default. }
  destruct (getTrie_spec d o Ho) as (t & o1 & -> & Hok & Hct & Ho1 & Hs1 & _ & Hc1 & _ & _ & Ht1).
  rewrite TryGet_spec, Hct by done.
  assert (bytes_view d o1 = bytes_view d o) as Hsv by (destruct Hs1; by injection sm_view0).
  set (v := default [] (storage_trie d o !! Hash_Bytes k)).
  assert (nonempty v = bytes_view d o !! k) as Hv.
  { rewrite Hl. unfold v. by destruct (storage_trie d o !! Hash_Bytes k). }
  split; [by rewrite <- Hv, nonempty_default|].
  destruct (_ && _); [|by split].
  destruct (cache_bytes d o1 k v) as [? ?]; [done|by rewrite Hsv|by rewrite Hc1|].
  split; [done|]. by etrans.
Qed.

(** * Setters of state objects *)

Lemma view_setState d o k v :
  view d (set_storage o (<[k := v]> (cachedStorage o)) (<[k := v]> (dirtyStorage o))) =
  with_storage k v (view d o).
Proof.
  unfold view, with_storage. cbn [a_nonce a_balance a_code a_storage a_bytes a_suicided].
  f_equal. apply map_eq. intros k'.
  destruct (decide (k = k')) as [<-|].
  - rewrite storage_view_lookup. cbn. rewrite lookup_insert_eq. unfold nonzero.
    destruct (EmptyHash v); by rewrite ?lookup_delete_eq, ?lookup_insert_eq.
  - rewrite storage_view_lookup. cbn. rewrite lookup_insert_ne by done.
    destruct (EmptyHash v); rewrite ?lookup_delete_ne, ?lookup_insert_ne by done;
      by rewrite storage_view_lookup.
Qed.

Lemma view_setBytes d o k v :
  view d (set_bytes o (<[k := v]> (cachedStorageByteArray o)) (<[k := v]> (dirtyStorageByteArray o))) =
  with_bytes k v (view d o).
Proof.
  unfold view, with_bytes. cbn [a_nonce a_balance a_code a_storage a_bytes a_suicided].
  f_equal. apply map_eq. intros k'.
  destruct (decide (k = k')) as [<-|].
  - rewrite bytes_view_lookup. cbn. rewrite lookup_insert_eq. unfold nonempty.
    destruct (len v =? 0); by rewrite ?lookup_delete_eq, ?lookup_insert_eq.
  - rewrite bytes_view_lookup. cbn. rewrite lookup_insert_ne by done.
    destruct (len v =? 0); rewrite ?lookup_delete_ne, ?lookup_insert_ne by done;
      by rewrite bytes_view_lookup.
Qed.

Lemma view_setCode d o h c :
  database_ok d -> hash (default [] c) = h -> (c = None -> h = emptyCodeHash hash) ->
  let o' := set_code (set_data o (mkAcct (Nonce (data o)) (Balance (data o)) (Root (data o)) h)) c true in
  view d o' = with_code (default [] c) (view d o) /\ (obj_ok d o -> obj_ok d o').
Proof.
  intros Hd Hh Hc o'.
  assert (code_view d o' = default [] c) as Hcv.
  { unfold code_view, o'. cbn. destruct c as [c|]; [done|].
    rewrite (Hc eq_refl). by apply no_code. }
  split.
  - unfold view, with_code. rewrite Hcv. done.
  - intros [Ht _]. split; [done|]. rewrite Hcv. done.
Qed.

(** * Undo, on the abstract state *)

Abbreviation entry := (@journalEntry tr).

Definition on_acct (a : Address) (f : account -> account) (s : astate) : option astate :=
  c ← accounts s !! a; Some (set_accounts s (<[a := f c]> (accounts s))).

Definition aundo (d : dbt) (e : entry) (s : astate) : option astate :=
  match e with
  | createObjectChange a => Some (set_accounts s (delete a (accounts s)))
  | resetObjectChange prev =>
      Some (set_accounts s (<[address prev := view d prev]> (accounts s)))
  | suicideChange a prev b =>
      on_acct a (fun c => mkAccount (a_nonce c) b (a_code c) (a_storage c) (a_bytes c) prev) s
  | balanceChange a prev => on_acct a (with_balance (fun _ => prev)) s
  | nonceChange a prev => on_acct a (with_nonce prev) s
  | storageChange a k v => on_acct a (with_storage k v) s
  | storageByteArrayChange a k v => on_acct a (with_bytes k v) s
  | codeChange a c h => on_acct a (with_code (default [] c)) s
  | refundChange prev =>
      Some (mkState (accounts s) prev (StateSpec.logs s) (StateSpec.logSize s)
              (StateSpec.preimages s) (txinfo s))
  | addLogChange h =>
      l ← StateSpec.logs s !! h;
      Some (mkState (accounts s) (StateSpec.refund s)
              (if len l =? 1 then delete h (StateSpec.logs s)
               else <[h := take (length l - 1) l]> (StateSpec.logs s))
              (u64 (StateSpec.logSize s - 1)) (StateSpec.preimages s) (txinfo s))
  | addPreimageChange h =>
      Some (mkState (accounts s) (StateSpec.refund s) (StateSpec.logs s) (StateSpec.logSize s)
              (delete h (StateSpec.preimages s)) (txinfo s))
  | touchChange a _ _ => on_acct a (fun c => c) s
  end.

(** What undoing an entry relies on. *)
Definition entry_ok (s : sdb) (e : entry) : Prop :=
  match e with
  | createObjectChange a => base s !! a = None
  | resetObjectChange prev => obj_ok (db s) prev /\ deleted prev = false
  | codeChange _ c h => hash (default [] c) = h /\ (c = None -> h = emptyCodeHash hash)
  | _ => True
  end.

(** States with the same backing store, journal and revisions. *)
Record same_store (s s' : sdb) : Prop := {
  ss_db : db s' = db s;
  ss_trie : trie s' = trie s;
  ss_journal : journal s' = journal s;
  ss_revisions : validRevisions s' = validRevisions s;
  ss_next : nextRevisionId s' = nextRevisionId s;
}.

Lemma same_but_objects_store s s' : same_but_objects s s' -> same_store s s'.
Proof. intros []. by split. Qed.

(** A change of an existing object. *)
Lemma on_object_spec a f g s c :
  struct_ok s -> accounts (absState s) !! a = Some c ->
  (forall o, obj_ok (db s) o -> deleted o = false -> address o = a -> exists o',
     (forall s1, f o s1 = dirtied o' s1) /\ obj_ok (db s) o' /\ deleted o' = false /\
     address o' = a /\ view (db s) o' = g (view (db s) o)) ->
  exists s', on_object hash a f s = Some s' /\ struct_ok s' /\ same_but_objects s s' /\
    absState s' = set_accounts (absState s) (<[a := g c]> (accounts (absState s))).
Proof.
  intros Hs Hc Hf. unfold on_object.
  pose proof (getStateObject_spec a s Hs) as Hg.
  destruct (getStateObject hash a s) as [[o|] s1]; [|destruct Hg as (_ & _ & _ & ? & _); congruence].
  destruct Hg as (Hs1 & Hsame & Habs & _ & Hd & Ha & Ho & Hv).
  assert (c = view (db s) o) as -> by congruence.
  destruct (Hf o Ho Hd Ha) as (o' & Hfo & Ho' & Hd' & Ha' & Hv').
  pose proof (sb_db _ _ Hsame) as Hdb.
  destruct (dirtied_ok o' s1) as (? & ? & Habs'); [done|by rewrite Hdb|done|].
  exists (dirtied o' s1). rewrite Hfo. split_and!; [done|done|by etrans|].
  rewrite Habs', Habs, Ha', Hdb, Hv'. done.
Qed.

Ltac object_change :=
  let o := fresh "o" in
  intros o ? ? ?; eexists; split; [by intros|];
  split; [|split; [done|split; [done|]]].

Lemma undo_object e a f g s c :
  struct_ok s -> accounts (absState s) !! a = Some c ->
  undo hash e s = on_object hash a f s ->
  (forall o, obj_ok (db s) o -> deleted o = false -> address o = a -> exists o',
     (forall s1, f o s1 = dirtied o' s1) /\ obj_ok (db s) o' /\ deleted o' = false /\
     address o' = a /\ view (db s) o' = g (view (db s) o)) ->
  exists s', undo hash e s = Some s' /\ struct_ok s' /\ same_store s s' /\
    absState s' = set_accounts (absState s) (<[a := g c]> (accounts (absState s))).
Proof.
  intros Hs Hc -> Hf. destruct (on_object_spec a f g s c Hs Hc Hf) as (s' & ? & ? & ? & ?).
  exists s'. split_and!; try done. by apply same_but_objects_store.
Qed.

(** Forgetting a live object whose account is not in the trie. *)
Lemma forget_object s s' a :
  struct_ok s -> base s !! a = None -> same_but_objects s s' ->
  stateObjects s' = delete a (stateObjects s) ->
  struct_ok s' /\ absState s' = set_accounts (absState s) (delete a (accounts (absState s))).
Proof.
  intros [] Hb Hsame Hobj. pose proof (same_base _ _ Hsame) as Hbase. destruct Hsame. split.
  - split; try (by rewrite ?sb_db0, ?sb_trie0, ?sb_logSize0, ?sb_logs0).
    intros b o Ho. rewrite Hbase, sb_db0. rewrite Hobj in Ho.
    apply lookup_delete_Some in Ho as [_ Ho]. by apply so_objects0.
  - unfold absState, set_accounts. cbn. rewrite sb_refund0, sb_logs0, sb_logSize0, sb_preimages0, sb_tx0.
    f_equal. apply map_eq. intros b. rewrite abs_accounts_lookup, Hobj.
    destruct (decide (a = b)) as [<-|].
    + by rewrite !lookup_delete_eq, Hbase.
    + rewrite !lookup_delete_ne, abs_accounts_lookup by done. by rewrite sb_db0, Hbase.
Qed.

Lemma undo_touch a prev pd s c :
  struct_ok s -> accounts (absState s) !! a = Some c ->
  exists s', undo hash (touchChange a prev pd) s = Some s' /\ struct_ok s' /\ same_store s s' /\
    absState s' = absState s.
Proof.
  intros Hs Hc. cbn [undo]. destruct (_ && _); [|by exists s]. unfold on_object.
  pose proof (getStateObject_spec a s Hs) as Hg.
  destruct (getStateObject hash a s) as [[o|] s1]; [|destruct Hg as (_ & _ & _ & ? & _); congruence].
  destruct Hg as (Hs1 & Hsame & Habs & Hlook & Hd & Ha & Ho & Hv).
  set (o' := set_flags o _ _ _ _). set (s2 := setStateObject o' s1).
  pose proof (sb_db _ _ Hsame) as Hdb.
  destruct (set_object_ok s1 s2 a o') as [Hs2 Habs2]; try done.
  { cbn. by rewrite Ha. }
  { rewrite Hdb. by destruct Ho. }
  assert (absState s2 = absState s) as Habs'.
  { rewrite Habs2. change (view (db s1) o') with (view (db s1) o).
    rewrite (set_accounts_same (absState s1) a); [done|]. rewrite Habs, Hv. by rewrite Hdb. }
  assert (same_but_objects s s2) by (etrans; [done|by split]).
  eexists. split; [done|]. destruct (negb pd).
  - set (s3 := set_objects s2 _ _).
    assert (same_but_objects s2 s3) by by split.
    split_and!; [by eapply struct_ok_same| |by rewrite (absState_same s2 s3)].
    apply same_but_objects_store. by etrans.
  - split_and!; [done|by apply same_but_objects_store|done].
Qed.

Lemma undo_suicide a prev b s c :
  struct_ok s -> accounts (absState s) !! a = Some c ->
  undo hash (suicideChange a prev b) s =
  on_object hash a (fun o => setBalance b (set_flags o prev (touched o) (deleted o) (onDirty o))) s.
Proof.
  intros Hs Hc. cbn [undo]. unfold on_object.
  pose proof (getStateObject_spec a s Hs) as Hg.
  destruct (getStateObject hash a s) as [[o|] s1]; [done|].
  destruct Hg as (_ & _ & _ & ? & _). congruence.
Qed.

Lemma undo_spec e s t :
  struct_ok s -> entry_ok s e -> aundo (db s) e (absState s) = Some t ->
  exists s', undo hash e s = Some s' /\ struct_ok s' /\ same_store s s' /\ absState s' = t.
Proof.
  intros Hs He Ht. destruct e as [a|prev|a prev b|a prev|a prev|a k v|a k v|a c h|prev|h|h|a prev pd];
    cbn in He; cbn [aundo] in Ht;
    try (unfold on_acct in Ht; apply bind_Some in Ht as (c0 & Hc & [= <-])).
  - injection Ht as <-. eexists. split; [done|].
    match goal with |- struct_ok ?s' /\ _ =>
      destruct (forget_object s s' a) as [? ?]; try done; by split_and! end.
  - injection Ht as <-. destruct He as [Ho Hd]. eexists. split; [done|].
    match goal with |- struct_ok ?s' /\ _ =>
      destruct (set_object_ok s s' (address prev) prev) as [? ?]; try done; by split_and! end.
  - eapply (undo_object _ a _ (fun c => mkAccount (a_nonce c) b (a_code c) (a_storage c)
                                          (a_bytes c) prev)); [done|done|by eapply undo_suicide|].
    object_change; [by destruct H0|done].
  - eapply (undo_object _ a (setBalance prev)); [done|done|done|]. object_change; by destruct H0.
  - eapply (undo_object _ a (setNonce prev)); [done|done|done|]. object_change; by destruct H0.
  - eapply (undo_object _ a (setState k v)); [done|done|done|].
    object_change; [by destruct H0|apply view_setState].
  - eapply (undo_object _ a (setStateByteArray k v)); [done|done|done|].
    object_change; [by destruct H0|apply view_setBytes].
  - destruct He as [Hh Hn].
    eapply (undo_object _ a (setCode h c)); [done|done|done|].
    object_change; by apply (view_setCode (db s) o h c (so_db _ Hs) Hh Hn).
  - injection Ht as <-. eexists. split; [done|]. destruct Hs. by split_and!.
  - rename c0 into l, Hc into Hl. cbn in Hl. cbn [undo]. rewrite Hl. change (default [] (Some l)) with l.
    pose proof (so_logs _ Hs h l Hl) as Hne. cbn in Hne. rewrite <- len_nil_iff in Hne.
    destruct (Z.eqb_spec (len l) 0); [done|]. eexists. split; [done|]. split_and!; try done.
    destruct Hs. split; try done; cbn; [apply u64_range|].
    destruct (Z.eqb_spec (len l) 1); [by apply map_Forall_delete|].
    apply map_Forall_insert_2; [|done]. rewrite <- len_nil_iff. unfold len in *.
    rewrite length_take. lia.
  - injection Ht as <-. eexists. split; [done|]. destruct Hs. by split_and!.
  - destruct (undo_touch a prev pd s c0 Hs Hc) as (s' & ? & ? & ? & Habs).
    exists s'. split_and!; try done. rewrite Habs. symmetry. by apply set_accounts_same.
Qed.

(** * The journal *)

Fixpoint aundos (d : dbt) (j : list entry) (s : astate) : option astate :=
  match j with
  | [] => Some s
  | e :: j' => s' ← aundo d e s; aundos d j' s'
  end.

(** The whole journal can be undone. *)
Fixpoint undoable (x : sdb) (j : list entry) (s : astate) : Prop :=
  match j with
  | [] => True
  | e :: j' => entry_ok x e /\ exists s', aundo (db x) e s = Some s' /\ undoable x j' s'
  end.

Record revisions_ok (s : sdb) : Prop := {
  rv_bound i id j : validRevisions s !! i = Some (id, j) ->
    id < nextRevisionId s /\ (j <= length (journal s))%nat;
  rv_sorted i1 i2 id1 id2 j1 j2 : (i1 < i2)%nat ->
    validRevisions s !! i1 = Some (id1, j1) -> validRevisions s !! i2 = Some (id2, j2) ->
    id1 < id2 /\ (j1 <= j2)%nat;
}.

Record dbOk (s : sdb) : Prop := {
  ok_struct : struct_ok s;
  ok_journal : undoable s (journal s) (absState s);
  ok_revisions : revisions_ok s;
}.

Definition coversImpl (s : sdb) (id : Z) (t : astate) : Prop :=
  exists i j, validRevisions s !! i = Some (id, j) /\
    aundos (db s) (take (length (journal s) - j) (journal s)) (absState s) = Some t.

(** [s'] is [s] after changes recorded by the entries [E]. *)
Record extends (s s' : sdb) (E : list entry) : Prop := {
  ex_db : db s' = db s;
  ex_trie : trie s' = trie s;
  ex_journal : journal s' = E ++ journal s;
  ex_revisions : validRevisions s' = validRevisions s;
  ex_next : nextRevisionId s' = nextRevisionId s;
  ex_struct : struct_ok s';
  ex_entries : Forall (entry_ok s) E;
  ex_undo : aundos (db s) E (absState s') = Some (absState s);
}.

Lemma aundos_app d E j s : aundos d (E ++ j) s = s' ← aundos d E s; aundos d j s'.
Proof.
  revert s. induction E as [|e E IH]; intros s; [done|]. cbn.
  destruct (aundo d e s) as [s'|]; cbn; [apply IH|done].
Qed.

Lemma entry_ok_same x y e : db y = db x -> trie y = trie x -> entry_ok x e -> entry_ok y e.
Proof.
  intros Hd Ht. destruct e; cbn; try done; [|by rewrite Hd].
  intros Hb. unfold base in *. by rewrite Hd, Ht.
Qed.

Lemma undoable_same x y j s : db y = db x -> trie y = trie x -> undoable x j s -> undoable y j s.
Proof.
  intros Hd Ht. revert s. induction j as [|e j IH]; intros s; [done|]. cbn.
  intros (He & s' & Hs' & Hj). split; [by eapply entry_ok_same|].
  exists s'. rewrite Hd. split; [done|]. by apply IH.
Qed.

Lemma undoable_app x E j s s' :
  Forall (entry_ok x) E -> aundos (db x) E s = Some s' -> undoable x j s' -> undoable x (E ++ j) s.
Proof.
  revert s. induction E as [|e E IH]; intros s HE Hs Hj; cbn in *; [by simplify_eq|].
  apply Forall_cons_iff in HE as [He HE]. apply bind_Some in Hs as (s1 & Hs1 & Hs).
  split; [done|]. exists s1. split; [done|]. by apply IH.
Qed.

Lemma extends_refl s : struct_ok s -> extends s s [].
Proof. intros. by split. Qed.

Lemma extends_trans s1 s2 s3 E1 E2 :
  extends s1 s2 E1 -> extends s2 s3 E2 -> extends s1 s3 (E2 ++ E1).
Proof.
  intros [] []. split; try congruence.
  - rewrite ex_journal1, ex_journal0. by rewrite app_assoc.
  - apply Forall_app. split; [|done]. eapply Forall_impl; [|done]. intros e. by apply entry_ok_same.
  - rewrite aundos_app. rewrite <- ex_db0, ex_undo1. cbn. by rewrite ex_db0.
Qed.

Lemma extends_load s s' :
  struct_ok s' -> same_but_objects s s' -> absState s' = absState s -> extends s s' [].
Proof. intros ? [] Habs. split; try done. cbn. by rewrite Habs. Qed.

Lemma extends_ok s s' E :
  dbOk s -> extends s s' E ->
  dbOk s' /\ forall id t, coversImpl s id t -> coversImpl s' id t.
Proof.
  intros [Hs Hj [Hb Hso]] []. split.
  - split; [done| |].
    + rewrite ex_journal0. apply (undoable_app _ _ _ _ (absState s)).
      * eapply Forall_impl; [|done]. intros e. by apply entry_ok_same.
      * by rewrite ex_db0.
      * by eapply undoable_same.
    + split; rewrite ?ex_revisions0, ?ex_next0, ?ex_journal0; [|done].
      intros i id j Hi. rewrite length_app. destruct (Hb i id j Hi). split; [done|lia].
  - intros id t (i & j & Hi & Ht). exists i, j. rewrite ex_revisions0, ex_db0, ex_journal0.
    split; [done|]. destruct (Hb i id j Hi).
    rewrite length_app, take_app_ge by lia.
    replace (length E + length (journal s) - j - length E)%nat with (length (journal s) - j)%nat by lia.
    rewrite aundos_app, ex_undo0. done.
Qed.

(** * Operations *)

Lemma new_object_ok d a b :
  database_ok d -> obj_ok d (newObject hash a (emptyAccount hash) b) /\
  view d (newObject hash a (emptyAccount hash) b) = new_account.
Proof.
  intros Hd. destruct (empty_root _ Hd (hash (Address_Bytes a))) as (t & Ht & Hok & Hc).
  assert (code_view d (newObject hash a (emptyAccount hash) b) = []) as Hcv by apply (no_code _ Hd).
  assert (storage_trie d (newObject hash a (emptyAccount hash) b) = ∅) as Hst.
  { unfold storage_trie, newObject. cbn [obj_trie addrHash data Root emptyAccount]. by rewrite Ht. }
  split.
  - split; [by exists t|]. by rewrite Hcv.
  - unfold view, new_account. rewrite Hcv. f_equal.
    + apply map_eq. intros k. rewrite storage_view_lookup, Hst. cbn [newObject cachedStorage].
      by rewrite !lookup_empty.
    + apply map_eq. intros k. rewrite bytes_view_lookup, Hst. cbn [newObject cachedStorageByteArray].
      by rewrite !lookup_empty.
Qed.

Lemma record_ok e s : struct_ok s -> struct_ok (record e s) /\ absState (record e s) = absState s.
Proof. intros []. by split. Qed.

(** Recording an entry that undoes the change of one object. *)
Lemma record_change e s s' a o :
  struct_ok s -> entry_ok s e -> same_but_objects (record e s) s' ->
  stateObjects s' = <[a := o]> (stateObjects s) ->
  address o = a -> obj_ok (db s) o -> deleted o = false ->
  aundo (db s) e (set_accounts (absState s) (<[a := view (db s) o]> (accounts (absState s)))) =
    Some (absState s) ->
  extends s s' [e] /\
  absState s' = set_accounts (absState s) (<[a := view (db s) o]> (accounts (absState s))).
Proof.
  intros Hs He Hsame Hobj Ha Ho Hd Hu. destruct (record_ok e s Hs) as [Hr Habs].
  destruct (set_object_ok (record e s) s' a o) as [Hs' Habs']; try done.
  assert (absState s' = set_accounts (absState s) (<[a := view (db s) o]> (accounts (absState s)))) as Hfin.
  { by rewrite Habs'. }
  split; [|done]. destruct Hsame. split; try done.
  - by apply Forall_cons_iff.
  - cbn [aundos]. by rewrite Hfin, Hu.
Qed.

Lemma record_dirtied e s o :
  struct_ok s -> entry_ok s e -> obj_ok (db s) o -> deleted o = false ->
  aundo (db s) e (set_accounts (absState s) (<[address o := view (db s) o]> (accounts (absState s)))) =
    Some (absState s) ->
  extends s (dirtied o (record e s)) [e] /\
  absState (dirtied o (record e s)) =
    set_accounts (absState s) (<[address o := view (db s) o]> (accounts (absState s))).
Proof.
  intros Hs He Ho Hd Hu. set (o' := set_flags o (suicided o) (touched o) (deleted o) false).
  destruct (record_ok e s Hs) as [Hr _].
  destruct (record_change e s (dirtied o (record e s)) (address o) o') as [? ?]; try done.
  - by apply dirtied_ok.
  - unfold dirtied. by destruct (onDirty o).
  - by destruct Ho.
Qed.

(** An inverse change of an account that existed. *)
Lemma on_acct_restore a (f : account) g s c :
  accounts s !! a = Some c -> g f = c ->
  on_acct a g (set_accounts s (<[a := f]> (accounts s))) = Some s.
Proof.
  intros Hc Hg. unfold on_acct. cbn. rewrite lookup_insert_eq. cbn.
  rewrite insert_insert_eq, Hg, (insert_id _ _ _ Hc). unfold set_accounts. cbn. by destruct s.
Qed.

Lemma createObject_spec a s :
  struct_ok s ->
  let '(o, prev, s') := createObject hash a s in
  exists E, extends s s' E /\
  (forall c, aundos (db s) E (set_accounts (absState s) (<[a := c]> (accounts (absState s)))) =
             Some (absState s)) /\
  absState s' = set_accounts (absState s) (<[a := new_account]> (accounts (absState s))) /\
  stateObjects s' !! a = Some o /\ address o = a /\ deleted o = false /\ onDirty o = false /\
  obj_ok (db s) o /\ view (db s) o = new_account /\
  match prev with
  | Some p => accounts (absState s) !! a = Some (view (db s) p)
  | None => accounts (absState s) !! a = None
  end.
Proof.
  intros Hs. unfold createObject. pose proof (getStateObject_spec a s Hs) as Hg.
  destruct (getStateObject hash a s) as [prev s1].
  destruct Hg as (Hs1 & Hsame & Habs & Hprev).
  pose proof (extends_load s s1 Hs1 Hsame Habs) as Hext1.
  pose proof (sb_db _ _ Hsame) as Hdb.
  destruct (new_object_ok (db s) a false (so_db _ Hs)) as [Ho Hv].
  set (o := newObject _ _ _ _) in *. set (s2 := MarkStateObjectDirty a s1).
  assert (same_but_objects s1 s2) as Hsame2 by by split.
  pose proof (struct_ok_same s1 s2 Hs1 Hsame2 eq_refl) as Hs2.
  pose proof (absState_same s1 s2 Hsame2 eq_refl) as Habs2.
  assert (extends s s2 []) as Hext2.
  { apply extends_load; [done|by etrans|congruence]. }
  assert (Habs02 : absState s2 = absState s) by congruence.
  assert (exists e, match prev with
          | None => record (createObjectChange a) s2
          | Some o => record (resetObjectChange o) s2
          end = record e s2 /\ entry_ok s2 e /\ forall c,
          aundo (db s) e (set_accounts (absState s) (<[a := c]> (accounts (absState s))))
          = Some (absState s)) as (e & -> & He & Hu).
  { destruct prev as [p|].
    - exists (resetObjectChange p). destruct Hprev as (_ & Hd & Ha & Hop & Hvp).
      split; [done|]. split; [split; [cbn; by rewrite Hdb|done]|]. intros c. cbn [aundo]. f_equal.
      rewrite Ha. unfold set_accounts at 1 2. cbn.
      rewrite insert_insert_eq. by apply (set_accounts_same (absState s)).
    - exists (createObjectChange a). destruct Hprev as [Hacc Hbase].
      split; [done|]. split; [cbn; rewrite (same_base s s2); [done|by etrans]|].
      intros c. cbn [aundo]. f_equal. unfold set_accounts. cbn [accounts].
      rewrite delete_insert_id by done. by destruct (absState s). }
  destruct (record_change e s2 (setStateObject o (record e s2)) a o) as [Hext3 Habs3]; try done.
  { cbn. by rewrite Hdb. }
  { change (db s2) with (db s1). rewrite Hdb, Habs02. apply Hu. }
  exists ([e] ++ []). split_and!; try done.
  - by eapply extends_trans.
  - intros c. cbn. by rewrite Hu.
  - rewrite Habs3, Habs02. cbn [db s2 MarkStateObjectDirty set_objects]. by rewrite Hdb, Hv.
  - cbn. by rewrite lookup_insert_eq.
  - destruct prev; [by destruct Hprev as (_ & _ & _ & _ & ?)|by destruct Hprev].
Qed.

Lemma GetOrNewStateObject_spec a s :
  struct_ok s ->
  let '(o, s') := GetOrNewStateObject hash a s in
  exists E, extends s s' E /\
  absState s' = set_accounts (absState s) (<[a := acct (absState s) a]> (accounts (absState s))) /\
  address o = a /\ deleted o = false /\ obj_ok (db s') o /\ view (db s') o = acct (absState s) a /\
  accounts (absState s') !! a = Some (view (db s') o).
Proof.
  intros Hs. unfold GetOrNewStateObject. pose proof (getStateObject_spec a s Hs) as Hg.
  destruct (getStateObject hash a s) as [[o|] s1].
  - destruct Hg as (Hs1 & Hsame & Habs & _ & Hd & Ha & Ho & Hv). exists [].
    pose proof (sb_db _ _ Hsame) as Hdb. rewrite Hdb.
    assert (acct (absState s) a = view (db s) o) as Hac by (unfold acct; by rewrite Hv).
    split_and!; try done; [by apply extends_load| |by rewrite Habs].
    rewrite Habs. symmetry. apply set_accounts_same. by rewrite Hac.
  - destruct Hg as (Hs1 & Hsame & Habs & Hn & _).
    pose proof (createObject_spec a s1 Hs1) as Hc.
    destruct (createObject hash a s1) as [[o prev] s2].
    destruct Hc as (E & Hext & _ & Habs2 & _ & ? & ? & _ & ? & Hv & _).
    pose proof (extends_load s s1 Hs1 Hsame Habs) as Hext1.
    assert (acct (absState s) a = new_account) as Hac by (unfold acct; by rewrite Hn).
    exists (E ++ []). rewrite (ex_db _ _ _ Hext), Hac. split_and!; try done.
    + by eapply extends_trans.
    + by rewrite Habs2, Habs.
    + rewrite Habs2. cbn. by rewrite lookup_insert_eq, Hv.
Qed.

(** [s'] is the state after the update [u] of [s]. *)
Definition updates (u : update) (s s' : sdb) : Prop :=
  exists E, extends s s' E /\ absState s' = abs_update u (absState s).

(** A journalled change of the object of an account. *)
Lemma update_object a s f (mk : obj -> obj) (ent : obj -> entry) :
  struct_ok s ->
  (forall o, obj_ok (db s) o -> address o = a -> deleted o = false ->
     obj_ok (db s) (mk o) /\ deleted (mk o) = false /\ address (mk o) = a /\
     view (db s) (mk o) = f (view (db s) o)) ->
  (forall x o st, db x = db s -> obj_ok (db s) o -> entry_ok x (ent o) /\
     (accounts st !! a = Some (view (db s) o) ->
      aundo (db s) (ent o) (set_accounts st (<[a := f (view (db s) o)]> (accounts st))) = Some st)) ->
  let '(o, s1) := GetOrNewStateObject hash a s in
  exists E, extends s (dirtied (mk o) (record (ent o) s1)) E /\
    absState (dirtied (mk o) (record (ent o) s1)) = on_account a f (absState s).
Proof.
  intros Hs Hmk Hent. pose proof (GetOrNewStateObject_spec a s Hs) as Hg.
  destruct (GetOrNewStateObject hash a s) as [o s1].
  destruct Hg as (E & Hext & Habs & Ha & Hd & Ho & Hv & Hacc).
  pose proof (ex_struct _ _ _ Hext) as Hs1. pose proof (ex_db _ _ _ Hext) as Hdb. rewrite Hdb in *.
  destruct (Hmk o Ho Ha Hd) as (Ho' & Hd' & Ha' & Hv').
  destruct (Hent s1 o (absState s1) Hdb Ho) as [He Hu]. specialize (Hu Hacc).
  destruct (record_dirtied (ent o) s1 (mk o)) as [Hext2 Habs2]; rewrite ?Hdb; try done.
  { by rewrite Ha', Hv'. }
  exists ([ent o] ++ E). split; [by eapply extends_trans|].
  rewrite Habs2, Ha', Hdb, Hv', Hv, Habs. unfold on_account, set_accounts. cbn [accounts].
  by rewrite insert_insert_eq.
Qed.

Lemma GetOrNew_updates a s o s1 :
  struct_ok s -> GetOrNewStateObject hash a s = (o, s1) ->
  exists E, extends s s1 E /\ absState s1 = on_account a (fun c => c) (absState s).
Proof.
  intros Hs Hg. pose proof (GetOrNewStateObject_spec a s Hs) as Hspec. rewrite Hg in Hspec.
  destruct Hspec as (E & ? & ? & _). by exists E.
Qed.

Lemma on_account_ext a f g s : f (acct s a) = g (acct s a) -> on_account a f s = on_account a g s.
Proof. unfold on_account. by intros ->. Qed.

Lemma SetNonce_updates a n s : struct_ok s -> updates (USetNonce a n) s (SetNonce hash a n s).
Proof.
  intros Hs. unfold SetNonce, updates.
  pose proof (update_object a s (with_nonce n)
    (fun o => set_data o (mkAcct n (Balance (data o)) (Root (data o)) (CodeHash_ (data o))))
    (fun o => nonceChange a (Nonce (data o))) Hs) as Hup.
  destruct (GetOrNewStateObject hash a s) as [o s1]. apply Hup.
  - intros o' [] ? ?. by split_and!.
  - intros x o' st _ _. split; [done|]. intros Hst. eapply on_acct_restore; [done|].
    by unfold with_nonce, view.
Qed.

Lemma balance_updates a s f v :
  struct_ok s -> (forall b, f b = v b) ->
  let '(o, s1) := GetOrNewStateObject hash a s in
  exists E, extends s (setBalance (v (Balance (data o))) o (record (balanceChange a (Balance (data o))) s1)) E /\
    absState (setBalance (v (Balance (data o))) o (record (balanceChange a (Balance (data o))) s1)) =
    on_account a (with_balance f) (absState s).
Proof.
  intros Hs Hf. pose proof (update_object a s (with_balance f)
    (fun o => set_data o (mkAcct (Nonce (data o)) (v (Balance (data o))) (Root (data o)) (CodeHash_ (data o))))
    (fun o => balanceChange a (Balance (data o))) Hs) as Hup.
  destruct (GetOrNewStateObject hash a s) as [o s1]. apply Hup.
  - intros o' [] ? ?. split_and!; try done. unfold view, with_balance. cbn. by rewrite Hf.
  - intros x o' st _ _. split; [done|]. intros Hst. eapply on_acct_restore; [done|]. done.
Qed.

Lemma touch_updates a s :
  struct_ok s ->
  let '(o, s1) := GetOrNewStateObject hash a s in
  exists E, extends s (touch o s1) E /\ absState (touch o s1) = on_account a (fun c => c) (absState s).
Proof.
  intros Hs. pose proof (GetOrNewStateObject_spec a s Hs) as Hspec.
  pose proof (update_object a s (fun c => c)
    (fun o => set_flags o (suicided o) true (deleted o) (onDirty o))
    (fun o => touchChange a (touched o) (negb (onDirty o))) Hs) as Hup.
  destruct (GetOrNewStateObject hash a s) as [o s1]. destruct Hspec as (_ & _ & _ & Ha & _).
  unfold touch. rewrite Ha. apply Hup.
  - intros o' [] ? ?. by split_and!.
  - intros x o' st _ _. split; [done|]. intros Hst. by eapply on_acct_restore.
Qed.

Lemma AddBalance_updates a v s : struct_ok s -> updates (UAddBalance a v) s (AddBalance hash a v s).
Proof.
  intros Hs. unfold AddBalance, updates. cbn [abs_update].
  pose proof (balance_updates a s (fun b => b + Z.max 0 v) (fun b => b + v) Hs) as Hb.
  pose proof (touch_updates a s Hs) as Ht.
  destruct (GetOrNewStateObject hash a s) as [o s1] eqn:Hg.
  pose proof (GetOrNew_updates a s o s1 Hs Hg) as Hn.
  assert (v <= 0 -> on_account a (fun c => c) (absState s) =
          on_account a (with_balance (fun b => b + Z.max 0 v)) (absState s)) as Hz.
  { intros ?. apply on_account_ext. destruct (acct (absState s) a). unfold with_balance. cbn. f_equal. lia. }
  unfold Sign. destruct (Z.eqb_spec (Z.sgn v) 1).
  - apply Hb. intros. lia.
  - rewrite <- Hz by lia. destruct (Z.sgn v =? 0); [destruct (empty hash o)|]; done.
Qed.

Lemma SubBalance_updates a v s : struct_ok s -> updates (USubBalance a v) s (SubBalance hash a v s).
Proof.
  intros Hs. unfold SubBalance, updates. cbn [abs_update].
  pose proof (balance_updates a s (fun b => b - Z.max 0 v) (fun b => b - v) Hs) as Hb.
  destruct (GetOrNewStateObject hash a s) as [o s1] eqn:Hg.
  pose proof (GetOrNew_updates a s o s1 Hs Hg) as Hn.
  unfold Sign. destruct (Z.eqb_spec (Z.sgn v) 1).
  - apply Hb. intros. lia.
  - destruct Hn as (E & ? & Habs). exists E. split; [done|]. rewrite Habs.
    apply on_account_ext. destruct (acct (absState s) a). unfold with_balance. cbn. f_equal. lia.
Qed.

Lemma EmptyHash_emptyHash : EmptyHash emptyHash = true.
Proof. unfold EmptyHash. by apply bool_decide_eq_true. Qed.

Lemma with_storage_restore d o k v :
  with_storage k (default emptyHash (storage_view d o !! k)) (with_storage k v (view d o)) = view d o.
Proof.
  unfold with_storage. cbn [a_nonce a_balance a_code a_storage a_bytes a_suicided view].
  unfold view. f_equal. apply map_eq. intros k'.
  destruct (storage_view d o !! k) as [z|] eqn:Ez; cbn [default from_option id].
  - assert (EmptyHash z = false) as ->.
    { rewrite storage_view_lookup in Ez. unfold nonzero in Ez. repeat case_match; try done; simplify_eq; try done.
      apply bind_Some in Ez as (? & _ & Ez). case_match; simplify_eq; done. }
    destruct (decide (k = k')) as [<-|]; [by rewrite lookup_insert_eq|].
    rewrite lookup_insert_ne by done. destruct (EmptyHash v); by rewrite ?lookup_delete_ne, ?lookup_insert_ne.
  - rewrite EmptyHash_emptyHash. destruct (decide (k = k')) as [<-|]; [by rewrite lookup_delete_eq|].
    rewrite lookup_delete_ne by done. destruct (EmptyHash v); by rewrite ?lookup_delete_ne, ?lookup_insert_ne.
Qed.

Lemma SetState_updates a k v s : struct_ok s -> updates (USetState a k v) s (SetState hash a k v s).
Proof.
  intros Hs. unfold SetState, updates. cbn [abs_update].
  pose proof (update_object a s (with_storage k v)
    (fun o => let o := (obj_GetState (db s) k o).2 in
       set_storage o (<[k := v]> (cachedStorage o)) (<[k := v]> (dirtyStorage o)))
    (fun o => storageChange a k (obj_GetState (db s) k o).1) Hs) as Hup.
  pose proof (GetOrNewStateObject_spec a s Hs) as Hg.
  destruct (GetOrNewStateObject hash a s) as [o s1]. destruct Hg as (E & Hext & _).
  rewrite (ex_db _ _ _ Hext). destruct (obj_GetState (db s) k o) as [prev o1]. apply Hup.
  - intros o' Ho' Ha Hd. pose proof (obj_GetState_spec (db s) k o' Ho') as Hgs.
    destruct (obj_GetState (db s) k o') as [v' o2]. destruct Hgs as (_ & [] & []). cbn [snd].
    split_and!; [by split|cbn; congruence|cbn; congruence|]. rewrite view_setState. by f_equal.
  - intros x o' st _ Ho'. split; [done|]. intros Hst.
    pose proof (obj_GetState_spec (db s) k o' Ho') as Hgs.
    destruct (obj_GetState (db s) k o') as [v' o2]. destruct Hgs as (-> & _).
    eapply on_acct_restore; [done|]. apply with_storage_restore.
Qed.

Lemma with_bytes_restore d o k v :
  with_bytes k (default [] (bytes_view d o !! k)) (with_bytes k v (view d o)) = view d o.
Proof.
  unfold with_bytes. cbn [a_nonce a_balance a_code a_storage a_bytes a_suicided view].
  unfold view. f_equal. apply map_eq. intros k'.
  destruct (bytes_view d o !! k) as [z|] eqn:Ez; cbn [default from_option id].
  - assert ((len z =? 0) = false) as ->.
    { rewrite bytes_view_lookup in Ez. unfold nonempty in Ez. repeat case_match; try done; simplify_eq; try done.
      apply bind_Some in Ez as (? & _ & Ez). case_match; simplify_eq; done. }
    destruct (decide (k = k')) as [<-|]; [by rewrite lookup_insert_eq|].
    rewrite lookup_insert_ne by done. destruct (len v =? 0); by rewrite ?lookup_delete_ne, ?lookup_insert_ne.
  - change (len [] =? 0) with true. destruct (decide (k = k')) as [<-|]; [by rewrite lookup_delete_eq|].
    rewrite lookup_delete_ne by done. destruct (len v =? 0); by rewrite ?lookup_delete_ne, ?lookup_insert_ne.
Qed.

Lemma SetStateByteArray_updates a k v s :
  struct_ok s -> updates (USetStateByteArray a k v) s (SetStateByteArray hash a k v s).
Proof.
  intros Hs. unfold SetStateByteArray, updates. cbn [abs_update].
  pose proof (update_object a s (with_bytes k v)
    (fun o => let o := (obj_GetStateByteArray (db s) k o).2 in
       set_bytes o (<[k := v]> (cachedStorageByteArray o)) (<[k := v]> (dirtyStorageByteArray o)))
    (fun o => storageByteArrayChange a k (obj_GetStateByteArray (db s) k o).1) Hs) as Hup.
  pose proof (GetOrNewStateObject_spec a s Hs) as Hg.
  destruct (GetOrNewStateObject hash a s) as [o s1]. destruct Hg as (E & Hext & _).
  rewrite (ex_db _ _ _ Hext). destruct (obj_GetStateByteArray (db s) k o) as [prev o1]. apply Hup.
  - intros o' Ho' Ha Hd. pose proof (obj_GetStateByteArray_spec (db s) k o' Ho') as Hgs.
    destruct (obj_GetStateByteArray (db s) k o') as [v' o2]. destruct Hgs as (_ & [] & []). cbn [snd].
    split_and!; [by split|cbn; congruence|cbn; congruence|]. rewrite view_setBytes. by f_equal.
  - intros x o' st _ Ho'. split; [done|]. intros Hst.
    pose proof (obj_GetStateByteArray_spec (db s) k o' Ho') as Hgs.
    destruct (obj_GetStateByteArray (db s) k o') as [v' o2]. destruct Hgs as (-> & _).
    eapply on_acct_restore; [done|]. apply with_bytes_restore.
Qed.

Lemma SetCode_updates a c s : struct_ok s -> updates (USetCode a c) s (SetCode hash a c s).
Proof.
  intros Hs. unfold SetCode, updates. cbn [abs_update].
  pose proof (so_db _ Hs) as Hdb.
  pose proof (update_object a s (with_code c)
    (fun o => let o := (obj_Code hash (db s) o).2 in
       set_code (set_data o (mkAcct (Nonce (data o)) (Balance (data o)) (Root (data o)) (hash c))) (Some c) true)
    (fun o => codeChange a (obj_Code hash (db s) o).1 (CodeHash_ (data (obj_Code hash (db s) o).2))) Hs) as Hup.
  pose proof (GetOrNewStateObject_spec a s Hs) as Hg.
  destruct (GetOrNewStateObject hash a s) as [o s1]. destruct Hg as (E & Hext & _).
  rewrite (ex_db _ _ _ Hext). destruct (obj_Code hash (db s) o) as [prev o1]. apply Hup.
  - intros o' Ho' Ha Hd. pose proof (obj_Code_spec (db s) o' Hdb Ho') as Hgs.
    destruct (obj_Code hash (db s) o') as [v' o2]. destruct Hgs as (_ & _ & Ho2 & []). cbn [snd].
    destruct (view_setCode (db s) o2 (hash c) (Some c)) as [Hv Hok]; try done.
    split_and!; [by apply Hok|cbn; congruence|cbn; congruence|]. rewrite Hv. cbn. by f_equal.
  - intros x o' st _ Ho'. pose proof (obj_Code_spec (db s) o' Hdb Ho') as Hgs.
    destruct (obj_Code hash (db s) o') as [v' o2]. destruct Hgs as (Hc & Hn & Ho2 & []). cbn [fst snd].
    rewrite sm_data0. split.
    + cbn. rewrite Hc. split; [apply (obj_code_ok _ _ Ho')|done].
    + intros Hst. eapply on_acct_restore; [done|]. unfold with_code, view. cbn. by rewrite Hc.
Qed.

Lemma Suicide_updates a s : struct_ok s -> updates (USuicide a) s (Suicide hash a s).2.
Proof.
  intros Hs. unfold Suicide, updates. cbn [abs_update].
  pose proof (getStateObject_spec a s Hs) as Hg.
  destruct (getStateObject hash a s) as [[o|] s1].
  - destruct Hg as (Hs1 & Hsame & Habs & _ & Hd & Ha & Ho & Hv).
    pose proof (sb_db _ _ Hsame) as Hdb. rewrite Hv. cbn [snd]. unfold markSuicided.
    set (o' := set_flags _ _ _ _ _).
    destruct (record_dirtied (suicideChange a (suicided o) (Balance (data o))) s1 o') as [Hext Habs2];
      try done.
    { rewrite Hdb. by destruct Ho. }
    { cbn [aundo address o' set_flags set_data]. rewrite Ha. eapply on_acct_restore; [|done].
      rewrite Habs, Hdb. exact Hv. }
    exists [suicideChange a (suicided o) (Balance (data o))]. split.
    + rewrite <- (app_nil_r [_]). eapply extends_trans; [by apply extends_load|done].
    + rewrite Habs2, Habs, Hdb. cbn [address o' set_flags set_data]. by rewrite Ha.
  - destruct Hg as (Hs1 & Hsame & Habs & Hn & _). rewrite Hn. exists []. by split; [apply extends_load|].
Qed.

Lemma CreateAccount_updates a s : struct_ok s -> updates (UCreateAccount a) s (CreateAccount hash a s).
Proof.
  intros Hs. unfold CreateAccount, updates. cbn [abs_update].
  pose proof (createObject_spec a s Hs) as Hc. destruct (createObject hash a s) as [[o prev] s1].
  destruct Hc as (E & Hext & Hundo & Habs & Hl & Ha & Hd & Hdirty & Ho & Hv & Hprev).
  pose proof (ex_db _ _ _ Hext) as Hdb. exists E. destruct prev as [p|].
  - unfold setBalance. set (o' := set_data _ _).
    destruct (dirtied_ok o' s1) as (Hs2 & Hsame & Habs2); [apply Hext| |done|].
    { rewrite Hdb. by destruct Ho. }
    assert (absState (dirtied o' s1) = set_accounts (absState s) (<[a := view (db s) o']> (accounts (absState s))))
      as Habs3.
    { rewrite Habs2, Hdb, Habs. cbn [address o' set_data]. rewrite Ha. unfold set_accounts. cbn [accounts].
      by rewrite insert_insert_eq. }
    split.
    + destruct Hext, Hsame. split; congruence.
    + rewrite Habs3. unfold on_account. do 2 f_equal. unfold acct. rewrite Hprev. cbn.
      change (with_balance (fun _ => Balance (data p)) (view (db s) o) =
              with_balance (fun _ => Balance (data p)) new_account). by rewrite Hv.
  - split; [done|]. rewrite Habs. unfold on_account, acct. by rewrite Hprev.
Qed.

Lemma AddRefund_updates g s : struct_ok s -> updates (UAddRefund g) s (AddRefund g s).
Proof.
  intros Hs. exists [refundChange (refund s)]. split; [|done]. destruct (Hs).
  split; try done. by apply Forall_cons_iff.
Qed.

Lemma AddPreimage_updates h b s : struct_ok s -> updates (UAddPreimage h b) s (AddPreimage h b s).
Proof.
  intros Hs. unfold updates, AddPreimage. cbn. destruct (preimages s !! h) eqn:Eh.
  - exists []. split; [by apply extends_refl|done].
  - exists [addPreimageChange h]. split; [|done]. destruct (Hs). split; try done.
    + by apply Forall_cons_iff.
    + cbn. unfold absState. rewrite delete_insert_id by done. done.
Qed.

Lemma pop_log (m : gmap Hash (list Log)) h x :
  map_Forall (fun _ l => l <> []) m ->
  let l := default [] (m !! h) ++ [x] in
  (if len l =? 1 then delete h (<[h := l]> m) else <[h := take (length l - 1) l]> (<[h := l]> m)) = m.
Proof.
  intros Hm l. unfold l. rewrite len_app. change (len [x]) with 1. rewrite length_app. cbn [length].
  rewrite Nat.add_sub, insert_insert_eq, take_app_length.
  destruct (m !! h) as [l0|] eqn:E; cbn [default from_option id].
  - specialize (Hm h l0 E). cbn in Hm. rewrite <- len_nil_iff in Hm.
    destruct (Z.eqb_spec (len l0 + 1) 1); [lia|]. by apply insert_id.
  - rewrite len_nil. cbn. by rewrite delete_insert_id.
Qed.

Lemma u64_succ_pred n : 0 <= n < 2 ^ 64 -> u64 (u64 (n + 1) - 1) = n.
Proof. intros. unfold u64. rewrite Zminus_mod_idemp_l, Z.add_simpl_r. by apply Z.mod_small. Qed.

Lemma AddLog_updates l s : struct_ok s -> updates (UAddLog l) s (AddLog l s).
Proof.
  intros Hs. exists [addLogChange (thash s)]. unfold AddLog. set (l' := mkLog _ _ _ _ _ _ _ _).
  split; [|done]. destruct (Hs). split; try done.
  - split; try done; cbn; [apply u64_range|]. apply map_Forall_insert_2; [|done].
    by destruct (default [] (logs s !! thash s)).
  - by apply Forall_cons_iff.
  - cbn [aundos aundo absState StateSpec.logs logs set_logs]. rewrite lookup_insert_eq.
    cbn [mbind option_bind]. pose proof (pop_log (logs s) (thash s) l' so_logs0) as Hpop.
    cbn zeta in Hpop. rewrite Hpop. cbn [StateSpec.logSize absState logSize set_logs].
    by rewrite u64_succ_pred.
Qed.

(** * Reverting *)

Lemma set_journal_ok s j : struct_ok s -> struct_ok (set_journal s j) /\ absState (set_journal s j) = absState s.
Proof. intros []. by split. Qed.

(** States with the same backing store and revisions. *)
Record same_revisions (s s' : sdb) : Prop := {
  sr_db : db s' = db s;
  sr_trie : trie s' = trie s;
  sr_revisions : validRevisions s' = validRevisions s;
  sr_next : nextRevisionId s' = nextRevisionId s;
}.

(** Undoing the newest entries of the journal. *)
Lemma undo_n_spec n s :
  struct_ok s -> undoable s (journal s) (absState s) ->
  exists s', undo_n hash n s = Some s' /\ struct_ok s' /\ same_revisions s s' /\
    journal s' = drop n (journal s) /\ undoable s' (journal s') (absState s') /\
    aundos (db s) (take n (journal s)) (absState s) = Some (absState s').
Proof.
  revert s. induction n as [|n IH]; intros s Hs Hu; [by exists s|].
  cbn [undo_n]. destruct (journal s) as [|e j] eqn:Ej.
  { exists s. by rewrite Ej. }
  cbn in Hu. destruct Hu as (He & t & Ht & Hu).
  destruct (set_journal_ok s j Hs) as [Hs1 Habs1].
  destruct (undo_spec e (set_journal s j) t) as (s2 & -> & Hs2 & [] & Habs2);
    [done|by eapply entry_ok_same|by rewrite Habs1|].
  cbn in ss_journal0, ss_db0, ss_trie0, ss_revisions0, ss_next0.
  destruct (IH s2) as (s3 & Hn & Hs3 & [] & Hj & Hu3 & Ha3); [done| |].
  { rewrite ss_journal0, Habs2. by eapply undoable_same. }
  exists s3.
  rewrite ss_journal0 in Hj, Ha3. cbn [mbind option_bind take drop aundos].
  split_and!; try done; [split; congruence|]. rewrite Ht. cbn. by rewrite <- ss_db0, <- Habs2.
Qed.

(** Binary search finds the first index at which a monotone predicate holds. *)
Lemma sort_Search_loop_spec fuel i j n f :
  (j - i <= fuel)%nat -> (i <= j <= n)%nat ->
  (forall k, (k < i)%nat -> f k = false) ->
  (forall k, (j <= k < n)%nat -> f k = true) ->
  (forall k l, (k <= l < n)%nat -> f k = true -> f l = true) ->
  let r := sort_Search_loop fuel i j f in
  (r <= n)%nat /\ (forall k, (k < r)%nat -> f k = false) /\ (forall k, (r <= k < n)%nat -> f k = true).
Proof.
  revert i j. induction fuel as [|fuel IH]; intros i j Hfuel Hij Hlo Hhi Hmono; cbn [sort_Search_loop].
  { assert (i = j) as -> by lia. split_and!; [lia|done|done]. }
  destruct (Nat.ltb_spec i j); [|assert (i = j) as -> by lia; split_and!; [lia|done|done]].
  assert (i <= (i + j) / 2 < j)%nat as [Hm1 Hm2].
  { split; [apply Nat.div_le_lower_bound; lia|apply Nat.Div0.div_lt_upper_bound; lia]. }
  set (h := ((i + j) / 2)%nat) in *. destruct (f h) eqn:Eh.
  - apply IH; try done; try lia. intros k Hk. apply (Hmono h k); [lia|done].
  - apply IH; try done; try lia. intros k Hk. destruct (f k) eqn:Ek; [|done].
    rewrite (Hmono k h) in Eh; [done|lia|done].
Qed.

Lemma sort_Search_spec n f :
  (forall k l, (k <= l < n)%nat -> f k = true -> f l = true) ->
  (sort_Search n f <= n)%nat /\ (forall k, (k < sort_Search n f)%nat -> f k = false) /\
  (forall k, (sort_Search n f <= k < n)%nat -> f k = true).
Proof. intros. apply sort_Search_loop_spec; auto with lia. Qed.

(** The search of [RevertToSnapshot] finds a revision by its id. *)
Lemma find_revision s i id j :
  revisions_ok s -> validRevisions s !! i = Some (id, j) ->
  sort_Search (length (validRevisions s))
    (fun i => match validRevisions s !! i with Some (id', _) => id <=? id' | None => false end) = i.
Proof.
  intros [_ Hso] Hi. pose proof (lookup_lt_Some _ _ _ Hi) as Hlen.
  destruct (sort_Search_spec (length (validRevisions s))
    (fun i => match validRevisions s !! i with Some (id', _) => id <=? id' | None => false end))
    as (Hr & Hlo & Hhi).
  { intros k l [Hkl Hl] Hk. destruct (validRevisions s !! k) as [[ik jk]|] eqn:Ek; [|done].
    destruct (lookup_lt_is_Some_2 _ _ Hl) as [[il jl] El]. rewrite El.
    destruct (decide (k = l)) as [->|]; [by simplify_eq|].
    destruct (Hso k l ik il jk jl); [lia|done|done|]. lia. }
  set (r := sort_Search _ _) in *.
  destruct (Nat.lt_trichotomy r i) as [Hlt|[->|Hgt]]; [|done|].
  - specialize (Hhi r ltac:(lia)). destruct (lookup_lt_is_Some_2 (validRevisions s) r ltac:(lia)) as [[ir jr] Er].
    cbn in Hhi. rewrite Er in Hhi. destruct (Hso r i ir id jr j); [lia|done|done|]. lia.
  - specialize (Hlo i Hgt). cbn in Hlo. rewrite Hi in Hlo. lia.
Qed.

Lemma set_revisions_ok s r n :
  struct_ok s -> struct_ok (set_revisions s r n) /\ absState (set_revisions s r n) = absState s.
Proof. intros []. by split. Qed.

Lemma Snapshot_ok s id s' :
  dbOk s -> Snapshot s = (id, s') ->
  dbOk s' /\ absState s' = absState s /\ coversImpl s' id (absState s) /\
  (forall i t, coversImpl s i t -> coversImpl s' i t /\ i < id).
Proof.
  intros [Hs Hj [Hb Hso]] [= <- <-].
  destruct (set_revisions_ok s (validRevisions s ++ [(nextRevisionId s, length (journal s))])
              (nextRevisionId s + 1) Hs) as [Hs' Habs'].
  split_and!; [split|done| |].
  - done.
  - rewrite Habs'. by apply (undoable_same s).
  - split; cbn.
    + intros i id j [Hi|[? [? [= <- <-]]%list_lookup_singleton_Some]]%lookup_app_Some; [|lia].
      destruct (Hb i id j Hi). split; [lia|done].
    + intros i1 i2 id1 id2 j1 j2 Hlt H1 H2.
      pose proof (lookup_lt_Some _ _ _ H2) as Hlen. rewrite length_app in Hlen. cbn in Hlen.
      rewrite lookup_app_l in H1 by lia. destruct (Hb _ _ _ H1).
      apply lookup_app_Some in H2 as [H2|[? [? [= <- <-]]%list_lookup_singleton_Some]]; [by apply (Hso i1 i2)|done].
  - exists (length (validRevisions s)), (length (journal s)). cbn. split; [by apply list_lookup_middle|].
    by rewrite Nat.sub_diag.
  - intros i t (k & j & Hk & Ht). destruct (Hb k i j Hk). split; [|done].
    exists k, j. split; [by apply lookup_app_l_Some|done].
Qed.

(** Reverting to a valid snapshot gives back its state and keeps the older
    snapshots. *)
Lemma RevertToSnapshot_ok s id t :
  dbOk s -> coversImpl s id t ->
  exists s', RevertToSnapshot hash id s = Some s' /\ dbOk s' /\ absState s' = t /\
    (forall i t', coversImpl s i t' -> i < id -> coversImpl s' i t').
Proof.
  intros [Hs Hj Hr] (k & j & Hk & Ht). pose proof (find_revision s k id j Hr Hk) as Hfind.
  destruct Hr as [Hb Hso]. destruct (Hb k id j Hk) as [_ Hjlen].
  unfold RevertToSnapshot. rewrite Hfind, Hk, Z.eqb_refl.
  destruct (undo_n_spec (length (journal s) - j) s Hs Hj) as (s1 & -> & Hs1 & [] & Hj1 & Hu1 & Ha1).
  cbn [mbind option_bind].
  set (s' := set_revisions s1 (take k (validRevisions s)) (nextRevisionId s1)).
  destruct (set_revisions_ok s1 (take k (validRevisions s)) (nextRevisionId s1) Hs1)
    as [Hs' Habs'].
  assert (length (journal s1) = j) as Hlen1 by (rewrite Hj1, length_drop; lia).
  exists s'. split_and!; [done| |unfold s'; congruence|].
  - split; [done|unfold s'; rewrite Habs'; by apply (undoable_same s1)|]. split; cbn.
    + intros i id1 j1 [Hi1 Hi2]%lookup_take_Some. rewrite Hlen1, sr_next0.
      destruct (Hb _ _ _ Hi1). by destruct (Hso i k id1 id j1 j).
    + intros i1 i2 id1 id2 j1 j2 Hlt [H1 _]%lookup_take_Some [H2 _]%lookup_take_Some. by apply (Hso i1 i2).
  - intros i t' (k' & j' & Hk' & Ht') Hi.
    assert (k' < k)%nat as Hkk.
    { destruct (Nat.lt_trichotomy k' k) as [|[->|Hgt]]; [done|rewrite Hk in Hk'; simplify_eq; lia|].
      destruct (Hso k k' id i j j' Hgt Hk Hk'). lia. }
    destruct (Hso k' k i id j' j Hkk Hk' Hk) as [_ Hjj].
    exists k', j'. split; [by apply lookup_take_Some|]. change (absState s') with (absState s1).
    cbn [journal s' set_revisions db]. rewrite Hlen1, Hj1, sr_db0.
    replace (length (journal s) - j')%nat with ((length (journal s) - j) + (j - j'))%nat in Ht' by lia.
    rewrite <- take_take_drop, aundos_app, Ha1 in Ht'. done.
Qed.

(** * Getters *)

(** [s'] differs from [s] only by what was loaded. *)
Definition loads (s s' : sdb) : Prop :=
  struct_ok s' /\ same_but_objects s s' /\ absState s' = absState s.

Lemma loads_ok s s' :
  dbOk s -> loads s s' -> dbOk s' /\ absState s' = absState s /\
  forall id t, coversImpl s id t -> coversImpl s' id t.
Proof.
  intros Hs (? & ? & Habs). destruct (extends_ok s s' []) as [? ?]; [done|by apply extends_load|done].
Qed.

Lemma get_object a s :
  struct_ok s ->
  let '(o, s') := getStateObject hash a s in
  loads s s' /\ db s' = db s /\ accounts (absState s) !! a = option_map (view (db s)) o /\
  match o with
  | Some o => obj_ok (db s) o /\ address o = a /\ deleted o = false
  | None => True
  end.
Proof.
  intros Hs. pose proof (getStateObject_spec a s Hs) as Hg.
  destruct (getStateObject hash a s) as [[o|] s1].
  - destruct Hg as (? & Hsame & ? & _ & ? & ? & ? & ->). pose proof (sb_db _ _ Hsame). by split_and!.
  - destruct Hg as (? & Hsame & ? & -> & _). pose proof (sb_db _ _ Hsame). by split_and!.
Qed.

(** Storing an object after it has loaded something. *)
Lemma store_loaded s s1 a o o' :
  loads s s1 -> accounts (absState s) !! a = Some (view (db s) o) -> address o = a ->
  deleted o = false -> obj_ok (db s) o' -> same_object (db s) o o' -> loads s (setStateObject o' s1).
Proof.
  intros (Hs1 & Hsame & Habs) Hv Ha Hd Ho' []. pose proof (sb_db _ _ Hsame) as Hdb.
  destruct (set_object_ok s1 (setStateObject o' s1) a o') as [? Habs2]; try done.
  { cbn. by rewrite sm_address0, Ha. }
  { congruence. }
  { by rewrite Hdb. }
  { congruence. }
  split_and!; [done|by etrans|]. rewrite Habs2, Hdb, Habs, sm_view0. 
  change (abs_accounts s1) with (accounts (absState s1)). rewrite Habs. by apply set_accounts_same.
Qed.

Ltac get_object :=
  lazymatch goal with
  | Hs : struct_ok ?s |- context [getStateObject hash ?a ?s] =>
      let Hg := fresh "Hg" in
      pose proof (get_object a s Hs) as Hg;
      destruct (getStateObject hash a s) as [[?o|] ?s1];
      destruct Hg as (Hload & Hdb & Hacc & Ho); unfold acct; rewrite ?Hacc
  end.

Lemma Exist_ok a s :
  struct_ok s -> (Exist hash a s).1 = bool_decide (is_Some (accounts (absState s) !! a)) /\
  loads s (Exist hash a s).2.
Proof. intros Hs. unfold Exist. by get_object. Qed.

Lemma GetBalance_ok a s :
  struct_ok s -> (GetBalance hash a s).1 = a_balance (acct (absState s) a) /\ loads s (GetBalance hash a s).2.
Proof. intros Hs. unfold GetBalance. by get_object. Qed.

Lemma GetNonce_ok a s :
  struct_ok s -> (GetNonce hash a s).1 = a_nonce (acct (absState s) a) /\ loads s (GetNonce hash a s).2.
Proof. intros Hs. unfold GetNonce. by get_object. Qed.

Lemma HasSuicided_ok a s :
  struct_ok s -> (HasSuicided hash a s).1 = a_suicided (acct (absState s) a) /\
  loads s (HasSuicided hash a s).2.
Proof. intros Hs. unfold HasSuicided. by get_object. Qed.

Lemma GetCodeHash_ok a s :
  struct_ok s ->
  (GetCodeHash hash a s).1 = match accounts (absState s) !! a with
                             | Some c => hash (a_code c)
                             | None => emptyHash
                             end /\ loads s (GetCodeHash hash a s).2.
Proof.
  intros Hs. unfold GetCodeHash. get_object; [|done]. split; [|done].
  symmetry. apply (obj_code_ok (db s)), Ho.
Qed.

Lemma GetCode_ok a s :
  struct_ok s -> default [] (GetCode hash a s).1 = a_code (acct (absState s) a) /\
  loads s (GetCode hash a s).2.
Proof.
  intros Hs. unfold GetCode. get_object; [|done]. destruct Ho as (Ho & Ha & Hd). rewrite Hdb.
  pose proof (obj_Code_spec (db s) o (so_db _ Hs) Ho) as Hc.
  destruct (obj_Code hash (db s) o) as [c o']. destruct Hc as (Hc & _ & ? & ?).
  split; [done|]. by eapply store_loaded.
Qed.

Lemma GetState_ok a k s :
  struct_ok s -> (GetState hash a k s).1 = default emptyHash (a_storage (acct (absState s) a) !! k) /\
  loads s (GetState hash a k s).2.
Proof.
  intros Hs. unfold GetState. get_object; [|done]. destruct Ho as (Ho & Ha & Hd). rewrite Hdb.
  pose proof (obj_GetState_spec (db s) k o Ho) as Hc.
  destruct (obj_GetState (db s) k o) as [v o']. destruct Hc as (Hc & ? & ?).
  split; [done|]. by eapply store_loaded.
Qed.

Lemma GetStateByteArray_ok a k s :
  struct_ok s -> (GetStateByteArray hash a k s).1 = default [] (a_bytes (acct (absState s) a) !! k) /\
  loads s (GetStateByteArray hash a k s).2.
Proof.
  intros Hs. unfold GetStateByteArray. get_object; [|done]. destruct Ho as (Ho & Ha & Hd). rewrite Hdb.
  pose proof (obj_GetStateByteArray_spec (db s) k o Ho) as Hc.
  destruct (obj_GetStateByteArray (db s) k o) as [v o']. destruct Hc as (Hc & ? & ?).
  split; [done|]. by eapply store_loaded.
Qed.

Lemma setError_loads err s s1 : loads s s1 -> loads s (setError err s1).
Proof.
  intros (? & ? & Habs). destruct (setError_same err s1) as [Hsame Hobj].
  split_and!; [by eapply struct_ok_same|by etrans|by rewrite (absState_same s1)].
Qed.

Lemma GetCodeSize_ok a s :
  struct_ok s -> (GetCodeSize hash a s).1 = len (a_code (acct (absState s) a)) /\
  loads s (GetCodeSize hash a s).2.
Proof.
  intros Hs. unfold GetCodeSize. get_object; [|done]. cbn [option_map from_option default id view a_code].
  unfold code_view. destruct (code o) as [c|]; [done|].
  rewrite Hdb, (code_size _ (so_db _ Hs)). split; [done|]. cbn [snd].
  destruct (ContractCode _ _ _).2; [by apply setError_loads|done].
Qed.

(** * The refund counter changed in place *)

Lemma aundo_refund d e r s s' :
  aundo d e s = Some s' -> exists r', aundo d e (with_refund r s) = Some (with_refund r' s').
Proof.
  destruct e; cbn [aundo]; unfold on_acct; cbn [accounts with_refund StateSpec.logs];
    try (destruct (accounts s !! _) as [c|]; cbn; [|done]);
    try (destruct (StateSpec.logs s !! _) as [c|]; cbn; [|done]);
    intros [= <-]; eexists; reflexivity.
Qed.

Lemma undoable_refund x j r s : undoable x j s -> undoable x j (with_refund r s).
Proof.
  revert r s. induction j as [|e j IH]; intros r s; [done|]. cbn. intros (He & s' & Hs' & Hj).
  split; [done|]. destruct (aundo_refund _ _ r _ _ Hs') as [r' Hr]. exists (with_refund r' s'). auto.
Qed.

Lemma MulRefund_ok s x :
  dbOk s -> dbOk (MulRefund x s) /\
  absState (MulRefund x s) = with_refund (StateSpec.refund (absState s) * x) (absState s).
Proof.
  intros [[] Hj []]. split; [|done]. split; [by split| |by split].
  assert (forall j t, undoable s j t -> undoable (MulRefund x s) j t) as Hx.
  { intros j. induction j as [|e j IH]; intros t; [done|]. cbn. intros (? & s' & ? & ?).
    split; [by destruct e|]. exists s'. auto. }
  apply Hx. exact (undoable_refund s _ (refund s * x) _ Hj).
Qed.

(** * The instance *)

#[export] Instance stateDB_StateDB : VmState.StateDB sdb := {
  VmState.CreateAccount := CreateAccount hash;
  VmState.SubBalance := SubBalance hash;
  VmState.AddBalance := AddBalance hash;
  VmState.GetBalance s a := (GetBalance hash a s).1;
  VmState.GetNonce s a := (GetNonce hash a s).1;
  VmState.SetNonce := SetNonce hash;
  VmState.GetCodeHash s a := (GetCodeHash hash a s).1;
  VmState.GetCode s a := default [] (GetCode hash a s).1;
  VmState.SetCode := SetCode hash;
  VmState.GetCodeSize s a := (GetCodeSize hash a s).1;
  VmState.AddRefund := AddRefund;
  VmState.GetRefund := GetRefund;
  VmState.MulRefund := MulRefund;
  VmState.GetState s a k := (GetState hash a k s).1;
  VmState.SetState := SetState hash;
  VmState.GetStateByteArray s a k := (GetStateByteArray hash a k s).1;
  VmState.SetStateByteArray := SetStateByteArray hash;
  VmState.Suicide := Suicide hash;
  VmState.HasSuicided s a := (HasSuicided hash a s).1;
  VmState.Exist s a := (Exist hash a s).1;
  VmState.Empty s a := (Empty hash a s).1;
  VmState.RevertToSnapshot := RevertToSnapshot hash;
  VmState.Snapshot := Snapshot;
  VmState.AddLog := AddLog;
  VmState.AddPreimage := AddPreimage;
}.

Create HintDb updates.
#[local] Hint Resolve CreateAccount_updates SubBalance_updates AddBalance_updates SetNonce_updates
  SetCode_updates AddRefund_updates SetState_updates SetStateByteArray_updates Suicide_updates AddLog_updates
  AddPreimage_updates : updates.

Lemma apply_updates u s : struct_ok s -> updates u s (apply_update u s).
Proof. intros. destruct u; cbn [apply_update]; eauto with updates. Qed.

#[export] Instance stateDB_spec : StateDBSpec sdb hash.
Proof.
  refine {| db_ok := dbOk; abs := absState; covers := coversImpl |}.
  - intros s a [Hs _ _]. by apply GetBalance_ok.
  - intros s a [Hs _ _]. by apply GetNonce_ok.
  - intros s a [Hs _ _]. by apply GetCode_ok.
  - intros s a [Hs _ _]. by apply GetCodeSize_ok.
  - intros s a [Hs _ _]. by apply GetCodeHash_ok.
  - intros s a k [Hs _ _]. by apply GetState_ok.
  - intros s a k [Hs _ _]. by apply GetStateByteArray_ok.
  - done.
  - intros s a [Hs _ _]. by apply HasSuicided_ok.
  - intros s a [Hs _ _]. by apply Exist_ok.
  - intros s x Hs. by apply MulRefund_ok.
  - intros s u Hs. destruct (apply_updates u s (ok_struct _ Hs)) as (E & HE & _). by eapply extends_ok.
  - intros s u Hs. destruct (apply_updates u s (ok_struct _ Hs)) as (E & _ & Habs). done.
  - intros s u id t Hs. destruct (apply_updates u s (ok_struct _ Hs)) as (E & HE & _). by eapply extends_ok.
  - intros s id s' Hs Hsn. by apply Snapshot_ok.
  - intros s id t Hs Hc. by apply RevertToSnapshot_ok.
Defined.
End Spec.
