(* ===== verification/StateIterate.v ===== *)
(** The iteration over the byte arrays of an account visits every entry once,
    from the Mercury fork on. *)

From S2P Require Import Prelude BigMath VmData VmState StateSpec CoreState CoreStateSpec.
Import Big Common State.

Class TrieIterSpec (tr : Type) `{!Trie tr} `{!TrieIter tr} `{!TrieSpec tr} :=
  Entries_spec t : trie_ok t -> Entries t ≡ₚ map_to_list (key_map 256 32 (content t)).

Section Iterate.
Context {tr dbt : Type} `{!Trie tr} `{!Database dbt tr} `{!Rlp} `{!TrieSpec tr} `{!TrieIter tr} `{!TrieIterSpec tr}.
Context (hash : list byte -> Hash) (range : gmap Hash (list byte) -> list (Hash * list byte)).
Hypothesis range_perm : forall m, range m ≡ₚ map_to_list m.

(** Entries of two maps, the first one first. *)
Lemma union_entries (m1 m2 : gmap Hash (list byte)) :
  map_to_list m1 ++ filter (fun e => m1 !! e.1 = None) (map_to_list m2) ≡ₚ map_to_list (m1 ∪ m2).
Proof.
  apply NoDup_Permutation.
  - apply list.NoDup_app. split_and!; [apply NoDup_map_to_list| |apply list.NoDup_filter, NoDup_map_to_list].
    intros [k v] Hin%elem_of_map_to_list [Hk _]%list_elem_of_filter. cbn in Hk. congruence.
  - apply NoDup_map_to_list.
  - intros [k v]. rewrite elem_of_app, list_elem_of_filter, !elem_of_map_to_list, lookup_union_Some_raw. cbn. tauto.
Qed.

Lemma nonempty_entries (m : gmap Hash (list byte)) :
  filter (fun e => len e.2 <> 0) (map_to_list m) ≡ₚ map_to_list (omap nonempty m).
Proof.
  apply NoDup_Permutation.
  - apply list.NoDup_filter, NoDup_map_to_list.
  - apply NoDup_map_to_list.
  - intros [k v]. rewrite list_elem_of_filter, !elem_of_map_to_list, lookup_omap. cbn. unfold nonempty. split.
    + intros [Hv ->]. cbn. by destruct (Z.eqb_spec (len v) 0).
    + destruct (m !! k) as [w|]; [|done]. cbn. destruct (Z.eqb_spec (len w) 0); [done|]. by intros [= ->].
Qed.

Lemma ForEach_ok a s : struct_ok hash s ->
  filter (fun e => len e.2 <> 0) (ForEachStorageByteArray hash true range a s).1 ≡ₚ
    map_to_list (bytes_of (absState hash s) a) /\
  loads hash s (ForEachStorageByteArray hash true range a s).2.
Proof.
  intros Hs. unfold ForEachStorageByteArray, bytes_of. cbn [negb].
  pose proof (get_object hash a s Hs) as Hg. destruct (getStateObject hash a s) as [[o|] s1];
    destruct Hg as (Hload & Hdb & Hacc & Ho); unfold acct; rewrite Hacc; [|done].
  destruct Ho as (Ho & Ha & Hd). rewrite Hdb.
  destruct (getTrie_spec hash (db s) o Ho) as (t & o' & -> & Ht & Hct & Ho' & Hsame & _).
  split; [|by eapply store_loaded]. cbn [fst]. rewrite Entries_spec, range_perm by done.
  rewrite union_entries, nonempty_entries, Hct. done.
Qed.

#[export] Instance stateDB_StateIter : StateIter (@StateDB tr dbt) := {
  VmState.ForEachStorageByteArray s a := (ForEachStorageByteArray hash true range a s).1;
}.

#[export] Instance stateDB_iter_spec : StateIterSpec (@StateDB tr dbt) hash (StateDBSpec0 := stateDB_spec hash).
Proof. intros s a [Hs _ _]. by apply ForEach_ok. Qed.
End Iterate.
