(* ===== verification/StateCodec.v ===== *)
(** The coding of accounts and storage values that core/state uses, by package
    rlp. *)

From S2P Require Import Prelude BigMath VmData VmState CoreState Rlp RlpSpec RlpDecode.
Import Big Common.

(** [Account] of core/state/state_object.go. *)
Definition accountT : RLP.Typ :=
  RLP.StructT [RLP.UintT 64; RLP.BigT; RLP.ByteArrayT 32; RLP.BytesT].
Definition account_value (x : Account) : RLP.value :=
  RLP.VList [RLP.VUint (Nonce x); RLP.VBig (Balance x); RLP.VBytes (Hash_Bytes (Root x));
             RLP.VBytes (Hash_Bytes (CodeHash_ x))].

Definition encoded (t : RLP.Typ) (v : RLP.value) : list byte :=
  match RLP.EncodeToBytes t v with Some (inl b) => b | _ => [] end.

(** An error of rlp is a database error here; the code logs it. *)
#[export] Instance go_Rlp : Rlp := {
  EncodeAccount x := encoded accountT (account_value x);
  DecodeAccount enc :=
    match RLP.DecodeBytes accountT enc with
    | Ok (RLP.VList [RLP.VUint n; RLP.VBig b; RLP.VBytes root; RLP.VBytes h]) _ =>
        Some (mkAcct n b (BytesToHash root) (BytesToHash h))
    | _ => None
    end;
  EncodeBytes v := encoded RLP.BytesT (RLP.VBytes v);
  Split enc :=
    match RLP.Split enc with
    | Some (inl (_, content, _)) => (content, None)
    | _ => ([], Some (DbError 1))
    end;
}.

(** Accounts survive the coding. *)
Lemma account_round_trip x :
  0 <= Nonce x < 2 ^ 64 -> 0 <= Balance x < 2 ^ 512 -> DecodeAccount (EncodeAccount x) = Some x.
Proof.
  intros Hn Hb. cbn [EncodeAccount DecodeAccount go_Rlp].
  set (i := Lst [Str (Bytes (Nonce x)); Str (Bytes (Balance x)); Str (Hash_Bytes (Root x)); Str (Hash_Bytes (CodeHash_ x))]).
  assert (item_of accountT (account_value x) = Some i) as Hi.
  { unfold accountT, account_value. cbn -[Z.pow]. replace (0 <=? Nonce x) with true by lia.
    replace (Nonce x <? 2 ^ 64) with true by lia. replace (0 <=? Balance x) with true by lia. done. }
  assert (len (rlp i) < 2 ^ 63) as Hlen.
  { pose proof (Bytes_len_le (Nonce x) 8). change (256 ^ Z.of_nat 8) with (2 ^ 64) in *.
    pose proof (Bytes_len_le (Balance x) 64). change (256 ^ Z.of_nat 64) with (2 ^ 512) in *.
    pose proof (len_Hash_Bytes (Root x)). pose proof (len_Hash_Bytes (CodeHash_ x)).
    assert (len (body [Str (Bytes (Nonce x)); Str (Bytes (Balance x)); Str (Hash_Bytes (Root x));
                       Str (Hash_Bytes (CodeHash_ x))]) <= 200).
    { rewrite !body_cons, !len_app. change (len (body [])) with 0.
      pose proof (rlp_Str_le (Bytes (Nonce x))). pose proof (rlp_Str_le (Bytes (Balance x))).
      pose proof (rlp_Str_le (Hash_Bytes (Root x))). pose proof (rlp_Str_le (Hash_Bytes (CodeHash_ x))). lia. }
    pose proof (rlp_Lst_le [Str (Bytes (Nonce x)); Str (Bytes (Balance x)); Str (Hash_Bytes (Root x));
                            Str (Hash_Bytes (CodeHash_ x))]). unfold i. lia. }
  unfold encoded. rewrite (EncodeToBytes_rlp _ _ _ Hi Hlen).
  destruct (DecodeBytes_rlp accountT (account_value x) i) as [s E]; [done..|]. rewrite E.
  unfold account_value. rewrite !BytesToHash_Hash_Bytes. by destruct x.
Qed.
