(* ===== verification/Sample.v ===== *)
(** A concrete machine for the examples: tries as finite maps, a store without
    codes, accounts coded by package rlp, and a simple hash function.  It shows
    that the assumptions of the development hold together, and is evaluated by
    the witnesses. *)

From S2P Require Import Prelude BigMath VmData VmState StateSpec GasTable Instructions Evm.
From S2P Require Import EvmInv CoreState CoreStateSpec StateIterate StateCodec.
Import Big Common State.

Definition map_trie : Type := gmap (list byte) (list byte).

#[export] Instance map_trie_Trie : Trie map_trie := {
  TryGet t k := (default [] (t !! k), None);
  TryUpdate k v t := (if len v =? 0 then delete k t else <[k := v]> t, None);
  TryDelete k t := (delete k t, None);
  Trie_Hash t := bits_of 256 (Z.of_nat (size t));
}.

#[export] Instance map_trie_TrieSpec : TrieSpec map_trie.
Proof.
  refine {| trie_ok := map_Forall (fun _ v => v <> []); content t := t |}.
  - done.
  - intros t k v Hok Hk. exact (Hok k v Hk).
Defined.

#[export] Instance map_trie_TrieIter : TrieIter map_trie := { Entries t := map_to_list (key_map 256 32 t) }.
#[export] Instance map_trie_TrieIterSpec : TrieIterSpec map_trie.
Proof. by intros t _. Qed.

(** A store with only empty tries and no code. *)
#[export] Instance unit_Database : Database unit map_trie := {
  OpenTrie _ _ := inl ∅;
  OpenStorageTrie _ _ _ := inl ∅;
  ContractCode _ _ _ := ([], None);
  ContractCodeSize _ _ _ := (0, None);
}.

(** A polynomial of the bytes, followed by the length. *)
Definition digest (l : list byte) : Z :=
  foldl (fun h b => (h * 0x2b7e151628aed2a6abf7158809cf4f3c762e7160f38b4da53 + byte_Z b + 1) mod 2 ^ 194) 1 l.
Definition sample_hash (code : list byte) : Hash := bits_of 256 (digest code * 2 ^ 62 + len code).

Lemma digest_range l : 0 <= digest l < 2 ^ 194.
Proof.
  unfold digest. destruct l as [|b l] using rev_ind; [done|]. rewrite foldl_app. apply Z.mod_pos_bound. lia.
Qed.

Lemma sample_hash_length c c' :
  len c < 2 ^ 62 -> len c' < 2 ^ 62 -> sample_hash c = sample_hash c' -> length c = length c'.
Proof.
  intros Hc Hc' H. unfold sample_hash in H. apply (f_equal bits_val) in H. rewrite !bits_val_of in H.
  pose proof (digest_range c). pose proof (digest_range c'). pose proof (len_nonneg c). pose proof (len_nonneg c').
  rewrite !Z.mod_small in H by lia. unfold len in *. lia.
Qed.

Abbreviation sampleDB := (@State.StateDB map_trie unit).

#[export] Instance sample_StateDB : VmState.StateDB sampleDB := stateDB_StateDB sample_hash.
#[export] Instance sample_spec : StateDBSpec sampleDB sample_hash := stateDB_spec sample_hash.

(** Two orders of iteration over a map. *)
Abbreviation Order := (gmap Hash (list byte) -> list (Hash * list byte)).
Definition forwards : Order := map_to_list.
Definition backwards : Order := fun m => reverse (map_to_list m).
#[export] Instance sample_iter : StateIter sampleDB := stateDB_StateIter sample_hash forwards.
#[export] Instance sample_iter_spec : StateIterSpec sampleDB sample_hash.
Proof. by apply stateDB_iter_spec. Qed.
Definition sample_iter_back : StateIter sampleDB := stateDB_StateIter sample_hash backwards.
Lemma sample_iter_back_spec : StateIterSpec (StateIter0 := sample_iter_back) sampleDB sample_hash.
Proof. apply stateDB_iter_spec. intros m. apply reverse_Permutation. Qed.

(** [New] on the empty store. *)
Definition emptyDB : sampleDB := mkStateDB tt ∅ ∅ ∅ None 0 emptyHash emptyHash 0 ∅ 0 ∅ [] [] 0.

Lemma emptyDB_New : State.New (tr:=map_trie) emptyHash tt = inl emptyDB.
Proof. reflexivity. Qed.

Lemma unit_database_ok : database_ok sample_hash tt.
Proof. by split; [..|exists ∅]. Qed.

Lemma emptyDB_ok : db_ok emptyDB.
Proof. split; [split|done|]; try done. apply unit_database_ok. Qed.

(** An externally owned account with money and a contract. *)
Definition alice : Address := bits_of 160 0xa11ce.
Definition bob : Address := bits_of 160 0xb0b.

Definition setup (code : list byte) : list update :=
  [UAddBalance alice 1000; USetCode bob code; UAddBalance bob 7].
Definition sampleState (code : list byte) : sampleDB :=
  fold_left (fun d u => apply_update u d) (setup code) emptyDB.

Definition sampleEnv : Env sampleDB :=
  mkEnv sampleDB (mkContext (fun n => bits_of 256 n) alice 1 bob 1000000 1 1 1)
    (mkConfig false false false) (fun _ => false) sample_hash
    (fun a n => bits_of 160 (2 ^ 159 + (bits_val a + n) mod 2 ^ 158)) (fun _ => None).

Definition sampleEVM (code : list byte) : EVM sampleDB := mkEVM (sampleState code) 0 false [] ∅ 0.

Lemma sample_env_ok : env_ok sampleEnv no_ledger.
Proof. split; try done. apply sample_hash_length. Qed.

Lemma sampleState_ok code :
  len code < 2 ^ 62 ->
  db_ok (sampleState code) /\ state_ok (abs (sampleState code)) /\ supply (abs (sampleState code)) = 1007.
Proof.
  intros Hc. unfold sampleState, setup. cbn [fold_left].
  repeat (rewrite update_abs by (repeat apply update_ok; apply emptyDB_ok)).
  split_and!.
  - repeat apply update_ok. apply emptyDB_ok.
  - repeat apply update_state_ok; done.
  - rewrite !update_supply. done.
Qed.

Lemma sampleEVM_ok code : len code < 2 ^ 62 -> evm_ok sampleEnv no_ledger (sampleEVM code).
Proof.
  intros Hc. destruct (sampleState_ok code Hc) as (? & ? & Hs).
  split; try done.
Qed.

Definition sampleContract (code : list byte) (gas : Z) : Contract :=
  mkContract alice bob code (sample_hash code) (Some bob) [] gas 0 false.

Lemma sampleContract_ok code gas :
  len code < 2 ^ 62 -> 0 <= gas < 2 ^ 64 -> contract_ok sampleEnv (sampleContract code gas).
Proof. intros. split; try done. by right. Qed.
