(* ===== verification/WanSample.v ===== *)
(** A concrete machine with the native contracts of private transactions, for
    the examples: ring signatures are accepted when they carry one fixed key
    image, and the addresses of new contracts are above those of the ledger. *)

From S2P Require Import Prelude BigMath Encoding Abi VmData VmState StateSpec Ota Privacy Instructions Evm.
From S2P Require Import Rlp RlpSpec RlpDecode RlpCodec Staking StakingCodec StakingSpec Contracts StakingSafety.
From S2P Require Import EvmInv PrivacySpec PrivacySafety CoreState CoreStateSpec StateCodec Sample.
Import Big Common Addr Ota Privacy Secp.

(** The generator of secp256k1 is the public key of the one-time account and the
    only key image. *)
Definition G : PublicKey := mkPublicKey
  0x79BE667EF9DCBBAC55A06295CE870B07029BFCDB2DCE28D959F2815B16F81798
  0x483ADA7726A3C4655DA4FBFC0E1108A8FD17B448A68554199C47D08FFB10D4B8.
#[export] Instance PublicKey_eq_dec : EqDecision PublicKey.
Proof. solve_decision. Defined.
Definition sample_image (comp : list byte) : PublicKey := G.
Definition sampleVerify (m : list byte) (pks : list PublicKey) (image : PublicKey) (w q : list Z) : bool :=
  negb (len pks =? 0) && bool_decide (image = G).

Lemma sample_linkable : linkable sample_image sampleVerify.
Proof.
  intros m [|pk pks] image w q; unfold sampleVerify; cbn; [done|]. rewrite andb_true_iff, bool_decide_eq_true.
  intros [_ ->]. exists pk. split; [by left|done].
Qed.

(** Proof of stake has started. *)
Definition samplePos : PosConfig.Config := PosConfig.mkConfig 18000 18000 18000.

Definition wanEnv : Env sampleDB :=
  mkEnv sampleDB (ctx sampleEnv) (cfg sampleEnv) (abort sampleEnv) sample_hash (CreateAddress sampleEnv)
    (PrecompiledContractsByzantium sample_hash sampleVerify samplePos (fun _ => None)).

Lemma reserved_small a : reserved a -> bits_val a < 2 ^ 159.
Proof.
  assert (Forall (fun v => bits_val (OTABalance2ContractAddr v) < 2 ^ 159) values) as Hv.
  { repeat (constructor; [apply Z.ltb_lt; vm_compute; reflexivity|]). constructor. }
  intros [->|[->|[->|[(v & Hin & ->)|[->| ->]]]]];
    [by apply Z.ltb_lt; vm_compute|by apply Z.ltb_lt; vm_compute|by apply Z.ltb_lt; vm_compute|
     |by apply Z.ltb_lt; vm_compute|by apply Z.ltb_lt; vm_compute].
  rewrite Forall_forall in Hv. by apply Hv, list_elem_of_In.
Qed.

Lemma sample_ids : NoDup (ids sample_hash).
Proof. apply (bool_decide_unpack _). by vm_compute. Qed.

Lemma wan_env key : wan_env_ok wanEnv sample_image key sampleVerify samplePos (fun _ => None).
Proof.
  split; try done.
  - apply sample_ids.
  - apply sample_linkable.
  - apply sample_hash_length.
  - intros c n Hr%reserved_small. cbn [CreateAddress wanEnv sampleEnv] in Hr. rewrite bits_val_of in Hr.
    pose proof (Z.mod_pos_bound (bits_val c + n) (2 ^ 158) ltac:(lia)) as Hm.
    revert Hr Hm. generalize ((bits_val c + n) mod 2 ^ 158). intros x Hr Hm. rewrite Z.mod_small in Hr by lia. lia.
Qed.

(** * Transactions of the contracts *)

Definition coin : Z := 50000000000000000000000.

(** The address of a one-time account of [G]. *)
Definition otaAddr : list byte := ECDSAPKCompression G ++ repeat x02 33.

Definition call_data (id s : list byte) (v : Z) : list byte :=
  id ++ default [] (Abi.Pack [Abi.StringTy; Abi.UintTy 256] [Abi.VString s; Abi.VInt v]).
Definition buyInput : list byte := call_data (buyIdArr sample_hash) (Hexutil.Encode otaAddr) coin.

Definition ringSigned : list byte :=
  Hex.Encode (FromECDSAPub G) ++ str "+" ++ Hex.Encode (FromECDSAPub G) ++ str "+0x1+0x1".
Definition refundInput : list byte := call_data (refundIdArr sample_hash) ringSigned coin.

(** Alice owns money, Bob runs some code. *)
Definition wanSetup (code : list byte) : list update :=
  [UAddBalance alice (3 * coin); USetCode bob code].
Definition wanState (code : list byte) : sampleDB :=
  fold_left (fun d u => apply_update u d) (wanSetup code) emptyDB.
Definition wanEVM (code : list byte) : EVM sampleDB := mkEVM (wanState code) 0 false [] ∅ 0.

Lemma no_ledger_inv s :
  (forall a, bytes_of s a = ∅) -> native_inv sample_hash sample_image ∅ s.
Proof. intros H. split; [..|split; unfold stakers, fees]; rewrite ?H; try done. Qed.

Lemma wanState_ok code :
  len code < 2 ^ 62 ->
  db_ok (wanState code) /\ state_ok (abs (wanState code)) /\ supply (abs (wanState code)) = 3 * coin /\
  forall a, bytes_of (abs (wanState code)) a = ∅.
Proof.
  intros Hc. unfold wanState, wanSetup. cbn [fold_left].
  repeat (rewrite update_abs by (repeat apply update_ok; apply emptyDB_ok)).
  split_and!.
  - repeat apply update_ok. apply emptyDB_ok.
  - repeat apply update_state_ok; done.
  - by rewrite !update_supply.
  - intros a. by rewrite !bytes_of_keep.
Qed.

Lemma wanEVM_ok code key : len code < 2 ^ 62 -> evm_ok wanEnv (wan_ledger sample_hash sample_image ∅ key) (wanEVM code).
Proof.
  intros Hc. destruct (wanState_ok code Hc) as (? & ? & Hs & Hb).
  split; [done|done|by apply no_ledger_inv| |done|done].
  change (supply (abs (wanState code)) + (unspent (abs (wanState code)) + pool key (abs (wanState code))) < 2 ^ 256).
  rewrite Hs. unfold unspent, pool. by rewrite !Hb.
Qed.
