(* ===== verification/StateTheorems.v ===== *)
(** What the journalled state database guarantees: the operations of
    core/state/statedb.go refine the abstract state, reads are transparent, a
    snapshot can be reverted after any history, and two ways in which a revert
    does not restore the bookkeeping of the objects. *)

From S2P Require Import Prelude BigMath VmData VmState StateSpec GasTable Instructions Evm.
From S2P Require Import EvmInv CoreState CoreStateSpec StateCodec Sample.
Import Big Common State.

Section Theorems.
Context {tr dbt : Type} `{!Trie tr} `{!Database dbt tr} `{!Rlp} `{!TrieSpec tr}.
Context (hash : list byte -> Hash).
Abbreviation sdb := (@State.StateDB tr dbt).
Implicit Types s : sdb.

Definition perform_all (us : list update) s : sdb :=
  fold_left (fun s u => apply_update (H := stateDB_StateDB hash) u s) us s.

(** C13. The database implements the abstract account state: a sequence of state
    changes (account creation, balance, nonce, code, storage, byte arrays, refund, suicide,
    log, preimage) has on the meaning of the database exactly the effect of the
    abstract updates, whatever is cached, dirty or still only in the tries. *)
Theorem changes_refine us s :
  dbOk hash s ->
  dbOk hash (perform_all us s) /\
  absState hash (perform_all us s) = fold_left (fun t u => abs_update u t) us (absState hash s).
Proof.
  revert s. induction us as [|u us IH]; intros s Hs; [done|]. cbn.
  destruct (apply_updates hash u s (ok_struct _ _ Hs)) as (E & HE & Habs).
  destruct (extends_ok hash _ _ _ Hs HE) as [Hs' _]. rewrite <- Habs. by apply IH.
Qed.

(** ** Reads *)

Inductive query :=
| QExist (a : Address) | QBalance (a : Address) | QNonce (a : Address) | QCode (a : Address)
| QCodeSize (a : Address) | QCodeHash (a : Address) | QState (a : Address) (k : Hash)
| QBytes (a : Address) (k : Hash) | QSuicided (a : Address).

Inductive answer := ABool (b : bool) | ANum (z : Z) | ABytes (l : list byte) | AHash (h : Hash).

(** The getter of a query: its answer and the database with what it loaded. *)
Definition ask (q : query) s : answer * sdb :=
  match q with
  | QExist a => let '(x, s) := Exist hash a s in (ABool x, s)
  | QBalance a => let '(x, s) := GetBalance hash a s in (ANum x, s)
  | QNonce a => let '(x, s) := GetNonce hash a s in (ANum x, s)
  | QCode a => let '(x, s) := GetCode hash a s in (ABytes (default [] x), s)
  | QCodeSize a => let '(x, s) := GetCodeSize hash a s in (ANum x, s)
  | QCodeHash a => let '(x, s) := GetCodeHash hash a s in (AHash x, s)
  | QState a k => let '(x, s) := GetState hash a k s in (AHash x, s)
  | QBytes a k => let '(x, s) := GetStateByteArray hash a k s in (ABytes x, s)
  | QSuicided a => let '(x, s) := HasSuicided hash a s in (ABool x, s)
  end.

(** The answer in the abstract state. *)
Definition answer_of (q : query) (t : astate) : answer :=
  match q with
  | QExist a => ABool (bool_decide (is_Some (accounts t !! a)))
  | QBalance a => ANum (a_balance (acct t a))
  | QNonce a => ANum (a_nonce (acct t a))
  | QCode a => ABytes (a_code (acct t a))
  | QCodeSize a => ANum (len (a_code (acct t a)))
  | QCodeHash a => AHash match accounts t !! a with Some c => hash (a_code c) | None => emptyHash end
  | QState a k => AHash (default emptyHash (a_storage (acct t a) !! k))
  | QBytes a k => ABytes (default [] (a_bytes (acct t a) !! k))
  | QSuicided a => ABool (a_suicided (acct t a))
  end.

Lemma ask_spec q s :
  struct_ok hash s ->
  (ask q s).1 = answer_of q (absState hash s) /\ loads hash s (ask q s).2.
Proof.
  intros Hs. destruct q; cbn [ask answer_of].
  - destruct (Exist_ok hash a s Hs), (Exist hash a s). cbn in *. by subst.
  - destruct (GetBalance_ok hash a s Hs), (GetBalance hash a s). cbn in *. by subst.
  - destruct (GetNonce_ok hash a s Hs), (GetNonce hash a s). cbn in *. by subst.
  - destruct (GetCode_ok hash a s Hs), (GetCode hash a s). cbn in *. split; congruence || done.
  - destruct (GetCodeSize_ok hash a s Hs), (GetCodeSize hash a s). cbn in *. by subst.
  - destruct (GetCodeHash_ok hash a s Hs), (GetCodeHash hash a s). cbn in *. by subst.
  - destruct (GetState_ok hash a k s Hs), (GetState hash a k s). cbn in *. by subst.
  - destruct (GetStateByteArray_ok hash a k s Hs), (GetStateByteArray hash a k s). cbn in *. by subst.
  - destruct (HasSuicided_ok hash a s Hs), (HasSuicided hash a s). cbn in *. by subst.
Qed.

(** Reads answer from the abstract state and are transparent: a getter
    returns what the abstract state holds, and the objects, storage slots and
    codes it loads into the caches change neither the meaning of the database
    nor what its snapshots restore. *)
Theorem reads_transparent q s :
  dbOk hash s ->
  (ask q s).1 = answer_of q (absState hash s) /\
  dbOk hash (ask q s).2 /\ absState hash (ask q s).2 = absState hash s /\
  (forall id t, coversImpl hash s id t -> coversImpl hash (ask q s).2 id t).
Proof.
  intros Hs. destruct (ask_spec q s (ok_struct _ _ Hs)) as [? Hl]. split; [done|].
  by apply loads_ok.
Qed.

(** ** Snapshots *)

Inductive action := Change (u : update) | Ask (q : query) | Take | Undo_to (id : Z).

Definition act (x : action) s : option sdb :=
  match x with
  | Change u => Some (apply_update (H := stateDB_StateDB hash) u s)
  | Ask q => Some (ask q s).2
  | Take => Some (Snapshot s).2
  | Undo_to id => RevertToSnapshot hash id s
  end.
Fixpoint acts (l : list action) s : option sdb :=
  match l with [] => Some s | x :: l => s' ← act x s; acts l s' end.

(** A revision that can be reverted to is a valid snapshot. *)
Lemma revert_covers id s s' :
  dbOk hash s -> RevertToSnapshot hash id s = Some s' -> exists t, coversImpl hash s id t.
Proof.
  intros [Hs Hj _] Hr. unfold RevertToSnapshot in Hr. set (i := sort_Search _ _) in Hr.
  destruct (validRevisions s !! i) as [[id' j]|] eqn:Ei; [|done].
  destruct (Z.eqb_spec id' id) as [->|]; [|done].
  destruct (undo_n_spec hash (length (journal s) - j) s Hs Hj) as (s1 & _ & _ & _ & _ & _ & Ha).
  exists (absState hash s1), i, j. done.
Qed.

Lemma act_keeps x s s' id t :
  dbOk hash s -> coversImpl hash s id t -> act x s = Some s' ->
  (forall i, x = Undo_to i -> id < i) -> dbOk hash s' /\ coversImpl hash s' id t.
Proof.
  intros Hs Hc Hx Hi. destruct x as [u|q| |i]; cbn [act] in Hx.
  - injection Hx as <-. destruct (apply_updates hash u s (ok_struct _ _ Hs)) as (E & HE & _).
    destruct (extends_ok hash _ _ _ Hs HE) as [? Hcov]. auto.
  - injection Hx as <-. destruct (ask_spec q s (ok_struct _ _ Hs)) as [_ Hl].
    destruct (loads_ok hash _ _ Hs Hl) as (? & _ & Hcov). auto.
  - destruct (Snapshot s) as [id' s1] eqn:E. injection Hx as <-.
    destruct (Snapshot_ok hash s id' s1 Hs E) as (? & _ & _ & Hcov).
    split; [done|]. by apply Hcov.
  - destruct (revert_covers i s s' Hs Hx) as [t' Hc'].
    destruct (RevertToSnapshot_ok hash s i t' Hs Hc') as (s1 & Hr & ? & _ & Hcov).
    rewrite Hx in Hr. injection Hr as <-. auto.
Qed.

Lemma acts_keep l s s' id t :
  dbOk hash s -> coversImpl hash s id t -> acts l s = Some s' ->
  Forall (fun x => forall i, x = Undo_to i -> id < i) l -> dbOk hash s' /\ coversImpl hash s' id t.
Proof.
  revert s. induction l as [|x l IH]; intros s Hs Hc Ha Hl; cbn in Ha; [by injection Ha as <-|].
  apply Forall_cons_iff in Hl as [Hx Hl]. apply bind_Some in Ha as (s1 & H1 & Ha).
  destruct (act_keeps x s s1 id t Hs Hc H1 Hx) as [? ?]. by eapply IH.
Qed.

(** C9. Reverting to a snapshot undoes any history: after a snapshot, let any
    changes, reads, further snapshots and reverts to later snapshots happen;
    then reverting to the first snapshot succeeds and gives back the abstract
    state it was taken in, and every snapshot that was valid then is valid again
    with the state it restores. *)
Theorem revert_undoes_history l s id s1 s2 :
  dbOk hash s -> Snapshot s = (id, s1) -> acts l s1 = Some s2 ->
  Forall (fun x => forall i, x = Undo_to i -> id < i) l ->
  exists s3, RevertToSnapshot hash id s2 = Some s3 /\ dbOk hash s3 /\
    absState hash s3 = absState hash s /\
    (forall i t, coversImpl hash s i t -> coversImpl hash s3 i t).
Proof.
  intros Hs Hsn Ha Hl. destruct (Snapshot_ok hash s id s1 Hs Hsn) as (Hs1 & _ & Hc & Hold).
  destruct (acts_keep l s1 s2 id _ Hs1 Hc Ha Hl) as [Hs2 Hc2].
  destruct (RevertToSnapshot_ok hash s2 id _ Hs2 Hc2) as (s3 & Hr & Hs3 & Habs & Hcov).
  exists s3. split_and!; try done. intros i t Hi. destruct (Hold i t Hi) as [Hi1 Hlt].
  apply Hcov; [|done]. apply (acts_keep l s1 s2 i t Hs1 Hi1 Ha).
  eapply Forall_impl; [|done]. cbn. intros x Hx j Hj. specialize (Hx j Hj). lia.
Qed.

(** An unknown or already reverted revision is refused: RevertToSnapshot
    panics exactly when the id is not one of the valid revisions. *)
Theorem revert_unknown_panics id s :
  dbOk hash s ->
  RevertToSnapshot hash id s = None <-> ~ (exists j, (id, j) ∈ validRevisions s).
Proof.
  intros Hs. split.
  - intros Hn [j Hj]. apply list_elem_of_lookup in Hj as [i Hi].
    destruct (undo_n_spec hash (length (journal s) - j) s (ok_struct _ _ Hs) (ok_journal _ _ Hs))
      as (s1 & _ & _ & _ & _ & _ & Ha).
    destruct (RevertToSnapshot_ok hash s id (absState hash s1) Hs) as (? & ? & _); [by exists i, j|].
    congruence.
  - intros Hn. destruct (RevertToSnapshot hash id s) as [s'|] eqn:E; [|done].
    destruct (revert_covers id s s' Hs E) as (t & i & j & Hi & _).
    destruct Hn. exists j. by eapply list_elem_of_lookup_2.
Qed.

(** Byte-array storage, which the native contracts of the chain use, is a
    journalled map: after SetStateByteArray a read of that account and key gives
    the stored bytes and all other reads are unchanged; the change keeps the
    snapshots of the database valid. *)
Theorem byte_array_round_trip a k v s :
  dbOk hash s ->
  let s' := SetStateByteArray hash a k v s in
  dbOk hash s' /\ (forall id t, coversImpl hash s id t -> coversImpl hash s' id t) /\
  forall b h, (GetStateByteArray hash b h s').1 =
    if bool_decide (b = a /\ h = k) then v else (GetStateByteArray hash b h s).1.
Proof.
  intros Hs s'. destruct (SetStateByteArray_updates hash a k v s (ok_struct _ _ Hs)) as (E & HE & Habs).
  destruct (extends_ok hash _ _ _ Hs HE) as [Hs' Hcov]. split_and!; [done|done|]. intros b h.
  rewrite (proj1 (GetStateByteArray_ok hash b h s' (ok_struct _ _ Hs'))).
  rewrite (proj1 (GetStateByteArray_ok hash b h s (ok_struct _ _ Hs))).
  unfold s'. rewrite Habs. cbn [abs_update]. destruct (decide (b = a)) as [->|Hb].
  - rewrite acct_on_account_eq. unfold with_bytes. cbn [a_bytes].
    destruct (decide (h = k)) as [->|Hh].
    + rewrite bool_decide_true by done. destruct (Z.eqb_spec (len v) 0) as [Hz|].
      * apply len_nil_iff in Hz as ->. by rewrite lookup_delete_eq.
      * by rewrite lookup_insert_eq.
    + rewrite bool_decide_false by naive_solver.
      by destruct (len v =? 0); rewrite ?lookup_delete_ne, ?lookup_insert_ne by done.
  - rewrite acct_on_account_ne, bool_decide_false by naive_solver. done.
Qed.
End Theorems.

(** * Instances *)

Lemma sample_dbOk code : len code < 2 ^ 62 -> dbOk sample_hash (sampleState code).
Proof. intros Hc. exact (proj1 (sampleState_ok code Hc)). Qed.

Definition key1 : Hash := bits_of 256 1.
Definition key2 : Hash := bits_of 256 2.

Lemma changes_refine_witness :
  let us := [USetState bob key1 key2; UAddBalance alice 3; USuicide bob] in
  let s := sampleState [x00] in
  dbOk sample_hash (perform_all sample_hash us s) /\
  absState sample_hash (perform_all sample_hash us s) =
    fold_left (fun t u => abs_update u t) us (absState sample_hash s).
Proof.
  intros us s. apply (changes_refine sample_hash us s). by apply sample_dbOk.
Defined.

Lemma reads_transparent_witness :
  let q := QState bob key1 in
  let s := sampleState [x00] in
  (ask sample_hash q s).1 = answer_of sample_hash q (absState sample_hash s) /\
  dbOk sample_hash (ask sample_hash q s).2 /\
  absState sample_hash (ask sample_hash q s).2 = absState sample_hash s /\
  (forall id t, coversImpl sample_hash s id t -> coversImpl sample_hash (ask sample_hash q s).2 id t).
Proof. intros q s. apply (reads_transparent sample_hash q s). by apply sample_dbOk. Defined.

(** A history with a nested snapshot and its revert. *)
Definition history : list action :=
  [Change (USetState bob key1 key2); Take; Change (USuicide bob); Ask (QBalance alice); Undo_to 1;
   Change (UAddBalance alice 9)].

Lemma history_runs :
  let s := sampleState [x00] in
  acts sample_hash history (Snapshot s).2 = Some (default s (acts sample_hash history (Snapshot s).2)) /\
  (Snapshot s).1 = 0.
Proof.
  intros s. assert (match acts sample_hash history (Snapshot s).2 with Some _ => true | None => false end = true)
    as H by (vm_compute; reflexivity).
  split; [by destruct (acts sample_hash history (Snapshot s).2)|vm_compute; reflexivity].
Qed.

Lemma revert_undoes_history_witness :
  let s := sampleState [x00] in
  exists s3, RevertToSnapshot sample_hash (Snapshot s).1
               (default s (acts sample_hash history (Snapshot s).2)) = Some s3 /\
    dbOk sample_hash s3 /\ absState sample_hash s3 = absState sample_hash s /\
    (forall i t, coversImpl sample_hash s i t -> coversImpl sample_hash s3 i t).
Proof.
  intros s. destruct history_runs as [Hacts Hid].
  apply (revert_undoes_history sample_hash history s (Snapshot s).1 (Snapshot s).2).
  - by apply sample_dbOk.
  - reflexivity.
  - exact Hacts.
  - unfold s. rewrite Hid. unfold history. repeat constructor; intros i [=]; lia.
Defined.

Lemma revert_unknown_panics_witness :
  let s := (Snapshot (sampleState [x00])).2 in
  RevertToSnapshot sample_hash 5 s = None <-> ~ (exists j, (5, j) ∈ validRevisions s).
Proof.
  intros s. apply (revert_unknown_panics sample_hash 5 s).
  eapply (Snapshot_ok sample_hash (sampleState [x00])); [by apply sample_dbOk|reflexivity].
Defined.

Lemma byte_array_round_trip_witness :
  let s := sampleState [x00] in
  let s' := SetStateByteArray sample_hash bob key1 [x07; x08] s in
  dbOk sample_hash s' /\
  (forall id t, coversImpl sample_hash s id t -> coversImpl sample_hash s' id t) /\
  forall b h, (GetStateByteArray sample_hash b h s').1 =
    if bool_decide (b = bob /\ h = key1) then [x07; x08] else (GetStateByteArray sample_hash b h s).1.
Proof.
  intros s. apply (byte_array_round_trip sample_hash bob key1 [x07; x08] s). by apply sample_dbOk.
Defined.

(** * Bookkeeping that a revert does not restore *)

(** A database whose trie holds an account without nonce, balance and code. *)
Definition carol : Address := bits_of 160 0xca401.
Definition carolDB : sampleDB :=
  mkStateDB tt {[Address_Bytes carol := EncodeAccount (mkAcct 0 0 emptyHash (sample_hash []))]}
    ∅ ∅ None 0 emptyHash emptyHash 0 ∅ 0 ∅ [] [] 0.

(** Touch the account (a transfer of nothing), revert, then pay it. *)
Definition touch_revert_pay : option sampleDB :=
  let '(id, s) := Snapshot carolDB in
  s ← RevertToSnapshot sample_hash id (AddBalance sample_hash carol 0 s);
  Some (AddBalance sample_hash carol 10 s).

(** Undoing a touch loses the dirty mark for good: [touch] clears the
    object's callback, its undo removes the account from the dirty set but does
    not restore the callback, so a later payment to the account changes its
    object and is not marked; without the reverted touch the same payment is
    marked.  Only marked objects are written to the trie. *)
Theorem touch_undo_loses_dirty :
  match touch_revert_pay with
  | Some s => (GetBalance sample_hash carol s).1 = 10 /\ carol ∉ stateObjectsDirty s
  | None => False
  end /\
  carol ∈ stateObjectsDirty (AddBalance sample_hash carol 10 carolDB).
Proof.
  set (b := match touch_revert_pay with
            | Some s => ((GetBalance sample_hash carol s).1 =? 10) && negb (bool_decide (carol ∈ stateObjectsDirty s))
            | None => false end).
  assert (b = true) as Hb by (vm_compute; reflexivity). unfold b in Hb.
  split; [|apply (bool_decide_eq_true (carol ∈ stateObjectsDirty (AddBalance sample_hash carol 10 carolDB)));
           vm_compute; reflexivity].
  destruct touch_revert_pay; [|done]. apply andb_true_iff in Hb as [H1 H2].
  apply Z.eqb_eq in H1. apply negb_true_iff, bool_decide_eq_false in H2. done.
Qed.

(** A revert does not restore emptiness: [empty] also looks at the map of
    dirty storage, in which the undo of a storage change leaves the old value as
    an entry; an account that is empty before a reverted write is not empty
    after it, although the state it stands for is the same. *)
Theorem revert_changes_Empty :
  (Empty sample_hash carol carolDB).1 = true /\
  match RevertToSnapshot sample_hash (Snapshot carolDB).1
          (SetState sample_hash carol key1 key2 (Snapshot carolDB).2) with
  | Some s => (Empty sample_hash carol s).1 = false /\
              (GetState sample_hash carol key1 s).1 = (GetState sample_hash carol key1 carolDB).1
  | None => False
  end.
Proof.
  set (r := RevertToSnapshot _ _ _).
  assert (match r with
          | Some s => negb (Empty sample_hash carol s).1 &&
              bool_decide ((GetState sample_hash carol key1 s).1 = (GetState sample_hash carol key1 carolDB).1)
          | None => false end = true) as H by (vm_compute; reflexivity).
  split; [vm_compute; reflexivity|]. destruct r; [|done].
  apply andb_true_iff in H as [H1 H2]. apply negb_true_iff in H1. apply bool_decide_eq_true in H2.
  exact (conj H1 H2).
Qed.
