(* ===== verification/TrieTheorems.v ===== *)
(** Theorems on the tries.

    A history of operations is run on a trie and on a finite map; the trie
    answers as the map does, and its root hash is a function of the map.  The
    root hash binds the map, and a Merkle proof what it shows. *)

From S2P Require Import Prelude BigMath Rlp RlpSpec RlpRaw Trie TrieTree TrieCodec TrieRefine TrieHash TrieMap TrieProof TrieSecure.
Import Big Common MPT.

(** * Histories of a trie *)

Inductive op :=
| OGet (key : list byte)
| OUpdate (key value : list byte)
| ODelete (key : list byte)
| OHash
| OCommit
| OReopen. (* Commit, and New with the root hash *)
Inductive answer := AValue (v : list byte) | ADone | ARoot (h : Hash).

Definition returns {A} (x : T A) : option A := match x tt with Ok a _ => Some a | _ => None end.

Section History.
Context (Keccak256 : list byte -> Hash).

Definition exec (o : op) (tr : MPT.Trie) : option (answer * MPT.Trie) :=
  match o with
  | OGet k => '(v, tr) ← returns (MPT.TryGet tr k); Some (AValue v, tr)
  | OUpdate k v => tr ← returns (MPT.TryUpdate tr k v); Some (ADone, tr)
  | ODelete k => tr ← returns (MPT.TryDelete tr k); Some (ADone, tr)
  | OHash => '(h, tr) ← Hash_ Keccak256 tr; Some (ARoot h, tr)
  | OCommit => '(h, tr) ← Commit Keccak256 tr; Some (ARoot h, tr)
  | OReopen => '(h, tr) ← Commit Keccak256 tr; tr ← returns (New h (tdb tr)); Some (ARoot h, tr)
  end.

(** The same on a map. *)
Definition on_map (o : op) (m : entries_t) : answer * entries_t :=
  match o with
  | OGet k => (AValue (default [] (m !! k)), m)
  | OUpdate k v => (ADone, updated k v m)
  | ODelete k => (ADone, base.delete k m)
  | OHash | OCommit | OReopen => (ARoot (rootHash Keccak256 m), m)
  end.

(** Keys and values of a length that can be encoded; when nodes are written none
    collides with what is ever stored, and a root that is opened is not one of
    the two hashes of the empty trie. *)
Definition safe (U : store_t) (o : op) (m : entries_t) : bool :=
  match o with
  | OUpdate k v => (len k <? hexlen_bound) && (len v <? 2 ^ 56)
  | OCommit => consistentb Keccak256 U (tree_of m)
  | OReopen => consistentb Keccak256 U (tree_of m) && bool_decide (root_ok Keccak256 m)
  | _ => true
  end.

Fixpoint exec_all (ops : list op) (tr : MPT.Trie) : option (list answer * MPT.Trie) :=
  match ops with
  | [] => Some ([], tr)
  | o :: ops => '(a, tr) ← exec o tr; '(l, tr) ← exec_all ops tr; Some (a :: l, tr)
  end.
Fixpoint on_map_all (ops : list op) (m : entries_t) : list answer * entries_t :=
  match ops with
  | [] => ([], m)
  | o :: ops => let (a, m) := on_map o m in let (l, m) := on_map_all ops m in (a :: l, m)
  end.
Fixpoint safe_all (U : store_t) (ops : list op) (m : entries_t) : bool :=
  match ops with
  | [] => true
  | o :: ops => safe U o m && safe_all U ops (on_map o m).2
  end.

Lemma exec_ok U o tr m : holds Keccak256 tr m -> tdb tr ⊆ U -> safe U o m = true ->
  exists tr', exec o tr = Some ((on_map o m).1, tr') /\ holds Keccak256 tr' (on_map o m).2 /\ tdb tr' ⊆ U.
Proof.
  intros Hh HU Hs. destruct o as [k|k v|k| | |]; cbn [exec on_map safe fst snd] in *.
  - destruct (TryGet_ok _ tr m k Hh) as (tr' & E & H' & D). unfold returns. rewrite E. eexists. by rewrite D.
  - apply andb_prop in Hs as [Hk%Z.ltb_lt Hv%Z.ltb_lt]. destruct (TryUpdate_ok _ tr m k v Hh Hk Hv) as (tr' & E & H' & D).
    unfold returns. rewrite E. eexists. by rewrite D.
  - destruct (TryDelete_ok _ tr m k Hh) as (tr' & E & H' & D). unfold returns. rewrite E. eexists. by rewrite D.
  - destruct (Hash_ok _ tr m Hh) as (tr' & E & H' & D). rewrite E. eexists. by rewrite D.
  - apply consistentb_true in Hs. destruct (Commit_ok _ U tr m Hh Hs HU) as (tr' & E & H' & _ & D & _). rewrite E. by eexists.
  - apply andb_prop in Hs as [Hc%consistentb_true Hr%bool_decide_eq_true_1].
    destruct (Commit_ok _ U tr m Hh Hc HU) as (tr' & E & H' & _ & D & K). rewrite E. cbn [mbind option_bind].
    destruct (New_ok _ m (tdb tr') ltac:(apply Hh) Hr K) as (tr2 & E2 & H2 & D2). unfold returns. rewrite E2. eexists. by rewrite D2.
Qed.

(** C6. A trie refines a finite map: every history of TryGet, TryUpdate,
    TryDelete, Hash, Commit and of closing and opening the trie again runs to its
    end on a trie that stores the map [m], whatever of it is loaded, cached or
    committed; the values read are those of the map, the hashes are the Merkle
    root of the map at that point, which depends on its entries only, and the trie
    then stores the map the history leads to. *)
Theorem trie_refines_map U ops tr m : holds Keccak256 tr m -> tdb tr ⊆ U -> safe_all U ops m = true ->
  exists tr', exec_all ops tr = Some ((on_map_all ops m).1, tr') /\ holds Keccak256 tr' (on_map_all ops m).2 /\ tdb tr' ⊆ U.
Proof.
  revert tr m. induction ops as [|o ops IH]; intros tr m Hh HU Hs; [by exists tr|].
  cbn [safe_all] in Hs. apply andb_prop in Hs as [Ho Hs]. destruct (exec_ok U o tr m Hh HU Ho) as (tr1 & E1 & H1 & U1).
  destruct (IH tr1 _ H1 U1 Hs) as (tr2 & E2 & H2 & U2). exists tr2. cbn [exec_all on_map_all]. rewrite E1. cbn [mbind option_bind].
  rewrite E2. destruct (on_map o m) as [a m1]. cbn [fst snd] in *. by destruct (on_map_all ops m1).
Qed.


End History.

(** * Histories of a secure trie *)

Inductive sop :=
| SGet (key : list byte)
| SUpdate (key value : list byte)
| SDelete (key : list byte)
| SKey (key : list byte) (* GetKey of its hash *)
| SHash
| SCommit
| SReopen (cachelimit : Z).

Section SecureHistory.
Context (Keccak256 : list byte -> Hash).

Definition sexec (o : sop) (st : SecureTrie) : option (answer * SecureTrie) :=
  match o with
  | SGet k => '(v, st) ← returns (SecureTryGet Keccak256 st k); Some (AValue v, st)
  | SUpdate k v => st ← returns (SecureTryUpdate Keccak256 k v st); Some (ADone, st)
  | SDelete k => st ← returns (SecureTryDelete Keccak256 k st); Some (ADone, st)
  | SKey k => Some (AValue (GetKey st (hashKey Keccak256 k)), st)
  | SHash => '(h, st) ← SecureHash Keccak256 st; Some (ARoot h, st)
  | SCommit => '(h, st) ← SecureCommit Keccak256 st; Some (ARoot h, st)
  | SReopen limit => '(h, st) ← SecureCommit Keccak256 st; st ← returns (NewSecure h (tdb (strie st)) limit); Some (ARoot h, st)
  end.

Definition sroot (m : entries_t) : Hash := rootHash Keccak256 (hash_keys Keccak256 m).
Definition on_smap (o : sop) (m : entries_t) : answer * entries_t :=
  match o with
  | SGet k => (AValue (default [] (m !! k)), m)
  | SUpdate k v => (ADone, updated k v m)
  | SDelete k => (ADone, base.delete k m)
  | SKey k => (AValue k, m)
  | SHash | SCommit | SReopen _ => (ARoot (sroot m), m)
  end.

(** The keys are among those that are ever stored; GetKey is for keys that have a
    value. *)
Definition ssafe (U : store_t) (o : sop) (m : entries_t) : bool :=
  let writes := consistentb Keccak256 U (tree_of (hash_keys Keccak256 m)) in
  match o with
  | SGet k | SDelete k => bool_decide (known Keccak256 U k)
  | SUpdate k v => bool_decide (known Keccak256 U k) && (len v <? 2 ^ 56)
  | SKey k => bool_decide (m !! k <> None)
  | SHash => true
  | SCommit => writes
  | SReopen _ => writes && bool_decide (root_ok Keccak256 (hash_keys Keccak256 m))
  end.

Fixpoint sexec_all (ops : list sop) (st : SecureTrie) : option (list answer * SecureTrie) :=
  match ops with
  | [] => Some ([], st)
  | o :: ops => '(a, st) ← sexec o st; '(l, st) ← sexec_all ops st; Some (a :: l, st)
  end.
Fixpoint on_smap_all (ops : list sop) (m : entries_t) : list answer * entries_t :=
  match ops with
  | [] => ([], m)
  | o :: ops => let (a, m) := on_smap o m in let (l, m) := on_smap_all ops m in (a :: l, m)
  end.
Fixpoint ssafe_all (U : store_t) (ops : list sop) (m : entries_t) : bool :=
  match ops with
  | [] => true
  | o :: ops => ssafe U o m && ssafe_all U ops (on_smap o m).2
  end.

Definition stands_for (U : store_t) (st : SecureTrie) (m : entries_t) : Prop :=
  secure_holds Keccak256 U st m /\ answers Keccak256 st m.

Lemma stands_for_same U st st' m : answers Keccak256 st m -> secure_holds Keccak256 U st' m ->
  (forall h, GetKey st' h = GetKey st h) -> stands_for U st' m.
Proof. intros Ha Hh Hg. split; [done|]. intros k v Hk. rewrite Hg. by eapply Ha. Qed.

Lemma sreopen_ok U st m limit : stands_for U st m -> ssafe U (SReopen limit) m = true ->
  exists st', sexec (SReopen limit) st = Some (ARoot (sroot m), st') /\ stands_for U st' m.
Proof.
  intros [Hh Ha] [Hc%consistentb_true Hr%bool_decide_eq_true_1]%andb_prop. cbn [sexec].
  destruct (SecureCommit_ok _ U st m Hh Hc) as (st1 & E & H1 & G1 & A1 & K1). rewrite E. cbn [mbind option_bind].
  destruct (NewSecure_ok Keccak256 U m (tdb (strie st1)) limit) as (st2 & E2 & H2 & D2 & G2); try done.
  - apply H1.
  - apply (sh_hash_keys _ _ _ _ H1).
  - apply H1.
  - unfold returns. rewrite E2. eexists. split; [done|]. split; [done|]. eapply answers_db; [exact G1|done|done|by apply A1].
Qed.

Lemma sexec_ok U o st m : stands_for U st m -> ssafe U o m = true ->
  exists st', sexec o st = Some ((on_smap o m).1, st') /\ stands_for U st' (on_smap o m).2.
Proof.
  intros [Hh Ha] Hs. destruct o as [k|k v|k|k| | |limit]; [..|by apply sreopen_ok]; cbn [sexec on_smap ssafe fst snd] in *.
  - apply bool_decide_eq_true_1 in Hs. destruct (SecureTryGet_ok _ U st m k Hh Hs) as (st' & E & H' & G).
    unfold returns. rewrite E. eexists. split; [done|]. by eapply stands_for_same.
  - apply andb_prop in Hs as [Hk%bool_decide_eq_true_1 Hv%Z.ltb_lt].
    destruct (SecureTryUpdate_ok _ U st m k v Hh Hk Hv) as (st' & E & H' & G). unfold returns. rewrite E. eexists. split; [done|].
    split; [done|by apply G].
  - apply bool_decide_eq_true_1 in Hs. destruct (SecureTryDelete_ok _ U st m k Hh Hs) as (st' & E & H' & G).
    unfold returns. rewrite E. eexists. split; [done|]. split; [done|by apply G].
  - apply bool_decide_eq_true_1 in Hs. destruct (m !! k) as [v|] eqn:E; [|done]. rewrite (Ha k v E). by eexists.
  - destruct (SecureHash_ok _ U st m Hh) as (st' & E & H' & G). rewrite E. eexists. split; [done|]. by eapply stands_for_same.
  - apply consistentb_true in Hs. destruct (SecureCommit_ok _ U st m Hh Hs) as (st' & E & H' & _ & G & _).
    rewrite E. eexists. split; [done|]. split; [done|by apply G].
Qed.

(** C20. A secure trie refines a map of the keys before hashing: every history of
    its operations over keys with different hashes runs to its end, reads what
    the map holds, gives the Merkle root of the entries under their hashed keys,
    and gives a key that has a value back from its hash, also after the trie has
    been committed, closed and opened again. *)
Theorem secure_trie_refines_map U ops st m : stands_for U st m -> ssafe_all U ops m = true ->
  exists st', sexec_all ops st = Some ((on_smap_all ops m).1, st') /\ stands_for U st' (on_smap_all ops m).2.
Proof.
  revert st m. induction ops as [|o ops IH]; intros st m Hh Hs; [by exists st|].
  cbn [ssafe_all] in Hs. apply andb_prop in Hs as [Ho Hs]. destruct (sexec_ok U o st m Hh Ho) as (st1 & E1 & H1).
  destruct (IH st1 _ H1 Hs) as (st2 & E2 & H2). exists st2. cbn [sexec_all on_smap_all]. rewrite E1. cbn [mbind option_bind].
  rewrite E2. destruct (on_smap o m) as [a m1]. cbn [fst snd] in *. by destruct (on_smap_all ops m1).
Qed.
End SecureHistory.

(** * Instances *)

(** A small hash function. *)
Definition mix (l : list byte) : Z :=
  foldl (fun h b => Z.land (Z.lxor h (byte_Z b) * 0x100000001b3) 0xffffffffffffffff) 0xcbf29ce484222325 l.
Definition fnv (l : list byte) : Hash := bits_of 256 (mix l + 2 ^ 64 * len l).
Abbreviation H := fnv.
Definition long (b : byte) : list byte := repeat b 40.
Definition empty_trie : MPT.Trie := mkTrie nilNode ∅ emptyHash 0 0.
Definition sample_ops : list op :=
  [OUpdate [x01; x02] (long xaa); OUpdate [x01] [x05]; OCommit; OUpdate [x01; x03] (long xbb); OCommit;
   OUpdate [x71] [x06]; ODelete [x01; x02]; OReopen; OGet [x01; x03]; OGet [x01; x02]; OUpdate [x71] []; OHash].
(** What the history writes. *)
Definition sample_entries : list (list byte * list byte) :=
  Eval vm_compute in match exec_all H sample_ops empty_trie with Some (_, tr) => map_to_list (tdb tr) | None => [] end.
Definition sample_store : store_t := list_to_map sample_entries.

Lemma empty_trie_holds K : holds K empty_trie ∅.
Proof. split; [by apply map_Forall_empty|constructor]. Qed.

Lemma trie_refines_map_witness :
  exists tr', exec_all H sample_ops empty_trie = Some ((on_map_all H sample_ops ∅).1, tr') /\
    holds H tr' (on_map_all H sample_ops ∅).2 /\ tdb tr' ⊆ sample_store.
Proof.
  apply (trie_refines_map H sample_store sample_ops empty_trie ∅); [apply empty_trie_holds|apply map_empty_subseteq|].
  vm_compute. reflexivity.
Defined.

Definition map1 : entries_t := <[[x01] := [x05]]> (<[[x01; x02] := long xaa]> ∅).
Definition map2 : entries_t := <[[x01; x02] := long xaa]> (<[[x01] := [x05]]> ∅).

Lemma map1_valid : valid map1.
Proof. repeat apply map_Forall_insert_2; [..|apply map_Forall_empty]; done. Qed.

Lemma map2_valid : valid map2.
Proof. repeat apply map_Forall_insert_2; [..|apply map_Forall_empty]; done. Qed.


(** A trie that has been written and opened again. *)
Definition stepped (o : op) (tr : MPT.Trie) : MPT.Trie := match exec H o tr with Some (_, tr) => tr | None => tr end.
Lemma stepped_ok U o tr m : holds H tr m /\ tdb tr ⊆ U -> safe H U o m = true ->
  holds H (stepped o tr) (on_map H o m).2 /\ tdb (stepped o tr) ⊆ U.
Proof. intros [Hh HU] Hs. destruct (exec_ok H U o tr m Hh HU Hs) as (tr' & E & H' & D). unfold stepped. by rewrite E. Qed.

Definition trie1 : MPT.Trie := stepped OReopen (stepped (OUpdate [x01] [x05]) (stepped (OUpdate [x01; x02] (long xaa)) empty_trie)).
Lemma trie1_holds : holds H trie1 map1.
Proof.
  apply (stepped_ok sample_store OReopen _ map1); [|vm_compute; reflexivity].
  apply (stepped_ok sample_store (OUpdate [x01] [x05]) _ (<[[x01; x02] := long xaa]> ∅)); [|vm_compute; reflexivity].
  apply (stepped_ok sample_store (OUpdate [x01; x02] (long xaa)) _ ∅); [|vm_compute; reflexivity].
  split; [apply empty_trie_holds|apply map_empty_subseteq].
Qed.


Definition sample_sops : list sop :=
  [SUpdate [x01] (long xaa); SUpdate [x02] [x05]; SKey [x01]; SHash; SReopen 5; SKey [x02]; SUpdate [x03] (long xbb); SDelete [x02];
   SCommit; SGet [x03]; SGet [x02]; SReopen 1; SKey [x03]].
Definition empty_secure : SecureTrie := mkSecure empty_trie ∅ false.
Definition secure_entries : list (list byte * list byte) :=
  Eval vm_compute in match sexec_all H sample_sops empty_secure with Some (_, st) => map_to_list (tdb (strie st)) | None => [] end.
Definition secure_store : store_t := list_to_map secure_entries.

Lemma secure_trie_refines_map_witness :
  exists st', sexec_all H sample_sops empty_secure = Some ((on_smap_all H sample_sops ∅).1, st') /\
    stands_for H secure_store st' (on_smap_all H sample_sops ∅).2.
Proof.
  apply (secure_trie_refines_map H secure_store sample_sops empty_secure ∅); [|vm_compute; reflexivity].
  split; [split; [done| |done|apply map_empty_subseteq]|done].
  exists ∅. split; [|apply empty_trie_holds]. intros h v. split; [done|]. by intros (k & _ & ?).
Defined.
