(* ===== verification/DeriveSha.v ===== *)
(** The root hash of a list of transactions or receipts: core/types/derive_sha.go,
    where the encoder and the trie meet.

    A list is given by the encodings of its elements, GetRlp. *)

From S2P Require Import Prelude BigMath Rlp RlpSpec RlpRaw Trie TrieTree TrieCodec TrieRefine TrieHash TrieMap TrieProof TrieTheorems.
Import Big Common MPT.

Local Open Scope Z_scope.

Section DeriveSha.
Context (Keccak256 : list byte -> Hash).

(** rlp.Encode(keybuf, uint(i)) into an empty buffer. *)
Definition index_key (i : nat) : option (list byte) :=
  match RLP.write (RLP.UintT 64) (RLP.VUint (Z.of_nat i)) RLP.emptyBuf with
  | Ok _ w => Some (RLP.toWriter w)
  | _ => None
  end.

(** Trie.Update logs an error. *)
Definition Update (t : MPT.Trie) (key value : list byte) : option MPT.Trie :=
  match MPT.TryUpdate t key value tt with
  | Ok t _ => Some t
  | Fail _ _ => Some t
  | _ => None
  end.

Fixpoint derive_loop (i : nat) (list : list (list byte)) (trie : MPT.Trie) : option MPT.Trie :=
  match list with
  | [] => Some trie
  | v :: list =>
      key ← index_key i;
      trie ← Update trie key v;
      derive_loop (S i) list trie
  end.
Definition DeriveSha (list : list (list byte)) : option Hash :=
  trie ← derive_loop 0 list (mkTrie nilNode ∅ emptyHash 0 0);
  '(h, _) ← Hash_ Keccak256 trie;
  Some h.

(** * The entries of a list *)

Definition ikey (i : nat) : list byte := rlp (Str (Bytes (Z.of_nat i))).
Fixpoint indexed (i : nat) (l : list (list byte)) (m : entries_t) : entries_t :=
  match l with
  | [] => m
  | v :: l => indexed (S i) l (<[ikey i := v]> m)
  end.

Lemma ikey_len i : Z.of_nat i < 2 ^ 63 -> len (ikey i) <= 17.
Proof.
  intros Hi. unfold ikey. assert (len (Bytes (Z.of_nat i)) <= 8) as Hb; [|pose proof (rlp_Str_le (Bytes (Z.of_nat i)) ltac:(lia)); lia].
  unfold len. rewrite Bytes_length. assert (BitLen (Z.of_nat i) <= 64) by (apply BitLen_le; lia). apply Z.lt_succ_r, Z.div_lt_upper_bound; lia.
Qed.
Lemma ikey_inj i j : Z.of_nat i < 2 ^ 63 -> Z.of_nat j < 2 ^ 63 -> ikey i = ikey j -> i = j.
Proof.
  intros Hi Hj E. pose proof (ikey_len i Hi). pose proof (ikey_len j Hj). unfold ikey in *.
  pose proof (SplitString_rlp (Bytes (Z.of_nat i)) [] ltac:(rewrite app_nil_r; lia)) as Si. pose proof (SplitString_rlp (Bytes (Z.of_nat j)) [] ltac:(rewrite app_nil_r; lia)) as Sj.
  rewrite E in Si. rewrite Si in Sj. injection Sj as Eb. apply (f_equal SetBytes) in Eb. rewrite !SetBytes_Bytes in Eb. lia.
Qed.
Lemma index_key_ok i : Z.of_nat i < 2 ^ 63 -> index_key i = Some (ikey i).
Proof.
  intros Hi. pose proof (ikey_len i Hi) as Hl. destruct (writes_uint (Z.of_nat i) ltac:(lia) RLP.emptyBuf) as (s & hs & k & E & L & [_ R]).
  unfold index_key. cbn [RLP.write]. rewrite E. f_equal. unfold RLP.toWriter. cbn [RLP.emptyBuf RLP.str RLP.lheads RLP.lhsize app] in *.
  specialize (R [] [] []). rewrite !app_nil_r in R. cbn [app RLP.pieces] in R. change (len []) with 0 in R. rewrite R by done.
  rewrite Z.add_0_l, drop_ge, app_nil_r by (unfold len; lia). done.
Qed.

Lemma indexed_lookup l : forall i m j, Z.of_nat (i + length l) < 2 ^ 63 -> Z.of_nat j < 2 ^ 63 ->
  indexed i l m !! ikey j = if bool_decide (i <= j < i + length l)%nat then l !! (j - i)%nat else m !! ikey j.
Proof.
  induction l as [|v l IH]; intros i m j Hi Hj; cbn [indexed length] in *.
  { by rewrite bool_decide_false by lia. }
  rewrite IH by lia. destruct (decide (j = i)) as [->|Hne].
  - rewrite bool_decide_false, bool_decide_true by lia. by rewrite lookup_insert_eq, Nat.sub_diag.
  - rewrite lookup_insert_ne by (intros ?%ikey_inj; lia). destruct (decide (S i <= j < S i + length l)%nat) as [Hin|Hout].
    + rewrite !bool_decide_true by lia. by replace (j - i)%nat with (S (j - S i)) by lia.
    + by rewrite !bool_decide_false by lia.
Qed.
Lemma indexed_inj l1 l2 : Z.of_nat (length l1) < 2 ^ 62 -> Z.of_nat (length l2) < 2 ^ 62 -> indexed 0 l1 ∅ = indexed 0 l2 ∅ -> l1 = l2.
Proof.
  intros H1 H2 E. assert (forall l (j : nat), Z.of_nat (length l) < 2 ^ 62 -> Z.of_nat j < 2 ^ 63 -> indexed 0 l ∅ !! ikey j = l !! j) as Hl.
  { intros l j Hl Hj. rewrite indexed_lookup by lia. rewrite Nat.sub_0_r. case_bool_decide as Hin; [done|]. rewrite lookup_empty. symmetry. apply lookup_ge_None. lia. }
  apply list_eq. intros j. destruct (decide (Z.of_nat j < 2 ^ 63)) as [Hj|Hj]; [by rewrite <- !Hl, E by lia|].
  rewrite !(proj2 (lookup_ge_None _ _)) by lia. done.
Qed.

Lemma derive_loop_ok l : forall i tr m, holds Keccak256 tr m -> Forall fits_val l -> Z.of_nat (i + length l) < 2 ^ 63 ->
  exists tr', derive_loop i l tr = Some tr' /\ holds Keccak256 tr' (indexed i l m).
Proof.
  induction l as [|v l IH]; intros i tr m Hh F Hi; cbn [derive_loop indexed length] in *.
  { by exists tr. }
  apply Forall_cons_iff in F as [[Hv Hlv] F]. rewrite index_key_ok by lia. cbn [mbind option_bind].
  destruct (TryUpdate_ok Keccak256 tr m (ikey i) v Hh) as (tr1 & E1 & H1 & _); [pose proof (ikey_len i ltac:(lia)); unfold fits_key, hexlen_bound; lia|done|].
  unfold Update. rewrite E1. cbn [mbind option_bind]. destruct (IH (S i) tr1 (<[ikey i := v]> m)) as (tr2 & E2 & H2); [by destruct v|done|lia|].
  exists tr2. by rewrite E2.
Qed.
Lemma DeriveSha_ok l : Forall fits_val l -> Z.of_nat (length l) < 2 ^ 62 -> DeriveSha l = Some (rootHash Keccak256 (indexed 0 l ∅)) /\ valid (indexed 0 l ∅).
Proof.
  intros F Hl. destruct (derive_loop_ok l 0 (mkTrie nilNode ∅ emptyHash 0 0) ∅ (empty_trie_holds Keccak256) F ltac:(lia)) as (tr & E & Hh).
  destruct (Hash_ok Keccak256 tr _ Hh) as (tr' & E' & _). unfold DeriveSha. rewrite E. cbn [mbind option_bind]. rewrite E'. split; [done|apply Hh].
Qed.

(** C15. The root of a list binds its elements: DeriveSha gives the Merkle root of
    the map from the encoded indices to the encoded elements, and, where no two
    nodes of the tries collide, two lists have the same root exactly when they have
    the same elements in the same order. *)
Theorem derive_sha_binds l1 l2 : let m1 := indexed 0 l1 ∅ in let m2 := indexed 0 l2 ∅ in
  Forall fits_val l1 -> Forall fits_val l2 -> Z.of_nat (length l1) < 2 ^ 62 -> Z.of_nat (length l2) < 2 ^ 62 ->
  root_ok Keccak256 m1 -> root_ok Keccak256 m2 -> apart Keccak256 (tree_of m1) (tree_of m2) ->
  DeriveSha l1 = Some (rootHash Keccak256 m1) /\ (DeriveSha l1 = DeriveSha l2 <-> l1 = l2).
Proof.
  intros m1 m2 F1 F2 H1 H2 R1 R2 Ha. destruct (DeriveSha_ok l1 F1 H1) as [E1 V1]. destruct (DeriveSha_ok l2 F2 H2) as [E2 V2]. split; [done|].
  split; [|by intros ->]. rewrite E1, E2. intros E. injection E as E. apply indexed_inj; [done|done|]. by apply (rootHash_inj Keccak256).
Qed.
End DeriveSha.

(** Two transactions, and the same two in the other order. *)
Definition sample_list : list (list byte) := [repeat x61 40; [x62; x63]].
Lemma sample_list_fits : Forall fits_val sample_list /\ Forall fits_val (rev sample_list).
Proof. split; repeat constructor; done. Qed.
Lemma derive_sha_binds_witness :
  let m1 := indexed 0 sample_list ∅ in
  DeriveSha fnv sample_list = Some (rootHash fnv m1) /\ (DeriveSha fnv sample_list = DeriveSha fnv (rev sample_list) <-> sample_list = rev sample_list).
Proof.
  intros m1. set (m2 := indexed 0 (rev sample_list) ∅).
  assert (bool_decide (root_ok fnv m1) && bool_decide (root_ok fnv m2) && bool_decide (apart fnv (tree_of m1) (tree_of m2)) = true) as E by (vm_compute; reflexivity).
  apply andb_prop in E as [E E3%bool_decide_eq_true_1]. apply andb_prop in E as [E1%bool_decide_eq_true_1 E2%bool_decide_eq_true_1].
  destruct sample_list_fits. apply (derive_sha_binds fnv sample_list (rev sample_list)); try done.
Defined.
