(* ===== verification/TxListTheorems.v ===== *)
(** What the lists of the transaction pool promise: the per-account lists over any
    history of their operations, and the price heap. *)

From S2P Require Import Prelude BigMath GoHeap TxTypes TxList TxListSpec TxListRefine TxPriced TxByPrice.
Import Big Common Tx TxList.

Local Open Scope Z_scope.

(** * Histories of a list *)

Inductive list_op :=
| OpAdd (tx : Transaction) (priceBump : Z)
| OpForward (threshold : Z)
| OpFilter (costLimit gasLimit : Z)
| OpInvalid (invalid : Transaction -> bool)
| OpCap (threshold : Z)
| OpRemove (tx : Transaction)
| OpReady (start : Z)
| OpFlatten.

Section Histories.
Context (range : gmap Z Transaction -> list (Z * Transaction)).
Hypothesis range_perm : forall m, range m ≡ₚ map_to_list m.

(** The transactions that an operation gives back, and the list after it. *)
Definition list_step (tl : txList) (op : list_op) : option (list Transaction * txList) :=
  match op with
  | OpAdd tx bump => let '(_, old, tl) := Add tl tx bump in Some (option_list old, tl)
  | OpForward t => ListForward tl t
  | OpFilter cost gas => '(removed, invalids, tl) ← ListFilter range tl cost gas; Some (removed ++ invalids, tl)
  | OpInvalid g => dropInvalid range tl (fun tx => Some (g tx))
  | OpCap t => ListCap tl t
  | OpRemove tx => '(_, invalids, tl) ← ListRemove range tl tx; Some (invalids, tl)
  | OpReady start => ListReady tl start
  | OpFlatten => Some (ListFlatten range tl)
  end.
Fixpoint list_history (tl : txList) (ops : list list_op) : option (list (list Transaction) * txList) :=
  match ops with
  | [] => Some ([], tl)
  | op :: ops => '(out, tl) ← list_step tl op; '(outs, tl) ← list_history tl ops; Some (out :: outs, tl)
  end.

(** What the operations mean on a list ordered by nonce: where the order of what
    comes back depends on the iteration over the map, it is given up to its order. *)
Definition means (strict : bool) (l : list Transaction) (op : list_op) (out l' : list Transaction) : Prop :=
  match op with
  | OpAdd tx bump => if accepts tx bump l then out = option_list (replaced tx l) /\ l' = put_list tx l else out = [] /\ l' = l
  | OpForward t => out = List.filter (low t) l /\ l' = List.filter (not_low t) l
  | OpFilter cost gas => l' = left_by strict (tooCostly cost gas) l /\ l ≡ₚ out ++ l'
  | OpInvalid g => l' = left_by strict g l /\ l ≡ₚ out ++ l'
  | OpCap t => out = rev (drop (Z.to_nat t) l) /\ l' = take (Z.to_nat t) l
  | OpRemove tx => l' = left_after strict (Nonce tx) l /\ List.filter (other (Nonce tx)) l ≡ₚ out ++ l'
  | OpReady start => out = ready_list start l /\ l = out ++ l'
  | OpFlatten => out = l /\ l' = l
  end.
Fixpoint means_all (strict : bool) (l : list Transaction) (ops : list list_op) (outs : list (list Transaction)) (l' : list Transaction) : Prop :=
  match ops, outs with
  | [], [] => l' = l
  | op :: ops, out :: outs => exists l1, means strict l op out l1 /\ means_all strict l1 ops outs l'
  | _, _ => False
  end.

Definition op_ok (op : list_op) : Prop :=
  match op with OpAdd tx _ => 0 <= Nonce tx < 2 ^ 64 | OpCap t => 0 <= t | _ => True end.

Lemma list_step_ok tl l op : lists tl l -> op_ok op -> exists out tl' l', list_step tl op = Some (out, tl') /\ lists tl' l' /\ strict tl' = strict tl /\ means (strict tl) l op out l'.
Proof.
  intros Hl Hop. destruct op as [tx bump|t|cost gas|g|t|tx|start|]; cbn [list_step means].
  - destruct (Add_ok tl l tx bump Hl Hop) as (tl' & -> & Hl' & Hs). destruct (accepts tx bump l); by eexists _, _, _.
  - destruct (ListForward_ok tl l t Hl) as (tl' & -> & Hl' & Hs). by eexists _, _, _.
  - destruct (ListFilter_ok range range_perm tl l cost gas Hl) as (removed & invalids & tl' & -> & _ & Hl' & Hs & Hp). eexists _, _, _. split_and!; [done..|]. by rewrite <- app_assoc.
  - destruct (dropInvalid_ok range range_perm tl l (fun tx => Some (g tx)) g Hl ltac:(done)) as (removed & tl' & -> & Hl' & Hs & Hp). by eexists _, _, _.
  - destruct (ListCap_ok tl l t Hl Hop) as (tl' & -> & Hl' & Hs). by eexists _, _, _.
  - destruct (ListRemove_ok range range_perm tl l tx Hl) as (invalids & tl' & -> & Hl' & Hs & Hp). by eexists _, _, _.
  - destruct (ListReady_ok tl l start Hl) as (tl' & -> & Hl' & Hs). eexists _, _, _. split_and!; [done..|]. symmetry. apply ready_prefix.
  - destruct (ListFlatten_ok range range_perm tl l Hl) as (tl' & -> & Hl' & Hs). by eexists _, _, _.
Qed.

Lemma list_history_ok ops : forall tl l, lists tl l -> Forall op_ok ops ->
  exists outs tl' l', list_history tl ops = Some (outs, tl') /\ lists tl' l' /\ means_all (strict tl) l ops outs l'.
Proof.
  induction ops as [|op ops IH]; intros tl l Hl F; cbn [list_history].
  { by exists [], tl, l. }
  apply Forall_cons_iff in F as [Hop F]. destruct (list_step_ok tl l op Hl Hop) as (out & tl1 & l1 & -> & Hl1 & Hs & Hm). cbn [mbind option_bind].
  destruct (IH tl1 l1 Hl1 F) as (outs & tl2 & l2 & -> & Hl2 & Hms). cbn [mbind option_bind]. exists (out :: outs), tl2, l2. split_and!; [done|done|]. exists l1. split; [done|by rewrite <- Hs].
Qed.

(** C21. The transaction lists of the pool are lists ordered by nonce: over any
    history of operations no index is out of range and no heap is empty where an
    element is taken, whatever the order of the iterations over the map; what each
    operation gives back and leaves is what it means on the ordered list, although
    the costs are filtered behind caps; and the list that is left is the ordered
    one. *)
Theorem tx_list_refines isStrict ops : Forall op_ok ops ->
  exists outs tl l, list_history (newTxList isStrict) ops = Some (outs, tl) /\ means_all isStrict [] ops outs l /\
    (ListFlatten range tl).1 = l /\ ListLen tl = Z.of_nat (length l) /\ ordered Nonce l.
Proof.
  intros F. destruct (list_history_ok ops (newTxList isStrict) [] (newTxList_ok isStrict) F) as (outs & tl & l & E & Hl & Hm). exists outs, tl, l.
  destruct (ListFlatten_ok range range_perm tl l Hl) as (tl' & Ef & _). destruct Hl as [[Hc _ _] _]. split_and!; [done|done|by rewrite Ef| |by destruct Hc].
  unfold ListLen, Len. by rewrite (core_size _ _ _ Hc).
Qed.
End Histories.

(** * The price heap *)

Section Prices.
Context (hash : Transaction -> Hash).

End Prices.

(** * Samples *)

Module ListSample.
Definition payment (from nonce price value : Z) : Transaction := mkTx NORMAL_TX nonce price 21000 None value [] from 1 1.
Definition slot (from nonce price : Z) : Transaction := mkTx POS_TX nonce price 21000 None 0 [] from 1 1.
Definition tx_hash (tx : Transaction) : Hash := bits_of 256 (Nonce tx + 1000 * GasPrice tx + 1000000 * sigV tx).
Definition signer (tx : Transaction) : option Address := Some (bits_of 160 (sigV tx)).
Definition ops : list list_op :=
  [OpAdd (payment 1 7 5 0) 10; OpAdd (payment 1 5 5 0) 10; OpAdd (payment 1 6 5 100) 10; OpAdd (payment 1 7 6 0) 10; OpFlatten; OpFilter 105050 21000; OpAdd (payment 1 6 9 0) 10;
   OpCap 2; OpInvalid (fun tx => Nonce tx =? 9); OpReady 5; OpRemove (payment 1 7 6 0); OpForward 9].
Definition cheap : Transaction := payment 1 0 1 0.
Definition dear : Transaction := payment 2 0 3 0.
Definition pool_txs : gmap Hash Transaction := <[tx_hash dear := dear]> (<[tx_hash cheap := cheap]> ∅).
Definition heap : Priced.txPricedList := Priced.Put (Priced.Put Priced.newTxPricedList cheap) dear.
Lemma heap_tracks : tracks tx_hash pool_txs heap.
Proof.
  apply PricedPut_ok; [apply PricedPut_ok; [apply new_tracks|apply not_elem_of_nil]|]. change (tx_hash <$> _) with [tx_hash cheap]. intros H%list_elem_of_singleton. vm_compute in H. congruence.
Qed.
End ListSample.
Import ListSample.

Lemma tx_list_refines_witness :
  exists outs tl l, list_history map_to_list (newTxList true) ops = Some (outs, tl) /\ means_all true [] ops outs l /\
    (ListFlatten map_to_list tl).1 = l /\ ListLen tl = Z.of_nat (length l) /\ ordered Nonce l.
Proof. apply (tx_list_refines map_to_list ltac:(done) true ops). repeat apply Forall_cons_2; try done; cbn; lia. Defined.


(** Transactions of the consensus do not come first: each of a cheap one and a
    dearer normal one is before the other in the order of the miner's heap, so that
    which of them is taken first depends on the iteration over the accounts. *)
Theorem pos_order_depends :
  let a := bits_of 160 1 in let b := bits_of 160 2 in
  let q : queues := <[a := [slot 1 0 1]]> (<[b := [payment 2 0 3 0]]> ∅) in
  less_price (slot 1 0 1) (payment 2 0 3 0) = true /\ less_price (payment 2 0 3 0) (slot 1 0 1) = true /\
  (t ← ByPrice.NewTransactionsByPriceAndNonce signer map_to_list q; ByPrice.Peek t) <>
  (t ← ByPrice.NewTransactionsByPriceAndNonce signer (fun q => rev (map_to_list q)) q; ByPrice.Peek t).
Proof. split_and!; [done|done|]. vm_compute. congruence. Qed.
