(* ===== verification/TxPoolTheorems.v ===== *)
(** What the transaction pool promises, over whole histories of it.

    A history is a sequence of calls of the pool and of events of its loop, each
    at a time of the clock. *)

From S2P Require Import Prelude BigMath VmData GoHeap TxTypes TxList TxListSpec TxListRefine TxPriced TxByPrice Ota Transition TxPool TxPoolInv TxPoolSteps TxPoolReset.
From stdpp Require Import functions.
Import Big Common Addr Tx Managed Pool TxList.

Local Open Scope Z_scope.

(** * Histories *)

Inductive event :=
| EvAdd (local : bool) (tx : Transaction)
| EvAdds (local : bool) (txs : list Transaction)
| EvSetGasPrice (price : Z)
| EvHead (head : Header) (block : Block)
| EvEvict
| EvRejournal
| EvPending
| EvContent.

Section History.
Context {S E : Type} `{!PoolState S E}.
Context (config : TxPoolConfig).
Context (hash : Transaction -> Hash) (Size : Transaction -> Z) (Sender : Transaction -> option Address).
Context (range_nonce : gmap Z Transaction -> list (Z * Transaction)).
Context (range_hash : gmap Hash Transaction -> list (Hash * Transaction)).
Context (range_list : gmap Address txList -> list (Address * txList)).
Context (range_txs : gmap Address (list Transaction) -> list (Address * list Transaction)).
Context (range_addr : gset Address -> list Address).
Context (GetBlock : Hash -> Z -> option Block) (StateAt : Hash -> option S) (CurrentBlock : Block).
Implicit Types p : TxPool S.

Abbreviation AddLocal := (AddLocal config hash Size Sender range_nonce range_hash range_list).
Abbreviation AddRemote := (AddRemote config hash Size Sender range_nonce range_hash range_list).
Abbreviation AddLocals := (AddLocals config hash Size Sender range_nonce range_hash range_list range_addr).
Abbreviation AddRemotes := (AddRemotes config hash Size Sender range_nonce range_hash range_list range_addr).

Definition pool_step p (e : Z * event) : option (TxPool S) :=
  let (now, ev) := e in
  match ev with
  | EvAdd local tx => '(_, p) ← (if local then AddLocal now p tx else AddRemote now p tx); Some p
  | EvAdds local txs => if local then AddLocals now p txs else AddRemotes now p txs
  | EvSetGasPrice price => SetGasPrice (E := E) config hash Sender range_nonce range_hash p price
  | EvHead head block => chainHead config hash Size Sender range_nonce range_hash range_list range_addr GetBlock StateAt CurrentBlock now p head block
  | EvEvict => evict (E := E) config hash Sender range_nonce range_hash range_list now p
  | EvRejournal => Some (rejournal range_nonce range_txs range_addr p)
  | EvPending => Some (Pending range_nonce p).2
  | EvContent => Some (Content range_nonce p).2
  end.
Fixpoint history p (evs : list (Z * event)) : option (TxPool S) :=
  match evs with
  | [] => Some p
  | e :: evs => p ← pool_step p e; history p evs
  end.

(** The transactions that an event offers to the pool. *)
Definition offered (e : Z * event) : list Transaction :=
  match e.2 with
  | EvAdd _ tx => [tx]
  | EvAdds _ txs => txs
  | EvHead head block => match reorg hash GetBlock head (header block) with Some (Some txs) => txs | _ => [] end
  | _ => []
  end.
(** The heads of the chain are blocks of it. *)
Definition on_chain (e : Z * event) : Prop :=
  match e.2 with
  | EvHead head block => (0 <= Number head < 2 ^ 64 /\ is_Some (GetBlock (h_Hash head) (Number head))) /\
                         (0 <= Number (header block) < 2 ^ 64 /\ is_Some (GetBlock (h_Hash (header block)) (Number (header block))))
  | _ => True
  end.
(** A head that gives no transactions back. *)
Definition forward (e : Z * event) : Prop :=
  match e.2 with EvHead _ _ => offered e = [] | _ => True end.

Context `{!Ranges range_nonce, !Ranges range_hash, !Ranges range_list, !Ranges range_txs}.
Abbreviation pooled := (pooled (hash := hash) (Sender := Sender) (D := [])).

(** What an event keeps. *)
Record outcome (e : Z * event) (P : Address -> list Transaction) p (P' : Address -> list Transaction) p' : Prop := {
  oc_size : (size (all p') <= length (offered e) + size (all p))%nat;
  oc_exec : forward e -> executable P p -> executable P' p';
}.
Lemma tame_outcome e P p P' p' : tame (length (offered e)) P p P' p' -> outcome e P p P' p'.
Proof. intros []. by constructor. Qed.
Lemma quiet_outcome e P Q p P' Q' p' : quiet P Q p P' Q' p' -> outcome e P p P' p'.
Proof. intros Hq. pose proof (map_subseteq_size _ _ (qu_all _ _ _ _ _ _ Hq)). destruct Hq. constructor; [lia|auto]. Qed.
Lemma calm_outcome e P p p' : calm p p' -> outcome e P p P p'.
Proof.
  intros Hc. pose proof (map_subseteq_size _ _ (cl_all _ _ Hc)). destruct Hc. constructor; [lia|]. intros _ Hex. by eapply executable_same.
Qed.

Lemma head_ok now head block P Q p : config_ok (config := config) -> chain_ok GetBlock -> pooled P Q p -> let e := (now, EvHead head block) in on_chain e ->
  Forall nonce_ok (offered e) -> Z.of_nat (length (offered e) + size (all p)) < 2 ^ 24 ->
  exists P' Q' p', pool_step p e = Some p' /\ pooled P' Q' p' /\ outcome e P p P' p'.
Proof.
  intros Hc Hch H e [[Hn1 Hb1] [Hn2 Hb2]] F Hsz. destruct (reorg_ok (hash := hash) GetBlock head (header block) Hch Hn1 Hn2 Hb1 Hb2) as [r Er].
  assert (offered e = default [] r) as Eo by (unfold offered; cbn; rewrite Er; by destruct r). rewrite Eo in F, Hsz.
  destruct (reset_ok (hash := hash) (Sender := Sender) (Size := Size) (range_addr := range_addr) (range_nonce := range_nonce) (range_hash := range_hash) (range_list := range_list) GetBlock StateAt CurrentBlock now P Q (set_homestead true p) (Some head) (Some (header block)) r Hc)
    as (P' & Q' & p' & Es & H' & Hs' & Hex & _); [by eapply pooled_fields|by cbn; rewrite Er|done|done|].
  exists P', Q', p'. split_and!; [exact Es|done|]. constructor; [by rewrite Eo|]. intros E0 Hx. change (offered e = []) in E0. rewrite Eo in E0. apply Hex; [done|]. by eapply executable_same.
Qed.

Lemma event_ok P Q p e : config_ok (config := config) -> chain_ok GetBlock -> pooled P Q p -> on_chain e -> Forall nonce_ok (offered e) ->
  Z.of_nat (length (offered e) + size (all p)) < 2 ^ 24 ->
  exists P' Q' p', pool_step p e = Some p' /\ pooled P' Q' p' /\ outcome e P p P' p'.
Proof.
  intros Hc Hch H Hon F Hsz. destruct e as [now [local tx|local txs|price|head block| | | |]]; cbn in F, Hsz.
  - apply Forall_cons_iff in F as [Hn _]. assert (exists b, (if local then AddLocal now p tx else AddRemote now p tx) = addTx config hash Size Sender range_nonce range_hash range_list now p tx b) as [b Eb]
      by (destruct local; by eexists).
    destruct (addTx_ok (Size := Size) (range_nonce := range_nonce) (range_hash := range_hash) (range_list := range_list) now b tx P Q p Hc H Hn ltac:(lia)) as (r & P' & Q' & p' & Ea & H' & Ht).
    exists P', Q', p'. cbn [pool_step]. rewrite Eb, Ea. split_and!; [done|done|by apply tame_outcome].
  - assert (exists b, pool_step p (now, EvAdds local txs) = addTxsLocked config hash Size Sender range_nonce range_hash range_list range_addr now p txs b) as [b ->] by (destruct local; by eexists).
    destruct (addTxsLocked_ok (Size := Size) (range_addr := range_addr) (range_nonce := range_nonce) (range_hash := range_hash) (range_list := range_list) now b txs P Q p Hc H F Hsz) as (P' & Q' & p' & -> & H' & Ht & _).
    exists P', Q', p'. split_and!; [done|done|by apply tame_outcome].
  - destruct (SetGasPrice_ok (config := config) (range_nonce := range_nonce) (range_hash := range_hash) P Q p price H) as (P' & Q' & p' & Es & H' & Hq). exists P', Q', p'. split_and!; [done|done|by eapply quiet_outcome].
  - by apply (head_ok now head block P Q p Hc Hch H Hon).
  - destruct (evict_ok (config := config) (range_nonce := range_nonce) (range_hash := range_hash) (range_list := range_list) now P Q p H) as (P' & Q' & p' & Es & H' & Hq). exists P', Q', p'. split_and!; [done|done|by eapply quiet_outcome].
  - destruct (rejournal_ok (range_nonce := range_nonce) (range_txs := range_txs) (range_addr := range_addr) P Q p H) as [H' Hcl]. eexists P, Q, _. split_and!; [done|done|by apply calm_outcome].
  - destruct (Pending_ok (range_nonce := range_nonce) [] P Q p H) as (H' & Hcl & _). eexists P, Q, _. split_and!; [done|done|by apply calm_outcome].
  - destruct (Content_ok (range_nonce := range_nonce) [] P Q p H) as (H' & Hcl & _). eexists P, Q, _. split_and!; [done|done|by apply calm_outcome].
Qed.

Lemma history_ok evs : config_ok (config := config) -> chain_ok GetBlock -> forall P Q p, pooled P Q p -> Forall on_chain evs -> Forall nonce_ok (evs ≫= offered) ->
  Z.of_nat (length (evs ≫= offered) + size (all p)) < 2 ^ 24 ->
  exists P' Q' p', history p evs = Some p' /\ pooled P' Q' p' /\ (Forall forward evs -> executable P p -> executable P' p').
Proof.
  intros Hc Hch. induction evs as [|e evs IH]; intros P Q p H Hon F Hsz; cbn [history].
  { exists P, Q, p. by split_and!. }
  apply Forall_cons_iff in Hon as [Ho Hon]. rewrite bind_cons in F, Hsz. apply Forall_app in F as [F1 F]. rewrite length_app in Hsz.
  destruct (event_ok P Q p e Hc Hch H Ho F1 ltac:(lia)) as (P1 & Q1 & p1 & -> & H1 & [Hs1 Hx1]). cbn [mbind option_bind].
  destruct (IH P1 Q1 p1 H1 Hon F ltac:(lia)) as (P2 & Q2 & p2 & -> & H2 & Hx2). exists P2, Q2, p2. split_and!; [done|done|].
  intros [Hf Hfs]%Forall_cons_iff Hex. auto.
Qed.

(** ** A new pool *)

Lemma empty_pooled (st : S) : pooled (fun _ => []) (fun _ => []) (emptyPool config st).
Proof.
  split; [done|done|]. split; [|by intros a; constructor|by intros a; constructor]. constructor; cbn; [by apply map_Forall_empty..| |by apply map_Forall_empty].
  intros x Hx. cbn in Hx. lia.
Qed.
Lemma empty_executable (st : S) : executable (fun _ => []) (emptyPool config st).
Proof. intros a. split; [done|]. rewrite Z.add_0_r. done. Qed.

Abbreviation NewTxPool := (NewTxPool config hash Size Sender range_nonce range_hash range_list range_txs range_addr GetBlock StateAt CurrentBlock).
Abbreviation load := (load config hash Size Sender range_nonce range_hash range_list).

Lemma load_ok now file : config_ok (config := config) -> forall P Q p, pooled P Q p -> Forall nonce_ok file -> Z.of_nat (length file + size (all p)) < 2 ^ 24 ->
  exists P' Q' p', load now p file = Some p' /\ pooled P' Q' p' /\ tame (length file) P p P' p'.
Proof.
  intros Hc. unfold Pool.load. induction file as [|tx file IH]; intros P Q p H F Hsz; [by exists P, Q, p|]. apply Forall_cons_iff in F as [Hn F]. cbn [length] in Hsz.
  destruct (addTx_ok (Size := Size) (range_nonce := range_nonce) (range_hash := range_hash) (range_list := range_list) now (negb (NoLocals config)) tx P Q p Hc H Hn ltac:(lia)) as (r & P1 & Q1 & p1 & Ea & H1 & Ht).
  destruct (IH P1 Q1 p1 H1 F) as (P2 & Q2 & p2 & El & H2 & Ht2); [pose proof (ta_size _ _ _ _ _ Ht); lia|]. exists P2, Q2, p2. split_and!; [|done|by apply (tame_trans 1 (length file) _ _ _ _ _ _ Ht)].
  cbn [foldl mbind option_bind]. unfold Pool.AddLocal. rewrite Ea. cbn [mbind option_bind]. exact El.
Qed.
Lemma NewTxPool_ok now file st : config_ok (config := config) -> StateAt (Root (header CurrentBlock)) = Some st -> Forall nonce_ok (default [] file) -> Z.of_nat (length (default [] file)) < 2 ^ 24 ->
  exists P Q p, NewTxPool now file = Some p /\ pooled P Q p /\ executable P p /\ (size (all p) <= length (default [] file))%nat.
Proof.
  intros Hc Hst F Hsz. unfold Pool.NewTxPool. rewrite Hst. cbn [mbind option_bind].
  destruct (reset_ok (hash := hash) (Sender := Sender) (Size := Size) (range_addr := range_addr) (range_nonce := range_nonce) (range_hash := range_hash) (range_list := range_list) GetBlock StateAt CurrentBlock now
    (fun _ => []) (fun _ => []) (emptyPool config st) None (Some (header CurrentBlock)) (Some []) Hc (empty_pooled st) eq_refl) as (P1 & Q1 & p1 & -> & H1 & Hs1 & Hx1 & _); [constructor|done|].
  cbn [mbind option_bind]. specialize (Hx1 eq_refl (empty_executable st)). change (all (emptyPool config st)) with (∅ : gmap Hash Transaction) in Hs1. rewrite map_size_empty in Hs1. change (length (default [] (Some []))) with 0%nat in Hs1.
  destruct file as [file|]; [|by exists P1, Q1, p1]. destruct (negb _); [|exists P1, Q1, p1; split_and!; [done..|lia]].
  destruct (load_ok now file Hc P1 Q1 (set_journal (Some (Journal.mkJournal file false)) p1)) as (P2 & Q2 & p2 & -> & H2 & Ht2); [by eapply pooled_fields|done|cbn in *; lia|]. cbn [mbind option_bind].
  destruct (rejournal_ok (range_nonce := range_nonce) (range_txs := range_txs) (range_addr := range_addr) P2 Q2 p2 H2) as [H3 Hc3]. eexists P2, Q2, _. split_and!; [done|done| |].
  - destruct Hc3. eapply executable_same; [apply (ta_exec _ _ _ _ _ Ht2)|done|done|done]. by eapply executable_same.
  - pose proof (map_subseteq_size _ _ (cl_all _ _ Hc3)). pose proof (ta_size _ _ _ _ _ Ht2). cbn in *. lia.
Qed.

(** * The theorems *)

(** C7. The pool never panics, and stays in order: a pool that is made on the state
    of the current block, from whatever journal, runs through any history of calls
    and events, reorganisations included.  In the pool that results the lists of
    every account stand for lists [P a] and [Q a] of different nonces, every
    transaction of theirs is known by its hash and found in the price heap; and
    when no head gave transactions back, the pending transactions of every account
    follow its nonce in the state without a gap. *)
Theorem pool_safe now file st evs : config_ok (config := config) -> chain_ok GetBlock -> StateAt (Root (header CurrentBlock)) = Some st ->
  Forall on_chain evs -> Forall nonce_ok (default [] file ++ (evs ≫= offered)) -> Z.of_nat (length (default [] file ++ (evs ≫= offered))) < 2 ^ 24 ->
  exists p0 p P Q, NewTxPool now file = Some p0 /\ history p0 evs = Some p /\ pooled P Q p /\ (Forall forward evs -> executable P p).
Proof.
  intros Hc Hch Hst Hon F Hsz. apply Forall_app in F as [F1 F2]. rewrite length_app in Hsz. destruct (NewTxPool_ok now file st Hc Hst F1 ltac:(lia)) as (P0 & Q0 & p0 & E0 & H0 & Hx0 & Hs0).
  destruct (history_ok evs Hc Hch P0 Q0 p0 H0 Hon F2 ltac:(lia)) as (P & Q & p & Eh & H & Hx). exists p0, p, P, Q. split_and!; [done|done|done|auto].
Qed.

Lemma pooled_queues P Q p pos : pooled P Q p -> map_Forall (fun _ tx => of_kind pos tx) (all p) -> well_queued Sender pos (Pending range_nonce p).1.
Proof.
  intros H Hk a l Ha. destruct (Pending_ok (range_nonce := range_nonce) [] P Q p H) as (_ & _ & Hl). rewrite Hl in Ha. destruct (decide (P a = [])) as [|Hne]; [done|]. injection Ha as <-.
  split; [done|]. rewrite list.Forall_forall. intros tx Hx. assert (tx ∈ P a ++ Q a) as Hx' by (apply elem_of_app; by left). split.
  - by apply (core_sender _ _ _ _ (po_core _ _ _ H)).
  - pose proof (core_all _ _ _ _ (po_core _ _ _ H) Hx') as Hall. by apply Hk in Hall.
Qed.



(** C39. Removing the first pending transaction of an account orphans the others:
    they are in no list any more, yet still known by their hash, so that they are
    refused when they are sent again. *)
Theorem removal_orphans P Q p a first rest tx : pooled P Q p -> P a = first :: rest -> tx ∈ rest ->
  exists p', removeTx (E := E) config hash Sender range_nonce range_hash p (hash first) = Some p' /\ pending p' !! a = None /\ queue p' = queue p /\ all p' !! hash tx = Some tx /\
    forall local, add config hash Size Sender range_nonce range_hash p' tx local = Some (inr (errKnown (hash tx)), p').
Proof.
  intros H HP Hx. pose proof (po_core _ _ _ H) as Hc. assert (first ∈ P a ++ Q a) as Hf by (rewrite HP; apply elem_of_app; left; by left).
  assert (tx ∈ P a ++ Q a) as Hx' by (rewrite HP; apply elem_of_app; left; by right). pose proof (core_sender _ _ _ _ Hc Hf) as Hs. pose proof (core_all _ _ _ _ Hc Hf) as Hall.
  pose proof (po_pending _ _ _ H a) as Hr. pose proof (rep_ordered _ _ _ Hr) as Ho. rewrite HP in Ho. apply ordered_cons in Ho as [_ Hlt]. rewrite list.Forall_forall in Hlt.
  assert (List.filter (low (Nonce first)) (P a) = []) as Hlow.
  { apply lfilter_nil. intros y Hy. rewrite HP in Hy. unfold low. apply elem_of_cons in Hy as [->|Hy]; [apply Z.ltb_irrefl|]. specialize (Hlt y Hy). by apply Z.ltb_ge, Z.lt_le_incl. }
  unfold removeTx. rewrite Hall, Hs. change (pending (forget_hash range_hash p (hash first))) with (pending p). destruct (pending p !! a) as [tl|]; [|cbn in Hr; congruence]. destruct Hr as (Hst & Hl & _).
  destruct (ListRemove_ok range_nonce range_perm tl (P a) first Hl) as (inv & tl' & -> & Hl' & _). rewrite Hst in Hl'. unfold left_after in Hl'. cbn [andb] in Hl'.
  rewrite bool_decide_true in * by (rewrite HP; by left). rewrite Hlow in Hl'. cbn [mbind option_bind]. rewrite (lists_nonempty _ _ Hl'). rewrite bool_decide_true by done. eexists. split; [done|].
  match goal with |- context [lower_nonce ?p1 a ?n] => destruct (lower_same p1 a n) as (L1 & L2 & _ & _ & _ & L6 & _) end.
  assert (all (lower_nonce (set_beats (base.delete a (beats (forget_hash range_hash p (hash first)))) (set_pending (base.delete a (pending p)) (forget_hash range_hash p (hash first)))) a (Nonce first)) !! hash tx = Some tx) as Hk.
  { rewrite L6. cbn. rewrite lookup_delete_ne; [by apply (core_all _ _ _ _ Hc Hx')|]. intros Eh. pose proof (core_hash _ _ _ _ _ _ Hc Hf Hx' Eh) as <-. specialize (Hlt first Hx). lia. }
  split_and!; [rewrite L1; apply lookup_delete_eq|by rewrite L2|done|]. intros local. unfold add. by rewrite Hk.
Qed.
End History.

(** * A small chain *)

Module PoolSample.
(** Every account has the nonce and the balance that the state says, and no
    contract objects. *)
#[export] Instance sample_state : PoolState (Z * Z) unit := {
  GetNonce st _ := st.1;
  GetBalance st _ := st.2;
  ValidPrivacyTx _ _ _ _ _ _ _ := None;
  ContractValidTx _ _ _ := None;
  ValidPosRBTx _ _ _ := None;
  ValidPosELTx _ _ _ := None;
}.
Definition address (n : Z) : Address := bits_of 160 n.
Definition tx_hash (tx : Transaction) : Hash := bits_of 256 (Nonce tx + 1000 * GasPrice tx + 1000000 * sigV tx).
Definition size_of (_ : Transaction) : Z := 100.
Definition signer (tx : Transaction) : option Address := Some (address (sigV tx)).
Definition range_nonce : gmap Z Transaction -> list (Z * Transaction) := map_to_list.
Definition range_hash : gmap Hash Transaction -> list (Hash * Transaction) := map_to_list.
Definition range_list : gmap Address txList -> list (Address * txList) := map_to_list.
Definition range_txs : gmap Address (list Transaction) -> list (Address * list Transaction) := map_to_list.
Definition range_addr : gset Address -> list Address := elements.
#[export] Instance ranges_nonce : Ranges range_nonce.
Proof. by intros m. Qed.
#[export] Instance ranges_hash : Ranges range_hash.
Proof. by intros m. Qed.
#[export] Instance ranges_list : Ranges range_list.
Proof. by intros m. Qed.
#[export] Instance ranges_txs : Ranges range_txs.
Proof. by intros m. Qed.

(** A transaction of account [from] that pays [value] to account 9. *)
Definition payment (from nonce price value : Z) : Transaction := mkTx NORMAL_TX nonce price 21000 (Some (address 9)) value [] from 1 1.

(** The genesis block, with two blocks on it: the left one spends the nonces 0 and
    1 of account 1, the second with a large value; the right one is empty. *)
Definition genesis : Block := mkBlock (mkHeader (bits_of 256 100) (bits_of 256 99) 0 (bits_of 256 0) 4700000) [].
Definition left_block : Block := mkBlock (mkHeader (bits_of 256 101) (bits_of 256 100) 1 (bits_of 256 2) 4700000) [payment 1 0 5 0; payment 1 1 5 (10 ^ 9)].
Definition right_block : Block := mkBlock (mkHeader (bits_of 256 102) (bits_of 256 100) 1 (bits_of 256 0) 4700000) [].
Definition next_block : Block := mkBlock (mkHeader (bits_of 256 103) (bits_of 256 101) 2 (bits_of 256 3) 4700000) [payment 1 2 5 0].
Definition blocks : list Block := [genesis; left_block; right_block; next_block].
Definition get_block (h : Hash) (n : Z) : option Block :=
  List.find (fun b => bool_decide (h_Hash (header b) = h) && (Number (header b) =? n)) blocks.
(** The state at a root has the nonce that the root says. *)
Definition state_at (root : Hash) : option (Z * Z) := Some (bits_val root, 10 ^ 6).


Definition pool_config : TxPoolConfig := sanitize DefaultTxPoolConfig.
Abbreviation new_pool b file := (NewTxPool pool_config tx_hash size_of signer range_nonce range_hash range_list range_txs range_addr get_block state_at b 0 file).
Abbreviation pool_history b p evs := (history pool_config tx_hash size_of signer range_nonce range_hash range_list range_txs range_addr get_block state_at b p evs).
Definition replay (b : Block) (evs : list (Z * event)) : option (TxPool (Z * Z)) :=
  p ← new_pool b (Some []); pool_history b p evs.
Definition nonces_of (r : option (TxPool (Z * Z))) (a : Z) : option (list Z) :=
  p ← r; Some (Nonce <$> default [] ((Pending range_nonce p).1 !! address a)).

(** Two transactions of account 1 and a dearer one of account 2, on the left block. *)
Definition arrivals : list (Z * event) := [(1, EvAdds false [payment 1 2 5 0; payment 1 3 5 0]); (2, EvAdd true (payment 2 2 7 0))].
(** The next block comes, and the loop of the pool runs. *)
Definition busy : list (Z * event) :=
  arrivals ++ [(3, EvHead (header left_block) next_block); (4, EvEvict); (5, EvRejournal); (6, EvSetGasPrice 2); (7, EvPending); (8, EvContent)].
(** The chain turns to the right block. *)
Definition turned : list (Z * event) := arrivals ++ [(3, EvHead (header left_block) right_block)].

Lemma pool_config_ok : config_ok (config := pool_config).
Proof. by split; vm_compute. Qed.
Lemma blocks_ok : chain_ok get_block.
Proof.
  split.
  - intros h n b Hb. apply List.find_some in Hb as [_ Hb]. apply andb_true_iff in Hb as [_ Hb]. by apply Z.eqb_eq in Hb.
  - intros h. unfold get_block, blocks. cbn [List.find]. by rewrite !andb_false_r.
Qed.
Ltac events := repeat first [apply Forall_nil_2 | apply Forall_cons_2]; try done; (split_and! || idtac); try (eexists; vm_compute; reflexivity); try lia; try by vm_compute.
Lemma busy_on_chain : Forall (on_chain get_block) busy.
Proof. events. Qed.
Lemma turned_on_chain : Forall (on_chain get_block) turned.
Proof. events. Qed.
Lemma busy_offers : busy ≫= offered tx_hash get_block = [payment 1 2 5 0; payment 1 3 5 0; payment 2 2 7 0].
Proof. by vm_compute. Qed.
Lemma turned_offers : turned ≫= offered tx_hash get_block = [payment 1 2 5 0; payment 1 3 5 0; payment 2 2 7 0; payment 1 0 5 0; payment 1 1 5 (10 ^ 9)].
Proof. by vm_compute. Qed.
Lemma busy_forward : Forall (forward tx_hash get_block) busy.
Proof. events. Qed.
Lemma payments_ok (l : list Transaction) : forallb (fun tx => (0 <=? Nonce tx) && (Nonce tx <? 2 ^ 64 - 1)) l = true -> Forall nonce_ok l.
Proof.
  rewrite forallb_forall, list.Forall_forall. intros H tx Hx. apply list_elem_of_In, H, andb_true_iff in Hx as [H1 H2]. unfold nonce_ok. lia.
Qed.

(** The pool of a history of the sample stands for its pending lists. *)
Lemma run_pooled b evs p : replay b evs = Some p -> Forall (on_chain get_block) evs -> Forall nonce_ok (evs ≫= offered tx_hash get_block) -> Z.of_nat (length (evs ≫= offered tx_hash get_block)) < 2 ^ 24 ->
  exists P Q, pooled (hash := tx_hash) (Sender := signer) (D := []) P Q p /\ forall a, P a = default [] ((Pending range_nonce p).1 !! a).
Proof.
  intros Hr Hon F Hsz. unfold replay in Hr.
  destruct (NewTxPool_ok pool_config tx_hash size_of signer range_nonce range_hash range_list range_txs range_addr get_block state_at b 0 (Some []) (bits_val (Root (header b)), 10 ^ 6) pool_config_ok eq_refl) as (P0 & Q0 & p0 & E0 & H0 & _ & Hs0); [constructor|by vm_compute|].
  rewrite E0 in Hr. cbn [mbind option_bind] in Hr. cbn in Hs0.
  destruct (history_ok pool_config tx_hash size_of signer range_nonce range_hash range_list range_txs range_addr get_block state_at b evs pool_config_ok blocks_ok P0 Q0 p0 H0 Hon F ltac:(lia)) as (P & Q & p' & E1 & H1 & _).
  assert (p' = p) as -> by congruence. exists P, Q. split; [done|]. destruct (Pending_ok (range_nonce := range_nonce) [] P Q p H1) as (_ & _ & Hl). intros a. rewrite Hl. by destruct (decide _).
Qed.
End PoolSample.
Import PoolSample.

Lemma pool_safe_witness :
  exists p0 p P Q, new_pool left_block (Some [payment 3 2 1 0]) = Some p0 /\ pool_history left_block p0 busy = Some p /\ pooled (hash := tx_hash) (Sender := signer) (D := []) P Q p /\ (Forall (forward tx_hash get_block) busy -> executable P p).
Proof.
  apply (pool_safe pool_config tx_hash size_of signer range_nonce range_hash range_list range_txs range_addr get_block state_at left_block 0 (Some [payment 3 2 1 0]) (2, 10 ^ 6) busy);
    [apply pool_config_ok|apply blocks_ok|by vm_compute|apply busy_on_chain|rewrite busy_offers; by apply payments_ok|by rewrite busy_offers].
Defined.

Definition all_normal (r : option (TxPool (Z * Z))) : bool :=
  match r with Some p => forallb (fun e => negb (Txtype e.2 =? POS_TX)) (map_to_list (all p)) | None => false end.
Lemma busy_normal p0 p : new_pool left_block (Some [payment 3 2 1 0]) = Some p0 -> pool_history left_block p0 busy = Some p -> map_Forall (fun _ tx => of_kind false tx) (all p).
Proof.
  intros E0 E1. assert (all_normal (p ← new_pool left_block (Some [payment 3 2 1 0]); pool_history left_block p busy) = true) as H by (vm_compute; reflexivity).
  rewrite E0 in H. cbn [mbind option_bind] in H. rewrite E1 in H. cbn [all_normal] in H. rewrite forallb_forall in H.
  intros h tx Hx. apply elem_of_map_to_list, list_elem_of_In, H, negb_true_iff in Hx. done.
Qed.

(** The pool on the left block after the arrivals. *)
Definition filled : option (TxPool (Z * Z)) := replay left_block arrivals.
Lemma filled_pooled p : filled = Some p -> exists P Q, pooled (hash := tx_hash) (Sender := signer) (D := []) P Q p /\ P (address 1) = [payment 1 2 5 0; payment 1 3 5 0].
Proof.
  intros Ep. destruct (run_pooled left_block arrivals p Ep) as (P & Q & H & HP); [events|by apply payments_ok|by vm_compute|]. exists P, Q. split; [done|]. rewrite HP.
  assert (match filled with Some p => default [] ((Pending range_nonce p).1 !! address 1) | None => [] end = [payment 1 2 5 0; payment 1 3 5 0]) as Hf by (vm_compute; reflexivity). by rewrite Ep in Hf.
Qed.
Lemma filled_pool : exists p, filled = Some p /\ Z.of_nat (size (all p)) = 3.
Proof.
  assert (match filled with Some p => Z.of_nat (size (all p)) | None => 0 end = 3) as H by (vm_compute; reflexivity). destruct filled as [p|]; [by exists p|done].
Qed.


Lemma removal_orphans_witness :
  exists p p', filled = Some p /\ removeTx (E := unit) pool_config tx_hash signer range_nonce range_hash p (tx_hash (payment 1 2 5 0)) = Some p' /\ pending p' !! address 1 = None /\ queue p' = queue p /\
    all p' !! tx_hash (payment 1 3 5 0) = Some (payment 1 3 5 0) /\
    forall local, add pool_config tx_hash size_of signer range_nonce range_hash p' (payment 1 3 5 0) local = Some (inr (errKnown (tx_hash (payment 1 3 5 0))), p').
Proof.
  destruct filled_pool as (p & Ep & _). destruct (filled_pooled p Ep) as (P & Q & H & HP). exists p.
  destruct (removal_orphans pool_config tx_hash size_of signer range_nonce range_hash P Q p (address 1) (payment 1 2 5 0) [payment 1 3 5 0] (payment 1 3 5 0) H HP) as (p' & R); [by left|]. exists p'. split; [done|exact R].
Defined.

(** A reorganisation can leave a gap: when the chain turns from the left block
    to the right one, the pool takes back the transaction of nonce 0 of account 1
    and refuses that of nonce 1, which the account cannot payment for; the pending
    transactions of the account then have the nonces 0, 2 and 3. *)
Theorem reorg_leaves_gap : nonces_of filled 1 = Some [2; 3] /\ nonces_of (replay left_block turned) 1 = Some [0; 2; 3].
Proof. by vm_compute. Qed.
