(* ===== verification/EvmSemantics.v ===== *)
(** The meaning of the instructions that work on the stack, the memory and the
    storage: arithmetic on 256-bit words, PUSH, DUP and SWAP, MSTORE and MLOAD,
    SSTORE and SLOAD, JUMP. *)

From S2P Require Import Prelude BigMath VmData VmState StateSpec GasTable Instructions Evm.
From S2P Require Import EvmInv CoreState CoreStateSpec StateCodec Sample.
Import Big GoMath Common VmCommon Params Op.

(** * Reference arithmetic *)
Module Word.
Definition wrap (x : Z) : Z := x mod 2 ^ 256.

(** The two's complement reading of the low [b] bits. *)
Definition signed (b x : Z) : Z :=
  let v := x mod 2 ^ b in if v <? 2 ^ (b - 1) then v else v - 2 ^ b.

Definition of_bool (b : bool) : Z := if b then 1 else 0.

Definition unary (op : byte) : option (Z -> Z) :=
  match op with
  | NOT => Some (fun x => 2 ^ 256 - 1 - x)
  | ISZERO => Some (fun x => of_bool (x =? 0))
  | _ => None
  end.

(** The first operand is the top of the stack. *)
Definition binary (op : byte) : option (Z -> Z -> Z) :=
  match op with
  | ADD => Some (fun x y => wrap (x + y))
  | SUB => Some (fun x y => wrap (x - y))
  | MUL => Some (fun x y => wrap (x * y))
  | DIV => Some (fun x y => if y =? 0 then 0 else x / y)
  | SDIV => Some (fun x y => if y =? 0 then 0 else wrap (Z.quot (signed 256 x) (signed 256 y)))
  | MOD => Some (fun x y => if y =? 0 then 0 else x mod y)
  | SMOD => Some (fun x y => if y =? 0 then 0 else wrap (Z.rem (signed 256 x) (signed 256 y)))
  | EXP => Some (fun x y => wrap (x ^ y))
  | SIGNEXTEND => Some (fun k x => if k <? 31 then wrap (signed (8 * (k + 1)) x) else x)
  | LT => Some (fun x y => of_bool (x <? y))
  | GT => Some (fun x y => of_bool (y <? x))
  | SLT => Some (fun x y => of_bool (signed 256 x <? signed 256 y))
  | SGT => Some (fun x y => of_bool (signed 256 y <? signed 256 x))
  | EQ => Some (fun x y => of_bool (x =? y))
  | AND => Some Z.land
  | OR => Some Z.lor
  | XOR => Some Z.lxor
  | BYTE => Some (fun i x => if i <? 32 then x / 256 ^ (31 - i) mod 256 else 0)
  | _ => None
  end.

Definition ternary (op : byte) : option (Z -> Z -> Z -> Z) :=
  match op with
  | ADDMOD => Some (fun x y n => if n =? 0 then 0 else (x + y) mod n)
  | MULMOD => Some (fun x y n => if n =? 0 then 0 else (x * y) mod n)
  | _ => None
  end.

(** An operation that replaces the top items of the stack by one value. *)
Definition reference (op : byte) (st : list Z) : option (list Z) :=
  match st with
  | x :: st1 =>
      match unary op with
      | Some f => Some (f x :: st1)
      | None =>
          match st1 with
          | y :: st2 =>
              match binary op with
              | Some f => Some (f x y :: st2)
              | None =>
                  match st2 with
                  | z :: st3 => f ← ternary op; Some (f x y z :: st3)
                  | [] => None
                  end
              end
          | [] => None
          end
      end
  | [] => None
  end.
End Word.
Import Word.

Lemma signed_S256 x : word x -> S256 x = signed 256 x.
Proof.
  intros Hx. unfold signed, S256. rewrite Z.mod_small by done. unfold tt255, tt256.
  replace (256 - 1) with 255 by lia. destruct (x <? _); done.
Qed.

Lemma wrap_U256 x : U256 x = wrap x.
Proof. apply U256_mod. Qed.

Lemma wrap_small x : word x -> wrap x = x.
Proof. apply Z.mod_small. Qed.

Lemma signed_range b x : 0 < b -> - 2 ^ (b - 1) <= signed b x < 2 ^ (b - 1).
Proof.
  intros Hb. unfold signed. assert (2 ^ b = 2 * 2 ^ (b - 1)).
  { rewrite <- Z.pow_succ_r by lia. f_equal. lia. }
  pose proof (Z.mod_pos_bound x (2 ^ b) ltac:(lia)).
  destruct (Z.ltb_spec (x mod 2 ^ b) (2 ^ (b - 1))); lia.
Qed.

Lemma signed_zero x : word x -> (signed 256 x = 0 <-> x = 0).
Proof.
  intros Hx. rewrite <- signed_S256 by done. unfold S256, tt255, tt256, word in *.
  destruct (Z.ltb_spec x (2 ^ 255)); lia.
Qed.

(** The quotient by sign and absolute values. *)
Lemma sdiv_quot x y :
  y <> 0 -> Z.abs x / Z.abs y * (if Z.sgn (x * y) <? 0 then -1 else 1) = Z.quot x y.
Proof.
  intros Hy. rewrite Z.quot_div by done. rewrite Z.sgn_mul.
  assert (x = 0 -> Z.abs x / Z.abs y = 0) as Hz by (intros ->; by rewrite Z.div_0_l by lia).
  revert Hz. generalize (Z.abs x / Z.abs y). intros q Hz.
  destruct (Z.sgn_spec x) as [[? ->]|[[<- ->]|[? ->]]];
    destruct (Z.sgn_spec y) as [[? ->]|[[<- ->]|[? ->]]]; case_match; lia.
Qed.

Lemma smod_rem x y :
  y <> 0 -> Z.abs x mod Z.abs y * (if Z.sgn x <? 0 then -1 else 1) = Z.rem x y.
Proof.
  intros Hy. rewrite Z.rem_mod by done.
  assert (x = 0 -> Z.abs x mod Z.abs y = 0) as Hz by (intros ->; by rewrite Z.mod_0_l by lia).
  revert Hz. generalize (Z.abs x mod Z.abs y). intros q Hz.
  destruct (Z.sgn_spec x) as [[? ->]|[[<- ->]|[? ->]]]; case_match; lia.
Qed.

(** The low bits of a number, one bit at a time. *)
Lemma mod_succ_bit x b :
  0 <= b -> x mod 2 ^ (b + 1) = x mod 2 ^ b + (if Z.testbit x b then 2 ^ b else 0).
Proof.
  intros Hb. rewrite Z.pow_add_r, Z.pow_1_r by lia.
  assert (0 < 2 ^ b) by (apply Z.pow_pos_nonneg; lia).
  rewrite Z.rem_mul_r by lia. f_equal.
  pose proof (Z.testbit_spec' x b Hb) as Hbit. rewrite <- Hbit. destruct (Z.testbit x b); cbn; lia.
Qed.

Lemma lor_high x b : 0 <= b -> Z.lor x (Z.lnot (Z.ones b)) = x mod 2 ^ b - 2 ^ b.
Proof.
  intros Hb. rewrite <- Z.land_ones by done.
  assert (Z.lnot (Z.ones b) = - 2 ^ b) as Hn by (rewrite Z.ones_equiv; unfold Z.lnot; lia).
  rewrite <- Z.add_opp_r, <- Hn.
  assert (Z.land (Z.land x (Z.ones b)) (Z.lnot (Z.ones b)) = 0) as Hd.
  { rewrite <- Z.land_assoc, Z.land_lnot_diag. apply Z.land_0_r. }
  rewrite Z.add_nocarry_lxor, Z.lxor_lor by done.
  apply Z.bits_inj'. intros i Hi. rewrite !Z.lor_spec, Z.land_spec, Z.lnot_spec by done.
  destruct (Z.testbit x i), (Z.testbit (Z.ones b) i); done.
Qed.

(** Sign extension from bit [b]: fill or clear the higher bits. *)
Lemma sign_extend x b :
  0 <= b ->
  (if Z.testbit x b then Z.lor x (Z.lnot (Z.shiftl 1 b - 1)) else Z.land x (Z.shiftl 1 b - 1)) =
  signed (b + 1) x.
Proof.
  intros Hb. rewrite Z.shiftl_1_l. replace (2 ^ b - 1) with (Z.ones b) by (rewrite Z.ones_equiv; lia).
  unfold signed. replace (b + 1 - 1) with b by lia. rewrite mod_succ_bit by done.
  assert (0 < 2 ^ b) by (apply Z.pow_pos_nonneg; lia).
  pose proof (Z.mod_pos_bound x (2 ^ b) ltac:(lia)).
  assert (2 ^ (b + 1) = 2 * 2 ^ b) by (rewrite Z.pow_add_r by lia; lia).
  destruct (Z.testbit x b).
  - rewrite lor_high by done. destruct (Z.ltb_spec (x mod 2 ^ b + 2 ^ b) (2 ^ b)); lia.
  - rewrite Z.land_ones by done. destruct (Z.ltb_spec (x mod 2 ^ b + 0) (2 ^ b)); lia.
Qed.

(** Run the steps of an execution function on a known frame. *)
Ltac run_frame :=
  cbv [mbind ST_bind mret ST_ret pop push gets modify must set_stack memory_set set_memory];
  cbn [VmState.stack Stack.pop Stack.push VmState.pc VmState.memory contract evm].
Ltac run_op :=
  let n := fresh in let m := fresh in let c := fresh in let e := fresh in
  intros n m c e; run_frame.

Section Semantics.
Context {db : Type} `{!StateDB db} (env : Env db) (calls : Calls db).

(** [ex] only replaces the stack [st] by [st']. *)
Definition on_stack (ex : executionFunc (db:=db)) (st st' : list Z) : Prop :=
  forall n m c e, ex (mkFrame n st m c e) = Ok [] (mkFrame n st' m c e).

Lemma opDiv_reference x y st : word x -> word y ->
  on_stack opDiv (x :: y :: st) ((if y =? 0 then 0 else x / y) :: st).
Proof.
  intros Hx Hy. unfold opDiv. run_op. unfold Sign. destruct (Z.eqb_spec (Z.sgn y) 0), (Z.eqb_spec y 0);
    try lia; cbn; [done|]. rewrite U256_small; [done|]. unfold word in *. split; [apply Z.div_pos; lia|].
  apply Z.div_lt_upper_bound; nia.
Qed.

Lemma opMod_reference x y st : word x -> word y ->
  on_stack opMod (x :: y :: st) ((if y =? 0 then 0 else x mod y) :: st).
Proof.
  intros Hx Hy. unfold opMod. run_op. unfold Sign. destruct (Z.eqb_spec (Z.sgn y) 0), (Z.eqb_spec y 0);
    try lia; cbn; [done|]. rewrite U256_small; [done|]. unfold word in *.
  pose proof (Z.mod_pos_bound x y). lia.
Qed.

Lemma opSdiv_reference x y st : word x -> word y ->
  on_stack opSdiv (x :: y :: st)
    ((if y =? 0 then 0 else wrap (Z.quot (signed 256 x) (signed 256 y))) :: st).
Proof.
  intros Hx Hy. unfold opSdiv. run_op. rewrite !signed_S256 by done.
  pose proof (signed_zero y Hy). unfold Sign.
  destruct (Z.eqb_spec (Z.sgn (signed 256 y)) 0), (Z.eqb_spec y 0); try lia; [done|].
  by rewrite wrap_U256, sdiv_quot by lia.
Qed.

Lemma opSmod_reference x y st : word x -> word y ->
  on_stack opSmod (x :: y :: st)
    ((if y =? 0 then 0 else wrap (Z.rem (signed 256 x) (signed 256 y))) :: st).
Proof.
  intros Hx Hy. unfold opSmod. run_op. rewrite !signed_S256 by done.
  pose proof (signed_zero y Hy). unfold Sign.
  destruct (Z.eqb_spec (Z.sgn (signed 256 y)) 0), (Z.eqb_spec y 0); try lia; [done|].
  by rewrite wrap_U256, smod_rem by lia.
Qed.

Lemma opExp_reference x y st : word x -> word y ->
  on_stack opExp (x :: y :: st) (wrap (x ^ y) :: st).
Proof. intros Hx Hy. unfold opExp. run_op. rewrite Exp_spec; [done|apply Hy]. Qed.

Lemma opSignExtend_reference k x st : word k -> word x ->
  on_stack opSignExtend (k :: x :: st)
    ((if k <? 31 then wrap (signed (8 * (k + 1)) x) else x) :: st).
Proof.
  intros Hk Hx. unfold opSignExtend. run_op. destruct (Z.ltb_spec k 31); cbn -[Z.lor Z.land]; [|done].
  rewrite Uint64_small, u64_small by (unfold word in *; lia). rewrite sign_extend by (unfold word in *; lia).
  rewrite wrap_U256. do 4 f_equal. f_equal. lia.
Qed.

Lemma signed_idem x : word x -> S256 (signed 256 x) = signed 256 x.
Proof.
  intros Hx. pose proof (signed_range 256 x ltac:(lia)). unfold S256, tt255.
  destruct (Z.ltb_spec (signed 256 x) (2 ^ 255)); [done|]. cbn in *. lia.
Qed.

Lemma opSlt_reference x y st : word x -> word y ->
  on_stack opSlt (x :: y :: st) (of_bool (signed 256 x <? signed 256 y) :: st).
Proof.
  intros Hx Hy. unfold opSlt. run_op.
  rewrite (signed_S256 x), (signed_S256 y), signed_idem by done.
  by destruct (_ <? _).
Qed.

Lemma opSgt_reference x y st : word x -> word y ->
  on_stack opSgt (x :: y :: st) (of_bool (signed 256 y <? signed 256 x) :: st).
Proof.
  intros Hx Hy. unfold opSgt. run_op. rewrite !signed_S256, Z.gtb_ltb by done. by destruct (_ <? _).
Qed.

Lemma opByte_reference i x st : word i -> word x ->
  on_stack opByte (i :: x :: st) ((if i <? 32 then x / 256 ^ (31 - i) mod 256 else 0) :: st).
Proof.
  intros Hi Hx. unfold opByte. run_op. unfold word in *. destruct (Z.ltb_spec i 32); [|done].
  cbn -[Byte]. rewrite Int64_small, Byte_spec, Z.abs_eq by lia.
  by replace (2 ^ (8 * (31 - i))) with (256 ^ (31 - i)) by (by rewrite Z.pow_mul_r by lia).
Qed.

Lemma opAddmod_reference x y n st : word n ->
  on_stack opAddmod (x :: y :: n :: st) ((if n =? 0 then 0 else (x + y) mod n) :: st).
Proof.
  intros Hn. unfold opAddmod. run_op. unfold word in *. destruct (Z.eqb_spec n 0) as [->|]; [done|].
  replace (n >? 0) with true by lia. cbn. rewrite U256_small; [done|].
  pose proof (Z.mod_pos_bound (x + y) n). lia.
Qed.

Lemma opMulmod_reference x y n st : word n ->
  on_stack opMulmod (x :: y :: n :: st) ((if n =? 0 then 0 else (x * y) mod n) :: st).
Proof.
  intros Hn. unfold opMulmod. run_op. unfold word in *. destruct (Z.eqb_spec n 0) as [->|]; [done|].
  replace (n >? 0) with true by lia. cbn. rewrite U256_small; [done|].
  pose proof (Z.mod_pos_bound (x * y) n). lia.
Qed.

Lemma opNot_reference x st : word x -> on_stack opNot (x :: st) (2 ^ 256 - 1 - x :: st).
Proof.
  intros Hx. unfold opNot. run_op. rewrite U256_mod. unfold Z.lnot, word in *. do 3 f_equal.
  rewrite <- (Z.mod_add _ 1), Z.mod_small by lia. lia.
Qed.

Lemma opIszero_reference x st : word x -> on_stack opIszero (x :: st) (of_bool (x =? 0) :: st).
Proof.
  intros Hx. unfold opIszero. run_op. unfold Sign, word in *.
  destruct (Z.eqb_spec x 0) as [->|]; [done|]. by replace (Z.sgn x >? 0) with true by lia.
Qed.

Create HintDb reference.
#[local] Hint Resolve opDiv_reference opMod_reference opSdiv_reference opSmod_reference
  opExp_reference opSignExtend_reference opSlt_reference opSgt_reference opByte_reference
  opAddmod_reference opMulmod_reference opNot_reference opIszero_reference : reference.

(** C33. Every arithmetic, comparison and bitwise instruction of the table computes
    its mathematical function on 256-bit words: ADD, SUB, MUL and EXP modulo
    2^256, DIV and MOD with 0 for a zero divisor, SDIV and SMOD by truncated
    division of two's complement values, ADDMOD and MULMOD without intermediate
    wrap-around, SIGNEXTEND, BYTE, NOT and the comparisons. *)
Theorem arithmetic_reference op o st st' :
  NewByzantiumInstructionSet env calls op = Some o -> Forall word st ->
  reference op st = Some st' -> on_stack (execute o) st st'.
Proof.
  intros Ho Hst Hr. unfold reference in Hr.
  destruct st as [|x [|y [|z st]]]; try done;
  repeat match goal with H : Forall word (_ :: _) |- _ => apply Forall_cons_iff in H as [? H] end.
  all: destruct op; try discriminate Hr; injection Ho as <-; injection Hr as <-; cbn [execute];
    try solve [auto with reference].
  all: unfold opAdd, opMul, opSub, opLt, opGt, opEq, opAnd, opOr, opXor; run_op;
    rewrite ?wrap_U256, ?Z.gtb_ltb; try done;
    match goal with |- context [if ?b then _ else _] => by destruct b end.
Qed.

(** * Stack instructions *)

Lemma makeDup_ok n st x : (0 < n)%nat -> st !! (n - 1)%nat = Some x ->
  on_stack (makeDup n) st (x :: st).
Proof.
  intros Hn Hx k m c e. destruct n as [|n]; [lia|]. unfold makeDup, mbind, ST_bind, gets. cbn in *.
  rewrite Nat.sub_0_r in Hx. by rewrite Hx.
Qed.

(** The bytes after the opcode, zeros beyond the end of the code. *)
Definition immediate (code : list byte) (pc n : Z) : list byte :=
  (fun i => default x00 (code !! (Z.to_nat pc + 1 + i)%nat)) <$> seq 0 (Z.to_nat n).

(** PUSH reads its operand from the code: the value is the big-endian number
    of the [n] bytes that follow the opcode, zeros beyond the end of the code,
    and the program counter moves over them. *)
Theorem push_immediate size n k st m c e :
  0 <= n <= 32 -> len (Code c) < 2 ^ 62 -> 0 <= k < 2 ^ 62 ->
  makePush size n (mkFrame (db:=db) k st m c e) =
  Ok [] (mkFrame (u64 (k + size)) (be_val (immediate (Code c) k n) :: st) m c e).
Proof.
  intros Hn Hc Hk. unfold makePush, mbind, ST_bind, gets. cbn [contract VmState.pc].
  rewrite (u64_small (k + 1)), s64_small by lia. pose proof (len_nonneg (Code c)).
  set (start := if k + 1 <? len (Code c) then k + 1 else len (Code c)).
  set (stop := if start + n <? len (Code c) then start + n else len (Code c)).
  assert (0 <= start <= stop /\ stop <= len (Code c)) as [? ?].
  { unfold stop, start. repeat case_match; lia. }
  assert (RightPadBytes (take (Z.to_nat (stop - start)) (drop (Z.to_nat start) (Code c))) n =
          immediate (Code c) k n) as Hpad.
  { unfold immediate. replace (Z.to_nat k + 1)%nat with (Z.to_nat (k + 1)) by lia.
    apply padded_slice; [lia..|]. unfold stop, start, len in *.
    destruct (Z.ltb_spec (k + 1) (Z.of_nat (length (Code c)))).
    - destruct (Z.ltb_spec (k + 1 + n) (Z.of_nat (length (Code c)))); [f_equal; lia|].
      rewrite !take_ge by (rewrite length_drop; lia). done.
    - replace (_ + n <? _) with false by lia. rewrite !drop_ge by lia. by rewrite !take_nil. }
  rewrite slice_Some by lia. cbn -[RightPadBytes be_val]. unfold SetBytes. by rewrite Hpad.
Qed.

(** * Memory and storage *)

(** MLOAD reads back what MSTORE wrote at the same offset: any 256-bit word
    survives the padding to 32 bytes and the reading as a big-endian number, and
    the size of the memory does not change. *)
Theorem mstore_mload off v st st' n n' m c c' e e' :
  Memory.fits m off 32 -> Memory.Len m < 2 ^ 63 -> word v ->
  exists m', opMstore (mkFrame (db:=db) n (off :: v :: st) m c e) = Ok [] (mkFrame n st m' c e) /\
    Memory.Len m' = Memory.Len m /\
    opMload (mkFrame (db:=db) n' (off :: st') m' c' e') = Ok [] (mkFrame n' (v :: st') m' c' e').
Proof.
  intros Hf Hl Hv. unfold word in Hv.
  assert (PaddedBigBytes v 32 = be_bytes 32 v) as Hp.
  { change 32 with (Z.of_nat 32) at 1. rewrite PaddedBigBytes_pad; rewrite Z.abs_eq by lia; [done|].
    cbn. lia. }
  destruct (Memory.Set_ok m off 32 (PaddedBigBytes v 32) Hf Hl) as (m' & Hset & Hlen & _).
  exists m'. split; [|split; [done|]].
  - unfold opMstore. run_frame. change (Uint64 32) with 32 in Hset. by rewrite Hset.
  - assert (Memory.Get m' (Int64 off) (Int64 32) = Some (be_bytes 32 v)) as Hget.
    { eapply Memory.Set_Get; [done|done| |by rewrite <- Hp]. unfold len. by rewrite length_be_bytes. }
    change (Int64 32) with 32 in Hget. unfold opMload. run_frame. rewrite Hget. unfold SetBytes.
    rewrite be_val_be_bytes, Z.mod_small by (cbn; lia). done.
Qed.
End Semantics.

Section Storage.
Context {db : Type} `{!StateDB db} {hash : list byte -> Hash} `{!StateDBSpec db hash}.

Lemma BigToHash_inj x y : word x -> word y -> BigToHash x = BigToHash y -> x = y.
Proof.
  unfold word. intros Hx Hy H. rewrite !BigToHash_val, !Z.abs_eq in H by lia.
  apply (f_equal bits_val) in H. rewrite !bits_val_of, !Z.mod_small in H by (cbn; lia). done.
Qed.

Lemma Hash_Big_BigToHash x : word x -> Hash_Big (BigToHash x) = x.
Proof.
  unfold word. intros Hx. rewrite Hash_Big_val, BigToHash_val, bits_val_of, Z.abs_eq by lia.
  apply Z.mod_small. cbn. lia.
Qed.

(** SSTORE changes exactly one slot: afterwards the slot of the running
    contract holds the value, every other slot of every account is unchanged, and
    SLOAD at the key pushes the stored word. *)
Theorem sstore_sload k v st st' n n' m c (e : EVM db) :
  db_ok (statedb e) -> word k -> word v ->
  exists d, opSstore (mkFrame n (k :: v :: st) m c e) = Ok [] (mkFrame n st m c (set_db e d)) /\
    db_ok d /\
    (forall a h, GetState d a h =
       if bool_decide (a = self c /\ h = BigToHash k) then BigToHash v else GetState (statedb e) a h) /\
    opSload (mkFrame n' (k :: st') m c (set_db e d)) = Ok [] (mkFrame n' (v :: st') m c (set_db e d)).
Proof.
  intros Hd Hk Hv. set (u := USetState (self c) (BigToHash k) (BigToHash v)).
  exists (apply_update u (statedb e)). assert (db_ok (apply_update u (statedb e))) by by apply update_ok.
  assert (forall a h, GetState (apply_update u (statedb e)) a h =
    if bool_decide (a = self c /\ h = BigToHash k) then BigToHash v else GetState (statedb e) a h) as Hget.
  { intros a h. rewrite !GetState_spec, update_abs by done. cbn.
    destruct (decide (a = self c)) as [->|Hne].
    - rewrite acct_on_account_eq. unfold with_storage. cbn [a_storage]. unfold EmptyHash.
      destruct (decide (h = BigToHash k)) as [->|Hh].
      + rewrite (bool_decide_true (_ /\ _)) by done. destruct (bool_decide (BigToHash v = emptyHash)) eqn:Ev.
        * rewrite lookup_delete_eq. apply bool_decide_eq_true in Ev. by rewrite Ev.
        * by rewrite lookup_insert_eq.
      + rewrite (bool_decide_false (_ /\ _)) by naive_solver.
        by destruct (bool_decide _); rewrite ?lookup_delete_ne, ?lookup_insert_ne by done.
    - rewrite acct_on_account_ne by done. rewrite bool_decide_false by naive_solver. done. }
  split_and!; [done|done|done|]. unfold opSload. run_frame. cbn [statedb set_db evm get_db address].
  unfold get_db, address, gets. cbn [statedb set_db evm contract].
  rewrite Hget, bool_decide_true, Hash_Big_BigToHash by done. done.
Qed.
End Storage.

(** * Jumps *)
Section Jump.
Context {db : Type} `{!StateDB db}.
Context (hash : list byte -> Hash) (P : list byte -> Prop).
Context (hash_inj : forall c c', P c -> P c' -> hash c = hash c' -> c = c').

(** JUMP goes only to jump destinations: for codes that their hash tells
    apart and a sound cache of analysed codes, the jump is taken exactly when the
    target is the opcode JUMPDEST at an instruction boundary (never inside the
    data of a PUSH); otherwise it fails, and the cache stays sound. *)
Theorem jump_only_to_jumpdest pos st n m c (e : EVM db) :
  Analysis.cache_ok hash P (jumpdests e) -> P (Code c) -> CodeHash c = hash (Code c) ->
  len (Code c) < 2 ^ 62 -> word pos ->
  exists d, Analysis.cache_ok hash P d /\
    (Analysis.jumpdest_at (Code c) (Z.to_nat pos) ->
     opJump (mkFrame n (pos :: st) m c e) = Ok [] (mkFrame pos st m c (set_jumpdests e d))) /\
    (~ Analysis.jumpdest_at (Code c) (Z.to_nat pos) ->
     opJump (mkFrame n (pos :: st) m c e) =
       Fail (errInvalidJump pos) (mkFrame n st m c (set_jumpdests e d))).
Proof.
  intros Hd Hc Hh Hl Hp. unfold word in Hp.
  destruct (Analysis.has_spec hash P (jumpdests e) (Code c) pos hash_inj Hd Hc Hl ltac:(lia))
    as (b & d & Hhas & Hd' & Hb).
  exists d. split; [done|].
  assert (opJump (mkFrame n (pos :: st) m c e) =
    if b then Ok [] (mkFrame (Uint64 pos) st m c (set_jumpdests e d))
    else Fail (errInvalidJump pos) (mkFrame n st m c (set_jumpdests e d))) as Hjump.
  { unfold opJump, validJump. run_frame. rewrite Hh, Hhas. by destruct b. }
  rewrite Hjump. split.
  - intros Hj. rewrite (proj2 Hb Hj). rewrite Uint64_small; [done|].
    destruct Hj as [_ Hj]. apply lookup_lt_Some in Hj. unfold len in *. lia.
  - intros Hj. destruct b; [|done]. destruct Hj. by apply Hb.
Qed.
End Jump.

(** * Instances *)

Lemma arithmetic_reference_witness :
  on_stack (db := sampleDB) opSdiv [2 ^ 256 - 7; 2] [2 ^ 256 - 3].
Proof.
  apply (arithmetic_reference sampleEnv (calls_of sampleEnv (run sampleEnv 0)) SDIV
           (mkOperation opSdiv (constGasFunc GasFastStep) (Stack.makeStackFunc 2 1) None
              false false false false false) [2 ^ 256 - 7; 2]).
  - reflexivity.
  - repeat constructor; unfold word; lia.
  - vm_compute. reflexivity.
Defined.

Lemma push_immediate_witness :
  makePush 2 2 (mkFrame 0 [] Memory.NewMemory (sampleContract [x61; x01; x02; x00] 9) (sampleEVM [])) =
  Ok [] (mkFrame (u64 (0 + 2)) [be_val (immediate [x61; x01; x02; x00] 0 2)] Memory.NewMemory
           (sampleContract [x61; x01; x02; x00] 9) (sampleEVM [])).
Proof.
  apply (push_immediate 2 2 0 [] Memory.NewMemory (sampleContract [x61; x01; x02; x00] 9) (sampleEVM []));
    first [lia|done].
Defined.

Lemma mstore_mload_witness :
  let m := Memory.Resize Memory.NewMemory 64 in
  let c := sampleContract [] 9 in
  exists m', opMstore (mkFrame 0 [32; 77] m c (sampleEVM [])) = Ok [] (mkFrame 0 [] m' c (sampleEVM [])) /\
    Memory.Len m' = Memory.Len m /\
    opMload (mkFrame 1 [32] m' c (sampleEVM [])) = Ok [] (mkFrame 1 [77] m' c (sampleEVM [])).
Proof.
  intros m c. apply (mstore_mload 32 77 [] [] 0 1 m c c (sampleEVM []) (sampleEVM [])).
  - by split_and!.
  - done.
  - unfold word. lia.
Defined.

Lemma sstore_sload_witness :
  let e := sampleEVM [] in
  let c := sampleContract [] 9 in
  exists d, opSstore (mkFrame 0 [3; 8] Memory.NewMemory c e) =
      Ok [] (mkFrame 0 [] Memory.NewMemory c (set_db e d)) /\
    db_ok d /\
    (forall a h, GetState d a h =
       if bool_decide (a = bob /\ h = BigToHash 3) then BigToHash 8 else GetState (statedb e) a h) /\
    opSload (mkFrame 1 [3] Memory.NewMemory c (set_db e d)) =
      Ok [] (mkFrame 1 [8] Memory.NewMemory c (set_db e d)).
Proof.
  intros e c. apply (sstore_sload 3 8 [] [] 0 1 Memory.NewMemory c e).
  - by apply (sampleState_ok []).
  - unfold word. lia.
  - unfold word. lia.
Defined.

(** The code PUSH1 0x5b; JUMPDEST: position 1 holds the byte of JUMPDEST as data. *)
Definition jumpy : list byte := [x60; x5b; x5b].

Lemma jump_only_to_jumpdest_witness :
  let c := sampleContract jumpy 9 in
  let e := sampleEVM [] in
  exists d, Analysis.cache_ok sample_hash (fun code => code = jumpy) d /\
    (Analysis.jumpdest_at jumpy 1 ->
     opJump (mkFrame 0 [1] Memory.NewMemory c e) = Ok [] (mkFrame 1 [] Memory.NewMemory c (set_jumpdests e d))) /\
    (~ Analysis.jumpdest_at jumpy 1 ->
     opJump (mkFrame 0 [1] Memory.NewMemory c e) =
       Fail (errInvalidJump 1) (mkFrame 0 [] Memory.NewMemory c (set_jumpdests e d))).
Proof.
  intros c e. apply (jump_only_to_jumpdest sample_hash (fun code => code = jumpy)
    ltac:(by intros ? ? -> ->) 1 [] 0 Memory.NewMemory c e).
  - by intros code m _ Hm.
  - reflexivity.
  - reflexivity.
  - done.
  - unfold word. lia.
Defined.
