(* ===== verification/EvmTheorems.v ===== *)
(** What the virtual machine guarantees: the main theorems on [run], on the
    entry points of core/vm/evm.go and on one iteration of the interpreter, for
    every database that satisfies [StateDBSpec] and every native contract that
    satisfies [precompile_spec]; and their instances on a concrete machine. *)

From S2P Require Import Prelude BigMath VmData VmState StateSpec GasTable Instructions Evm.
From S2P Require Import EvmInv EvmExec EvmGas EvmStep EvmTable EvmSafety EvmFuel CoreState.
From S2P Require Import CoreStateSpec StateCodec Sample.
Import Big GoMath Common VmCommon Params Stack Op.

(** The four message calls. *)
Inductive message :=
| MCall (caller : ContractRef) (addr : Address) (value : Z)
| MCallCode (caller : ContractRef) (addr : Address) (value : Z)
| MDelegateCall (caller : Contract) (addr : Address)
| MStaticCall (caller : ContractRef) (addr : Address).

Section Theorems.
Context {db : Type} `{!StateDB db} (env : Env db).
Context `{!StateDBSpec db (Keccak256Hash env)}.
Context (locked : ledger) (Henv : env_ok env locked).

Definition send (fuel : nat) (m : message) (input : list byte) (gas : Z)
    : ME db (list byte * Z * option vmerror) :=
  match m with
  | MCall caller addr v => evmCall env (run env fuel) caller addr input gas v
  | MCallCode caller addr v => evmCallCode env (run env fuel) caller addr input gas v
  | MDelegateCall c addr => evmDelegateCall env (run env fuel) (ContractOf c) addr input gas
  | MStaticCall caller addr => evmStaticCall env (run env fuel) caller addr input gas
  end.

(** The value of a message is a word, and zero in read-only mode. *)
Definition message_ok (e : EVM db) (m : message) : Prop :=
  match m with
  | MCall _ _ v => word v /\ (readOnly e = true -> v = 0)
  | MCallCode _ _ v => word v
  | MDelegateCall c _ => word (value c)
  | MStaticCall _ _ => True
  end.

Lemma wp_Ok {S A} (m : ST S Empty_set A) (Q : A -> S -> Prop) F s :
  wp m Q F s -> exists a s', m s = Ok a s' /\ Q a s'.
Proof. unfold wp. destruct (m s) as [a s'|[]| |]; eauto || done. Qed.

(** Every message call with more fuel than gas returns. *)
Lemma send_ok fuel m input gas e :
  evm_ok env locked e -> message_ok e m -> len input < 2 ^ 62 -> 0 <= gas < 2 ^ 64 ->
  gas + 2 <= Z.of_nat fuel ->
  exists ret gas' err e', send fuel m input gas e = Ok (ret, gas', err) e' /\
    call_post env locked e gas (ret, gas', err) e'.
Proof.
  intros He Hm Hi Hg HN. pose proof (proj1 (run_loop_ok env locked Henv fuel)) as Hrun.
  assert (wp (send fuel m input gas) (call_post env locked e gas) (fun _ _ => False) e) as Hwp.
  { destruct m as [caller addr v|caller addr v|c addr|caller addr]; cbn in *.
    - destruct Hm. by eapply (Call_safe env locked Henv).
    - by eapply (CallCode_safe env locked).
    - by eapply (DelegateCall_safe env locked).
    - by eapply (StaticCall_safe env locked). }
  apply wp_Ok in Hwp as ([[ret gas'] err] & e' & ? & ?). by exists ret, gas', err, e'.
Qed.

Lemma create_ok fuel caller code gas v e :
  evm_ok env locked e -> len code < 2 ^ 62 -> 0 <= gas < 2 ^ 64 -> word v -> readOnly e = false ->
  gas + 2 <= Z.of_nat fuel ->
  exists ret addr gas' err e', evmCreate env (run env fuel) caller code gas v e = Ok (ret, addr, gas', err) e' /\
    create_post env locked e (RefAddress caller) gas (ret, addr, gas', err) e'.
Proof.
  intros He Hc Hg Hv Hr HN. pose proof (proj1 (run_loop_ok env locked Henv fuel)) as Hrun.
  destruct (wp_Ok _ _ _ _ (Create_safe env locked Henv (Z.of_nat fuel) _ Hrun caller code gas v e
    He Hc Hg HN Hv Hr)) as ([[[ret addr] gas'] err] & e' & ? & ?). by exists ret, addr, gas', err, e'.
Qed.

Lemma run_ok_total fuel c input e :
  evm_ok env locked e -> contract_ok env c -> len input < 2 ^ 62 -> Gas c + 2 <= Z.of_nat fuel ->
  exists r e', run env fuel c input e = Ok r e' /\ run_post env locked c e r e'.
Proof.
  intros He Hc Hi HN. pose proof (proj1 (run_loop_ok env locked Henv fuel)) as Hrun.
  exact (wp_Ok _ _ _ _ (Hrun c input e He Hc Hi HN)).
Qed.

(** C1. Execution of a contract terminates without a Go run-time panic: with
    fuel for the gas of the contract plus two, [run] of core/vm/evm.go returns a
    result; the gas left is not more than the gas given, the database is well
    formed and its older snapshots are valid, the call depth and the read-only
    flag are restored, and after a success all invariants of the machine hold. *)
Theorem run_total fuel c input e :
  evm_ok env locked e -> contract_ok env c -> len input < 2 ^ 62 -> Gas c + 2 <= Z.of_nat fuel ->
  exists ret err gas e', run env fuel c input e = Ok (ret, err, gas) e' /\
    0 <= gas <= Gas c /\ db_ok (statedb e') /\
    (forall i s, covers (statedb e) i s -> covers (statedb e') i s) /\
    depth e' = depth e /\ readOnly e' = readOnly e /\ (err = None -> evm_ok env locked e').
Proof.
  intros He Hc Hi HN. destruct (run_ok_total fuel c input e He Hc Hi HN)
    as ([[ret err] gas] & e' & Hrun & [] & Hok & ? & ?). exists ret, err, gas, e'.
  split_and!; (done || (lia || intros Herr; by destruct (Hok Herr))).
Qed.

(** The fuel is not part of the result: any two amounts that cover the gas
    give the same result and the same machine. *)
Theorem run_fuel_irrelevant fuel fuel' c input e :
  evm_ok env locked e -> contract_ok env c -> len input < 2 ^ 62 ->
  Gas c + 2 <= Z.of_nat fuel -> Gas c + 2 <= Z.of_nat fuel' ->
  run env fuel c input e = run env fuel' c input e.
Proof.
  intros He Hc Hi H1 H2. set (n := Z.to_nat (Gas c + 2)). pose proof (gas_range _ _ Hc).
  destruct (run_ok_total n c input e) as (r & e' & Hn & _); try done; [lia|].
  assert (forall m, Gas c + 2 <= Z.of_nat m -> run env m c input e = Ok r e') as Hall.
  { intros m Hm. rewrite <- Hn. destruct (run_mono env n m c input ltac:(lia) e); congruence. }
  by rewrite !Hall.
Qed.

(** C5. A failed message call leaves no trace in the state: for CALL, CALLCODE,
    DELEGATECALL and STATICCALL alike, when an error is returned the accounts,
    storage, logs, refund counter and preimages are those before the call,
    whatever the callee and its own calls did. *)
Theorem call_failure_restores fuel m input gas e :
  evm_ok env locked e -> message_ok e m -> len input < 2 ^ 62 -> 0 <= gas < 2 ^ 64 ->
  gas + 2 <= Z.of_nat fuel ->
  exists ret gas' err e', send fuel m input gas e = Ok (ret, gas', err) e' /\
    (err <> None -> abs (statedb e') = abs (statedb e)).
Proof.
  intros He Hm Hi Hg HN. destruct (send_ok fuel m input gas e He Hm Hi Hg HN)
    as (ret & gas' & err & e' & ? & ? & ? & ? & ? & ?). by exists ret, gas', err, e'.
Qed.

(** C34. Contract creation returns, gives back no more gas than it got and creates
    no value; when it fails it leaves at most the increased nonce of the creator. *)
Theorem create_failure_restores fuel caller code gas v e :
  evm_ok env locked e -> len code < 2 ^ 62 -> 0 <= gas < 2 ^ 64 -> word v -> readOnly e = false ->
  gas + 2 <= Z.of_nat fuel ->
  exists ret addr gas' err e',
    evmCreate env (run env fuel) caller code gas v e = Ok (ret, addr, gas', err) e' /\
    0 <= gas' <= gas /\ total locked (abs (statedb e')) <= total locked (abs (statedb e)) /\
    (err <> None -> abs (statedb e') = abs (statedb e) \/
       abs (statedb e') =
         abs_update (USetNonce (RefAddress caller)
                       (u64 (a_nonce (acct (abs (statedb e)) (RefAddress caller)) + 1)))
           (abs (statedb e))).
Proof.
  intros He Hc Hg Hv Hr HN. destruct (create_ok fuel caller code gas v e He Hc Hg Hv Hr HN)
    as (ret & addr & gas' & err & e' & ? & ? & [] & ? & ? & ?). by exists ret, addr, gas', err, e'.
Qed.

(** C26. No execution creates money: after a message call the sum of all account
    balances, plus what native contracts keep outside of them, is not larger
    than before, and every balance is still non-negative. *)
Theorem call_creates_no_value fuel m input gas e :
  evm_ok env locked e -> message_ok e m -> len input < 2 ^ 62 -> 0 <= gas < 2 ^ 64 ->
  gas + 2 <= Z.of_nat fuel ->
  exists r e', send fuel m input gas e = Ok r e' /\
    total locked (abs (statedb e')) <= total locked (abs (statedb e)) /\
    state_ok (abs (statedb e')).
Proof.
  intros He Hm Hi Hg HN. destruct (send_ok fuel m input gas e He Hm Hi Hg HN)
    as (ret & gas' & err & e' & ? & [] & [] & _). by eexists _, e'.
Qed.



(** C31. One iteration of the interpreter never panics and keeps the frame well
    formed: all stack items are 256-bit words, the stack has at most 1024 items,
    memory stays below the limit of the gas function, gas does not grow; and an
    iteration after which the loop goes on has used gas. *)
Theorem step_safe fuel s :
  frame_ok env locked s -> Gas (contract s) <= Z.of_nat fuel ->
  match step env (calls_of env (run env fuel)) s with
  | Ok r s' => frame_ok env locked s' /\ Gas (contract s') <= Gas (contract s) /\
               (r = None -> Gas (contract s') < Gas (contract s))
  | Fail _ s' => frame_ok env locked s' /\ Gas (contract s') <= Gas (contract s)
  | Panic | OutOfFuel => False
  end.
Proof.
  intros Hf HN. pose proof (proj1 (run_loop_ok env locked Henv fuel)) as Hrun.
  pose proof (step_ok env locked Henv (Z.of_nat fuel) _ s
    (calls_of_ok env locked Henv _ _ Hrun) Hf HN) as Hs.
  unfold wp in Hs. destruct (step _ _ s) as [r s'|err s'| |]; try done.
  - destruct Hs as [[] Hr]. split_and!; try done. by intros ->.
  - by destruct Hs.
Qed.
End Theorems.

(** * Instances *)

(** PUSH1 5; PUSH1 2; ADD; PUSH1 0; SSTORE; STOP *)
Definition storing : list byte := [x60; x05; x60; x02; x01; x60; x00; x55; x00].
(** PUSH1 5; PUSH1 0; SSTORE; then an invalid opcode. *)
Definition failing : list byte := [x60; x05; x60; x00; x55; xfe].

Definition fuel30k : nat := Z.to_nat 30002.

Definition sampleFrame (st : list Z) : frame sampleDB :=
  mkFrame 0 st Memory.NewMemory (sampleContract storing 30000) (sampleEVM storing).

Ltac sample :=
  lazymatch goal with
  | |- env_ok _ _ => apply sample_env_ok
  | |- evm_ok _ _ _ => by apply sampleEVM_ok
  | |- contract_ok _ _ => by apply sampleContract_ok
  | |- quiet _ => by intros ? ?
  | |- _ <= Z.of_nat _ => unfold fuel30k; cbn [Gas sampleContract contract sampleFrame]; lia
  | |- _ => done
  end.

Lemma run_total_witness :
  exists ret err gas e',
    run sampleEnv fuel30k (sampleContract storing 30000) [] (sampleEVM storing) = Ok (ret, err, gas) e' /\
    0 <= gas <= 30000 /\ db_ok (statedb e') /\
    (forall i s, covers (statedb (sampleEVM storing)) i s -> covers (statedb e') i s) /\
    depth e' = 0 /\ readOnly e' = false /\ (err = None -> evm_ok sampleEnv no_ledger e').
Proof.
  apply (run_total sampleEnv no_ledger sample_env_ok fuel30k (sampleContract storing 30000) []
           (sampleEVM storing)); sample.
Defined.

Lemma run_fuel_irrelevant_witness :
  run sampleEnv fuel30k (sampleContract storing 30000) [] (sampleEVM storing) =
  run sampleEnv (fuel30k + 1000) (sampleContract storing 30000) [] (sampleEVM storing).
Proof.
  apply (run_fuel_irrelevant sampleEnv no_ledger sample_env_ok fuel30k (fuel30k + 1000)
           (sampleContract storing 30000) [] (sampleEVM storing)); sample.
Defined.

Lemma call_failure_restores_witness :
  exists ret gas' err e',
    send sampleEnv fuel30k (MCall (AccountRef alice) bob 5) [] 30000 (sampleEVM failing) =
      Ok (ret, gas', err) e' /\
    (err <> None -> abs (statedb e') = abs (statedb (sampleEVM failing))).
Proof.
  apply (call_failure_restores sampleEnv no_ledger sample_env_ok fuel30k
           (MCall (AccountRef alice) bob 5) [] 30000 (sampleEVM failing)); sample.
Defined.

Lemma create_failure_restores_witness :
  exists ret addr gas' err e',
    evmCreate sampleEnv (run sampleEnv fuel30k) (AccountRef alice) failing 30000 5 (sampleEVM storing) =
      Ok (ret, addr, gas', err) e' /\
    0 <= gas' <= 30000 /\
    total no_ledger (abs (statedb e')) <= total no_ledger (abs (statedb (sampleEVM storing))) /\
    (err <> None -> abs (statedb e') = abs (statedb (sampleEVM storing)) \/
       abs (statedb e') =
         abs_update (USetNonce alice (u64 (a_nonce (acct (abs (statedb (sampleEVM storing))) alice) + 1)))
           (abs (statedb (sampleEVM storing)))).
Proof.
  apply (create_failure_restores sampleEnv no_ledger sample_env_ok fuel30k
           (AccountRef alice) failing 30000 5 (sampleEVM storing)); sample.
Defined.

Lemma call_creates_no_value_witness :
  exists r e',
    send sampleEnv fuel30k (MCall (AccountRef alice) bob 5) [] 30000 (sampleEVM storing) = Ok r e' /\
    total no_ledger (abs (statedb e')) <= total no_ledger (abs (statedb (sampleEVM storing))) /\
    state_ok (abs (statedb e')).
Proof.
  apply (call_creates_no_value sampleEnv no_ledger sample_env_ok fuel30k
           (MCall (AccountRef alice) bob 5) [] 30000 (sampleEVM storing)); sample.
Defined.



Lemma sampleFrame_ok st :
  Forall word st -> len st <= 1024 -> frame_ok sampleEnv no_ledger (sampleFrame st).
Proof. intros. split; try sample. Qed.

Lemma step_safe_witness :
  let s := sampleFrame [7] in
  match step sampleEnv (calls_of sampleEnv (run sampleEnv fuel30k)) s with
  | Ok r s' => frame_ok sampleEnv no_ledger s' /\ Gas (contract s') <= Gas (contract s) /\
               (r = None -> Gas (contract s') < Gas (contract s))
  | Fail _ s' => frame_ok sampleEnv no_ledger s' /\ Gas (contract s') <= Gas (contract s)
  | Panic | OutOfFuel => False
  end.
Proof.
  refine (step_safe sampleEnv no_ledger sample_env_ok fuel30k (sampleFrame [7]) _ _); [|sample].
  apply sampleFrame_ok; [|done]. constructor; [by auto with word|constructor].
Defined.

(** The executions of the instances: a stored value, and a failure that gives
    back the value sent. *)
Example storing_runs :
  match send sampleEnv fuel30k (MCall (AccountRef alice) bob 5) [] 30000 (sampleEVM storing) with
  | Ok (ret, gas, err) e =>
      (ret, gas, err, bits_val (VmState.GetState (statedb e) bob emptyHash),
       VmState.GetBalance (statedb e) bob) = ([], 9988, None, 7, 12)
  | _ => False
  end.
Proof. vm_compute. reflexivity. Qed.

Example failing_runs :
  match send sampleEnv fuel30k (MCall (AccountRef alice) bob 5) [] 30000 (sampleEVM failing) with
  | Ok (ret, gas, err) e =>
      (ret, gas, err, bits_val (VmState.GetState (statedb e) bob emptyHash),
       VmState.GetBalance (statedb e) bob) = ([], 0, Some (errInvalidOpcode xfe), 0, 7)
  | _ => False
  end.
Proof. vm_compute. reflexivity. Qed.
