(* ===== verification/PrivacyTheorems.v ===== *)
(** Private money on the machine: the wancoin and stamp contracts
    (core/vm/contracts.go) over the one-time accounts of core/vm/ota_storage.go,
    called by arbitrary transactions.  No message creates money, a spent key
    image is never forgotten, and so nothing is spent twice. *)

From S2P Require Import Rlp RlpSpec RlpDecode RlpCodec Staking Contracts.
From S2P Require Import Prelude BigMath Encoding Abi VmData VmState StateSpec Ota Privacy Instructions Evm.
From S2P Require Import EvmInv PrivacySpec PrivacySafety EvmStep EvmSafety CoreState CoreStateSpec StateCodec Sample.
From S2P Require Import WanSample EvmTheorems.
Import Big Common Addr Ota Privacy Secp.

Section Theorems.
Context {db : Type} `{!StateDB db} (env : Env db) `{!StateDBSpec db (Keccak256Hash env)}.
Context (image_of : list byte -> PublicKey) (key : Hash).
Context (VerifyRingSign : list byte -> list PublicKey -> PublicKey -> list Z -> list Z -> bool).
Context (posCfg : PosConfig.Config) (others : Address -> option (PrecompiledContract db)).
Context (Henv : wan_env_ok env image_of key VerifyRingSign posCfg others).
Abbreviation hash := (Keccak256Hash env).
Abbreviation ledger_from spent := (wan_ledger hash image_of spent key).

Definition images (d : db) : gmap Hash (list byte) := bytes_of (abs d) otaImageStorageAddr.

(** All money: balances, one-time accounts that are not spent, collected fees. *)
Definition money (s : astate) : Z := supply s + (unspent s + pool key s).

(** The invariant with the images that are spent already. *)
Lemma evm_ok_spent spent spent' e :
  evm_ok env (ledger_from spent) e -> spent' ⊆ images (statedb e) -> evm_ok env (ledger_from spent') e.
Proof. intros [? ? [] ? ? ?] Hs. by split. Qed.

(** Sequences of messages and contract creations. *)
Inductive later (e : EVM db) : EVM db -> Prop :=
| later_refl : later e e
| later_send e1 e2 fuel m input gas r :
    later e e1 -> message_ok e1 m -> len input < 2 ^ 62 -> 0 <= gas < 2 ^ 64 ->
    gas + 2 <= Z.of_nat fuel -> send env fuel m input gas e1 = Ok r e2 -> later e e2
| later_create e1 e2 fuel caller code gas v r :
    later e e1 -> len code < 2 ^ 62 -> 0 <= gas < 2 ^ 64 -> word v -> readOnly e1 = false ->
    gas + 2 <= Z.of_nat fuel -> evmCreate env (run env fuel) caller code gas v e1 = Ok r e2 -> later e e2.

Lemma later_ok spent e e' : evm_ok env (ledger_from spent) e -> later e e' -> evm_ok env (ledger_from spent) e'.
Proof.
  intros He Hc. pose proof (wan_env_env_ok env image_of spent key VerifyRingSign posCfg others Henv) as Hok.
  induction Hc as [|e1 e2 fuel m input gas r _ IH Hm Hi Hg HN Hs|e1 e2 fuel caller code gas v r _ IH Hc Hg Hv Hr HN Hs];
    [done|..].
  - destruct (send_ok env _ Hok fuel m input gas e1 IH Hm Hi Hg HN) as (? & ? & ? & ? & Hs' & Hp).
    rewrite Hs in Hs'. injection Hs' as -> ->. apply Hp.
  - destruct (create_ok env _ Hok fuel caller code gas v e1 IH Hc Hg Hv Hr HN) as (? & ? & ? & ? & ? & Hs' & Hp).
    rewrite Hs in Hs'. injection Hs' as -> ->. apply Hp.
Qed.

(** A successful refund leaves its key image. *)
Lemma refund_stored all c d r d' :
  linkable image_of VerifyRingSign -> db_ok d -> native_inv hash image_of ∅ (abs d) ->
  refund hash VerifyRingSign all c d = Ok r d' ->
  exists image b, refund_image all = Some image /\
    images d' !! hash (FromECDSAPub image) = Some b /\ b <> [].
Proof.
  intros Hl Hd Hi Hr. pattern r, d'. apply (wp_result _ _ (fun _ _ => True) _ _ _ Hr).
  eapply refund_wp; [done..|].
  intros comp v Hh Hall _. exists (image_of comp), (Bytes v). split; [done|].
  pose proof Hh as (k & b & w & _ & _ & (Hv & _) & _). apply values_pos in Hv.
  assert (len (Bytes v) <> 0) as Hb by (apply Bytes_nonempty; lia).
  split; [|by intros H0; rewrite H0 in Hb]. unfold images, refunded.
  rewrite update_abs by by apply update_ok. rewrite bytes_of_keep, update_abs, bytes_of_set by done.
  by rewrite decide_True, lookup_insert_eq.
Qed.

Lemma refund_evm_ok all c e r d' :
  evm_ok env (ledger_from ∅) e -> refund hash VerifyRingSign all c (statedb e) = Ok r d' ->
  evm_ok env (ledger_from ∅) (set_db e d').
Proof.
  intros [Hd Hst Hi Ht ? ?] Hr. pose proof (wan_linkable _ _ _ _ _ _ Henv) as Hl.
  assert (good hash image_of ∅ key (statedb e) d') as ([] & ? & ? & ?); [|split; try done; cbn [statedb set_db]; lia].
  pattern r, d'. apply (wp_result _ _ (fun _ _ => True) _ _ _ Hr).
  apply (refund_wp _ image_of ∅); [done..|]. intros. by apply refunded_good.
Qed.

(** A bought account is found. *)
Lemma info_bought v w k a d :
  db_ok d -> v ∈ values -> vacant hash w k d ->
  let d' := apply_update (USubBalance a v) (bought v w k d) in
  GetOTAInfoFromAX (Hash_Bytes k) d' = Ok (Some w, v) d'.
Proof.
  intros Hd Hv (Hlw & Hk & _) d'. pose proof (values_pos v Hv). destruct (values_addr v Hv) as (Hne & _).
  pose proof (moves_ok _ _ (bought_moves hash v w k d Hd)).
  assert (db_ok d') as Hd' by by apply update_ok.
  assert (forall b, bytes_of (abs d') b = bytes_of (with_account v k w (abs d)) b) as Hb.
  { intros b. unfold d'. by rewrite update_abs, bytes_of_keep, bought_abs. }
  apply wp_returns. unfold GetOTAInfoFromAX. rewrite len_Hash_Bytes. cbn [Z.ltb Z.compare].
  rewrite BytesToHash_Hash_Bytes. apply wp_bind. eapply (GetOtaBalance_wp hash); [done| |].
  - intros _. rewrite BytesToHash_Hash_Bytes.
    assert (balance_of (abs d') k = v) as ->.
    { unfold balance_of. rewrite Hb, with_account_bytes, decide_True, lookup_insert_eq by done.
      cbn [default from_option id]. pose proof (SetBytes_Bytes v) as HB. unfold SetBytes in HB. rewrite HB. lia. }
    destruct (Z.eqb_spec v 0); [lia|]. apply wp_bind. eapply (read_wp hash); [done|]. apply wp_ret.
    rewrite Hb, with_account_bytes, decide_False, decide_True, lookup_insert_eq by done.
    cbn [default from_option id]. by rewrite Hlw.
  - by rewrite len_Hash_Bytes.
Qed.

(** C4. Private money is conserved: no message call, whatever the code it runs and
    whatever wancoin and stamp operations that code makes, increases the sum of
    the balances, the unspent one-time accounts and the collected fees, and the
    unspent one-time accounts never hold less than nothing. *)
Theorem private_money_conserved fuel m input gas e :
  evm_ok env (ledger_from ∅) e -> message_ok e m -> len input < 2 ^ 62 -> 0 <= gas < 2 ^ 64 ->
  gas + 2 <= Z.of_nat fuel ->
  exists r e', send env fuel m input gas e = Ok r e' /\
    money (abs (statedb e')) <= money (abs (statedb e)) /\ 0 <= unspent (abs (statedb e')).
Proof.
  intros He Hm Hi Hg HN. pose proof (wan_env_env_ok env image_of ∅ key VerifyRingSign posCfg others Henv) as Hok.
  destruct (send_ok env _ Hok fuel m input gas e He Hm Hi Hg HN) as (ret & gas' & err & e' & Hs & Hp).
  exists (ret, gas', err), e'. destruct Hp as (Hok' & Hrel & _). split_and!; [done|apply Hrel|].
  eapply unspent_nonneg, Hok'.
Qed.

(** C10. A private coin is refunded at most once: after a successful refund, in
    every state that any sequence of messages and contract creations leads to,
    every further refund with the same key image fails and changes nothing. *)
Theorem no_double_refund all c d r e e' all2 c2 :
  db_ok d -> native_inv hash image_of ∅ (abs d) ->
  refund hash VerifyRingSign all c d = Ok r (statedb e) ->
  evm_ok env (ledger_from ∅) e -> later e e' ->
  refund_image all2 = refund_image all ->
  exists err, refund hash VerifyRingSign all2 c2 (statedb e') = Fail err (statedb e').
Proof.
  intros Hd Hi Hr He Hlater Himg. pose proof (wan_linkable _ _ _ _ _ _ Henv) as Hl.
  destruct (refund_stored _ _ _ _ _ Hl Hd Hi Hr) as (image & b & Hall & Hb & Hne).
  apply (evm_ok_spent _ (images (statedb e))) in He; [|done].
  destruct (later_ok _ _ _ He Hlater) as [Hd' _ Hi' _ _ _].
  assert (wp (refund hash VerifyRingSign all2 c2) (fun _ _ => False) (fun _ d' => d' = statedb e') (statedb e')) as Hwp.
  { apply (refund_wp _ image_of (images (statedb e))); [done..|]. intros comp v _ Hall2 Hnew. rewrite Himg, Hall in Hall2.
    injection Hall2 as ->. pose proof (lookup_weaken _ _ _ _ Hb (inv_spent _ _ _ _ Hi')) as Hb'.
    by rewrite Hb' in Hnew. }
  unfold wp in Hwp. destruct (refund _ _ all2 c2 _) as [| err d'| |]; try done. exists err. by rewrite Hwp.
Qed.

(** C36. Buying a private coin does what it says: when buyCoin succeeds, the value
    is one of the denominations, the caller paid exactly that value, the one-time
    address of the arguments is registered with it, nothing else changes, and
    GetOTAInfoFromAX finds the address and the value. *)
Theorem buy_coin_registers input c d r d' :
  db_ok d -> buyCoin input c d = Ok r d' ->
  exists w k, buy_address Abi.Unpack input = Some w /\ slice w 1 33 = Some (Hash_Bytes k) /\
    value c ∈ WanCoinValueSet /\ value c <= a_balance (acct (abs d) (CallerAddress c)) /\
    abs d' = abs_update (USubBalance (CallerAddress c) (value c)) (with_account (value c) k w (abs d)) /\
    GetOTAInfoFromAX (Hash_Bytes k) d' = Ok (Some w, value c) d'.
Proof.
  intros Hd Hbuy. pattern r, d'. apply (wp_result _ _ (fun _ _ => True) _ _ _ Hbuy).
  apply (buyCoin_wp hash); [done..|].
  intros w k Hv Hw Hk Hbal. exists w, k. pose proof (bought_moves hash (value c) w k d Hd) as Hm.
  split_and!; try done; [apply Hk|..].
  - rewrite update_abs by apply Hm. by rewrite bought_abs.
  - apply info_bought; try done. apply elem_of_app. by right.
Qed.
End Theorems.

(** * Instances *)

Definition fuel100k : nat := Z.to_nat 100002.

(** The state a computation that returns leaves, and its result. *)
Definition final {S E A} (s : S) (o : outcome S E A) : S := match o with Ok _ s' => s' | _ => s end.
Definition result {S E A} (o : outcome S E A) : option A := match o with Ok r _ => Some r | _ => None end.

Lemma returns_final {S E A} (s : S) (o : outcome S E A) r : result o = Some r -> o = Ok r (final s o).
Proof. destruct o as [r' s'| | |]; try done. by intros [= ->]. Qed.

Lemma returns_some {S E A} (s : S) (o : outcome S E A) :
  (match result o with Some _ => true | None => false end) = true -> exists r, o = Ok r (final s o).
Proof. destruct o as [r s'| | |]; try done. by exists r. Qed.

(** Alice buys a coin of 50000 WAN. *)
Abbreviation buying :=
  (send wanEnv fuel100k (MCall (AccountRef alice) wanCoinPrecompileAddr coin) buyInput 100000 (wanEVM [])).
Definition afterBuy : EVM sampleDB := final (wanEVM []) buying.

Lemma buying_Ok : exists r, buying = Ok r afterBuy.
Proof. apply returns_some. vm_compute. reflexivity. Qed.

Ltac wan_sample :=
  lazymatch goal with
  | |- evm_ok _ _ (wanEVM _) => by apply wanEVM_ok
  | |- len _ < _ => apply Z.ltb_lt; vm_compute; reflexivity
  | |- _ <= Z.of_nat _ => unfold fuel100k; lia
  | |- message_ok _ _ => by split
  | |- _ => done
  end.

#[global] Opaque afterBuy.

Lemma afterBuy_ok key : evm_ok wanEnv (wan_ledger sample_hash sample_image ∅ key) afterBuy.
Proof.
  destruct buying_Ok as [r Hr].
  apply (later_ok wanEnv sample_image key sampleVerify samplePos (fun _ => None) (wan_env key) ∅ (wanEVM [])); [wan_sample|].
  refine (later_send wanEnv _ _ _ _ _ _ _ _ (later_refl _ _) _ _ _ _ Hr); clear Hr; wan_sample.
Qed.

Lemma private_money_conserved_witness :
  exists r e',
    send wanEnv fuel100k (MCall (AccountRef alice) wanCoinPrecompileAddr coin) buyInput 100000 (wanEVM []) = Ok r e' /\
    money emptyHash (abs (statedb e')) <= money emptyHash (abs (statedb (wanEVM []))) /\
    0 <= unspent (abs (statedb e')).
Proof.
  apply (private_money_conserved wanEnv sample_image emptyHash sampleVerify samplePos (fun _ => None) (wan_env emptyHash)
    fuel100k (MCall (AccountRef alice) wanCoinPrecompileAddr coin) buyInput 100000 (wanEVM [])); wan_sample.
Defined.

(** The native contract as Alice calls it. *)
Definition coinContract (v : Z) : Contract :=
  mkContract alice wanCoinPrecompileAddr [] emptyHash (Some wanCoinPrecompileAddr) [] 100000 v false.

Abbreviation refunding :=
  (refund sample_hash sampleVerify (drop 4 refundInput) (coinContract 0) (statedb afterBuy)).
Definition afterRefund : sampleDB := final (wanState []) refunding.

Lemma refunding_Ok : exists r, refunding = Ok r afterRefund.
Proof. apply returns_some. vm_compute. reflexivity. Qed.

#[global] Opaque afterRefund.

Lemma no_double_refund_witness :
  let e := set_db afterBuy afterRefund in
  exists err, refund sample_hash sampleVerify (drop 4 refundInput) (coinContract 0) (statedb e) = Fail err (statedb e).
Proof.
  destruct refunding_Ok as [r Hr]. pose proof (afterBuy_ok emptyHash) as He.
  refine (no_double_refund wanEnv sample_image emptyHash sampleVerify samplePos (fun _ => None) (wan_env emptyHash)
    (drop 4 refundInput) (coinContract 0) (statedb afterBuy) r (set_db afterBuy afterRefund)
    (set_db afterBuy afterRefund) (drop 4 refundInput) (coinContract 0) _ _ Hr _ _ _).
  - exact (evm_db _ _ _ He).
  - exact (evm_kept _ _ _ He).
  - exact (refund_evm_ok wanEnv sample_image emptyHash sampleVerify samplePos _ (wan_env emptyHash) _ _ _ _ _ He Hr).
  - apply later_refl.
  - reflexivity.
Defined.

Abbreviation buyingCoin := (buyCoin (drop 4 buyInput) (coinContract coin) (wanState [])).
Definition boughtDB : sampleDB := final (wanState []) buyingCoin.

Lemma buyingCoin_Ok : exists r, buyingCoin = Ok r boughtDB.
Proof. apply returns_some. vm_compute. reflexivity. Qed.

#[global] Opaque boughtDB.

Lemma buy_coin_registers_witness :
  exists w k, buy_address Abi.Unpack (drop 4 buyInput) = Some w /\ slice w 1 33 = Some (Hash_Bytes k) /\
    coin ∈ WanCoinValueSet /\ coin <= a_balance (acct (abs (wanState [])) alice) /\
    abs boughtDB = abs_update (USubBalance alice coin) (with_account coin k w (abs (wanState []))) /\
    GetOTAInfoFromAX (Hash_Bytes k) boughtDB = Ok (Some w, coin) boughtDB.
Proof.
  destruct buyingCoin_Ok as [r Hr].
  apply (buy_coin_registers wanEnv (drop 4 buyInput) (coinContract coin) (wanState []) r boughtDB); [|exact Hr].
  by apply wanState_ok.
Defined.

(** STATICCALL does not protect the state against the native contracts: a
    refund through a static call succeeds and pays Alice the coin. *)
Theorem static_refund_pays :
  exists ret gas e',
    evmStaticCall wanEnv (run wanEnv fuel100k) (AccountRef alice) wanCoinPrecompileAddr refundInput 100000 afterBuy
      = Ok (ret, gas, None) e' /\
    VmState.GetBalance (statedb e') alice = VmState.GetBalance (statedb afterBuy) alice + coin.
Proof.
  set (m := evmStaticCall _ _ _ _ _ _ _).
  assert (match m with
          | Ok (_, _, None) e' =>
              VmState.GetBalance (statedb e') alice =? VmState.GetBalance (statedb afterBuy) alice + coin
          | _ => false
          end = true) as H by (vm_compute; reflexivity).
  destruct m as [[[ret gas] [err|]] e'| | |]; try done. exists ret, gas, e'. split; [done|by apply Z.eqb_eq].
Qed.

(** CALLDATACOPY of the input, then DELEGATECALL of the wancoin contract. *)
Definition delegating : list byte :=
  [x36; x60; x00; x60; x00; x37; x60; x00; x60; x00; x36; x60; x00; x60; x64; x5a; xf4; x00].

(** A contract that Alice pays can make her pay twice: it delegates her call to
    the wancoin contract, which charges the caller and the value of the outer
    call; Bob's contract keeps the value sent to it, and Alice loses it twice. *)
Theorem delegated_purchase_charges_twice :
  exists ret gas e',
    evmCall wanEnv (run wanEnv fuel100k) (AccountRef alice) bob buyInput 100000 coin (wanEVM delegating)
      = Ok (ret, gas, None) e' /\
    VmState.GetBalance (statedb e') alice = VmState.GetBalance (wanState delegating) alice - 2 * coin /\
    VmState.GetBalance (statedb e') bob = VmState.GetBalance (wanState delegating) bob + coin.
Proof.
  set (m := evmCall _ _ _ _ _ _ _ _).
  assert (match m with
          | Ok (_, _, None) e' =>
              (VmState.GetBalance (statedb e') alice =? VmState.GetBalance (wanState delegating) alice - 2 * coin) &&
              (VmState.GetBalance (statedb e') bob =? VmState.GetBalance (wanState delegating) bob + coin)
          | _ => false
          end = true) as H by (vm_compute; reflexivity).
  destruct m as [[[ret gas] [err|]] e'| | |]; try done. apply andb_true_iff in H as [H1 H2].
  apply Z.eqb_eq in H1, H2. exists ret, gas, e'. exact (conj eq_refl (conj H1 H2)).
Qed.
