(* ===== verification/StakingTheorems.v ===== *)
(** What the staking contract of core/vm/pos_staking_contracts.go and the
    return of stakes by StakeOutRun of pos/epochLeader guarantee: a call records
    exactly the money it moves and touches nobody else's stake, every state of a
    history is solvent, the run at the end of an epoch does not depend on the
    order of Go's map iteration, and stakes are returned. *)

From S2P Require Import Prelude BigMath Encoding Abi VmData VmState StateSpec Rlp RlpSpec RlpDecode RlpCodec Ota Privacy.
From S2P Require Import Staking StakingCodec StakingSpec Contracts Instructions Evm EvmInv StakingSafety PrivacySpec PrivacySafety.
From S2P Require Import EvmSafety TransitionSafety StakingCall StakeOut StakeOutSpec StakeOutSafety StakeOutRefine StakingHistory.
From S2P Require Import CoreState CoreStateSpec StateIterate StateCodec Sample WanSample EvmTheorems PrivacyTheorems.
Import Big Common Addr Staking StakeOut.

Abbreviation pool := WanCscPrecompileAddr.

Section Theorems.
Context {db : Type} `{!StateDB db} `{!StateIter db} (env : Env db) `{!StateDBSpec db (Keccak256Hash env)}.
Context `{!StateIterSpec db (Keccak256Hash env)} (posCfg : PosConfig.Config).
Context (Henv : staking_env env posCfg).
Abbreviation hash := (Keccak256Hash env).

(** C17. A transaction that calls the staking contract always returns; when it
    succeeds, the stakes recorded grow by exactly the value sent to a method
    that takes money, which has moved from the caller to the contract, and the
    records are still consistent; when it fails the state is as before. *)
Theorem stake_call_records fuel caller input gas v e :
  db_ok (statedb e) -> state_ok (abs (statedb e)) -> staking_inv (abs (statedb e)) -> depth e = 0 ->
  0 <= v -> 0 <= gas < 2 ^ 64 -> len input < 2 ^ 62 ->
  exists left err e',
    evmCall env (run env (S fuel)) caller pool input gas v e = Ok ([], left, err) e' /\
    let s := abs (statedb e) in let s' := abs (statedb e') in
    match err with
    | None =>
        staking_inv s' /\ recorded s' = recorded s + (if payable hash (take 4 input) then v else 0) /\
        forall a, balance_of s' a = balance_of s a - (if decide (RefAddress caller = a) then v else 0)
                                    + (if decide (pool = a) then v else 0)
    | Some _ => s' = s
    end.
Proof.
  intros Hd Hs Hi Hdep Hv Hg Hin.
  destruct (stake_call_ok env posCfg Henv fuel caller input gas v e) as (left & err & e' & Hcall & _ & _ & Hres); [done..|].
  exists left, err, e'. split; [done|]. destruct err; [done|]. destruct Hres as (? & ? & ? & _). by split_and!.
Qed.

(** C23. A call changes nobody else's stake: after a call that succeeds every
    validator still has its record, with the same owner and running lock time
    and no less money; the terms of a validator change only for its owner, and
    the entries of clients and partners other than the caller stay. *)
Theorem stakes_guarded fuel caller input gas v e left e' k b st :
  db_ok (statedb e) -> state_ok (abs (statedb e)) -> staking_inv (abs (statedb e)) -> depth e = 0 ->
  0 <= v -> 0 <= gas < 2 ^ 64 -> len input < 2 ^ 62 ->
  evmCall env (run env (S fuel)) caller pool input gas v e = Ok ([], left, None) e' ->
  staker_at (abs (statedb e)) k b st ->
  exists b' st', staker_at (abs (statedb e')) k b' st' /\ guarded (RefAddress caller) st st'.
Proof.
  intros Hd Hs Hi Hdep Hv Hg Hin Hcall Hat.
  destruct (stake_call_ok env posCfg Henv fuel caller input gas v e) as (left' & err & e'' & Hcall' & _ & _ & Hres); [done..|].
  rewrite Hcall in Hcall'. injection Hcall' as _ <- <-. destruct Hres as (_ & _ & _ & Hguard). by eapply Hguard.
Qed.



End Theorems.


(** C25. Whatever a message executes - any code, any nesting of calls of any kind,
    reverts, calls of the native contracts - the staking records it leaves are
    consistent: every record decodes, has its key and keeps its limits, and
    every fee record belongs to a validator with that fee. *)
Theorem messages_keep_records {db : Type} `{!StateDB db} (env : Env db) `{!StateDBSpec db (Keccak256Hash env)}
    image_of key VerifyRingSign posCfg others fuel m input gas e :
  wan_env_ok env image_of key VerifyRingSign posCfg others ->
  evm_ok env (wan_ledger (Keccak256Hash env) image_of ∅ key) e -> message_ok e m -> len input < 2 ^ 62 ->
  0 <= gas < 2 ^ 64 -> gas + 2 <= Z.of_nat fuel ->
  exists r e', send env fuel m input gas e = Ok r e' /\ staking_inv (abs (statedb e')).
Proof.
  intros Henv He Hm Hi Hg HN. pose proof (wan_env_env_ok env image_of ∅ key VerifyRingSign posCfg others Henv) as Hok.
  destruct (send_ok env _ Hok fuel m input gas e He Hm Hi Hg HN) as (ret & gas' & err & e' & Hs & [[_ _ Hk _ _ _] _]).
  exists (ret, gas', err), e'. split; [done|]. exact (inv_staking _ _ _ _ Hk).
Qed.

(** * Instances *)

(** Alice owns money; Bob runs [code]. *)
Definition stakeSetup (code : list byte) : list update := [UAddBalance alice (60000 * ether); USetCode bob code].
Definition stakeDB (code : list byte) : sampleDB := fold_left (fun d u => apply_update u d) (stakeSetup code) emptyDB.

(** A block in an epoch. *)
Definition atEpoch (e : Z) : Context :=
  mkContext (fun n => bits_of 256 n) alice 1 bob 1000000 1 (e * (PosConfig.SlotTime * PosConfig.SlotCount)) 1.
Abbreviation env18200 := (at_block wanEnv (atEpoch 18200)).

(** A call with arguments. *)
Definition callInput (id : list byte) (args : list Abi.Ty) (vs : list Abi.value) : list byte :=
  id ++ default [] (Abi.Pack args vs).

(** The validator with key [G], locked for ten epochs. *)
Definition validator : Address := PubkeyToAddress sample_hash G.
Definition stakeInInput : list byte :=
  callInput (stakeInId sample_hash) [Abi.BytesTy; Abi.BytesTy; Abi.UintTy 256; Abi.UintTy 256]
    [Abi.VBytes (Secp.FromECDSAPub G); Abi.VBytes (be_bytes 32 1 ++ be_bytes 32 2); Abi.VInt 10; Abi.VInt 1000].
Definition noRenewInput : list byte :=
  callInput (stakeUpdateId sample_hash) [Abi.AddressTy; Abi.UintTy 256] [Abi.VAddress validator; Abi.VInt 0].

Lemma stake_env x : staking_env (at_block wanEnv x) samplePos.
Proof. split; [done|apply sample_ids]. Qed.

Lemma stakeDB_solvent code : len code < 2 ^ 62 -> solvent wanEnv (stakeDB code).
Proof.
  intros Hc. unfold stakeDB, stakeSetup. cbn [fold_left]. set (d := apply_update _ (apply_update _ emptyDB)).
  assert (db_ok d) by (repeat apply update_ok; apply emptyDB_ok).
  assert (abs d = abs_update (USetCode bob code) (abs_update (UAddBalance alice (60000 * ether)) (abs emptyDB))) as Ha.
  { unfold d. by repeat (rewrite update_abs by (repeat apply update_ok; apply emptyDB_ok)). }
  assert (forall a, bytes_of (abs d) a = ∅) as Hb. { intros a. rewrite Ha, !bytes_of_keep by done. done. }
  assert (state_ok (abs d)) as Hs.
  { rewrite Ha. apply update_state_ok; [|exact Hc]. apply update_state_ok; [by split|exact I]. }
  split; [done|done|..].
  - split; unfold stakers, fees; rewrite Hb; done.
  - unfold funded, recorded, stakers. rewrite Hb. by apply acct_balance.
Qed.

(** Alice registers a validator, and then asks not to renew. *)
Definition stakeEVM (code : list byte) : EVM sampleDB := mkEVM (stakeDB code) 0 false [] ∅ 0.
Abbreviation calling input v e := (evmCall env18200 (run env18200 2) (AccountRef alice) pool input 100000 v e).
Definition staking := calling stakeInInput (10000 * ether) (stakeEVM []).
Definition staked : EVM sampleDB := final (stakeEVM []) staking.
Definition updating := calling noRenewInput 0 staked.
Definition quitting : EVM sampleDB := final staked updating.

(** The record of the validator. *)
Definition record_of (e : EVM sampleDB) : list byte :=
  default [] (stakers (abs (statedb e)) !! GetStakeInKeyHash validator).
Definition terms_of (e : EVM sampleDB) : StakerInfo :=
  default (mkStaker validator [] [] 0 0 0 0 alice 0 0 [] []) (dec (record_of e)).

(** A run before the lock time ends. *)
Definition early := StakeOutRun samplePos 18205 (statedb quitting).
Definition waiting : sampleDB := final (statedb quitting) early.

Definition is_done {S E} (r : outcome S E (list byte * Z * option vmerror)) : bool :=
  match result r with Some ([], g, None) => g =? 100000 | _ => false end.
Lemma is_done_result {S E} (r : outcome S E (list byte * Z * option vmerror)) :
  is_done r = true -> result r = Some ([], 100000, None).
Proof. unfold is_done. destruct (result r) as [[[[|] g] [|]]|]; try done. intros ->%Z.eqb_eq. done. Qed.
Definition is_idle {S E} (r : outcome S E (bool * option (list RefundInfo))) : bool :=
  match result r with Some (true, Some []) => true | _ => false end.
Lemma is_idle_result {S E} (r : outcome S E (bool * option (list RefundInfo))) :
  is_idle r = true -> result r = Some (true, Some []).
Proof. unfold is_idle. by destruct (result r) as [[[] [[|]|]]|]. Qed.

(** What evaluation shows of these states. *)
Lemma evaluated :
  ((len stakeInInput <? 2 ^ 62) && (len noRenewInput <? 2 ^ 62) &&
   (is_done staking && (depth staked =? 0) && negb (len (record_of staked) =? 0)) &&
   (is_done updating && (depth quitting =? 0) && negb (len (record_of quitting) =? 0)) &&
   (negb (si_LockEpochs (terms_of quitting) =? 0) && (si_NextLockEpochs (terms_of quitting) =? 0) &&
    (18205 <? expiry samplePos (terms_of quitting)) && (expiry samplePos (terms_of quitting) <=? 18212) &&
    negb (bool_decide (si_From (terms_of quitting) = pool))) &&
   (last_epoch (abs (statedb quitting)) <? 18212) &&
   (is_idle early && (last_epoch (abs waiting) <? 18212)))%bool = true.
Proof. vm_compute. reflexivity. Qed.

#[global] Opaque staked quitting waiting.

Lemma facts :
  (len stakeInInput < 2 ^ 62 /\ len noRenewInput < 2 ^ 62) /\
  (result staking = Some ([], 100000, None) /\ depth staked = 0 /\ (len (record_of staked) =? 0) = false) /\
  (result updating = Some ([], 100000, None) /\ depth quitting = 0 /\ (len (record_of quitting) =? 0) = false) /\
  (si_LockEpochs (terms_of quitting) <> 0 /\ si_NextLockEpochs (terms_of quitting) = 0 /\
   18205 < expiry samplePos (terms_of quitting) <= 18212 /\ si_From (terms_of quitting) <> pool) /\
  last_epoch (abs (statedb quitting)) < 18212 /\
  (result early = Some (true, Some []) /\ last_epoch (abs waiting) < 18212).
Proof.
  pose proof evaluated as H. repeat match goal with H : (_ && _)%bool = true |- _ => apply andb_prop in H as [? ?] end.
  repeat match goal with
  | H : is_done _ = true |- _ => apply is_done_result in H
  | H : is_idle _ = true |- _ => apply is_idle_result in H
  | H : negb _ = true |- _ => apply negb_true_iff in H
  | H : bool_decide _ = false |- _ => apply bool_decide_eq_false_1 in H
  | H : (_ <? _) = true |- _ => apply Z.ltb_lt in H
  | H : (_ <=? _) = true |- _ => apply Z.leb_le in H
  | H : (_ =? _) = true |- _ => apply Z.eqb_eq in H
  end.
  split_and!; assumption || (apply Z.eqb_neq; assumption).
Qed.

Lemma alice_ne : alice <> pool.
Proof. by apply (bool_decide_unpack _); vm_compute. Qed.

Lemma staked_step : step wanEnv samplePos (stakeDB []) (ECall alice stakeInInput (10000 * ether)) (statedb staked).
Proof.
  apply (step_call wanEnv samplePos (stakeDB []) (atEpoch 18200) 1 (AccountRef alice) stakeInInput 100000 (10000 * ether)
    (stakeEVM []) [] 100000 None staked); [reflexivity..|exact alice_ne|unfold ether; lia|lia|exact (proj1 (proj1 facts))|].
  destruct facts as (_ & (H & _) & _). exact (returns_final (stakeEVM []) staking _ H).
Qed.
Lemma quitting_step : step wanEnv samplePos (statedb staked) (ECall alice noRenewInput 0) (statedb quitting).
Proof.
  destruct facts as ([_ Hlen] & (_ & Hdep & _) & (H & _) & _).
  apply (step_call wanEnv samplePos (statedb staked) (atEpoch 18200) 1 (AccountRef alice) noRenewInput 100000 0
    staked [] 100000 None quitting); [reflexivity|exact Hdep|exact alice_ne|lia|lia|exact Hlen|].
  exact (returns_final staked updating _ H).
Qed.

Lemma stakeDB_ok : solvent wanEnv (stakeDB []).
Proof. by apply stakeDB_solvent. Qed.
Lemma staked_ok : solvent wanEnv (statedb staked).
Proof. exact (step_solvent wanEnv samplePos (stake_env (ctx wanEnv)) _ _ _ stakeDB_ok staked_step). Qed.
Lemma quitting_ok : solvent wanEnv (statedb quitting).
Proof. exact (step_solvent wanEnv samplePos (stake_env (ctx wanEnv)) _ _ _ staked_ok quitting_step). Qed.

Lemma stake_call_records_witness :
  exists left err e',
    evmCall env18200 (run env18200 2) (AccountRef alice) pool stakeInInput 100000 (10000 * ether) (stakeEVM []) =
      Ok ([], left, err) e' /\
    let s := abs (statedb (stakeEVM [])) in let s' := abs (statedb e') in
    match err with
    | None =>
        staking_inv s' /\
        recorded s' = recorded s + (if payable sample_hash (take 4 stakeInInput) then 10000 * ether else 0) /\
        forall a, balance_of s' a = balance_of s a - (if decide (alice = a) then 10000 * ether else 0)
                                    + (if decide (pool = a) then 10000 * ether else 0)
    | Some _ => s' = s
    end.
Proof.
  destruct stakeDB_ok as [Hd Hs Hi _].
  exact (stake_call_records env18200 samplePos (stake_env _) 1 (AccountRef alice) stakeInInput 100000 (10000 * ether)
    (stakeEVM []) Hd Hs Hi eq_refl ltac:(unfold ether; lia) ltac:(lia) (proj1 (proj1 facts))).
Defined.

Lemma record_at e : solvent wanEnv (statedb e) -> (len (record_of e) =? 0) = false ->
  staker_at (abs (statedb e)) (GetStakeInKeyHash validator) (record_of e) (terms_of e).
Proof.
  intros [_ _ Hi _] Hlen. unfold record_of in *.
  destruct (stakers (abs (statedb e)) !! GetStakeInKeyHash validator) as [b|] eqn:E; [|done]. cbn [default from_option id] in *.
  destruct (inv_stakers _ Hi _ _ E) as [st Hat]. unfold terms_of, record_of. rewrite E. cbn [default from_option id].
  by rewrite (dec_staker _ _ _ _ Hat).
Qed.

Lemma staked_record : staker_at (abs (statedb staked)) (GetStakeInKeyHash validator) (record_of staked) (terms_of staked).
Proof. apply record_at; [apply staked_ok|]. by destruct facts as (_ & (_ & _ & H) & _). Qed.
Lemma quitting_record : staker_at (abs (statedb quitting)) (GetStakeInKeyHash validator) (record_of quitting) (terms_of quitting).
Proof. apply record_at; [apply quitting_ok|]. by destruct facts as (_ & _ & (_ & _ & H) & _). Qed.

Lemma stakes_guarded_witness :
  exists b' st', staker_at (abs (statedb quitting)) (GetStakeInKeyHash validator) b' st' /\ guarded alice (terms_of staked) st'.
Proof.
  destruct staked_ok as [Hd Hs Hi _]. destruct facts as ([_ Hlen] & (_ & Hdep & _) & (Hrun & _) & _).
  exact (stakes_guarded env18200 samplePos (stake_env _) 1 (AccountRef alice) noRenewInput 100000 0 staked 100000 quitting
    _ _ _ Hd Hs Hi Hdep ltac:(lia) ltac:(lia) Hlen (returns_final staked updating _ Hrun) staked_record).
Defined.





(** * Calls that do not move the money *)

(** Bob's code passes its input and value on with CALLCODE. *)
Definition forwarder : list byte :=
  Z_byte <$> [0x36; 0x60; 0; 0x60; 0; 0x37;
              0x60; 0; 0x60; 0; 0x36; 0x60; 0; 0x34; 0x60; 218; 0x5a; 0xf2; 0].

Lemma messages_keep_records_witness :
  exists r e', send wanEnv fuel100k (MCall (AccountRef alice) bob (10000 * ether)) stakeInInput 100000 (wanEVM forwarder) = Ok r e' /\
    staking_inv (abs (statedb e')).
Proof.
  apply (messages_keep_records wanEnv sample_image emptyHash sampleVerify samplePos (fun _ => None)); [apply wan_env|..].
  - by apply wanEVM_ok.
  - split; [split|done]; unfold ether; lia.
  - exact (proj1 (proj1 facts)).
  - lia.
  - unfold fuel100k. lia.
Defined.

(** The transaction of Alice to Bob, and what evaluation shows of it. *)
Definition forwarding :=
  evmCall env18200 (run env18200 100) (AccountRef alice) bob stakeInInput 200000 (10000 * ether) (stakeEVM forwarder).
Definition forwarded : EVM sampleDB := final (stakeEVM forwarder) forwarding.
Definition is_quiet {S E} (r : outcome S E (list byte * Z * option vmerror)) : bool :=
  match result r with Some ([], _, None) => true | _ => false end.
Lemma is_quiet_result {S E} (r : outcome S E (list byte * Z * option vmerror)) :
  is_quiet r = true -> exists left, result r = Some ([], left, None).
Proof. unfold is_quiet. destruct (result r) as [[[[|] left] [|]]|]; try done. by exists left. Qed.
Lemma forwarded_evaluated :
  (is_quiet forwarding && (recorded (abs (statedb forwarded)) =? 10000 * ether) &&
   (balance_of (abs (statedb forwarded)) pool =? 0) && (balance_of (abs (statedb forwarded)) bob =? 10000 * ether))%bool = true.
Proof. vm_compute. reflexivity. Qed.
Lemma forwarded_returns r : result forwarding = Some r -> forwarding = Ok r forwarded.
Proof. exact (returns_final (stakeEVM forwarder) forwarding r). Qed.
#[global] Opaque forwarded.

