(* ===== verification/TransitionTheorems.v ===== *)
(** What applying a transaction guarantees (core/state_transition.go): it never
    panics, creates no money, uses the gas pool exactly, charges a failed
    transaction its fee and nothing else, and accepts a stamp once. *)

From S2P Require Import Rlp RlpSpec RlpDecode RlpCodec Staking Contracts.
From S2P Require Import Prelude BigMath Encoding Abi VmData VmState StateSpec Ota Privacy Instructions Evm.
From S2P Require Import TxTypes Transition EvmInv PrivacySpec PrivacySafety EvmStep EvmSafety TransitionSafety.
From S2P Require Import CoreState CoreStateSpec StateCodec Sample WanSample EvmTheorems PrivacyTheorems.
Import Big GoMath Common Addr Ota Privacy Secp Transition Incentive.

Section Theorems.
Context {db : Type} `{!StateDB db} (env : Env db) `{!StateDBSpec db (Keccak256Hash env)}.
Context (image_of : list byte -> PublicKey).
Context (VerifyRingSign : list byte -> list PublicKey -> PublicKey -> list Z -> list Z -> bool).
Context (posCfg : PosConfig.Config) (others : Address -> option (PrecompiledContract db)).
Context (Henv : wan_env_ok env image_of (fee_key env) VerifyRingSign posCfg others).
Context (IsPosActive : bool) (fuel : nat).
Abbreviation hash := (Keccak256Hash env).
Abbreviation wledger := (wan_ledger hash image_of ∅ (fee_key env)).
Abbreviation transition msg := (TransitionDb env VerifyRingSign IsPosActive (run env fuel) msg).

Lemma transition_wp spent p e msg :
  msg_ok fuel msg -> evm_ok env (wan_ledger hash image_of spent (fee_key env)) e -> readOnly e = false ->
  wp (transition msg) (tx_post env image_of spent IsPosActive msg p (abs (statedb e)))
    (fun _ => tx_undoable env (statedb e)) (NewStateTransition e msg p).
Proof.
  intros Hm He Hr. apply TransitionDb_wp; [apply Henv|by apply (wan_env_env_ok _ _ _ _ VerifyRingSign posCfg others)|done|..].
  - by eapply evm_stage.
  - by apply evm_sound.
Qed.


(** C37. The gas of an ordinary transaction: at least the intrinsic gas and at most
    the gas limit is required, and at most half of it is refunded. *)
Theorem transaction_gas msg e p ret required used failed st :
  msg_ok fuel msg -> evm_ok env wledger e -> readOnly e = false -> ordinary msg = true ->
  transition msg (NewStateTransition e msg p) = Ok (ret, required, used, failed) st ->
  IntrinsicGas (msg_Data msg) (To msg) true <= required <= msg_Gas msg /\
  required - required / 2 <= used <= required.
Proof.
  intros Hm He Hr Ho Ht. pose proof (transition_wp ∅ p e msg Hm He Hr) as Hwp.
  destruct (wp_result _ _ _ _ _ _ Ht Hwp) as (d & s' & _ & _ & _ & _ & _ & _ & Hgas).
  by destruct (Hgas Ho) as (? & ? & _).
Qed.

(** ** The effect of a failed call *)

Abbreviation price msg := (msg_GasPrice msg).

(** Who receives the fee. *)
Definition fee_receiver : Address := if IsPosActive then IncentivePrecompileAddr else Coinbase (ctx env).

Lemma acct_add a v s b :
  acct (abs_update (UAddBalance a v) s) b =
  if decide (a = b) then with_balance (fun x => x + Z.max 0 v) (acct s b) else acct s b.
Proof.
  cbn [abs_update]. case_decide as H; [subst; by rewrite acct_on_account_eq|by rewrite acct_on_account_ne].
Qed.

Lemma acct_sub a v s b :
  acct (abs_update (USubBalance a v) s) b =
  if decide (a = b) then with_balance (fun x => x - Z.max 0 v) (acct s b) else acct s b.
Proof.
  cbn [abs_update]. case_decide as H; [subst; by rewrite acct_on_account_eq|by rewrite acct_on_account_ne].
Qed.

Lemma acct_nonce a n s b :
  acct (abs_update (USetNonce a n) s) b = if decide (a = b) then with_nonce n (acct s b) else acct s b.
Proof.
  cbn [abs_update]. case_decide as H; [subst; by rewrite acct_on_account_eq|by rewrite acct_on_account_ne].
Qed.

Lemma acct_paid fee s b : b <> fee_receiver -> acct (paid env IsPosActive fee s) b = acct s b.
Proof.
  unfold paid, fee_receiver. destruct IsPosActive; intros Hb; [by apply collect_acct|].
  rewrite acct_add. by rewrite decide_False.
Qed.

Lemma acct_after_refund msg i g s b :
  acct (after_refund msg i g s) b =
  if decide (From msg = b)
  then with_balance (fun x => x + Z.max 0 (g * price msg) + Z.max 0 (refunded_gas i g s * price msg)) (acct s b)
  else acct s b.
Proof.
  unfold after_refund. rewrite acct_add. set (s1 := if _ >? _ then _ else _).
  assert (acct s1 b = acct (abs_update (UAddBalance (From msg) (g * price msg)) (ensure (From msg) s)) b) as ->.
  { unfold s1. by case_match. }
  rewrite acct_add, ensure_acct. by case_decide.
Qed.

Lemma acct_called msg a s b :
  acct (called msg a (bought_gas msg s)) b =
  if decide (From msg = b)
  then with_nonce (u64 (a_nonce (acct s b) + 1))
         (with_balance (fun x => x - Z.max 0 (msg_Gas msg * price msg)) (acct s b))
  else acct s b.
Proof.
  unfold called. rewrite ensure_acct, acct_nonce. unfold bought_gas. rewrite !acct_sub, !ensure_acct.
  case_decide as H; [|done]. subst b. by rewrite decide_True.
Qed.

Lemma logs_failed msg a s fee i g :
  logs (paid env IsPosActive fee (after_refund msg i g (called msg a (bought_gas msg s)))) = logs s.
Proof.
  assert (forall c x, logs (ensure c x) = logs x) as He by (intros; unfold ensure; by destruct (absent x c)).
  unfold paid, after_refund, collect. set (s1 := called _ _ _).
  assert (logs s1 = logs s) as <- by (unfold s1, called, bought_gas; cbn; by rewrite He; cbn; rewrite He).
  destruct IsPosActive, (_ >? _); cbn; apply He.
Qed.


(** ** Stamps *)

Lemma privacy_not_ordinary msg : IsPrivacyTransaction (TxType msg) = true -> ordinary msg = false.
Proof. intros Hp. destruct (ordinary msg) eqn:Ho; [|done]. by rewrite ordinary_not_privacy in Hp. Qed.

Lemma paid_images fee s :
  bytes_of (paid env IsPosActive fee s) otaImageStorageAddr = bytes_of s otaImageStorageAddr.
Proof.
  destruct storage_addr_ne as (_ & _ & ?). unfold paid. destruct IsPosActive; [|by apply bytes_of_keep].
  rewrite collect_bytes. by rewrite decide_False.
Qed.

(** A privacy transaction that is accepted carries a new key image and stores it. *)
Lemma privacy_wp p e msg :
  msg_ok fuel msg -> evm_ok env wledger e -> readOnly e = false -> IsPrivacyTransaction (TxType msg) = true ->
  wp (transition msg) (fun _ st => exists image, stamp_image (msg_Data msg) = Some image /\
      image_at env (abs (statedb e)) image = [] /\ image_at env (abs (state st)) image <> [])
    (fun _ _ => True) (NewStateTransition e msg p).
Proof.
  intros [Hg Hp Hv Hb Hpp HN] He Hr Hpriv. pose proof (privacy_not_ordinary msg Hpriv) as Hord. rewrite Hord in HN.
  pose proof (wan_linkable _ _ _ _ _ _ Henv) as Hl.
  assert (forall spent, env_ok env (wan_ledger hash image_of spent (fee_key env))) as Hok.
  { intros. by apply (wan_env_env_ok _ _ _ _ VerifyRingSign posCfg others). }
  pose proof (IntrinsicGas_pos (msg_Data msg) (To msg)) as Hpos.
  refine (wp_mono _ _ _ (fun _ => tx_undoable env (statedb e)) _ _ _ (fun _ _ H => H) (fun _ _ _ => I)).
  unfold TransitionDb, NewStateTransition. fold (ordinary msg). rewrite Hord, Hpriv.
  apply wp_bind, wp_ret, wp_bind. eapply from_wp; [by eapply evm_stage|]. intros e2 He2.
  pose proof (sound_ensure env image_of ∅ (From msg) _ (evm_sound _ _ _ _ He)) as Hs2.
  apply wp_bind, wp_gets. cbn [data]. set (ig := IntrinsicGas _ _ _) in *.
  destruct (Z.gtb_spec (BitLen ig) 64) as [|Hbl]; [by eapply wp_throw, stage_undoable|].
  apply BitLen_le in Hbl; [|lia]. unfold Uint64. rewrite Z.abs_eq in * by lia. rewrite u64_small by lia.
  apply wp_bind. eapply preProcess_wp; [exact Hl|exact He2|exact Hs2|done|by apply Hpp|].
  intros tot left b' e3 s3 Hleft Htot Hmx _ He3 Hs3 _ Hb' Hor.
  apply wp_bind. eapply useGas_wp; [exact He3|lia|lia|]. intros Hi.
  destruct Hor as [|(image & Himg & Hold & Hnew)]; [lia|].
  unfold image_at, bytes_of in Hold. rewrite ensure_acct in Hold.
  set (spent := bytes_of s3 otaImageStorageAddr).
  assert (sound env image_of spent s3) as Hs3'.
  { destruct Hs3 as [? [] ?]. split; [done| |done]. by split. }
  apply wp_bind. eapply (execute_wp env image_of spent); [done|exact He3|exact Hs3'|lia|lia|done|done|].
  intros ret err g' e4 s4 _ He4 Hs4 _ _. case_bool_decide; [by eapply wp_throw, stage_undoable|].
  do 3 apply wp_bind, wp_ret. apply wp_bind. eapply payFee_wp; [exact He4|]. intros e5 He5. apply wp_ret.
  exists image. split_and!; [done|done|]. unfold state. cbn [st_evm]. rewrite (sg_abs _ _ _ _ He5).
  unfold image_at in *. rewrite paid_images. intros Hz. apply Hnew.
  destruct (bytes_of s3 otaImageStorageAddr !! hash (FromECDSAPub image)) as [b|] eqn:Eb; [|done].
  pose proof (lookup_weaken _ _ _ _ Eb (inv_spent _ _ _ _ (snd_inv _ _ _ _ Hs4))) as Hb4. by rewrite Hb4 in Hz.
Qed.

(** C27. A stamp pays for one transaction: after a privacy transaction is accepted,
    every other one with the same key image is refused in every state in which
    the images spent so far are still recorded. *)
Theorem stamp_spent_once msg e p r st msg2 e2 p2 :
  msg_ok fuel msg -> evm_ok env wledger e -> readOnly e = false ->
  IsPrivacyTransaction (TxType msg) = true ->
  transition msg (NewStateTransition e msg p) = Ok r st ->
  msg_ok fuel msg2 -> evm_ok env wledger e2 -> readOnly e2 = false ->
  IsPrivacyTransaction (TxType msg2) = true -> stamp_image (msg_Data msg2) = stamp_image (msg_Data msg) ->
  images env (state st) ⊆ images env (statedb e2) ->
  exists err st2, transition msg2 (NewStateTransition e2 msg2 p2) = Fail err st2.
Proof.
  intros Hm He Hr Hp Ht Hm2 He2 Hr2 Hp2 Hsame Hsub.
  destruct (wp_result _ _ _ _ _ _ Ht (privacy_wp p e msg Hm He Hr Hp)) as (image & Himg & _ & Hnew).
  pose proof (privacy_wp p2 e2 msg2 Hm2 He2 Hr2 Hp2) as Hwp. unfold wp in Hwp.
  destruct (transition msg2 _) as [r2 st2|err st2| |]; try done; [|by exists err, st2]. exfalso.
  destruct Hwp as (image2 & Himg2 & Hold & _). rewrite Hsame, Himg in Himg2. injection Himg2 as <-.
  apply Hnew. unfold image_at in *. unfold images in Hsub.
  destruct (bytes_of (abs (state st)) otaImageStorageAddr !! hash (FromECDSAPub image)) as [b|] eqn:Eb; [|done].
  pose proof (lookup_weaken _ _ _ _ Eb Hsub) as Hb2. by rewrite Hb2 in Hold.
Qed.

(** A transaction that is neither normal nor privacy nor proof of stake is
    never executed: it is refused for lack of gas. *)
Theorem unknown_type_refused msg e p :
  IsNormalTransaction (TxType msg) = false -> IsPosTransaction (TxType msg) = false ->
  IsPrivacyTransaction (TxType msg) = false ->
  exists st, transition msg (NewStateTransition e msg p) = Fail (vmErr ErrOutOfGas) st.
Proof.
  intros Hn Hpos Hpriv. pose proof (IntrinsicGas_pos (msg_Data msg) (To msg)) as Hig.
  assert (wp (transition msg) (fun _ _ => False) (fun err _ => err = vmErr ErrOutOfGas) (NewStateTransition e msg p)) as Hwp.
  { unfold TransitionDb, NewStateTransition. rewrite Hn, Hpos, Hpriv. cbn [orb].
    apply wp_bind, wp_ret, wp_bind, wp_bind, wp_modify, wp_ret. apply wp_bind, wp_gets. cbn [data set_state].
    destruct (Z.gtb_spec (BitLen (IntrinsicGas (msg_Data msg) (To msg) true)) 64) as [|Hb]; [by apply wp_throw|].
    apply BitLen_le in Hb; [|lia]. rewrite Z.abs_eq in Hb by lia.
    apply wp_bind, wp_ret, wp_bind, wp_bind, wp_gets. cbn [gas set_state]. unfold Uint64.
    rewrite Z.abs_eq, u64_small by lia. destruct (Z.ltb_spec 0 (IntrinsicGas (msg_Data msg) (To msg) true)); [|lia].
    by apply wp_throw. }
  unfold wp in Hwp. destruct (transition msg _) as [|err st| |]; try done. subst err. by exists st.
Qed.

(** The gas refund overwrites the refund counter of the state: when the counter
    is less than half of the gas used, refundGas leaves it multiplied by the gas
    price. *)
Theorem refund_counter_overwritten msg p g i b e :
  evm_ok env wledger e -> readOnly e = false -> 0 <= g <= i -> i < 2 ^ 64 ->
  GetRefund (statedb e) < (i - g) / 2 ->
  exists st, refundGas msg (mkTransition p g i b e) = Ok tt st /\
    GetRefund (state st) = GetRefund (statedb e) * msg_GasPrice msg.
Proof.
  intros He Hr Hg Hi Hlt. rewrite (GetRefund_spec (hash:=hash)) in * by apply He.
  pose proof (refund_nonneg _ (evm_state _ _ _ He)) as Hpos.
  assert (wp (refundGas msg) (fun _ st => GetRefund (state st) = StateSpec.refund (abs (statedb e)) * msg_GasPrice msg)
    (fun _ _ => False) (mkTransition p g i b e)) as Hwp.
  { eapply refundGas_wp; [by eapply evm_stage|done..|]. intros d1 e' g' Hst. unfold state. cbn [st_evm].
    rewrite (GetRefund_spec (hash:=hash)) by apply Hst. rewrite (sg_abs _ _ _ _ Hst). unfold after_refund.
    rewrite (proj2 (Z.gtb_lt _ _) Hlt). done. }
  unfold wp in Hwp. destruct (refundGas msg _) as [[] st| | |]; try done. by exists st.
Qed.
End Theorems.

(** * Instances *)

(** Alice calls Bob's contract. *)
Definition callMsg : Message := mkMessage alice (Some bob) 1 100000 5 0 true [] NORMAL_TX.

Abbreviation callTx code := (TransitionDb wanEnv sampleVerify true (run wanEnv fuel100k) callMsg
  (NewStateTransition (wanEVM code) callMsg 200000)).

Ltac tx_sample :=
  lazymatch goal with
  | |- evm_ok _ _ (wanEVM _) => by apply wanEVM_ok
  | |- msg_ok _ _ => split; try done; unfold fuel100k; cbn; lia
  | |- _ => done
  end.


Definition storedSt : StateTransition sampleDB := final (NewStateTransition (wanEVM storing) callMsg 0) (callTx storing).
Lemma callTx_storing : callTx storing = Ok ([], 41012, 41012, false) storedSt.
Proof. apply returns_final. vm_compute. reflexivity. Qed.
#[global] Opaque storedSt.

Lemma transaction_gas_witness :
  21000 <= 41012 <= 100000 /\ 41012 - 41012 / 2 <= 41012 <= 41012.
Proof.
  apply (transaction_gas wanEnv sample_image sampleVerify samplePos (fun _ => None) (wan_env (fee_key wanEnv)) true
    fuel100k callMsg (wanEVM storing) 200000 [] 41012 41012 false storedSt); [tx_sample..|exact callTx_storing].
Defined.

Definition failedSt : StateTransition sampleDB := final (NewStateTransition (wanEVM failing) callMsg 0) (callTx failing).
Lemma callTx_failing : callTx failing = Ok ([], 100000, 100000, true) failedSt.
Proof. apply returns_final. vm_compute. reflexivity. Qed.
#[global] Opaque failedSt.


(** A privacy transaction paid by the coin of Alice. *)
Definition stampData : list byte :=
  [x00; x00; x00; x00] ++ default [] (Abi.Pack [Abi.StringTy; Abi.BytesTy] [Abi.VString ringSigned; Abi.VBytes []]).
Definition stampMsg (price : Z) : Message := mkMessage alice (Some bob) price 0 0 0 false stampData PRIVACY_TX.
Definition fuel500k : nat := Z.to_nat 500002.
Definition price17 : Z := 100000000000000000.

Abbreviation stampTx := (TransitionDb wanEnv sampleVerify true (run wanEnv fuel500k) (stampMsg price17)
  (NewStateTransition afterBuy (stampMsg price17) 1000000)).
Definition stampSt : StateTransition sampleDB := final (NewStateTransition (wanEVM []) (stampMsg price17) 0) stampTx.
Lemma stampTx_Ok : exists r, stampTx = Ok r stampSt.
Proof. apply returns_some. vm_compute. reflexivity. Qed.
#[global] Opaque stampSt.

Lemma stampMsg_ok : msg_ok fuel500k (stampMsg price17).
Proof.
  split; [done|done|done|apply Z.ltb_lt; vm_compute; reflexivity|done|].
  unfold fuel500k. change (ordinary (stampMsg price17)) with false. cbv iota.
  change (max_value / msg_GasPrice (stampMsg price17)) with 500000. lia.
Qed.

Lemma stampSt_ok : evm_ok wanEnv (wan_ledger sample_hash sample_image ∅ (fee_key wanEnv)) (st_evm stampSt) /\
  readOnly (st_evm stampSt) = false.
Proof.
  destruct stampTx_Ok as [[[[ret req] used] failed] Hr]. pose proof (afterBuy_ok (fee_key wanEnv)) as He.
  assert (readOnly afterBuy = false) as Hro by (vm_compute; reflexivity).
  pose proof (transition_wp wanEnv sample_image sampleVerify samplePos (fun _ => None) (wan_env (fee_key wanEnv)) true
    fuel500k ∅ 1000000 afterBuy (stampMsg price17) stampMsg_ok He Hro) as Hwp.
  destruct (wp_result _ _ _ _ _ _ Hr Hwp) as (d & s & Hst & Hs & _). clear Hr Hwp.
  split; [exact (stage_evm _ _ _ _ _ _ Hst Hs)|exact (sg_writing _ _ _ _ Hst)].
Qed.

Lemma stamp_spent_once_witness :
  exists err st2, TransitionDb wanEnv sampleVerify true (run wanEnv fuel500k) (stampMsg price17)
    (NewStateTransition (st_evm stampSt) (stampMsg price17) 1000000) = Fail err st2.
Proof.
  destruct stampTx_Ok as [r Hr]. destruct stampSt_ok as [He Hro].
  refine (stamp_spent_once wanEnv sample_image sampleVerify samplePos (fun _ => None) (wan_env (fee_key wanEnv)) true
    fuel500k (stampMsg price17) afterBuy 1000000 r stampSt (stampMsg price17) (st_evm stampSt) 1000000
    stampMsg_ok (afterBuy_ok _) _ eq_refl Hr stampMsg_ok He Hro eq_refl eq_refl _).
  - vm_compute. reflexivity.
  - reflexivity.
Defined.

Lemma unknown_type_refused_witness :
  let msg := mkMessage alice (Some bob) 1 100000 0 0 true [] 3 in
  exists st, TransitionDb wanEnv sampleVerify true (run wanEnv fuel100k) msg (NewStateTransition (wanEVM []) msg 200000)
    = Fail (vmErr ErrOutOfGas) st.
Proof.
  apply (unknown_type_refused wanEnv sampleVerify true fuel100k
    (mkMessage alice (Some bob) 1 100000 0 0 true [] 3) (wanEVM []) 200000); reflexivity.
Defined.

(** A machine whose refund counter is not zero. *)
Definition refundEVM : EVM sampleDB := set_db (wanEVM []) (apply_update (UAddRefund 100) (wanState [])).

Lemma refundEVM_ok : evm_ok wanEnv (wan_ledger sample_hash sample_image ∅ (fee_key wanEnv)) refundEVM.
Proof.
  refine (proj1 (evm_update wanEnv _ (wan_env_env_ok _ _ _ _ _ _ _ (wan_env (fee_key wanEnv))) (wanEVM [])
    (UAddRefund 100) _ I ltac:(cbn; lia) ltac:(cbn; lia) _)).
  - by apply wanEVM_ok.
  - discriminate.
Qed.

Lemma refund_counter_overwritten_witness :
  VmState.GetRefund (statedb refundEVM) = 100 /\
  exists st, refundGas (stampMsg 7) (mkTransition 0 20000 100000 [] refundEVM) = Ok tt st /\
    VmState.GetRefund (state st) = VmState.GetRefund (statedb refundEVM) * 7.
Proof.
  split; [vm_compute; reflexivity|].
  apply (refund_counter_overwritten wanEnv sample_image (stampMsg 7) 0 20000 100000 [] refundEVM);
    [apply refundEVM_ok|done..].
Defined.

(** A privacy transaction with a gas price of zero makes the node panic: the
    value of the stamp is divided by the price, which only the transaction pool
    checks. *)
Theorem zero_price_panics :
  TransitionDb wanEnv sampleVerify true (run wanEnv fuel100k) (stampMsg 0)
    (NewStateTransition afterBuy (stampMsg 0) 1000000) = Panic.
Proof. vm_compute. reflexivity. Qed.
